(* ===== verification/_CoqProject ===== *)
-Q . S2P
Prelude.v
GoStrings.v
Algo.v
Key.v
StoreApi.v
Memory.v
Limits.v
MemoryScan.v
Model.v
Compile.v
CompileFacts.v
Match.v
MatchFacts.v
MatchKeys.v
MatchSpec.v
MatchTargets.v
Lua.v
Redis.v
RedisFacts.v
Differential.v
Identity.v
IdentityFacts.v
TokenCache.v
Engine.v
EngineFacts.v
EngineClaims.v
Convert.v
Deployed.v
OpPolicy.v
OpPolicyClaims.v
Records.v
RecordsClaims.v
MgmtKeys.v
RuleView.v
RuleViewFacts.v
MgmtErrors.v
Selector.v
Listing.v
ListingFacts.v
Applicability.v
ApplicabilityFacts.v
ApplicabilityClaims.v
Sanitize.v
Sampler.v
Rls.v
RlsClaims.v
Manifest.v
ConfigStore.v
SvcConfig.v
SvcConfigClaims.v
MgmtCalls.v
AddrReset.v
AddrResetClaims.v
Bulk.v
Resets.v
ResetsFacts.v
ResetsClaims.v
ResetsQuiet.v
ResetsCommand.v
Fleet.v
Status.v
Metrics.v
Controller.v
FleetFacts.v
ControllerClaims.v
ReadyClaims.v
WatchLoop.v
Runners.v
RedisRecords.v
RedisRecordsFacts.v
RedisRecordsOps.v
RedisRecordsClaims.v
Simulation.v
Access.v
CounterConn.v
Wiring.v
ServiceApp.v
Views.v
Load.v
Fields.v
