(* ===== verification/Prelude.v ===== *)
(** * Verification of the rate-limit service: overview and prelude

    The program limits the requests of API gateways. A policy author writes a
    RateLimitPolicy resource; the operator decides which generation of it is
    enforced and writes it to a ConfigMap; the service compiles it with the
    engine into a snapshot and answers, for each request, whether it is allowed
    and what the rate-limit headers say, counting in Redis. A management API
    inspects and resets counters.

    ** Parts and files

    Definitions keep the names of the Go source; where two parts use the same
    name, the model's carries the part's prefix or suffix. Paths are under src/.
    A file Xyz holds a part's data and operations; XyzFacts and XyzClaims hold
    what is proved of it where that is long.

    The engine (engine/):
    - Prelude: results, 64-bit arithmetic with its wrap-around, generic lemmas.
      GoStrings: the string operations the source uses.
    - Algo (algo): windows, their validation, the emission interval and the
      depth of the GCRA bucket, the registry of algorithms.
    - Key (key): the layout of counter keys and their escaping.
    - StoreApi (store/store.go): buckets, verdicts, the shared guards, and the
      contract between engine and store as the class [CounterStore]: the
      abstract state is a level per key, and the laws say what Decide, Peek,
      Reset and the passing of time do to it. [cap] bounds the counts the store
      keeps exactly.
    - Memory (store/memory): the in-memory store as functions on a map of
      entries; it ends with the [CounterStore] instance. Limits: what the
      contract enforces over traces of calls, for any store, and for this one.
      MemoryScan: walks of its cursors.
    - Lua, Redis, RedisFacts (store/redis, redis.go and script.lua): the
      decision script in the double arithmetic of Lua, its reply and the Go side
      around it, Reset and Scan, over the class [RedisServer] of the commands it
      uses; RedisFacts is its [CounterStore] instance. Differential: any two
      stores of the contract answer alike.
    - Model, Compile (model, compile): a policy as authored and the compiler, a
      writer of problems that can panic, and what a compiled snapshot satisfies
      ([snapshot_ok]).
    - Match, MatchKeys, MatchSpec, MatchTargets (match): the target and rule
      phases; the buckets of a request and their keys; what modes, templates,
      prefixes and costs mean; the introspection by path. MatchKeys ends with
      the decimal numbers of strconv.
    - Identity (identity): the payload's bounds, claims and explicit keys, over
      the class [Platform] of JSON decoding, lowercasing and hashing. TokenCache
      (tokencache.go): the generational cache and its interleavings as a step
      relation.
    - Engine (engine.go): the pipeline of Decide and Peek over any
      [CounterStore], the rule outcomes and the headers.

    From the resource to the replica:
    - Convert (api/v1, internal/convert): the resource and its conversion.
      Deployed: resource, conversion, compiler, engine and Redis together.
    - Load, OpPolicy (operator/internal/policy): the objects as they are read,
      which generation of a policy is enforced, and the fit into the ConfigMap,
      over the classes [Converter] and [Codec]. Load ends with the watches that
      wake the writer, as a step relation over the class [Watched].
    - Manifest, Fields (api/manifest): the codec of manifest, payloads and
      persisted bundles, the instance of [Codec], over the class [Wire]; the
      field paths that pin the format.
    - ConfigStore (operator/internal/config): loading and saving the ConfigMap,
      with the faults of the API server as inputs.
    - SvcConfig (service/internal/store, config): the rule set a replica
      serves, the reader of the mounted directory, the applier and the watcher.
      WatchLoop: the watcher's loop over notifications and timers, with a clock.
    - Fleet, Status, Controller (operator/internal/controller): the probe of the
      replicas, the judgement of Ready, one reconcile of a policy with its
      status and events. ReadyClaims follows a generation from the object to
      the replicas.
    - Metrics (internal/metrics): the published series, the pruner, the
      instrumented store; what the writer of the ConfigMap and the applier
      record.

    The rate-limit server (service/internal/rls):
    - Rls: ShouldRateLimit from the descriptors to the answer with its headers.
      Sanitize: what reaches a log or an audit line. Sampler: the log sampler
      and its interleavings; its Module [logr] is the adapter of
      internal/process between logr and the platform logger, over Go's slices.

    The management API (service/internal/management, ruleview, records, debug):
    - Access: who may call it: tokens, callers, roles and routes, the verifier's
      construction (also m2m, and of settings what it reads).
    - RuleView: the rendering of a rule set. Views: the domain index, the status
      and the debug pages.
    - MgmtErrors, MgmtKeys, Selector: errors, parsed counter keys, selections
      and cursors. Listing: the listing of counters, and the client that
      follows its continuations. Applicability: the rules a partial identity
      meets. Simulation: one request judged without charging.
    - Records, RedisRecords: the records, leases and tokens of commands, in
      process and as Redis scripts over the class [RecordServer]; the Redis
      store is shown to answer as the one in process, call by call
      (RedisRecordsOps) and over runs (RedisRecordsClaims).
    - MgmtCalls: handlers as programs over the shared stores, with the calls of
      others and faults between their own. AddrReset: the addressed reset. Bulk:
      the body of a bulk reset and the sweep; Resets: its handler. ResetsClaims,
      ResetsQuiet and ResetsCommand: what a command may delete, an undisturbed
      run, a preview and the execution it confirms.
    - CounterConn (redisconn, settings): the connection to the counter store and
      the dialer, whose lookups and dials are a step relation.

    The service as a process (service/internal/app, service/cmd):
    - Runners (rls/runner.go, management/server.go, [serve] of app.go): the
      listeners from their start to their drain, step relations over the class
      [NetServer] of what a server of a library does by itself.
    - Wiring (app.go, settings.go): the options, the choice of the counter store
      with its clients, and [Build].
    - ServiceApp (app.go, main.go, process/signal.go): [Run] over the classes
      [ErrGroup] and [Members]; the watcher, the listeners, the credentials'
      source and the store check are the members; the readiness, the signals
      and the exit status.

    ** What the theorems show

    - The limits hold: over any trace of calls a GCRA bucket admits at most its
      burst and one unit per emission interval, a fixed window at most its
      requests per window and per reset in it; the in-memory store refines the contract, 64-bit
      arithmetic included; the Redis script, in doubles and with expiring keys,
      answers every trace as the in-memory store does, and so does the engine
      over it for every resource that compiles.
    - The engine: a request over a compiled snapshot always gets a decision,
      allowed exactly when every enforcing bucket has room and charged all or
      nothing; retry times, remaining and effective windows are exact; a peek
      agrees with the decision it previews; shadow rules never change what is
      enforced.
    - The compiler: always returns; a policy is taken whole or not at all; the
      buckets of any request fit the budget, have distinct keys and valid
      windows.
    - Keys: a key determines what it was built from; prefixes and hash tags
      select exactly their rule and domain; parsing gives back what was built.
    - Matching: modes, templates, prefixes and costs mean what their
      declarative definitions say.
    - Identity: what a token yields is bounded and planned; the cache is bounded
      and transparent under every interleaving.
    - Operator: a policy is enforced as written or not at all, over any history
      of readings and passes; the last good
      revision is served through any history of edits; domains do not affect
      each other; a restart changes nothing; the fit ends within the limit or
      with everything that moved set back; the ConfigMap follows the policies
      through failures and concurrent changes; Ready means that every ready replica
      enforces the generation; the propagation clock, the status and the
      warnings settle.
    - Configuration: what the operator saves is what a replica enforces; the
      watcher converges after any readings, within one resync period of a
      change whatever notifications are lost; everything that tells what a
      replica serves tells the same.
    - Checks: the answer of the server is the one of its specification on every
      branch, store errors and several descriptors included.
    - Management: a handler runs only for a named caller; what a listing answers
      is complete, page after page; annotations are sound; a simulation tells
      what the decision path would do; a reset removes exactly what it
      addresses, once; a bulk reset deletes only what it may, runs once, ends,
      and executes what its preview showed. With the limited filter a listing
      shows, and both resets delete, only counters that refused when they were
      judged; the preview and its execution are compared without that filter.
    - Records: outcomes are final, sweeps of a domain exclude each other, and
      both stores agree.
    - The connection keeps its address and is dialable; the dialer never loses
      its addresses or a waiting dial; a service that starts counts in one
      store.
    - The process: a listener stops being ready before it drains and returns
      with nothing in flight; [Run] ends as one and closes the store last; a
      replica is ready only when it answers from rules; the process exits with
      the status of [Run] unless it is signalled twice. Log lines of goroutines
      that share an adapter do not mix.
    - Some theorems show where the code does not do what its comments say; they
      are named in the notes of the development's findings and hold on concrete
      inputs.

    ** Choices and bounds

    - Integers are [Z]. Go's int64 operations where overflow matters are the
      wrapping ones of this file. Instants of the counters are microseconds up
      to 7*10^15 (the year 2191), [maxNow]: with the validated windows this
      keeps every sum in 64 bits and every number of the script below 2^53. A
      bucket of the Redis store counts exactly up to 2^53-1 requests,
      [redis_cap]; the resource's fields are 32-bit, so every converted policy
      is far below. Durations elsewhere are nanoseconds.
    - The clock is an argument of each call, one reading per call; traces carry
      instants that do not go back. A mutex, or the script's atomicity, is the
      atomicity of one call; what a mutex does not cover is a step relation
      (TokenCache, Sampler, CounterConn, Runners, ServiceApp) or other callers'
      operations between two of a handler's own (MgmtCalls). Where a theorem
      says that a step relation can always reach an end, no step of it is
      forced: the libraries' moves are those their classes promise.
    - In WatchLoop time stops at a timer that is due until its case of the
      select was taken, so the bounds are those of a scheduler that runs the
      loop when a channel is ready.
    - Loops over lists are structural. The others carry fuel, and theorems say
      what is enough: one more than the number of keys for the walks of
      [exists_loop] and MemoryScan, the time left until the deadline for the
      sweep and the polls of a bulk reset, one turn per second for the
      verifier's construction, the structs times the longest way between them
      for the field paths, the length of the string for runes and trimming.
    - A panic is [None]; an error is a value of [result] or of the part's error
      type. Error texts carry their arguments, or only what a client branches
      on, where nothing reads them.
    - Redis is assumed not to evict and to expire a key no earlier than its
      time to live, as its documentation says; concrete servers are in the
      witnesses. Regular expressions are predicates on strings. JSON, gzip,
      SHA-256, Unicode case, URLs, JWT and the HTTP router are classes, with
      the laws a theorem uses beside them and instances in the witnesses.
      [encoding/json] replaces bytes that are not UTF-8: the codecs of the
      confirmation token and of a recorded answer promise their round trip for
      UTF-8 only; those of the two documents of the record store promise it for
      every value, which are the strings the service itself put there.
    - The handlers of the management API run over the stores in process
      (MgmtCalls). The listing is stated for any store of the contract.
    - In Load the policies are those of the informer's cache, which changes
      together with the notification it sends; the ConfigMap too changes together
      with its notification, so the time an informer takes to deliver it is left
      out.
    - The process is followed from the call of [SignalContext]: in ServiceApp
      [service_main] is what happens before it.

    ** Not modelled

    Generated deep copies; the store conformance suite, whose expectations are
    theorems here; the operator's start-up: its manager, caches and leader
    election, which are declarations to controller-runtime; flags; the
    declarations of the metric vectors and the pool collector; the near-limit
    comparison in floating point, a parameter of the check; log and audit lines
    beyond the values they quote; the embedded specification page; the report of
    the end-to-end tests. They are calls into libraries or data without
    behaviour of their own. *)

From stdpp Require Export base tactics option list list_numbers numbers gmap sets strings sorting.
From Stdlib Require Export ZArith Lia.

#[export] Set Default Goal Selector "!".
Open Scope Z_scope.

(** ** Fallible code

    Go's pair (value, error) where exactly one side is meaningful. *)
Inductive result (E A : Type) : Type :=
| Ok (a : A)
| Err (e : E).
Arguments Ok {E A} a.
Arguments Err {E A} e.

Declare Scope go_scope.
Delimit Scope go_scope with go.
Open Scope go_scope.

Notation "'let?' x ':=' c 'in' k" :=
  (match c with Ok x => k | Err e => Err e end)
  (at level 10, x pattern, c at level 200, k at level 200) : go_scope.

Definition is_ok {E A} (r : result E A) : bool :=
  match r with Ok _ => true | Err _ => false end.

(** ** Signed 64-bit arithmetic

    Every Go [int64] operation of the source is written with these: the exact
    result wrapped to 64 bits in two's complement. Division and remainder
    truncate toward zero, as Go's do. *)
Definition min_i64 : Z := - 2 ^ 63.
Definition max_i64 : Z := 2 ^ 63 - 1.
Definition i64 (z : Z) : Z := (z + 2 ^ 63) mod 2 ^ 64 - 2 ^ 63.

Definition is_i64 (z : Z) : Prop := min_i64 <= z <= max_i64.

Definition add64 (a b : Z) : Z := i64 (a + b).
Definition sub64 (a b : Z) : Z := i64 (a - b).
Definition mul64 (a b : Z) : Z := i64 (a * b).
Definition div64 (a b : Z) : Z := i64 (Z.quot a b).
Definition rem64 (a b : Z) : Z := i64 (Z.rem a b).

Infix "+i" := add64 (at level 50, left associativity) : go_scope.
Infix "-i" := sub64 (at level 50, left associativity) : go_scope.
Infix "*i" := mul64 (at level 40, left associativity) : go_scope.
Infix "/i" := div64 (at level 40, left associativity) : go_scope.
Infix "%i" := rem64 (at level 40, left associativity) : go_scope.

Lemma i64_id z : is_i64 z -> i64 z = z.
Proof.
  unfold is_i64, min_i64, max_i64, i64. intros H.
  rewrite Z.mod_small; lia.
Qed.

Lemma i64_range z : is_i64 (i64 z).
Proof.
  unfold is_i64, min_i64, max_i64, i64.
  pose proof (Z.mod_pos_bound (z + 2 ^ 63) (2 ^ 64)). lia.
Qed.

Lemma is_i64_intro z : - 2 ^ 63 <= z < 2 ^ 63 -> is_i64 z.
Proof. unfold is_i64, min_i64, max_i64. lia. Qed.

Lemma add64_exact a b : - 2 ^ 63 <= a + b < 2 ^ 63 -> a +i b = a + b.
Proof. intros. by apply i64_id, is_i64_intro. Qed.
Lemma sub64_exact a b : - 2 ^ 63 <= a - b < 2 ^ 63 -> a -i b = a - b.
Proof. intros. by apply i64_id, is_i64_intro. Qed.
Lemma mul64_exact a b : - 2 ^ 63 <= a * b < 2 ^ 63 -> a *i b = a * b.
Proof. intros. by apply i64_id, is_i64_intro. Qed.

Lemma quot_bound a b : 0 < b -> - Z.abs a <= Z.quot a b <= Z.abs a.
Proof.
  intros. destruct (Z_le_gt_dec 0 a).
  - rewrite Z.quot_div_nonneg by lia.
    pose proof (Z.div_pos a b). pose proof (Z.div_le_upper_bound a b a). nia.
  - replace a with (- - a) by lia. rewrite Z.quot_opp_l by lia.
    rewrite Z.quot_div_nonneg by lia.
    pose proof (Z.div_pos (- a) b). pose proof (Z.div_le_upper_bound (- a) b (- a)). nia.
Qed.

Lemma div64_exact a b : 0 < b -> - 2 ^ 63 < a < 2 ^ 63 -> a /i b = Z.quot a b.
Proof.
  intros. apply i64_id, is_i64_intro.
  pose proof (quot_bound a b). lia.
Qed.

Lemma div64_nonneg a b : 0 < b -> 0 <= a < 2 ^ 63 -> a /i b = a / b.
Proof. intros. rewrite div64_exact by lia. by apply Z.quot_div_nonneg; lia. Qed.

Lemma rem64_nonneg a b : 0 < b -> 0 <= a < 2 ^ 63 -> a %i b = a mod b.
Proof.
  intros. unfold rem64. rewrite Z.rem_mod_nonneg by lia.
  apply i64_id, is_i64_intro.
  pose proof (Z.mod_pos_bound a b). pose proof (Z.mod_le a b). lia.
Qed.

(** Rewrites the 64-bit operations of the goal into the exact ones, each side
    condition left to [lia]. *)
Ltac exact64 :=
  repeat first
    [ rewrite add64_exact by lia
    | rewrite sub64_exact by lia
    | rewrite mul64_exact by lia
    | rewrite div64_nonneg by lia
    | rewrite rem64_nonneg by lia ].

(** ** Ceiling division, the rounding the GCRA interval uses. *)
Lemma ceil_div_spec a b :
  0 < b -> let q := (a + b - 1) / b in a <= q * b < a + b.
Proof.
  intros Hb q. subst q.
  pose proof (Z.div_mod (a + b - 1) b). pose proof (Z.mod_pos_bound (a + b - 1) b).
  nia.
Qed.

(** [x / c] is the largest [q] with [q * c <= x]. *)
Lemma div_le_iff x c q : 0 < c -> (q <= x / c <-> q * c <= x).
Proof.
  intros. split; intros H1.
  - pose proof (Z.mul_div_le x c). nia.
  - apply Z.div_le_lower_bound; lia.
Qed.

Lemma div_lt_iff x c q : 0 < c -> (x / c < q <-> x < q * c).
Proof. intros. pose proof (div_le_iff x c q). lia. Qed.

(** ** Generic list lemmas *)
Definition sumZ {A} (f : A -> Z) (l : list A) : Z := foldr (fun x acc => f x + acc) 0 l.

Lemma sumZ_cons {A} (f : A -> Z) x l : sumZ f (x :: l) = f x + sumZ f l.
Proof. done. Qed.

Lemma sumZ_app {A} (f : A -> Z) l1 l2 : sumZ f (l1 ++ l2) = sumZ f l1 + sumZ f l2.
Proof. induction l1 as [|x l1 IH]; simpl; [lia|]. rewrite IH. lia. Qed.

Lemma sumZ_nonneg {A} (f : A -> Z) l :
  Forall (fun x => 0 <= f x) l -> 0 <= sumZ f l.
Proof. induction 1; simpl; lia. Qed.

Definition sumN {A} (f : A -> nat) (l : list A) : nat := foldr (fun x acc => (f x + acc)%nat) 0%nat l.

Lemma sumN_cons {A} (f : A -> nat) x l : sumN f (x :: l) = (f x + sumN f l)%nat.
Proof. done. Qed.

Lemma sumN_app {A} (f : A -> nat) l1 l2 : (sumN f (l1 ++ l2) = sumN f l1 + sumN f l2)%nat.
Proof. induction l1 as [|x l1 IH]; simpl; [lia|]. rewrite IH. lia. Qed.

(** A loop over a list that stops at the first element satisfying a test. *)
Fixpoint find_first {A} (f : A -> bool) (l : list A) : option A :=
  match l with
  | [] => None
  | x :: l => if f x then Some x else find_first f l
  end.

Lemma find_first_Some {A} (f : A -> bool) l x :
  find_first f l = Some x -> x ∈ l /\ f x = true.
Proof.
  induction l as [|y l IH]; simpl; [done|].
  destruct (f y) eqn:E; intros; simplify_eq; [split; [left|done]|].
  destruct IH; [done|]. split; [by right|done].
Qed.

Lemma find_first_None {A} (f : A -> bool) l :
  find_first f l = None <-> Forall (fun x => f x = false) l.
Proof.
  induction l as [|y l IH]; simpl; [split; constructor|].
  destruct (f y) eqn:E; split; intros H.
  - done.
  - inversion H. congruence.
  - constructor; [done|by apply IH].
  - inversion H. by apply IH.
Qed.

(** [forallb] over the booleans of the code, as a statement about elements. *)
Lemma forallb_Forall {A} (f : A -> bool) l :
  forallb f l = true <-> Forall (fun x => f x = true) l.
Proof.
  induction l as [|x l IH]; simpl; [split; [constructor|done]|].
  rewrite andb_true_iff, Forall_cons, IH. done.
Qed.

Lemma existsb_Exists {A} (f : A -> bool) l :
  existsb f l = true <-> Exists (fun x => f x = true) l.
Proof.
  induction l as [|x l IH]; simpl; [split; [done|inversion 1]|].
  rewrite orb_true_iff, Exists_cons, IH. done.
Qed.

(** The step of a loop that keeps the elements whose key was not seen yet. *)
Lemma fresh_cons {A K} `{Countable K} (f : A -> K) (P : A -> Prop) x l k (seen : gset K) :
  f x = k -> k ∉ seen -> P x ->
  NoDup (f <$> l) /\ Forall (fun y => P y /\ f y ∉ {[k]} ∪ seen) l ->
  NoDup (f <$> x :: l) /\ Forall (fun y => P y /\ f y ∉ seen) (x :: l).
Proof.
  intros <- Hx HP [Hn Hf]. rewrite Forall_forall in Hf.
  rewrite fmap_cons, NoDup_cons, Forall_cons, Forall_forall. split_and!; try done.
  - intros (y & Hy & Hin)%list_elem_of_fmap. destruct (Hf y Hin) as [_ Hny].
    apply Hny, elem_of_union_l, elem_of_singleton. done.
  - intros y Hin. destruct (Hf y Hin) as [? Hny]. split; [done|].
    intros Hs. by apply Hny, elem_of_union_r.
Qed.

Lemma fresh_skip {A K} `{Countable K} (f : A -> K) (P : A -> Prop) l k (seen : gset K) :
  NoDup (f <$> l) /\ Forall (fun y => P y /\ f y ∉ {[k]} ∪ seen) l ->
  NoDup (f <$> l) /\ Forall (fun y => P y /\ f y ∉ seen) l.
Proof.
  intros [Hn Hf]. split; [done|]. eapply Forall_impl; [exact Hf|].
  intros y [? Hny]. split; [done|]. intros Hs. by apply Hny, elem_of_union_r.
Qed.

Lemma sublist_Forall {A} (P : A -> Prop) l1 l2 : l1 `sublist_of` l2 -> Forall P l2 -> Forall P l1.
Proof.
  intros Hs. rewrite !Forall_forall. intros Hf x Hx. apply Hf. by eapply elem_of_sublist.
Qed.

Lemma sublist_fmap_NoDup {A B} (f : A -> B) l1 l2 :
  l1 `sublist_of` l2 -> NoDup (f <$> l2) -> NoDup (f <$> l1).
Proof.
  induction 1 as [|x l1 l2 Hs IH|x l1 l2 Hs IH]; rewrite ?fmap_cons, ?NoDup_cons; [done| |].
  - intros [Hx Hn]. split; [|by apply IH]. intros (y & Hy & Hin)%list_elem_of_fmap. apply Hx.
    apply list_elem_of_fmap. exists y. split; [done|]. by eapply elem_of_sublist.
  - intros [_ Hn]. by apply IH.
Qed.

(** A concatenation has no duplicates when no part has one and an element tells
    which part it came from. *)
Lemma NoDup_concat_tagged {X A K} (f : X -> list A) (tag : X -> K) (xs : list X) :
  NoDup (tag <$> xs) ->
  (forall x, x ∈ xs -> NoDup (f x)) ->
  (forall x y a, x ∈ xs -> y ∈ xs -> a ∈ f x -> a ∈ f y -> tag x = tag y) ->
  NoDup (concat (map f xs)).
Proof.
  induction xs as [|x xs IH]; simpl; [intros; apply NoDup_nil_2|].
  rewrite NoDup_cons. intros [Hx Hn] Hd Ht. apply NoDup_app. split_and!.
  - apply Hd. left.
  - intros a Ha Hc. apply list_elem_of_In, in_concat in Hc as (l & Hl & Hal).
    apply in_map_iff in Hl as (y & <- & Hy).
    apply list_elem_of_In in Hy, Hal. apply Hx.
    assert (tag x = tag y) as -> by (apply (Ht x y a); [left|by right|done|done]).
    by apply list_elem_of_fmap_2.
  - apply IH; [done| |].
    + intros y Hy. apply Hd. by right.
    + intros y z a Hy Hz. apply Ht; by right.
Qed.

Lemma elem_of_concat_map {X A} (f : X -> list A) xs a :
  a ∈ concat (map f xs) <-> exists x, x ∈ xs /\ a ∈ f x.
Proof.
  rewrite list_elem_of_In, in_concat. setoid_rewrite in_map_iff. split.
  - intros (l & (x & <- & Hx) & Ha). exists x. by rewrite !list_elem_of_In.
  - intros (x & Hx & Ha). exists (f x). rewrite <- list_elem_of_In. split; [|done].
    exists x. by rewrite <- list_elem_of_In.
Qed.

Lemma filter_all {A} (P : A -> Prop) `{!forall x, Decision (P x)} (l : list A) : Forall P l -> filter P l = l.
Proof. induction 1 as [|x l Hx Hl IH]; [done|]. rewrite filter_cons_True by done. by rewrite IH. Qed.

(** ** Automation shared by the components *)
Create HintDb golib.
#[export] Hint Resolve is_i64_intro i64_range : golib.

(** Splits every boolean test of the goal and hypotheses into its Prop form. *)
Ltac bools :=
  repeat match goal with
  | H : (_ && _)%bool = true |- _ => apply andb_true_iff in H as [??]
  | H : (_ || _)%bool = false |- _ => apply orb_false_iff in H as [??]
  | H : negb _ = true |- _ => apply negb_true_iff in H
  | H : negb _ = false |- _ => apply negb_false_iff in H
  | H : (_ <? _)%Z = true |- _ => apply Z.ltb_lt in H
  | H : (_ <? _)%Z = false |- _ => apply Z.ltb_ge in H
  | H : (_ <=? _)%Z = true |- _ => apply Z.leb_le in H
  | H : (_ <=? _)%Z = false |- _ => apply Z.leb_gt in H
  | H : (_ >? _)%Z = true |- _ => rewrite Z.gtb_ltb in H
  | H : (_ >? _)%Z = false |- _ => rewrite Z.gtb_ltb in H
  | H : (_ =? _)%Z = true |- _ => apply Z.eqb_eq in H
  | H : (_ =? _)%Z = false |- _ => apply Z.eqb_neq in H
  | H : (_ =? _)%string = true |- _ => apply String.eqb_eq in H
  | H : (_ =? _)%string = false |- _ => apply String.eqb_neq in H
  | H : bool_decide _ = true |- _ => apply bool_decide_eq_true in H
  | H : bool_decide _ = false |- _ => apply bool_decide_eq_false in H
  end.

(** Case analysis on the innermost test of a [match] or [if] of a hypothesis
    or of the goal, keeping the equation. *)
Ltac case_test :=
  match goal with
  | |- context [if ?b then _ else _] => destruct b eqn:?
  | H : context [if ?b then _ else _] |- _ => destruct b eqn:?
  end.

(** Proves a decidable closed proposition by evaluating its decision. *)
Ltac by_decide := apply (bool_decide_unpack _); vm_compute; exact I.
