(* ===== verification/GoStrings.v ===== *)
(** * Go's string functions

    A Go string is a sequence of bytes, here a [string] of [ascii] characters
    (eight bits each). The functions of the package [strings] that the source
    calls are written out on them. Where the package works on Unicode
    code points and not on bytes ([strings.ToLower]) the model is the ASCII
    part, and the components that call it take the whole function as a
    parameter. *)
From S2P Require Import Prelude.
From stdpp Require Export pretty.
From Stdlib Require Ascii.
Export Ascii.AsciiSyntax.
Delimit Scope char_scope with char.

Abbreviation ascii := Ascii.ascii.
Abbreviation nat_of_ascii := Ascii.nat_of_ascii.
Abbreviation ascii_of_nat := Ascii.ascii_of_nat.

#[global] Arguments String.String _%_char_scope _%_string_scope.
#[global] Arguments String.append !_ _ / : simpl nomatch.

Open Scope Z_scope.

(** ** Definitions *)

Definition HasPrefix (s p : string) : bool := String.prefix p s.

(** [len(s)] *)
Definition len (s : string) : Z := Z.of_nat (String.length s).

(** [s[n:]] for [n <= len(s)] *)
Fixpoint drop_str (n : nat) (s : string) : string :=
  match n, s with
  | O, _ => s
  | S n, EmptyString => EmptyString
  | S n, String _ s => drop_str n s
  end.

Definition HasSuffix (s suf : string) : bool :=
  (String.length suf <=? String.length s)%nat
  && bool_decide (drop_str (String.length s - String.length suf) s = suf).

Definition TrimPrefix (s p : string) : string :=
  if HasPrefix s p then drop_str (String.length p) s else s.

(** [strings.CutPrefix] *)
Definition CutPrefix (s p : string) : option string :=
  if HasPrefix s p then Some (TrimPrefix s p) else None.

Fixpoint contains_char (c : ascii) (s : string) : bool :=
  match s with
  | EmptyString => false
  | String d s => bool_decide (c = d) || contains_char c s
  end.

(** [strings.ContainsAny(s, chars)] for ASCII [chars] *)
Fixpoint ContainsAny (s chars : string) : bool :=
  match s with
  | EmptyString => false
  | String c s => contains_char c chars || ContainsAny s chars
  end.

(** [strings.Cut] at a one-byte separator *)
Fixpoint Cut (c : ascii) (s : string) : string * string * bool :=
  match s with
  | EmptyString => (EmptyString, EmptyString, false)
  | String d s =>
      if bool_decide (d = c) then (EmptyString, s, true)
      else let '(before, after, found) := Cut c s in (String d before, after, found)
  end.

(** [strings.Split] at a one-byte separator: never the empty list *)
Fixpoint Split (c : ascii) (s : string) : list string :=
  match s with
  | EmptyString => [EmptyString]
  | String d s =>
      if bool_decide (d = c) then EmptyString :: Split c s
      else match Split c s with
           | [] => [String d EmptyString]
           | p :: ps => String d p :: ps
           end
  end.

(** [strings.Join] with a one-byte separator *)
Fixpoint Join (c : ascii) (l : list string) : string :=
  match l with
  | [] => EmptyString
  | [p] => p
  | p :: ps => p +:+ String c (Join c ps)
  end.

Definition ascii_lower (c : ascii) : ascii :=
  let n := nat_of_ascii c in
  if (65 <=? n)%nat && (n <=? 90)%nat then ascii_of_nat (n + 32) else c.

(** [strings.ToLower] on ASCII bytes *)
Fixpoint ToLowerASCII (s : string) : string :=
  match s with
  | EmptyString => EmptyString
  | String c s => String (ascii_lower c) (ToLowerASCII s)
  end.

Definition is_ascii (s : string) : bool :=
  forallb (fun c => (nat_of_ascii c <? 128)%nat) (String.list_ascii_of_string s).

(** [a < b] on strings: bytewise lexicographic *)
Definition str_ltb (a b : string) : bool := String.ltb a b.

(** [sort.Strings] *)
Definition sort_strings (l : list string) : list string := merge_sort String.le l.

#[global] Arguments contains_char _%_char_scope _%_string_scope.
#[global] Arguments Cut _%_char_scope _%_string_scope.
#[global] Arguments Split _%_char_scope _%_string_scope.
#[global] Arguments Join _%_char_scope _.

(** ** Lemmas *)

Lemma app_str_nil_r s : s +:+ "" = s.
Proof. induction s as [|c s IH]; simpl; [done|]. by rewrite IH. Qed.

Lemma app_str_assoc a b c : (a +:+ b) +:+ c = a +:+ b +:+ c.
Proof. induction a as [|x a IH]; simpl; [done|]. by rewrite IH. Qed.

Lemma app_str_length a b : String.length (a +:+ b) = (String.length a + String.length b)%nat.
Proof. induction a as [|x a IH]; simpl; [done|]. by rewrite IH. Qed.

Lemma prefix_app p s : String.prefix p (p +:+ s) = true.
Proof.
  induction p as [|c p IH]; simpl; [by destruct s|].
  destruct (Ascii.ascii_dec c c); [done|congruence].
Qed.

Lemma prefix_spec p s : String.prefix p s = true <-> exists r, s = p +:+ r.
Proof.
  split.
  - revert s. induction p as [|c p IH]; intros s H; [by exists s|].
    destruct s as [|d s]; simpl in H; [done|].
    destruct (Ascii.ascii_dec c d) as [->|]; [|done].
    destruct (IH _ H) as [r ->]. by exists r.
  - intros [r ->]. apply prefix_app.
Qed.

Lemma drop_str_app p s : drop_str (String.length p) (p +:+ s) = s.
Proof. induction p; simpl; done. Qed.

Lemma HasSuffix_spec s suf : HasSuffix s suf = true <-> exists r, s = r +:+ suf.
Proof.
  unfold HasSuffix. rewrite andb_true_iff, bool_decide_eq_true. split.
  - intros [Hl Hd]. apply Nat.leb_le in Hl.
    assert (forall n t, (n <= String.length t)%nat -> exists r, t = r +:+ drop_str n t) as Hr.
    { induction n as [|n IH]; intros t Ht; [by exists ""|].
      destruct t as [|c t]; simpl in *; [lia|].
      destruct (IH t) as [r Hr]; [lia|]. exists (String c r). simpl. by f_equal. }
    destruct (Hr (String.length s - String.length suf)%nat s) as [r Hs]; [lia|].
    exists r. by rewrite <- Hd at 1.
  - intros [r ->]. rewrite app_str_length. split; [apply Nat.leb_le; lia|].
    replace (_ - _)%nat with (String.length r) by lia. apply drop_str_app.
Qed.

Lemma Cut_spec c s b a f :
  Cut c s = (b, a, f) ->
  contains_char c b = false /\ (if f then s = b +:+ String c a else s = b /\ a = "").
Proof.
  revert b a f. induction s as [|d s IH]; simpl; intros b a f H; [by simplify_eq|].
  case_bool_decide; simplify_eq; [done|].
  destruct (Cut c s) as [[b' a'] f'] eqn:E. simplify_eq.
  destruct (IH _ _ _ eq_refl) as [Hb Hs]. split.
  - simpl. rewrite bool_decide_false by congruence. done.
  - destruct f; simpl; [by f_equal|]. destruct Hs as [-> ->]. done.
Qed.

Lemma Cut_length c s b a f :
  Cut c s = (b, a, f) -> s <> "" -> (String.length a < String.length s)%nat.
Proof.
  intros H Hs. destruct (Cut_spec _ _ _ _ _ H) as [_ Hf]. destruct f.
  - subst s. rewrite app_str_length. simpl. lia.
  - destruct Hf as [-> ->]. destruct b; simpl; [done|lia].
Qed.

Lemma Split_not_nil c s : Split c s <> [].
Proof. destruct s; simpl; [done|]. case_bool_decide; [done|]. by destruct (Split c s). Qed.

Lemma Split_no_sep c s : Forall (fun p => contains_char c p = false) (Split c s).
Proof.
  induction s as [|d s IH]; simpl; [by repeat constructor|].
  case_bool_decide as Hd; [by constructor|].
  destruct (Split c s) as [|p ps]; inversion IH; subst;
    repeat constructor; simpl; rewrite ?bool_decide_false by congruence; done.
Qed.

(** Splitting and joining at the same separator is the identity. *)
Lemma Join_Split c s : Join c (Split c s) = s.
Proof.
  induction s as [|d s IH]; [done|]. simpl. case_bool_decide as Hd.
  - subst d. pose proof (Split_not_nil c s).
    destruct (Split c s) as [|p ps] eqn:E; [done|]. simpl. by rewrite <- IH.
  - pose proof (Split_not_nil c s). destruct (Split c s) as [|p ps]; [done|].
    rewrite <- IH. by destruct ps.
Qed.

Lemma Split_app_sep c p s :
  contains_char c p = false -> Split c (p +:+ String c s) = p :: Split c s.
Proof.
  induction p as [|d p IH]; simpl.
  - intros _. rewrite bool_decide_true by done. done.
  - intros [Hd Hp]%orb_false_iff. apply bool_decide_eq_false in Hd.
    rewrite bool_decide_false by congruence. by rewrite IH.
Qed.

Lemma Split_no_char c p : contains_char c p = false -> Split c p = [p].
Proof.
  induction p as [|d p IH]; simpl; [done|].
  intros [Hd Hp]%orb_false_iff. apply bool_decide_eq_false in Hd.
  rewrite bool_decide_false by congruence. by rewrite IH.
Qed.

Lemma Split_Join c l :
  l <> [] -> Forall (fun p => contains_char c p = false) l -> Split c (Join c l) = l.
Proof.
  induction l as [|p l IH]; [done|]. intros _ H. inversion H; subst.
  destruct l as [|q l]; simpl; [by apply Split_no_char|].
  rewrite Split_app_sep by done. f_equal. by apply IH.
Qed.

Lemma contains_char_app c a b :
  contains_char c (a +:+ b) = contains_char c a || contains_char c b.
Proof. induction a as [|d a IH]; simpl; [done|]. rewrite IH. by rewrite orb_assoc. Qed.

(** A string without [c] ends where [c] first occurs: the terminated form of
    two such strings determines them. *)
Lemma app_sep_inj c a b s t :
  contains_char c a = false -> contains_char c b = false ->
  a +:+ String c s = b +:+ String c t -> a = b /\ s = t.
Proof.
  revert b. induction a as [|x a IH]; intros b Ha Hb H; destruct b as [|y b]; simpl in *.
  - by simplify_eq.
  - simplify_eq. by rewrite bool_decide_true in Hb.
  - simplify_eq. by rewrite bool_decide_true in Ha.
  - apply orb_false_iff in Ha as [_ Ha]. apply orb_false_iff in Hb as [_ Hb].
    simplify_eq. destruct (IH b Ha Hb) as [-> ->]; done.
Qed.

Lemma str_ltb_irrefl a : str_ltb a a = false.
Proof.
  unfold str_ltb, String.ltb. pose proof (String.compare_antisym a a) as H.
  destruct (String.compare a a); done.
Qed.

Lemma str_ltb_leb a b : str_ltb a b = negb (String.leb b a).
Proof.
  unfold str_ltb, String.ltb, String.leb. rewrite (String.compare_antisym b a).
  by destruct (String.compare a b).
Qed.

Lemma str_ltb_trans a b c : str_ltb a b = true -> str_ltb b c = true -> str_ltb a c = true.
Proof.
  rewrite !str_ltb_leb, !negb_true_iff. intros Hab Hbc.
  destruct (String.leb c a) eqn:E; [|done].
  destruct (String.leb_total a b) as [H|H]; [|congruence].
  assert (String.le c b) as Hcb.
  { transitivity a; [by apply Is_true_true|by apply Is_true_true]. }
  unfold String.le in Hcb. rewrite Hbc in Hcb. done.
Qed.

Lemma str_ltb_total a b : a <> b -> str_ltb a b = true \/ str_ltb b a = true.
Proof.
  intros Hne. unfold str_ltb, String.ltb.
  destruct (String.compare a b) eqn:E; [|by left|].
  - by apply String.compare_eq_iff in E.
  - right. rewrite String.compare_antisym, E. done.
Qed.

Lemma sort_strings_Permutation l : sort_strings l ≡ₚ l.
Proof. apply merge_sort_Permutation. Qed.

Lemma sort_strings_Sorted l : Sorted String.le (sort_strings l).
Proof. apply Sorted_merge_sort. apply _. Qed.

(** Sorting forgets the order its argument came in. *)
Lemma sort_strings_perm l1 l2 : l1 ≡ₚ l2 -> sort_strings l1 = sort_strings l2.
Proof.
  intros H. apply (Sorted_unique String.le);
    [apply sort_strings_Sorted|apply sort_strings_Sorted|].
  by rewrite !sort_strings_Permutation.
Qed.

#[global] Arguments app_sep_inj _%_char_scope _ _ _ _ _ _ _.
