(* ===== verification/Algo.v ===== *)
(** * engine/algo: the counting algorithms as Go knows them

    The passports of the two algorithms, the window type, validation
    ([Check]) and the registry. Durations are nanoseconds, as [time.Duration]
    is; counter math is in microseconds. *)
From S2P Require Import Prelude GoStrings.

(** ** Definitions *)

(** Dispatch codes, [algo.ID]. *)
Definition GCRAID : Z := 1.
Definition FixedWindowID : Z := 2.

Definition Microsecond : Z := 1000.
Definition Second : Z := 1000000000.
Definition MaxPeriod : Z := 24 * 3600 * Second.

Record Window := mkWindow { Requests : Z; Period : Z; Burst : Z }.

#[export] Instance Window_eq_dec : EqDecision Window.
Proof. solve_decision. Defined.

(** The two implementations of the interface [Algorithm]. *)
Inductive Algorithm := gcra | fixedWindow.

#[export] Instance Algorithm_eq_dec : EqDecision Algorithm.
Proof. solve_decision. Defined.

Definition ID (a : Algorithm) : Z :=
  match a with gcra => GCRAID | fixedWindow => FixedWindowID end.

Definition Name (a : Algorithm) : string :=
  match a with gcra => "GCRA" | fixedWindow => "FixedWindow" end.

Definition consumes (a : Algorithm) : list string :=
  match a with gcra => ["Burst"] | fixedWindow => [] end.

Definition mandatory (f : string) : bool :=
  bool_decide (f = "Requests") || bool_decide (f = "Period").

(** The struct fields in declaration order, as reflection walks them. *)
Definition window_fields (w : Window) : list (string * Z) :=
  [("Requests", Requests w); ("Period", Period w); ("Burst", Burst w)].

Definition PeriodMicros (w : Window) : Z := Period w /i Microsecond.

Definition maxTauMicros : Z := 1000000000000000.
Definition exactEmissionFloor : Z := 100.

Definition EmissionMicros (w : Window) : Z :=
  (PeriodMicros w +i Requests w -i 1) /i Requests w.

Definition TauMicros (w : Window) : Z := EmissionMicros w *i Burst w.

(** Why a window is not expressible; one constructor per message. *)
Inductive CheckError :=
| ErrForeignField (algorithm field : string)
| ErrRequests (got : Z)
| ErrPeriod (got : Z)
| ErrBurst (got : Z)
| ErrResolution (requests period : Z)
| ErrIndivisible (requests period : Z)
| ErrDepth (burst : Z).

Definition checkCommon (w : Window) : result CheckError unit :=
  if Requests w <? 1 then Err (ErrRequests (Requests w))
  else if (Period w <? Second) || (Period w >? MaxPeriod) || negb (Period w %i Second =? 0)
  then Err (ErrPeriod (Period w))
  else Ok tt.

Definition validate_gcra (w : Window) : result CheckError unit :=
  if Burst w <? 1 then Err (ErrBurst (Burst w)) else
  let periodMicros := PeriodMicros w in
  if Requests w >? periodMicros then Err (ErrResolution (Requests w) (Period w)) else
  let emission := EmissionMicros w in
  if (emission <? exactEmissionFloor) && negb (periodMicros %i Requests w =? 0)
  then Err (ErrIndivisible (Requests w) (Period w)) else
  if Burst w >? maxTauMicros /i emission then Err (ErrDepth (Burst w)) else
  Ok tt.

Definition validate (a : Algorithm) (w : Window) : result CheckError unit :=
  match a with
  | gcra => validate_gcra w
  | fixedWindow => Ok tt
  end.

(** The reflective loop of [Check]: the first set field the algorithm neither
    requires nor consumes. *)
Definition foreign_field (a : Algorithm) (w : Window) : option (string * Z) :=
  find_first
    (fun f => negb (mandatory f.1 || bool_decide (f.1 ∈ consumes a) || (f.2 =? 0)))
    (window_fields w).

Definition Check (a : Algorithm) (w : Window) : result CheckError unit :=
  match foreign_field a w with
  | Some (name, _) => Err (ErrForeignField (Name a) (ToLowerASCII name))
  | None =>
      match checkCommon w with
      | Err e => Err e
      | Ok _ => validate a w
      end
  end.

(** The registry: the two package-level maps. *)
Record registry := mkRegistry { byName : gmap string Algorithm; byID : gmap Z Algorithm }.

Inductive RegisterPanic :=
| NameTaken (name : string)
| IdTaken (id : Z)
| UnknownField (name field : string)
| MandatoryField (name field : string).

(** The loop over [consumes] of [Register]. *)
Fixpoint check_consumed (name : string) (fs : list string) : result RegisterPanic unit :=
  match fs with
  | [] => Ok tt
  | f :: fs =>
      if negb (bool_decide (f ∈ (window_fields (mkWindow 0 0 0)).*1)) then Err (UnknownField name f)
      else if mandatory f then Err (MandatoryField name f)
      else check_consumed name fs
  end.

Definition Register (a : Algorithm) (r : registry) : result RegisterPanic registry :=
  match byName r !! Name a with
  | Some _ => Err (NameTaken (Name a))
  | None =>
      match byID r !! ID a with
      | Some _ => Err (IdTaken (ID a))
      | None =>
          match check_consumed (Name a) (consumes a) with
          | Err e => Err e
          | Ok _ => Ok (mkRegistry (<[Name a := a]> (byName r)) (<[ID a := a]> (byID r)))
          end
      end
  end.

(** The registry after the package's two [init] functions, in file order. *)
Definition init_registry : result RegisterPanic registry :=
  match Register fixedWindow (mkRegistry ∅ ∅) with
  | Ok r => Register gcra r
  | Err e => Err e
  end.

Definition the_registry : registry :=
  match init_registry with Ok r => r | Err _ => mkRegistry ∅ ∅ end.

Definition ByName (name : string) : option Algorithm := byName the_registry !! name.
Definition ByID (id : Z) : option Algorithm := byID the_registry !! id.

(** [Names]: the registered names in the order of their dispatch codes. *)
Definition Names : list string :=
  omap (fun id => Name <$> byID the_registry !! id)
       (merge_sort Z.le (map_to_list (byID the_registry)).*1).

(** ** Reference definitions *)

(** The emission interval as a rational rounded up. *)
Definition ceil_div (a b : Z) : Z := (a + b - 1) / b.

(** A period is a whole number of seconds within a day. *)
Definition whole_period (p : Z) : Prop := Second <= p <= MaxPeriod /\ p mod Second = 0.

(** What [Check] accepts for GCRA, in exact arithmetic. *)
Definition gcra_ok (w : Window) : Prop :=
  let p := Period w / Microsecond in
  whole_period (Period w) /\ 1 <= Requests w <= p /\ 1 <= Burst w /\
  (exactEmissionFloor <= ceil_div p (Requests w) \/ p mod Requests w = 0) /\
  ceil_div p (Requests w) * Burst w <= maxTauMicros.

Definition fixed_ok (w : Window) : Prop :=
  whole_period (Period w) /\ 1 <= Requests w /\ Burst w = 0.

#[export] Instance whole_period_dec p : Decision (whole_period p).
Proof. unfold whole_period. apply _. Defined.
#[export] Instance gcra_ok_dec w : Decision (gcra_ok w).
Proof. unfold gcra_ok. apply _. Defined.
#[export] Instance fixed_ok_dec w : Decision (fixed_ok w).
Proof. unfold fixed_ok. apply _. Defined.

(** ** Lemmas *)

Lemma checkCommon_iff w :
  checkCommon w = Ok tt <-> 1 <= Requests w /\ whole_period (Period w).
Proof.
  unfold checkCommon, whole_period.
  destruct (Z.ltb_spec (Requests w) 1); [split; [done|lia]|].
  rewrite Z.gtb_ltb.
  destruct (Z.ltb_spec (Period w) Second) as [Hs|Hs]; simpl; [split; [done|lia]|].
  destruct (Z.ltb_spec MaxPeriod (Period w)) as [Hm|Hm]; simpl; [split; [done|lia]|].
  unfold MaxPeriod, Second in *.
  rewrite rem64_nonneg by lia.
  destruct (Z.eqb_spec (Period w mod 1000000000) 0); simpl; split; try done; lia.
Qed.

Lemma period_micros_exact w :
  whole_period (Period w) -> PeriodMicros w = Period w / Microsecond.
Proof.
  unfold whole_period, PeriodMicros, MaxPeriod, Second, Microsecond. intros.
  apply div64_nonneg; lia.
Qed.

Lemma whole_period_micros p :
  whole_period p -> 1000000 <= p / Microsecond <= 86400000000.
Proof.
  unfold whole_period, MaxPeriod, Second, Microsecond. intros [[H1 H2] _].
  split; [apply Z.div_le_lower_bound; lia|apply Z.div_le_upper_bound; lia].
Qed.

Lemma emission_exact w :
  whole_period (Period w) -> 1 <= Requests w <= Period w / Microsecond ->
  EmissionMicros w = ceil_div (Period w / Microsecond) (Requests w).
Proof.
  intros Hp Hr. pose proof (whole_period_micros _ Hp).
  unfold EmissionMicros, ceil_div. rewrite period_micros_exact by done.
  rewrite (add64_exact (Period w / Microsecond)) by lia.
  rewrite sub64_exact by lia. apply div64_nonneg; lia.
Qed.

Lemma ceil_div_bounds p r :
  1 <= r <= p -> 1 <= ceil_div p r <= p /\ p <= ceil_div p r * r < p + r.
Proof.
  intros. unfold ceil_div. pose proof (ceil_div_spec p r ltac:(lia)) as H1. simpl in H1.
  split; [|done]. split; [nia|]. assert ((p + r - 1) / r < p + 1); [|lia].
  apply div_lt_iff; nia.
Qed.

Lemma foreign_field_gcra w : foreign_field gcra w = None.
Proof. done. Qed.

Lemma foreign_field_fixed w :
  foreign_field fixedWindow w = if Burst w =? 0 then None else Some ("Burst", Burst w).
Proof. unfold foreign_field. simpl. by destruct (Burst w =? 0). Qed.

Lemma check_gcra_iff w :
  Check gcra w = Ok tt <-> gcra_ok w.
Proof.
  unfold Check. rewrite foreign_field_gcra.
  pose proof (checkCommon_iff w) as Hc. unfold gcra_ok.
  destruct (checkCommon w) as [[]|e].
  2:{ split; [done|]. intros (Hw & Hr' & _). exfalso.
      assert (Err e = @Ok CheckError unit tt) by (apply Hc; split; [lia|done]). done. }
  destruct Hc as [Hc _]. destruct (Hc eq_refl) as [Hr1 Hw]. clear Hc.
  pose proof (whole_period_micros _ Hw) as Hpm.
  simpl. unfold validate_gcra.
  destruct (Z.ltb_spec (Burst w) 1); [split; [done|lia]|].
  rewrite Z.gtb_ltb, period_micros_exact by done.
  destruct (Z.ltb_spec (Period w / Microsecond) (Requests w)); [split; [done|lia]|].
  rewrite emission_exact by lia || done.
  set (p := Period w / Microsecond) in *. set (r := Requests w) in *.
  pose proof (ceil_div_bounds p r ltac:(lia)) as [He _].
  set (e := ceil_div p r) in *.
  rewrite rem64_nonneg by lia. rewrite div64_nonneg by (unfold maxTauMicros; lia).
  rewrite Z.gtb_ltb.
  assert ((maxTauMicros / e <? Burst w) = negb (e * Burst w <=? maxTauMicros)) as ->.
  { apply Bool.eq_iff_eq_true. rewrite negb_true_iff, Z.ltb_lt, Z.leb_gt.
    rewrite div_lt_iff by lia. lia. }
  destruct (Z.ltb_spec e exactEmissionFloor), (Z.eqb_spec (p mod r) 0),
    (Z.leb_spec (e * Burst w) maxTauMicros); simpl;
    (split; [intros Hok; try discriminate Hok; split_and!; first [done|lia|by left|by right]
            |intros (? & ? & ? & Hor & ?); destruct Hor; first [done|lia]]).
Qed.

Lemma check_fixed_iff w :
  Check fixedWindow w = Ok tt <-> fixed_ok w.
Proof.
  unfold Check, fixed_ok. rewrite foreign_field_fixed.
  pose proof (checkCommon_iff w) as Hc.
  destruct (Z.eqb_spec (Burst w) 0).
  - destruct (checkCommon w) as [[]|]; simpl.
    + destruct (proj1 Hc eq_refl). split; [by intros|done].
    + split; [done|]. intros (Hw & Hr1 & _). by apply Hc.
  - split; [done|]. intros (_ & _ & ?). done.
Qed.

(** What the counting math relies on, derived from acceptance once. *)
Lemma gcra_ok_facts w :
  gcra_ok w ->
  let p := Period w / Microsecond in
  PeriodMicros w = p /\ 1000000 <= p <= 86400000000 /\
  1 <= EmissionMicros w <= p /\
  p <= EmissionMicros w * Requests w < p + Requests w /\
  TauMicros w = EmissionMicros w * Burst w /\
  1 <= Burst w <= maxTauMicros /\
  EmissionMicros w <= TauMicros w <= maxTauMicros.
Proof.
  intros (Hw & Hr & Hb & _ & Hd). simpl.
  pose proof (whole_period_micros _ Hw).
  pose proof (ceil_div_bounds _ _ Hr) as [He Hee].
  rewrite period_micros_exact, emission_exact by done.
  assert (TauMicros w = ceil_div (Period w / Microsecond) (Requests w) * Burst w) as ->.
  { unfold TauMicros. rewrite emission_exact by done. apply mul64_exact.
    unfold maxTauMicros in *. nia. }
  unfold maxTauMicros in *. repeat split; try lia; nia.
Qed.

Lemma fixed_ok_facts w :
  fixed_ok w ->
  PeriodMicros w = Period w / Microsecond /\ 1000000 <= PeriodMicros w <= 86400000000.
Proof.
  intros (Hw & _). rewrite period_micros_exact by done.
  split; [done|by apply whole_period_micros].
Qed.

Lemma registry_lookup_name name :
  ByName name = if decide (name = "GCRA") then Some gcra
                else if decide (name = "FixedWindow") then Some fixedWindow else None.
Proof.
  unfold ByName. change (byName the_registry) with
    (<["GCRA" := gcra]> (<["FixedWindow" := fixedWindow]> (∅ : gmap string Algorithm))).
  destruct (decide (name = "GCRA")) as [->|]; [done|].
  rewrite lookup_insert_ne by done.
  destruct (decide (name = "FixedWindow")) as [->|]; [done|].
  by rewrite lookup_insert_ne.
Qed.

Lemma registry_lookup_id id :
  ByID id = if decide (id = GCRAID) then Some gcra
            else if decide (id = FixedWindowID) then Some fixedWindow else None.
Proof.
  unfold ByID. change (byID the_registry) with
    (<[GCRAID := gcra]> (<[FixedWindowID := fixedWindow]> (∅ : gmap Z Algorithm))).
  destruct (decide (id = GCRAID)) as [->|]; [done|].
  rewrite lookup_insert_ne by done.
  destruct (decide (id = FixedWindowID)) as [->|]; [done|].
  by rewrite lookup_insert_ne.
Qed.

Lemma ByName_Name a : ByName (Name a) = Some a.
Proof. by destruct a. Qed.

Lemma ByID_ID a : ByID (ID a) = Some a.
Proof. by destruct a. Qed.

(** ** Claims *)

(** Validation accepts a GCRA window exactly when, in exact arithmetic, its
    period is whole seconds up to a day, its rate is at most one per
    microsecond, its interval is coarse enough or divides the period, and its
    depth is within bounds; and a fixed window exactly when its period is, it
    has requests and no burst. No 64-bit wrap-around changes the answer. *)
Theorem check_exact (w : Window) :
  (Check gcra w = Ok tt <-> gcra_ok w) /\ (Check fixedWindow w = Ok tt <-> fixed_ok w).
Proof. split; [apply check_gcra_iff|apply check_fixed_iff]. Qed.

(** The emission interval of an accepted GCRA window errs strict and by less
    than one percent: the enforced rate is never above the configured one and
    above 99% of it, and the bucket depth is exact and at most 10^15
    microseconds. *)
Theorem gcra_rate_within_one_percent (w : Window) :
  Check gcra w = Ok tt ->
  PeriodMicros w <= EmissionMicros w * Requests w /\
  99 * (EmissionMicros w * Requests w) < 100 * PeriodMicros w /\
  TauMicros w = EmissionMicros w * Burst w /\ TauMicros w <= maxTauMicros.
Proof.
  rewrite check_gcra_iff. intros Hw. pose proof (gcra_ok_facts w Hw) as (Hp & Hpb & Hem & Hr & Ht & _ & Htm).
  rewrite Hp. destruct Hw as (Hwp & Hreq & _ & Hfl & _).
  split_and!; [lia| |done|lia].
  set (p := Period w / Microsecond) in *.
  assert (EmissionMicros w = ceil_div p (Requests w)) as He by (by apply emission_exact).
  destruct Hfl as [Hfl|Hdiv]; unfold exactEmissionFloor in *.
  - nia.
  - assert (EmissionMicros w * Requests w = p); [|lia]. rewrite He. unfold ceil_div.
    pose proof (Z.div_mod p (Requests w) ltac:(lia)) as Hd. rewrite Hdiv in Hd.
    assert ((p + Requests w - 1) / Requests w = p / Requests w) as ->; [|lia].
    symmetry. apply Z.div_unique with (r := Requests w - 1); lia.
Qed.

Lemma gcra_rate_within_one_percent_witness :
  Check gcra (mkWindow 7 Second 7) = Ok tt /\ EmissionMicros (mkWindow 7 Second 7) = 142858 /\
  99 * (EmissionMicros (mkWindow 7 Second 7) * 7) < 100 * PeriodMicros (mkWindow 7 Second 7).
Proof.
  split; [vm_compute; reflexivity|]. split; [vm_compute; reflexivity|].
  apply (gcra_rate_within_one_percent (mkWindow 7 Second 7)). vm_compute. reflexivity.
Defined.
