(* ===== verification/Key.v ===== *)
(** * engine/key: counter keys

    The layout of a counter key and its escaping. A key is
    [rl:v1:{namespace/domain}:block/rule:algorithm:seconds:axis1:...:axisN:]
    with every variable part escaped. The theorems show that the layout loses
    nothing: a key determines the rule, the window and the axis values it was
    built from, and a prefix selects exactly the keys it names. *)
From S2P Require Import Prelude GoStrings Algo.

(** ** Definitions *)

Definition schemaVersion : string := "v1".

Record Ident := mkIdent { IdNamespace : string; IdDomain : string; IdBlock : string; IdRule : string }.

Definition hex_digit (n : nat) : ascii :=
  ascii_of_nat (if (n <? 10)%nat then 48 + n else 55 + n)%nat.

(** [fmt.Fprintf("%%%02X", c)] *)
Definition percent_encode (c : ascii) : string :=
  String "%" (String (hex_digit (nat_of_ascii c / 16)) (String (hex_digit (nat_of_ascii c mod 16)) "")).

Definition reserved (c : ascii) : bool := contains_char c "%:/{}".

Fixpoint escape_loop (v : string) : string :=
  match v with
  | EmptyString => EmptyString
  | String c v => (if reserved c then percent_encode c else String c "") +:+ escape_loop v
  end.

Definition escape (v : string) : string :=
  if negb (ContainsAny v "%:/{}") then v else escape_loop v.

(** [None] is the panic on an empty namespace or domain. *)
Definition DomainTag (namespace domain : string) : option string :=
  if bool_decide (namespace = "") || bool_decide (domain = "") then None
  else Some ("{" +:+ escape namespace +:+ "/" +:+ escape domain +:+ "}").

Definition DomainPrefix (namespace domain : string) : option string :=
  tag ← DomainTag namespace domain;
  Some ("rl:" +:+ schemaVersion +:+ ":" +:+ tag +:+ ":").

Definition BlockPrefix (namespace domain block : string) : option string :=
  dp ← DomainPrefix namespace domain; Some (dp +:+ escape block +:+ "/").

Definition RulePrefix (id : Ident) : option string :=
  dp ← DomainPrefix (IdNamespace id) (IdDomain id);
  Some (dp +:+ escape (IdBlock id) +:+ "/" +:+ escape (IdRule id) +:+ ":").

Definition RatePrefix (id : Ident) (a : Algorithm) (w : Window) : option string :=
  rp ← RulePrefix id;
  Some (rp +:+ ToLowerASCII (Name a) +:+ ":" +:+ pretty (Period w /i Second) +:+ ":").

(** The axis values of a bucket, each terminated. *)
Fixpoint axes_suffix (axes : list string) : string :=
  match axes with
  | [] => ""
  | v :: axes => escape v +:+ String ":" (axes_suffix axes)
  end.

Definition Bucket (prefix : string) (axes : list string) : string :=
  prefix +:+ axes_suffix axes.

(** What Redis Cluster hashes a key by, as redis.go's [hasHashTag] reads it:
    the stretch between the first brace and the first closing brace after
    it. *)
Definition hash_tag (s : string) : option string :=
  let '(_, rest, opened) := Cut "{" s in
  if opened then
    let '(tag, _, closed) := Cut "}" rest in
    if closed && negb (bool_decide (tag = "")) then Some tag else None
  else None.

Definition hasHashTag (s : string) : bool :=
  let '(_, rest, opened) := Cut "{" s in
  if negb opened then false
  else let '(tag, _, closed) := Cut "}" rest in
       closed && negb (bool_decide (tag = "")).

(** ** Reference definitions *)

Definition hex_value (c : ascii) : nat :=
  let n := nat_of_ascii c in if (n <? 58)%nat then (n - 48)%nat else (n - 55)%nat.

(** The inverse of [escape]. *)
Fixpoint unescape_key (s : string) : string :=
  match s with
  | String "%" (String h (String l r)) =>
      String (ascii_of_nat (hex_value h * 16 + hex_value l)) (unescape_key r)
  | String c r => String c (unescape_key r)
  | EmptyString => EmptyString
  end.

(** None of the layout's structural characters occurs. *)
Definition clean (s : string) : Prop :=
  contains_char ":" s = false /\ contains_char "/" s = false /\
  contains_char "{" s = false /\ contains_char "}" s = false.

(** ** Lemmas *)

Lemma percent_encode_clean c : clean (percent_encode c).
Proof. destruct c as [[] [] [] [] [] [] [] []]; vm_compute; done. Qed.

Lemma clean_app a b : clean (a +:+ b) <-> clean a /\ clean b.
Proof. unfold clean. rewrite !contains_char_app, !orb_false_iff. tauto. Qed.

Lemma clean_single c : reserved c = false -> clean (String c "").
Proof. destruct c as [[] [] [] [] [] [] [] []]; intros H; vm_compute in H |- *; done. Qed.

Lemma escape_loop_clean v : clean (escape_loop v).
Proof.
  induction v as [|c v IH]; simpl; [done|].
  apply clean_app. split; [|done].
  destruct (reserved c) eqn:E; [apply percent_encode_clean|by apply clean_single].
Qed.

Lemma escape_loop_id v : ContainsAny v "%:/{}" = false -> escape_loop v = v.
Proof.
  induction v as [|c v IH]; simpl; [done|]. unfold reserved.
  intros [Hc Hv]%orb_false_iff. simpl in Hc. simpl. rewrite Hc. simpl. by rewrite IH.
Qed.

(** The fast path of [escape] changes nothing. *)
Lemma escape_eq v : escape v = escape_loop v.
Proof.
  unfold escape. destruct (ContainsAny v "%:/{}") eqn:E; simpl; [done|].
  by rewrite escape_loop_id.
Qed.

Lemma escape_clean v : clean (escape v).
Proof. rewrite escape_eq. apply escape_loop_clean. Qed.

Lemma unescape_percent c r :
  unescape_key (percent_encode c +:+ r) = String c (unescape_key r).
Proof. destruct c as [[] [] [] [] [] [] [] []]; reflexivity. Qed.

Lemma unescape_plain c r :
  reserved c = false -> unescape_key (String c r) = String c (unescape_key r).
Proof. destruct c as [[] [] [] [] [] [] [] []]; intros; done. Qed.

Lemma unescape_escape v : unescape_key (escape v) = v.
Proof.
  rewrite escape_eq. induction v as [|c v IH]; [done|].
  cbn [escape_loop]. destruct (reserved c) eqn:E.
  - rewrite unescape_percent. by rewrite IH.
  - change (String c "" +:+ escape_loop v) with (String c (escape_loop v)).
    rewrite unescape_plain by done. by rewrite IH.
Qed.

#[export] Instance escape_inj : Inj (=) (=) escape.
Proof. intros a b H. rewrite <- (unescape_escape a), <- (unescape_escape b). by rewrite H. Qed.

Lemma escape_nonempty v : v <> "" -> escape v <> "".
Proof. intros Hv H. apply Hv. by rewrite <- (unescape_escape v), H. Qed.

Lemma pretty_char_not_colon x : bool_decide (":"%char = pretty_N_char x) = false.
Proof.
  unfold pretty_N_char. apply bool_decide_eq_false. by repeat case_match.
Qed.

Lemma pretty_N_go_no_colon x s :
  contains_char ":" s = false -> contains_char ":" (pretty_N_go x s) = false.
Proof.
  revert s. induction (N.lt_wf_0 x) as [x _ IH]; intros s Hs.
  destruct (decide (x = 0)%N) as [->|]; [done|].
  rewrite pretty_N_go_step by lia. apply IH; [apply N.div_lt; lia|].
  cbn [contains_char]. by rewrite pretty_char_not_colon, Hs.
Qed.

Lemma pretty_Z_no_colon (z : Z) : contains_char ":" (pretty z) = false.
Proof.
  unfold pretty, pretty_Z, pretty_positive, pretty, pretty_N. destruct z; [done| |].
  - case_decide; [done|]. by apply pretty_N_go_no_colon.
  - rewrite contains_char_app. case_decide; [done|]. by rewrite pretty_N_go_no_colon.
Qed.

Lemma algorithm_name_no_colon a : contains_char ":" (ToLowerASCII (Name a)) = false.
Proof. by destruct a. Qed.

Lemma algorithm_name_inj a b : ToLowerASCII (Name a) = ToLowerASCII (Name b) -> a = b.
Proof. by destruct a, b. Qed.

Lemma axes_suffix_cons v axes : axes_suffix (v :: axes) = escape v +:+ String ":" (axes_suffix axes).
Proof. done. Qed.

Lemma axes_suffix_app a b : axes_suffix (a ++ b) = axes_suffix a +:+ axes_suffix b.
Proof.
  induction a as [|v a IH]; [done|].
  change ((v :: a) ++ b) with (v :: (a ++ b)). rewrite !axes_suffix_cons, IH.
  rewrite app_str_assoc. done.
Qed.

(** One suffix is a string prefix of another exactly when its axis list is a
    prefix of the other's. *)
Lemma axes_suffix_prefix a b r :
  axes_suffix b = axes_suffix a +:+ r -> exists c, b = a ++ c /\ r = axes_suffix c.
Proof.
  revert b. induction a as [|v a IH]; intros b H; [by exists b|].
  destruct b as [|u b].
  - exfalso. rewrite axes_suffix_cons, app_str_assoc in H. simpl in H.
    by destruct (escape v).
  - rewrite !axes_suffix_cons, app_str_assoc in H.
    pose proof (escape_clean v) as (Hv & _). pose proof (escape_clean u) as (Hu & _).
    simpl in H. destruct (app_sep_inj ":" _ _ _ _ Hu Hv H) as [Hvu Hr].
    apply escape_inj in Hvu as ->.
    destruct (IH _ Hr) as (c & -> & ->). by exists c.
Qed.

#[export] Instance axes_suffix_inj : Inj (=) (=) axes_suffix.
Proof.
  intros a b H. destruct (axes_suffix_prefix b a "") as (c & -> & Hc).
  - by rewrite app_str_nil_r.
  - destruct c as [|v c]; [by rewrite app_nil_r|].
    rewrite axes_suffix_cons in Hc. by destruct (escape v).
Qed.

(** The tail of a key after its domain prefix. *)
Definition rule_tail (block rule : string) : string := escape block +:+ "/" +:+ escape rule +:+ ":".

Definition rate_tail (a : Algorithm) (w : Window) : string :=
  ToLowerASCII (Name a) +:+ ":" +:+ pretty (Period w /i Second) +:+ ":".

Lemma rule_tail_inj b r b' r' s s' :
  rule_tail b r +:+ s = rule_tail b' r' +:+ s' -> b = b' /\ r = r' /\ s = s'.
Proof.
  unfold rule_tail. rewrite !app_str_assoc. simpl. intros H.
  pose proof (escape_clean b) as (_ & Hb & _). pose proof (escape_clean b') as (_ & Hb' & _).
  destruct (app_sep_inj "/" _ _ _ _ Hb Hb' H) as [->%escape_inj H1].
  pose proof (escape_clean r) as (Hr & _). pose proof (escape_clean r') as (Hr' & _).
  by destruct (app_sep_inj ":" _ _ _ _ Hr Hr' H1) as [->%escape_inj ->].
Qed.

Lemma rate_tail_inj a w a' w' s s' :
  rate_tail a w +:+ s = rate_tail a' w' +:+ s' ->
  a = a' /\ Period w /i Second = Period w' /i Second /\ s = s'.
Proof.
  unfold rate_tail. rewrite !app_str_assoc. simpl. intros H.
  destruct (app_sep_inj ":" _ _ _ _ (algorithm_name_no_colon a) (algorithm_name_no_colon a') H)
    as [->%algorithm_name_inj H1].
  destruct (app_sep_inj ":" _ _ _ _ (pretty_Z_no_colon _) (pretty_Z_no_colon _) H1)
    as [Hp ->].
  apply (inj pretty) in Hp. done.
Qed.

Lemma DomainPrefix_inj n d n' d' p p' s s' :
  DomainPrefix n d = Some p -> DomainPrefix n' d' = Some p' ->
  p +:+ s = p' +:+ s' -> n = n' /\ d = d' /\ s = s'.
Proof.
  unfold DomainPrefix, DomainTag. intros H H'.
  destruct (bool_decide (n = "") || _), (bool_decide (n' = "") || _); simplify_eq/=.
  rewrite !app_str_assoc. simpl. intros H. simplify_eq.
  rewrite ?app_str_assoc in H. simpl in H.
  pose proof (escape_clean n) as (_ & Hn & _). pose proof (escape_clean n') as (_ & Hn' & _).
  destruct (app_sep_inj "/" _ _ _ _ Hn Hn' H) as [->%escape_inj H1].
  rewrite ?app_str_assoc in H1. simpl in H1.
  pose proof (escape_clean d) as (_ & _ & _ & Hd). pose proof (escape_clean d') as (_ & _ & _ & Hd').
  destruct (app_sep_inj "}" _ _ _ _ Hd Hd' H1) as [->%escape_inj H2].
  by simplify_eq.
Qed.

Lemma RulePrefix_split id p :
  RulePrefix id = Some p ->
  exists dp, DomainPrefix (IdNamespace id) (IdDomain id) = Some dp /\
    p = dp +:+ rule_tail (IdBlock id) (IdRule id).
Proof.
  unfold RulePrefix. intros H.
  destruct (DomainPrefix _ _) as [dp|]; simplify_eq/=. by exists dp.
Qed.

Lemma RatePrefix_split id a w p :
  RatePrefix id a w = Some p ->
  exists rp, RulePrefix id = Some rp /\ p = rp +:+ rate_tail a w.
Proof.
  unfold RatePrefix. intros H.
  destruct (RulePrefix id) as [rp|]; simplify_eq/=. by exists rp.
Qed.

(** The whole path from a rule prefix followed by anything back to its
    identity. *)
Lemma RulePrefix_inj id id' p p' s s' :
  RulePrefix id = Some p -> RulePrefix id' = Some p' ->
  p +:+ s = p' +:+ s' -> id = id' /\ s = s'.
Proof.
  intros (dp & Hd & ->)%RulePrefix_split (dp' & Hd' & ->)%RulePrefix_split H.
  rewrite !app_str_assoc in H.
  destruct (DomainPrefix_inj _ _ _ _ _ _ _ _ Hd Hd' H) as (Hn & Hdom & H1).
  apply rule_tail_inj in H1 as (Hb & Hr & ->).
  destruct id, id'. simpl in *. by subst.
Qed.

Lemma RatePrefix_inj id a w id' a' w' p p' s s' :
  RatePrefix id a w = Some p -> RatePrefix id' a' w' = Some p' ->
  p +:+ s = p' +:+ s' ->
  id = id' /\ a = a' /\ Period w /i Second = Period w' /i Second /\ s = s'.
Proof.
  intros (rp & Hr & ->)%RatePrefix_split (rp' & Hr' & ->)%RatePrefix_split H.
  rewrite !app_str_assoc in H.
  destruct (RulePrefix_inj _ _ _ _ _ _ Hr Hr' H) as (-> & H1).
  by apply rate_tail_inj in H1 as (-> & -> & ->).
Qed.

Lemma RatePrefix_some id a w :
  IdNamespace id <> "" -> IdDomain id <> "" -> is_Some (RatePrefix id a w).
Proof.
  intros. unfold RatePrefix, RulePrefix, DomainPrefix, DomainTag.
  rewrite !bool_decide_false by done. simpl. eauto.
Qed.

Lemma DomainPrefix_tag n d p s :
  DomainPrefix n d = Some p -> hash_tag (p +:+ s) = Some (escape n +:+ "/" +:+ escape d).
Proof.
  unfold DomainPrefix, DomainTag. intros H.
  destruct (bool_decide (n = "") || _) eqn:E; simplify_eq/=.
  apply orb_false_iff in E as [En _]. apply bool_decide_eq_false in En.
  unfold hash_tag. simpl.
  assert (forall a t, contains_char "}" a = false ->
    Cut "}" (a +:+ String "}" t) = (a, t, true)) as HC.
  { induction a as [|c a IH]; intros t Ha; [done|].
    simpl in Ha. apply orb_false_iff in Ha as [Hc Ha]. apply bool_decide_eq_false in Hc.
    simpl. rewrite bool_decide_false by congruence. by rewrite IH. }
  rewrite !app_str_assoc. simpl.
  replace (escape n +:+ String "/" ((escape d +:+ "}") +:+ String ":" s))
    with ((escape n +:+ "/" +:+ escape d) +:+ String "}" (String ":" s))
    by (rewrite !app_str_assoc; done).
  pose proof (escape_clean n) as (_ & _ & _ & Hn). pose proof (escape_clean d) as (_ & _ & _ & Hd).
  rewrite HC by (by rewrite !contains_char_app, Hn, Hd). simpl.
  rewrite bool_decide_false; [done|].
  intros Hx. by destruct (escape n).
Qed.

Lemma hash_tag_hasHashTag s t : hash_tag s = Some t -> hasHashTag s = true.
Proof.
  unfold hash_tag, hasHashTag. destruct (Cut "{" s) as [[a rest] []]; [|done]. cbn [negb].
  destruct (Cut "}" rest) as [[tag b] closed]. by destruct (closed && _).
Qed.
