(* ===== verification/StoreApi.v ===== *)
(** * engine/store: the counter contract

    The data of a decision ([Bucket], [Verdict]), the shared guards
    ([GuardBuckets], [StoreAdmitted]), and the contract every store implementation
    promises, as a class of operations with laws. The contract is stated over
    one number per counter, its [level]: the drain depth in microseconds for
    GCRA, the consumed count of the current window for a fixed window. The
    verdicts and charges of a decision are functions of the levels, and a
    level decays with time in a way only the algorithm decides. *)
From S2P Require Import Prelude GoStrings Algo.

(** ** Definitions *)

Record Bucket := mkBucket {
  b_Key : string;
  b_Algorithm : Z;
  b_Window : Window;
  b_Shadow : bool;
  b_Cost : Z }.

Record Verdict := mkVerdict {
  v_Allowed : bool;
  v_Remaining : Z;
  v_CostExceedsCapacity : bool;
  v_RetryAfter : Z;
  v_ResetAfter : Z }.

#[export] Instance Bucket_eq_dec : EqDecision Bucket.
Proof. solve_decision. Defined.
#[export] Instance Verdict_eq_dec : EqDecision Verdict.
Proof. solve_decision. Defined.

Inductive StoreError :=
| ErrCost (key : string) (cost : Z)
| ErrDuplicate (key : string)
| ErrWindow (key : string)
| ErrUnknownAlgorithm (id : Z)
| ErrBadCursor
| ErrBackend (what : string).

(** The loop of [GuardBuckets]; [seen] is the set of keys met so far. *)
Fixpoint guard_loop (seen : gset string) (buckets : list Bucket) : result StoreError unit :=
  match buckets with
  | [] => Ok tt
  | b :: rest =>
      if b_Cost b <? 1 then Err (ErrCost (b_Key b) (b_Cost b))
      else if bool_decide (b_Key b ∈ seen) then Err (ErrDuplicate (b_Key b))
      else if (Requests (b_Window b) <? 1) || (Period (b_Window b) <? Microsecond)
      then Err (ErrWindow (b_Key b))
      else guard_loop ({[b_Key b]} ∪ seen) rest
  end.

Definition GuardBuckets (buckets : list Bucket) : result StoreError unit :=
  guard_loop ∅ buckets.

(** The loop of [store.Admitted] once the lengths agree. *)
Fixpoint admitted_loop (buckets : list Bucket) (verdicts : list Verdict) : bool :=
  match buckets, verdicts with
  | b :: bs, v :: vs =>
      if b_Shadow b then admitted_loop bs vs
      else if negb (v_Allowed v) then false
      else admitted_loop bs vs
  | _, _ => true
  end.

(** [store.Admitted]; [None] is the panic on a length mismatch. *)
Definition StoreAdmitted (buckets : list Bucket) (verdicts : list Verdict) : option bool :=
  if (length buckets =? length verdicts)%nat then Some (admitted_loop buckets verdicts) else None.

(** ** The contract, in exact arithmetic *)

(** Latest clock reading covered: 7*10^15 microseconds is the year 2191, and
    leaves every timestamp the stores compute below 2^53, where a double is
    still exact. *)
Definition maxNow : Z := 7000000000000000.
Definition time_ok (now : Z) : Prop := 0 <= now <= maxNow.

(** What a key stands for: the layout of a key carries the algorithm and the
    period, so they never change for one key, while requests and burst may. *)
Record Kind := mkKind { k_alg : Algorithm; k_period : Z }.

(** The start of the epoch-aligned window of length [p] that contains [t]. *)
Definition window_start (p t : Z) : Z := t - t mod p.

Definition b_period (b : Bucket) : Z := Period (b_Window b) / Microsecond.

(** Does the bucket admit its cost at this level? *)
Definition judge_allowed (b : Bucket) (lvl : Z) : bool :=
  let w := b_Window b in
  if b_Algorithm b =? GCRAID
  then (b_Cost b <=? Burst w) && (lvl + EmissionMicros w * b_Cost b <=? TauMicros w)
  else b_Cost b <=? Z.max (Requests w - lvl) 0.

(** The cost is more than the bucket ever holds. *)
Definition judge_exceeds (b : Bucket) : bool :=
  let w := b_Window b in
  if b_Algorithm b =? GCRAID then Burst w <? b_Cost b else Requests w <? b_Cost b.

(** The level once the bucket is charged. *)
Definition charge (b : Bucket) (lvl : Z) : Z :=
  if b_Algorithm b =? GCRAID then lvl + EmissionMicros (b_Window b) * b_Cost b
  else lvl + b_Cost b.

(** How many more units the bucket would admit at this level. *)
Definition room (b : Bucket) (lvl : Z) : Z :=
  let w := b_Window b in
  if b_Algorithm b =? GCRAID then Z.max ((TauMicros w - lvl) / EmissionMicros w) 0
  else Z.max (Requests w - lvl) 0.

(** Microseconds until the bucket is empty again. *)
Definition drain (now : Z) (b : Bucket) (lvl : Z) : Z :=
  if b_Algorithm b =? GCRAID then lvl
  else if lvl =? 0 then 0 else window_start (b_period b) now + b_period b - now.

(** Microseconds until a refused cost is admitted, nothing else happening. *)
Definition wait (now : Z) (b : Bucket) (lvl : Z) : Z :=
  let w := b_Window b in
  if b_Algorithm b =? GCRAID then lvl + EmissionMicros w * b_Cost b - TauMicros w
  else window_start (b_period b) now + b_period b - now.

Definition current_verdict (now : Z) (b : Bucket) (lvl : Z) : Verdict :=
  mkVerdict (judge_allowed b lvl) (room b lvl) (judge_exceeds b)
    (if judge_allowed b lvl || judge_exceeds b then -1 else wait now b lvl * Microsecond)
    (drain now b lvl * Microsecond).

Definition charged_verdict (now : Z) (b : Bucket) (lvl : Z) : Verdict :=
  mkVerdict true (room b (charge b lvl)) false (-1) (drain now b (charge b lvl) * Microsecond).

Definition spec_admitted (bs : list Bucket) (lv : string -> Z) : bool :=
  forallb (fun b => b_Shadow b || judge_allowed b (lv (b_Key b))) bs.

Definition spec_verdicts (commit : bool) (now : Z) (bs : list Bucket) (lv : string -> Z)
    : list Verdict :=
  map (fun b => if commit && spec_admitted bs lv && judge_allowed b (lv (b_Key b))
                then charged_verdict now b (lv (b_Key b))
                else current_verdict now b (lv (b_Key b))) bs.

(** The levels after a decision: an admitted one charges every bucket whose
    own verdict allows, a refused one leaves no trace. *)
Definition spec_levels (bs : list Bucket) (lv : string -> Z) (k : string) : Z :=
  match find_first (fun b => bool_decide (b_Key b = k)) bs with
  | Some b => if spec_admitted bs lv && judge_allowed b (lv k) then charge b (lv k) else lv k
  | None => lv k
  end.

(** A GCRA level drains one microsecond per microsecond; a fixed window's
    count lasts until the boundary. *)
Definition decay (kd : Kind) (t0 t1 lvl : Z) : Z :=
  match k_alg kd with
  | gcra => Z.max (lvl - (t1 - t0)) 0
  | fixedWindow =>
      let p := k_period kd / Microsecond in
      if window_start p t0 =? window_start p t1 then lvl else 0
  end.

(** A bucket as the compiler builds it: its window passed [Check], its key is
    of the bucket's kind, and a fixed window's requests are at most [cap], the
    most the store counts exactly. *)
Definition bucket_ok (cap : Z) (kind : string -> Kind) (b : Bucket) : Prop :=
  kind (b_Key b) = mkKind (k_alg (kind (b_Key b))) (Period (b_Window b)) /\
  b_Algorithm b = ID (k_alg (kind (b_Key b))) /\
  1 <= b_Cost b <= max_i64 /\
  match k_alg (kind (b_Key b)) with
  | gcra => gcra_ok (b_Window b)
  | fixedWindow => fixed_ok (b_Window b) /\ Requests (b_Window b) <= cap
  end.

#[export] Instance Kind_eq_dec : EqDecision Kind.
Proof. solve_decision. Defined.
#[export] Instance bucket_ok_dec cap kind b : Decision (bucket_ok cap kind b).
Proof. unfold bucket_ok. destruct (k_alg (kind (b_Key b))); apply _. Defined.

(** The store interface with its laws. *)
Class CounterStore (cap : Z) (kind : string -> Kind) (S : Type) := {
  store_decide : Z -> list Bucket -> S -> S * result StoreError (list Verdict);
  store_peek : Z -> list Bucket -> S -> S * result StoreError (list Verdict);
  store_reset : list string -> S -> S;

  (** the abstraction: the level of every key, and the invariant a state
      satisfies at a clock reading *)
  store_level : Z -> S -> string -> Z;
  store_inv : Z -> S -> Prop;

  inv_mono : forall t0 t1 s, store_inv t0 s -> t0 <= t1 -> store_inv t1 s;
  level_nonneg : forall now s k, store_inv now s -> 0 <= store_level now s k;
  level_decay : forall t0 t1 s k, store_inv t0 s -> time_ok t0 -> t0 <= t1 -> time_ok t1 ->
    store_level t1 s k = decay (kind k) t0 t1 (store_level t0 s k);

  decide_guard : forall now bs s e,
    GuardBuckets bs = Err e -> store_decide now bs s = (s, Err e);
  peek_guard : forall now bs s e,
    GuardBuckets bs = Err e -> store_peek now bs s = (s, Err e);

  decide_law : forall now bs s,
    store_inv now s -> time_ok now -> GuardBuckets bs = Ok tt -> Forall (bucket_ok cap kind) bs ->
    let '(s', r) := store_decide now bs s in
    r = Ok (spec_verdicts true now bs (store_level now s)) /\
    (forall k, store_level now s' k = spec_levels bs (store_level now s) k) /\
    store_inv now s';
  peek_law : forall now bs s,
    store_inv now s -> time_ok now -> GuardBuckets bs = Ok tt -> Forall (bucket_ok cap kind) bs ->
    let '(s', r) := store_peek now bs s in
    r = Ok (spec_verdicts false now bs (store_level now s)) /\
    (forall k, store_level now s' k = store_level now s k) /\
    store_inv now s';
  reset_law : forall now ks s,
    store_inv now s -> time_ok now ->
    (forall k, store_level now (store_reset ks s) k =
       if bool_decide (k ∈ ks) then 0 else store_level now s k) /\
    store_inv now (store_reset ks s)
}.

(** ** Lemmas *)

Lemma guard_loop_ok seen bs :
  guard_loop seen bs = Ok tt <->
  NoDup (b_Key <$> bs) /\ Forall (fun b => b_Key b ∉ seen) bs /\
  Forall (fun b => 1 <= b_Cost b /\ 1 <= Requests (b_Window b) /\ Microsecond <= Period (b_Window b)) bs.
Proof.
  revert seen. induction bs as [|b bs IH]; intros seen; cbn [guard_loop].
  { split; [intros; split_and!; constructor|done]. }
  rewrite fmap_cons, NoDup_cons, !Forall_cons.
  destruct (Z.ltb_spec (b_Cost b) 1) as [Hc|Hc]; [split; [done|lia]|].
  case_bool_decide as Hs; [split; [done|]; by intros (_ & [? _] & _)|].
  destruct (Z.ltb_spec (Requests (b_Window b)) 1) as [Hr|Hr]; simpl; [split; [done|lia]|].
  destruct (Z.ltb_spec (Period (b_Window b)) Microsecond) as [Hp|Hp]; [split; [done|lia]|].
  rewrite IH. rewrite !Forall_forall. setoid_rewrite list_elem_of_fmap.
  split.
  - intros (Hn & Hd & Hw). split_and!; auto.
    + intros (y & Hy & Hin). apply (Hd y Hin), elem_of_union_l, elem_of_singleton. done.
    + intros x Hx Hin. apply (Hd x Hx). by apply elem_of_union_r.
  - intros ([Hb Hn] & [_ Hd] & [_ Hw]). split_and!; auto.
    intros x Hx. rewrite elem_of_union, elem_of_singleton. intros [He|Hin]; [|by apply (Hd x)].
    apply Hb. by exists x.
Qed.

Lemma GuardBuckets_ok bs :
  GuardBuckets bs = Ok tt <->
  NoDup (b_Key <$> bs) /\
  Forall (fun b => 1 <= b_Cost b /\ 1 <= Requests (b_Window b) /\ Microsecond <= Period (b_Window b)) bs.
Proof.
  unfold GuardBuckets. rewrite guard_loop_ok. split; [by intros (? & _ & ?)|].
  intros [? ?]. split_and!; [done| |done]. apply Forall_forall. intros b _. apply not_elem_of_empty.
Qed.

Lemma admitted_loop_spec bs vs :
  length bs = length vs ->
  admitted_loop bs vs = forallb (fun bv => b_Shadow bv.1 || v_Allowed bv.2) (zip bs vs).
Proof.
  revert vs. induction bs as [|b bs IH]; intros [|v vs]; simpl; intros; try done.
  rewrite <- IH by lia. destruct (b_Shadow b), (v_Allowed v); done.
Qed.

Lemma spec_verdicts_length c now bs lv : length (spec_verdicts c now bs lv) = length bs.
Proof. apply length_map. Qed.

(** The verdicts' own flags say what the decision admitted, whether or not it
    committed. *)
Lemma spec_verdict_allowed c now bs lv b :
  v_Allowed (if c && spec_admitted bs lv && judge_allowed b (lv (b_Key b))
             then charged_verdict now b (lv (b_Key b))
             else current_verdict now b (lv (b_Key b))) = judge_allowed b (lv (b_Key b)).
Proof.
  destruct c, (spec_admitted bs lv), (judge_allowed b (lv (b_Key b))) eqn:E; simpl; done.
Qed.

Lemma spec_verdicts_admitted c now bs lv :
  StoreAdmitted bs (spec_verdicts c now bs lv) = Some (spec_admitted bs lv).
Proof.
  unfold StoreAdmitted. rewrite spec_verdicts_length, Nat.eqb_refl. f_equal.
  rewrite admitted_loop_spec by (by rewrite spec_verdicts_length).
  unfold spec_verdicts. generalize (fun b => spec_verdict_allowed c now bs lv b).
  generalize (spec_admitted bs lv) at 1 2. intros adm H. unfold spec_admitted.
  induction bs as [|b bs IH] in H |- *; simpl; [done|].
  rewrite H. f_equal. by apply IH.
Qed.

Lemma find_key_NoDup bs b :
  NoDup (b_Key <$> bs) -> b ∈ bs ->
  find_first (fun b' => bool_decide (b_Key b' = b_Key b)) bs = Some b.
Proof.
  induction bs as [|b' bs IH]; [by intros _ ?%elem_of_nil|].
  rewrite fmap_cons, NoDup_cons, elem_of_cons. intros [Hn Hd] [->|Hin]; simpl.
  - by rewrite bool_decide_true.
  - rewrite bool_decide_false; [by apply IH|].
    intros He. apply Hn. rewrite He. by apply list_elem_of_fmap_2.
Qed.

Lemma bucket_ok_gcra cap kind b :
  bucket_ok cap kind b -> b_Algorithm b = GCRAID ->
  k_alg (kind (b_Key b)) = gcra /\ gcra_ok (b_Window b).
Proof.
  intros (_ & Ha & _ & Hw) Hg. destruct (k_alg (kind (b_Key b))); [done|].
  rewrite Ha in Hg. done.
Qed.

Lemma bucket_ok_fixed cap kind b :
  bucket_ok cap kind b -> b_Algorithm b <> GCRAID ->
  b_Algorithm b = FixedWindowID /\
  k_alg (kind (b_Key b)) = fixedWindow /\ fixed_ok (b_Window b) /\ Requests (b_Window b) <= cap.
Proof.
  intros (_ & Ha & _ & Hw) Hg. destruct (k_alg (kind (b_Key b))); [done|]. tauto.
Qed.

Lemma bucket_ok_period cap kind b :
  bucket_ok cap kind b -> k_period (kind (b_Key b)) = Period (b_Window b).
Proof. intros (-> & _). done. Qed.

Lemma window_start_bounds p t : 0 < p -> window_start p t <= t < window_start p t + p.
Proof. intros. unfold window_start. pose proof (Z.mod_pos_bound t p). lia. Qed.

Lemma window_start_mod p t : 0 < p -> window_start p t mod p = 0.
Proof.
  intros. unfold window_start. rewrite Zminus_mod, Z.mod_mod by lia.
  by rewrite Z.sub_diag, Z.mod_0_l by lia.
Qed.

(** Two instants with the same window start are in the same window. *)
Lemma same_window p t0 t1 s :
  0 < p -> s mod p = 0 -> t0 <= t1 -> s <= t0 < s + p ->
  (window_start p t0 =? window_start p t1) = bool_decide (t1 < s + p).
Proof.
  intros Hp Hs Ht Ht0. unfold window_start.
  assert (forall t, s <= t < s + p -> t - t mod p = s) as Hw.
  { intros t Hin. assert (t mod p = t - s); [|lia].
    symmetry. apply Z.mod_unique_pos with (q := s / p); [lia|].
    pose proof (Z.div_mod s p). lia. }
  rewrite Hw by done. apply Bool.eq_iff_eq_true. rewrite Z.eqb_eq, bool_decide_eq_true.
  split; intros H.
  - pose proof (Z.mod_pos_bound t1 p). lia.
  - by rewrite Hw by lia.
Qed.

(** ** What the verdict numbers mean *)

(** The room at a level is exactly the largest cost admitted there. *)
Lemma room_exact cap kind b lvl c :
  bucket_ok cap kind b -> 0 <= lvl -> 1 <= c ->
  judge_allowed (mkBucket (b_Key b) (b_Algorithm b) (b_Window b) (b_Shadow b) c) lvl = true <->
  c <= room b lvl.
Proof.
  intros Hb Hl Hc. unfold judge_allowed, room. simpl.
  destruct (Z.eqb_spec (b_Algorithm b) GCRAID) as [Ha|Ha]; [|rewrite Z.leb_le; lia].
  destruct (bucket_ok_gcra cap kind b Hb Ha) as [_ Hw].
  pose proof (gcra_ok_facts _ Hw) as (_ & _ & Hem & _ & Htau & _).
  rewrite andb_true_iff, !Z.leb_le. set (em := EmissionMicros (b_Window b)) in *.
  rewrite Z.max_le_iff, div_le_iff by lia.
  split; [intros [_ ?]; left; lia|]. intros [?|?]; [|lia].
  split; [nia|lia].
Qed.

(** Left alone, a refused bucket admits its cost after exactly its wait. *)
Lemma wait_exact cap kind now b lvl d :
  bucket_ok cap kind b -> 0 <= lvl -> 0 <= d ->
  judge_allowed b lvl = false -> judge_exceeds b = false ->
  judge_allowed b (decay (kind (b_Key b)) now (now + d) lvl) = true <-> wait now b lvl <= d.
Proof.
  intros Hb Hl Hd Hj Hx. pose proof (bucket_ok_period cap kind b Hb) as Hper.
  unfold judge_allowed, judge_exceeds, decay, wait, b_period in *.
  destruct (Z.eqb_spec (b_Algorithm b) GCRAID) as [Ha|Ha].
  - destruct (bucket_ok_gcra cap kind b Hb Ha) as [-> Hw]. simpl.
    pose proof (gcra_ok_facts _ Hw) as (_ & _ & Hem & _ & Htau & _).
    bools. rewrite (proj2 (Z.leb_le (b_Cost b) _)) in * by lia. simpl in *. bools.
    assert (EmissionMicros (b_Window b) * b_Cost b <= TauMicros (b_Window b)) by nia.
    rewrite Z.leb_le. lia.
  - destruct (bucket_ok_fixed cap kind b Hb Ha) as (_ & -> & Hw & _). simpl. rewrite Hper.
    pose proof (fixed_ok_facts _ Hw) as [Hpm Hp]. rewrite Hpm in Hp.
    set (p := Period (b_Window b) / Microsecond) in *.
    pose proof (window_start_bounds p now ltac:(lia)). bools.
    rewrite (same_window p now (now + d) (window_start p now)); [|lia| |lia|lia].
    2:{ apply window_start_mod. lia. }
    case_bool_decide; rewrite Z.leb_le; lia.
Qed.

(** The bucket at position [i] of a decision, its verdict and its key's level
    after the decision. *)
Lemma spec_verdict_at now bs lv i b v :
  NoDup (b_Key <$> bs) ->
  bs !! i = Some b -> spec_verdicts true now bs lv !! i = Some v ->
  v_Allowed v = judge_allowed b (lv (b_Key b)) /\
  v_Remaining v = room b (spec_levels bs lv (b_Key b)) /\
  (v_Allowed v = false ->
     spec_levels bs lv (b_Key b) = lv (b_Key b) /\ v = current_verdict now b (lv (b_Key b))).
Proof.
  intros Hnd Hb Hv. unfold spec_verdicts in Hv. rewrite list_lookup_fmap, Hb in Hv.
  injection Hv as <-. pose proof (spec_verdict_allowed true now bs lv b) as Ha.
  cbn [andb] in Ha |- *. rewrite Ha.
  assert (spec_levels bs lv (b_Key b) =
    if spec_admitted bs lv && judge_allowed b (lv (b_Key b))
    then charge b (lv (b_Key b)) else lv (b_Key b)) as Hl.
  { unfold spec_levels. rewrite find_key_NoDup; [done|done|]. by eapply list_elem_of_lookup_2. }
  rewrite Hl. split_and!; [done| |].
  - by destruct (spec_admitted bs lv && judge_allowed b (lv (b_Key b))).
  - intros Hj. rewrite Hj. by rewrite !andb_false_r.
Qed.
