(* ===== verification/Memory.v ===== *)
(** * engine/store/memory: the in-memory store

    The reference implementation, with every 64-bit operation of the source
    kept at its width. The store's clock is an argument: the value
    [s.now().UnixMicro()] returned inside the call. The last part discharges
    the contract of the store interface. *)
From S2P Require Import Prelude GoStrings Algo StoreApi.

(** ** Definitions *)

Record entry := mkEntry {
  e_algorithm : Z;
  e_tat : Z;
  e_start : Z;
  e_count : Z;
  e_deadline : Z }.

(** The zero value of the struct. *)
Definition zero_entry : entry := mkEntry 0 0 0 0 0.

Record outcome := mkOutcome {
  o_allowed : bool;
  o_costExceeds : bool;
  o_retryAfter : Z;
  o_remainCharged : Z;
  o_remainCurrent : Z;
  o_resetCharged : Z;
  o_resetCurrent : Z;
  o_next : entry }.

#[export] Instance entry_eq_dec : EqDecision entry.
Proof. solve_decision. Defined.
#[export] Instance outcome_eq_dec : EqDecision outcome.
Proof. solve_decision. Defined.

(** The store is the counter map; [New] makes it empty. *)
Definition New : gmap string entry := ∅.

Definition microsDuration (us : Z) : Z := us *i Microsecond.

Definition nonNegative (x : Z) : Z := if x <? 0 then 0 else x.

Definition evalGCRA (e : entry) (exists_ : bool) (nowUS : Z) (w : Window) (cost : Z) : outcome :=
  let emission := EmissionMicros w in
  let tau := TauMicros w in
  let tat := if exists_ && (e_tat e >? nowUS) then e_tat e else nowUS in
  let depth := tat -i nowUS in
  let current := nonNegative ((tau -i depth) /i emission) in
  if cost >? Burst w then
    mkOutcome false true (-1) 0 current 0 (microsDuration depth) zero_entry
  else
    let increment := emission *i cost in
    let newTat := tat +i increment in
    let diff := nowUS -i (newTat -i tau) in
    let allowed := 0 <=? diff in
    mkOutcome allowed false
      (if allowed then -1 else microsDuration (i64 (- diff)))
      (nonNegative (diff /i emission)) current
      (microsDuration (newTat -i nowUS)) (microsDuration depth)
      (mkEntry GCRAID newTat 0 0 newTat).

Definition evalFixed (e : entry) (exists_ : bool) (nowUS : Z) (w : Window) (cost : Z) : outcome :=
  let periodUS := PeriodMicros w in
  let start := nowUS -i (nowUS %i periodUS) in
  let count := if exists_ && (e_start e =? start) then e_count e else 0 in
  let left := Z.max (Requests w -i count) 0 in
  let boundary := microsDuration (start +i periodUS -i nowUS) in
  let allowed := cost <=? left in
  let costExceeds := cost >? Requests w in
  mkOutcome allowed costExceeds
    (if negb allowed && negb costExceeds then boundary else -1)
    (left -i cost) left boundary
    (if count =? 0 then 0 else boundary)
    (mkEntry FixedWindowID 0 start (count +i cost) (start +i periodUS)).

(** One iteration of the loop of [evalAll]: the entry the bucket sees, with an
    expired or foreign one dropped from the map. *)
Definition touch (nowUS : Z) (b : Bucket) (m : gmap string entry) : gmap string entry * entry * bool :=
  match m !! b_Key b with
  | Some e =>
      if (e_deadline e <=? nowUS) || negb (e_algorithm e =? b_Algorithm b)
      then (delete (b_Key b) m, e, false)
      else (m, e, true)
  | None => (m, zero_entry, false)
  end.

Fixpoint evalAll (nowUS : Z) (bs : list Bucket) (m : gmap string entry)
    : gmap string entry * result StoreError (list outcome) :=
  match bs with
  | [] => (m, Ok [])
  | b :: rest =>
      let '(m1, e, ok) := touch nowUS b m in
      let o :=
        if b_Algorithm b =? GCRAID then Some (evalGCRA e ok nowUS (b_Window b) (b_Cost b))
        else if b_Algorithm b =? FixedWindowID then Some (evalFixed e ok nowUS (b_Window b) (b_Cost b))
        else None in
      match o with
      | None => (m1, Err (ErrUnknownAlgorithm (b_Algorithm b)))
      | Some o =>
          let '(m2, r) := evalAll nowUS rest m1 in
          (m2, match r with Ok os => Ok (o :: os) | Err e => Err e end)
      end
  end.

Definition chargedVerdict (o : outcome) : Verdict :=
  mkVerdict true (o_remainCharged o) false (-1) (o_resetCharged o).

Definition currentVerdict (o : outcome) : Verdict :=
  mkVerdict (o_allowed o) (o_remainCurrent o) (o_costExceeds o) (o_retryAfter o) (o_resetCurrent o).

(** The second loop of [Decide]: commit and assemble verdicts. *)
Fixpoint commit_loop (adm : bool) (bs : list Bucket) (os : list outcome) (m : gmap string entry)
    : gmap string entry * list Verdict :=
  match bs, os with
  | b :: bs, o :: os =>
      if adm && o_allowed o then
        let '(m', vs) := commit_loop adm bs os (<[b_Key b := o_next o]> m) in
        (m', chargedVerdict o :: vs)
      else
        let '(m', vs) := commit_loop adm bs os m in
        (m', currentVerdict o :: vs)
  | _, _ => (m, [])
  end.

Definition all_admitted (bs : list Bucket) (os : list outcome) : bool :=
  forallb (fun bo => negb (negb (b_Shadow bo.1) && negb (o_allowed bo.2))) (zip bs os).

Definition Decide (nowUS : Z) (bs : list Bucket) (m : gmap string entry)
    : gmap string entry * result StoreError (list Verdict) :=
  match GuardBuckets bs with
  | Err e => (m, Err e)
  | Ok _ =>
      match evalAll nowUS bs m with
      | (m1, Err e) => (m1, Err e)
      | (m1, Ok os) =>
          let '(m2, vs) := commit_loop (all_admitted bs os) bs os m1 in (m2, Ok vs)
      end
  end.

Definition Peek (nowUS : Z) (bs : list Bucket) (m : gmap string entry)
    : gmap string entry * result StoreError (list Verdict) :=
  match GuardBuckets bs with
  | Err e => (m, Err e)
  | Ok _ =>
      match evalAll nowUS bs m with
      | (m1, Err e) => (m1, Err e)
      | (m1, Ok os) => (m1, Ok (map currentVerdict os))
      end
  end.

Definition Reset (keys : list string) (m : gmap string entry) : gmap string entry :=
  foldl (fun m k => delete k m) m keys.

(** [Scan] of the store: sweep the expired entries, then the smallest [limit]
    keys under [prefix] above [cursor]. *)
Definition Scan (nowUS : Z) (prefix cursor : string) (limit : Z) (m : gmap string entry)
    : gmap string entry * result StoreError (list string * string) :=
  if limit <? 1 then (m, Err (ErrBackend "memory: scan: limit must be at least 1"))
  else
    let swept := filter (fun ke : string * entry => nowUS < e_deadline ke.2) m in
    let above := sort_strings
      (filter (fun k => str_ltb cursor k && HasPrefix k prefix = true) (map_to_list swept).*1) in
    if Z.of_nat (length above) <=? limit then (swept, Ok (above, ""))
    else
      let keys := take (Z.to_nat limit) above in
      (swept, Ok (keys, default "" (last keys))).

(** ** The abstraction *)

(** The level of a key at an instant, by its kind. *)
Definition mem_level (kind : string -> Kind) (now : Z) (m : gmap string entry) (k : string) : Z :=
  match m !! k with
  | None => 0
  | Some e =>
      if e_deadline e <=? now then 0
      else match k_alg (kind k) with
           | gcra => e_tat e - now
           | fixedWindow =>
               if e_start e =? window_start (k_period (kind k) / Microsecond) now
               then e_count e else 0
           end
  end.

(** What every stored entry satisfies: its fields are those its kind's
    algorithm wrote, within the bounds that keep 64-bit arithmetic exact, and a
    window does not start after the clock's latest reading. *)
Definition entry_ok (kd : Kind) (now : Z) (e : entry) : Prop :=
  match k_alg kd with
  | gcra =>
      e_algorithm e = GCRAID /\ e_deadline e = e_tat e /\ 0 <= e_tat e <= maxNow + maxTauMicros
  | fixedWindow =>
      let p := k_period kd / Microsecond in
      e_algorithm e = FixedWindowID /\ 1000000 <= p <= 86400000000 /\
      0 <= e_start e <= now /\ e_start e mod p = 0 /\ e_deadline e = e_start e + p /\
      0 <= e_count e <= max_i64
  end.

Definition mem_inv (kind : string -> Kind) (now : Z) (m : gmap string entry) : Prop :=
  forall k e, m !! k = Some e -> entry_ok (kind k) now e.

(** ** The evaluations in exact arithmetic *)

Lemma nonNegative_div x c :
  0 < c -> - 2 ^ 63 < x < 2 ^ 63 -> nonNegative (x /i c) = Z.max (x / c) 0.
Proof.
  intros Hc Hx. unfold nonNegative. rewrite div64_exact by lia.
  destruct (Z_le_gt_dec 0 x).
  - rewrite Z.quot_div_nonneg by lia. pose proof (Z.div_pos x c).
    destruct (Z.ltb_spec (x / c) 0); lia.
  - assert (Z.quot x c <= 0).
    { replace x with (- - x) by lia. rewrite Z.quot_opp_l by lia.
      pose proof (Z.quot_pos (- x) c). lia. }
    assert (x / c < 0) by (apply Z.div_lt_upper_bound; lia).
    destruct (Z.ltb_spec (Z.quot x c) 0); lia.
Qed.

Lemma evalGCRA_exact e ok now w cost :
  gcra_ok w -> time_ok now -> 1 <= cost ->
  (ok = true -> 0 <= e_tat e <= maxNow + maxTauMicros) ->
  let lvl := if ok && (e_tat e >? now) then e_tat e - now else 0 in
  let em := EmissionMicros w in
  let tau := TauMicros w in
  evalGCRA e ok now w cost =
    if Burst w <? cost then
      mkOutcome false true (-1) 0 (Z.max ((tau - lvl) / em) 0) 0 (lvl * Microsecond) zero_entry
    else
      mkOutcome (lvl + em * cost <=? tau) false
        (if lvl + em * cost <=? tau then -1 else (lvl + em * cost - tau) * Microsecond)
        (Z.max ((tau - (lvl + em * cost)) / em) 0) (Z.max ((tau - lvl) / em) 0)
        (i64 ((lvl + em * cost) * Microsecond)) (lvl * Microsecond)
        (mkEntry GCRAID (now + (lvl + em * cost)) 0 0 (now + (lvl + em * cost))).
Proof.
  intros Hw Hn Hc He lvl em tau.
  pose proof (gcra_ok_facts w Hw) as (_ & Hp & Hem & _ & Htau & Hb & Ht).
  fold em tau in Hem, Htau, Ht |- *. unfold time_ok, maxNow, maxTauMicros, Microsecond in *.
  assert ((if ok && (e_tat e >? now) then e_tat e else now) = now + lvl) as Htat.
  { subst lvl. destruct (ok && (e_tat e >? now)); lia. }
  assert (0 <= lvl <= 9000000000000000) as Hl.
  { subst lvl. destruct ok; simpl; [|lia]. destruct (e_tat e >? now) eqn:E; bools; lia. }
  unfold evalGCRA. rewrite Htat. fold em tau. cbv zeta.
  rewrite (sub64_exact (now + lvl) now) by lia.
  replace (now + lvl - now) with lvl by lia.
  rewrite (sub64_exact tau lvl) by lia.
  rewrite nonNegative_div by lia.
  assert (microsDuration lvl = lvl * 1000) as Hml.
  { unfold microsDuration, Microsecond. apply mul64_exact. lia. }
  rewrite Z.gtb_ltb. destruct (Z.ltb_spec (Burst w) cost); [by rewrite Hml|].
  assert (em <= em * cost <= tau) by nia.
  rewrite (mul64_exact em cost) by lia.
  rewrite (add64_exact (now + lvl)) by lia.
  rewrite (sub64_exact _ tau) by lia. rewrite (sub64_exact now) by lia.
  rewrite (sub64_exact _ now) by lia.
  set (nl := lvl + em * cost) in *.
  replace (now - (now + lvl + em * cost - tau)) with (tau - nl) by (subst nl; lia).
  replace (now + lvl + em * cost - now) with nl by (subst nl; lia).
  replace (now + lvl + em * cost) with (now + nl) by (subst nl; lia).
  rewrite nonNegative_div by (subst nl; lia). rewrite Hml.
  assert ((0 <=? tau - nl) = (nl <=? tau)) as Hle
    by (apply Bool.eq_iff_eq_true; rewrite !Z.leb_le; lia).
  f_equal; try done. rewrite Hle. destruct (Z.leb_spec nl tau); [done|].
  unfold microsDuration, Microsecond. rewrite (i64_id (- (tau - nl))) by (apply is_i64_intro; lia).
  rewrite mul64_exact by (subst nl; lia). lia.
Qed.

Lemma evalFixed_exact e ok now w cost :
  fixed_ok w -> Requests w <= max_i64 -> time_ok now -> 1 <= cost <= max_i64 ->
  (ok = true -> 0 <= e_count e <= max_i64) ->
  let p := Period w / Microsecond in
  let start := window_start p now in
  let lvl := if ok && (e_start e =? start) then e_count e else 0 in
  let boundary := (start + p - now) * Microsecond in
  let left := Z.max (Requests w - lvl) 0 in
  evalFixed e ok now w cost =
    mkOutcome (cost <=? left) (Requests w <? cost)
      (if negb (cost <=? left) && negb (Requests w <? cost) then boundary else -1)
      (left - cost) left boundary (if lvl =? 0 then 0 else boundary)
      (mkEntry FixedWindowID 0 start (i64 (lvl + cost)) (start + p)).
Proof.
  intros Hw Hr Hn Hc He p start lvl boundary left.
  pose proof (fixed_ok_facts w Hw) as [Hpm Hp]. destruct Hw as (_ & Hr1 & _).
  unfold time_ok, maxNow, max_i64, Microsecond in *.
  rewrite Hpm in Hp. fold p in Hp, Hpm.
  pose proof (window_start_bounds p now ltac:(lia)) as Hs.
  pose proof (Z.mod_pos_bound now p ltac:(lia)). unfold window_start in Hs.
  assert (0 <= lvl <= 2 ^ 63 - 1) as Hl.
  { subst lvl. destruct ok; simpl; [|lia]. destruct (e_start e =? start); lia. }
  unfold evalFixed. rewrite Hpm. rewrite rem64_nonneg by lia.
  rewrite (sub64_exact now) by lia.
  change (now - now mod p) with start. fold lvl. cbv zeta.
  assert (start <= now < start + p) by (subst start; unfold window_start; lia).
  assert (0 <= start) by (subst start; unfold window_start; pose proof (Z.mod_le now p); lia).
  rewrite (sub64_exact (Requests w)) by lia. fold left.
  rewrite (add64_exact start p) by lia.
  rewrite (sub64_exact _ now) by lia. rewrite (sub64_exact left) by lia.
  rewrite Z.gtb_ltb.
  assert (microsDuration (start + p - now) = boundary) as ->
    by (unfold microsDuration, Microsecond; apply mul64_exact; lia).
  done.
Qed.

(** ** The contract *)

Section contract.
Context (kind : string -> Kind).

(** The evaluation one bucket gets in a decision over the map. *)
Definition eval_one (now : Z) (b : Bucket) (m : gmap string entry) : outcome :=
  let '(_, e, ok) := touch now b m in
  if b_Algorithm b =? GCRAID then evalGCRA e ok now (b_Window b) (b_Cost b)
  else evalFixed e ok now (b_Window b) (b_Cost b).

(** What an outcome has to say about a bucket at a level. *)
Definition outcome_ok (now : Z) (b : Bucket) (lvl : Z) (o : outcome) : Prop :=
  o_allowed o = judge_allowed b lvl /\
  currentVerdict o = current_verdict now b lvl /\
  (judge_allowed b lvl = true ->
     chargedVerdict o = charged_verdict now b lvl /\
     entry_ok (kind (b_Key b)) now (o_next o) /\
     mem_level kind now {[b_Key b := o_next o]} (b_Key b) = charge b lvl).

Lemma touch_found now b m m1 e ok :
  mem_inv kind now m -> bucket_ok max_i64 kind b -> touch now b m = (m1, e, ok) ->
  (ok = true -> m !! b_Key b = Some e /\ now < e_deadline e /\ m1 = m) /\
  (ok = false -> (forall e', m !! b_Key b = Some e' -> e_deadline e' <= now) /\
     m1 = delete (b_Key b) m).
Proof.
  intros Hm Hb. unfold touch. destruct (m !! b_Key b) as [e'|] eqn:Hl.
  - pose proof (Hm _ _ Hl) as He. unfold entry_ok in He.
    assert (e_algorithm e' = b_Algorithm b) as Ha.
    { destruct Hb as (_ & -> & _). destruct (k_alg _); destruct He as [-> _]; done. }
    rewrite Ha, Z.eqb_refl. simpl. rewrite orb_false_r.
    destruct (Z.leb_spec (e_deadline e') now); intros [= <- <- <-]; split; try done.
    intros _. split; [|done]. by intros ? [= <-].
  - intros [= <- <- <-]. split; [done|]. intros _. split; [done|].
    by rewrite delete_id.
Qed.

(** Dropping an expired entry leaves every level as it was. *)
Lemma level_delete_expired now m k :
  (forall e, m !! k = Some e -> e_deadline e <= now) ->
  forall k', mem_level kind now (delete k m) k' = mem_level kind now m k'.
Proof.
  intros H k'. unfold mem_level. destruct (decide (k = k')) as [<-|].
  - rewrite lookup_delete_eq. destruct (m !! k) as [e|] eqn:E; [|done].
    specialize (H _ eq_refl). destruct (Z.leb_spec (e_deadline e) now); [done|lia].
  - by rewrite lookup_delete_ne.
Qed.

Lemma eval_gcra_ok now b m e ok :
  bucket_ok max_i64 kind b -> b_Algorithm b = GCRAID -> time_ok now ->
  (ok = true -> m !! b_Key b = Some e /\ now < e_deadline e) ->
  (ok = false -> forall e', m !! b_Key b = Some e' -> e_deadline e' <= now) ->
  mem_inv kind now m ->
  outcome_ok now b (mem_level kind now m (b_Key b)) (evalGCRA e ok now (b_Window b) (b_Cost b)).
Proof.
  intros Hb Ha Hn Hok Hno Hm.
  destruct (bucket_ok_gcra max_i64 kind b Hb Ha) as [Hk Hw].
  pose proof Hb as (_ & _ & Hc & _).
  assert (ok = true -> entry_ok (kind (b_Key b)) now e) as He.
  { intros Ht. destruct (Hok Ht). by apply Hm. }
  unfold entry_ok in He. rewrite Hk in He.
  rewrite evalGCRA_exact; [|done|done|lia|intros Ht; destruct (He Ht) as (_ & _ & ?); lia].
  assert ((if ok && (e_tat e >? now) then e_tat e - now else 0)
          = mem_level kind now m (b_Key b)) as ->.
  { unfold mem_level. destruct ok; simpl.
    - destruct (Hok eq_refl) as [-> Hd]. rewrite Hk.
      destruct (He eq_refl) as (_ & Hdt & _).
      destruct (Z.leb_spec (e_deadline e) now); [lia|].
      destruct (e_tat e >? now) eqn:E; bools; lia.
    - destruct (m !! b_Key b) as [e'|] eqn:E; [|done].
      specialize (Hno eq_refl _ eq_refl). by destruct (Z.leb_spec (e_deadline e') now); [|lia]. }
  pose proof (gcra_ok_facts _ Hw) as (_ & Hp & Hem & _ & Htau & Hbu & Ht).
  assert (0 <= mem_level kind now m (b_Key b)) as Hlv.
  { unfold mem_level. destruct (m !! b_Key b) as [e'|] eqn:E; [|lia].
    pose proof (Hm _ _ E) as He'. unfold entry_ok in He'. rewrite Hk in *.
    destruct He' as (_ & ? & _). destruct (Z.leb_spec (e_deadline e') now); lia. }
  set (lvl := mem_level kind now m (b_Key b)) in *.
  unfold outcome_ok, judge_allowed, current_verdict, charged_verdict, judge_exceeds,
    judge_allowed, wait, room, charge, drain. rewrite Ha. cbn [Z.eqb GCRAID Pos.eqb].
  destruct (Z.ltb_spec (Burst (b_Window b)) (b_Cost b)) as [Hx|Hx].
  { rewrite (proj2 (Z.leb_gt _ _) Hx). simpl. done. }
  rewrite (proj2 (Z.leb_le _ _) Hx). simpl.
  destruct (Z.leb_spec (lvl + EmissionMicros (b_Window b) * b_Cost b) (TauMicros (b_Window b)))
    as [Hle|Hle]; simpl; split_and!; try done.
  intros _.
  assert (EmissionMicros (b_Window b) <= EmissionMicros (b_Window b) * b_Cost b) by nia.
  unfold maxTauMicros, time_ok, maxNow in *. split_and!.
  - unfold chargedVerdict. simpl. do 2 f_equal.
    rewrite i64_id; [done|]. apply is_i64_intro. unfold Microsecond. lia.
  - unfold entry_ok. rewrite Hk. simpl. split_and!; try done; unfold maxNow, maxTauMicros; lia.
  - unfold mem_level. rewrite lookup_singleton_eq, Hk. simpl.
    destruct (Z.leb_spec (now + (lvl + EmissionMicros (b_Window b) * b_Cost b)) now); lia.
Qed.

Lemma eval_fixed_ok now b m e ok :
  bucket_ok max_i64 kind b -> b_Algorithm b <> GCRAID -> time_ok now ->
  (ok = true -> m !! b_Key b = Some e /\ now < e_deadline e) ->
  (ok = false -> forall e', m !! b_Key b = Some e' -> e_deadline e' <= now) ->
  mem_inv kind now m ->
  outcome_ok now b (mem_level kind now m (b_Key b)) (evalFixed e ok now (b_Window b) (b_Cost b)).
Proof.
  intros Hb Ha Hn Hok Hno Hm.
  destruct (bucket_ok_fixed max_i64 kind b Hb Ha) as (Ha' & Hk & Hw & Hr).
  pose proof (bucket_ok_period max_i64 kind b Hb) as Hper.
  pose proof Hb as (_ & _ & Hc & _).
  pose proof (fixed_ok_facts _ Hw) as [Hpm Hp]. rewrite Hpm in Hp.
  assert (ok = true -> entry_ok (kind (b_Key b)) now e) as He.
  { intros Ht. destruct (Hok Ht). by apply Hm. }
  unfold entry_ok in He. rewrite Hk, Hper in He.
  rewrite evalFixed_exact; [|done|done|done|lia|intros Ht; by destruct (He Ht) as (_ & _ & _ & _ & _ & ?)].
  assert ((if ok && (e_start e =? window_start (Period (b_Window b) / Microsecond) now)
           then e_count e else 0) = mem_level kind now m (b_Key b)) as ->.
  { unfold mem_level. destruct ok; simpl.
    - destruct (Hok eq_refl) as [-> Hd]. rewrite Hk, Hper.
      by destruct (Z.leb_spec (e_deadline e) now); [lia|].
    - destruct (m !! b_Key b) as [e'|] eqn:E; [|done].
      specialize (Hno eq_refl _ eq_refl). by destruct (Z.leb_spec (e_deadline e') now); [|lia]. }
  assert (0 <= mem_level kind now m (b_Key b)) as Hlv.
  { unfold mem_level. destruct (m !! b_Key b) as [e'|] eqn:E; [|lia].
    pose proof (Hm _ _ E) as He'. unfold entry_ok in He'. rewrite Hk in *.
    destruct He' as (_ & _ & _ & _ & _ & ?).
    destruct (Z.leb_spec (e_deadline e') now); [lia|]. case_match; lia. }
  set (lvl := mem_level kind now m (b_Key b)) in *.
  set (p := Period (b_Window b) / Microsecond) in *.
  pose proof (window_start_bounds p now ltac:(lia)).
  unfold outcome_ok, judge_allowed, current_verdict, charged_verdict, judge_exceeds,
    judge_allowed, wait, room, charge, drain, b_period. fold p.
  rewrite Ha'. cbn [Z.eqb GCRAID FixedWindowID Pos.eqb].
  destruct Hw as (_ & Hr1 & _).
  split_and!; [done| |].
  { unfold currentVerdict. simpl. f_equal; [|by destruct (lvl =? 0)].
    by destruct (b_Cost b <=? _), (Requests (b_Window b) <? b_Cost b). }
  intros Hle%Z.leb_le.
  assert (lvl + b_Cost b <= Requests (b_Window b)) by lia.
  unfold time_ok, maxNow, max_i64 in *. split_and!.
  - unfold chargedVerdict. simpl. rewrite (proj2 (Z.eqb_neq (lvl + b_Cost b) 0)) by lia.
    f_equal. lia.
  - unfold entry_ok. rewrite Hk, Hper. fold p. simpl.
    rewrite i64_id by (apply is_i64_intro; lia).
    pose proof (window_start_mod p now ltac:(lia)).
    assert (0 <= window_start p now) by (unfold window_start; pose proof (Z.mod_le now p); lia).
    split_and!; try done; unfold maxNow, max_i64; lia.
  - unfold mem_level. rewrite lookup_singleton_eq, Hk, Hper. fold p. simpl.
    rewrite Z.eqb_refl, i64_id by (apply is_i64_intro; lia).
    by destruct (Z.leb_spec (window_start p now + p) now); [lia|].
Qed.

Lemma eval_one_ok now b m :
  mem_inv kind now m -> time_ok now -> bucket_ok max_i64 kind b ->
  outcome_ok now b (mem_level kind now m (b_Key b)) (eval_one now b m).
Proof.
  intros Hm Hn Hb. unfold eval_one. destruct (touch now b m) as [[m1 e] ok] eqn:Ht.
  destruct (touch_found _ _ _ _ _ _ Hm Hb Ht) as [Hok Hno].
  assert (ok = true -> m !! b_Key b = Some e /\ now < e_deadline e)
    by (intros Hx; by destruct (Hok Hx) as (? & ? & _)).
  assert (ok = false -> forall e', m !! b_Key b = Some e' -> e_deadline e' <= now)
    by (intros Hx; by destruct (Hno Hx)).
  destruct (Z.eqb_spec (b_Algorithm b) GCRAID).
  - by apply eval_gcra_ok.
  - by apply eval_fixed_ok.
Qed.

Lemma evalAll_ok now bs m :
  mem_inv kind now m -> time_ok now -> Forall (bucket_ok max_i64 kind) bs ->
  exists m1 os, evalAll now bs m = (m1, Ok os) /\
    Forall2 (fun b o => outcome_ok now b (mem_level kind now m (b_Key b)) o) bs os /\
    mem_inv kind now m1 /\ (forall k, mem_level kind now m1 k = mem_level kind now m k).
Proof.
  intros Hm Hn Hbs. induction Hbs as [|b bs Hb Hbs IH] in m, Hm |- *.
  { exists m, []. split_and!; [done|constructor|done|done]. }
  pose proof (eval_one_ok now b m Hm Hn Hb) as Ho. unfold eval_one in Ho.
  cbn [evalAll]. destruct (touch now b m) as [[m1 e] ok] eqn:Ht.
  destruct (touch_found _ _ _ _ _ _ Hm Hb Ht) as [Hok Hno].
  assert (mem_inv kind now m1 /\ forall k, mem_level kind now m1 k = mem_level kind now m k) as [Hm1 Hl1].
  { destruct ok.
    - destruct (Hok eq_refl) as (_ & _ & ->). done.
    - destruct (Hno eq_refl) as [Hd ->]. split; [|by apply level_delete_expired].
      intros k e' [_ Hk]%lookup_delete_Some. by apply Hm. }
  assert (b_Algorithm b = GCRAID \/ b_Algorithm b = FixedWindowID) as Halg.
  { destruct Hb as (_ & -> & _). destruct (k_alg _); [by left|by right]. }
  destruct (IH m1 Hm1) as (m2 & os & He & Hf & Hm2 & Hl2).
  rewrite He. exists m2.
  destruct Halg as [Ha|Ha]; rewrite Ha in *; cbn [Z.eqb GCRAID FixedWindowID Pos.eqb] in *;
    (eexists; split_and!; [done| |done|intros k; by rewrite Hl2, Hl1];
     constructor; [done|]; eapply Forall2_impl; [exact Hf|];
     intros b' o'; cbv beta; by rewrite Hl1).
Qed.

Lemma level_insert now m k e k' :
  mem_level kind now (<[k := e]> m) k' =
  if bool_decide (k = k') then mem_level kind now {[k := e]} k else mem_level kind now m k'.
Proof.
  unfold mem_level. case_bool_decide as Hk.
  - subst k'. by rewrite lookup_insert_eq, lookup_singleton_eq.
  - by rewrite lookup_insert_ne.
Qed.

Lemma commit_loop_ok now adm lv bs os m :
  NoDup (b_Key <$> bs) -> mem_inv kind now m ->
  Forall2 (fun b o => outcome_ok now b (lv (b_Key b)) o) bs os ->
  let '(m', vs) := commit_loop adm bs os m in
  vs = map (fun b => if adm && judge_allowed b (lv (b_Key b))
                     then charged_verdict now b (lv (b_Key b))
                     else current_verdict now b (lv (b_Key b))) bs /\
  mem_inv kind now m' /\
  (forall k, mem_level kind now m' k =
     match find_first (fun b => bool_decide (b_Key b = k)) bs with
     | Some b => if adm && judge_allowed b (lv k) then charge b (lv k) else mem_level kind now m k
     | None => mem_level kind now m k
     end).
Proof.
  intros Hnd Hm Hf. induction Hf as [|b o bs os Ho Hf IH] in m, Hnd, Hm |- *; [done|].
  rewrite fmap_cons in Hnd. apply NoDup_cons in Hnd as [Hb Hnd].
  destruct Ho as (Hall & Hcur & Hch). cbn [commit_loop]. rewrite Hall.
  assert (find_first (fun b' => bool_decide (b_Key b' = b_Key b)) bs = None) as Hnone.
  { apply find_first_None, Forall_forall. intros b' Hin. apply bool_decide_eq_false.
    intros He. apply Hb. rewrite <- He. by apply list_elem_of_fmap_2. }
  destruct (adm && judge_allowed b (lv (b_Key b))) eqn:Hadm.
  - apply andb_true_iff in Hadm as [-> Hj]. destruct (Hch Hj) as (Hcv & Hok & Hlev).
    specialize (IH (<[b_Key b := o_next o]> m) Hnd).
    destruct (commit_loop true bs os (<[b_Key b := o_next o]> m)) as [m' vs].
    destruct IH as (-> & Hm' & Hl').
    { intros k e [[<- <-]|[_ Hk]]%lookup_insert_Some; [done|by apply Hm]. }
    split_and!; [cbn [map]; by rewrite Hj, Hcv|done|].
    intros k. rewrite Hl'. cbn [find_first]. case_bool_decide as Hk.
    + subst k. rewrite Hnone, Hj, level_insert, bool_decide_true by done. by rewrite Hlev.
    + by rewrite level_insert, bool_decide_false.
  - specialize (IH m Hnd Hm). destruct (commit_loop adm bs os m) as [m' vs].
    destruct IH as (-> & Hm' & Hl').
    split_and!; [cbn [map]; by rewrite Hadm, Hcur|done|].
    intros k. rewrite Hl'. cbn [find_first]. case_bool_decide as Hk; [|done].
    subst k. by rewrite Hnone, Hadm.
Qed.

Lemma all_admitted_ok now lv bs os :
  Forall2 (fun b o => outcome_ok now b (lv (b_Key b)) o) bs os ->
  all_admitted bs os = spec_admitted bs lv.
Proof.
  unfold all_admitted, spec_admitted.
  induction 1 as [|b o bs os (Ha & _) Hf IH]; simpl; [done|].
  rewrite IH, Ha. by destruct (b_Shadow b), (judge_allowed b _).
Qed.

Lemma currentVerdict_ok now lv bs os :
  Forall2 (fun b o => outcome_ok now b (lv (b_Key b)) o) bs os ->
  map currentVerdict os = spec_verdicts false now bs lv.
Proof.
  unfold spec_verdicts.
  induction 1 as [|b o bs os (_ & Hc & _) Hf IH]; [done|]. simpl in *. by rewrite IH, Hc.
Qed.

Lemma mem_level_nonneg now m k : mem_inv kind now m -> 0 <= mem_level kind now m k.
Proof.
  intros Hm. unfold mem_level. destruct (m !! k) as [e|] eqn:E; [|lia].
  pose proof (Hm _ _ E) as He. unfold entry_ok in He.
  destruct (Z.leb_spec (e_deadline e) now); [lia|].
  destruct (k_alg (kind k)); [lia|]. case_match; lia.
Qed.

Lemma mem_level_decay t0 t1 m k :
  mem_inv kind t0 m -> time_ok t0 -> t0 <= t1 -> time_ok t1 ->
  mem_level kind t1 m k = decay (kind k) t0 t1 (mem_level kind t0 m k).
Proof.
  intros Hm H0 Ht H1. unfold mem_level, decay.
  destruct (m !! k) as [e|] eqn:E.
  2:{ destruct (k_alg (kind k)); [lia|by case_match]. }
  pose proof (Hm _ _ E) as He. unfold entry_ok in He.
  destruct (k_alg (kind k)); simpl.
  - destruct He as (_ & -> & _).
    destruct (Z.leb_spec (e_tat e) t0), (Z.leb_spec (e_tat e) t1); lia.
  - destruct He as (_ & Hp & Hs & Hsm & -> & _).
    set (p := k_period (kind k) / Microsecond) in *. set (s := e_start e) in *.
    assert (forall t, (s =? window_start p t) = true -> s <= t < s + p) as Hin.
    { intros t Hst. apply Z.eqb_eq in Hst. rewrite Hst. apply window_start_bounds. lia. }
    destruct (Z.leb_spec (s + p) t0), (Z.leb_spec (s + p) t1); try lia.
    + by case_match.
    + destruct (s =? window_start p t0) eqn:Es; [|by case_match].
      rewrite (same_window p t0 t1 s) by (lia || by apply Hin).
      by rewrite bool_decide_false by lia.
    + destruct (Z.eqb_spec s (window_start p t0)) as [Es|Es].
      * rewrite (same_window p t0 t1 s) by (lia || (apply Hin; by apply Z.eqb_eq)).
        rewrite bool_decide_true by lia.
        assert (window_start p t0 = window_start p t1) as Hww.
        { apply Z.eqb_eq. rewrite (same_window p t0 t1 s) by (lia || (apply Hin; by apply Z.eqb_eq)).
          by apply bool_decide_eq_true. }
        by rewrite <- Hww, <- Es, Z.eqb_refl.
      * destruct (Z.eqb_spec s (window_start p t1)) as [Es1|]; [|by case_match].
        exfalso. apply Es. pose proof (Hin t1 ltac:(by apply Z.eqb_eq)).
        assert (window_start p t0 = window_start p t1); [|congruence].
        apply Z.eqb_eq. rewrite (same_window p t0 t1 s) by lia. by apply bool_decide_eq_true.
Qed.

Lemma Reset_lookup ks m k :
  Reset ks m !! k = if bool_decide (k ∈ ks) then None else m !! k.
Proof.
  unfold Reset. induction ks as [|k' ks IH] in m |- *; simpl; [done|].
  rewrite IH. destruct (decide (k' = k)) as [->|Hne].
  - rewrite lookup_delete_eq. rewrite (bool_decide_true (k ∈ k :: ks)) by left.
    by case_bool_decide.
  - rewrite lookup_delete_ne by done.
    rewrite (bool_decide_ext (k ∈ k' :: ks) (k ∈ ks)); [done|].
    rewrite elem_of_cons. split; [by intros [->|]|by right].
Qed.

Lemma mem_inv_mono t0 t1 m : mem_inv kind t0 m -> t0 <= t1 -> mem_inv kind t1 m.
Proof.
  intros Hm Ht k e He. specialize (Hm k e He). unfold entry_ok in *.
  destruct (k_alg (kind k)); [done|]. intuition lia.
Qed.

Lemma decide_contract now bs m :
  mem_inv kind now m -> time_ok now -> GuardBuckets bs = Ok tt -> Forall (bucket_ok max_i64 kind) bs ->
  let '(m', r) := Decide now bs m in
  r = Ok (spec_verdicts true now bs (mem_level kind now m)) /\
  (forall k, mem_level kind now m' k = spec_levels bs (mem_level kind now m) k) /\
  mem_inv kind now m'.
Proof.
  intros Hm Hn Hg Hbs. unfold Decide. rewrite Hg.
  destruct (evalAll_ok now bs m Hm Hn Hbs) as (m1 & os & -> & Hf & Hm1 & Hl1).
  apply GuardBuckets_ok in Hg as [Hnd _].
  rewrite (all_admitted_ok now (mem_level kind now m)) by done.
  pose proof (commit_loop_ok now (spec_admitted bs (mem_level kind now m))
                (mem_level kind now m) bs os m1 Hnd Hm1 Hf) as Hc.
  destruct (commit_loop _ bs os m1) as [m2 vs]. destruct Hc as (-> & Hm2 & Hl2).
  split_and!; [done| |done]. intros k. rewrite Hl2. unfold spec_levels.
  by repeat case_match.
Qed.

Lemma peek_contract now bs m :
  mem_inv kind now m -> time_ok now -> GuardBuckets bs = Ok tt -> Forall (bucket_ok max_i64 kind) bs ->
  let '(m', r) := Peek now bs m in
  r = Ok (spec_verdicts false now bs (mem_level kind now m)) /\
  (forall k, mem_level kind now m' k = mem_level kind now m k) /\
  mem_inv kind now m'.
Proof.
  intros Hm Hn Hg Hbs. unfold Peek. rewrite Hg.
  destruct (evalAll_ok now bs m Hm Hn Hbs) as (m1 & os & -> & Hf & Hm1 & Hl1).
  split_and!; [|done|done]. by rewrite (currentVerdict_ok now (mem_level kind now m) bs).
Qed.

Lemma reset_contract now ks m :
  mem_inv kind now m ->
  (forall k, mem_level kind now (Reset ks m) k =
     if bool_decide (k ∈ ks) then 0 else mem_level kind now m k) /\
  mem_inv kind now (Reset ks m).
Proof.
  intros Hm. split.
  - intros k. unfold mem_level. rewrite Reset_lookup. by case_bool_decide.
  - intros k e. rewrite Reset_lookup. case_bool_decide; [done|]. apply Hm.
Qed.

(** The in-memory store is a counter store. *)
#[export] Program Instance memory_store : CounterStore max_i64 kind (gmap string entry) := {
  store_decide := Decide;
  store_peek := Peek;
  store_reset := Reset;
  store_level := mem_level kind;
  store_inv := mem_inv kind
}.
Next Obligation. intros. by eapply mem_inv_mono. Qed.
Next Obligation. intros. by apply mem_level_nonneg. Qed.
Next Obligation. intros. by apply mem_level_decay. Qed.
Next Obligation. intros now bs s e H. unfold Decide. by rewrite H. Qed.
Next Obligation. intros now bs s e H. unfold Peek. by rewrite H. Qed.
Next Obligation. intros. by apply decide_contract. Qed.
Next Obligation. intros. by apply peek_contract. Qed.
Next Obligation. intros. by apply reset_contract. Qed.

End contract.

Lemma mem_inv_New kind now : mem_inv kind now New.
Proof. intros k e H. unfold New in H. by rewrite lookup_empty in H. Qed.
