(* ===== verification/Limits.v ===== *)
(** * The limits a store enforces

    Theorems about every store that meets the contract, over arbitrary
    sequences of its operations: what a GCRA bucket admits over an interval,
    what a fixed window admits before its boundary, what a retry hint
    promises, and that peeking and refusing leave no trace. *)
From S2P Require Import Prelude GoStrings Algo StoreApi Memory.

(** ** Definitions *)

(** One call on the store, and the store's clock when it runs. *)
Inductive call :=
| CallDecide (bs : list Bucket)
| CallPeek (bs : list Bucket)
| CallReset (ks : list string).

(** The cost a decision charged to key [k]: nothing when it errs or refuses. *)
Definition charged_cost (k : string) (bs : list Bucket) (r : result StoreError (list Verdict)) : Z :=
  match r with
  | Err _ => 0
  | Ok vs =>
      match StoreAdmitted bs vs with
      | Some true =>
          sumZ (fun bv => if bool_decide (b_Key bv.1 = k) && v_Allowed bv.2 then b_Cost bv.1 else 0)
               (zip bs vs)
      | _ => 0
      end
  end.

(** A call the rate theorems speak about: its buckets are the compiler's, the
    ones with key [k] carry window [w], and it does not reset [k]. *)
Definition call_ok (cap : Z) (kind : string -> Kind) (k : string) (w : Window) (c : call) : Prop :=
  match c with
  | CallDecide bs | CallPeek bs =>
      Forall (fun b => bucket_ok cap kind b /\ (b_Key b = k -> b_Window b = w)) bs
  | CallReset ks => k ∉ ks
  end.

(** The buckets a call names, and the keys it resets. *)
Definition call_buckets (c : call) : list Bucket :=
  match c with CallDecide bs | CallPeek bs => bs | CallReset _ => [] end.

Definition call_resets (c : call) : list string :=
  match c with CallReset ks => ks | _ => [] end.

(** A call whose buckets are the compiler's, the ones with key [k] carrying at
    most [limit] requests; their windows may differ from call to call, and the
    call may reset any key. *)
Definition call_within (cap : Z) (kind : string -> Kind) (k : string) (limit : Z) (c : call) : Prop :=
  Forall (fun b => bucket_ok cap kind b /\ (b_Key b = k -> Requests (b_Window b) <= limit))
         (call_buckets c).

#[export] Instance call_within_dec cap kind k limit c : Decision (call_within cap kind k limit c).
Proof. unfold call_within. apply _. Defined.

(** How many calls of a trace reset [k]. *)
Definition resets (k : string) (cs : list (Z * call)) : Z :=
  sumZ (fun tc => if bool_decide (k ∈ call_resets tc.2) then 1 else 0) cs.

#[export] Instance call_ok_dec cap kind k w c : Decision (call_ok cap kind k w c).
Proof. destruct c; simpl; apply _. Defined.

Section traces.
Context {cap : Z} {kind : string -> Kind} {S : Type} {CS : CounterStore cap kind S}.

Definition do_call (t : Z) (c : call) (s : S) : S * option (result StoreError (list Verdict)) :=
  match c with
  | CallDecide bs => let '(s', r) := store_decide t bs s in (s', Some r)
  | CallPeek bs => let '(s', r) := store_peek t bs s in (s', Some r)
  | CallReset ks => (store_reset ks s, None)
  end.

(** What one call charged to [k]. *)
Definition call_cost (k : string) (t : Z) (c : call) (s : S) : Z :=
  match c with
  | CallDecide bs => charged_cost k bs (store_decide t bs s).2
  | _ => 0
  end.

(** Runs timed calls; returns the final state and everything charged to [k]. *)
Fixpoint run (k : string) (cs : list (Z * call)) (s : S) : S * Z :=
  match cs with
  | [] => (s, 0)
  | (t, c) :: cs =>
      let cost := call_cost k t c s in
      let '(s', total) := run k cs (do_call t c s).1 in
      (s', cost + total)
  end.

(** The clock readings of a trace never go back and stay in range. *)
Fixpoint clock_ok (t0 : Z) (cs : list (Z * call)) : Prop :=
  match cs with
  | [] => True
  | (t, _) :: cs => t0 <= t /\ time_ok t /\ clock_ok t cs
  end.

Definition end_time (t0 : Z) (cs : list (Z * call)) : Z := default t0 (last cs.*1).

(** ** Lemmas *)

Lemma charged_cost_spec k now bs lv :
  NoDup (b_Key <$> bs) ->
  charged_cost k bs (Ok (spec_verdicts true now bs lv)) =
  match find_first (fun b => bool_decide (b_Key b = k)) bs with
  | Some b => if spec_admitted bs lv && judge_allowed b (lv k) then b_Cost b else 0
  | None => 0
  end.
Proof.
  intros Hnd. unfold charged_cost. rewrite spec_verdicts_admitted.
  destruct (spec_admitted bs lv) eqn:Hadm; [|by case_match].
  unfold spec_verdicts. rewrite Hadm. clear Hadm. cbn [andb].
  induction bs as [|b bs IH]; [done|].
  rewrite fmap_cons in Hnd. apply NoDup_cons in Hnd as [Hb Hnd].
  specialize (IH Hnd). cbn [map zip_with find_first]. rewrite sumZ_cons, IH. cbn [fst snd]. case_bool_decide as Hk; simpl; [|lia].
  subst k. assert (find_first (fun b' => bool_decide (b_Key b' = b_Key b)) bs = None) as ->.
  { apply find_first_None, Forall_forall. intros b' Hin. apply bool_decide_eq_false.
    intros He. apply Hb. rewrite <- He. by apply list_elem_of_fmap_2. }
  destruct (judge_allowed b (lv (b_Key b))) eqn:E; simpl; rewrite ?E; lia.
Qed.

(** What one call does to the level of [k] and what it charged, whatever the
    call: nothing at all, a charge by one of its buckets that was within the
    limit, or a reset of [k]. *)
Lemma do_call_cases k t c s :
  store_inv t s -> time_ok t -> Forall (bucket_ok cap kind) (call_buckets c) ->
  store_inv t (do_call t c s).1 /\
  ((call_cost k t c s = 0 /\ k ∉ call_resets c /\
      store_level t (do_call t c s).1 k = store_level t s k) \/
   (exists b, b ∈ call_buckets c /\ b_Key b = k /\ k ∉ call_resets c /\
      call_cost k t c s = b_Cost b /\ judge_allowed b (store_level t s k) = true /\
      store_level t (do_call t c s).1 k = charge b (store_level t s k)) \/
   (call_cost k t c s = 0 /\ k ∈ call_resets c /\ store_level t (do_call t c s).1 k = 0)).
Proof.
  pose proof (not_elem_of_nil (A := string)) as Hnil.
  intros Hi Ht Hok. destruct c as [bs|bs|ks]; cbn [call_buckets call_resets] in *; unfold call_cost, do_call.
  - destruct (GuardBuckets bs) as [[]|e] eqn:Hg.
    2:{ rewrite (decide_guard t bs s e Hg). simpl. by split; [|left]. }
    pose proof (decide_law t bs s Hi Ht Hg Hok) as Hd.
    destruct (store_decide t bs s) as [s' r]. destruct Hd as (-> & Hl & Hi').
    split; [done|]. cbn [fst snd]. apply GuardBuckets_ok in Hg as [Hnd _].
    rewrite charged_cost_spec by done. rewrite Hl. unfold spec_levels.
    destruct (find_first _ bs) as [b|] eqn:Hf; [|by left].
    apply find_first_Some in Hf as [Hin Hk]. apply bool_decide_eq_true in Hk.
    destruct (spec_admitted bs _ && judge_allowed b _) eqn:Hj; [|by left].
    apply andb_true_iff in Hj as [_ Hj]. right. left. exists b. split_and!; auto.
  - destruct (GuardBuckets bs) as [[]|e] eqn:Hg.
    2:{ rewrite (peek_guard t bs s e Hg). simpl. by split; [|left]. }
    pose proof (peek_law t bs s Hi Ht Hg Hok) as Hd.
    destruct (store_peek t bs s) as [s' r]. destruct Hd as (_ & Hl & Hi').
    split; [done|]. by left.
  - destruct (reset_law t ks s Hi Ht) as [Hl Hi']. split; [done|]. simpl. rewrite Hl.
    destruct (decide (k ∈ ks)) as [Hin|Hout].
    + right; right. by rewrite bool_decide_true.
    + left. by rewrite bool_decide_false.
Qed.

(** The same for a call that does not reset [k] and names it with one window. *)
Lemma do_call_level k w t c s :
  store_inv t s -> time_ok t -> call_ok cap kind k w c ->
  store_inv t (do_call t c s).1 /\
  ((call_cost k t c s = 0 /\ store_level t (do_call t c s).1 k = store_level t s k) \/
   (exists b, b_Key b = k /\ bucket_ok cap kind b /\ b_Window b = w /\
      call_cost k t c s = b_Cost b /\ judge_allowed b (store_level t s k) = true /\
      store_level t (do_call t c s).1 k = charge b (store_level t s k))).
Proof.
  intros Hi Ht Hc.
  assert (Forall (fun b => bucket_ok cap kind b /\ (b_Key b = k -> b_Window b = w)) (call_buckets c)
          /\ k ∉ call_resets c) as [Hbs Hr]
    by (destruct c; simpl in *; split; try done; apply not_elem_of_nil).
  destruct (do_call_cases k t c s Hi Ht) as [Hi' Hcase]; [by eapply Forall_impl; [exact Hbs|by intros ? []]|].
  split; [done|]. destruct Hcase as [(?&?&?)|[(b & Hb & Hk & _ & ?)|(_ & ? & _)]]; [by left| |done].
  right. exists b. eapply Forall_forall in Hbs as [Hok Hw]; [|exact Hb]. destruct_and!. split_and!; auto.
Qed.

Lemma end_time_cons t0 t c cs : end_time t0 ((t, c) :: cs) = end_time t cs.
Proof.
  unfold end_time. rewrite fmap_cons. simpl.
  destruct (last cs.*1) eqn:E; by rewrite last_cons, E.
Qed.

Lemma clock_ok_end t0 cs : clock_ok t0 cs -> t0 <= end_time t0 cs.
Proof.
  induction cs as [|[t c] cs IH] in t0 |- *; intros Hc; [done|].
  rewrite end_time_cons. destruct Hc as (? & ? & Hc). specialize (IH _ Hc). lia.
Qed.

Lemma run_cons k t c cs s :
  (run k ((t, c) :: cs) s).2 = call_cost k t c s + (run k cs (do_call t c s).1).2.
Proof. simpl. by destruct (run k cs _). Qed.

(** The potential argument for GCRA: what is charged from a state on is
    bounded by the room its level leaves plus the time that passes. *)
Lemma gcra_run_bound k w t0 cs s :
  k_alg (kind k) = gcra -> gcra_ok w ->
  store_inv t0 s -> time_ok t0 -> clock_ok t0 cs ->
  Forall (fun tc => call_ok cap kind k w tc.2) cs ->
  let total := (run k cs s).2 in
  0 <= total /\
  (0 < total -> store_level t0 s k + EmissionMicros w * total
                <= TauMicros w + (end_time t0 cs - t0)).
Proof.
  intros Hk Hw. induction cs as [|[t c] cs IH] in t0, s |- *; intros Hi Ht Hck Hcs; [simpl; lia|].
  destruct Hck as (Htt & Hto & Hck). apply Forall_cons in Hcs as [Hc Hcs].
  pose proof (inv_mono t0 t s Hi Htt) as Hit.
  destruct (do_call_level k w t c s Hit Hto Hc) as [Hi' Hcase].
  specialize (IH t _ Hi' Hto Hck Hcs). simpl in IH.
  rewrite run_cons, end_time_cons. cbv zeta.
  pose proof (clock_ok_end t cs Hck).
  pose proof (level_decay t0 t s k Hi Ht Htt Hto) as Hd. unfold decay in Hd. rewrite Hk in Hd.
  pose proof (level_nonneg t s k Hit).
  set (tot := (run k cs (do_call t c s).1).2) in *.
  destruct Hcase as [[-> Hl]|(b & Hbk & Hb & Hbw & -> & Hj & Hl)].
  - rewrite Hl in IH. lia.
  - rewrite Hl in IH. unfold charge, judge_allowed in *.
    assert (b_Algorithm b = GCRAID) as Ha
      by (destruct Hb as (_ & -> & _); by rewrite Hbk, Hk).
    destruct Hb as (_ & _ & Hc1 & _). rewrite Ha in *. simpl in *. rewrite Hbw in *.
    bools. split; [lia|]. intros _.
    destruct (Z.eq_dec tot 0) as [Hz|Hz]; [rewrite Hz; lia|].
    destruct IH as [? IH]. specialize (IH ltac:(lia)). lia.
Qed.

(** The same for a fixed window: while the window lasts, what is charged fits
    what its count leaves of the limit, and the whole limit again after every
    reset. *)
Lemma fixed_run_bound k limit t0 cs s :
  k_alg (kind k) = fixedWindow -> 0 <= limit ->
  store_inv t0 s -> time_ok t0 -> clock_ok t0 cs ->
  Forall (fun tc => call_within cap kind k limit tc.2) cs ->
  Forall (fun tc => window_start (k_period (kind k) / Microsecond) tc.1 =
                    window_start (k_period (kind k) / Microsecond) t0) cs ->
  0 <= (run k cs s).2 <= limit * resets k cs + Z.max 0 (limit - store_level t0 s k).
Proof.
  intros Hk Hlim. induction cs as [|[t c] cs IH] in t0, s |- *; intros Hi Ht Hck Hcs Hws.
  { unfold resets. simpl. lia. }
  destruct Hck as (Htt & Hto & Hck). apply Forall_cons in Hcs as [Hc Hcs].
  apply Forall_cons in Hws as [Hw0 Hws]. simpl in Hw0, Hc.
  pose proof (inv_mono t0 t s Hi Htt) as Hit.
  destruct (do_call_cases k t c s Hit Hto) as [Hi' Hcase];
    [by eapply Forall_impl; [exact Hc|by intros ? []]|].
  assert (store_level t s k = store_level t0 s k) as Hd.
  { rewrite (level_decay t0 t s k Hi Ht Htt Hto). unfold decay. rewrite Hk.
    by rewrite <- Hw0, Z.eqb_refl. }
  specialize (IH t _ Hi' Hto Hck Hcs). rewrite Hw0 in IH. specialize (IH Hws).
  rewrite run_cons. unfold resets in *. rewrite sumZ_cons. cbn [snd].
  set (tot := (run k cs (do_call t c s).1).2) in *.
  pose proof (level_nonneg t s k Hit). rewrite <- Hd.
  destruct Hcase as [(-> & Hr & Hl)|[(b & Hb & Hbk & Hr & -> & Hj & Hl)|(-> & Hr & Hl)]];
    rewrite Hl in IH; [rewrite bool_decide_false by done; lia| |rewrite bool_decide_true by done; lia].
  rewrite bool_decide_false by done.
  eapply Forall_forall in Hc as [Hok Hlw]; [|exact Hb]. specialize (Hlw Hbk).
  unfold charge, judge_allowed in *.
  assert (b_Algorithm b = FixedWindowID) as Ha
    by (destruct Hok as (_ & -> & _); by rewrite Hbk, Hk).
  destruct Hok as (_ & _ & Hc1 & _). rewrite Ha in *. simpl in *. bools. lia.
Qed.

(** After any decision, a bucket's own [Remaining] says exactly which costs it
    takes next. *)
Lemma remaining_generic now bs s s' vs i b v c :
  store_inv now s -> time_ok now -> GuardBuckets bs = Ok tt -> Forall (bucket_ok cap kind) bs ->
  store_decide now bs s = (s', Ok vs) -> bs !! i = Some b -> vs !! i = Some v ->
  1 <= c <= max_i64 ->
  exists v', (store_decide now
      [mkBucket (b_Key b) (b_Algorithm b) (b_Window b) (b_Shadow b) c] s').2 = Ok [v'] /\
    (v_Allowed v' = true <-> c <= v_Remaining v).
Proof.
  intros Hi Ht Hg Hok Hd Hb Hv Hc.
  pose proof (decide_law now bs s Hi Ht Hg Hok) as Hlaw. rewrite Hd in Hlaw.
  destruct Hlaw as ([= ->] & Hl & Hi').
  pose proof (proj1 (GuardBuckets_ok bs) Hg) as [Hnd Hguard].
  assert (b ∈ bs) as Hin by (by eapply list_elem_of_lookup_2).
  assert (bucket_ok cap kind b) as Hbo by (by eapply Forall_forall in Hok).
  destruct (spec_verdict_at now bs _ i b v Hnd Hb Hv) as (_ & Hrem & _).
  set (b' := mkBucket _ _ _ _ c).
  assert (bucket_ok cap kind b') as Hbo' by (destruct Hbo as (Hx & Hy & _ & Hz); exact (conj Hx (conj Hy (conj Hc Hz)))).
  assert (GuardBuckets [b'] = Ok tt) as Hg'.
  { apply GuardBuckets_ok. split; [apply NoDup_singleton|]. apply Forall_singleton.
    eapply Forall_forall in Hguard; [|done]. simpl. lia. }
  pose proof (decide_law now [b'] s' Hi' Ht Hg' (proj2 (Forall_singleton _ _) Hbo')) as Hlaw.
  destruct (store_decide now [b'] s') as [s2 r]. destruct Hlaw as (-> & _ & _).
  eexists. split; [done|]. rewrite (spec_verdict_allowed true now [b'] (store_level now s') b').
  simpl. rewrite Hrem, <- Hl. apply (room_exact cap kind); [done| |lia].
  by apply level_nonneg.
Qed.

(** After a refusal that waiting cures, the same bucket alone is admitted
    exactly from [RetryAfter] on. *)
Lemma retry_generic now bs s s' vs i b v d :
  store_inv now s -> time_ok now -> GuardBuckets bs = Ok tt -> Forall (bucket_ok cap kind) bs ->
  store_decide now bs s = (s', Ok vs) -> bs !! i = Some b -> vs !! i = Some v ->
  v_Allowed v = false -> v_CostExceedsCapacity v = false ->
  0 <= d -> time_ok (now + d) ->
  exists v', (store_decide (now + d) [b] s').2 = Ok [v'] /\
    (v_Allowed v' = true <-> v_RetryAfter v <= d * Microsecond).
Proof.
  intros Hi Ht Hg Hok Hd Hb Hv Hva Hvx Hd0 Htd.
  pose proof (decide_law now bs s Hi Ht Hg Hok) as Hlaw. rewrite Hd in Hlaw.
  destruct Hlaw as ([= ->] & Hl & Hi').
  pose proof (proj1 (GuardBuckets_ok bs) Hg) as [Hnd Hguard].
  assert (b ∈ bs) as Hin by (by eapply list_elem_of_lookup_2).
  assert (bucket_ok cap kind b) as Hbo by (by eapply Forall_forall in Hok).
  destruct (spec_verdict_at now bs _ i b v Hnd Hb Hv) as (Hall & _ & Hcur).
  destruct (Hcur Hva) as [Hsame ->]. simpl in Hva, Hvx.
  assert (GuardBuckets [b] = Ok tt) as Hg'.
  { apply GuardBuckets_ok. split; [apply NoDup_singleton|]. apply Forall_singleton.
    by eapply Forall_forall in Hguard. }
  pose proof (decide_law (now + d) [b] s' (inv_mono now (now + d) s' Hi' ltac:(lia)) Htd Hg'
                (proj2 (Forall_singleton _ _) Hbo)) as Hlaw.
  destruct (store_decide (now + d) [b] s') as [s2 r]. destruct Hlaw as (-> & _ & _).
  eexists. split; [done|]. rewrite (spec_verdict_allowed true (now + d) [b] _ b).
  rewrite (level_decay now (now + d) s') by (done || lia). rewrite Hl, Hsame.
  simpl. rewrite Hva, Hvx. simpl. unfold Microsecond.
  rewrite (wait_exact cap kind now b); [lia|done|by apply level_nonneg|done|done|done].
Qed.

(** Peeking answers what deciding would, and changes nothing; a refusal
    changes nothing either. *)
Lemma peek_decide_generic now bs s :
  store_inv now s -> time_ok now -> GuardBuckets bs = Ok tt -> Forall (bucket_ok cap kind) bs ->
  exists vs vs', (store_decide now bs s).2 = Ok vs /\ (store_peek now bs s).2 = Ok vs' /\
    map v_Allowed vs = map v_Allowed vs' /\
    StoreAdmitted bs vs = StoreAdmitted bs vs' /\
    (StoreAdmitted bs vs = Some false -> vs = vs') /\
    (forall k, store_level now (store_peek now bs s).1 k = store_level now s k) /\
    (StoreAdmitted bs vs = Some false ->
       forall k, store_level now (store_decide now bs s).1 k = store_level now s k).
Proof.
  intros Hi Ht Hg Hok.
  pose proof (decide_law now bs s Hi Ht Hg Hok) as Hd.
  pose proof (peek_law now bs s Hi Ht Hg Hok) as Hp.
  destruct (store_decide now bs s) as [s1 r1], (store_peek now bs s) as [s2 r2].
  destruct Hd as (-> & Hl1 & _), Hp as (-> & Hl2 & _). simpl.
  do 2 eexists. split_and!; [done|done| | | |done|]; rewrite ?spec_verdicts_admitted.
  - unfold spec_verdicts. rewrite !map_map. apply map_ext. intros b.
    rewrite (spec_verdict_allowed true now bs), (spec_verdict_allowed false now bs). done.
  - done.
  - intros [= Ha]. unfold spec_verdicts. rewrite Ha. done.
  - intros [= Ha] k. rewrite Hl1. unfold spec_levels. rewrite Ha. by case_match.
Qed.

End traces.

(** ** The in-memory store *)

(** C3: over any sequence of calls on the in-memory store, with a clock that
    does not go back and no reset of the key, the cost a GCRA bucket admits
    between two instants never exceeds its burst plus one unit per emission
    interval of the time between them. *)
Theorem memory_gcra_rate_bound (kind : string -> Kind) (k : string) (w : Window) (t0 : Z)
    (cs : list (Z * call)) (m : gmap string entry) :
  k_alg (kind k) = gcra -> gcra_ok w -> mem_inv kind t0 m -> time_ok t0 -> clock_ok t0 cs ->
  Forall (fun tc => call_ok max_i64 kind k w tc.2) cs ->
  let charged := (run (kind := kind) k cs m).2 in
  0 <= charged <= Burst w + (end_time t0 cs - t0) / EmissionMicros w.
Proof.
  intros Hk Hw Hi Ht Hck Hcs charged.
  destruct (gcra_run_bound (CS := memory_store kind) k w t0 cs m Hk Hw Hi Ht Hck Hcs) as [Hn Hb].
  pose proof (gcra_ok_facts w Hw) as (_ & _ & Hem & _ & Htau & Hbu & _).
  pose proof (clock_ok_end t0 cs Hck).
  fold charged in Hn, Hb. split; [done|].
  assert (0 <= (end_time t0 cs - t0) / EmissionMicros w) by (apply Z.div_pos; lia).
  destruct (Z.eq_dec charged 0) as [|]; [lia|].
  specialize (Hb ltac:(lia)). pose proof (mem_level_nonneg kind t0 m k Hi).
  change (store_level t0 m k) with (mem_level kind t0 m k) in Hb.
  assert (charged - Burst w <= (end_time t0 cs - t0) / EmissionMicros w); [|lia].
  apply div_le_iff; [lia|]. nia.
Qed.

(** C4: within one epoch-aligned window of a fixed-window key, over any
    sequence of decisions, peeks and resets of the in-memory store with a clock
    that does not go back, in which every bucket of the key carries at most
    [limit] requests (the calls need not agree on it, as when a policy changes
    the limit), what the key admits in total never exceeds [limit] once plus
    once for every reset of that key. *)
Theorem memory_fixed_window_bound (kind : string -> Kind) (k : string) (limit t0 : Z)
    (cs : list (Z * call)) (m : gmap string entry) :
  k_alg (kind k) = fixedWindow -> 0 <= limit ->
  mem_inv kind t0 m -> time_ok t0 -> clock_ok t0 cs ->
  Forall (fun tc => call_within max_i64 kind k limit tc.2) cs ->
  Forall (fun tc => window_start (k_period (kind k) / Microsecond) tc.1 =
                    window_start (k_period (kind k) / Microsecond) t0) cs ->
  0 <= (run (kind := kind) k cs m).2 <= limit * (1 + resets k cs).
Proof.
  intros Hk Hlim Hi Ht Hck Hcs Hws.
  pose proof (fixed_run_bound (CS := memory_store kind) k limit t0 cs m Hk Hlim Hi Ht Hck Hcs Hws) as Hb.
  pose proof (mem_level_nonneg kind t0 m k Hi).
  change (store_level t0 m k) with (mem_level kind t0 m k) in Hb. lia.
Qed.

(** When the in-memory store refuses a bucket for a reason waiting cures,
    its [RetryAfter] is exact: left alone, the bucket admits the same cost at
    every later instant from then on and at none before. *)
Theorem memory_retry_after_exact (kind : string -> Kind) (now : Z) (bs : list Bucket)
    (m m' : gmap string entry) (vs : list Verdict) (i : nat) (b : Bucket) (v : Verdict) (d : Z) :
  mem_inv kind now m -> time_ok now -> GuardBuckets bs = Ok tt -> Forall (bucket_ok max_i64 kind) bs ->
  Decide now bs m = (m', Ok vs) -> bs !! i = Some b -> vs !! i = Some v ->
  v_Allowed v = false -> v_CostExceedsCapacity v = false -> 0 <= d -> time_ok (now + d) ->
  exists v', (Decide (now + d) [b] m').2 = Ok [v'] /\
    (v_Allowed v' = true <-> v_RetryAfter v <= d * Microsecond).
Proof. apply (retry_generic (CS := memory_store kind)). Qed.

(** The [Remaining] of every verdict of the in-memory store is exact:
    right after the decision the bucket admits a cost exactly when the cost is
    at most [Remaining]. *)
Theorem memory_remaining_exact (kind : string -> Kind) (now : Z) (bs : list Bucket)
    (m m' : gmap string entry) (vs : list Verdict) (i : nat) (b : Bucket) (v : Verdict) (c : Z) :
  mem_inv kind now m -> time_ok now -> GuardBuckets bs = Ok tt -> Forall (bucket_ok max_i64 kind) bs ->
  Decide now bs m = (m', Ok vs) -> bs !! i = Some b -> vs !! i = Some v -> 1 <= c <= max_i64 ->
  exists v', (Decide now [mkBucket (b_Key b) (b_Algorithm b) (b_Window b) (b_Shadow b) c] m').2
      = Ok [v'] /\
    (v_Allowed v' = true <-> c <= v_Remaining v).
Proof. apply (remaining_generic (CS := memory_store kind)). Qed.

(** [Peek] of the in-memory store gives the verdict flags [Decide] would
    give and the same admission, charges nothing, and on a refusal [Decide]
    returns [Peek]'s verdicts and leaves every counter as it was. *)
Theorem memory_peek_decide_agree (kind : string -> Kind) (now : Z) (bs : list Bucket)
    (m : gmap string entry) :
  mem_inv kind now m -> time_ok now -> GuardBuckets bs = Ok tt -> Forall (bucket_ok max_i64 kind) bs ->
  exists vs vs', (Decide now bs m).2 = Ok vs /\ (Peek now bs m).2 = Ok vs' /\
    map v_Allowed vs = map v_Allowed vs' /\
    StoreAdmitted bs vs = StoreAdmitted bs vs' /\
    (StoreAdmitted bs vs = Some false -> vs = vs') /\
    (forall k, mem_level kind now (Peek now bs m).1 k = mem_level kind now m k) /\
    (StoreAdmitted bs vs = Some false ->
       forall k, mem_level kind now (Decide now bs m).1 k = mem_level kind now m k).
Proof. apply (peek_decide_generic (CS := memory_store kind)). Qed.

(** C5: [Decide] of the in-memory store, 64-bit wrap-around included,
    implements the abstract decision: its verdicts are the specified ones, an
    admitted decision charges every bucket whose own verdict allows and no
    other, a refused one charges nothing, and the invariant is kept. *)
Theorem memory_decide_refines (kind : string -> Kind) (now : Z) (bs : list Bucket)
    (m : gmap string entry) :
  mem_inv kind now m -> time_ok now -> GuardBuckets bs = Ok tt -> Forall (bucket_ok max_i64 kind) bs ->
  exists m', Decide now bs m = (m', Ok (spec_verdicts true now bs (mem_level kind now m))) /\
    (forall k, mem_level kind now m' k = spec_levels bs (mem_level kind now m) k) /\
    mem_inv kind now m'.
Proof.
  intros Hi Ht Hg Hok. pose proof (decide_contract kind now bs m Hi Ht Hg Hok) as Hd.
  destruct (Decide now bs m) as [m' r]. destruct Hd as (-> & Hl & Hi'). by exists m'.
Qed.

(** ** Witnesses *)

Definition demo_gcra_window : Window := mkWindow 2 Second 2.
Definition demo_fixed_window : Window := mkWindow 3 Second 0.
Definition demo_gcra_kind (_ : string) : Kind := mkKind gcra Second.
Definition demo_fixed_kind (_ : string) : Kind := mkKind fixedWindow Second.
Definition demo_gcra_bucket (c : Z) : Bucket := mkBucket "k" GCRAID demo_gcra_window false c.
Definition demo_fixed_bucket (c : Z) : Bucket := mkBucket "k" FixedWindowID demo_fixed_window false c.

Definition demo_gcra_calls : list (Z * call) :=
  [(0, CallDecide [demo_gcra_bucket 1]); (0, CallDecide [demo_gcra_bucket 1]);
   (10, CallDecide [demo_gcra_bucket 1]); (20, CallReset ["other"]);
   (500000, CallDecide [demo_gcra_bucket 1])].

Definition demo_fixed_calls : list (Z * call) :=
  [(5, CallDecide [demo_fixed_bucket 2]); (6, CallPeek [demo_fixed_bucket 1]);
   (7, CallDecide [demo_fixed_bucket 2]); (8, CallDecide [demo_fixed_bucket 1]);
   (9, CallReset ["k"; "other"]); (10, CallDecide [demo_fixed_bucket 3]);
   (11, CallDecide [demo_fixed_bucket 1])].

Lemma memory_gcra_rate_bound_witness :
  (run (kind := demo_gcra_kind) "k" demo_gcra_calls New).2 = 3 /\
  0 <= (run (kind := demo_gcra_kind) "k" demo_gcra_calls New).2
    <= Burst demo_gcra_window
       + (end_time 0 demo_gcra_calls - 0) / EmissionMicros demo_gcra_window.
Proof.
  split; [vm_compute; reflexivity|].
  apply (memory_gcra_rate_bound demo_gcra_kind "k" demo_gcra_window 0 demo_gcra_calls New);
    [reflexivity|by_decide|apply mem_inv_New|by_decide| |].
  - simpl. unfold time_ok, maxNow. lia.
  - by_decide.
Defined.

Lemma memory_fixed_window_bound_witness :
  (run (kind := demo_fixed_kind) "k" demo_fixed_calls New).2 = 6 /\
  0 <= (run (kind := demo_fixed_kind) "k" demo_fixed_calls New).2
    <= 3 * (1 + resets "k" demo_fixed_calls).
Proof.
  split; [vm_compute; reflexivity|].
  apply (memory_fixed_window_bound demo_fixed_kind "k" 3 5 demo_fixed_calls New);
    [reflexivity|lia|apply mem_inv_New|by_decide| | |].
  - simpl. unfold time_ok, maxNow. lia.
  - by_decide.
  - by_decide.
Defined.

(** A full bucket at time 0: the third unit is refused with a wait of half a
    second. *)
Definition demo_full : gmap string entry := (Decide 0 [demo_gcra_bucket 2] New).1.

Lemma demo_full_inv : mem_inv demo_gcra_kind 0 demo_full.
Proof.
  pose proof (decide_contract demo_gcra_kind 0 [demo_gcra_bucket 2] New (mem_inv_New _ _)
    ltac:(by_decide) eq_refl ltac:(by_decide)) as H.
  unfold demo_full. destruct (Decide 0 _ New). by destruct H as (_ & _ & ?).
Qed.

Lemma memory_retry_after_exact_witness :
  exists v', (Decide 500000 [demo_gcra_bucket 1] (Decide 0 [demo_gcra_bucket 1] demo_full).1).2
      = Ok [v'] /\ (v_Allowed v' = true <-> 500000000 <= 500000 * Microsecond).
Proof.
  apply (memory_retry_after_exact demo_gcra_kind 0 [demo_gcra_bucket 1] demo_full
    (Decide 0 [demo_gcra_bucket 1] demo_full).1 [mkVerdict false 0 false 500000000 1000000000]
    0 (demo_gcra_bucket 1) (mkVerdict false 0 false 500000000 1000000000) 500000);
    [apply demo_full_inv|by_decide|reflexivity|by_decide
    |vm_compute; reflexivity|reflexivity|reflexivity|reflexivity|reflexivity|lia|by_decide].
Defined.

Lemma memory_remaining_exact_witness :
  exists v', (Decide 0 [demo_gcra_bucket 1] (Decide 0 [demo_gcra_bucket 1] New).1).2 = Ok [v'] /\
    (v_Allowed v' = true <-> 1 <= 1).
Proof.
  apply (memory_remaining_exact demo_gcra_kind 0 [demo_gcra_bucket 1] New
    (Decide 0 [demo_gcra_bucket 1] New).1 [mkVerdict true 1 false (-1) 500000000]
    0 (demo_gcra_bucket 1) (mkVerdict true 1 false (-1) 500000000) 1);
    [apply mem_inv_New|by_decide|reflexivity|by_decide
    |vm_compute; reflexivity|reflexivity|reflexivity|unfold max_i64; lia].
Defined.

Lemma memory_peek_decide_agree_witness :
  exists vs vs', (Decide 0 [demo_gcra_bucket 1] demo_full).2 = Ok vs /\
    (Peek 0 [demo_gcra_bucket 1] demo_full).2 = Ok vs' /\ vs = vs'.
Proof.
  destruct (memory_peek_decide_agree demo_gcra_kind 0 [demo_gcra_bucket 1] demo_full)
    as (vs & vs' & H1 & H2 & _ & _ & H3 & _);
    [apply demo_full_inv|by_decide|reflexivity|by_decide|].
  exists vs, vs'. split_and!; [exact H1|exact H2|apply H3].
  vm_compute in H1. injection H1 as <-. reflexivity.
Defined.

Lemma memory_decide_refines_witness :
  exists m', Decide 0 [demo_gcra_bucket 1] New =
    (m', Ok (spec_verdicts true 0 [demo_gcra_bucket 1] (mem_level demo_gcra_kind 0 New))).
Proof.
  destruct (memory_decide_refines demo_gcra_kind 0 [demo_gcra_bucket 1] New) as (m' & H & _);
    [apply mem_inv_New|by_decide|reflexivity|by_decide|].
  exists m'. exact H.
Defined.
