(* ===== verification/MemoryScan.v ===== *)
(** * Walks of the in-memory store

    The promise of the inspection interface for [Memory.Scan]: a walk along
    the chain of cursors, with any other calls between its steps, returns in
    ascending order every key that lives through it and nothing that is not a
    live key under the prefix, and ends. *)
From S2P Require Import Prelude GoStrings Algo StoreApi Memory.

(** ** Definitions *)

(** A live key under the prefix, as one step sees the store. *)
Definition live (prefix : string) (now : Z) (m : gmap string entry) (k : string) : Prop :=
  HasPrefix k prefix = true /\ exists e, m !! k = Some e /\ now < e_deadline e.

(** A walk whose [i]-th step finds the clock and the entries [world i]: the
    keys it returned and the number of its last step. *)
Fixpoint mem_walk (fuel : nat) (prefix : string) (limit : Z) (world : nat -> Z * gmap string entry)
    (i : nat) (cursor : string) : option (list string * nat) :=
  match fuel with
  | O => None
  | S fuel =>
      match (Scan (world i).1 prefix cursor limit (world i).2).2 with
      | Err _ => None
      | Ok (keys, next) =>
          if bool_decide (next = "") then Some (keys, i)
          else '(rest, n) ← mem_walk fuel prefix limit world (S i) next; Some (keys ++ rest, n)
      end
  end.

Definition str_lt (a b : string) : Prop := str_ltb a b = true.

(** ** Strictly ascending lists *)

Lemma ltb_of_le a b : String.le a b -> a <> b -> str_lt a b.
Proof.
  intros Hle Hne. destruct (str_ltb_total a b Hne) as [|H]; [done|].
  rewrite str_ltb_leb in H. unfold String.le in Hle. destruct (String.leb a b); done.
Qed.

Lemma sort_ascending l : NoDup l -> StronglySorted str_lt (sort_strings l).
Proof.
  intros Hn. rewrite <- (sort_strings_Permutation l) in Hn.
  pose proof (sort_strings_Sorted l) as Hs. apply Sorted_StronglySorted in Hs; [|apply _].
  induction Hs as [|a l' Hs IH Ha]; [constructor|]. apply NoDup_cons in Hn as [Hni Hn].
  constructor; [by apply IH|]. rewrite Forall_forall in *. intros b Hb.
  apply ltb_of_le; [by apply Ha|]. by intros ->.
Qed.

Lemma ascending_app l1 l2 :
  StronglySorted str_lt l1 -> StronglySorted str_lt l2 ->
  (forall a b, a ∈ l1 -> b ∈ l2 -> str_lt a b) -> StronglySorted str_lt (l1 ++ l2).
Proof.
  intros H1 H2 H. induction H1 as [|a l1 Hl IH Ha]; [done|]. simpl. constructor.
  - apply IH. intros; apply H; [by right|done].
  - apply Forall_app. split; [done|]. apply Forall_forall. intros b Hb. apply H; [left|done].
Qed.

Lemma ascending_split l1 l2 :
  StronglySorted str_lt (l1 ++ l2) ->
  StronglySorted str_lt l1 /\ forall a b, a ∈ l1 -> b ∈ l2 -> str_lt a b.
Proof.
  induction l1 as [|x l1 IH]; simpl; intros H; [split; [constructor|]; intros a b Ha; by apply elem_of_nil in Ha|].
  inversion H as [|? ? Hs Hf]; subst. destruct (IH Hs) as [Hl Hc]. apply Forall_app in Hf as [Hf1 Hf2].
  split; [by constructor|]. intros a b Ha Hb. apply elem_of_cons in Ha as [->|Ha]; [|by apply Hc].
  rewrite Forall_forall in Hf2. by apply Hf2.
Qed.


(** ** One step *)

Lemma scan_step prefix cursor limit now m :
  1 <= limit ->
  exists keys next, (Scan now prefix cursor limit m).2 = Ok (keys, next) /\
    StronglySorted str_lt keys /\
    (forall k, k ∈ keys -> live prefix now m k /\ str_lt cursor k) /\
    (next <> "" -> next ∈ keys /\ forall k, k ∈ keys -> k = next \/ str_lt k next) /\
    (forall k, live prefix now m k -> str_lt cursor k -> k ∈ keys \/ (next <> "" /\ str_lt next k)).
Proof.
  intros Hl. unfold Scan. rewrite (proj2 (Z.ltb_ge limit 1)) by lia.
  set (swept := filter _ m). set (A := sort_strings _).
  assert (StronglySorted str_lt A) as HA.
  { apply sort_ascending, NoDup_filter, NoDup_fst_map_to_list. }
  assert (forall k, k ∈ A <-> live prefix now m k /\ str_lt cursor k) as Hin.
  { intros k. unfold A. rewrite sort_strings_Permutation, list_elem_of_filter, andb_true_iff.
    assert (k ∈ (map_to_list swept).*1 <-> exists e, m !! k = Some e /\ now < e_deadline e) as ->.
    { rewrite list_elem_of_fmap. split.
      - intros ([k' e] & -> & He). apply elem_of_map_to_list in He. apply map_lookup_filter_Some in He.
        exists e. done.
      - intros (e & He & Hd). exists (k, e). split; [done|]. apply elem_of_map_to_list.
        by apply map_lookup_filter_Some. }
    unfold live, str_lt. tauto. }
  destruct (Z.leb_spec (Z.of_nat (length A)) limit) as [Hle|Hgt].
  - exists A, "". split_and!; try done; [by intros k ?%Hin| by intros k ? ?; left; apply Hin].
  - set (n := Z.to_nat limit) in *. exists (take n A), (default "" (last (take n A))).
    destruct (ascending_split (take n A) (drop n A)) as [Ht Hd]; [by rewrite take_drop|].
    assert (exists ks z, take n A = ks ++ [z]) as (ks & z & Hz).
    { destruct (take n A) as [|x l] eqn:E using rev_ind; [|by exists l, x].
      apply (f_equal length) in E. rewrite length_take in E. simpl in E. lia. }
    assert (forall k, k ∈ take n A -> k ∈ A) as Hsub by (intros k Hk; rewrite <- (take_drop n A); apply elem_of_app; by left).
    rewrite Hz, last_snoc. simpl. rewrite <- Hz. split_and!; try done.
    + intros k Hk. by apply Hin, Hsub.
    + intros _. rewrite Hz. split; [apply elem_of_app; right; by left|]. intros k Hk.
      rewrite Hz in Ht. destruct (ascending_split ks [z] Ht) as [_ Hs].
      apply elem_of_app in Hk as [Hk|Hk]; [right; apply Hs; [done|by left]|].
      apply list_elem_of_singleton in Hk. by left.
    + intros k Hk Hc. assert (k ∈ A) as Hk' by (by apply Hin). rewrite <- (take_drop n A) in Hk'.
      apply elem_of_app in Hk' as [Hk'|Hk']; [by left|right].
      assert (z ∈ take n A) as Hzi by (rewrite Hz; apply elem_of_app; right; by left). split.
      * intros ->. destruct (proj1 (Hin "") (Hsub _ Hzi)) as [_ Hb]. unfold str_lt in Hb. by destruct cursor.
      * by apply Hd.
Qed.

(** ** The walk *)

Lemma filter_shrinks (P Q : string -> bool) l x :
  (forall y, P y = true -> Q y = true) -> x ∈ l -> Q x = true -> P x = false ->
  (length (filter (fun y => P y = true) l) < length (filter (fun y => Q y = true) l))%nat.
Proof.
  intros HPQ Hx HQ HP.
  assert (forall l, length (filter (fun y => P y = true) l) <= length (filter (fun y => Q y = true) l))%nat as Hle.
  { clear l Hx. induction l as [|y l IH]; [done|]. rewrite !filter_cons.
    repeat case_decide; simpl; try lia. by destruct (HPQ y). }
  induction l as [|y l IH]; [by apply elem_of_nil in Hx|]. rewrite !filter_cons.
  apply elem_of_cons in Hx as [<-|Hx].
  - rewrite decide_False, decide_True by congruence. simpl. specialize (Hle l). lia.
  - specialize (IH Hx). repeat case_decide; simpl; try lia. by destruct (HPQ y).
Qed.

Lemma mem_walk_ok prefix limit world U fuel :
  1 <= limit -> (forall i k e, (world i).2 !! k = Some e -> k ∈ U) ->
  forall i cursor, (length (filter (fun k => str_ltb cursor k = true) U) < fuel)%nat ->
  exists keys n, mem_walk fuel prefix limit world i cursor = Some (keys, n) /\ (i <= n)%nat /\
    StronglySorted str_lt keys /\
    (forall k, k ∈ keys -> str_lt cursor k /\
       exists j, (i <= j <= n)%nat /\ live prefix (world j).1 (world j).2 k) /\
    (forall k, (forall j, (i <= j <= n)%nat -> live prefix (world j).1 (world j).2 k) -> str_lt cursor k -> k ∈ keys).
Proof.
  intros Hl HU. induction fuel as [|fuel IH]; intros i cursor Hf; [lia|]. cbn [mem_walk].
  destruct (scan_step prefix cursor limit (world i).1 (world i).2 Hl) as (keys & next & -> & Hs & Hk & Hn & Hall).
  case_bool_decide as Hne.
  - subst next. exists keys, i. split_and!; try done.
    + intros k Hin. destruct (Hk k Hin) as [Hlive Hc]. split; [done|]. exists i. by split; [lia|].
    + intros k Hlive Hc. destruct (Hall k) as [|[? _]]; [apply Hlive; lia|done|done|done].
  - destruct (Hn Hne) as [Hnin Hnmax]. destruct (Hk next Hnin) as [(_ & e & He & _) Hcn].
    destruct (IH (S i) next) as (rest & n & -> & Hin & Hrs & Hrk & Hrall).
    { apply Nat.lt_le_trans with (length (filter (fun k => str_ltb cursor k = true) U)); [|lia].
      apply filter_shrinks with next; [|by eapply HU|done|apply str_ltb_irrefl].
      intros y Hy. by eapply str_ltb_trans. }
    exists (keys ++ rest), n. simpl. split_and!; try done; [lia| | |].
    + apply ascending_app; try done. intros a b Ha Hb. destruct (Hrk b Hb) as [Hnb _].
      destruct (Hnmax a Ha) as [->|]; [done|by eapply str_ltb_trans].
    + intros k [Hi|Hi]%elem_of_app.
      * destruct (Hk k Hi). split; [done|]. exists i. by split; [lia|].
      * destruct (Hrk k Hi) as (Hc & j & ? & ?). split; [by eapply str_ltb_trans|]. exists j. by split; [lia|].
    + intros k Hlive Hc. apply elem_of_app. destruct (Hall k) as [|[_ Hnk]]; [apply Hlive; lia|done|by left|].
      right. apply Hrall; [|done]. intros j Hj. apply Hlive. lia.
Qed.

(** A walk of the in-memory store along its cursors ends once no new keys
    appear, whatever other calls run between its steps; it returns keys in
    strictly ascending order, so none twice, only keys that were live under
    the prefix at a step of it, and every one that was live at all of them. *)
Theorem memory_scan_walk (prefix : string) (limit : Z) (world : nat -> Z * gmap string entry) (U : list string) :
  1 <= limit -> (forall i k e, (world i).2 !! k = Some e -> k ∈ U) ->
  exists keys n, mem_walk (S (length U)) prefix limit world 0 "" = Some (keys, n) /\
    StronglySorted str_lt keys /\
    (forall k, k ∈ keys -> exists j, (j <= n)%nat /\ live prefix (world j).1 (world j).2 k) /\
    (forall k, k <> "" -> (forall j, (j <= n)%nat -> live prefix (world j).1 (world j).2 k) -> k ∈ keys).
Proof.
  intros Hl HU. destruct (mem_walk_ok prefix limit world U (S (length U)) Hl HU 0 "") as (keys & n & Hw & _ & Hs & Hk & Hall).
  { pose proof (length_filter (fun k => str_ltb "" k = true) U). lia. }
  exists keys, n. split_and!; try done.
  - intros k Hi. destruct (Hk k Hi) as (_ & j & ? & ?). exists j. by split; [lia|].
  - intros k Hne Hlive. apply Hall; [intros j Hj; apply Hlive; lia|]. by destruct k.
Qed.

(** ** Witness *)

(** The walk in pages of one; between the first and the second step another
    call removes the key that was just returned. *)
Definition demo_entry : entry := mkEntry GCRAID 5 0 0 5.
Definition demo_world (i : nat) : Z * gmap string entry :=
  match i with
  | O => (0, {["a" := demo_entry; "b" := demo_entry]})
  | _ => (1, {["b" := demo_entry]})
  end.

Lemma memory_scan_walk_witness :
  mem_walk 3 "" 1 demo_world 0 "" = Some (["a"; "b"], 1%nat) /\ "b" ∈ ["a"; "b"].
Proof.
  split; [vm_compute; reflexivity|].
  destruct (memory_scan_walk "" 1 demo_world ["a"; "b"]) as (keys & n & Hw & _ & _ & Hall); [lia| |].
  - intros [|i] k e; simpl; intros H;
      repeat (apply lookup_insert_Some in H as [[<- _]|[_ H]]; [set_solver|]);
      apply lookup_singleton_Some in H as [<- _]; set_solver.
  - vm_compute in Hw. injection Hw as <- <-. apply Hall; [done|].
    intros [|j] _; (split; [reflexivity|]); exists demo_entry; (split; [reflexivity|unfold demo_entry; simpl; lia]).
Defined.
