(* ===== verification/Model.v ===== *)
(** * engine/model: a policy as authored

    The spec of one domain, as the conversion layer hands it to the compiler.
    Go's string enumerations stay strings: an authored value may be empty or
    unknown, and refusing it is the compiler's work. Durations are
    nanoseconds. *)
From S2P Require Import Prelude GoStrings.

Definition KeyPath : string := "path".
Definition KeyMethod : string := "method".
Definition KeySub : string := "sub".
Definition KeyToken : string := "token".

Definition MaxDomainDecisionBuckets : Z := 128.

Definition PathExact : string := "Exact".
Definition PathPrefix : string := "Prefix".
Definition PathTemplate : string := "Template".

Definition ModeAll : string := "All".
Definition ModeFirstMatch : string := "FirstMatch".

Definition OperatorEquals : string := "Equals".
Definition OperatorIn : string := "In".
Definition OperatorInGroup : string := "InGroup".
Definition OperatorContains : string := "Contains".
Definition OperatorExists : string := "Exists".
Definition OperatorDoesNotExist : string := "DoesNotExist".

Definition BehaviorEnforce : string := "Enforce".
Definition BehaviorShadow : string := "Shadow".
Definition BehaviorBypass : string := "Bypass".

Definition ValueString : string := "String".
Definition ValueStringArray : string := "StringArray".

Definition NormalizeNone : string := "None".
Definition NormalizeLowercase : string := "Lowercase".

Definition CostQueryParameter : string := "QueryParameter".
Definition MaxCost : Z := 1000000000.

Record RouteCost := mkRouteCost { rc_Source : string; rc_Name : string; rc_Default : Z }.

Record PathMatch := mkPathMatch { pm_Type : string; pm_Value : string }.

Record MRoute := mkMRoute {
  mr_Path : PathMatch;
  mr_Methods : list string;
  mr_Cost : option RouteCost }.

Record MPredicate := mkMPredicate {
  mp_Key : string;
  mp_Operator : string;
  mp_Value : string;
  mp_Values : list string }.

Record MRate := mkMRate {
  mra_Requests : Z;
  mra_Period : Z;
  mra_Burst : Z;
  mra_Algorithm : string }.

Record MRule := mkMRule {
  mru_Name : string;
  mru_Matches : list MPredicate;
  mru_Counters : list string;
  mru_Rates : list MRate;
  mru_Behavior : string;
  mru_ReplacedRules : list string }.

Record MBlock := mkMBlock {
  mb_Name : string;
  mb_Routes : list MRoute;
  mb_Mode : string;
  mb_Rules : list MRule }.

Record Group := mkGroup { g_Name : string; g_Values : list string }.

Record KeyMapping := mkKeyMapping {
  km_Key : string;
  km_Claim : string;
  km_ClaimPath : list string;
  km_Type : string;
  km_Normalization : string;
  km_Fallbacks : list string }.

Record Policy := mkPolicy {
  p_Domain : string;
  p_Mappings : list KeyMapping;
  p_Groups : list Group;
  p_Blocks : list MBlock }.
