(* ===== verification/Compile.v ===== *)
(** * engine/compile: a policy becomes a snapshot

    The compiler, function by function: environment, routes and templates,
    rules, predicates, rates, the decision budget, and [Compile] itself. The
    mutable problem list of the source's [blockCompiler] is the log of a small
    monad [W]; the panic of the key builder is its failure. A problem message
    is kept as the format and arguments of its [Sprintf] call. *)
From S2P Require Import Prelude GoStrings Algo Key Model.

(** ** Problems *)

Definition ReasonUnresolvedKeyReference : string := "UnresolvedKeyReference".
Definition ReasonUnresolvedGroupReference : string := "UnresolvedGroupReference".
Definition ReasonUnresolvedReplacedRules : string := "UnresolvedReplacedRules".
Definition ReasonIncompatibleOperator : string := "IncompatibleOperator".
Definition ReasonInvalidCounterAxis : string := "InvalidCounterAxis".
Definition ReasonInvalidSpec : string := "InvalidSpec".
Definition ReasonInvalidWindow : string := "InvalidWindow".
Definition ReasonDomainBudgetExceeded : string := "DomainBudgetExceeded".
Definition ReasonCaptureShadowsMappedKey : string := "CaptureShadowsMappedKey".
Definition ReasonCostExceedsCapacity : string := "CostExceedsCapacity".

Definition informational (reason : string) : bool :=
  bool_decide (reason = ReasonCaptureShadowsMappedKey)
  || bool_decide (reason = ReasonCostExceedsCapacity).

Inductive Arg := AStr (s : string) | AInt (z : Z) | AList (l : list string) | AErr (e : CheckError).

(** [fmt.Sprintf(format, args...)], unrendered. *)
Record Message := mkMsg { msg_format : string; msg_args : list Arg }.

Record Problem := mkProblem {
  pb_Block : string;
  pb_Rule : string;
  pb_Reason : string;
  pb_Message : Message;
  pb_Blocking : bool }.

Definition blocking (problems : list Problem) : bool := existsb pb_Blocking problems.

(** ** The compiler's monad: a value with the problems reported on the way,
    or a panic. *)
Inductive W (A : Type) : Type :=
| Panic
| Log (a : A) (ps : list Problem).
Arguments Panic {A}.
Arguments Log {A} a ps.

#[export] Instance W_ret : MRet W := fun A a => Log a [].
#[export] Instance W_bind : MBind W := fun A B f c =>
  match c with
  | Panic => Panic
  | Log a ps =>
      match f a with
      | Panic => Panic
      | Log b qs => Log b (ps ++ qs)
      end
  end.

Definition fail_ (block rule reason format : string) (args : list Arg) : W unit :=
  Log tt [mkProblem block rule reason (mkMsg format args) (negb (informational reason))].

(** [if cond { c.fail(...) }] *)
Definition fail_if (b : bool) (f : W unit) : W unit := if b then f else mret tt.

(** ** Compiled data *)

Record Cost := mkCost { co_Parameter : string; co_Default : Z }.

Record Segment := mkSegment { sg_Literal : string; sg_Capture : string }.

Record Route := mkRoute {
  rt_Type : string;
  rt_Value : string;
  rt_Segments : list Segment;
  rt_Methods : gset string;
  rt_Cost : option Cost }.

Record Predicate := mkPredicate {
  pr_Key : string;
  pr_Operator : string;
  pr_Value : string;
  pr_Values : gset string }.

Record Rate := mkRate { ra_Algorithm : Algorithm; ra_Window : Window; ra_Prefix : string }.

Record Rule := mkRule {
  ru_Name : string;
  ru_Behavior : string;
  ru_Matches : list Predicate;
  ru_Counters : list string;
  ru_Rates : list Rate;
  ru_ReplacedRules : list string }.

Record Block := mkBlock {
  bl_Name : string;
  bl_Mode : string;
  bl_Routes : list Route;
  bl_Captures : list string;
  bl_Rules : list Rule }.

Record KeyExtraction := mkKeyExtraction {
  ke_Key : string;
  ke_Path : list string;
  ke_Type : string;
  ke_Normalization : string;
  ke_Fallbacks : list (list string) }.

Record Snapshot := mkSnapshot {
  s_Domain : string;
  s_EffectiveKeys : list string;
  s_Blocks : list Block;
  s_Extraction : list KeyExtraction;
  s_DecisionBuckets : nat }.

(** ** Patterns *)

Definition char_between (lo hi c : ascii) : bool :=
  (nat_of_ascii lo <=? nat_of_ascii c)%nat && (nat_of_ascii c <=? nat_of_ascii hi)%nat.

Definition is_lower (c : ascii) : bool := char_between "a"%char "z"%char c.
Definition is_upper (c : ascii) : bool := char_between "A"%char "Z"%char c.
Definition is_digit (c : ascii) : bool := char_between "0"%char "9"%char c.

Fixpoint all_chars (f : ascii -> bool) (s : string) : bool :=
  match s with
  | EmptyString => true
  | String c s => f c && all_chars f s
  end.

Fixpoint last_char (s : string) : option ascii :=
  match s with
  | EmptyString => None
  | String c EmptyString => Some c
  | String _ s => last_char s
  end.

(** [^[a-z0-9]([a-z0-9.-]*[a-z0-9])?$] *)
Definition domainName (s : string) : bool :=
  let alnum c := is_lower c || is_digit c in
  match s with
  | EmptyString => false
  | String c _ =>
      alnum c
      && all_chars (fun c => alnum c || bool_decide (c = ".")%char || bool_decide (c = "-")%char) s
      && match last_char s with Some l => alnum l | None => false end
  end.

(** [^[a-z][a-zA-Z0-9_]*$] *)
Definition keyName (s : string) : bool :=
  match s with
  | EmptyString => false
  | String c r =>
      is_lower c
      && all_chars (fun c => is_lower c || is_upper c || is_digit c || bool_decide (c = "_")%char) r
  end.

(** [^[A-Za-z0-9_.\-\[\]]+$] *)
Definition costParameter (s : string) : bool :=
  negb (bool_decide (s = "")) && all_chars (fun c => is_lower c || is_upper c || is_digit c
    || contains_char c "_.-[]") s.

Definition maxKeyLength : Z := 63.
Definition maxCostParameterLength : Z := 64.

Definition httpMethods : gset string :=
  {["GET"; "POST"; "PUT"; "DELETE"; "PATCH"; "HEAD"; "OPTIONS"; "CONNECT"; "TRACE"]}.

(** ** compile/keys.go *)

Record environment := mkEnv {
  env_keys : gmap string bool;
  env_groups : gmap string (list string);
  env_extraction : list KeyExtraction }.

Definition effectiveKeys (e : environment) : list string :=
  sort_strings (map_to_list (env_keys e)).*1.

Definition hasEmptySegment (path : list string) : bool :=
  match path with
  | [] => true
  | _ => bool_decide ("" ∈ path)
  end.

(** The problems of the environment carry no block and no rule. *)
Definition env_problem (format : string) (args : list Arg) : Problem :=
  mkProblem "" "" ReasonInvalidSpec (mkMsg format args) true.

(** The fallback loop of [compileKeyMapping]. *)
Fixpoint compileFallbacks (key : string) (fs : list string) : result Problem (list (list string)) :=
  match fs with
  | [] => Ok []
  | f :: fs =>
      let fallback := Split "." f in
      if hasEmptySegment fallback
      then Err (env_problem "mapping key %q carries an empty fallback path segment" [AStr key])
      else match compileFallbacks key fs with
           | Ok out => Ok (fallback :: out)
           | Err e => Err e
           end
  end.

Definition compileKeyMapping (km : KeyMapping) : result Problem KeyExtraction :=
  let k := km_Key km in
  if negb (keyName k) || (len k >? maxKeyLength) then
    Err (env_problem "mapping key %q does not match %s or exceeds %d characters"
           [AStr k; AStr "^[a-z][a-zA-Z0-9_]*$"; AInt maxKeyLength])
  else if bool_decide (k = KeyPath) || bool_decide (k = KeyMethod) || bool_decide (k = KeyToken) then
    Err (env_problem "mapping key %q collides with a built-in" [AStr k])
  else if Bool.eqb (bool_decide (km_Claim km = "")) (length (km_ClaimPath km) =? 0)%nat then
    Err (env_problem "mapping key %q must set exactly one of claim and claimPath" [AStr k])
  else if negb (bool_decide (km_Type km = "") || bool_decide (km_Type km = ValueString)
                || bool_decide (km_Type km = ValueStringArray)) then
    Err (env_problem "mapping key %q carries an unknown type %q" [AStr k; AStr (km_Type km)])
  else if negb (bool_decide (km_Normalization km = "") || bool_decide (km_Normalization km = NormalizeNone)
                || bool_decide (km_Normalization km = NormalizeLowercase)) then
    Err (env_problem "mapping key %q carries an unknown normalization %q"
           [AStr k; AStr (km_Normalization km)])
  else
    let path := if bool_decide (km_Claim km = "") then km_ClaimPath km else Split "." (km_Claim km) in
    if hasEmptySegment path then
      Err (env_problem "mapping key %q carries an empty claim path segment" [AStr k])
    else
      match compileFallbacks k (km_Fallbacks km) with
      | Err e => Err e
      | Ok fallbacks =>
          Ok (mkKeyExtraction k path
                (if bool_decide (km_Type km = "") then ValueString else km_Type km)
                (if bool_decide (km_Normalization km = "") then NormalizeNone else km_Normalization km)
                fallbacks)
      end.

(** [compileGroups]: the groups so far are the destination map. *)
Fixpoint compileGroups (groups : list Group) (dst : gmap string (list string))
    : gmap string (list string) * list Problem :=
  match groups with
  | [] => (dst, [])
  | g :: gs =>
      if bool_decide (g_Name g = "") then
        let '(dst', ps) := compileGroups gs dst in
        (dst', env_problem "a group without a name" [] :: ps)
      else if bool_decide (is_Some (dst !! g_Name g)) then
        let '(dst', ps) := compileGroups gs dst in
        (dst', env_problem "group %q is declared twice" [AStr (g_Name g)] :: ps)
      else compileGroups gs (<[g_Name g := g_Values g]> dst)
  end.

Definition builtin_keys : gmap string bool :=
  <[KeyPath := false]> (<[KeyMethod := false]> (<[KeySub := false]> ∅)).

Definition builtinSub : KeyExtraction :=
  mkKeyExtraction KeySub ["sub"] ValueString NormalizeLowercase [].

(** The state of the mapping loop of [compileEnvironment]. *)
Record mapping_state := mkMS {
  ms_declared : gset string;
  ms_subOverridden : bool;
  ms_keys : gmap string bool;
  ms_extraction : list KeyExtraction;
  ms_problems : list Problem }.

Definition compileMapping (st : mapping_state) (km : KeyMapping) : mapping_state :=
  let k := km_Key km in
  if bool_decide (k ∈ ms_declared st) then
    mkMS (ms_declared st) (ms_subOverridden st) (ms_keys st) (ms_extraction st)
      (ms_problems st ++ [env_problem "mapping key %q is declared twice" [AStr k]])
  else
    let declared := {[k]} ∪ ms_declared st in
    match compileKeyMapping km with
    | Err p => mkMS declared (ms_subOverridden st) (ms_keys st) (ms_extraction st) (ms_problems st ++ [p])
    | Ok ex =>
        mkMS declared (ms_subOverridden st || bool_decide (k = KeySub))
          (<[k := bool_decide (ke_Type ex = ValueStringArray)]> (ms_keys st))
          (ms_extraction st ++ [ex]) (ms_problems st)
    end.

Definition compileEnvironment (domain : string) (p : option Policy) : environment * list Problem :=
  match p with
  | None => (mkEnv builtin_keys ∅ [builtinSub], [])
  | Some p =>
      let first :=
        if bool_decide (p_Domain p = domain) then []
        else [env_problem "policy domain %q does not belong to domain %q"
                [AStr (p_Domain p); AStr domain]] in
      let st := foldl compileMapping (mkMS ∅ false builtin_keys [] first) (p_Mappings p) in
      let extraction := if ms_subOverridden st then ms_extraction st
                        else builtinSub :: ms_extraction st in
      let '(groups, gps) := compileGroups (p_Groups p) ∅ in
      (mkEnv (ms_keys st) groups extraction, ms_problems st ++ gps)
  end.

(** ** compile/template.go *)

(** One segment of a template: what it adds to the compiled segments, the
    placeholders seen in this template and the block's captures. *)
Definition compileSegment (env : environment) (block value : string) (i : nat) (s : string)
    (seen captures : gset string) : W (list Segment * gset string * gset string) :=
  if bool_decide (s = "") then
    fail_ block "" ReasonInvalidSpec
      "template %q: segment %d is empty, a slash at the end or two in a row"
      [AStr value; AInt (Z.of_nat i + 1)];;
    mret ([], seen, captures)
  else if negb (HasPrefix s "{") || negb (HasSuffix s "}") then
    if ContainsAny s "{}" then
      fail_ block "" ReasonInvalidSpec
        "template %q: segment %q is neither a literal nor a single {placeholder}"
        [AStr value; AStr s];;
      mret ([], seen, captures)
    else mret ([mkSegment s ""], seen, captures)
  else
    let name := String.substring 1 (String.length s - 2) s in
    if negb (keyName name) || (len name >? maxKeyLength) then
      fail_ block "" ReasonInvalidSpec "placeholder %q does not match %s or exceeds %d characters"
        [AStr name; AStr "^[a-z][a-zA-Z0-9_]*$"; AInt maxKeyLength];;
      mret ([], seen, captures)
    else if bool_decide (name = KeyPath) || bool_decide (name = KeyMethod)
            || bool_decide (name = KeySub) || bool_decide (name = KeyToken) then
      fail_ block "" ReasonInvalidSpec "placeholder %q collides with a built-in key" [AStr name];;
      mret ([], seen, captures)
    else if bool_decide (name ∈ seen) then
      fail_ block "" ReasonInvalidSpec "placeholder %q repeats within one template" [AStr name];;
      mret ([], seen, captures)
    else
      fail_if (bool_decide (is_Some (env_keys env !! name)))
        (fail_ block "" ReasonCaptureShadowsMappedKey
           "capture %q shadows the mapped key of the same name inside this block" [AStr name]);;
      mret ([mkSegment "" name], {[name]} ∪ seen, {[name]} ∪ captures).

Fixpoint compileSegments (env : environment) (block value : string) (i : nat) (segments : list string)
    (seen captures : gset string) : W (list Segment * gset string) :=
  match segments with
  | [] => mret ([], captures)
  | s :: rest =>
      r ← compileSegment env block value i s seen captures;
      let '(segs, seen', captures') := r in
      r2 ← compileSegments env block value (i + 1) rest seen' captures';
      let '(out, captures'') := r2 in
      mret (segs ++ out, captures'')
  end.

Definition compileTemplate (env : environment) (block value : string) (captures : gset string)
    : W (list Segment * gset string) :=
  compileSegments env block value 0 (Split "/" (TrimPrefix value "/")) ∅ captures.

Definition compileCost (block : string) (cost : option RouteCost) : W (option Cost) :=
  match cost with
  | None => mret None
  | Some c =>
      let bad_source := negb (bool_decide (rc_Source c = CostQueryParameter)) in
      let bad_name := negb (costParameter (rc_Name c)) || (len (rc_Name c) >? maxCostParameterLength) in
      let def := if rc_Default c =? 0 then 1 else rc_Default c in
      let bad_default := (def <? 1) || (def >? MaxCost) in
      fail_if bad_source
        (fail_ block "" ReasonInvalidSpec "unknown cost source %q" [AStr (rc_Source c)]);;
      fail_if bad_name
        (fail_ block "" ReasonInvalidSpec "cost parameter %q does not match %s or exceeds %d characters"
           [AStr (rc_Name c); AStr "^[A-Za-z0-9_.\-\[\]]+$"; AInt maxCostParameterLength]);;
      fail_if bad_default
        (fail_ block "" ReasonInvalidSpec "default cost %d is outside 1..%d"
           [AInt (rc_Default c); AInt MaxCost]);;
      mret (if bad_source || bad_name || bad_default then None
            else Some (mkCost (rc_Name c) def))
  end.

Fixpoint compileMethods (block : string) (ms : list string) (out : gset string) : W (gset string) :=
  match ms with
  | [] => mret out
  | m :: ms =>
      if negb (bool_decide (m ∈ httpMethods)) then
        fail_ block "" ReasonInvalidSpec "unknown HTTP method %q" [AStr m];;
        compileMethods block ms out
      else if bool_decide (m ∈ out) then
        fail_ block "" ReasonInvalidSpec "method %q is listed twice" [AStr m];;
        compileMethods block ms out
      else compileMethods block ms ({[m]} ∪ out)
  end.

Definition compileRoute (env : environment) (block : string) (r : MRoute) (captures : gset string)
    : W (Route * gset string) :=
  let type := pm_Type (mr_Path r) in
  let value := pm_Value (mr_Path r) in
  fail_if (negb (HasPrefix value "/"))
    (fail_ block "" ReasonInvalidSpec "path %q does not start with /" [AStr value]);;
  sc ← (if bool_decide (type = PathExact) || bool_decide (type = PathPrefix) then mret ([], captures)
        else if bool_decide (type = PathTemplate) then compileTemplate env block value captures
        else fail_ block "" ReasonInvalidSpec "unknown path type %q" [AStr type];; mret ([], captures));
  let '(segments, captures') := sc in
  methods ← compileMethods block (mr_Methods r) ∅;
  cost ← compileCost block (mr_Cost r);
  mret (mkRoute type value segments methods cost, captures').

Fixpoint compileRouteList (env : environment) (block : string) (rs : list MRoute) (captures : gset string)
    : W (list Route * gset string) :=
  match rs with
  | [] => mret ([], captures)
  | r :: rs =>
      rc ← compileRoute env block r captures;
      let '(route, captures') := rc in
      rest ← compileRouteList env block rs captures';
      mret (route :: rest.1, rest.2)
  end.

Definition compileRoutes (env : environment) (b : MBlock) : W (list Route * list string) :=
  rc ← compileRouteList env (mb_Name b) (mb_Routes b) ∅;
  mret (rc.1, sort_strings (elements rc.2)).

(** ** compile/blocks.go *)

Definition toSet (values : list string) : gset string := list_to_set values.

Definition operatorArity (block rule : string) (p : MPredicate) : W bool :=
  let op := mp_Operator p in
  let bad format args := fail_ block rule ReasonInvalidSpec format args;; mret false in
  if bool_decide (op = OperatorEquals) || bool_decide (op = OperatorContains)
     || bool_decide (op = OperatorInGroup) then
    if bool_decide (mp_Value p = "") || negb (length (mp_Values p) =? 0)%nat
    then bad "%s takes value and nothing else" [AStr op] else mret true
  else if bool_decide (op = OperatorIn) then
    if (length (mp_Values p) =? 0)%nat || negb (bool_decide (mp_Value p = ""))
    then bad "In takes a non-empty values list and nothing else" [] else mret true
  else if bool_decide (op = OperatorExists) || bool_decide (op = OperatorDoesNotExist) then
    if negb (bool_decide (mp_Value p = "")) || negb (length (mp_Values p) =? 0)%nat
    then bad "%s takes no parameters" [AStr op] else mret true
  else bad "unknown operator %q" [AStr op].

Definition compilePredicate (env : environment) (block rule : string) (p : MPredicate)
    (blockKeys : gmap string bool) : W (option Predicate) :=
  let k := mp_Key p in
  let op := mp_Operator p in
  if bool_decide (k = KeyPath) || bool_decide (k = KeyMethod) || bool_decide (k = KeyToken) then
    fail_ block rule ReasonInvalidSpec "matches key %q belongs to the target, not to matches" [AStr k];;
    mret None
  else
    match blockKeys !! k with
    | None =>
        fail_ block rule ReasonUnresolvedKeyReference
          "key %q is not in the effective set of the domain" [AStr k];;
        mret None
    | Some isArray =>
        ok ← operatorArity block rule p;
        if negb ok then mret None
        else if bool_decide (op = OperatorEquals) then
          fail_if isArray
            (fail_ block rule ReasonIncompatibleOperator
               "Equals cannot apply to the array-valued key %q" [AStr k]);;
          mret (Some (mkPredicate k op (mp_Value p) ∅))
        else if bool_decide (op = OperatorIn) then
          mret (Some (mkPredicate k op (mp_Value p) (toSet (mp_Values p))))
        else if bool_decide (op = OperatorInGroup) then
          match env_groups env !! mp_Value p with
          | None =>
              fail_ block rule ReasonUnresolvedGroupReference
                "InGroup names %q, which no group declares" [AStr (mp_Value p)];;
              mret None
          | Some values => mret (Some (mkPredicate k op (mp_Value p) (toSet values)))
          end
        else mret (Some (mkPredicate k op (mp_Value p) ∅))
    end.

Fixpoint compileMatches (env : environment) (block rule : string) (ps : list MPredicate)
    (blockKeys : gmap string bool) : W (list Predicate) :=
  match ps with
  | [] => mret []
  | p :: ps =>
      c ← compilePredicate env block rule p blockKeys;
      rest ← compileMatches env block rule ps blockKeys;
      mret (match c with Some c => c :: rest | None => rest end)
  end.

Fixpoint compileCounters (block rule : string) (axes : list string) (blockKeys : gmap string bool)
    : W unit :=
  match axes with
  | [] => mret tt
  | axis :: axes =>
      match blockKeys !! axis with
      | None =>
          fail_ block rule ReasonUnresolvedKeyReference
            "counter axis %q is not in the effective set of the domain" [AStr axis]
      | Some isArray =>
          fail_if isArray
            (fail_ block rule ReasonInvalidCounterAxis
               "the array-valued key %q cannot be a counter axis" [AStr axis])
      end;;
      compileCounters block rule axes blockKeys
  end.

Definition ratesCompilable (block : string) (r : MRule) (behavior : string) : W bool :=
  if bool_decide (behavior = BehaviorBypass) then
    fail_if (negb (length (mru_Rates r) =? 0)%nat)
      (fail_ block (mru_Name r) ReasonInvalidSpec "a Bypass rule carries no rates" []);;
    mret false
  else if (length (mru_Rates r) =? 0)%nat then
    fail_ block (mru_Name r) ReasonInvalidSpec "a counting rule carries at least one rates entry" [];;
    mret false
  else mret true.

Definition compileRate (block rule : string) (rate : MRate) (ident : Ident) : W (option Rate) :=
  let name := if bool_decide (mra_Algorithm rate = "") then "GCRA" else mra_Algorithm rate in
  match ByName name with
  | None =>
      fail_ block rule ReasonInvalidSpec "unknown algorithm %q; known: %v"
        [AStr (mra_Algorithm rate); AList Names];;
      mret None
  | Some a =>
      let w0 := mkWindow (mra_Requests rate) (mra_Period rate) (mra_Burst rate) in
      let w := if (ID a =? GCRAID) && (Burst w0 =? 0)
               then mkWindow (Requests w0) (Period w0) (Requests w0) else w0 in
      match Check a w with
      | Err e =>
          fail_ block rule ReasonInvalidWindow "window %s/%s: %v"
            [AStr name; AInt (mra_Period rate); AErr e];;
          mret None
      | Ok _ =>
          match RatePrefix ident a w with
          | None => Panic
          | Some prefix => mret (Some (mkRate a w prefix))
          end
      end
  end.

Fixpoint compileRateList (block rule : string) (rates : list MRate) (ident : Ident) (periods : gset Z)
    : W (list Rate) :=
  match rates with
  | [] => mret []
  | rate :: rates =>
      if bool_decide (mra_Period rate ∈ periods) then
        fail_ block rule ReasonInvalidSpec "two rates entries share the period %s"
          [AInt (mra_Period rate)];;
        compileRateList block rule rates ident periods
      else
        c ← compileRate block rule rate ident;
        rest ← compileRateList block rule rates ident ({[mra_Period rate]} ∪ periods);
        mret (match c with Some c => c :: rest | None => rest end)
  end.

Definition compileRates (namespace domain block : string) (r : MRule) (behavior : string)
    : W (list Rate) :=
  ok ← ratesCompilable block r behavior;
  if negb ok then mret []
  else compileRateList block (mru_Name r) (mru_Rates r)
         (mkIdent namespace domain block (mru_Name r)) ∅.

Definition compileRule (namespace domain : string) (env : environment) (b : MBlock) (r : MRule)
    (blockKeys : gmap string bool) : W Rule :=
  let block := mb_Name b in
  let behavior := if bool_decide (mru_Behavior r = "") then BehaviorEnforce else mru_Behavior r in
  fail_if (negb (bool_decide (behavior = BehaviorEnforce) || bool_decide (behavior = BehaviorShadow)
                 || bool_decide (behavior = BehaviorBypass)))
    (fail_ block (mru_Name r) ReasonInvalidSpec "unknown behavior %q" [AStr (mru_Behavior r)]);;
  fail_if (bool_decide (behavior = BehaviorBypass) && negb (bool_decide (mb_Mode b = ModeFirstMatch))
           && (length (mru_ReplacedRules r) =? 0)%nat)
    (fail_ block (mru_Name r) ReasonInvalidSpec
       "a Bypass rule under All names the rules it exempts from in replacedRules" []);;
  ms ← compileMatches env block (mru_Name r) (mru_Matches r) blockKeys;
  compileCounters block (mru_Name r) (mru_Counters r) blockKeys;;
  rates ← compileRates namespace domain block r behavior;
  mret (mkRule (mru_Name r) behavior ms (mru_Counters r) rates (mru_ReplacedRules r)).

Fixpoint compileRuleList (namespace domain : string) (env : environment) (b : MBlock)
    (rs : list MRule) (blockKeys : gmap string bool) (names : gset string)
    : W (list Rule * gset string) :=
  match rs with
  | [] => mret ([], names)
  | r :: rs =>
      if bool_decide (mru_Name r ∈ names) then
        fail_ (mb_Name b) (mru_Name r) ReasonInvalidSpec "rule %q is declared twice" [AStr (mru_Name r)];;
        compileRuleList namespace domain env b rs blockKeys names
      else
        c ← compileRule namespace domain env b r blockKeys;
        rest ← compileRuleList namespace domain env b rs blockKeys ({[mru_Name r]} ∪ names);
        mret (c :: rest.1, rest.2)
  end.

(** The targets of one rule's [replacedRules] under [All]. *)
Fixpoint checkReplacedTargets (block rule : string) (names : gset string) (targets : list string)
    : W unit :=
  match targets with
  | [] => mret tt
  | target :: targets =>
      fail_if (negb (bool_decide (target ∈ names)) || bool_decide (target = rule))
        (fail_ block rule ReasonUnresolvedReplacedRules
           "replacedRules names %q, which is not another rule of this block" [AStr target]);;
      checkReplacedTargets block rule names targets
  end.

Fixpoint checkReplacedRules (block : string) (rs : list MRule) (mode : string) (names : gset string)
    : W unit :=
  match rs with
  | [] => mret tt
  | r :: rs =>
      (if (length (mru_ReplacedRules r) =? 0)%nat then mret tt
       else if bool_decide (mode = ModeFirstMatch) then
         fail_ block (mru_Name r) ReasonInvalidSpec
           "replacedRules is not available under FirstMatch, where the order of the rules already decides" []
       else checkReplacedTargets block (mru_Name r) names (mru_ReplacedRules r));;
      checkReplacedRules block rs mode names
  end.

(** The first window of the rule whose capacity is below the cost. *)
Fixpoint windowBelow_loop (rates : list Rate) (cost : Z) : option (Rate * Z) :=
  match rates with
  | [] => None
  | rate :: rates =>
      let capacity := if Burst (ra_Window rate) =? 0 then Requests (ra_Window rate)
                      else Burst (ra_Window rate) in
      if cost >? capacity then Some (rate, capacity) else windowBelow_loop rates cost
  end.

Definition windowBelow (rule : Rule) (cost : Z) : option (Rate * Z) :=
  windowBelow_loop (ru_Rates rule) cost.

Fixpoint checkCostRules (block : string) (route : Route) (def : Z) (rules : list Rule) : W unit :=
  match rules with
  | [] => mret tt
  | rule :: rules =>
      match windowBelow rule def with
      | Some (rate, capacity) =>
          fail_ block (ru_Name rule) ReasonCostExceedsCapacity
            "route %q reads a default cost of %d, above the capacity %d of the %s window of %s"
            [AStr (rt_Value route); AInt def; AInt capacity; AStr (Name (ra_Algorithm rate));
             AInt (Period (ra_Window rate))]
      | None => mret tt
      end;;
      checkCostRules block route def rules
  end.

Fixpoint checkCostCapacity (block : string) (routes : list Route) (rules : list Rule) : W unit :=
  match routes with
  | [] => mret tt
  | route :: routes =>
      match rt_Cost route with
      | None => mret tt
      | Some cost => checkCostRules block route (co_Default cost) rules
      end;;
      checkCostCapacity block routes rules
  end.

(** [blockKeys]: the domain's keys with the block's captures as scalars. *)
Definition block_keys (env : environment) (captures : list string) : gmap string bool :=
  foldl (fun m c => <[c := false]> m) (env_keys env) captures.

Definition compileBlock (namespace domain : string) (env : environment) (b : MBlock) : W Block :=
  let mode := if bool_decide (mb_Mode b = "") then ModeAll else mb_Mode b in
  fail_if (negb (bool_decide (mode = ModeAll)) && negb (bool_decide (mode = ModeFirstMatch)))
    (fail_ (mb_Name b) "" ReasonInvalidSpec "unknown mode %q" [AStr (mb_Mode b)]);;
  rc ← compileRoutes env b;
  let '(routes, captures) := rc in
  let blockKeys := block_keys env captures in
  fail_if (length (mb_Rules b) =? 0)%nat
    (fail_ (mb_Name b) "" ReasonInvalidSpec "a block without rules" []);;
  rn ← compileRuleList namespace domain env b (mb_Rules b) blockKeys ∅;
  let '(rules, names) := rn in
  checkReplacedRules (mb_Name b) (mb_Rules b) mode names;;
  checkCostCapacity (mb_Name b) routes rules;;
  mret (mkBlock (mb_Name b) mode routes captures rules).

Fixpoint compileBlockList (namespace domain : string) (env : environment) (bs : list MBlock)
    (seen : gset string) : W (list Block) :=
  match bs with
  | [] => mret []
  | b :: bs =>
      if bool_decide (mb_Name b ∈ seen) then
        fail_ (mb_Name b) "" ReasonInvalidSpec "block %q is declared twice" [AStr (mb_Name b)];;
        compileBlockList namespace domain env bs seen
      else
        c ← compileBlock namespace domain env b;
        rest ← compileBlockList namespace domain env bs ({[mb_Name b]} ∪ seen);
        mret (c :: rest)
  end.

Definition compileBlocks (namespace domain : string) (p : Policy) (env : environment) : W (list Block) :=
  fail_if (length (p_Blocks p) =? 0)%nat (fail_ "" "" ReasonInvalidSpec "a policy without blocks" []);;
  compileBlockList namespace domain env (p_Blocks p) ∅.

(** The loop of [blockDecisionBuckets]: what always counts, and the widest of
    the rules that end a cascade. *)
Fixpoint budget_loop (mode : string) (rules : list Rule) (always widest : nat) : nat :=
  match rules with
  | [] => (always + widest)%nat
  | r :: rules =>
      if negb (bool_decide (mode = ModeFirstMatch)) then
        budget_loop mode rules (always + length (ru_Rates r)) widest
      else if bool_decide (ru_Behavior r = BehaviorShadow) then
        budget_loop mode rules (always + length (ru_Rates r)) widest
      else budget_loop mode rules always (widest `max` length (ru_Rates r))
  end.

Definition blockDecisionBuckets (b : Block) : nat := budget_loop (bl_Mode b) (bl_Rules b) 0 0.

Definition decisionBuckets (blocks : list Block) : nat := sumN blockDecisionBuckets blocks.

(** ** compile/compile.go *)

Definition over_budget (n : nat) : Problem :=
  mkProblem "" "" ReasonDomainBudgetExceeded
    (mkMsg "one decision can collect up to %d buckets across the domain; the budget is %d"
       [AInt (Z.of_nat n); AInt MaxDomainDecisionBuckets]) true.

(** [None] is a panic, which [compile_total] shows does not happen. *)
Definition Compile (namespace domain : string) (p : option Policy) : option (Snapshot * list Problem) :=
  if bool_decide (namespace = "") then
    Some (mkSnapshot domain [] [] [] 0,
      [mkProblem "" "" ReasonInvalidSpec
         (mkMsg "the component's own namespace is empty; it is a segment of every counter key" []) true])
  else if (len domain >? 63) || negb (domainName domain) then
    Some (mkSnapshot domain [] [] [] 0,
      [mkProblem "" "" ReasonInvalidSpec
         (mkMsg "domain %q does not match %s or exceeds 63 characters"
            [AStr domain; AStr "^[a-z0-9]([a-z0-9.-]*[a-z0-9])?$"]) true])
  else
    let '(env, problems) := compileEnvironment domain p in
    let snap := mkSnapshot domain (effectiveKeys env) [] (env_extraction env) 0 in
    match p with
    | None => Some (snap, problems)
    | Some pol =>
        match compileBlocks namespace domain pol env with
        | Panic => None
        | Log blocks blockProblems =>
            let n := decisionBuckets blocks in
            let problems := problems ++ blockProblems
              ++ (if Z.of_nat n >? MaxDomainDecisionBuckets then [over_budget n] else []) in
            if blocking problems then Some (snap, problems)
            else Some (mkSnapshot domain (effectiveKeys env) blocks (env_extraction env) n, problems)
        end
    end.
