(* ===== verification/CompileFacts.v ===== *)
(** * What the compiler guarantees

    Every function of the compiler returns (no panic of the key builder), the
    rules it emits are well formed whatever else it reports, and a snapshot
    carries either the whole generation or none of it. *)
From S2P Require Import Prelude GoStrings Algo Key StoreApi Model Compile.

(** ** Reasoning about the compiler's monad *)

#[global] Arguments W_bind {_ _} _ _ : simpl never.
#[global] Arguments W_ret {_} _ : simpl never.
#[global] Arguments fail_ : simpl never.

Lemma W_bind_Log {A B} (c : W A) (f : A -> W B) b ps :
  (c ≫= f) = Log b ps ->
  exists a ps1 ps2, c = Log a ps1 /\ f a = Log b ps2 /\ ps = ps1 ++ ps2.
Proof.
  unfold mbind, W_bind. destruct c as [|a ps1]; [done|].
  destruct (f a) as [|b' ps2] eqn:E; [done|]. intros [= <- <-]. eauto 6.
Qed.

Lemma W_bind_total {A B} (c : W A) (f : A -> W B) :
  c <> Panic -> (forall a, f a <> Panic) -> (c ≫= f) <> Panic.
Proof.
  unfold mbind, W_bind. destruct c as [|a ps]; [done|]. intros _ Hf.
  specialize (Hf a). by destruct (f a).
Qed.

Lemma mret_total {A} (a : A) : (mret a : W A) <> Panic.
Proof. done. Qed.
Lemma fail_total block rule reason fmt args : fail_ block rule reason fmt args <> Panic.
Proof. done. Qed.
Lemma fail_if_total b c : c <> Panic -> fail_if b c <> Panic.
Proof. by destruct b. Qed.

Create HintDb compiler.
#[export] Hint Resolve mret_total fail_total fail_if_total : compiler.

Lemma mret_Log {A} (a b : A) ps : (mret a : W A) = Log b ps -> a = b /\ ps = [].
Proof. by intros [= -> ->]. Qed.

(** Takes a run of the monad apart, one bind at a time. *)
Ltac winv :=
  simplify_eq/=;
  repeat (match goal with
  | H : (_ ≫= _) = Log _ _ |- _ =>
      apply W_bind_Log in H as (? & ? & ? & ? & H & ?)
  | H : W_bind _ _ = Log _ _ |- _ =>
      apply W_bind_Log in H as (? & ? & ? & ? & H & ?)
  | H : mret _ = Log _ _ |- _ => apply mret_Log in H as [? ?]
  | p : prod _ _ |- _ => destruct p
  end; simplify_eq/=).

(** Shows that a run of the monad returns: walks the binds and the tests. *)
Ltac wtotal :=
  repeat match goal with
  | |- (_ ≫= _) <> Panic => apply W_bind_total; [|intros]
  | p : prod _ _ |- _ => destruct p
  | |- (if _ then _ else _) <> Panic => case_match
  | |- (match _ with _ => _ end) <> Panic => case_match
  end;
  try first [by auto with compiler | match goal with IH : forall _, _ |- _ => by apply IH end].

(** ** Totality *)

Lemma compileSegment_total env b v i s seen caps : compileSegment env b v i s seen caps <> Panic.
Proof. unfold compileSegment. wtotal. Qed.
#[export] Hint Resolve compileSegment_total : compiler.

Lemma compileSegments_total env b v i l seen caps : compileSegments env b v i l seen caps <> Panic.
Proof. revert i seen caps. induction l as [|s l IH]; intros; cbn [compileSegments]; wtotal. Qed.
#[export] Hint Resolve compileSegments_total : compiler.

Lemma compileMethods_total b ms out : compileMethods b ms out <> Panic.
Proof. revert out. induction ms as [|m ms IH]; intros; cbn [compileMethods]; wtotal. Qed.
#[export] Hint Resolve compileMethods_total : compiler.

Lemma compileCost_total b c : compileCost b c <> Panic.
Proof. unfold compileCost. destruct c; wtotal. Qed.
#[export] Hint Resolve compileCost_total : compiler.

Lemma compileRoute_total env b r caps : compileRoute env b r caps <> Panic.
Proof. unfold compileRoute, compileTemplate. wtotal. Qed.
#[export] Hint Resolve compileRoute_total : compiler.

Lemma compileRouteList_total env b rs caps : compileRouteList env b rs caps <> Panic.
Proof. revert caps. induction rs as [|r rs IH]; intros; cbn [compileRouteList]; wtotal. Qed.
#[export] Hint Resolve compileRouteList_total : compiler.

Lemma compilePredicate_total env b r p keys : compilePredicate env b r p keys <> Panic.
Proof. unfold compilePredicate, operatorArity. wtotal. Qed.
#[export] Hint Resolve compilePredicate_total : compiler.

Lemma compileMatches_total env b r ps keys : compileMatches env b r ps keys <> Panic.
Proof. induction ps; cbn [compileMatches]; wtotal. Qed.
Lemma compileCounters_total b r axes keys : compileCounters b r axes keys <> Panic.
Proof. induction axes; cbn [compileCounters]; wtotal. Qed.
#[export] Hint Resolve compileMatches_total compileCounters_total : compiler.

Lemma compileRate_total b r rate id :
  IdNamespace id <> "" -> IdDomain id <> "" -> compileRate b r rate id <> Panic.
Proof.
  intros Hn Hd. unfold compileRate. destruct (ByName _) as [a|]; [|wtotal].
  destruct (Check a _); [|wtotal].
  match goal with |- context [RatePrefix id a ?w] => destruct (RatePrefix_some id a w Hn Hd) as [p ->] end.
  done.
Qed.
#[export] Hint Resolve compileRate_total : compiler.

Lemma compileRateList_total b r rates id periods :
  IdNamespace id <> "" -> IdDomain id <> "" -> compileRateList b r rates id periods <> Panic.
Proof. intros Hn Hd. revert periods. induction rates as [|x rates IH]; intros; cbn [compileRateList]; wtotal. Qed.
#[export] Hint Resolve compileRateList_total : compiler.

Lemma compileRule_total ns d env b r keys :
  ns <> "" -> d <> "" -> compileRule ns d env b r keys <> Panic.
Proof. intros. unfold compileRule, compileRates, ratesCompilable. wtotal. Qed.
#[export] Hint Resolve compileRule_total : compiler.

Lemma compileRuleList_total ns d env b rs keys names :
  ns <> "" -> d <> "" -> compileRuleList ns d env b rs keys names <> Panic.
Proof. intros. revert names. induction rs as [|r rs IH]; intros; cbn [compileRuleList]; wtotal. Qed.
#[export] Hint Resolve compileRuleList_total : compiler.

Lemma checkReplacedTargets_total b r names ts : checkReplacedTargets b r names ts <> Panic.
Proof. induction ts; cbn [checkReplacedTargets]; wtotal. Qed.
#[export] Hint Resolve checkReplacedTargets_total : compiler.
Lemma checkReplacedRules_total b rs mode names : checkReplacedRules b rs mode names <> Panic.
Proof. induction rs; cbn [checkReplacedRules]; wtotal. Qed.
Lemma checkCostRules_total b route def rules : checkCostRules b route def rules <> Panic.
Proof. induction rules; cbn [checkCostRules]; wtotal. Qed.
#[export] Hint Resolve checkReplacedRules_total checkCostRules_total : compiler.
Lemma checkCostCapacity_total b routes rules : checkCostCapacity b routes rules <> Panic.
Proof. induction routes; cbn [checkCostCapacity]; wtotal. Qed.
#[export] Hint Resolve checkCostCapacity_total : compiler.

Lemma compileBlock_total ns d env b : ns <> "" -> d <> "" -> compileBlock ns d env b <> Panic.
Proof. intros. unfold compileBlock, compileRoutes. wtotal. Qed.
#[export] Hint Resolve compileBlock_total : compiler.

Lemma compileBlockList_total ns d env bs seen :
  ns <> "" -> d <> "" -> compileBlockList ns d env bs seen <> Panic.
Proof. intros. revert seen. induction bs as [|b bs IH]; intros; cbn [compileBlockList]; wtotal. Qed.
#[export] Hint Resolve compileBlockList_total : compiler.

Lemma compileBlocks_total ns d p env : ns <> "" -> d <> "" -> compileBlocks ns d p env <> Panic.
Proof. intros. unfold compileBlocks. wtotal. Qed.

Lemma domainName_nonempty d : domainName d = true -> d <> "".
Proof. by destruct d. Qed.

(** ** Well-formed output

    These hold of everything the compiler emits, problems or not. *)

Definition rate_ok (cap : Z) (id : Ident) (r : Rate) : Prop :=
  Check (ra_Algorithm r) (ra_Window r) = Ok tt /\
  RatePrefix id (ra_Algorithm r) (ra_Window r) = Some (ra_Prefix r) /\
  Requests (ra_Window r) <= cap.

Definition rule_ok (cap : Z) (ns d block : string) (r : Rule) : Prop :=
  NoDup ((fun x => Period (ra_Window x)) <$> ru_Rates r) /\
  Forall (rate_ok cap (mkIdent ns d block (ru_Name r))) (ru_Rates r) /\
  (ru_Behavior r = BehaviorBypass -> ru_Rates r = []).

Definition route_ok (r : Route) : Prop :=
  match rt_Cost r with None => True | Some c => 1 <= co_Default c <= MaxCost end.

Definition block_ok (cap : Z) (ns d : string) (b : Block) : Prop :=
  NoDup (ru_Name <$> bl_Rules b) /\
  Forall (rule_ok cap ns d (bl_Name b)) (bl_Rules b) /\
  Forall route_ok (bl_Routes b).

Definition snapshot_ok (cap : Z) (ns : string) (s : Snapshot) : Prop :=
  NoDup (bl_Name <$> s_Blocks s) /\
  Forall (block_ok cap ns (s_Domain s)) (s_Blocks s) /\
  s_DecisionBuckets s = decisionBuckets (s_Blocks s) /\
  Z.of_nat (s_DecisionBuckets s) <= MaxDomainDecisionBuckets.

(** Every authored rate is at most [cap] requests. *)
Definition policy_within (cap : Z) (p : Policy) : Prop :=
  Forall (fun b => Forall (fun r => Forall (fun x => mra_Requests x <= cap) (mru_Rates r))
                          (mb_Rules b)) (p_Blocks p).

Lemma compileRate_ok cap b r rate id c ps :
  mra_Requests rate <= cap ->
  compileRate b r rate id = Log (Some c) ps ->
  rate_ok cap id c /\ Period (ra_Window c) = mra_Period rate.
Proof.
  intros Hr. unfold compileRate. destruct (ByName _) as [a|]; [|by intros; winv].
  set (w := if _ && _ then _ else _).
  assert (Requests w = mra_Requests rate /\ Period w = mra_Period rate) as [Hw1 Hw2].
  { subst w. by destruct (_ && _). }
  destruct (Check a w) as [[]|] eqn:Hc; [|by intros; winv].
  destruct (RatePrefix id a w) as [p|] eqn:Hp; [|done].
  intros [= <- _]. unfold rate_ok. simpl. rewrite Hw1. done.
Qed.

Lemma compileRateList_ok cap b r rates id periods out ps :
  Forall (fun x => mra_Requests x <= cap) rates ->
  compileRateList b r rates id periods = Log out ps ->
  NoDup ((fun x => Period (ra_Window x)) <$> out) /\
  Forall (fun x => rate_ok cap id x /\ Period (ra_Window x) ∉ periods) out.
Proof.
  intros Hr. revert periods out ps.
  induction Hr as [|rate rates Hrate Hr IH]; intros periods out ps; cbn [compileRateList].
  { intros H. winv. split; [apply NoDup_nil_2|constructor]. }
  case_bool_decide as Hd; intros H; winv; [by eapply IH|].
  match goal with H : compileRateList _ _ _ _ _ = Log _ _ |- _ => apply IH in H end.
  match goal with |- context [match ?c with Some _ => _ | None => _ end] => destruct c as [c|] end;
    [|by eapply fresh_skip].
  match goal with H : compileRate _ _ _ _ = Log _ _ |- _ => apply (compileRate_ok cap) in H as [Hc Hp] end;
    [|done].
  by eapply fresh_cons.
Qed.

Lemma compileRates_ok cap ns d block r behavior out ps :
  Forall (fun x => mra_Requests x <= cap) (mru_Rates r) ->
  compileRates ns d block r behavior = Log out ps ->
  NoDup ((fun x => Period (ra_Window x)) <$> out) /\
  Forall (rate_ok cap (mkIdent ns d block (mru_Name r))) out /\
  (behavior = BehaviorBypass -> out = []).
Proof.
  intros Hr. unfold compileRates, ratesCompilable.
  case_bool_decide as Hb; intros H; winv.
  { split_and!; [apply NoDup_nil_2|constructor|done]. }
  destruct (length (mru_Rates r) =? 0)%nat; winv.
  { split_and!; [apply NoDup_nil_2|constructor|done]. }
  match goal with H : compileRateList _ _ _ _ _ = Log _ _ |- _ =>
    apply (compileRateList_ok cap) in H as [Hn Hf]; [|done] end.
  split_and!; [done|eapply Forall_impl; [exact Hf|by intros ? [? _]]|done].
Qed.

Lemma compileRule_ok cap ns d env b r keys c ps :
  Forall (fun x => mra_Requests x <= cap) (mru_Rates r) ->
  compileRule ns d env b r keys = Log c ps ->
  ru_Name c = mru_Name r /\ rule_ok cap ns d (mb_Name b) c.
Proof.
  intros Hr. unfold compileRule. intros H. winv. split; [done|].
  by eapply compileRates_ok.
Qed.

Lemma compileRuleList_ok cap ns d env b rs keys names out names' ps :
  Forall (fun r => Forall (fun x => mra_Requests x <= cap) (mru_Rates r)) rs ->
  compileRuleList ns d env b rs keys names = Log (out, names') ps ->
  NoDup (ru_Name <$> out) /\
  Forall (fun c => rule_ok cap ns d (mb_Name b) c /\ ru_Name c ∉ names) out.
Proof.
  intros Hr. revert names out names' ps.
  induction Hr as [|r rs Hrate Hr IH]; intros names out names' ps; cbn [compileRuleList].
  { intros H. winv. split; [apply NoDup_nil_2|constructor]. }
  case_bool_decide as Hd; intros H; winv; [by eapply IH|].
  match goal with H : compileRuleList _ _ _ _ _ _ _ = Log _ _ |- _ => apply IH in H end.
  match goal with H : compileRule _ _ _ _ _ _ = Log _ _ |- _ =>
    apply (compileRule_ok cap) in H as [Hname Hc]; [|done] end.
  by eapply fresh_cons.
Qed.

Lemma compileCost_ok b c out ps :
  compileCost b c = Log out ps ->
  match out with None => True | Some c => 1 <= co_Default c <= MaxCost end.
Proof.
  unfold compileCost. destruct c as [c|]; intros H; winv; [|done].
  match goal with |- context [if ?b then None else _] => destruct b eqn:E end; [done|].
  simpl. bools. lia.
Qed.

Lemma compileRoute_ok env b r caps route caps' ps :
  compileRoute env b r caps = Log (route, caps') ps -> route_ok route.
Proof. unfold compileRoute. intros H. winv. by eapply compileCost_ok. Qed.

Lemma compileRouteList_ok env b rs caps out caps' ps :
  compileRouteList env b rs caps = Log (out, caps') ps -> Forall route_ok out.
Proof.
  revert caps out caps' ps. induction rs as [|r rs IH]; intros caps out caps' ps; cbn [compileRouteList].
  { intros H. winv. constructor. }
  intros H. winv. constructor; [by eapply compileRoute_ok|by eapply IH].
Qed.

Lemma compileBlock_ok cap ns d env b c ps :
  Forall (fun r => Forall (fun x => mra_Requests x <= cap) (mru_Rates r)) (mb_Rules b) ->
  compileBlock ns d env b = Log c ps -> bl_Name c = mb_Name b /\ block_ok cap ns d c.
Proof.
  intros Hr. unfold compileBlock, compileRoutes. intros H. winv. split; [done|].
  match goal with H : compileRuleList _ _ _ _ _ _ _ = Log _ _ |- _ =>
    apply (compileRuleList_ok cap) in H as [Hn Hf]; [|done] end.
  unfold block_ok. simpl. split_and!; [done| |by eapply compileRouteList_ok].
  eapply Forall_impl; [exact Hf|]. by intros ? [? _].
Qed.

Lemma compileBlockList_ok cap ns d env bs seen out ps :
  Forall (fun b => Forall (fun r => Forall (fun x => mra_Requests x <= cap) (mru_Rates r))
                          (mb_Rules b)) bs ->
  compileBlockList ns d env bs seen = Log out ps ->
  NoDup (bl_Name <$> out) /\ Forall (fun c => block_ok cap ns d c /\ bl_Name c ∉ seen) out.
Proof.
  intros Hr. revert seen out ps.
  induction Hr as [|b bs Hb Hr IH]; intros seen out ps; cbn [compileBlockList].
  { intros H. winv. split; [apply NoDup_nil_2|constructor]. }
  case_bool_decide as Hd; intros H; winv; [by eapply IH|].
  match goal with H : compileBlockList _ _ _ _ _ = Log _ _ |- _ => apply IH in H end.
  match goal with H : compileBlock _ _ _ _ = Log _ _ |- _ =>
    apply (compileBlock_ok cap) in H as [Hname Hc]; [|done] end.
  by eapply fresh_cons.
Qed.

(** ** A generation without a blocking problem is compiled whole *)

Lemma blocking_app a b : blocking (a ++ b) = blocking a || blocking b.
Proof. apply existsb_app. Qed.

Lemma quiet_app a b : blocking (a ++ b) = false -> blocking a = false /\ blocking b = false.
Proof. rewrite blocking_app. apply orb_false_iff. Qed.

Lemma quiet_fail b r reason fmt args x ps :
  fail_ b r reason fmt args = Log x ps -> blocking ps = false -> informational reason = true.
Proof.
  intros [= _ <-]. unfold blocking. simpl. rewrite orb_false_r. by intros ?%negb_false_iff.
Qed.

Lemma quiet_fail_if c b r reason fmt args x ps :
  fail_if c (fail_ b r reason fmt args) = Log x ps -> blocking ps = false ->
  informational reason = false -> c = false.
Proof.
  destruct c; [|done]. unfold fail_if. intros H Hq Hi.
  pose proof (quiet_fail _ _ _ _ _ _ _ H Hq). congruence.
Qed.

(** Splits the log of a quiet run and refutes the branches that report. *)
Ltac quiet :=
  repeat match goal with
  | H : blocking (_ ++ _) = false |- _ => apply quiet_app in H as [??]
  end;
  repeat match goal with
  | H : fail_ _ _ ?r _ _ = Log _ ?ps, Hq : blocking ?ps = false |- _ =>
      exfalso; pose proof (quiet_fail _ _ _ _ _ _ _ H Hq) as Hbad; by vm_compute in Hbad
  | H : fail_if ?c (fail_ _ _ ?r _ _) = Log _ ?ps, Hq : blocking ?ps = false |- _ =>
      apply (fun h => quiet_fail_if _ _ _ _ _ _ _ _ h Hq) in H; [|reflexivity]
  end.

Definition rate_faithful (r : MRate) (c : Rate) : Prop :=
  Name (ra_Algorithm c) = (if bool_decide (mra_Algorithm r = "") then "GCRA" else mra_Algorithm r) /\
  Requests (ra_Window c) = mra_Requests r /\ Period (ra_Window c) = mra_Period r /\
  Burst (ra_Window c) =
    (if bool_decide (ra_Algorithm c = gcra) && (mra_Burst r =? 0) then mra_Requests r else mra_Burst r).

Definition predicate_faithful (env : environment) (p : MPredicate) (c : Predicate) : Prop :=
  pr_Key c = mp_Key p /\ pr_Operator c = mp_Operator p /\ pr_Value c = mp_Value p /\
  (mp_Operator p = OperatorIn -> pr_Values c = toSet (mp_Values p)) /\
  (mp_Operator p = OperatorInGroup ->
     exists values, env_groups env !! mp_Value p = Some values /\ pr_Values c = toSet values).

Definition rule_faithful (env : environment) (r : MRule) (c : Rule) : Prop :=
  ru_Name c = mru_Name r /\
  ru_Behavior c = (if bool_decide (mru_Behavior r = "") then BehaviorEnforce else mru_Behavior r) /\
  ru_Behavior c ∈ [BehaviorEnforce; BehaviorShadow; BehaviorBypass] /\
  ru_Counters c = mru_Counters r /\ ru_ReplacedRules c = mru_ReplacedRules r /\
  Forall2 (predicate_faithful env) (mru_Matches r) (ru_Matches c) /\
  Forall2 rate_faithful (mru_Rates r) (ru_Rates c).

Definition block_faithful (env : environment) (b : MBlock) (c : Block) : Prop :=
  bl_Name c = mb_Name b /\
  bl_Mode c = (if bool_decide (mb_Mode b = "") then ModeAll else mb_Mode b) /\
  bl_Mode c ∈ [ModeAll; ModeFirstMatch] /\
  length (bl_Routes c) = length (mb_Routes b) /\
  Forall2 (rule_faithful env) (mb_Rules b) (bl_Rules c).

Lemma ByName_name name a : ByName name = Some a -> Name a = name.
Proof. rewrite registry_lookup_name. repeat case_decide; by intros; simplify_eq. Qed.

Lemma compileRate_quiet b r rate id c ps :
  compileRate b r rate id = Log c ps -> blocking ps = false ->
  exists c', c = Some c' /\ rate_faithful rate c'.
Proof.
  unfold compileRate. intros H Hq.
  destruct (ByName _) as [a|] eqn:Ha; [|winv; quiet].
  destruct (Check a _) as [[]|]; [|winv; quiet].
  destruct (RatePrefix id a _) as [p|]; [|done]. injection H as <- _.
  eexists. split; [done|]. apply ByName_name in Ha. unfold rate_faithful. simpl.
  split; [done|].
  destruct a; simpl; [|done]. destruct (mra_Burst rate =? 0) eqn:E; simpl; done.
Qed.

Lemma compileRateList_quiet b r rates id periods out ps :
  compileRateList b r rates id periods = Log out ps -> blocking ps = false ->
  Forall2 rate_faithful rates out.
Proof.
  revert periods out ps. induction rates as [|rate rates IH]; intros periods out ps;
    cbn [compileRateList].
  { intros H _. winv. constructor. }
  case_bool_decide as Hd; intros H Hq; winv; quiet.
  match goal with H : compileRate _ _ _ _ = Log _ _ |- _ =>
    apply compileRate_quiet in H as (c' & -> & ?); [|done] end.
  constructor; [done|]. by eapply IH.
Qed.

Lemma operatorArity_quiet b r p ok ps :
  operatorArity b r p = Log ok ps -> blocking ps = false -> ok = true.
Proof.
  unfold operatorArity. intros H Hq.
  repeat (match type of H with (if ?c then _ else _) = _ => destruct c end); winv; by quiet.
Qed.

Lemma compilePredicate_quiet env b r p keys c ps :
  compilePredicate env b r p keys = Log c ps -> blocking ps = false ->
  exists c', c = Some c' /\ predicate_faithful env p c'.
Proof.
  unfold compilePredicate. intros H Hq.
  destruct (bool_decide (mp_Key p = KeyPath) || _ || _); [winv; quiet|].
  destruct (keys !! mp_Key p) as [isArray|]; [|winv; quiet].
  winv. quiet.
  match goal with Ha : operatorArity _ _ _ = Log _ _ |- _ =>
    apply operatorArity_quiet in Ha as ->; [|done] end. simpl in H.
  unfold predicate_faithful.
  destruct (bool_decide (mp_Operator p = OperatorEquals)) eqn:E1.
  { bools. winv. eexists. split; [done|]. simpl. rewrite E1. by split_and!. }
  destruct (bool_decide (mp_Operator p = OperatorIn)) eqn:E2.
  { bools. winv. eexists. split; [done|]. simpl. rewrite E2. by split_and!. }
  destruct (bool_decide (mp_Operator p = OperatorInGroup)) eqn:E3.
  { bools. destruct (env_groups env !! mp_Value p) as [vs|] eqn:Hg; winv; quiet.
    eexists. split; [done|]. simpl. split_and!; try done. eauto. }
  bools. winv. eexists. split; [done|]. simpl. by split_and!.
Qed.

Lemma compileMatches_quiet env b r l keys out ps :
  compileMatches env b r l keys = Log out ps -> blocking ps = false ->
  Forall2 (predicate_faithful env) l out.
Proof.
  revert out ps. induction l as [|p l IH]; intros out ps; cbn [compileMatches].
  { intros H _. winv. constructor. }
  intros H Hq. winv. quiet.
  match goal with H : compilePredicate _ _ _ _ _ = Log _ _ |- _ =>
    apply compilePredicate_quiet in H as (c' & -> & ?); [|done] end.
  constructor; [done|]. by eapply IH.
Qed.

Lemma compileRates_quiet ns d block r behavior out ps :
  compileRates ns d block r behavior = Log out ps -> blocking ps = false ->
  Forall2 rate_faithful (mru_Rates r) out.
Proof.
  unfold compileRates, ratesCompilable. intros H Hq.
  case_bool_decide as Hb; winv; quiet.
  { bools. destruct (mru_Rates r); [constructor|done]. }
  destruct (length (mru_Rates r) =? 0)%nat; winv; quiet.
  by eapply compileRateList_quiet.
Qed.

Lemma compileRule_quiet ns d env b r keys c ps :
  compileRule ns d env b r keys = Log c ps -> blocking ps = false -> rule_faithful env r c.
Proof.
  unfold compileRule. intros H Hq. winv. quiet. unfold rule_faithful. simpl.
  split_and!; try done; [|by eapply compileMatches_quiet|by eapply compileRates_quiet].
  match goal with H : negb _ = false |- _ =>
    apply negb_false_iff, orb_true_iff in H as [H|H]; [apply orb_true_iff in H as [H|H]|] end;
    apply bool_decide_eq_true in H0; rewrite H0; set_solver.
Qed.

Lemma compileRuleList_quiet ns d env b rs keys names out names' ps :
  compileRuleList ns d env b rs keys names = Log (out, names') ps -> blocking ps = false ->
  Forall2 (rule_faithful env) rs out.
Proof.
  revert names out names' ps. induction rs as [|r rs IH]; intros names out names' ps;
    cbn [compileRuleList].
  { intros H _. winv. constructor. }
  case_bool_decide as Hd; intros H Hq; winv; quiet.
  constructor; [by eapply compileRule_quiet|by eapply IH].
Qed.

Lemma compileRouteList_length env b rs caps out caps' ps :
  compileRouteList env b rs caps = Log (out, caps') ps -> length out = length rs.
Proof.
  revert caps out caps' ps. induction rs as [|r rs IH]; intros caps out caps' ps;
    cbn [compileRouteList]; intros H; winv; [done|]. f_equal. by eapply IH.
Qed.

Lemma compileBlock_quiet ns d env b c ps :
  compileBlock ns d env b = Log c ps -> blocking ps = false -> block_faithful env b c.
Proof.
  unfold compileBlock, compileRoutes. intros H Hq. winv. quiet. unfold block_faithful. simpl.
  split_and!; try done; [|by eapply compileRouteList_length|by eapply compileRuleList_quiet].
  match goal with H : negb _ && negb _ = false |- _ =>
    apply andb_false_iff in H as [H|H]; apply negb_false_iff, bool_decide_eq_true in H;
    rewrite H; set_solver end.
Qed.

Lemma compileBlockList_quiet ns d env bs seen out ps :
  compileBlockList ns d env bs seen = Log out ps -> blocking ps = false ->
  Forall2 (block_faithful env) bs out.
Proof.
  revert seen out ps. induction bs as [|b bs IH]; intros seen out ps; cbn [compileBlockList].
  { intros H _. winv. constructor. }
  case_bool_decide as Hd; intros H Hq; winv; quiet.
  constructor; [by eapply compileBlock_quiet|by eapply IH].
Qed.

(** ** The compiler as a whole *)

Lemma compile_snapshot_ok cap ns d p snap ps :
  (forall pol, p = Some pol -> policy_within cap pol) ->
  Compile ns d p = Some (snap, ps) -> snapshot_ok cap ns snap.
Proof.
  intros Hi. unfold Compile, snapshot_ok.
  assert (forall dom ek ex, snapshot_ok cap ns (mkSnapshot dom ek [] ex 0)) as Hempty.
  { intros. unfold snapshot_ok. simpl. split_and!; [apply NoDup_nil_2|constructor|done|done]. }
  case_bool_decide; [intros; simplify_eq; apply Hempty|].
  destruct (_ || _); [intros; simplify_eq; apply Hempty|].
  destruct (compileEnvironment d p) as [env eps].
  destruct p as [pol|]; [|intros; simplify_eq; apply Hempty].
  destruct (compileBlocks ns d pol env) as [|blocks bps] eqn:Hb; [done|].
  destruct (blocking _) eqn:Hq; intros; simplify_eq; [apply Hempty|].
  unfold compileBlocks in Hb. winv.
  match goal with H : compileBlockList _ _ _ _ _ = Log _ _ |- _ =>
    apply (compileBlockList_ok cap) in H as [Hn Hf]; [|by apply Hi] end.
  split_and!; [done|eapply Forall_impl; [exact Hf|by intros ? [? _]]|done|].
  quiet. destruct (Z.of_nat (decisionBuckets blocks) >? MaxDomainDecisionBuckets) eqn:E; [done|].
  bools. lia.
Qed.

Lemma compile_defined (ns d : string) (p : option Policy) :
  exists snap ps, Compile ns d p = Some (snap, ps).
Proof.
  unfold Compile. case_bool_decide as Hns; [eauto|].
  destruct (len d >? 63); simpl; [eauto|].
  destruct (domainName d) eqn:Hd; simpl; [|eauto].
  destruct (compileEnvironment d p) as [env eps]. destruct p as [pol|]; [|eauto].
  pose proof (compileBlocks_total ns d pol env Hns (domainName_nonempty d Hd)).
  destruct (compileBlocks ns d pol env); [done|]. destruct (blocking _); eauto.
Qed.

Lemma compile_refused_empty ns d p snap ps :
  Compile ns d p = Some (snap, ps) -> blocking ps = true -> s_Blocks snap = [].
Proof.
  unfold Compile. case_bool_decide; [by intros; simplify_eq|]. destruct (_ || _); [by intros; simplify_eq|].
  destruct (compileEnvironment d p) as [env eps]. destruct p as [pol|]; [|by intros; simplify_eq].
  destruct (compileBlocks ns d pol env); [done|]. destruct (blocking _) eqn:E; intros; simplify_eq; [done|congruence].
Qed.

(** Compilation always returns: whatever the policy, no call of the
    compiler reaches the key builder's panic on an empty namespace or
    domain. *)
Theorem compile_total (ns d : string) (p : option Policy) :
  exists snap ps, Compile ns d p = Some (snap, ps).
Proof. apply compile_defined. Qed.

(** C16: a generation is compiled whole or not at all. With a blocking problem
    the snapshot has no block; without one it has every block, rule, predicate
    and rate of the policy, in authored order, with the documented defaults
    resolved and every group baked in, and its worst-case decision is within
    the budget. *)
Theorem compile_whole_or_nothing (ns d : string) (p : Policy) (snap : Snapshot) (ps : list Problem) :
  Compile ns d (Some p) = Some (snap, ps) ->
  (blocking ps = true /\ s_Blocks snap = [] /\ s_DecisionBuckets snap = 0%nat) \/
  (blocking ps = false /\
   Forall2 (block_faithful (compileEnvironment d (Some p)).1) (p_Blocks p) (s_Blocks snap) /\
   s_DecisionBuckets snap = decisionBuckets (s_Blocks snap) /\
   Z.of_nat (s_DecisionBuckets snap) <= MaxDomainDecisionBuckets).
Proof.
  unfold Compile. case_bool_decide; [intros; simplify_eq; by left|].
  destruct (_ || _); [intros; simplify_eq; by left|].
  destruct (compileEnvironment d (Some p)) as [env eps].
  destruct (compileBlocks ns d p env) as [|blocks bps] eqn:Hb; [done|].
  destruct (blocking _) eqn:Hq; intros; simplify_eq; [by left|]. right.
  split; [done|]. unfold compileBlocks in Hb. winv. quiet.
  split_and!; [by eapply compileBlockList_quiet|done|].
  destruct (Z.of_nat (decisionBuckets blocks) >? MaxDomainDecisionBuckets) eqn:E; [done|].
  bools. lia.
Qed.

(** A policy with both modes, both algorithms, a group and a template. *)
Definition demo_policy : Policy :=
  mkPolicy "gateway.public"
    [mkKeyMapping "plan" "plan.tier" [] "" "" []]
    [mkGroup "partners" ["acme"; "umbrella"]]
    [mkMBlock "orders"
       [mkMRoute (mkPathMatch PathTemplate "/orders/{orderId}") ["GET"]
          (Some (mkRouteCost CostQueryParameter "limit" 0))]
       "" 
       [mkMRule "per-client" [mkMPredicate "sub" OperatorExists "" []] ["sub"]
          [mkMRate 2 Second 0 ""; mkMRate 100 (60 * Second) 0 "FixedWindow"] "" [];
        mkMRule "partners" [mkMPredicate "sub" OperatorInGroup "partners" []] []
          [mkMRate 10 Second 20 "GCRA"] "Shadow" []];
     mkMBlock "all" [] "FirstMatch"
       [mkMRule "total" [] [] [mkMRate 1000 Second 0 ""] "Enforce" []]].

Definition demo_snapshot : Snapshot :=
  match Compile "ns" "gateway.public" (Some demo_policy) with
  | Some (s, _) => s
  | None => mkSnapshot "" [] [] [] 0
  end.

Lemma compile_whole_or_nothing_witness :
  Compile "ns" "gateway.public" (Some demo_policy) = Some (demo_snapshot, []) /\
  Forall2 (block_faithful (compileEnvironment "gateway.public" (Some demo_policy)).1)
    (p_Blocks demo_policy) (s_Blocks demo_snapshot).
Proof.
  assert (Compile "ns" "gateway.public" (Some demo_policy) = Some (demo_snapshot, [])) as Hc
    by (vm_compute; reflexivity).
  split; [exact Hc|].
  destruct (compile_whole_or_nothing "ns" "gateway.public" demo_policy demo_snapshot [] Hc)
    as [[Hb _]|(_ & Hf & _)]; [discriminate Hb|exact Hf].
Defined.
