(* ===== verification/Match.v ===== *)
(** * engine/match: from a request to the buckets of its decision

    The target phase (paths, methods, templates, the cost read from the query
    string), the rule phase (predicates, modes, replaced rules) and the
    expansion into store buckets. The result of a match is a list of rules
    with one bucket per window. *)
From S2P Require Import Prelude GoStrings Algo Key StoreApi Model Compile.

(** ** Definitions *)

Record hit := mkHit {
  h_block : Block;
  h_pathAxis : string;
  h_captures : gmap string string;
  h_cost : Z }.

Record Candidates := mkCandidates { ca_method : string; ca_hits : list hit }.

(** *** The cost of a request *)

Definition hex_of (c : ascii) : option nat :=
  let n := nat_of_ascii c in
  if is_digit c then Some (n - 48)%nat
  else if char_between "a"%char "f"%char c then Some (n - 87)%nat
  else if char_between "A"%char "F"%char c then Some (n - 55)%nat
  else None.

(** [url.QueryUnescape]: [None] is its error. *)
Fixpoint QueryUnescape (s : string) : option string :=
  match s with
  | EmptyString => Some EmptyString
  | String "%" rest =>
      match rest with
      | String a (String b r) =>
          match hex_of a, hex_of b with
          | Some x, Some y => String (ascii_of_nat (x * 16 + y)) <$> QueryUnescape r
          | _, _ => None
          end
      | _ => None
      end
  | String "+" r => String " " <$> QueryUnescape r
  | String c r => String c <$> QueryUnescape r
  end.

Definition unescape (s : string) : string :=
  if negb (ContainsAny s "%+") then s else default "" (QueryUnescape s).

(** The loop of [positiveInteger]; [None] is its early return of 0. *)
Fixpoint positive_loop (s : string) (n : Z) : option Z :=
  match s with
  | EmptyString => Some n
  | String d s =>
      if is_digit d
      then positive_loop s (Z.min (n *i 10 +i (Z.of_nat (nat_of_ascii d) - 48)) (MaxCost + 1))
      else None
  end.

Definition positiveInteger (s : string) : Z :=
  if bool_decide (s = "") then 0
  else match positive_loop s 0 with
       | Some n => Z.min n MaxCost
       | None => 0
       end.

(** The loop of [queryCost]. Every turn consumes at least one byte, so as many
    turns as the query has bytes are enough. *)
Fixpoint query_loop (fuel : nat) (cost : Cost) (query : string) (found : bool) (largest : Z) : bool * Z :=
  match fuel with
  | O => (found, largest)
  | S fuel =>
      if bool_decide (query = "") then (found, largest)
      else
        let '(kv, query, _) := Cut "&" query in
        let '(name, value, _) := Cut "=" kv in
        if negb (bool_decide (unescape name = co_Parameter cost))
        then query_loop fuel cost query found largest
        else
          let occurrence := positiveInteger (unescape value) in
          let occurrence := if occurrence =? 0 then co_Default cost else occurrence in
          query_loop fuel cost query true (Z.max largest occurrence)
  end.

Definition queryCost (cost : Cost) (query : string) : Z :=
  let '(found, largest) := query_loop (String.length query) cost query false 0 in
  if negb found then co_Default cost else largest.

(** *** The target phase *)

(** A prefix on a segment boundary. [path[len(value)]] is in range where the
    source reads it. *)
Definition matchPrefix (value path : string) : bool :=
  if negb (HasPrefix path value) then false
  else (len path =? len value) || HasSuffix value "/"
       || bool_decide (String.get (String.length value) path = Some "/"%char).

Fixpoint template_loop (segments : list Segment) (parts : list string) (captures : gmap string string)
    : option (gmap string string) :=
  match segments, parts with
  | s :: segments, p :: parts =>
      if bool_decide (sg_Capture s = "") then
        if bool_decide (p = sg_Literal s) then template_loop segments parts captures else None
      else if bool_decide (p = "") then None
      else template_loop segments parts (<[sg_Capture s := p]> captures)
  | _, _ => Some captures
  end.

Definition matchTemplate (segments : list Segment) (path : string) : option (gmap string string) :=
  if negb (HasPrefix path "/") then None
  else
    let parts := Split "/" (drop_str 1 path) in
    if negb (length parts =? length segments)%nat then None
    else template_loop segments parts ∅.

Definition matchPath (route : Route) (path : string) : option (gmap string string) :=
  if bool_decide (rt_Type route = PathExact) then
    if bool_decide (path = rt_Value route) then Some ∅ else None
  else if bool_decide (rt_Type route = PathPrefix) then
    if matchPrefix (rt_Value route) path then Some ∅ else None
  else if bool_decide (rt_Type route = PathTemplate) then matchTemplate (rt_Segments route) path
  else None.

Definition method_admits (route : Route) (method : string) : bool :=
  bool_decide (rt_Methods route = ∅) || bool_decide (method ∈ rt_Methods route).

(** The first matching route, its path axis and captures. *)
Fixpoint match_routes (routes : list Route) (path method : string)
    : option (Route * string * gmap string string) :=
  match routes with
  | [] => None
  | route :: routes =>
      if negb (method_admits route method) then match_routes routes path method
      else
        match matchPath route path with
        | None => match_routes routes path method
        | Some captures =>
            if bool_decide (rt_Type route = PathTemplate)
            then Some (route, rt_Value route, captures)
            else Some (route, path, captures)
        end
  end.

(** A block without routes targets everything, with no route. *)
Definition matchTarget (block : Block) (path method : string)
    : option (option Route * string * gmap string string) :=
  match bl_Routes block with
  | [] => Some (None, path, ∅)
  | routes =>
      match match_routes routes path method with
      | Some (route, axis, captures) => Some (Some route, axis, captures)
      | None => None
      end
  end.

Definition match_block (block : Block) (path query method : string) : option hit :=
  match matchTarget block path method with
  | None => None
  | Some (route, axis, captures) =>
      let cost := match route with
                  | Some r => match rt_Cost r with Some c => queryCost c query | None => 0 end
                  | None => 0
                  end in
      Some (mkHit block axis captures cost)
  end.

Definition Match (snap : Snapshot) (path method : string) : Candidates :=
  let '(path, query, _) := Cut "?" path in
  mkCandidates method (omap (fun b => match_block b path query method) (s_Blocks snap)).

Definition Empty (c : Candidates) : bool := (length (ca_hits c) =? 0)%nat.

Definition Blocks (c : Candidates) : list Block := h_block <$> ca_hits c.

(** *** The rule phase *)

Record blockCtx := mkCtx {
  c_method : string;
  c_keys : gmap string (list string);
  c_pathAxis : string;
  c_captures : gmap string string;
  c_cost : Z }.

Definition valueOf (c : blockCtx) (k : string) : list string :=
  if bool_decide (k = KeyPath) then [c_pathAxis c]
  else if bool_decide (k = KeyMethod) then [c_method c]
  else match c_captures c !! k with
       | Some v => [v]
       | None => default [] (c_keys c !! k)
       end.

Definition predicateHolds (p : Predicate) (ctx : blockCtx) : bool :=
  let set := valueOf ctx (pr_Key p) in
  let op := pr_Operator p in
  if bool_decide (op = OperatorEquals) then
    match set with [v] => bool_decide (v = pr_Value p) | _ => false end
  else if bool_decide (op = OperatorIn) || bool_decide (op = OperatorInGroup) then
    existsb (fun v => bool_decide (v ∈ pr_Values p)) set
  else if bool_decide (op = OperatorContains) then bool_decide (pr_Value p ∈ set)
  else if bool_decide (op = OperatorExists) then (0 <? length set)%nat
  else if bool_decide (op = OperatorDoesNotExist) then (length set =? 0)%nat
  else false.

Definition ruleMatches (rule : Rule) (ctx : blockCtx) : bool :=
  forallb (fun p => predicateHolds p ctx) (ru_Matches rule)
  && forallb (fun axis => (length (valueOf ctx axis) =? 1)%nat) (ru_Counters rule).

Record MatchedRule := mkMatched {
  m_Block : string;
  m_Rule : string;
  m_Shadow : bool;
  m_Cost : Z;
  m_Buckets : list Bucket }.

(** The axis values: [valueOf(axis)[0]], in range for a rule that matches. *)
Definition rule_axes (rule : Rule) (ctx : blockCtx) : list string :=
  map (fun axis => default "" (head (valueOf ctx axis))) (ru_Counters rule).

Definition matchedRule (block : Block) (rule : Rule) (ctx : blockCtx) : MatchedRule :=
  let shadow := bool_decide (ru_Behavior rule = BehaviorShadow) in
  mkMatched (bl_Name block) (ru_Name rule) shadow (c_cost ctx)
    (map (fun rate => mkBucket (Key.Bucket (ra_Prefix rate) (rule_axes rule ctx))
                        (ID (ra_Algorithm rate)) (ra_Window rate) shadow (c_cost ctx))
         (ru_Rates rule)).

Fixpoint firstMatch_loop (block : Block) (rules : list Rule) (ctx : blockCtx) : list MatchedRule :=
  match rules with
  | [] => []
  | rule :: rules =>
      if negb (ruleMatches rule ctx) then firstMatch_loop block rules ctx
      else if bool_decide (ru_Behavior rule = BehaviorBypass) then []
      else matchedRule block rule ctx ::
             (if bool_decide (ru_Behavior rule = BehaviorShadow)
              then firstMatch_loop block rules ctx else [])
  end.

Definition evalFirstMatch (block : Block) (ctx : blockCtx) : list MatchedRule :=
  firstMatch_loop block (bl_Rules block) ctx.

(** The loop of [evalAll]: the matched rules and the suppressed names. *)
Fixpoint all_loop (block : Block) (rules : list Rule) (ctx : blockCtx) (suppressed : gset string)
    : list MatchedRule * gset string :=
  match rules with
  | [] => ([], suppressed)
  | rule :: rules =>
      if negb (ruleMatches rule ctx) then all_loop block rules ctx suppressed
      else
        let suppressed' :=
          if bool_decide (ru_Behavior rule = BehaviorShadow) then suppressed
          else list_to_set (ru_ReplacedRules rule) ∪ suppressed in
        let '(out, s) := all_loop block rules ctx suppressed' in
        (if bool_decide (ru_Behavior rule = BehaviorBypass) then out
         else matchedRule block rule ctx :: out, s)
  end.

Definition evalAll (block : Block) (ctx : blockCtx) : list MatchedRule :=
  let '(out, suppressed) := all_loop block (bl_Rules block) ctx ∅ in
  if bool_decide (suppressed = ∅) then out
  else filter (fun m => m_Rule m ∉ suppressed) out.

Definition evalBlock (block : Block) (ctx : blockCtx) : list MatchedRule :=
  if bool_decide (bl_Mode block = ModeFirstMatch) then evalFirstMatch block ctx
  else evalAll block ctx.

Definition hit_ctx (method : string) (keys : gmap string (list string)) (cost : Z) (h : hit) : blockCtx :=
  mkCtx method keys (h_pathAxis h) (h_captures h) (if h_cost h =? 0 then cost else h_cost h).

(** The matched rules of a request, in block and authored order. *)
Definition Evaluate (c : Candidates) (keys : gmap string (list string)) (cost : Z) : list MatchedRule :=
  concat (map (fun h => evalBlock (h_block h) (hit_ctx (ca_method c) keys cost h)) (ca_hits c)).

Definition Buckets (r : list MatchedRule) : list Bucket := concat (map m_Buckets r).

(** *** Introspection: the targets of a path under any method *)

Record Target := mkTarget {
  t_Block : Block;
  t_Captures : gmap string string;
  t_Undecided : list string }.

Definition Targets (c : Candidates) : list Target :=
  map (fun h => mkTarget (h_block h) (h_captures h) []) (ca_hits c).

(** The running state of [targetByPath]. *)
Record path_state := mkPS {
  ps_deciders : nat;
  ps_claimed : gset string;
  ps_values : gmap string string;
  ps_produced : gmap string nat;
  ps_conflict : gset string }.

(** One capture of a deciding route. *)
Definition note_capture (st : path_state) (nv : string * string) : path_state :=
  let '(name, value) := nv in
  mkPS (ps_deciders st) (ps_claimed st) (<[name := value]> (ps_values st))
    (<[name := S (default 0%nat (ps_produced st !! name))]> (ps_produced st))
    (match ps_values st !! name with
     | Some previous => if bool_decide (previous = value) then ps_conflict st
                        else {[name]} ∪ ps_conflict st
     | None => ps_conflict st
     end).

Fixpoint path_loop (routes : list Route) (path : string) (st : path_state) : path_state :=
  match routes with
  | [] => st
  | route :: routes =>
      match matchPath route path with
      | None => path_loop routes path st
      | Some captures =>
          if negb (bool_decide (rt_Methods route = ∅)) && bool_decide (rt_Methods route ⊆ ps_claimed st)
          then path_loop routes path st
          else
            let st1 := mkPS (S (ps_deciders st)) (rt_Methods route ∪ ps_claimed st)
                         (ps_values st) (ps_produced st) (ps_conflict st) in
            let st2 := foldl note_capture st1 (map_to_list captures) in
            if bool_decide (rt_Methods route = ∅) then st2 else path_loop routes path st2
      end
  end.

(** The verdict on the captures of the block, one name at a time. *)
Fixpoint decide_captures (names : list string) (st : path_state)
    : gmap string string * list string :=
  match names with
  | [] => (∅, [])
  | name :: names =>
      let '(caps, und) := decide_captures names st in
      let produced := default 0%nat (ps_produced st !! name) in
      if (produced =? ps_deciders st)%nat && negb (bool_decide (name ∈ ps_conflict st))
      then (<[name := default "" (ps_values st !! name)]> caps, und)
      else if (produced =? 0)%nat then (caps, und)
      else (caps, name :: und)
  end.

Definition targetByPath (block : Block) (path : string) : option Target :=
  match bl_Routes block with
  | [] => Some (mkTarget block ∅ [])
  | routes =>
      let st := path_loop routes path (mkPS 0 ∅ ∅ ∅ ∅) in
      if (ps_deciders st =? 0)%nat then None
      else let '(caps, und) := decide_captures (bl_Captures block) st in
           Some (mkTarget block caps und)
  end.

Definition TargetsByPath (snap : Snapshot) (path : string) : list Target :=
  let path := (Cut "?" path).1.1 in
  omap (fun b => targetByPath b path) (s_Blocks snap).

Definition BlocksByPath (snap : Snapshot) (path : string) : list Block :=
  t_Block <$> TargetsByPath snap path.
