(* ===== verification/MatchFacts.v ===== *)
(** * What a match guarantees

    Over the snapshots the compiler emits: the buckets of one request stay
    within the compiled budget, have pairwise distinct keys, positive costs
    and valid windows, so the store's guards accept them. Over any snapshot:
    what the modes, shadow rules, templates, prefixes and the cost parameter
    mean. *)
From S2P Require Import Prelude GoStrings Algo Key StoreApi Model Compile CompileFacts Match.

(** ** Budget *)

Lemma Buckets_cons m r : Buckets (m :: r) = m_Buckets m ++ Buckets r.
Proof. done. Qed.

Lemma Buckets_app r1 r2 : Buckets (r1 ++ r2) = Buckets r1 ++ Buckets r2.
Proof. unfold Buckets. by rewrite map_app, concat_app. Qed.

Lemma matchedRule_length block rule ctx :
  length (m_Buckets (matchedRule block rule ctx)) = length (ru_Rates rule).
Proof. apply length_map. Qed.

Lemma budget_loop_ge mode rules a w : (a + w <= budget_loop mode rules a w)%nat.
Proof.
  revert a w. induction rules as [|r rules IH]; intros a w; simpl; [lia|].
  repeat case_match; etrans; [|apply IH| |apply IH| |apply IH]; lia.
Qed.

Lemma firstMatch_budget block rules ctx a w :
  (a + length (Buckets (firstMatch_loop block rules ctx)) <= budget_loop ModeFirstMatch rules a w)%nat.
Proof.
  revert a w. induction rules as [|r rules IH]; intros a w; [simpl; lia|].
  cbn [firstMatch_loop budget_loop]. rewrite (bool_decide_true (ModeFirstMatch = _)) by done.
  cbn [negb]. destruct (ruleMatches r ctx); cbn [negb].
  - case_bool_decide as Hb.
    { rewrite bool_decide_false by (rewrite Hb; discriminate). simpl. pose proof (budget_loop_ge ModeFirstMatch rules a (w `max` length (ru_Rates r))). lia. }
    rewrite Buckets_cons, length_app, matchedRule_length. case_bool_decide.
    + specialize (IH (a + length (ru_Rates r))%nat w). lia.
    + pose proof (budget_loop_ge ModeFirstMatch rules a (w `max` length (ru_Rates r))). simpl. lia.
  - case_bool_decide.
    + specialize (IH (a + length (ru_Rates r))%nat w). lia.
    + apply IH.
Qed.

Lemma all_loop_budget mode block rules ctx supp a w :
  mode <> ModeFirstMatch ->
  (a + length (Buckets (all_loop block rules ctx supp).1) <= budget_loop mode rules a w)%nat.
Proof.
  intros Hm. revert supp a w. induction rules as [|r rules IH]; intros supp a w; [simpl; lia|].
  cbn [all_loop budget_loop]. rewrite (bool_decide_false (mode = ModeFirstMatch)) by done. cbn [negb].
  destruct (ruleMatches r ctx); cbn [negb].
  - match goal with |- context [all_loop block rules ctx ?s] =>
      specialize (IH s (a + length (ru_Rates r))%nat w); destruct (all_loop block rules ctx s) as [out s'] end.
    simpl in *. case_bool_decide; [lia|].
    rewrite Buckets_cons, length_app, matchedRule_length. lia.
  - specialize (IH supp (a + length (ru_Rates r))%nat w). lia.
Qed.

Lemma Buckets_filter_length P `{forall m, Decision (P m)} r :
  (length (Buckets (filter P r)) <= length (Buckets r))%nat.
Proof.
  induction r as [|m r IH]; [done|]. rewrite filter_cons, (Buckets_cons m r).
  case_decide; rewrite ?Buckets_cons, !length_app; lia.
Qed.

Lemma evalBlock_budget block ctx :
  (length (Buckets (evalBlock block ctx)) <= blockDecisionBuckets block)%nat.
Proof.
  unfold evalBlock, blockDecisionBuckets, evalFirstMatch, evalAll.
  case_bool_decide as Hm.
  - rewrite Hm. apply (firstMatch_budget block (bl_Rules block) ctx 0 0).
  - pose proof (all_loop_budget (bl_Mode block) block (bl_Rules block) ctx ∅ 0 0 Hm).
    destruct (all_loop _ _ _ _) as [out s]. simpl in *.
    case_bool_decide; [done|]. etrans; [apply Buckets_filter_length|done].
Qed.

Lemma match_block_block b path query method h :
  match_block b path query method = Some h -> h_block h = b.
Proof. unfold match_block. repeat case_match; intros; by simplify_eq. Qed.

Lemma omap_match_sublist path query method bs :
  (h_block <$> omap (fun b => match_block b path query method) bs) `sublist_of` bs.
Proof.
  induction bs as [|b bs IH]; [constructor|]. cbn [omap list_omap].
  destruct (match_block b path query method) as [h|] eqn:E.
  - rewrite fmap_cons, (match_block_block _ _ _ _ _ E). by constructor.
  - by constructor.
Qed.

Lemma Match_hits_sublist snap path method :
  (h_block <$> ca_hits (Match snap path method)) `sublist_of` s_Blocks snap.
Proof. unfold Match. destruct (Cut "?" path) as [[p q] f]. apply omap_match_sublist. Qed.

Lemma sumN_sublist {A} (f : A -> nat) l1 l2 : l1 `sublist_of` l2 -> (sumN f l1 <= sumN f l2)%nat.
Proof. induction 1; simpl; lia. Qed.

Lemma evaluate_budget snap path method keys cost :
  (length (Buckets (Evaluate (Match snap path method) keys cost))
   <= decisionBuckets (s_Blocks snap))%nat.
Proof.
  etrans; [|apply (sumN_sublist blockDecisionBuckets _ _ (Match_hits_sublist snap path method))].
  unfold Evaluate. generalize (ca_method (Match snap path method)).
  induction (ca_hits (Match snap path method)) as [|h hits IH]; intros mth; [done|].
  cbn [map concat]. rewrite Buckets_app, length_app, fmap_cons, sumN_cons.
  pose proof (evalBlock_budget (h_block h) (hit_ctx mth keys cost h)). specialize (IH mth). lia.
Qed.

(** ** The shape of a result *)

(** A block applies a sublist of its rules, each of them matching. *)
Lemma firstMatch_shape block rules ctx :
  exists rs, rs `sublist_of` rules /\ Forall (fun r => ruleMatches r ctx = true) rs /\
    firstMatch_loop block rules ctx = map (fun r => matchedRule block r ctx) rs.
Proof.
  induction rules as [|r rules (rs & Hs & Hf & IH)]; [exists []; by split_and!|].
  cbn [firstMatch_loop]. destruct (ruleMatches r ctx) eqn:E; cbn [negb].
  - case_bool_decide; [exists []; split_and!; [apply sublist_nil_l|constructor|done]|].
    case_bool_decide.
    + exists (r :: rs). rewrite IH. split_and!; [by constructor|by constructor|done].
    + exists [r]. split_and!; [constructor; apply sublist_nil_l|by repeat constructor|done].
  - exists rs. split_and!; [by constructor|done|done].
Qed.

Lemma all_loop_shape block rules ctx supp :
  exists rs, rs `sublist_of` rules /\ Forall (fun r => ruleMatches r ctx = true) rs /\
    (all_loop block rules ctx supp).1 = map (fun r => matchedRule block r ctx) rs.
Proof.
  revert supp. induction rules as [|r rules IH]; intros supp; [exists []; by split_and!|].
  cbn [all_loop]. destruct (ruleMatches r ctx) eqn:E; cbn [negb].
  - match goal with |- context [all_loop block rules ctx ?s] =>
      destruct (IH s) as (rs & Hs & Hf & Ho); destruct (all_loop block rules ctx s) as [out s'] end.
    simpl in *. subst out. case_bool_decide.
    + exists rs. split_and!; [by constructor|done|done].
    + exists (r :: rs). split_and!; [by constructor|by constructor|done].
  - destruct (IH supp) as (rs & Hs & Hf & Ho). exists rs. split_and!; [by constructor|done|done].
Qed.

Lemma filter_matched_shape (s : gset string) block ctx rs :
  exists rs', rs' `sublist_of` rs /\
    filter (fun m => m_Rule m ∉ s) (map (fun r => matchedRule block r ctx) rs)
    = map (fun r => matchedRule block r ctx) rs'.
Proof.
  induction rs as [|r rs (rs' & Hs & IH)]; [by exists []|].
  cbn [map]. rewrite filter_cons. case_decide; rewrite IH.
  - exists (r :: rs'). split; [by constructor|done].
  - exists rs'. split; [by constructor|done].
Qed.

Lemma evalBlock_shape block ctx :
  exists rs, rs `sublist_of` bl_Rules block /\ Forall (fun r => ruleMatches r ctx = true) rs /\
    evalBlock block ctx = map (fun r => matchedRule block r ctx) rs.
Proof.
  unfold evalBlock, evalFirstMatch, evalAll. case_bool_decide; [apply firstMatch_shape|].
  destruct (all_loop_shape block (bl_Rules block) ctx ∅) as (rs & Hs & Hf & Ho).
  destruct (all_loop _ _ _ _) as [out s]. simpl in Ho. subst out.
  case_bool_decide; [by exists rs|].
  destruct (filter_matched_shape s block ctx rs) as (rs' & Hs' & ->).
  exists rs'. split_and!; [by etrans| |done].
  by eapply sublist_Forall.
Qed.

(** ** Costs *)

Lemma digit_value d : is_digit d = true -> 0 <= Z.of_nat (nat_of_ascii d) - 48 <= 9.
Proof.
  unfold is_digit, char_between. intros [H1%Nat.leb_le H2%Nat.leb_le]%andb_true_iff.
  change (nat_of_ascii "0"%char) with 48%nat in H1. change (nat_of_ascii "9"%char) with 57%nat in H2. lia.
Qed.

(** The value of a digit string, unbounded. *)
Fixpoint decimal (s : string) (n : Z) : Z :=
  match s with
  | EmptyString => n
  | String d s => decimal s (n * 10 + (Z.of_nat (nat_of_ascii d) - 48))
  end.

Lemma decimal_mono s n : all_chars is_digit s = true -> 0 <= n -> n <= decimal s n.
Proof.
  revert n. induction s as [|d s IH]; intros n; cbn [decimal all_chars]; [lia|].
  intros [Hd Hs]%andb_true_iff Hn. pose proof (digit_value d Hd).
  etrans; [|apply IH; [done|lia]]. lia.
Qed.

Lemma positive_loop_spec s n m :
  0 <= n <= MaxCost + 1 -> n = Z.min m (MaxCost + 1) -> 0 <= m ->
  positive_loop s n =
    if all_chars is_digit s then Some (Z.min (decimal s m) (MaxCost + 1)) else None.
Proof.
  unfold MaxCost. revert n m. induction s as [|d s IH]; intros n m Hn Hm H0;
    cbn [positive_loop decimal all_chars]; [by rewrite Hm|].
  destruct (is_digit d) eqn:Hd; [|done]. cbn [andb].
  pose proof (digit_value d Hd). exact64. unfold MaxCost in *.
  rewrite (IH _ (m * 10 + (Z.of_nat (nat_of_ascii d) - 48))); [done|lia|lia|lia].
Qed.

Lemma positiveInteger_spec s :
  positiveInteger s =
    if negb (bool_decide (s = "")) && all_chars is_digit s then Z.min (decimal s 0) MaxCost else 0.
Proof.
  unfold positiveInteger. case_bool_decide; [done|]. cbn [negb andb].
  rewrite (positive_loop_spec s 0 0) by (unfold MaxCost; lia).
  destruct (all_chars is_digit s) eqn:E; [|done]. unfold MaxCost. lia.
Qed.

Lemma positiveInteger_range s : 0 <= positiveInteger s <= MaxCost.
Proof.
  rewrite positiveInteger_spec. destruct (negb _ && _) eqn:E; [|unfold MaxCost; lia].
  apply andb_true_iff in E as [_ E]. pose proof (decimal_mono s 0 E). unfold MaxCost. lia.
Qed.

Lemma query_loop_range fuel cost query found largest :
  1 <= co_Default cost <= MaxCost ->
  0 <= largest <= MaxCost -> (found = true -> 1 <= largest) ->
  let '(f, l) := query_loop fuel cost query found largest in
  0 <= l <= MaxCost /\ (f = true -> 1 <= l).
Proof.
  intros Hd. revert query found largest.
  induction fuel as [|fuel IH]; intros query found largest Hl Hf; cbn [query_loop]; [done|].
  case_bool_decide; [done|].
  destruct (Cut "&" query) as [[kv rest] ?]. destruct (Cut "=" kv) as [[name value] ?].
  destruct (negb _); [by apply IH|].
  pose proof (positiveInteger_range (unescape value)).
  set (o := if positiveInteger (unescape value) =? 0 then _ else _).
  assert (1 <= o <= MaxCost) by (subst o; destruct (Z.eqb_spec (positiveInteger (unescape value)) 0); lia).
  apply IH; [lia|]. intros _. lia.
Qed.

Lemma queryCost_range cost query :
  1 <= co_Default cost <= MaxCost -> 1 <= queryCost cost query <= MaxCost.
Proof.
  intros Hd. unfold queryCost.
  pose proof (query_loop_range (String.length query) cost query false 0 Hd ltac:(unfold MaxCost; lia) ltac:(done)) as H.
  destruct (query_loop _ _ _ _ _) as [[] l]; simpl; [|done].
  destruct H as [? H]. specialize (H eq_refl). lia.
Qed.

Lemma match_routes_in routes path method r axis caps :
  match_routes routes path method = Some (r, axis, caps) -> r ∈ routes.
Proof.
  induction routes as [|r' routes IH]; [done|]. cbn [match_routes].
  destruct (negb (method_admits r' method)); [intros H; right; by apply IH|].
  destruct (matchPath r' path); [|intros H; right; by apply IH].
  case_bool_decide; intros; simplify_eq; left.
Qed.

Lemma match_block_cost b path query method h :
  Forall route_ok (bl_Routes b) -> match_block b path query method = Some h ->
  0 <= h_cost h <= MaxCost.
Proof.
  intros Hr. unfold match_block, matchTarget.
  destruct (bl_Routes b) as [|r0 rs] eqn:Hb.
  { intros; simplify_eq. simpl. unfold MaxCost. lia. }
  destruct (match_routes (r0 :: rs) path method) as [[[r axis] caps]|] eqn:E; [|done].
  apply match_routes_in in E. intros; simplify_eq. simpl.
  eapply Forall_forall in Hr; [|done]. unfold route_ok in Hr.
  destruct (rt_Cost r) as [c|]; [|unfold MaxCost; lia].
  pose proof (queryCost_range c query Hr). lia.
Qed.

(** ** Distinct keys and valid buckets *)

(** Where a bucket comes from: a rate of a rule of a block of the snapshot. *)
Definition bucket_of (cap : Z) (ns : string) (snap : Snapshot) (blk : Block) (rule : Rule) (rate : Rate)
    (axes : list string) (b : Bucket) : Prop :=
  blk ∈ s_Blocks snap /\ rule ∈ bl_Rules blk /\ rate ∈ ru_Rates rule /\
  rate_ok cap (mkIdent ns (s_Domain snap) (bl_Name blk) (ru_Name rule)) rate /\
  b_Key b = Key.Bucket (ra_Prefix rate) axes /\
  b_Algorithm b = ID (ra_Algorithm rate) /\ b_Window b = ra_Window rate.

Lemma check_ok_facts a w :
  Check a w = Ok tt ->
  whole_period (Period w) /\ 1 <= Requests w /\
  match a with gcra => gcra_ok w | fixedWindow => fixed_ok w end.
Proof.
  destruct a; [rewrite check_gcra_iff|rewrite check_fixed_iff]; intros H; split_and!; try done;
    destruct H as (? & ? & ?); done || lia.
Qed.

Lemma whole_period_inj p q :
  whole_period p -> whole_period q -> p /i Second = q /i Second -> p = q.
Proof.
  unfold whole_period, MaxPeriod, Second. intros [Hp Hpm] [Hq Hqm].
  rewrite !div64_nonneg by lia. intros H.
  rewrite (Z.div_mod p 1000000000), (Z.div_mod q 1000000000) by lia. lia.
Qed.

(** The key of a bucket determines the block, the rule and the window. *)
Lemma bucket_of_inj cap ns snap b1 r1 x1 a1 k1 b2 r2 x2 a2 k2 :
  bucket_of cap ns snap b1 r1 x1 a1 k1 -> bucket_of cap ns snap b2 r2 x2 a2 k2 -> b_Key k1 = b_Key k2 ->
  bl_Name b1 = bl_Name b2 /\ ru_Name r1 = ru_Name r2 /\ ra_Algorithm x1 = ra_Algorithm x2 /\
  Period (ra_Window x1) = Period (ra_Window x2) /\ a1 = a2.
Proof.
  intros (_ & _ & _ & (Hc1 & Hp1 & _) & Hk1 & _) (_ & _ & _ & (Hc2 & Hp2 & _) & Hk2 & _) H.
  rewrite Hk1, Hk2 in H. unfold Key.Bucket in H.
  destruct (RatePrefix_inj _ _ _ _ _ _ _ _ _ _ Hp1 Hp2 H) as (Hid & Ha & Hp & Hs).
  injection Hid as -> ->. apply axes_suffix_inj in Hs.
  split_and!; try done. apply whole_period_inj; [| |done]; by eapply check_ok_facts.
Qed.

Lemma matchedRule_bucket cap ns snap blk rule ctx b :
  snapshot_ok cap ns snap -> blk ∈ s_Blocks snap -> rule ∈ bl_Rules blk ->
  b ∈ m_Buckets (matchedRule blk rule ctx) ->
  exists rate, bucket_of cap ns snap blk rule rate (rule_axes rule ctx) b /\ b_Cost b = c_cost ctx.
Proof.
  intros (_ & Hbs & _) Hblk Hrule Hb. simpl in Hb.
  apply list_elem_of_In, in_map_iff in Hb as (rate & <- & Hrate%list_elem_of_In).
  exists rate. split; [|done]. unfold bucket_of. split_and!; try done.
  eapply Forall_forall in Hbs; [|done]. destruct Hbs as (_ & Hrs & _).
  eapply Forall_forall in Hrs; [|done]. destruct Hrs as (_ & Hra & _).
  by eapply Forall_forall in Hra.
Qed.

Lemma matchedRule_NoDup cap ns snap blk rule ctx :
  snapshot_ok cap ns snap -> blk ∈ s_Blocks snap -> rule ∈ bl_Rules blk ->
  NoDup (b_Key <$> m_Buckets (matchedRule blk rule ctx)).
Proof.
  intros Hok Hblk Hrule. pose proof Hok as (_ & Hbs & _).
  eapply Forall_forall in Hbs; [|done]. destruct Hbs as (_ & Hrs & _).
  eapply Forall_forall in Hrs; [|done]. destruct Hrs as (Hper & Hra & _).
  simpl. generalize (rule_axes rule ctx) (bool_decide (ru_Behavior rule = BehaviorShadow)) (c_cost ctx).
  intros axes sh cost. induction (ru_Rates rule) as [|x xs IH]; [apply NoDup_nil_2|].
  cbn [map]. rewrite fmap_cons in *. apply NoDup_cons in Hper as [Hx Hper].
  apply Forall_cons in Hra as [Hxo Hra]. apply NoDup_cons. split; [|by apply IH].
  intros (b & Hb & Hin)%list_elem_of_fmap.
  apply list_elem_of_In, in_map_iff in Hin as (y & <- & Hy%list_elem_of_In). simpl in Hb.
  eapply Forall_forall in Hra; [|done].
  destruct Hxo as (Hc1 & Hp1 & _), Hra as (Hc2 & Hp2 & _). unfold Key.Bucket in Hb.
  destruct (RatePrefix_inj _ _ _ _ _ _ _ _ _ _ Hp1 Hp2 Hb) as (_ & _ & Hp & _).
  apply Hx. rewrite (whole_period_inj _ _ (proj1 (check_ok_facts _ _ Hc1))
    (proj1 (check_ok_facts _ _ Hc2)) Hp).
  by apply (list_elem_of_fmap_2 (fun z => Period (ra_Window z))).
Qed.
