(* ===== verification/MatchKeys.v ===== *)
(** * The buckets of a request, as the store sees them

    A counter key carries the algorithm and the period of its window, so the
    kind of a counter is a function of its key alone, the same for every
    snapshot, domain and generation. The buckets a request matches in a
    compiled snapshot are of their keys' kinds, have pairwise distinct keys
    and pass the store's guards. *)
From S2P Require Import Prelude GoStrings Algo Key StoreApi Model Compile CompileFacts Match MatchFacts.

(** ** Definitions *)

(** What a key stands for, read off the key: the algorithm and the period
    segments. *)
Definition key_kind (k : string) : Kind :=
  match Split ":" k with
  | _ :: _ :: _ :: _ :: a :: secs :: _ =>
      mkKind (if bool_decide (a = "gcra") then gcra else fixedWindow) (decimal secs 0 * Second)
  | _ => mkKind gcra 0
  end.

(** ** Reading a key back *)

Lemma pretty_N_char_value x : (x < 10)%N -> Z.of_nat (nat_of_ascii (pretty_N_char x)) - 48 = Z.of_N x.
Proof.
  intros. assert (x = 0 \/ x = 1 \/ x = 2 \/ x = 3 \/ x = 4 \/ x = 5 \/ x = 6 \/ x = 7 \/ x = 8 \/ x = 9)%N
    as Hx by lia. by destruct_or! Hx; subst.
Qed.

Lemma decimal_pretty_N_go x s : decimal (pretty_N_go x s) 0 = decimal s (Z.of_N x).
Proof.
  revert s. induction (N.lt_wf_0 x) as [x _ IH]; intros s.
  destruct (decide (x = 0)%N) as [->|]; [done|].
  rewrite pretty_N_go_step by lia. rewrite IH by (apply N.div_lt; lia).
  cbn [decimal]. f_equal. rewrite pretty_N_char_value by (apply N.mod_lt; lia).
  rewrite (N.div_mod x 10) at 3 by lia. lia.
Qed.

Lemma decimal_pretty (z : Z) : 0 <= z -> decimal (pretty z) 0 = z.
Proof.
  unfold pretty, pretty_Z, pretty_positive, pretty, pretty_N. destruct z as [|p|p]; [done| |lia].
  intros _. case_decide; [done|]. apply decimal_pretty_N_go.
Qed.

Lemma whole_period_seconds p : whole_period p -> p /i Second * Second = p /\ 0 <= p /i Second.
Proof.
  unfold whole_period, MaxPeriod, Second. intros [Hp Hm]. rewrite div64_nonneg by lia.
  pose proof (Z.div_mod p 1000000000). pose proof (Z.div_pos p 1000000000). lia.
Qed.

Lemma key_kind_bucket id a w p axes :
  RatePrefix id a w = Some p -> whole_period (Period w) ->
  key_kind (Key.Bucket p axes) = mkKind a (Period w).
Proof.
  intros Hp Hw. apply RatePrefix_split in Hp as (rp & Hr & ->).
  apply RulePrefix_split in Hr as (dp & Hd & ->).
  unfold DomainPrefix, DomainTag in Hd.
  destruct (_ || _); simplify_eq/=. unfold Key.Bucket, rule_tail, rate_tail, key_kind.
  pose proof (escape_clean (IdNamespace id)) as (Hn & _).
  pose proof (escape_clean (IdDomain id)) as (Hdm & _).
  pose proof (escape_clean (IdBlock id)) as (Hb & _).
  pose proof (escape_clean (IdRule id)) as (Hru & _).
  pose proof (whole_period_seconds _ Hw) as [Hs Hs0].
  set (n := escape (IdNamespace id)) in *. set (d := escape (IdDomain id)) in *.
  set (b := escape (IdBlock id)) in *. set (r := escape (IdRule id)) in *.
  set (secs := pretty (Period w /i Second)).
  set (x := axes_suffix axes). set (sep := String ":"%char).
  replace (_ +:+ x) with
    ("rl" +:+ sep ("v1" +:+ sep (("{" +:+ n +:+ "/" +:+ d +:+ "}") +:+ sep
      ((b +:+ "/" +:+ r) +:+ sep (ToLowerASCII (Name a) +:+ sep (secs +:+ sep x))))))
    by (unfold sep; simpl; rewrite !app_str_assoc; simpl; rewrite ?app_str_assoc; done).
  unfold sep.
  rewrite (Split_app_sep _ "rl"), (Split_app_sep _ "v1") by done.
  rewrite Split_app_sep by (rewrite !contains_char_app, Hn, Hdm; done).
  rewrite Split_app_sep by (rewrite !contains_char_app, Hb, Hru; done).
  rewrite Split_app_sep by apply algorithm_name_no_colon.
  rewrite Split_app_sep by apply pretty_Z_no_colon.
  subst secs. rewrite decimal_pretty, Hs by done. by destruct a.
Qed.

(** ** Distinct keys *)

Section request.
Context (cap : Z) (ns : string) (snap : Snapshot) (Hok : snapshot_ok cap ns snap).

Lemma evalBlock_origin blk ctx b :
  blk ∈ s_Blocks snap -> b ∈ Buckets (evalBlock blk ctx) ->
  exists rule rate, bucket_of cap ns snap blk rule rate (rule_axes rule ctx) b /\ b_Cost b = c_cost ctx.
Proof.
  intros Hblk Hb. destruct (evalBlock_shape blk ctx) as (rs & Hs & _ & He).
  rewrite He in Hb. unfold Buckets in Hb. rewrite map_map in Hb.
  apply elem_of_concat_map in Hb as (r & Hr & Hb).
  destruct (matchedRule_bucket cap ns snap blk r ctx b Hok Hblk) as (rate & ? & ?); [|done|eauto].
  by eapply elem_of_sublist.
Qed.

Lemma fmap_concat_map {X A B} (g : A -> B) (f : X -> list A) xs :
  g <$> concat (map f xs) = concat (map (fun x => g <$> f x) xs).
Proof. induction xs as [|x xs IH]; [done|]. cbn [map concat]. by rewrite fmap_app, IH. Qed.

Lemma evalBlock_NoDup blk ctx :
  blk ∈ s_Blocks snap -> NoDup (b_Key <$> Buckets (evalBlock blk ctx)).
Proof.
  intros Hblk. destruct (evalBlock_shape blk ctx) as (rs & Hs & _ & He).
  rewrite He. unfold Buckets. rewrite map_map, fmap_concat_map.
  assert (forall r, r ∈ rs -> r ∈ bl_Rules blk) as Hin by (intros; by eapply elem_of_sublist).
  apply (NoDup_concat_tagged _ ru_Name).
  - eapply sublist_fmap_NoDup; [done|]. pose proof Hok as (_ & Hbs & _).
    eapply Forall_forall in Hbs; [|done]. by destruct Hbs.
  - intros r Hr. apply (matchedRule_NoDup cap ns snap); auto.
  - intros r1 r2 k H1 H2 (b1 & -> & Hb1)%list_elem_of_fmap (b2 & Hk & Hb2)%list_elem_of_fmap.
    destruct (matchedRule_bucket cap ns snap blk r1 ctx b1 Hok Hblk) as (x1 & Ho1 & _); auto.
    destruct (matchedRule_bucket cap ns snap blk r2 ctx b2 Hok Hblk) as (x2 & Ho2 & _); auto.
    by destruct (bucket_of_inj cap ns snap _ _ _ _ _ _ _ _ _ _ Ho1 Ho2 Hk) as (_ & ? & _).
Qed.

Lemma hit_in_snapshot path method h :
  h ∈ ca_hits (Match snap path method) -> h_block h ∈ s_Blocks snap.
Proof.
  intros Hh. eapply elem_of_sublist; [|apply (Match_hits_sublist snap path method)].
  by apply list_elem_of_fmap_2.
Qed.

Lemma evaluate_origin path method keys cost b :
  b ∈ Buckets (Evaluate (Match snap path method) keys cost) ->
  exists h rule rate ctx, h ∈ ca_hits (Match snap path method) /\
    ctx = hit_ctx (ca_method (Match snap path method)) keys cost h /\
    bucket_of cap ns snap (h_block h) rule rate (rule_axes rule ctx) b /\ b_Cost b = c_cost ctx.
Proof.
  unfold Evaluate, Buckets at 1. intros Hb.
  apply elem_of_concat_map in Hb as (m & Hm & Hb).
  apply elem_of_concat_map in Hm as (h & Hh & Hm).
  destruct (evalBlock_origin (h_block h) (hit_ctx (ca_method (Match snap path method)) keys cost h) b)
    as (rule & rate & ? & ?).
  - by eapply hit_in_snapshot.
  - apply elem_of_concat_map. eauto.
  - eauto 10.
Qed.

Lemma Buckets_concat_map {X} (f : X -> list MatchedRule) xs :
  Buckets (concat (map f xs)) = concat (map (fun x => Buckets (f x)) xs).
Proof. induction xs as [|x xs IH]; [done|]. cbn [map concat]. by rewrite Buckets_app, IH. Qed.

Lemma evaluate_NoDup path method keys cost :
  NoDup (b_Key <$> Buckets (Evaluate (Match snap path method) keys cost)).
Proof.
  unfold Evaluate. rewrite Buckets_concat_map, fmap_concat_map.
  apply (NoDup_concat_tagged _ (fun h => bl_Name (h_block h))).
  - rewrite (list_fmap_compose h_block bl_Name).
    eapply sublist_fmap_NoDup; [apply Match_hits_sublist|]. apply Hok.
  - intros h Hh. apply evalBlock_NoDup. by eapply hit_in_snapshot.
  - intros h1 h2 k H1 H2 (b1 & -> & Hb1)%list_elem_of_fmap (b2 & Hk & Hb2)%list_elem_of_fmap.
    apply evalBlock_origin in Hb1 as (r1 & x1 & Ho1 & _); [|by eapply hit_in_snapshot].
    apply evalBlock_origin in Hb2 as (r2 & x2 & Ho2 & _); [|by eapply hit_in_snapshot].
    by destruct (bucket_of_inj cap ns snap _ _ _ _ _ _ _ _ _ _ Ho1 Ho2 Hk) as (? & _).
Qed.

(** ** Valid buckets *)

Lemma hit_cost path method h :
  h ∈ ca_hits (Match snap path method) -> 0 <= h_cost h <= MaxCost.
Proof.
  unfold Match. destruct (Cut "?" path) as [[p q] f]. cbn [ca_hits]. intros Hh.
  apply list_elem_of_omap in Hh as (b & Hb & Hm).
  eapply match_block_cost; [|done]. pose proof Hok as (_ & Hbs & _).
  eapply Forall_forall in Hbs; [|done]. by destruct Hbs as (_ & _ & ?).
Qed.

Lemma evaluate_bucket_ok path method keys cost :
  1 <= cost <= max_i64 ->
  Forall (bucket_ok cap key_kind) (Buckets (Evaluate (Match snap path method) keys cost)).
Proof.
  intros Hc. apply Forall_forall. intros b Hb.
  apply evaluate_origin in Hb as (h & rule & rate & ctx & Hh & -> & Ho & Hcost).
  destruct Ho as (_ & _ & _ & (Hck & Hp & Hr) & Hk & Ha & Hw).
  pose proof (check_ok_facts _ _ Hck) as (Hper & _ & Hal).
  unfold bucket_ok. rewrite Hk, (key_kind_bucket _ _ _ _ _ Hp Hper), Ha, Hw. simpl.
  split_and!; try done.
  - rewrite Hcost. simpl. pose proof (hit_cost _ _ _ Hh).
    destruct (Z.eqb_spec (h_cost h) 0); lia.
  - rewrite Hcost. simpl. pose proof (hit_cost _ _ _ Hh). unfold max_i64, MaxCost in *.
    destruct (Z.eqb_spec (h_cost h) 0); lia.
  - by destruct (ra_Algorithm rate).
Qed.

Lemma bucket_ok_guard kind b :
  bucket_ok cap kind b -> 1 <= b_Cost b /\ 1 <= Requests (b_Window b) /\ Microsecond <= Period (b_Window b).
Proof.
  unfold bucket_ok, gcra_ok, fixed_ok, whole_period, Microsecond, Second.
  destruct (k_alg (kind (b_Key b))); lia.
Qed.

Lemma evaluate_guard path method keys cost :
  1 <= cost <= max_i64 ->
  GuardBuckets (Buckets (Evaluate (Match snap path method) keys cost)) = Ok tt.
Proof.
  intros Hc. apply GuardBuckets_ok. split; [apply evaluate_NoDup|].
  eapply Forall_impl; [by apply evaluate_bucket_ok|]. apply bucket_ok_guard.
Qed.

End request.

(** ** Claims *)

(** C17: whatever the request, the buckets it matches in a snapshot the compiler
    emitted fit the compiled budget, which is at most 128, are valid windows of
    the kinds their keys name, have pairwise distinct keys, and pass the
    store's guards: a decision is never refused for its shape. *)
Theorem compiled_request_buckets (cap : Z) (ns d : string) (p : Policy) (snap : Snapshot) (ps : list Problem)
    (path method : string) (keys : gmap string (list string)) (cost : Z) :
  policy_within cap p -> Compile ns d (Some p) = Some (snap, ps) -> 1 <= cost <= max_i64 ->
  let buckets := Buckets (Evaluate (Match snap path method) keys cost) in
  (length buckets <= s_DecisionBuckets snap)%nat /\
  Z.of_nat (s_DecisionBuckets snap) <= MaxDomainDecisionBuckets /\
  GuardBuckets buckets = Ok tt /\ Forall (bucket_ok cap key_kind) buckets.
Proof.
  intros Hp Hc Hcost buckets.
  assert (snapshot_ok cap ns snap) as Hok by (eapply compile_snapshot_ok; [|done]; by intros ? [= <-]).
  pose proof Hok as (_ & _ & Hb & Hmax). rewrite Hb. split_and!.
  - apply evaluate_budget.
  - by rewrite <- Hb.
  - by apply (evaluate_guard cap ns).
  - by apply (evaluate_bucket_ok cap ns).
Qed.

Definition demo_keys : gmap string (list string) := {["sub" := ["alice"]]}.

Lemma compiled_request_buckets_witness :
  Buckets (Evaluate (Match demo_snapshot "/orders/42?limit=5" "GET") demo_keys 1) <> [] /\
  GuardBuckets (Buckets (Evaluate (Match demo_snapshot "/orders/42?limit=5" "GET") demo_keys 1)) = Ok tt.
Proof.
  split; [vm_compute; discriminate|].
  apply (compiled_request_buckets max_i64 "ns" "gateway.public" demo_policy demo_snapshot []
    "/orders/42?limit=5" "GET" demo_keys 1).
  - repeat constructor; vm_compute; discriminate.
  - vm_compute. reflexivity.
  - unfold max_i64. lia.
Defined.

(** C18: a counter key determines everything it was built from: buckets of two
    windows with the same key have the same namespace, domain, block, rule,
    algorithm, period and axis values, so counters of different identities are
    never shared, whatever characters the values contain. *)
Theorem bucket_key_injective (id1 id2 : Ident) (a1 a2 : Algorithm) (w1 w2 : Window)
    (p1 p2 : string) (x1 x2 : list string) :
  Check a1 w1 = Ok tt -> Check a2 w2 = Ok tt ->
  RatePrefix id1 a1 w1 = Some p1 -> RatePrefix id2 a2 w2 = Some p2 ->
  Key.Bucket p1 x1 = Key.Bucket p2 x2 ->
  id1 = id2 /\ a1 = a2 /\ Period w1 = Period w2 /\ x1 = x2.
Proof.
  intros Hc1 Hc2 Hp1 Hp2 H. unfold Key.Bucket in H.
  destruct (RatePrefix_inj _ _ _ _ _ _ _ _ _ _ Hp1 Hp2 H) as (-> & -> & Hp & Hs).
  apply axes_suffix_inj in Hs. split_and!; try done.
  apply whole_period_inj; [| |done]; by eapply check_ok_facts.
Qed.

Lemma bucket_key_injective_witness :
  RatePrefix (mkIdent "ns" "d" "b" "r:1") gcra (mkWindow 2 Second 2)
    = Some "rl:v1:{ns/d}:b/r%3A1:gcra:1:" /\
  Key.Bucket "rl:v1:{ns/d}:b/r%3A1:gcra:1:" ["a:b"; "c"] = "rl:v1:{ns/d}:b/r%3A1:gcra:1:a%3Ab:c:" /\
  ["a:b"; "c"] = ["a:b"; "c"].
Proof.
  split_and!; [vm_compute; reflexivity|vm_compute; reflexivity|].
  apply (bucket_key_injective (mkIdent "ns" "d" "b" "r:1") (mkIdent "ns" "d" "b" "r:1") gcra gcra
    (mkWindow 2 Second 2) (mkWindow 2 Second 2)
    "rl:v1:{ns/d}:b/r%3A1:gcra:1:" "rl:v1:{ns/d}:b/r%3A1:gcra:1:");
    vm_compute; reflexivity.
Defined.

(** A rule prefix selects exactly the counters of its rule, a domain prefix
    exactly those of its domain: a bucket key starts with the prefix precisely
    when the identity it was built from is the prefix's. *)
Theorem prefix_selects_rule (id id' : Ident) (a : Algorithm) (w : Window) (p rp dp : string)
    (axes : list string) :
  RatePrefix id a w = Some p -> RulePrefix id' = Some rp ->
  DomainPrefix (IdNamespace id') (IdDomain id') = Some dp ->
  (HasPrefix (Key.Bucket p axes) rp = true <-> id = id') /\
  (HasPrefix (Key.Bucket p axes) dp = true <->
     IdNamespace id = IdNamespace id' /\ IdDomain id = IdDomain id').
Proof.
  intros (rp' & Hr' & ->)%RatePrefix_split Hr Hd. unfold Key.Bucket. split.
  - unfold HasPrefix. rewrite prefix_spec, app_str_assoc. split.
    + intros [r H]. by destruct (RulePrefix_inj _ _ _ _ _ _ Hr' Hr H) as [? _].
    + intros ->. rewrite Hr in Hr'. simplify_eq. eauto.
  - apply RulePrefix_split in Hr' as (dp' & Hd' & ->).
    unfold HasPrefix. rewrite prefix_spec, !app_str_assoc. split.
    + intros [r H]. by destruct (DomainPrefix_inj _ _ _ _ _ _ _ _ Hd' Hd H) as (? & ? & _).
    + intros [Hn Hdm]. rewrite Hn, Hdm, Hd in Hd'. simplify_eq. eauto.
Qed.

Lemma prefix_selects_rule_witness :
  HasPrefix "rl:v1:{ns/d}:b/r:gcra:1:alice:" "rl:v1:{ns/d}:b/r:" = true <->
  mkIdent "ns" "d" "b" "r" = mkIdent "ns" "d" "b" "r".
Proof.
  apply (prefix_selects_rule (mkIdent "ns" "d" "b" "r") (mkIdent "ns" "d" "b" "r") gcra
    (mkWindow 2 Second 2) "rl:v1:{ns/d}:b/r:gcra:1:" "rl:v1:{ns/d}:b/r:" "rl:v1:{ns/d}:" ["alice"]);
    vm_compute; reflexivity.
Defined.

(** Every counter of a domain carries the same hash tag, which names the
    domain and no other, so one decision never leaves its cluster slot. *)
Theorem domain_hash_tag (id1 id2 : Ident) (a1 a2 : Algorithm) (w1 w2 : Window) (p1 p2 : string)
    (x1 x2 : list string) :
  RatePrefix id1 a1 w1 = Some p1 -> RatePrefix id2 a2 w2 = Some p2 ->
  hasHashTag (Key.Bucket p1 x1) = true /\
  (hash_tag (Key.Bucket p1 x1) = hash_tag (Key.Bucket p2 x2) <->
   IdNamespace id1 = IdNamespace id2 /\ IdDomain id1 = IdDomain id2).
Proof.
  intros (rp1 & Hr1 & ->)%RatePrefix_split (rp2 & Hr2 & ->)%RatePrefix_split.
  apply RulePrefix_split in Hr1 as (dp1 & Hd1 & ->). apply RulePrefix_split in Hr2 as (dp2 & Hd2 & ->).
  unfold Key.Bucket. rewrite !app_str_assoc.
  match goal with |- hasHashTag (_ +:+ ?x) = _ /\ _ =>
    pose proof (DomainPrefix_tag _ _ _ x Hd1) as Ht1; split;
    [by rewrite (hash_tag_hasHashTag _ _ Ht1)|rewrite Ht1] end.
  rewrite (DomainPrefix_tag _ _ _ _ Hd2). split; [|by intros [-> ->]].
  intros [= H]. pose proof (escape_clean (IdNamespace id1)) as (_ & Hs1 & _).
  pose proof (escape_clean (IdNamespace id2)) as (_ & Hs2 & _).
  by destruct (app_sep_inj _ _ _ _ _ Hs1 Hs2 H) as [->%escape_inj ->%escape_inj].
Qed.

Lemma domain_hash_tag_witness :
  hasHashTag "rl:v1:{ns/d}:b/r:gcra:1:alice:" = true.
Proof.
  apply (domain_hash_tag (mkIdent "ns" "d" "b" "r") (mkIdent "ns" "d" "b" "r") gcra gcra
    (mkWindow 2 Second 2) (mkWindow 2 Second 2) "rl:v1:{ns/d}:b/r:gcra:1:"
    "rl:v1:{ns/d}:b/r:gcra:1:" ["alice"] []);
    vm_compute; reflexivity.
Defined.

(** * Decimal numbers

    [strconv.ParseUint] and [strconv.ParseInt] in base 10 at 64 bits, and that
    each reads back what [strconv.FormatInt] prints. *)

(** ** Definitions *)

(** [strconv.ParseUint(s, 10, 64)]; [None] is its error. *)
Definition ParseUint (s : string) : option Z :=
  if negb (bool_decide (s = "")) && all_chars is_digit s && (decimal s 0 <? 2 ^ 64)
  then Some (decimal s 0) else None.

(** [strconv.ParseInt(s, 10, 64)]: an optional sign, then [ParseUint] of the
    rest within the signed range. *)
Definition ParseInt (s : string) : option Z :=
  let '(neg, digits) :=
    match s with
    | String "+" r => (false, r)
    | String "-" r => (true, r)
    | _ => (false, s)
    end in
  match ParseUint digits with
  | None => None
  | Some un =>
      if negb neg && (2 ^ 63 <=? un) then None
      else if neg && (2 ^ 63 <? un) then None
      else Some (if neg then - un else un)
  end.

(** ** Printing and reading back *)

Lemma pretty_N_char_digit x : is_digit (pretty_N_char x) = true.
Proof. unfold pretty_N_char. by repeat case_match. Qed.

Lemma pretty_N_go_digits x s : all_chars is_digit s = true -> all_chars is_digit (pretty_N_go x s) = true.
Proof.
  revert s. induction (N.lt_wf_0 x) as [x _ IH]; intros s Hs.
  destruct (decide (x = 0)%N) as [->|]; [done|].
  rewrite pretty_N_go_step by lia. apply IH; [apply N.div_lt; lia|].
  cbn [all_chars]. by rewrite pretty_N_char_digit.
Qed.

Lemma pretty_digits (z : Z) : 0 <= z -> all_chars is_digit (pretty z) = true /\ pretty z <> "".
Proof.
  intros Hz. split.
  - unfold pretty, pretty_Z, pretty_positive, pretty, pretty_N. destruct z as [|p|p]; [done| |lia].
    case_decide; [done|]. by apply pretty_N_go_digits.
  - intros E. pose proof (decimal_pretty z Hz) as Hd. rewrite E in Hd. simpl in Hd. subst z. done.
Qed.

Lemma digits_no_char c s : is_digit c = false -> all_chars is_digit s = true -> contains_char c s = false.
Proof.
  intros Hc. induction s as [|d s IH]; [done|]. cbn [all_chars contains_char]. intros [Hd Hs]%andb_true_iff.
  rewrite IH by done. rewrite bool_decide_false; [done|]. intros ->. congruence.
Qed.

Lemma ParseUint_pretty z : 0 <= z < 2 ^ 64 -> ParseUint (pretty z) = Some z.
Proof.
  intros Hz. destruct (pretty_digits z ltac:(lia)) as [Hd Hne].
  unfold ParseUint. rewrite Hd, bool_decide_false by done. rewrite decimal_pretty by lia. cbn [negb andb].
  by rewrite (proj2 (Z.ltb_lt z _)) by lia.
Qed.

(** A string of digits carries no sign. *)
Lemma digits_unsigned {A} (s : string) (p m n : string -> A) :
  all_chars is_digit s = true ->
  match s with String "+" r => p r | String "-" r => m r | _ => n s end = n s.
Proof.
  destruct s as [|c s]; [done|]. cbn [all_chars]. intros [Hc _]%andb_true_iff.
  destruct c as [[] [] [] [] [] [] [] []]; done.
Qed.

Lemma pretty_neg z : z < 0 -> pretty z = String "-" (pretty (- z)).
Proof. destruct z; [lia|lia|]. intros _. done. Qed.

Lemma ParseInt_pretty z : is_i64 z -> ParseInt (pretty z) = Some z.
Proof.
  unfold is_i64, min_i64, max_i64. intros Hz. destruct (Z.ltb_spec z 0) as [Hn|Hn].
  - unfold ParseInt. rewrite pretty_neg by done. rewrite ParseUint_pretty by lia.
    cbn [negb andb]. rewrite (proj2 (Z.ltb_ge _ _)) by lia. f_equal. lia.
  - destruct (pretty_digits z Hn) as [Hd _]. unfold ParseInt.
    rewrite (digits_unsigned (pretty z) (fun r => (false, r)) (fun r => (true, r)) (fun r => (false, r)) Hd).
    rewrite ParseUint_pretty by lia. cbn [negb andb].
    by rewrite (proj2 (Z.leb_gt _ _)) by lia.
Qed.
