(* ===== verification/MatchSpec.v ===== *)
(** * What matching means

    Declarative readings of the matcher's loops: the two modes, shadow rules,
    path prefixes and templates, and the cost parameter of the query string. *)
From S2P Require Import Prelude GoStrings Algo Key StoreApi Model Compile Match MatchFacts.

(** ** Definitions *)

Definition is_shadow (r : Rule) : Prop := ru_Behavior r = BehaviorShadow.
Definition is_bypass (r : Rule) : Prop := ru_Behavior r = BehaviorBypass.

#[export] Instance is_shadow_dec r : Decision (is_shadow r).
Proof. unfold is_shadow. apply _. Defined.
#[export] Instance is_bypass_dec r : Decision (is_bypass r).
Proof. unfold is_bypass. apply _. Defined.

(** The same block without its shadow rules. *)
Definition without_shadow (b : Block) : Block :=
  mkBlock (bl_Name b) (bl_Mode b) (bl_Routes b) (bl_Captures b)
    (filter (fun r => ~ is_shadow r) (bl_Rules b)).

(** The part of a result that can refuse. *)
Definition enforced (ms : list MatchedRule) : list MatchedRule :=
  filter (fun m => m_Shadow m = false) ms.

(** A rule is replaced when a matching rule that is not a shadow names it. *)
Definition replaced (rules : list Rule) (ctx : blockCtx) (name : string) : Prop :=
  Exists (fun r => ruleMatches r ctx = true /\ ~ is_shadow r /\ name ∈ ru_ReplacedRules r) rules.

#[export] Instance replaced_dec rules ctx name : Decision (replaced rules ctx name).
Proof. unfold replaced. apply _. Defined.

(** The rule that settles a block in the mode FirstMatch, and the rules before
    it. *)
Definition settles (ctx : blockCtx) (r : Rule) : bool := ruleMatches r ctx && bool_decide (~ is_shadow r).

Fixpoint before_settled (ctx : blockCtx) (rules : list Rule) : list Rule :=
  match rules with
  | [] => []
  | r :: rules => if settles ctx r then [] else r :: before_settled ctx rules
  end.

(** The parameter's values in a query string, in order: the [&]-separated
    pairs whose decoded name is the parameter. *)
Definition occurrences (parameter query : string) : list string :=
  omap (fun pair => let '(name, value, _) := Cut "=" pair in
          if bool_decide (unescape name = parameter) then Some (unescape value) else None)
       (Split "&" query).

(** What one occurrence asks for: the default when it is not a positive
    decimal, and never more than [MaxCost]. *)
Definition occurrence_cost (def : Z) (value : string) : Z :=
  if bool_decide (positiveInteger value = 0) then def else positiveInteger value.

(** A segment takes a path part, capturing it or not. *)
Definition takes (s : Segment) (part : string) : Prop :=
  if bool_decide (sg_Capture s = "") then part = sg_Literal s else part <> "".

(** ** The mode All *)

Lemma all_loop_suppressed block rules ctx s :
  (all_loop block rules ctx s).2 ≡ s ∪ list_to_set
    (concat (map ru_ReplacedRules
       (filter (fun r => ruleMatches r ctx = true /\ ~ is_shadow r) rules))).
Proof.
  revert s. induction rules as [|r rules IH]; intros s; cbn [all_loop]; [set_solver|].
  rewrite filter_cons. destruct (ruleMatches r ctx) eqn:E; cbn [negb].
  - match goal with |- context [all_loop block rules ctx ?x] =>
      specialize (IH x); destruct (all_loop block rules ctx x) as [out s'] end.
    simpl in *. rewrite IH. unfold is_shadow. case_bool_decide; case_decide; simpl; try tauto.
    + set_solver.
    + rewrite list_to_set_app. set_solver.
  - rewrite decide_False by (by intros [? _]). apply IH.
Qed.

Lemma all_loop_out block rules ctx s :
  (all_loop block rules ctx s).1 =
  map (fun r => matchedRule block r ctx)
    (filter (fun r => ruleMatches r ctx = true /\ ~ is_bypass r) rules).
Proof.
  revert s. induction rules as [|r rules IH]; intros s; cbn [all_loop]; [done|].
  rewrite filter_cons. destruct (ruleMatches r ctx) eqn:E; cbn [negb].
  - match goal with |- context [all_loop block rules ctx ?x] =>
      specialize (IH x); destruct (all_loop block rules ctx x) as [out s'] end.
    simpl in *. rewrite IH. unfold is_bypass. case_bool_decide; case_decide; tauto || done.
  - rewrite decide_False by (by intros [? _]). apply IH.
Qed.

Lemma evalAll_filter block ctx :
  evalAll block ctx =
  filter (fun m => m_Rule m ∉ (all_loop block (bl_Rules block) ctx ∅).2)
    (all_loop block (bl_Rules block) ctx ∅).1.
Proof.
  unfold evalAll. destruct (all_loop _ _ _ _) as [out s]. simpl.
  case_bool_decide as Hs; [|done]. symmetry. apply filter_all, Forall_true. set_solver.
Qed.

Lemma filter_map_rule (P : MatchedRule -> Prop) `{!forall m, Decision (P m)} (f : Rule -> MatchedRule) (l : list Rule) :
  filter P (map f l) = map f (filter (fun r => P (f r)) l).
Proof.
  induction l as [|r l IH]; [done|]. cbn [map]. rewrite !filter_cons.
  case_decide; simpl; by rewrite IH.
Qed.

Lemma evalAll_declarative block ctx :
  evalAll block ctx =
  map (fun r => matchedRule block r ctx)
    (filter (fun r => ruleMatches r ctx = true /\ ~ is_bypass r /\
                      ~ replaced (bl_Rules block) ctx (ru_Name r)) (bl_Rules block)).
Proof.
  rewrite evalAll_filter, all_loop_out, filter_map_rule. f_equal.
  rewrite list_filter_filter. apply list_filter_iff. intros r. simpl.
  rewrite (all_loop_suppressed block (bl_Rules block) ctx ∅).
  assert (ru_Name r ∈ (∅ ∪ list_to_set (concat (map ru_ReplacedRules
      (filter (fun r => ruleMatches r ctx = true /\ ~ is_shadow r) (bl_Rules block)))) : gset string)
    <-> replaced (bl_Rules block) ctx (ru_Name r)) as ->; [|tauto].
  rewrite elem_of_union, elem_of_list_to_set, elem_of_concat_map. unfold replaced.
  rewrite Exists_exists. setoid_rewrite list_elem_of_filter. set_solver.
Qed.

(** ** The mode FirstMatch *)

Lemma firstMatch_declarative block rules ctx :
  firstMatch_loop block rules ctx =
  map (fun r => matchedRule block r ctx)
    (filter (fun r => ruleMatches r ctx = true) (before_settled ctx rules) ++
     filter (fun r => ~ is_bypass r) (option_list (find_first (settles ctx) rules))).
Proof.
  induction rules as [|r rules IH]; [done|]. cbn [firstMatch_loop before_settled find_first].
  change (settles ctx r) with (ruleMatches r ctx && bool_decide (~ is_shadow r)).
  destruct (ruleMatches r ctx) eqn:E; cbn [negb andb].
  2: { rewrite filter_cons_False by (by rewrite E). exact IH. }
  unfold is_shadow. case_bool_decide as Hb.
  { rewrite bool_decide_true by (rewrite Hb; discriminate). change (option_list (Some r)) with [r].
    by rewrite filter_cons_False by (unfold is_bypass; tauto). }
  case_bool_decide as Hs.
  - rewrite bool_decide_false by tauto. rewrite filter_cons_True by done. cbn. by f_equal.
  - rewrite bool_decide_true by done. change (option_list (Some r)) with [r]. by rewrite filter_cons_True by done.
Qed.

Lemma before_settled_shadow ctx rules :
  Forall (fun r => ruleMatches r ctx = true -> is_shadow r) (before_settled ctx rules).
Proof.
  induction rules as [|r rules IH]; cbn [before_settled]; [constructor|].
  destruct (settles ctx r) eqn:E; constructor; [|done]. intros Hm. unfold settles in E. rewrite Hm in E. cbn in E.
  apply bool_decide_eq_false in E. by apply dec_stable.
Qed.

Lemma firstMatch_drop_shadow block block' rules ctx :
  bl_Name block = bl_Name block' ->
  enforced (firstMatch_loop block rules ctx) =
  firstMatch_loop block' (filter (fun r => ~ is_shadow r) rules) ctx.
Proof.
  intros Hn. unfold enforced. induction rules as [|r rules IH]; [done|].
  rewrite (filter_cons _ r). unfold is_shadow at 1. cbn [firstMatch_loop].
  case_decide as Hs; cbn [firstMatch_loop].
  - destruct (ruleMatches r ctx); cbn [negb]; [|done].
    case_bool_decide; [done|]. rewrite bool_decide_false by done.
    rewrite filter_cons, decide_True by (simpl; by rewrite bool_decide_false).
    unfold matchedRule. by rewrite Hn.
  - destruct (ruleMatches r ctx); cbn [negb]; [|done].
    rewrite bool_decide_false by (rewrite Hs; discriminate). rewrite bool_decide_true by done.
    rewrite filter_cons, decide_False by (simpl; by rewrite bool_decide_true). done.
Qed.

Lemma replaced_drop_shadow rules ctx name :
  replaced (filter (fun r => ~ is_shadow r) rules) ctx name <-> replaced rules ctx name.
Proof.
  unfold replaced. rewrite !Exists_exists. setoid_rewrite list_elem_of_filter. naive_solver.
Qed.

Lemma evalAll_drop_shadow block ctx :
  enforced (evalAll block ctx) = evalAll (without_shadow block) ctx.
Proof.
  rewrite !evalAll_declarative. unfold enforced. rewrite filter_map_rule. simpl.
  rewrite !list_filter_filter. f_equal. apply list_filter_iff. intros r. simpl.
  rewrite replaced_drop_shadow, bool_decide_eq_false. unfold is_shadow. tauto.
Qed.

(** ** Claims on the rule phase *)

(** C40: What a block does with a request, in either mode. In the mode All it
    applies exactly the rules that match, do not bypass and are not replaced by
    a matching rule that is not a shadow, in authored order. In the mode
    FirstMatch the first matching rule that is not a shadow settles the block:
    the matching rules before it, which are shadows, are applied, then it
    itself unless it bypasses, and nothing after it. In both modes shadow rules
    never change what is enforced: the enforcing part of the result is the
    result of the block without its shadow rules. *)
Theorem rule_phase_meaning (block : Block) (ctx : blockCtx) :
  evalBlock block ctx =
    map (fun r => matchedRule block r ctx)
      (if bool_decide (bl_Mode block = ModeFirstMatch)
       then filter (fun r => ruleMatches r ctx = true) (before_settled ctx (bl_Rules block)) ++
            filter (fun r => ~ is_bypass r) (option_list (find_first (settles ctx) (bl_Rules block)))
       else filter (fun r => ruleMatches r ctx = true /\ ~ is_bypass r /\
                             ~ replaced (bl_Rules block) ctx (ru_Name r)) (bl_Rules block)) /\
  Forall (fun r => ruleMatches r ctx = true -> is_shadow r) (before_settled ctx (bl_Rules block)) /\
  enforced (evalBlock block ctx) = evalBlock (without_shadow block) ctx.
Proof.
  split_and!.
  - unfold evalBlock. case_bool_decide; [apply firstMatch_declarative|apply evalAll_declarative].
  - apply before_settled_shadow.
  - unfold evalBlock. cbn [bl_Mode without_shadow]. case_bool_decide; [|apply evalAll_drop_shadow].
    by apply firstMatch_drop_shadow.
Qed.

(** ** The cost parameter *)

Lemma occurrences_cons parameter kv rest :
  contains_char "&" kv = false ->
  occurrences parameter (kv +:+ String "&" rest) =
  (let '(name, value, _) := Cut "=" kv in
   if bool_decide (unescape name = parameter) then [unescape value] else []) ++ occurrences parameter rest.
Proof.
  intros H. unfold occurrences. rewrite Split_app_sep by done. cbn [omap list_omap].
  destruct (Cut "=" kv) as [[name value] ?]. by case_bool_decide.
Qed.

Lemma occurrences_nil parameter : parameter <> "" -> occurrences parameter "" = [].
Proof.
  intros H. unfold occurrences. change (Split "&" "") with [""]. cbn [omap list_omap].
  change (Cut "=" "") with ("", "", false). simpl. by rewrite bool_decide_false.
Qed.

(** Cutting off the first pair cuts off its occurrence. *)
Lemma occurrences_step parameter query kv rest f :
  parameter <> "" -> Cut "&" query = (kv, rest, f) ->
  occurrences parameter query =
  (let '(name, value, _) := Cut "=" kv in
   if bool_decide (unescape name = parameter) then [unescape value] else []) ++ occurrences parameter rest.
Proof.
  intros Hp H. destruct (Cut_spec _ _ _ _ _ H) as [Hkv Hf]. destruct f.
  - subst query. by apply occurrences_cons.
  - destruct Hf as [-> ->]. rewrite (occurrences_nil parameter Hp), app_nil_r.
    unfold occurrences. rewrite Split_no_char by done. cbn [omap list_omap].
    destruct (Cut "=" kv) as [[name value] ?]. by case_bool_decide.
Qed.

Lemma query_loop_spec fuel cost query found largest :
  co_Parameter cost <> "" -> (String.length query <= fuel)%nat ->
  let vs := occurrences (co_Parameter cost) query in
  query_loop fuel cost query found largest =
  (found || negb (bool_decide (vs = [])),
   foldl (fun m v => Z.max m (occurrence_cost (co_Default cost) v)) largest vs).
Proof.
  intros Hp. revert query found largest.
  induction fuel as [|fuel IH]; intros query found largest Hl; cbn [query_loop].
  { destruct query; [|simpl in Hl; lia]. rewrite occurrences_nil by done. simpl. by rewrite orb_false_r. }
  case_bool_decide as Hq.
  { subst query. rewrite occurrences_nil by done. simpl. by rewrite orb_false_r. }
  destruct (Cut "&" query) as [[kv rest] f] eqn:Hcut.
  pose proof (Cut_length _ _ _ _ _ Hcut Hq).
  rewrite (occurrences_step _ _ _ _ _ Hp Hcut). destruct (Cut "=" kv) as [[name value] ?].
  case_bool_decide; cbn [negb]; rewrite IH by lia; [|done].
  cbn [app foldl]. rewrite orb_true_r. f_equal.
  unfold occurrence_cost. f_equal. case_bool_decide as Hz; destruct (Z.eqb_spec (positiveInteger (unescape value)) 0);
    done.
Qed.

Lemma foldl_max_foldr (f : string -> Z) vs a :
  0 <= a -> foldl (fun m v => Z.max m (f v)) a vs = Z.max a (foldr (fun v m => Z.max (f v) m) 0 vs).
Proof. revert a. induction vs as [|v vs IH]; intros a Ha; simpl; [lia|]. rewrite IH by lia. lia. Qed.

(** The cost of a request is the largest of the parameter's occurrences in
    the query string, an occurrence that is not a positive decimal counting as
    the default and one beyond the bound as the bound, and the default when
    there is none; it is always between 1 and [MaxCost]. *)
Theorem query_cost_meaning (cost : Cost) (query : string) :
  co_Parameter cost <> "" -> 1 <= co_Default cost <= MaxCost ->
  queryCost cost query =
    match occurrences (co_Parameter cost) query with
    | [] => co_Default cost
    | vs => foldr (fun v m => Z.max (occurrence_cost (co_Default cost) v) m) 0 vs
    end /\
  1 <= queryCost cost query <= MaxCost.
Proof.
  intros Hp Hd. split; [|by apply queryCost_range]. unfold queryCost.
  rewrite query_loop_spec by done. cbn [orb].
  destruct (occurrences (co_Parameter cost) query) as [|v vs]; [done|].
  rewrite foldl_max_foldr by lia. rewrite bool_decide_false by done. cbn [negb].
  cbn [foldr]. assert (0 <= occurrence_cost (co_Default cost) v); [|lia].
  unfold occurrence_cost. pose proof (positiveInteger_range v). case_bool_decide; lia.
Qed.

Lemma query_cost_meaning_witness :
  occurrences "limit" "a=1&limit=5&%6Cimit=007&limit=x" = ["5"; "007"; "x"] /\
  queryCost (mkCost "limit" 3) "a=1&limit=5&%6Cimit=007&limit=x" = 7.
Proof.
  split; [vm_compute; reflexivity|].
  destruct (query_cost_meaning (mkCost "limit" 3) "a=1&limit=5&%6Cimit=007&limit=x") as [H _];
    [discriminate|simpl; unfold MaxCost; lia|].
  rewrite H. vm_compute. reflexivity.
Defined.

(** A digit string is read as the number it denotes, cut at [MaxCost],
    however long it is: the 64-bit accumulator never overflows; anything else
    reads as zero. *)
Theorem positive_integer_saturates (s : string) :
  positiveInteger s =
    if bool_decide (s <> "") && all_chars is_digit s then Z.min (decimal s 0) MaxCost else 0.
Proof.
  rewrite positiveInteger_spec. f_equal. by repeat case_bool_decide.
Qed.

(** ** Paths *)

Lemma app_str_inj_l a b c : a +:+ b = a +:+ c -> b = c.
Proof. induction a as [|x a IH]; simpl; [done|]. intros [= H]. by apply IH. Qed.

Lemma app_str_inj_r a b c : a +:+ c = b +:+ c -> a = b.
Proof.
  revert b. induction a as [|x a IH]; intros [|y b] E; [done| | |].
  - apply (f_equal String.length) in E. cbn in E. rewrite app_str_length in E. lia.
  - apply (f_equal String.length) in E. cbn in E. rewrite app_str_length in E. lia.
  - injection E as -> E. f_equal. by apply IH.
Qed.

Lemma get_app a b n : String.get (String.length a + n) (a +:+ b) = String.get n b.
Proof. induction a as [|c a IH]; [done|]. simpl. apply IH. Qed.

(** A prefix route takes exactly the paths that extend its value on a
    segment boundary. *)
Theorem prefix_route_meaning (value path : string) :
  matchPrefix value path = true <->
  exists rest, path = value +:+ rest /\
    (rest = "" \/ HasSuffix value "/" = true \/ exists r, rest = String "/" r).
Proof.
  unfold matchPrefix. destruct (HasPrefix path value) eqn:Hp; cbn [negb].
  - apply prefix_spec in Hp as [rest ->].
    rewrite !orb_true_iff, bool_decide_eq_true, Z.eqb_eq.
    rewrite <- (Nat.add_0_r (String.length value)), get_app.
    unfold len. rewrite app_str_length.
    split.
    + intros H. exists rest. split; [done|]. destruct H as [[H|H]|H]; [| by auto|].
      * left. destruct rest; [done|]. simpl in H. lia.
      * right. right. destruct rest as [|c r]; [done|]. simpl in H. simplify_eq. eauto.
    + intros (rest' & H & Hc). apply app_str_inj_l in H as <-.
      destruct Hc as [->|[?|[r ->]]]; [left; left; simpl; lia|by auto|by right].
  - split; [done|]. intros (rest & -> & _).
    assert (HasPrefix (value +:+ rest) value = true); [|congruence].
    apply prefix_spec. eauto.
Qed.

(** The captures a list of parts gives. *)
Definition captured (segments : list Segment) (parts : list string) : gmap string string :=
  foldl (fun m sp => if bool_decide (sg_Capture sp.1 = "") then m else <[sg_Capture sp.1 := sp.2]> m)
    ∅ (zip segments parts).

Lemma template_loop_spec segments parts caps out :
  length parts = length segments ->
  template_loop segments parts caps = Some out <->
  Forall2 takes segments parts /\
  out = foldl (fun m sp => if bool_decide (sg_Capture sp.1 = "") then m
                           else <[sg_Capture sp.1 := sp.2]> m) caps (zip segments parts).
Proof.
  revert parts caps. induction segments as [|s segments IH]; intros [|p parts] caps Hl; try done.
  { simpl. split; [by intros [= ->]|by intros [_ ->]]. }
  cbn [template_loop zip_with foldl fst snd]. rewrite Forall2_cons. unfold takes at 1.
  case_bool_decide; case_bool_decide; simplify_eq/=; rewrite ?IH by lia; naive_solver.
Qed.

(** A template route takes exactly the paths made of as many parts as the
    template has segments, each literal segment equal to its part and each
    captured part non-empty, and captures the parts under their names. *)
Theorem template_route_meaning (segments : list Segment) (path : string) (caps : gmap string string) :
  matchTemplate segments path = Some caps <->
  exists parts, parts <> [] /\ path = String "/" (Join "/" parts) /\
    Forall (fun p => contains_char "/" p = false) parts /\
    Forall2 takes segments parts /\ caps = captured segments parts.
Proof.
  unfold matchTemplate. destruct (HasPrefix path "/") eqn:Hp; cbn [negb].
  - apply prefix_spec in Hp as [r ->]. change (drop_str 1 ("/" +:+ r)) with r.
    change ("/" +:+ r) with (String "/" r).
    destruct (Nat.eqb_spec (length (Split "/" r)) (length segments)) as [Hl|Hl]; cbn [negb].
    + rewrite template_loop_spec by done. split.
      * intros [Hf Hc]. exists (Split "/" r). split_and!; try done;
          [apply Split_not_nil|by rewrite Join_Split|apply Split_no_sep].
      * intros (parts & Hn & [= ->] & Hs & Hf & ->). by rewrite Split_Join.
    + split; [done|]. intros (parts & Hn & [= ->] & Hs & Hf & _).
      apply Forall2_length in Hf. by rewrite Split_Join in Hl.
  - split; [done|]. intros (parts & _ & -> & _).
    assert (HasPrefix (String "/" (Join "/" parts)) "/" = true); [|congruence].
    apply prefix_spec. by exists (Join "/" parts).
Qed.

(** ** Witnesses *)

Definition demo_rule (name behavior : string) (replaces : list string) : Rule :=
  mkRule name behavior [] ["sub"] [mkRate gcra (mkWindow 2 Second 2) (name +:+ ":")] replaces.

Definition demo_block (mode : string) : Block :=
  mkBlock "b" mode [] []
    [demo_rule "watch" BehaviorShadow ["base"]; demo_rule "base" BehaviorEnforce [];
     demo_rule "tight" BehaviorEnforce ["base"]].

Definition demo_ctx : blockCtx := mkCtx "GET" {["sub" := ["alice"]]} "/x" ∅ 1.

Lemma rule_phase_meaning_witness :
  m_Rule <$> evalBlock (demo_block ModeAll) demo_ctx = ["watch"; "tight"] /\
  m_Rule <$> evalBlock (demo_block ModeFirstMatch) demo_ctx = ["watch"; "base"] /\
  m_Rule <$> evalBlock (without_shadow (demo_block ModeFirstMatch)) demo_ctx = ["base"].
Proof.
  split; [|split].
  - rewrite (proj1 (rule_phase_meaning (demo_block ModeAll) demo_ctx)). vm_compute. reflexivity.
  - rewrite (proj1 (rule_phase_meaning (demo_block ModeFirstMatch) demo_ctx)). vm_compute. reflexivity.
  - rewrite <- (proj2 (proj2 (rule_phase_meaning (demo_block ModeFirstMatch) demo_ctx))). vm_compute. reflexivity.
Defined.
