(* ===== verification/MatchTargets.v ===== *)
(** * Introspection of targets

    [TargetsByPath] answers for a path under any method at once. Its answer on
    a block is related here to [matchTarget], which the decision uses, for
    every method. *)
From S2P Require Import Prelude GoStrings Algo Key StoreApi Model Compile Match MatchFacts.

(** ** Definitions *)

(** What the running state knows of the captures [ds] of the routes that
    decided so far. *)
Definition path_inv (st : path_state) (ds : list (gmap string string)) : Prop :=
  ps_deciders st = length ds /\
  (forall n, default 0%nat (ps_produced st !! n) = length (filter (fun c => is_Some (c !! n)) ds)) /\
  (forall n c v, n ∉ ps_conflict st -> c ∈ ds -> c !! n = Some v -> ps_values st !! n = Some v).

(** ** One deciding route *)

Lemma note_captures_frame l st :
  ps_deciders (foldl note_capture st l) = ps_deciders st /\
  ps_claimed (foldl note_capture st l) = ps_claimed st.
Proof. revert st. induction l as [|[n v] l IH]; intros st; [done|]. simpl. by rewrite !(proj1 (IH _)), (proj2 (IH _)). Qed.

(** A name the route does not capture is untouched. *)
Lemma note_captures_other l st n :
  n ∉ l.*1 ->
  ps_values (foldl note_capture st l) !! n = ps_values st !! n /\
  ps_produced (foldl note_capture st l) !! n = ps_produced st !! n /\
  (n ∈ ps_conflict (foldl note_capture st l) <-> n ∈ ps_conflict st).
Proof.
  revert st. induction l as [|[m u] l IH]; intros st Hn; [done|].
  rewrite fmap_cons, not_elem_of_cons in Hn. destruct Hn as [Hm Hn]. simpl in Hm.
  destruct (IH (note_capture st (m, u)) Hn) as (H1 & H2 & H3). cbn [foldl].
  rewrite H1, H2, H3. simpl. rewrite !lookup_insert_ne by done. split_and!; [done|done|].
  case_match; [|done]. case_bool_decide; [done|]. set_solver.
Qed.

(** A captured name is counted once, and conflicts when its value differs. *)
Lemma note_captures_at l st n v :
  NoDup l.*1 -> (n, v) ∈ l ->
  ps_values (foldl note_capture st l) !! n = Some v /\
  default 0%nat (ps_produced (foldl note_capture st l) !! n) = S (default 0%nat (ps_produced st !! n)) /\
  (n ∉ ps_conflict (foldl note_capture st l) ->
     (n ∉ ps_conflict st) /\ (ps_values st !! n = None \/ ps_values st !! n = Some v)).
Proof.
  revert st. induction l as [|[m u] l IH]; intros st Hd Hin; [by apply elem_of_nil in Hin|].
  rewrite fmap_cons in Hd. apply NoDup_cons in Hd as [Hm Hd]. simpl in Hm. cbn [foldl].
  apply elem_of_cons in Hin as [[= -> ->]|Hin].
  - destruct (note_captures_other l (note_capture st (m, u)) m Hm) as (-> & -> & ->).
    simpl. rewrite !lookup_insert_eq. split_and!; [done|done|].
    destruct (ps_values st !! m) as [w|] eqn:E; [|by auto].
    case_bool_decide as Hw; [subst; by auto|]. set_solver.
  - assert (n <> m) as Hne by (intros ->; apply Hm, list_elem_of_fmap; by exists (m, v)).
    destruct (IH (note_capture st (m, u)) Hd Hin) as (-> & -> & Hc).
    simpl in *. rewrite !lookup_insert_ne in * by done. split_and!; [done|done|].
    intros Hn. apply Hc in Hn as [Hn Hv]. split; [|done].
    revert Hn. case_match; [|done]. case_bool_decide; [done|]. set_solver.
Qed.

Lemma path_inv_step st ds caps methods :
  path_inv st ds ->
  path_inv (foldl note_capture
      (mkPS (S (ps_deciders st)) methods (ps_values st) (ps_produced st) (ps_conflict st))
      (map_to_list caps)) (ds ++ [caps]).
Proof.
  intros (Hd & Hp & Hv). set (st1 := mkPS _ _ _ _ _). set (l := map_to_list caps).
  pose proof (NoDup_fst_map_to_list caps) as Hnd. fold l in Hnd.
  destruct (note_captures_frame l st1) as [Hf _].
  split_and!.
  - rewrite Hf, length_app. simpl. lia.
  - intros n. rewrite filter_app, length_app, <- Hp. destruct (caps !! n) as [v|] eqn:E.
    + destruct (note_captures_at l st1 n v Hnd) as (_ & -> & _); [by apply elem_of_map_to_list|].
      rewrite filter_cons, decide_True by (rewrite E; eauto). simpl. lia.
    + destruct (note_captures_other l st1 n) as (_ & -> & _).
      { intros ([m v] & -> & Hin)%list_elem_of_fmap. apply elem_of_map_to_list in Hin. simpl in E. congruence. }
      rewrite filter_cons, decide_False by (rewrite E; by intros [? ?]). simpl. lia.
  - intros n c v Hn Hc Hcv. apply elem_of_app in Hc. rewrite list_elem_of_singleton in Hc.
    destruct (caps !! n) as [u|] eqn:E.
    + destruct (note_captures_at l st1 n u Hnd) as (Hval & _ & Hcf); [by apply elem_of_map_to_list|].
      rewrite Hval. destruct (Hcf Hn) as [Hn0 Hu]. destruct Hc as [Hc| ->]; [|congruence].
      pose proof (Hv n c v Hn0 Hc Hcv) as Hx. simpl in Hu. rewrite Hx in Hu. naive_solver.
    + destruct Hc as [Hc| ->]; [|congruence].
      destruct (note_captures_other l st1 n) as (-> & _ & Hcf).
      { intros ([m w] & -> & Hin)%list_elem_of_fmap. apply elem_of_map_to_list in Hin. simpl in E. congruence. }
      apply (Hv n c v); [|done|done]. by rewrite Hcf in Hn.
Qed.

(** ** The loop over the routes *)

Lemma path_loop_spec routes path st ds :
  path_inv st ds ->
  exists ds', path_inv (path_loop routes path st) (ds ++ ds') /\
    (forall method r axis caps, method ∉ ps_claimed st ->
       match_routes routes path method = Some (r, axis, caps) -> caps ∈ ds').
Proof.
  revert st ds. induction routes as [|route routes IH]; intros st ds Hi.
  { exists []. rewrite app_nil_r. split; [done|]. by intros. }
  cbn [path_loop match_routes]. destruct (matchPath route path) as [captures|] eqn:Hm.
  2:{ destruct (IH st ds Hi) as (ds' & Hi' & Hin). exists ds'. split; [done|].
      intros method r axis caps Hc. destruct (negb _); by apply Hin. }
  case_bool_decide as He; cbn [negb andb].
  { exists [captures]. split; [by apply path_inv_step|]. intros method r axis caps _.
    unfold method_admits. rewrite (bool_decide_true (rt_Methods route = ∅)) by done. cbn [orb negb].
    case_bool_decide; intros; simplify_eq; set_solver. }
  case_bool_decide as Hs.
  { destruct (IH st ds Hi) as (ds' & Hi' & Hin). exists ds'. split; [done|].
    intros method r axis caps Hc. unfold method_admits.
    rewrite (bool_decide_false (rt_Methods route = ∅)) by done.
    rewrite (bool_decide_false (method ∈ rt_Methods route)) by set_solver. by apply Hin. }
  pose proof (path_inv_step st ds captures (rt_Methods route ∪ ps_claimed st) Hi) as Hi1.
  match type of Hi1 with path_inv ?s _ => destruct (IH s _ Hi1) as (ds' & Hi' & Hin) end.
  exists (captures :: ds'). split; [by rewrite <- app_assoc in Hi'|].
  intros method r axis caps Hc. unfold method_admits.
  rewrite (bool_decide_false (rt_Methods route = ∅)) by done. cbn [orb].
  case_bool_decide as Hme; cbn [negb].
  - case_bool_decide; intros; simplify_eq; left.
  - intros Hr. right. eapply Hin; [|done]. rewrite (proj2 (note_captures_frame _ _)). set_solver.
Qed.

(** A path some route takes is taken under some method. *)
Lemma path_loop_some routes path st :
  (ps_deciders st < ps_deciders (path_loop routes path st))%nat ->
  exists method, is_Some (match_routes routes path method).
Proof.
  revert st. induction routes as [|route routes IH]; intros st; cbn [path_loop match_routes]; [lia|].
  destruct (matchPath route path) as [captures|] eqn:Hm.
  2:{ intros [method Hs]%IH. exists method. by destruct (negb _). }
  intros _. unfold method_admits. destruct (decide (rt_Methods route = ∅)) as [He|He].
  - exists "". rewrite (bool_decide_true (rt_Methods route = ∅)) by done. cbn [orb negb].
    case_bool_decide; eauto.
  - apply set_choose_L in He as [m Hme]. exists m.
    rewrite (bool_decide_true (m ∈ rt_Methods route)) by done. rewrite orb_true_r. cbn [negb].
    case_bool_decide; eauto.
Qed.

(** ** The verdict on the captures *)

Lemma decide_captures_spec names st caps und n :
  decide_captures names st = (caps, und) ->
  (forall v, caps !! n = Some v ->
     default 0%nat (ps_produced st !! n) = ps_deciders st /\ (n ∉ ps_conflict st) /\
     v = default "" (ps_values st !! n)) /\
  (n ∈ names -> is_Some (caps !! n) \/ n ∈ und \/ default 0%nat (ps_produced st !! n) = 0%nat).
Proof.
  revert caps und. induction names as [|m names IH]; intros caps und; cbn [decide_captures].
  { intros [= <- <-]. split; [by intros ? ?|]. by intros ?%elem_of_nil. }
  destruct (decide_captures names st) as [caps0 und0].
  destruct (IH caps0 und0 eq_refl) as [IH1 IH2]. clear IH.
  destruct (Nat.eqb_spec (default 0%nat (ps_produced st !! m)) (ps_deciders st)) as [Hp|Hp]; cbn [andb].
  - case_bool_decide as Hc; cbn [negb].
    + destruct (Nat.eqb_spec (default 0%nat (ps_produced st !! m)) 0) as [Hz|Hz];
        intros [= <- <-]; (split; [done|]); rewrite ?elem_of_cons; intros [->|?]; try tauto.
      all: destruct (IH2 ltac:(done)) as [?|[?|?]]; auto.
    + intros [= <- <-]. destruct (decide (m = n)) as [->|Hne].
      * rewrite lookup_insert_eq. split; [by intros v [= <-]|eauto].
      * rewrite lookup_insert_ne by done. split; [done|]. rewrite elem_of_cons. naive_solver.
  - destruct (Nat.eqb_spec (default 0%nat (ps_produced st !! m)) 0) as [Hz|Hz];
      intros [= <- <-]; (split; [done|]); rewrite ?elem_of_cons; intros [->|?]; try tauto.
    all: destruct (IH2 ltac:(done)) as [?|[?|?]]; auto.
Qed.

Lemma filter_length_all {A} (P : A -> Prop) `{!forall x, Decision (P x)} (l : list A) x :
  length (filter P l) = length l -> x ∈ l -> P x.
Proof.
  induction l as [|y l IH]; [by intros _ ?%elem_of_nil|]. rewrite filter_cons.
  pose proof (length_filter P l). case_decide; simpl; [|lia].
  intros Hl [->|Hx]%elem_of_cons; [done|]. apply IH; [lia|done].
Qed.

Lemma filter_length_pos {A} (P : A -> Prop) `{!forall x, Decision (P x)} (l : list A) x :
  x ∈ l -> P x -> length (filter P l) <> 0%nat.
Proof.
  intros Hx HP H0. apply nil_length_inv in H0.
  assert (x ∈ filter P l) by (by apply list_elem_of_filter). rewrite H0 in *. by eapply elem_of_nil.
Qed.

Lemma targetByPath_spec (block : Block) (path : string) :
  (targetByPath block path = None <-> forall method, matchTarget block path method = None) /\
  (forall t method route axis caps,
     targetByPath block path = Some t -> matchTarget block path method = Some (route, axis, caps) ->
     t_Block t = block /\
     (forall n v, t_Captures t !! n = Some v -> caps !! n = Some v) /\
     (forall n v, caps !! n = Some v -> n ∈ bl_Captures block ->
        t_Captures t !! n = Some v \/ n ∈ t_Undecided t)).
Proof.
  unfold targetByPath, matchTarget. destruct (bl_Routes block) as [|r0 rs].
  { split; [split; [done|]; intros H; by specialize (H "")|].
    intros t method route axis caps [= <-] [= <- <- <-]. simpl. by split_and!. }
  set (routes := r0 :: rs). set (st0 := mkPS 0 ∅ ∅ ∅ ∅).
  assert (path_inv st0 []) as Hi0 by (split_and!; [done|done|by intros ??? _ ?%elem_of_nil]).
  destruct (path_loop_spec routes path st0 [] Hi0) as (ds & (Hd & Hp & Hv) & Hin).
  pose proof (path_loop_some routes path st0) as Hsome. cbn [app] in Hd, Hp, Hv.
  set (st := path_loop routes path st0) in *. split.
  - destruct (Nat.eqb_spec (ps_deciders st) 0) as [Hz|Hz].
    + split; [|done]. intros _ method.
      destruct (match_routes routes path method) as [[[r axis] caps]|] eqn:E; [|done].
      specialize (Hin method r axis caps (not_elem_of_empty _) E).
      rewrite Hz in Hd. symmetry in Hd. apply nil_length_inv in Hd. subst ds. by apply elem_of_nil in Hin.
    + split; [by destruct (decide_captures _ _)|]. intros H.
      destruct Hsome as [method [[[r axis] caps] E]]; [simpl; lia|].
      specialize (H method). by rewrite E in H.
  - intros t method route axis caps Ht Hm. destruct (ps_deciders st =? 0)%nat; [done|].
    destruct (decide_captures (bl_Captures block) st) as [dc und] eqn:Ed. injection Ht as <-.
    destruct (match_routes routes path method) as [[[r a] c]|] eqn:E; simplify_eq/=.
    specialize (Hin method r axis caps (not_elem_of_empty _) E). split_and!; [done| |].
    + intros n v Hn. destruct (decide_captures_spec _ _ _ _ n Ed) as [H1 _].
      destruct (H1 v Hn) as (Hpr & Hnc & ->). rewrite Hp, Hd in Hpr.
      destruct (filter_length_all _ ds caps Hpr Hin) as [u Hu]. rewrite Hu.
      by rewrite (Hv n caps u Hnc Hin Hu).
    + intros n v Hn Hb. destruct (decide_captures_spec _ _ _ _ n Ed) as [H1 H2].
      destruct (H2 Hb) as [[u Hu]|[?|H0]]; [|by right|].
      * left. destruct (H1 u Hu) as (_ & Hnc & ->). rewrite Hu. by rewrite (Hv n caps v Hnc Hin Hn).
      * exfalso. rewrite Hp in H0. revert H0. apply (filter_length_pos _ ds caps Hin). eauto.
Qed.

(** ** Claims *)

(** The target a path has under any method is the one the decision uses.
    A block is reported exactly when some method matches it; under every
    method, a capture reported as decided has the reported value, and a capture
    that occurs is reported as decided or as undecided, never left out. *)
Theorem target_by_path_exact (block : Block) (path : string) :
  (targetByPath block path = None <-> forall method, matchTarget block path method = None) /\
  (forall t method route axis caps,
     targetByPath block path = Some t -> matchTarget block path method = Some (route, axis, caps) ->
     t_Block t = block /\
     (forall n v, t_Captures t !! n = Some v -> caps !! n = Some v) /\
     (forall n v, caps !! n = Some v -> n ∈ bl_Captures block ->
        t_Captures t !! n = Some v \/ n ∈ t_Undecided t)).
Proof. apply targetByPath_spec. Qed.
