(* ===== verification/Lua.v ===== *)
(** * Numbers of the server-side script

    The Lua of the script computes in IEEE doubles. Values are integers here,
    and each operation is the exact one followed by rounding to the nearest
    double, ties to even; the quotient of two doubles is rounded before its
    floor or ceiling is taken. The lemmas show where rounding does nothing. *)
From S2P Require Import Prelude GoStrings Compile MatchFacts MatchKeys.

(** ** Definitions *)

(** [N / D] rounded to the nearest integer, ties to even; [0 <= N], [0 < D]. *)
Definition rne (N D : Z) : Z :=
  let q := N / D in
  let r := N mod D in
  if 2 * r <? D then q
  else if D <? 2 * r then q + 1
  else if Z.even q then q else q + 1.

(** The double nearest to an integer. *)
Definition dbl (z : Z) : Z :=
  if Z.abs z <=? 2 ^ 53 then z
  else let e := Z.log2 (Z.abs z) - 52 in Z.sgn z * (rne (Z.abs z) (2 ^ e) * 2 ^ e).

(** The exponent of a positive quotient: [2 ^ qexp <= a / b < 2 ^ (qexp + 1)]. *)
Definition qexp (a b : Z) : Z :=
  let e := Z.log2 a - Z.log2 b in
  if b * 2 ^ (Z.max e 0) <=? a * 2 ^ (Z.max (- e) 0) then e else e - 1.

(** The double nearest to a positive quotient, as [(m, u)] for [m * 2 ^ u]. *)
Definition dquot (a b : Z) : Z * Z :=
  let u := qexp a b - 52 in
  (rne (a * 2 ^ (Z.max (- u) 0)) (b * 2 ^ (Z.max u 0)), u).

Definition floor_pos (a b : Z) : Z :=
  let '(m, u) := dquot a b in if 0 <=? u then m * 2 ^ u else m / 2 ^ (- u).
Definition ceil_pos (a b : Z) : Z :=
  let '(m, u) := dquot a b in if 0 <=? u then m * 2 ^ u else - (- m / 2 ^ (- u)).

(** [math.floor(a / b)] and [math.ceil(a / b)] for [0 < b] *)
Definition dfloor (a b : Z) : Z :=
  if a =? 0 then 0 else if a <? 0 then - ceil_pos (- a) b else floor_pos a b.
Definition dceil (a b : Z) : Z :=
  if a =? 0 then 0 else if a <? 0 then - floor_pos (- a) b else ceil_pos a b.

(** [tonumber] on the decimal integers the script meets; [None] is nil. *)
Definition tonumber (s : string) : option Z :=
  let '(neg, s) := match s with String "-" r => (true, r) | _ => (false, s) end in
  if negb (bool_decide (s = "")) && all_chars is_digit s
  then Some (if neg then - dbl (decimal s 0) else dbl (decimal s 0)) else None.

(** [string.format("%.0f", z)] *)
Definition fmt0 (z : Z) : string := pretty z.

(** ** Exactness *)

Lemma dbl_exact z : - 2 ^ 53 <= z <= 2 ^ 53 -> dbl z = z.
Proof. intros. unfold dbl. rewrite (proj2 (Z.leb_le _ _)) by lia. done. Qed.

Lemma rne_bounds N D : 0 < D -> 2 * N - D <= 2 * (D * rne N D) <= 2 * N + D.
Proof.
  intros HD. unfold rne. pose proof (Z.div_mod N D ltac:(lia)). pose proof (Z.mod_pos_bound N D HD).
  destruct (Z.ltb_spec (2 * (N mod D)) D); [nia|].
  destruct (Z.ltb_spec D (2 * (N mod D))); [nia|]. destruct (Z.even (N / D)); nia.
Qed.

(** Rounding a large integer keeps it large. *)
Lemma dbl_large z : 2 ^ 53 < z -> 2 ^ 53 <= dbl z.
Proof.
  intros Hz. unfold dbl. rewrite (proj2 (Z.leb_gt _ _)) by lia.
  rewrite Z.abs_eq, Z.sgn_pos by lia. set (e := Z.log2 z - 52).
  assert (53 <= Z.log2 z) as Hl by (apply Z.log2_le_pow2; lia).
  pose proof (Z.log2_spec z ltac:(lia)) as [Hlo _].
  assert (0 < 2 ^ e) as He by (apply Z.pow_pos_nonneg; lia).
  pose proof (rne_bounds z (2 ^ e) He) as [Hr _].
  assert (2 ^ Z.log2 z = 2 ^ 52 * 2 ^ e) as Hp by (rewrite <- Z.pow_add_r by lia; f_equal; lia).
  assert (2 <= 2 ^ e) by (change 2 with (2 ^ 1) at 1; apply Z.pow_le_mono_r; lia).
  set (P := 2 ^ e) in *. assert (2 ^ 52 <= rne z P); [|nia].
  assert (2 * 2 ^ 52 * P - P <= 2 * (P * rne z P)) by lia. nia.
Qed.

(** The quotient is normalised: at least [2 ^ 52] units of its last place. *)
Lemma qexp_norm a b :
  0 < a < 2 ^ 53 -> 0 < b ->
  let k := 52 - qexp a b in 0 <= k /\ 2 ^ 52 * b <= a * 2 ^ k.
Proof.
  intros Ha Hb k. subst k. unfold qexp.
  set (e := Z.log2 a - Z.log2 b).
  assert (Z.log2 a <= 52) by (apply Z.lt_succ_r; change (Z.succ 52) with 53; apply Z.log2_lt_pow2; lia).
  pose proof (Z.log2_nonneg a). pose proof (Z.log2_nonneg b).
  pose proof (Z.log2_spec a ltac:(lia)) as [Ha1 Ha2]. pose proof (Z.log2_spec b ltac:(lia)) as [Hb1 Hb2].
  destruct (Z.leb_spec (b * 2 ^ Z.max e 0) (a * 2 ^ Z.max (- e) 0)) as [Hle|Hgt].
  - split; [lia|]. destruct (Z_le_gt_dec 0 e).
    + rewrite (Z.max_l e), (Z.max_r (- e)), Z.pow_0_r, Z.mul_1_r in Hle by lia.
      replace 52 with (e + (52 - e)) at 1 by lia. rewrite Z.pow_add_r by lia. nia.
    + rewrite (Z.max_r e), (Z.max_l (- e)), Z.pow_0_r, Z.mul_1_r in Hle by lia.
      replace (52 - e) with (- e + 52) by lia. rewrite Z.pow_add_r by lia. nia.
  - split; [lia|]. replace (52 - (e - 1)) with (53 + Z.log2 b - Z.log2 a) by lia.
    apply Z.le_trans with (2 ^ Z.log2 a * 2 ^ (53 + Z.log2 b - Z.log2 a)).
    + rewrite <- Z.pow_add_r by lia. replace (Z.log2 a + (53 + Z.log2 b - Z.log2 a)) with (52 + Z.succ (Z.log2 b)) by lia.
      rewrite Z.pow_add_r by lia. nia.
    + apply Z.mul_le_mono_nonneg_r; [apply Z.pow_nonneg; lia|done].
Qed.

Lemma dquot_bounds a b :
  0 < a < 2 ^ 53 -> 0 < b ->
  let k := 52 - qexp a b in
  dquot a b = (rne (a * 2 ^ k) b, - k) /\ 0 <= k /\
  (a / b) * 2 ^ k <= rne (a * 2 ^ k) b < (a / b + 1) * 2 ^ k /\
  (a mod b <> 0 -> (a / b) * 2 ^ k < rne (a * 2 ^ k) b) /\
  (a mod b = 0 -> rne (a * 2 ^ k) b = (a / b) * 2 ^ k).
Proof.
  intros Ha Hb k. destruct (qexp_norm a b Ha Hb) as [Hk Hn]. fold k in Hk, Hn.
  assert (0 < 2 ^ k) as HP by (apply Z.pow_pos_nonneg; lia).
  pose proof (rne_bounds (a * 2 ^ k) b Hb) as Hr.
  pose proof (Z.div_mod a b ltac:(lia)) as Hd. pose proof (Z.mod_pos_bound a b Hb) as Hm.
  set (m := rne (a * 2 ^ k) b) in *. set (q := a / b) in *. set (r := a mod b) in *. set (P := 2 ^ k) in *.
  assert (b < 2 * P) as Hbk by nia.
  assert (a * P = b * (q * P) + r * P) as HaP by (rewrite Hd at 1; ring).
  split; [|split_and!].
  - unfold dquot. replace (qexp a b - 52) with (- k) by (unfold k; lia).
    rewrite Z.opp_involutive, Z.max_l, (Z.max_r (- k)) by lia. by rewrite Z.pow_0_r, Z.mul_1_r.
  - done.
  - assert (2 * (b * (q * P)) - b <= 2 * (b * m)) by nia.
    assert (2 * (q * P) - 1 <= 2 * m) by nia. lia.
  - assert (2 * (b * m) < 2 * (b * ((q + 1) * P))); [|nia]. nia.
  - intros Hr0. assert (2 * (b * (q * P)) < 2 * (b * m)); [|nia]. nia.
  - intros Hr0. rewrite Hr0 in HaP.
    assert (2 * (b * (q * P)) - b <= 2 * (b * m) <= 2 * (b * (q * P)) + b) by lia.
    assert (2 * (q * P) - 1 <= 2 * m <= 2 * (q * P) + 1) by nia. lia.
Qed.

Lemma floor_pos_exact a b : 0 < a < 2 ^ 53 -> 0 < b -> floor_pos a b = a / b.
Proof.
  intros Ha Hb. unfold floor_pos. destruct (dquot_bounds a b Ha Hb) as (-> & Hk & Hm & _).
  set (k := 52 - qexp a b) in *. assert (0 < 2 ^ k) by (apply Z.pow_pos_nonneg; lia).
  destruct (Z.leb_spec 0 (- k)).
  - assert (k = 0) as Hk0 by lia. rewrite Hk0 in *. change (2 ^ 0) with 1 in *. change (2 ^ - 0) with 1. lia.
  - rewrite Z.opp_involutive. symmetry.
    apply Z.div_unique with (r := rne (a * 2 ^ k) b - a / b * 2 ^ k); [left; nia|lia].
Qed.

Lemma ceil_pos_exact a b : 0 < a < 2 ^ 53 -> 0 < b -> ceil_pos a b = - (- a / b).
Proof.
  intros Ha Hb. unfold ceil_pos. destruct (dquot_bounds a b Ha Hb) as (-> & Hk & Hm & Hr1 & Hr0).
  set (k := 52 - qexp a b) in *. assert (0 < 2 ^ k) as HP by (apply Z.pow_pos_nonneg; lia).
  set (m := rne (a * 2 ^ k) b) in *. set (P := 2 ^ k) in *.
  pose proof (Z.div_mod a b ltac:(lia)) as Hd. pose proof (Z.mod_pos_bound a b Hb) as Hmb.
  assert (- (- a / b) = if a mod b =? 0 then a / b else a / b + 1) as ->.
  { destruct (Z.eqb_spec (a mod b) 0) as [H0|H0].
    - rewrite Z.div_opp_l_z by lia. lia.
    - rewrite Z.div_opp_l_nz by lia. lia. }
  destruct (Z.leb_spec 0 (- k)).
  - assert (k = 0) as Hk0 by lia. unfold P in *. rewrite Hk0 in *. change (2 ^ 0) with 1 in *. change (2 ^ - 0) with 1.
    destruct (Z.eqb_spec (a mod b) 0) as [H0|H0]; [specialize (Hr0 H0); lia|specialize (Hr1 H0); lia].
  - rewrite Z.opp_involutive. fold P. destruct (Z.eqb_spec (a mod b) 0) as [H0|H0].
    + rewrite (Hr0 H0). rewrite <- Z.mul_opp_l, Z.div_mul by lia. lia.
    + specialize (Hr1 H0). assert (- m / P = - (a / b + 1)); [|lia].
      symmetry. apply Z.div_unique with (r := - m + (a / b + 1) * P); [left; nia|lia].
Qed.

Lemma dfloor_exact a b : - 2 ^ 53 < a < 2 ^ 53 -> 0 < b -> dfloor a b = a / b.
Proof.
  intros Ha Hb. unfold dfloor. destruct (Z.eqb_spec a 0) as [->|]; [by rewrite Z.div_0_l by lia|].
  destruct (Z.ltb_spec a 0); [|by apply floor_pos_exact; lia].
  rewrite ceil_pos_exact by lia. by rewrite !Z.opp_involutive.
Qed.

Lemma dceil_exact a b : 0 <= a < 2 ^ 53 -> 0 < b -> dceil a b = - (- a / b).
Proof.
  intros Ha Hb. unfold dceil. destruct (Z.eqb_spec a 0) as [->|]; [by rewrite Z.div_0_l by lia|].
  rewrite (proj2 (Z.ltb_ge a 0)) by lia. apply ceil_pos_exact; lia.
Qed.

(** ** Printing and reading back *)

Lemma tonumber_pretty z : 0 <= z -> tonumber (pretty z) = Some (dbl z).
Proof.
  intros Hz. destruct (pretty_digits z Hz) as [Hd Hne]. unfold tonumber.
  assert (forall s, all_chars is_digit s = true ->
    match s with String "-" r => (true, r) | _ => (false, s) end = (false, s)) as Hs.
  { intros [|c s] Hc; [done|]. cbn [all_chars] in Hc. apply andb_true_iff in Hc as [Hc _].
    destruct c as [[] [] [] [] [] [] [] []]; done. }
  rewrite (Hs _ Hd), Hd, bool_decide_false by done. cbn [negb andb]. by rewrite decimal_pretty.
Qed.
