(* ===== verification/Redis.v ===== *)
(** * engine/store/redis: the shared store

    The decision script (script.lua) and the Go side around it. The server is
    an interface with the laws the script relies on: a value set with a time
    to live is readable until the server's millisecond clock is past it, and a
    key that is gone stays gone. The script runs atomically, as Redis runs
    scripts. *)
From S2P Require Import Prelude GoStrings Algo Key StoreApi Compile MatchFacts MatchKeys Lua.

(** ** Definitions *)

(** What the store uses of a Redis server with state [DB]; the first argument
    of an operation is the server's clock in microseconds. *)
Class RedisServer (DB : Type) := {
  GET : Z -> string -> DB -> option string;
  SETPX : Z -> string -> string -> Z -> DB -> DB;
  DEL : string -> DB -> DB;

  (** readable while the millisecond clock has not passed the expiry *)
  set_get : forall t0 t k v px db, t0 <= t -> 1 <= px -> t / 1000 <= t0 / 1000 + px ->
    GET t k (SETPX t0 k v px db) = Some v;
  set_get_late : forall t0 t k v px db, t0 <= t -> 1 <= px ->
    GET t k (SETPX t0 k v px db) = Some v \/ GET t k (SETPX t0 k v px db) = None;
  set_get_other : forall t0 t k k' v px db, k <> k' -> GET t k' (SETPX t0 k v px db) = GET t k' db;
  del_get : forall t k k' db, GET t k' (DEL k db) = if bool_decide (k = k') then None else GET t k' db;
  (** a key readable later was readable, with the same value, before *)
  expired_stays : forall t0 t1 k v db, t0 <= t1 -> GET t1 k db = Some v -> GET t0 k db = Some v
}.

(** *** The script *)

(** One bucket's part of the reply and, when its own verdict allows, the
    charged shape: the remaining and reset, and the next state. *)
Record row := mkRow {
  rw_allowed : bool;
  rw_exceeds : bool;
  rw_remaining : Z;
  rw_retry : Z;
  rw_reset : Z;
  rw_charged : option (Z * Z * string) }.

Definition lua_gcra (now cost emission tau burst : Z) (state : option string) : row :=
  let tat := match state ≫= tonumber with
             | Some stored => if now <? stored then stored else now
             | None => now
             end in
  let depth := dbl (tat - now) in
  let current := dfloor (dbl (tau - depth)) emission in
  let current := if current <? 0 then 0 else current in
  if burst <? cost then mkRow false true current (-1) depth None
  else
    let new_tat := dbl (tat + dbl (emission * cost)) in
    let diff := dbl (now - dbl (new_tat - tau)) in
    if 0 <=? diff
    then mkRow true false current (-1) depth
           (Some (dfloor diff emission, dbl (new_tat - now), fmt0 new_tat))
    else mkRow false false current (- diff) depth None.

Definition lua_fixed (now cost period requests : Z) (state : option string) : row :=
  let start := dbl (now - dbl (now - dbl (dfloor now period * period))) in
  let count :=
    match state with
    | None => 0
    | Some state =>
        let '(s, c, sep) := Cut ":" state in
        if sep then
          match tonumber s, tonumber c with
          | Some s, Some c => if s =? start then c else 0
          | _, _ => 0
          end
        else 0
    end in
  let left := dbl (requests - count) in
  let left := if left <? 0 then 0 else left in
  let boundary := dbl (dbl (start + period) - now) in
  let allowed := cost <=? left in
  let exceeds := requests <? cost in
  mkRow allowed exceeds left (if allowed || exceeds then -1 else boundary)
    (if count =? 0 then 0 else boundary)
    (if allowed then Some (dbl (left - cost), boundary, fmt0 start +:+ ":" +:+ fmt0 (dbl (count + cost)))
     else None).

(** The first pass over the arguments, six at a time; [None] is a script
    error. *)
Fixpoint script_rows (now : Z) (argv : list string) (states : list (option string))
    : option (list (row * bool)) :=
  match states, argv with
  | [], [] => Some []
  | state :: states, a1 :: a2 :: a3 :: a4 :: a5 :: a6 :: argv =>
      cost ← tonumber a1; alg ← tonumber a2; p1 ← tonumber a3; p2 ← tonumber a4; p3 ← tonumber a5;
      rows ← script_rows now argv states;
      let row := if alg =? 1 then lua_gcra now cost p1 p2 p3 state else lua_fixed now cost p1 p2 state in
      Some ((row, bool_decide (a6 = "1")) :: rows)
  | _, _ => None
  end.

Definition bit (b : bool) : Z := if b then 1 else 0.

Definition row_current (r : row) : list Z :=
  [bit (rw_allowed r); bit (rw_exceeds r); rw_remaining r; rw_retry r; rw_reset r].

(** What a server reply can be, as the client decodes it. *)
Inductive reply :=
| RInt (z : Z)
| RArray (l : list reply)
| ROther.

Section server.
Context {DB : Type} `{RedisServer DB}.

(** The commit pass. *)
Fixpoint commit_rows (now : Z) (commit : bool) (keys : list string) (rows : list (row * bool)) (db : DB)
    : DB * list Z :=
  match keys, rows with
  | k :: keys, (r, _) :: rows =>
      match (if commit then rw_charged r else None) with
      | Some (rc, sc, state) =>
          let db := SETPX now k state (dceil sc 1000) db in
          let '(db, out) := commit_rows now commit keys rows db in
          (db, 1 :: 0 :: rc :: -1 :: sc :: out)
      | None =>
          let '(db, out) := commit_rows now commit keys rows db in
          (db, row_current r ++ out)
      end
  | _, _ => (db, [])
  end.

Definition script (now : Z) (keys argv : list string) (db : DB) : DB * option reply :=
  match argv with
  | [] => (db, None)
  | mode :: argv =>
      let states := map (fun k => GET now k db) keys in
      match script_rows now argv states with
      | None => (db, None)
      | Some rows =>
          let admitted := forallb (fun rs => rs.2 || rw_allowed rs.1) rows in
          let '(db, out) := commit_rows now (admitted && bool_decide (mode = "decide")) keys rows db in
          (db, Some (RArray (RInt <$> bit admitted :: out)))
      end
  end.

(** *** The Go side *)

Definition boolArg (b : bool) : string := if b then "1" else "0".

Definition redis_micros (us : Z) : Z := if us <? 0 then -1 else us *i Microsecond.

(** The arguments of one bucket; [None] is an unknown algorithm. *)
Definition bucket_args (b : Bucket) : option (list string) :=
  let w := b_Window b in
  if b_Algorithm b =? GCRAID then
    Some [pretty (b_Cost b); pretty GCRAID; pretty (EmissionMicros w); pretty (TauMicros w);
          pretty (Burst w); boolArg (b_Shadow b)]
  else if b_Algorithm b =? FixedWindowID then
    Some [pretty (b_Cost b); pretty FixedWindowID; pretty (PeriodMicros w); pretty (Requests w);
          pretty 0; boolArg (b_Shadow b)]
  else None.

Fixpoint args_loop (bs : list Bucket) : result StoreError (list string) :=
  match bs with
  | [] => Ok []
  | b :: bs =>
      match bucket_args b with
      | None => Err (ErrUnknownAlgorithm (b_Algorithm b))
      | Some args => let? rest := args_loop bs in Ok (args ++ rest)
      end
  end.

Fixpoint verdicts_loop (arr : list reply) (n : nat) {struct n} : result StoreError (list Verdict) :=
  match n with
  | O => Ok []
  | S n =>
      match arr with
      | RInt a :: RInt x :: RInt rem :: RInt retry :: RInt reset :: arr =>
          let? vs := verdicts_loop arr n in
          Ok (mkVerdict (a =? 1) rem (x =? 1) (redis_micros retry) (redis_micros reset) :: vs)
      | _ => Err (ErrBackend "redis: decision script returned a non-integer")
      end
  end.

Definition parseReply (res : reply) (n : nat) : result StoreError (list Verdict) :=
  match res with
  | RArray (first :: arr) =>
      if (length arr =? n * 5)%nat then verdicts_loop arr n
      else Err (ErrBackend "redis: decision script returned a malformed reply")
  | _ => Err (ErrBackend "redis: decision script returned a malformed reply")
  end.

Definition run (now : Z) (mode : string) (bs : list Bucket) (db : DB) : DB * result StoreError (list Verdict) :=
  match GuardBuckets bs with
  | Err e => (db, Err e)
  | Ok _ =>
      if (length bs =? 0)%nat then (db, Ok [])
      else match args_loop bs with
           | Err e => (db, Err e)
           | Ok args =>
               match script now (b_Key <$> bs) (mode :: args) db with
               | (db, None) => (db, Err (ErrBackend "redis: decision script"))
               | (db, Some res) => (db, parseReply res (length bs))
               end
           end
  end.

Definition redis_Decide (now : Z) (bs : list Bucket) (db : DB) := run now "decide" bs db.
Definition redis_Peek (now : Z) (bs : list Bucket) (db : DB) := run now "peek" bs db.

(** [Reset]: one DEL per key. *)
Definition redis_Reset (keys : list string) (db : DB) : DB := foldl (fun db k => DEL k db) db keys.

End server.

(** *** Scan cursors *)

Definition formatScanCursor (addr : string) (pos : Z) : string :=
  if bool_decide (addr = "") then pretty pos else addr +:+ "@" +:+ pretty pos.

(** [strings.LastIndexByte] and the two slices around it. *)
Fixpoint cut_last (c : ascii) (s : string) : option (string * string) :=
  match s with
  | EmptyString => None
  | String d r =>
      match cut_last c r with
      | Some (a, b) => Some (String d a, b)
      | None => if bool_decide (d = c) then Some (EmptyString, r) else None
      end
  end.

Fixpoint node_index (addrs : list string) (addr : string) : option nat :=
  match addrs with
  | [] => None
  | a :: addrs => if bool_decide (a = addr) then Some 0%nat else S <$> node_index addrs addr
  end.

(** The nodes by their addresses; [None] is [ErrBadCursor]. *)
Definition parseScanCursor (cursor : string) (addrs : list string) : option (nat * Z) :=
  if bool_decide (cursor = "") then Some (0%nat, 0)
  else
    let '(addr, digits) := match cut_last "@"%char cursor with Some p => p | None => ("", cursor) end in
    match ParseUint digits with
    | None => None
    | Some pos => match node_index addrs addr with Some i => Some (i, pos) | None => None end
    end.

(** *** Patterns *)

Definition glob_meta (c : ascii) : bool := contains_char c "\*?[]".

Fixpoint escapeGlob (s : string) : string :=
  match s with
  | EmptyString => EmptyString
  | String c s => if glob_meta c then String "\"%char (String c (escapeGlob s)) else String c (escapeGlob s)
  end.

(** *** Scan

    The walk over the masters of a deployment. [SCAN addr pos match count] is
    the server's command on the master of that address. *)

(** What the client tells of the deployment: whether it is a cluster, the
    master that owns a key, and the addresses of all masters. *)
Record Topology := mkTopology {
  cluster : bool;
  MasterForKey : string -> result string string;
  ForEachMaster : result string (list string) }.

(** The addresses of the masters a walk reads, in the order the cursor counts
    them; outside a cluster there is one node without an address. *)
Definition scanNodes (tp : Topology) (prefix : string) : result string (list string) :=
  if negb (cluster tp) then Ok [""]
  else if hasHashTag prefix then let? owner := MasterForKey tp prefix in Ok [owner]
  else let? l := ForEachMaster tp in Ok (sort_strings l).

Section scan.
Context (SCAN : string -> Z -> string -> Z -> result string (list string * Z)).

(** The loop of [Scan] over the nodes from the current one on; [None] is the
    panic of an index past the last node. *)
Fixpoint scan_loop (nodes : list string) (pos : Z) (pattern : string) (limit : Z)
    : option (result StoreError (list string * string)) :=
  match nodes with
  | [] => None
  | addr :: nodes =>
      match SCAN addr pos pattern limit with
      | Err e => Some (Err (ErrBackend e))
      | Ok (keys, next) =>
          let keys := sort_strings keys in
          if negb (next =? 0) then Some (Ok (keys, formatScanCursor addr next))
          else match nodes with
               | addr' :: _ =>
                   if (0 <? length keys)%nat then Some (Ok (keys, formatScanCursor addr' 0))
                   else scan_loop nodes 0 pattern limit
               | [] => Some (Ok (keys, ""))
               end
      end
  end.

Definition redis_Scan (tp : Topology) (prefix cursor : string) (limit : Z)
    : option (result StoreError (list string * string)) :=
  if limit <? 1 then Some (Err (ErrBackend "redis: scan: limit must be at least 1"))
  else match scanNodes tp prefix with
       | Err e => Some (Err (ErrBackend e))
       | Ok nodes =>
           match parseScanCursor cursor nodes with
           | None => Some (Err ErrBadCursor)
           | Some (node, pos) => scan_loop (drop node nodes) pos (escapeGlob prefix +:+ "*") limit
           end
       end.

End scan.
