(* ===== verification/RedisFacts.v ===== *)
(** * The Redis store meets the counter contract

    In exact arithmetic: every number the script computes is an integer below
    2^53, so the doubles round nothing, the printed state reads back as it was,
    and the time to live outlasts the counter. *)
From S2P Require Import Prelude GoStrings Algo Key StoreApi Compile MatchFacts MatchKeys Lua Redis.

(** ** Definitions *)

(** The most a double counts exactly, one short of 2^53. *)
Definition redis_cap : Z := 2 ^ 53 - 1.

Section store.
Context {DB : Type} `{RedisServer DB} (kind : string -> Kind).

Definition period_us (k : string) : Z := k_period (kind k) / Microsecond.

(** The level a value stands for. *)
Definition value_level (k : string) (now : Z) (v : string) : Z :=
  match k_alg (kind k) with
  | gcra => match tonumber v with Some t => Z.max (t - now) 0 | None => 0 end
  | fixedWindow =>
      let '(s, c, _) := Cut ":" v in
      match tonumber s, tonumber c with
      | Some s, Some c => if s =? window_start (period_us k) now then c else 0
      | _, _ => 0
      end
  end.

Definition redis_level (now : Z) (db : DB) (k : string) : Z :=
  match GET now k db with Some v => value_level k now v | None => 0 end.

(** A value the script wrote for a key of its kind, and the instant from which
    it no longer matters. *)
Definition value_ok (k : string) (now : Z) (v : string) (deadline : Z) : Prop :=
  match k_alg (kind k) with
  | gcra => v = pretty deadline /\ 0 <= deadline <= maxNow + maxTauMicros
  | fixedWindow =>
      exists s c, v = pretty s +:+ ":" +:+ pretty c /\ deadline = s + period_us k /\
        1000000 <= period_us k <= 86400000000 /\ 0 <= s <= now /\ s mod period_us k = 0 /\ 0 <= c <= redis_cap
  end.

Definition redis_inv (now : Z) (db : DB) : Prop :=
  forall k v, GET now k db = Some v ->
    exists deadline, value_ok k now v deadline /\
      forall t, now <= t < deadline -> GET t k db = Some v.

(** ** Reading a value *)

Lemma value_level_gcra k now (t : Z) :
  k_alg (kind k) = gcra -> 0 <= t <= maxNow + maxTauMicros -> value_level k now (pretty t) = Z.max (t - now) 0.
Proof.
  intros Hk Ht. unfold value_level, maxNow, maxTauMicros in *. rewrite Hk, tonumber_pretty by lia.
  by rewrite dbl_exact by lia.
Qed.

Lemma cut_state (s c : Z) : 0 <= s -> Cut ":" (pretty s +:+ ":" +:+ pretty c) = (pretty s, pretty c, true).
Proof.
  intros Hs. pose proof (pretty_Z_no_colon s) as Hn. revert Hn. generalize (pretty s). clear.
  induction s as [|d s IH]; intros Hn; [done|]. cbn [contains_char] in Hn. apply orb_false_iff in Hn as [Hd Hn].
  apply bool_decide_eq_false in Hd. change (String d s +:+ ":" +:+ pretty c) with (String d (s +:+ ":" +:+ pretty c)).
  cbn [Cut]. rewrite bool_decide_false by congruence. by rewrite IH.
Qed.

Lemma value_level_fixed k now (s c : Z) :
  k_alg (kind k) = fixedWindow -> 0 <= s <= maxNow -> 0 <= c <= redis_cap ->
  value_level k now (pretty s +:+ ":" +:+ pretty c) = if s =? window_start (period_us k) now then c else 0.
Proof.
  intros Hk Hs Hc. unfold value_level, maxNow, redis_cap in *. rewrite Hk, cut_state by lia.
  rewrite !tonumber_pretty by lia. by rewrite !dbl_exact by lia.
Qed.

(** ** The evaluations in exact arithmetic *)

Definition state_ok (k : string) (now : Z) (state : option string) (lvl : Z) : Prop :=
  match state with
  | None => lvl = 0
  | Some v => exists deadline, value_ok k now v deadline /\ lvl = value_level k now v
  end.

(** What a row has to say about a bucket at a level. *)
Definition row_ok (now : Z) (b : Bucket) (lvl : Z) (r : row) : Prop :=
  rw_allowed r = judge_allowed b lvl /\ rw_exceeds r = judge_exceeds b /\
  rw_remaining r = room b lvl /\ rw_reset r = drain now b lvl /\
  rw_retry r = (if judge_allowed b lvl || judge_exceeds b then -1 else wait now b lvl) /\
  0 <= drain now b lvl < 2 ^ 53 /\
  (judge_allowed b lvl = false -> judge_exceeds b = false -> 0 <= wait now b lvl < 2 ^ 53) /\
  (judge_allowed b lvl = false -> rw_charged r = None) /\
  (judge_allowed b lvl = true -> exists state deadline,
     rw_charged r = Some (room b (charge b lvl), drain now b (charge b lvl), state) /\
     value_ok (b_Key b) now state deadline /\ deadline = now + drain now b (charge b lvl) /\
     1 <= drain now b (charge b lvl) < 2 ^ 53 /\
     value_level (b_Key b) now state = charge b lvl).

Lemma cost_le_dbl x c : x <= redis_cap -> 0 <= c -> (dbl c <=? x) = (c <=? x).
Proof.
  intros Hx Hc. unfold redis_cap in *. destruct (Z_le_gt_dec c (2 ^ 53)).
  - by rewrite dbl_exact by lia.
  - pose proof (dbl_large c ltac:(lia)). rewrite !(proj2 (Z.leb_gt _ _)) by lia. done.
Qed.
Lemma cost_lt_dbl x c : x <= redis_cap -> 0 <= c -> (x <? dbl c) = (x <? c).
Proof. intros Hx Hc. rewrite !Z.ltb_antisym. by rewrite cost_le_dbl. Qed.

Lemma lua_gcra_ok now b lvl state :
  bucket_ok redis_cap kind b -> time_ok now -> b_Algorithm b = GCRAID -> state_ok (b_Key b) now state lvl ->
  row_ok now b lvl (lua_gcra now (dbl (b_Cost b)) (EmissionMicros (b_Window b)) (TauMicros (b_Window b))
                      (Burst (b_Window b)) state).
Proof.
  intros Hb Ht Ha Hst. destruct (bucket_ok_gcra redis_cap kind b Hb Ha) as [Hk Hw].
  pose proof (gcra_ok_facts _ Hw) as (_ & Hp & Hem & _ & Htau & Hbu & Htm).
  destruct Hb as (_ & _ & Hc & _). unfold time_ok, maxNow, maxTauMicros in *.
  set (em := EmissionMicros (b_Window b)) in *. set (tau := TauMicros (b_Window b)) in *.
  set (bu := Burst (b_Window b)) in *. set (c := b_Cost b) in *.
  assert ((match state ≫= tonumber with
           | Some stored => if now <? stored then stored else now | None => now end) = now + lvl /\
          (0 <= lvl /\ now + lvl <= 8000000000000000)) as [Htat Hl].
  { destruct state as [v|]; simpl in *; [|lia].
    destruct Hst as (dl & Hv & ->). unfold value_ok in Hv. rewrite Hk in Hv.
    destruct Hv as [-> Hdl]. unfold maxNow, maxTauMicros in Hdl.
    rewrite value_level_gcra by (done || unfold maxNow, maxTauMicros; lia).
    rewrite tonumber_pretty, dbl_exact by lia. destruct (Z.ltb_spec now dl); lia. }
  unfold lua_gcra. rewrite Htat. replace (now + lvl - now) with lvl by lia.
  rewrite (dbl_exact lvl) by lia. rewrite (dbl_exact (tau - lvl)) by lia. rewrite dfloor_exact by lia.
  assert ((if (tau - lvl) / em <? 0 then 0 else (tau - lvl) / em) = Z.max ((tau - lvl) / em) 0) as Hcur
    by (destruct (Z.ltb_spec ((tau - lvl) / em) 0); lia).
  rewrite Hcur. rewrite cost_lt_dbl by (unfold redis_cap; lia).
  unfold row_ok, judge_allowed, judge_exceeds, room, drain, wait, charge. rewrite Ha. cbn [Z.eqb GCRAID Pos.eqb].
  fold em tau bu c. destruct (Z.ltb_spec bu c) as [Hx|Hx].
  { rewrite (proj2 (Z.leb_gt c bu)) by lia. cbn [andb orb rw_allowed rw_exceeds rw_remaining rw_reset rw_retry rw_charged].
    split_and!; try done; lia. }
  rewrite (proj2 (Z.leb_le c bu)) by lia. cbn [andb].
  assert (em * c <= tau) by nia. assert (em <= em * c) by nia.
  rewrite (dbl_exact c) by lia. rewrite (dbl_exact (em * c)) by lia. rewrite (dbl_exact (now + lvl + em * c)) by lia.
  rewrite (dbl_exact (now + lvl + em * c - tau)) by lia.
  set (nl := lvl + em * c). replace (now + lvl + em * c) with (now + nl) by (unfold nl; lia).
  rewrite (dbl_exact (now - (now + nl - tau))) by (unfold nl; lia).
  replace (now - (now + nl - tau)) with (tau - nl) by lia.
  replace (now + nl - now) with nl by lia. rewrite (dbl_exact nl) by (unfold nl; lia).
  destruct (Z.leb_spec 0 (tau - nl)) as [Hd|Hd].
  - rewrite (proj2 (Z.leb_le nl tau)) by lia.
    cbn [orb rw_allowed rw_exceeds rw_remaining rw_reset rw_retry rw_charged].
    split_and!; try done; try lia. intros _. exists (fmt0 (now + nl)), (now + nl).
    rewrite dfloor_exact by lia. rewrite Z.max_l by (apply Z.div_pos; lia).
    split_and!; try done; try (unfold nl; lia).
    + unfold value_ok. rewrite Hk. split; [done|]. unfold maxNow, maxTauMicros, nl. lia.
    + unfold fmt0. rewrite value_level_gcra by (done || unfold maxNow, maxTauMicros, nl; lia). unfold nl. lia.
  - rewrite (proj2 (Z.leb_gt nl tau)) by lia.
    cbn [orb rw_allowed rw_exceeds rw_remaining rw_reset rw_retry rw_charged].
    split_and!; try done; try (intros; unfold nl in *; lia).
Qed.

Lemma lua_fixed_ok now b lvl state :
  bucket_ok redis_cap kind b -> time_ok now -> b_Algorithm b <> GCRAID -> state_ok (b_Key b) now state lvl ->
  row_ok now b lvl (lua_fixed now (dbl (b_Cost b)) (PeriodMicros (b_Window b)) (Requests (b_Window b)) state).
Proof.
  intros Hb Ht Ha Hst. destruct (bucket_ok_fixed redis_cap kind b Hb Ha) as (_ & Hk & Hw & Hrq).
  pose proof (bucket_ok_period redis_cap kind b Hb) as Hper.
  pose proof (fixed_ok_facts _ Hw) as [Hpm Hp]. destruct Hw as (_ & Hr1 & _).
  destruct Hb as (_ & _ & Hc & _). rewrite Hpm in *. unfold time_ok, maxNow, redis_cap in *.
  unfold row_ok, judge_allowed, judge_exceeds, room, drain, wait, charge, b_period.
  rewrite (proj2 (Z.eqb_neq _ _) Ha).
  set (p := Period (b_Window b) / Microsecond) in *. set (rq := Requests (b_Window b)) in *.
  set (c := b_Cost b) in *. assert (period_us (b_Key b) = p) as Hpk by (unfold period_us; by rewrite Hper).
  set (st := window_start p now).
  pose proof (window_start_bounds p now ltac:(lia)) as Hws. fold st in Hws.
  pose proof (window_start_mod p now ltac:(lia)) as Hmod. fold st in Hmod.
  assert (0 <= st) as Hst0.
  { unfold st, window_start. pose proof (Z.mod_le now p). lia. }
  assert (st = now / p * p) as Hsp by (unfold st, window_start; rewrite (Z.mod_eq now p) by lia; lia).
  unfold lua_fixed. rewrite dfloor_exact by lia. rewrite <- Hsp.
  rewrite (dbl_exact st) by lia. rewrite (dbl_exact (now - st)) by lia.
  replace (now - (now - st)) with st by lia. rewrite (dbl_exact st) by lia.
  set (count := match state with Some _ => _ | None => _ end).
  assert (count = lvl /\ 0 <= lvl <= redis_cap) as [-> Hl].
  { subst count. destruct state as [v|]; simpl in Hst; [|subst; unfold redis_cap; lia].
    destruct Hst as (dl & Hv & ->). unfold value_ok in Hv. rewrite Hk in Hv.
    destruct Hv as (s & cn & -> & _ & _ & Hs & _ & Hcn). unfold redis_cap in Hcn.
    rewrite value_level_fixed by (done || unfold maxNow, redis_cap; lia).
    rewrite cut_state, !tonumber_pretty, !dbl_exact by lia. rewrite Hpk. fold st.
    unfold redis_cap. destruct (s =? st); lia. }
  unfold redis_cap in Hl. rewrite (dbl_exact (rq - lvl)) by lia.
  assert ((if rq - lvl <? 0 then 0 else rq - lvl) = Z.max (rq - lvl) 0) as ->
    by (destruct (Z.ltb_spec (rq - lvl) 0); lia).
  rewrite (dbl_exact (st + p)) by lia. rewrite (dbl_exact (st + p - now)) by lia.
  rewrite cost_le_dbl, cost_lt_dbl by (unfold redis_cap; lia).
  cbn [rw_allowed rw_exceeds rw_remaining rw_reset rw_retry rw_charged].
  split_and!; try done; try (destruct (lvl =? 0); lia); try lia.
  - intros ->. done.
  - intros Hj. rewrite Hj. apply Z.leb_le in Hj. exists (fmt0 st +:+ ":" +:+ fmt0 (lvl + c)), (st + p).
    rewrite (dbl_exact c) by lia. rewrite (dbl_exact (lvl + c)), (dbl_exact (Z.max (rq - lvl) 0 - c)) by lia.
    rewrite (proj2 (Z.eqb_neq (lvl + c) 0)) by lia.
    split_and!; try lia.
    + f_equal. f_equal. f_equal. lia.
    + unfold value_ok. rewrite Hk, Hpk. exists st, (lvl + c). unfold redis_cap. by split_and!; try lia.
    + unfold fmt0. rewrite value_level_fixed by (done || unfold maxNow, redis_cap; lia).
      rewrite Hpk. fold st. by rewrite Z.eqb_refl.
Qed.

(** ** The script on a decision *)

Lemma db_state_ok now db k : redis_inv now db -> state_ok k now (GET now k db) (redis_level now db k).
Proof.
  intros Hi. unfold state_ok, redis_level. destruct (GET now k db) as [v|] eqn:E; [|done].
  destruct (Hi k v E) as (dl & Hv & _). by exists dl.
Qed.

Lemma script_rows_ok now db bs :
  redis_inv now db -> time_ok now -> Forall (bucket_ok redis_cap kind) bs ->
  exists args rows, args_loop bs = Ok args /\
    script_rows now args (map (fun k => GET now k db) (b_Key <$> bs)) = Some rows /\
    Forall2 (fun b rs => row_ok now b (redis_level now db (b_Key b)) rs.1 /\ rs.2 = b_Shadow b) bs rows.
Proof.
  intros Hi Ht. induction 1 as [|b bs Hb Hbs (args & rows & Ha & Hr & Hf)].
  { exists [], []. by split_and!. }
  cbn [args_loop]. unfold bucket_args. pose proof (db_state_ok now db (b_Key b) Hi) as Hst.
  pose proof Hb as (_ & _ & Hc & _).
  assert (bool_decide (boolArg (b_Shadow b) = "1") = b_Shadow b) as Hsh by (by destruct (b_Shadow b)).
  destruct (Z.eqb_spec (b_Algorithm b) GCRAID) as [Hg|Hg].
  - destruct (bucket_ok_gcra redis_cap kind b Hb Hg) as [_ Hw].
    pose proof (gcra_ok_facts _ Hw) as (_ & Hp & Hem & _ & Htau & Hbu & Htm). unfold maxTauMicros in *.
    rewrite Ha. eexists _, _. split; [done|]. rewrite fmap_cons. cbn [map script_rows app].
    rewrite !tonumber_pretty by (unfold GCRAID; lia). cbn [mbind option_bind]. rewrite Hr.
    rewrite (dbl_exact GCRAID), (dbl_exact (EmissionMicros _)), (dbl_exact (TauMicros _)), (dbl_exact (Burst _))
      by (unfold GCRAID; lia).
    cbn [Z.eqb GCRAID Pos.eqb mbind option_bind]. split; [done|]. constructor; [|done]. cbn [fst snd].
    split; [|done]. by apply lua_gcra_ok.
  - destruct (bucket_ok_fixed redis_cap kind b Hb Hg) as (Hfx & _ & Hw & Hrq).
    pose proof (fixed_ok_facts _ Hw) as [_ Hp]. destruct Hw as (_ & Hr1 & _). unfold redis_cap in Hrq.
    rewrite Hfx. cbn [Z.eqb FixedWindowID Pos.eqb].
    rewrite Ha. eexists _, _. split; [done|]. rewrite fmap_cons. cbn [map script_rows app].
    rewrite !tonumber_pretty by (unfold FixedWindowID; lia). cbn [mbind option_bind]. rewrite Hr.
    rewrite (dbl_exact FixedWindowID), (dbl_exact (PeriodMicros _)), (dbl_exact (Requests _))
      by (unfold FixedWindowID; lia).
    cbn [Z.eqb FixedWindowID Pos.eqb mbind option_bind]. split; [done|]. constructor; [|done]. cbn [fst snd].
    split; [|done]. by apply lua_fixed_ok.
Qed.

(** The time to live outlasts the counter: the key is readable until it has
    drained, whatever part of a millisecond the clock stands at. *)
Lemma ttl_outlasts now sc t : 1 <= sc -> t < now + sc -> t / 1000 <= now / 1000 + - (- sc / 1000).
Proof.
  intros Hs Ht. apply Z.lt_succ_r, Z.div_lt_upper_bound; [lia|].
  pose proof (Z.div_mod now 1000 ltac:(lia)). pose proof (Z.mod_pos_bound now 1000 ltac:(lia)).
  pose proof (Z.div_mod (- sc) 1000 ltac:(lia)). pose proof (Z.mod_pos_bound (- sc) 1000 ltac:(lia)). lia.
Qed.

Lemma set_inv now db k v deadline sc :
  redis_inv now db -> value_ok k now v deadline -> deadline = now + sc -> 1 <= sc < 2 ^ 53 ->
  redis_inv now (SETPX now k v (dceil sc 1000) db) /\
  (forall k', redis_level now (SETPX now k v (dceil sc 1000) db) k' =
     if bool_decide (k = k') then value_level k now v else redis_level now db k').
Proof.
  intros Hi Hv -> Hsc. rewrite dceil_exact by lia.
  assert (1 <= - (- sc / 1000)) as Hpx.
  { pose proof (Z.div_lt_upper_bound (- sc) 1000 0 ltac:(lia) ltac:(lia)). lia. }
  assert (forall t, now <= t < now + sc -> GET t k (SETPX now k v (- (- sc / 1000)) db) = Some v) as Hget.
  { intros t Hbd. apply set_get; [lia|done|]. apply ttl_outlasts; lia. }
  split.
  - intros k' v' Hk'. destruct (decide (k = k')) as [<-|Hne].
    + rewrite Hget in Hk' by lia. injection Hk' as <-. by exists (now + sc).
    + rewrite set_get_other in Hk' by done. destruct (Hi k' v' Hk') as (dl & Hvo & Hp).
      exists dl. split; [done|]. intros t Hbd. rewrite set_get_other by done. by apply Hp.
  - intros k'. unfold redis_level. case_bool_decide as Hk.
    + subst k'. by rewrite Hget by lia.
    + by rewrite set_get_other.
Qed.

(** The five integers a verdict travels as. *)
Definition verdict_ints (commit : bool) (now : Z) (b : Bucket) (lvl : Z) : list Z :=
  if commit && judge_allowed b lvl
  then [1; 0; room b (charge b lvl); -1; drain now b (charge b lvl)]
  else [bit (judge_allowed b lvl); bit (judge_exceeds b); room b lvl;
        (if judge_allowed b lvl || judge_exceeds b then -1 else wait now b lvl); drain now b lvl].

Lemma commit_rows_ok now commit lv bs rows db :
  NoDup (b_Key <$> bs) -> redis_inv now db ->
  Forall2 (fun b rs => row_ok now b (lv (b_Key b)) rs.1 /\ rs.2 = b_Shadow b) bs rows ->
  let '(db', out) := commit_rows now commit (b_Key <$> bs) rows db in
  out = concat (map (fun b => verdict_ints commit now b (lv (b_Key b))) bs) /\
  redis_inv now db' /\
  (forall k, redis_level now db' k =
     match find_first (fun b => bool_decide (b_Key b = k)) bs with
     | Some b => if commit && judge_allowed b (lv k) then charge b (lv k) else redis_level now db k
     | None => redis_level now db k
     end).
Proof.
  intros Hnd Hi Hf. induction Hf as [|b [r sh] bs rows [Hr _] Hf IH] in db, Hnd, Hi |- *; [done|].
  rewrite fmap_cons in Hnd |- *. apply NoDup_cons in Hnd as [Hb Hnd]. cbn [fst snd] in Hr.
  destruct Hr as (Ha & Hx & Hrem & Hreset & Hretry & _ & _ & Hno & Hyes).
  assert (find_first (fun b' => bool_decide (b_Key b' = b_Key b)) bs = None) as Hnone.
  { apply find_first_None, Forall_forall. intros b' Hin. apply bool_decide_eq_false.
    intros He. apply Hb. rewrite <- He. by apply list_elem_of_fmap_2. }
  cbn [commit_rows map concat find_first]. unfold verdict_ints at 1.
  destruct (commit && judge_allowed b (lv (b_Key b))) eqn:Hc.
  - apply andb_true_iff in Hc as [-> Hj]. destruct (Hyes Hj) as (state & dl & -> & Hv & Hdl & Hsc & Hlev).
    destruct (set_inv now db (b_Key b) state dl _ Hi Hv Hdl Hsc) as [Hi1 Hl1].
    specialize (IH _ Hnd Hi1). destruct (commit_rows now true (b_Key <$> bs) rows _) as [db' out].
    destruct IH as (-> & Hi' & Hl'). split_and!; [done|done|].
    intros k. rewrite Hl'. case_bool_decide as Hk.
    + subst k. rewrite Hnone, Hj, Hl1, bool_decide_true by done. done.
    + rewrite Hl1, bool_decide_false by done. done.
  - assert ((if commit then rw_charged r else None) = None) as ->
      by (destruct commit; [apply Hno; by destruct (judge_allowed b _)|done]).
    specialize (IH db Hnd Hi). destruct (commit_rows now commit (b_Key <$> bs) rows db) as [db' out].
    destruct IH as (-> & Hi' & Hl'). split_and!; [|done|].
    + unfold row_current. by rewrite Ha, Hx, Hrem, Hreset, Hretry.
    + intros k. rewrite Hl'. case_bool_decide as Hk; [|done]. subst k. by rewrite Hnone, Hc.
Qed.

(** ** The reply *)

Lemma redis_micros_exact z : 0 <= z < 2 ^ 53 -> redis_micros z = z * Microsecond.
Proof.
  intros Hz. unfold redis_micros, Microsecond. rewrite (proj2 (Z.ltb_ge z 0)) by lia. apply mul64_exact. lia.
Qed.

Lemma verdicts_loop_ok now commit lv bs rows rest :
  Forall2 (fun b rs => row_ok now b (lv (b_Key b)) rs.1 /\ rs.2 = b_Shadow b) bs rows ->
  verdicts_loop ((RInt <$> concat (map (fun b => verdict_ints commit now b (lv (b_Key b))) bs)) ++ rest) (length bs)
  = Ok (map (fun b => if commit && judge_allowed b (lv (b_Key b))
                      then charged_verdict now b (lv (b_Key b))
                      else current_verdict now b (lv (b_Key b))) bs).
Proof.
  induction 1 as [|b [r sh] bs rows [Hr _] Hf IH]; [done|]. cbn [fst snd] in Hr.
  destruct Hr as (_ & _ & _ & _ & _ & Hdr & Hwt & _ & Hyes).
  cbn [map concat length]. rewrite fmap_app, <- app_assoc. unfold verdict_ints at 1.
  destruct (commit && judge_allowed b (lv (b_Key b))) eqn:Hc.
  - apply andb_true_iff in Hc as [_ Hj]. destruct (Hyes Hj) as (_ & _ & _ & _ & _ & Hsc & _).
    cbn [fmap list_fmap app verdicts_loop]. rewrite IH. unfold charged_verdict.
    rewrite (redis_micros_exact (drain now b _)) by lia. done.
  - cbn [fmap list_fmap app verdicts_loop]. rewrite IH. unfold current_verdict.
    rewrite (redis_micros_exact (drain now b _)) by lia. do 2 f_equal.
    destruct (judge_allowed b (lv (b_Key b))), (judge_exceeds b); cbn [orb bit]; try done.
    rewrite redis_micros_exact; [done|]. by apply Hwt.
Qed.

Lemma args_loop_length bs args : args_loop bs = Ok args -> length args = (length bs * 6)%nat.
Proof.
  revert args. induction bs as [|b bs IH]; intros args; cbn [args_loop]; [by intros [= <-]|].
  unfold bucket_args. destruct (args_loop bs) as [rest|]; repeat case_match; try done;
    intros [= <-]; simplify_eq; rewrite length_app, (IH rest) by done; simpl; lia.
Qed.

Lemma verdict_ints_length commit now lv bs :
  length (concat (map (fun b => verdict_ints commit now b (lv (b_Key b))) bs)) = (length bs * 5)%nat.
Proof.
  induction bs as [|b bs IH]; [done|]. cbn [map concat length]. rewrite length_app, IH.
  unfold verdict_ints. by destruct (commit && judge_allowed b _).
Qed.

(** A run of the script, in either mode. *)
Lemma run_ok now mode commit bs db :
  redis_inv now db -> time_ok now -> GuardBuckets bs = Ok tt -> Forall (bucket_ok redis_cap kind) bs ->
  bool_decide (mode = "decide") = commit ->
  let '(db', r) := run now mode bs db in
  r = Ok (spec_verdicts commit now bs (redis_level now db)) /\
  (forall k, redis_level now db' k =
     if commit then spec_levels bs (redis_level now db) k else redis_level now db k) /\
  redis_inv now db'.
Proof.
  intros Hi Ht Hg Hbs Hmode. unfold run. rewrite Hg.
  destruct (Nat.eqb_spec (length bs) 0) as [Hz|Hz].
  { apply nil_length_inv in Hz. subst bs. split_and!; [done| |done]. intros k. by destruct commit. }
  destruct (script_rows_ok now db bs Hi Ht Hbs) as (args & rows & Hargs & Hrows & Hf).
  rewrite Hargs. unfold script. rewrite Hrows, Hmode.
  assert (forallb (fun rs => rs.2 || rw_allowed rs.1) rows = spec_admitted bs (redis_level now db)) as Hadm.
  { unfold spec_admitted. clear - Hf. generalize dependent (redis_level now db). intros lv Hf.
    induction Hf as [|b [r sh] bs rows [Hr Hs] Hf IH]; [done|]. simpl in *. rewrite IH, Hs. f_equal.
    by destruct Hr as (-> & _). }
  rewrite Hadm. apply GuardBuckets_ok in Hg as [Hnd _].
  pose proof (commit_rows_ok now (spec_admitted bs (redis_level now db) && commit)
    (redis_level now db) bs rows db Hnd Hi Hf) as Hc.
  destruct (commit_rows _ _ _ _ _) as [db' out]. destruct Hc as (-> & Hi' & Hl').
  unfold parseReply. rewrite fmap_cons, length_fmap, verdict_ints_length, Nat.eqb_refl.
  pose proof (verdicts_loop_ok now (spec_admitted bs (redis_level now db) && commit)
    (redis_level now db) bs rows [] Hf) as Hv. rewrite app_nil_r in Hv. rewrite Hv.
  split_and!; [|intros k; rewrite Hl'|done].
  - unfold spec_verdicts. f_equal. apply map_ext. intros b. by rewrite (andb_comm commit).
  - unfold spec_levels. destruct commit; [rewrite andb_true_r|rewrite andb_false_r]; by repeat case_match.
Qed.

(** ** The contract *)

Lemma redis_inv_mono t0 t1 db : redis_inv t0 db -> t0 <= t1 -> redis_inv t1 db.
Proof.
  intros Hi Ht k v Hk. pose proof (expired_stays t0 t1 k v db Ht Hk) as Hk0.
  destruct (Hi k v Hk0) as (dl & Hv & Hp). exists dl. split; [|intros t Hbd; apply Hp; lia].
  unfold value_ok in *. destruct (k_alg (kind k)); [done|].
  destruct Hv as (s & c & ? & ? & ? & ? & ? & ?). exists s, c. split_and!; try done; lia.
Qed.

Lemma redis_level_nonneg now db k : redis_inv now db -> 0 <= redis_level now db k.
Proof.
  intros Hi. unfold redis_level. destruct (GET now k db) as [v|] eqn:E; [|lia].
  destruct (Hi k v E) as (dl & Hv & _). unfold value_ok, value_level in *.
  destruct (k_alg (kind k)); [case_match; lia|].
  destruct Hv as (s & c & -> & _ & _ & Hs & _ & Hc). rewrite cut_state by lia.
  rewrite !tonumber_pretty by lia. unfold redis_cap in Hc. rewrite (dbl_exact c) by lia. case_match; lia.
Qed.

Lemma redis_level_decay t0 t1 db k :
  redis_inv t0 db -> time_ok t0 -> t0 <= t1 -> time_ok t1 ->
  redis_level t1 db k = decay (kind k) t0 t1 (redis_level t0 db k).
Proof.
  intros Hi H0 Ht H1. unfold redis_level, decay. destruct (GET t0 k db) as [v|] eqn:E0.
  2:{ destruct (GET t1 k db) as [v|] eqn:E1; [by rewrite (expired_stays t0 t1 k v db Ht E1) in E0|].
      destruct (k_alg (kind k)); [lia|by case_match]. }
  destruct (Hi k v E0) as (dl & Hv & Hp).
  assert (GET t1 k db = Some v \/ (GET t1 k db = None /\ dl <= t1)) as Hg1.
  { destruct (Z_lt_ge_dec t1 dl) as [Hlt|Hge]; [left; apply Hp; lia|].
    destruct (GET t1 k db) as [v'|] eqn:E1; [left|right; split; [done|lia]].
    rewrite (expired_stays t0 t1 k v' db Ht E1) in E0. by simplify_eq. }
  unfold time_ok in *. unfold value_ok in Hv. destruct (k_alg (kind k)) eqn:Hk.
  - destruct Hv as [-> Hd]. rewrite (value_level_gcra k t0) by done.
    destruct Hg1 as [-> |[-> Hle]]; [rewrite value_level_gcra by done|]; lia.
  - destruct Hv as (s & c & -> & -> & Hper & Hs & Hsm & Hc). rewrite (value_level_fixed k t0) by (done || lia).
    assert ((match GET t1 k db with Some v => value_level k t1 v | None => 0 end) =
      if s =? window_start (period_us k) t1 then c else 0) as ->.
    { destruct Hg1 as [-> |[-> Hle]]; [by rewrite value_level_fixed by (done || lia)|].
      pose proof (window_start_bounds (period_us k) t1 ltac:(lia)).
      destruct (Z.eqb_spec s (window_start (period_us k) t1)); lia. }
    fold (period_us k). set (p := period_us k) in *.
    destruct (Z.eqb_spec s (window_start p t0)) as [->|Hne]; [by rewrite Z.eqb_sym|].
    assert (s <> window_start p t1); [|rewrite (proj2 (Z.eqb_neq s _)) by done; by case_match].
    intros ->. apply Hne. pose proof (window_start_bounds p t1 ltac:(lia)).
    symmetry. apply Z.eqb_eq. rewrite Z.eqb_sym.
    pose proof (same_window p t0 t1 (window_start p t1) ltac:(lia) (window_start_mod p t1 ltac:(lia)) Ht ltac:(lia)) as Hsw.
    rewrite (bool_decide_true (t1 < _)) in Hsw by lia. by rewrite Z.eqb_sym.
Qed.

Lemma redis_reset_ok now ks db :
  redis_inv now db ->
  (forall k, redis_level now (redis_Reset ks db) k = if bool_decide (k ∈ ks) then 0 else redis_level now db k) /\
  redis_inv now (redis_Reset ks db).
Proof.
  assert (forall t k, GET t k (redis_Reset ks db) = if bool_decide (k ∈ ks) then None else GET t k db) as Hget.
  { unfold redis_Reset. induction ks as [|k' ks IH] in db |- *; intros t k; simpl; [done|].
    rewrite IH, del_get. destruct (decide (k' = k)) as [->|Hne].
    - rewrite (bool_decide_true (k = k)), (bool_decide_true (k ∈ k :: ks)) by (done || left). by case_bool_decide.
    - rewrite (bool_decide_false (k' = k)) by done.
      rewrite (bool_decide_ext (k ∈ k' :: ks) (k ∈ ks)); [done|]. rewrite elem_of_cons. naive_solver. }
  intros Hi. split.
  - intros k. unfold redis_level. rewrite Hget. by case_bool_decide.
  - intros k v. rewrite Hget. case_bool_decide; [done|]. intros Hk.
    destruct (Hi k v Hk) as (dl & Hv & Hp). exists dl. split; [done|]. intros t Hbd.
    rewrite Hget, bool_decide_false by done. by apply Hp.
Qed.

(** The Redis store is a counter store. *)
#[export] Program Instance redis_store : CounterStore redis_cap kind DB := {
  store_decide := redis_Decide;
  store_peek := redis_Peek;
  store_reset := redis_Reset;
  store_level := redis_level;
  store_inv := redis_inv
}.
Next Obligation. intros. by eapply redis_inv_mono. Qed.
Next Obligation. intros. by apply redis_level_nonneg. Qed.
Next Obligation. intros. by apply redis_level_decay. Qed.
Next Obligation. intros now bs s e He. unfold redis_Decide, run. by rewrite He. Qed.
Next Obligation. intros now bs s e He. unfold redis_Peek, run. by rewrite He. Qed.
Next Obligation. intros now bs s Hi Ht Hg Hb. by apply (run_ok now "decide" true bs s Hi Ht Hg Hb). Qed.
Next Obligation. intros now bs s Hi Ht Hg Hb. by apply (run_ok now "peek" false bs s Hi Ht Hg Hb). Qed.
Next Obligation. intros. by apply redis_reset_ok. Qed.

End store.
