(* ===== verification/Differential.v ===== *)
(** * The two stores agree

    Any two stores of the contract answer the same calls alike; instantiated
    here with the in-memory store and the Redis script, for any trace of
    decisions, peeks and resets. Then what the Redis store enforces, and its
    cursors and patterns. *)
From S2P Require Import Prelude GoStrings Algo Key StoreApi Memory Limits Compile MatchFacts MatchKeys Lua Redis RedisFacts.

(** ** Definitions *)

(** The answers of a trace of timed calls. *)
Fixpoint answers {cap : Z} {kind : string -> Kind} {S : Type} {CS : CounterStore cap kind S}
    (cs : list (Z * call)) (s : S) : list (option (result StoreError (list Verdict))) :=
  match cs with
  | [] => []
  | (t, c) :: cs => let '(s', r) := do_call t c s in r :: answers cs s'
  end.

(** The buckets of a call are the compiler's, with requests a double counts. *)
Definition call_buckets (kind : string -> Kind) (c : call) : Prop :=
  match c with
  | CallDecide bs | CallPeek bs => Forall (bucket_ok redis_cap kind) bs
  | CallReset _ => True
  end.

#[export] Instance call_buckets_dec kind c : Decision (call_buckets kind c).
Proof. destruct c; simpl; apply _. Defined.

(** What SCAN's pattern language does with the patterns the store sends. *)
Class GlobMatcher := {
  glob : string -> string -> bool;
  glob_star : forall s, glob "*" s = true;
  glob_literal : forall c p s, glob_meta c = false ->
    glob (String c p) s = match s with String d s => bool_decide (c = d) && glob p s | EmptyString => false end;
  glob_escaped : forall c p s,
    glob (String "\" (String c p)) s = match s with String d s => bool_decide (c = d) && glob p s | EmptyString => false end
}.

(** SCAN's own walk of one node from a position to its end, with the keys it
    returns on the way. *)
Inductive node_walk (SCAN : string -> Z -> string -> Z -> result string (list string * Z))
    (addr pattern : string) (limit : Z) : Z -> list string -> Prop :=
| node_done pos ks : SCAN addr pos pattern limit = Ok (ks, 0) -> node_walk SCAN addr pattern limit pos ks
| node_more pos p' ks ks' :
    SCAN addr pos pattern limit = Ok (ks, p') -> p' <> 0 -> 0 <= p' < 2 ^ 64 ->
    node_walk SCAN addr pattern limit p' ks' -> node_walk SCAN addr pattern limit pos (ks ++ ks').

(** A client's walk with [Scan], from a cursor to the empty one. *)
Inductive scan_walk (SCAN : string -> Z -> string -> Z -> result string (list string * Z))
    (tp : Topology) (prefix : string) (limit : Z) : string -> list string -> Prop :=
| walk_done cursor keys :
    redis_Scan SCAN tp prefix cursor limit = Some (Ok (keys, "")) -> scan_walk SCAN tp prefix limit cursor keys
| walk_more cursor keys next rest :
    redis_Scan SCAN tp prefix cursor limit = Some (Ok (keys, next)) -> next <> "" ->
    scan_walk SCAN tp prefix limit next rest -> scan_walk SCAN tp prefix limit cursor (keys ++ rest).

(** ** Any two stores agree *)

Lemma bucket_ok_weaken cap cap' kind b : cap <= cap' -> bucket_ok cap kind b -> bucket_ok cap' kind b.
Proof.
  intros Hc (H1 & H2 & H3 & H4). split_and!; try done; try lia. destruct (k_alg (kind (b_Key b))); [done|].
  destruct H4. split; [done|lia].
Qed.

Lemma spec_verdicts_ext c now bs lv lv' :
  (forall k, lv k = lv' k) -> spec_verdicts c now bs lv = spec_verdicts c now bs lv'.
Proof.
  intros He. assert (spec_admitted bs lv = spec_admitted bs lv') as Ha.
  { unfold spec_admitted. induction bs as [|b bs IH]; [done|]. simpl. by rewrite He, IH. }
  unfold spec_verdicts. apply map_ext. intros b. by rewrite Ha, He.
Qed.

Lemma spec_levels_ext bs lv lv' k : (forall k, lv k = lv' k) -> spec_levels bs lv k = spec_levels bs lv' k.
Proof.
  intros He. assert (spec_admitted bs lv = spec_admitted bs lv') as Ha.
  { unfold spec_admitted. induction bs as [|b bs IH]; [done|]. simpl. by rewrite He, IH. }
  unfold spec_levels. case_match; by rewrite ?Ha, ?He.
Qed.

Section agree.
Context {cap1 cap2 : Z} {kind : string -> Kind} {S1 S2 : Type}.
Context {CS1 : CounterStore cap1 kind S1} {CS2 : CounterStore cap2 kind S2}.
Context (Hcap1 : redis_cap <= cap1) (Hcap2 : redis_cap <= cap2).

Definition related (t : Z) (s1 : S1) (s2 : S2) : Prop :=
  store_inv t s1 /\ store_inv t s2 /\ forall k, store_level t s1 k = store_level t s2 k.

Lemma related_later t0 t1 s1 s2 :
  related t0 s1 s2 -> time_ok t0 -> t0 <= t1 -> time_ok t1 -> related t1 s1 s2.
Proof.
  intros (H1 & H2 & Hl) H0 Ht Ht1. split_and!; [by eapply inv_mono|by eapply inv_mono|].
  intros k. rewrite (level_decay t0 t1 s1), (level_decay t0 t1 s2) by done. by rewrite Hl.
Qed.

Lemma call_agrees t c s1 s2 :
  related t s1 s2 -> time_ok t -> call_buckets kind c ->
  (do_call t c s1).2 = (do_call t c s2).2 /\ related t (do_call t c s1).1 (do_call t c s2).1.
Proof.
  intros (H1 & H2 & Hl) Ht Hc. destruct c as [bs|bs|ks]; simpl in Hc; unfold do_call.
  - assert (Forall (bucket_ok cap1 kind) bs /\ Forall (bucket_ok cap2 kind) bs) as [Hb1 Hb2].
    { split; eapply Forall_impl; [exact Hc| |exact Hc|]; intros; by eapply bucket_ok_weaken. }
    destruct (GuardBuckets bs) as [[]|e] eqn:Hg.
    2:{ rewrite (decide_guard t bs s1 e Hg), (decide_guard t bs s2 e Hg). done. }
    pose proof (decide_law t bs s1 H1 Ht Hg Hb1) as D1. pose proof (decide_law t bs s2 H2 Ht Hg Hb2) as D2.
    destruct (store_decide t bs s1) as [s1' r1], (store_decide t bs s2) as [s2' r2].
    destruct D1 as (-> & L1 & I1), D2 as (-> & L2 & I2). simpl.
    split; [by rewrite (spec_verdicts_ext _ _ _ _ _ Hl)|]. split_and!; [done|done|].
    intros k. rewrite L1, L2. by apply spec_levels_ext.
  - assert (Forall (bucket_ok cap1 kind) bs /\ Forall (bucket_ok cap2 kind) bs) as [Hb1 Hb2].
    { split; eapply Forall_impl; [exact Hc| |exact Hc|]; intros; by eapply bucket_ok_weaken. }
    destruct (GuardBuckets bs) as [[]|e] eqn:Hg.
    2:{ rewrite (peek_guard t bs s1 e Hg), (peek_guard t bs s2 e Hg). done. }
    pose proof (peek_law t bs s1 H1 Ht Hg Hb1) as D1. pose proof (peek_law t bs s2 H2 Ht Hg Hb2) as D2.
    destruct (store_peek t bs s1) as [s1' r1], (store_peek t bs s2) as [s2' r2].
    destruct D1 as (-> & L1 & I1), D2 as (-> & L2 & I2). simpl.
    split; [by rewrite (spec_verdicts_ext _ _ _ _ _ Hl)|]. split_and!; [done|done|].
    intros k. by rewrite L1, L2.
  - destruct (reset_law t ks s1 H1 Ht) as [L1 I1], (reset_law t ks s2 H2 Ht) as [L2 I2].
    split; [done|]. split_and!; [done|done|]. intros k. simpl. by rewrite L1, L2, Hl.
Qed.

Lemma answers_agree t0 cs s1 s2 :
  related t0 s1 s2 -> time_ok t0 -> clock_ok t0 cs -> Forall (fun tc => call_buckets kind tc.2) cs ->
  answers cs s1 = answers cs s2.
Proof.
  revert t0 s1 s2. induction cs as [|[t c] cs IH]; intros t0 s1 s2 Hr H0 Hck Hcs; [done|].
  destruct Hck as (Ht0 & Ht & Hck). apply Forall_cons in Hcs as [Hc Hcs].
  destruct (call_agrees t c s1 s2 (related_later t0 t s1 s2 Hr H0 Ht0 Ht) Ht Hc) as [Ha Hr'].
  cbn [answers]. destruct (do_call t c s1) as [s1' r1], (do_call t c s2) as [s2' r2]. simpl in *. subst.
  f_equal. by eapply IH.
Qed.

End agree.

(** ** Claims *)

(** C6: the Redis script and the in-memory store are interchangeable: started
    with no counters, they answer every trace of decisions, peeks and resets
    alike, verdict for verdict, although the script computes in doubles, keeps
    its state as printed decimals and relies on expiry. *)
Theorem redis_matches_memory {DB : Type} `{RedisServer DB} (kind : string -> Kind) (t0 : Z)
    (cs : list (Z * call)) (db : DB) :
  (forall t k, GET t k db = None) -> time_ok t0 -> clock_ok t0 cs ->
  Forall (fun tc => call_buckets kind tc.2) cs ->
  answers (CS := redis_store kind) cs db = answers (CS := memory_store kind) cs New.
Proof.
  intros Hempty Ht Hck Hcs. symmetry.
  apply (answers_agree (CS1 := memory_store kind) (CS2 := redis_store kind)) with (t0 := t0); try done.
  split_and!; [apply mem_inv_New| |].
  - intros k v Hk. by rewrite Hempty in Hk.
  - intros k. simpl. unfold redis_level. by rewrite Hempty.
Qed.

(** Over any sequence of calls on the Redis store, the cost a GCRA bucket
    admits between two instants never exceeds its burst plus one unit per
    emission interval of the time between them. *)
Theorem redis_gcra_rate_bound {DB : Type} `{RedisServer DB} (kind : string -> Kind) (k : string) (w : Window)
    (t0 : Z) (cs : list (Z * call)) (db : DB) :
  k_alg (kind k) = gcra -> gcra_ok w -> redis_inv kind t0 db -> time_ok t0 -> clock_ok t0 cs ->
  Forall (fun tc => call_ok redis_cap kind k w tc.2) cs ->
  let charged := (Limits.run (CS := redis_store kind) k cs db).2 in
  0 <= charged <= Burst w + (end_time t0 cs - t0) / EmissionMicros w.
Proof.
  intros Hk Hw Hi Ht Hck Hcs charged.
  destruct (gcra_run_bound (CS := redis_store kind) k w t0 cs db Hk Hw Hi Ht Hck Hcs) as [Hn Hb].
  pose proof (gcra_ok_facts w Hw) as (_ & _ & Hem & _ & Htau & Hbu & _).
  pose proof (clock_ok_end t0 cs Hck). fold charged in Hn, Hb. split; [done|].
  assert (0 <= (end_time t0 cs - t0) / EmissionMicros w) by (apply Z.div_pos; lia).
  destruct (Z.eq_dec charged 0) as [|]; [lia|].
  specialize (Hb ltac:(lia)). pose proof (level_nonneg (CounterStore := redis_store kind) t0 db k Hi) as Hl0.
  assert (charged - Burst w <= (end_time t0 cs - t0) / EmissionMicros w); [|lia].
  apply div_le_iff; [lia|]. nia.
Qed.

(** The pattern a scan sends matches exactly the keys that start with the
    prefix, whatever metacharacters the prefix contains. *)
Theorem scan_pattern_literal {GM : GlobMatcher} (prefix key : string) :
  glob (escapeGlob prefix +:+ "*") key = HasPrefix key prefix.
Proof.
  revert key. induction prefix as [|c prefix IH]; intros key.
  { simpl. rewrite glob_star. by destruct key. }
  cbn [escapeGlob]. destruct (glob_meta c) eqn:E.
  - change (String "\" (String c (escapeGlob prefix)) +:+ "*") with (String "\" (String c (escapeGlob prefix +:+ "*"))).
    rewrite glob_escaped. destruct key as [|d key]; [done|]. rewrite IH.
    unfold HasPrefix. simpl. destruct (Ascii.ascii_dec c d); by case_bool_decide.
  - change (String c (escapeGlob prefix) +:+ "*") with (String c (escapeGlob prefix +:+ "*")).
    rewrite glob_literal by done. destruct key as [|d key]; [done|]. rewrite IH.
    unfold HasPrefix. simpl. destruct (Ascii.ascii_dec c d); by case_bool_decide.
Qed.

Lemma cut_last_none c s : contains_char c s = false -> cut_last c s = None.
Proof.
  induction s as [|d s IH]; [done|]. cbn [contains_char cut_last]. intros [Hd Hs]%orb_false_iff.
  apply bool_decide_eq_false in Hd. rewrite IH, bool_decide_false by (done || congruence). done.
Qed.

Lemma cut_last_app c a b : contains_char c b = false -> cut_last c (a +:+ String c b) = Some (a, b).
Proof.
  intros Hb. induction a as [|d a IH]; cbn [cut_last].
  - change ("" +:+ String c b) with (String c b). cbn [cut_last]. rewrite cut_last_none by done.
    by rewrite bool_decide_true.
  - change (String d a +:+ String c b) with (String d (a +:+ String c b)). cbn [cut_last]. by rewrite IH.
Qed.

Lemma node_index_lookup addrs i a : NoDup addrs -> addrs !! i = Some a -> node_index addrs a = Some i.
Proof.
  revert i. induction addrs as [|b addrs IH]; intros i Hn Hi; [done|]. apply NoDup_cons in Hn as [Hb Hn].
  cbn [node_index]. destruct i as [|i]; simpl in Hi; simplify_eq.
  - by rewrite bool_decide_true.
  - rewrite bool_decide_false; [by rewrite (IH i)|]. intros ->. apply Hb. by eapply list_elem_of_lookup_2.
Qed.

Lemma cursor_roundtrip addrs i a pos :
  NoDup addrs -> addrs !! i = Some a -> 0 <= pos < 2 ^ 64 ->
  parseScanCursor (formatScanCursor a pos) addrs = Some (i, pos) /\ formatScanCursor a pos <> "".
Proof.
  intros Hn Hi Hp. destruct (pretty_digits pos ltac:(lia)) as [Hd Hne].
  pose proof (ParseUint_pretty pos ltac:(lia)) as Hu.
  assert (contains_char "@" (pretty pos) = false) as Hat by (by apply digits_no_char).
  unfold formatScanCursor. case_bool_decide as Ha.
  - subst a. split; [|done]. unfold parseScanCursor. rewrite bool_decide_false by done.
    rewrite cut_last_none by done. by rewrite Hu, (node_index_lookup addrs i "").
  - split; [|by destruct a]. unfold parseScanCursor. rewrite bool_decide_false by (by destruct a).
    change (a +:+ "@" +:+ pretty pos) with (a +:+ String "@" (pretty pos)).
    by rewrite cut_last_app, Hu, (node_index_lookup addrs i a).
Qed.

Lemma parse_format nodes i a rest pos :
  NoDup nodes -> drop i nodes = a :: rest -> 0 <= pos < 2 ^ 64 ->
  parseScanCursor (formatScanCursor a pos) nodes = Some (i, pos) /\ formatScanCursor a pos <> "".
Proof.
  intros Hn Hd Hp. apply cursor_roundtrip; [done| |done].
  pose proof (lookup_drop nodes i 0) as Hl. rewrite Hd, Nat.add_0_r in Hl. by rewrite <- Hl.
Qed.

Lemma drop_S_cons {A} (l : list A) i a b rest : drop i l = a :: b :: rest -> drop (S i) l = b :: rest.
Proof. intros H. replace (S i) with (i + 1)%nat by lia. rewrite <- drop_drop, H. done. Qed.

Section walks.
Context (SCAN : string -> Z -> string -> Z -> result string (list string * Z)).
Context (tp : Topology) (prefix : string) (limit : Z) (nodes : list string).
Context (Hlimit : 1 <= limit) (Hnodes : scanNodes tp prefix = Ok nodes) (Hnodup : NoDup nodes).

Definition walk_from (r : option (result StoreError (list string * string))) (keys : list string) : Prop :=
  r = Some (Ok (keys, "")) \/
  exists k1 next k2, r = Some (Ok (k1, next)) /\ next <> "" /\
    scan_walk SCAN tp prefix limit next k2 /\ keys = k1 ++ k2.

Lemma walk_from_scan cursor i pos keys :
  parseScanCursor cursor nodes = Some (i, pos) ->
  walk_from (scan_loop SCAN (drop i nodes) pos (escapeGlob prefix +:+ "*") limit) keys ->
  scan_walk SCAN tp prefix limit cursor keys.
Proof.
  intros Hc Hw.
  assert (redis_Scan SCAN tp prefix cursor limit =
          scan_loop SCAN (drop i nodes) pos (escapeGlob prefix +:+ "*") limit) as E.
  { unfold redis_Scan. rewrite (proj2 (Z.ltb_ge limit 1)) by lia. by rewrite Hnodes, Hc. }
  rewrite <- E in Hw. destruct Hw as [Hw|(k1 & next & k2 & Hw & Hne & Hr & ->)].
  - by apply walk_done.
  - by eapply walk_more.
Qed.

Lemma walk_nodes (K : string -> list string) rest : forall a i pos ks,
  drop i nodes = a :: rest ->
  node_walk SCAN a (escapeGlob prefix +:+ "*") limit pos ks ->
  (forall b, b ∈ rest -> node_walk SCAN b (escapeGlob prefix +:+ "*") limit 0 (K b)) ->
  exists keys, walk_from (scan_loop SCAN (a :: rest) pos (escapeGlob prefix +:+ "*") limit) keys /\
    keys ≡ₚ ks ++ concat (K <$> rest).
Proof.
  induction rest as [|b rest IH]; intros a i pos ks Hd Hw Hr;
    induction Hw as [pos ks Hs|pos p' ks ks' Hs Hp' Hb' Hw IHw]; cbn [scan_loop]; rewrite Hs.
  - exists (sort_strings ks). split; [by left|]. rewrite sort_strings_Permutation. simpl. by rewrite app_nil_r.
  - rewrite (proj2 (Z.eqb_neq p' 0)) by done. cbn [negb]. destruct IHw as (keys & Hk & Hp).
    destruct (parse_format nodes i a _ p' Hnodup Hd Hb') as [Hc Hne].
    exists (sort_strings ks ++ keys). split.
    + right. exists (sort_strings ks), (formatScanCursor a p'), keys. split_and!; try done.
      eapply walk_from_scan; [exact Hc|]. by rewrite Hd.
    + rewrite sort_strings_Permutation, Hp. by rewrite app_assoc.
  - cbn [Z.eqb negb]. pose proof (drop_S_cons _ _ _ _ _ Hd) as Hd'.
    destruct (IH b (S i) 0 (K b) Hd' (Hr b ltac:(left)) ltac:(intros; apply Hr; by right)) as (keys & Hk & Hp).
    destruct (Nat.ltb_spec 0 (length (sort_strings ks))) as [Hl|Hl].
    + destruct (parse_format nodes (S i) b _ 0 Hnodup Hd' ltac:(lia)) as [Hc Hne].
      exists (sort_strings ks ++ keys). split.
      * right. exists (sort_strings ks), (formatScanCursor b 0), keys. split_and!; try done.
        eapply walk_from_scan; [exact Hc|]. by rewrite Hd'.
      * rewrite sort_strings_Permutation, Hp. done.
    + exists keys. split; [done|]. rewrite Hp. rewrite sort_strings_Permutation in Hl. by destruct ks; [|simpl in Hl; lia].
  - rewrite (proj2 (Z.eqb_neq p' 0)) by done. cbn [negb]. destruct IHw as (keys & Hk & Hp).
    destruct (parse_format nodes i a _ p' Hnodup Hd Hb') as [Hc Hne].
    exists (sort_strings ks ++ keys). split.
    + right. exists (sort_strings ks), (formatScanCursor a p'), keys. split_and!; try done.
      eapply walk_from_scan; [exact Hc|]. by rewrite Hd.
    + rewrite sort_strings_Permutation, Hp. by rewrite app_assoc.
Qed.

End walks.

(** A client that follows the cursors from the empty one to the empty one
    reads every key of every node, each as often as the server returned it:
    when SCAN's own walk of each node ends, so does the client's, and it
    returned the keys of all of them. *)
Theorem scan_walk_complete
    (SCAN : string -> Z -> string -> Z -> result string (list string * Z)) (tp : Topology)
    (prefix : string) (limit : Z) (nodes : list string) (K : string -> list string) :
  1 <= limit -> scanNodes tp prefix = Ok nodes -> NoDup nodes -> nodes <> [] ->
  (forall a, a ∈ nodes -> node_walk SCAN a (escapeGlob prefix +:+ "*") limit 0 (K a)) ->
  exists keys, scan_walk SCAN tp prefix limit "" keys /\ keys ≡ₚ concat (K <$> nodes).
Proof.
  intros Hl Hs Hn Hne Hk. destruct nodes as [|a rest]; [done|].
  destruct (walk_nodes SCAN tp prefix limit (a :: rest) Hl Hs Hn K rest a 0 0 (K a)) as (keys & Hw & Hp).
  - done.
  - apply Hk. left.
  - intros b Hb. apply Hk. by right.
  - exists keys. split; [|done]. by eapply (walk_from_scan _ _ _ _ _ Hl Hs).
Qed.

(** ** Witnesses

    A server that keeps each value with the millisecond it lives through. *)

Definition demo_GET (t : Z) (k : string) (db : gmap string (string * Z)) : option string :=
  match db !! k with
  | Some (v, dies) => if t / 1000 <=? dies then Some v else None
  | None => None
  end.

#[export] Program Instance demo_server : RedisServer (gmap string (string * Z)) := {
  GET := demo_GET;
  SETPX t k v px db := <[k := (v, t / 1000 + px)]> db;
  DEL k db := delete k db
}.
Next Obligation.
  intros t0 t k v px db Ht Hp Hl. unfold demo_GET. rewrite lookup_insert_eq.
  by rewrite (proj2 (Z.leb_le _ _)) by lia.
Qed.
Next Obligation.
  intros t0 t k v px db Ht Hp. unfold demo_GET. rewrite lookup_insert_eq. case_match; [by left|by right].
Qed.
Next Obligation. intros t0 t k k' v px db Hk. unfold demo_GET. by rewrite lookup_insert_ne. Qed.
Next Obligation.
  intros t k k' db. unfold demo_GET. case_bool_decide as Hk; [subst; by rewrite lookup_delete_eq|].
  by rewrite lookup_delete_ne.
Qed.
Next Obligation.
  intros t0 t1 k v db Ht. unfold demo_GET. destruct (db !! k) as [[v' dies]|]; [|done].
  pose proof (Z.div_le_mono t0 t1 1000 ltac:(lia) Ht).
  destruct (Z.leb_spec (t1 / 1000) dies); [|done]. by rewrite (proj2 (Z.leb_le (t0 / 1000) dies)) by lia.
Qed.

Definition demo_db : gmap string (string * Z) := ∅.

Lemma demo_db_empty t k : GET t k demo_db = None.
Proof. done. Qed.

Lemma redis_matches_memory_witness :
  answers (CS := redis_store demo_gcra_kind) demo_gcra_calls demo_db =
    answers (CS := memory_store demo_gcra_kind) demo_gcra_calls New /\
  (Limits.run (CS := redis_store demo_gcra_kind) "k" demo_gcra_calls demo_db).2 = 3.
Proof.
  split; [|vm_compute; reflexivity].
  apply (redis_matches_memory demo_gcra_kind 0 demo_gcra_calls demo_db);
    [apply demo_db_empty|by_decide| |by_decide].
  simpl. unfold time_ok, maxNow. lia.
Defined.

Lemma redis_gcra_rate_bound_witness :
  0 <= (Limits.run (CS := redis_store demo_gcra_kind) "k" demo_gcra_calls demo_db).2
    <= Burst demo_gcra_window + (end_time 0 demo_gcra_calls - 0) / EmissionMicros demo_gcra_window.
Proof.
  apply (redis_gcra_rate_bound demo_gcra_kind "k" demo_gcra_window 0 demo_gcra_calls demo_db);
    [reflexivity|by_decide|intros k v H; discriminate H|by_decide| |by_decide].
  simpl. unfold time_ok, maxNow. lia.
Defined.

(** A matcher of the patterns the store sends: escaped characters, literal
    characters and one trailing star. *)
Fixpoint demo_glob (p s : string) {struct p} : bool :=
  match p with
  | EmptyString => bool_decide (s = "")
  | String "\" (String c p) =>
      match s with String d s => bool_decide (c = d) && demo_glob p s | EmptyString => false end
  | String c p =>
      if bool_decide (c = "*"%char) && bool_decide (p = "") then true
      else match s with String d s => bool_decide (c = d) && demo_glob p s | EmptyString => false end
  end.

#[export] Program Instance demo_matcher : GlobMatcher := { glob := demo_glob }.
Next Obligation. by intros [|c s]. Qed.
Next Obligation. intros c p s Hc. destruct c as [[] [] [] [] [] [] [] []]; try done; by destruct s. Qed.
Next Obligation. done. Qed.

Lemma scan_pattern_literal_witness :
  glob (escapeGlob "rl:v1:{ns/[a]*}:" +:+ "*") "rl:v1:{ns/[a]*}:b" = true.
Proof. rewrite (scan_pattern_literal "rl:v1:{ns/[a]*}:" "rl:v1:{ns/[a]*}:b"). reflexivity. Defined.

(** Two masters, the first with two pages, the second with one. *)
Definition demo_SCAN (addr : string) (pos : Z) (_ : string) (_ : Z) : result string (list string * Z) :=
  if bool_decide (addr = "a:1") then
    if pos =? 0 then Ok (["x"; "w"], 7) else Ok ([], 0)
  else Ok (["y"], 0).

Definition demo_topology : Topology :=
  mkTopology true (fun _ => Err "no owner") (Ok ["b:1"; "a:1"]).

Definition demo_keys (addr : string) : list string := if bool_decide (addr = "a:1") then ["x"; "w"] else ["y"].

Lemma scan_walk_complete_witness :
  exists keys, scan_walk demo_SCAN demo_topology "rl:" 10 "" keys /\ keys ≡ₚ ["x"; "w"; "y"].
Proof.
  apply (scan_walk_complete demo_SCAN demo_topology "rl:" 10 ["a:1"; "b:1"] demo_keys);
    [lia|vm_compute; reflexivity|by_decide|done|].
  intros a Ha. destruct (list_elem_of_In ["a:1"; "b:1"] a) as [Hin _]. destruct (Hin Ha) as [<-|[<-|[]]].
  - change (demo_keys "a:1") with (["x"; "w"] ++ []).
    apply (node_more _ _ _ _ 0 7); [reflexivity|lia|lia|]. by apply node_done.
  - by apply node_done.
Defined.
