(* ===== verification/Identity.v ===== *)
(** * engine/identity: from a token to descriptor keys

    Decoding the payload of a JWT within its bounds, walking the claims along
    the compiled extraction plan, and the same rules for keys a caller passes
    directly. JSON decoding, Unicode lowercasing and SHA-256 are operations of
    the platform, an interface the definitions are parameterised by. *)
From S2P Require Import Prelude GoStrings Algo Model Compile.

(** ** Definitions *)

(** A decoded JSON value; objects have distinct keys. *)
#[warnings="-register-all"]
Inductive json :=
| JNull
| JBool (b : bool)
| JNumber (digits : string)
| JString (s : string)
| JArray (items : list json)
| JObject (fields : list (string * json)).

(** What the engine uses of the Go library without reading its result's
    internals: [json.Unmarshal] into a map (the fields, or an error),
    [strings.ToLower], [sha256.Sum256]. *)
Class Platform := {
  Unmarshal : string -> option (list (string * json));
  ToLower : string -> string;
  Sum256 : string -> string }.

Definition MaxTokenBytes : Z := 16384.
Definition MaxValueBytes : Z := 256.
Definition MaxArrayItems : Z := 64.
Definition MaxPayloadDepth : Z := 8.
Definition MaxPayloadSeparators : Z := 512.

Inductive SkipReason := SkipDecodeFailed | SkipBadType | SkipTooLong | SkipTooManyItems.
Record Skip := mkSkip { sk_Key : string; sk_Reason : SkipReason }.

#[export] Instance SkipReason_eq_dec : EqDecision SkipReason.
Proof. solve_decision. Defined.
#[export] Instance Skip_eq_dec : EqDecision Skip.
Proof. solve_decision. Defined.

(** *** Text *)

(** The UTF-8 encodings of the code points [unicode.IsSpace] accepts. *)
Definition bytes (l : list nat) : string := String.string_of_list_ascii (ascii_of_nat <$> l).
Definition spaces : list string :=
  bytes <$> [[9]; [10]; [11]; [12]; [13]; [32]; [194; 133]; [194; 160]; [225; 154; 128];
             [226; 128; 128]; [226; 128; 129]; [226; 128; 130]; [226; 128; 131]; [226; 128; 132];
             [226; 128; 133]; [226; 128; 134]; [226; 128; 135]; [226; 128; 136]; [226; 128; 137];
             [226; 128; 138]; [226; 128; 168]; [226; 128; 169]; [226; 128; 175]; [226; 129; 159];
             [227; 128; 128]]%nat.

Definition take_str (n : nat) (s : string) : string := String.substring 0 n s.

(** [strings.TrimSpace]; each turn drops a space, so the length is enough fuel. *)
Fixpoint trim_left (fuel : nat) (s : string) : string :=
  match fuel with
  | O => s
  | S fuel =>
      match find_first (HasPrefix s) spaces with
      | Some p => trim_left fuel (drop_str (String.length p) s)
      | None => s
      end
  end.
Fixpoint trim_right (fuel : nat) (s : string) : string :=
  match fuel with
  | O => s
  | S fuel =>
      match find_first (HasSuffix s) spaces with
      | Some p => trim_right fuel (take_str (String.length s - String.length p) s)
      | None => s
      end
  end.
Definition TrimSpace (s : string) : string :=
  let s := trim_left (String.length s) s in trim_right (String.length s) s.

(** *** base64url *)

Definition sextet (c : ascii) : option nat :=
  let n := nat_of_ascii c in
  if is_upper c then Some (n - 65)%nat
  else if is_lower c then Some (n - 71)%nat
  else if is_digit c then Some (n + 4)%nat
  else if bool_decide (c = "-"%char) then Some 62%nat
  else if bool_decide (c = "_"%char) then Some 63%nat
  else None.

Definition byte1 (a b : nat) : ascii := ascii_of_nat (a * 4 + b / 16).
Definition byte2 (b c : nat) : ascii := ascii_of_nat ((b mod 16) * 16 + c / 4).
Definition byte3 (c d : nat) : ascii := ascii_of_nat ((c mod 4) * 64 + d).

(** Quantum by quantum; [pad] tells [URLEncoding] from [RawURLEncoding]. *)
Fixpoint base64_quanta (pad : bool) (s : list ascii) : option (list ascii) :=
  match s with
  | [] => Some []
  | [_] => None
  | [a; b] =>
      if pad then None
      else x ← sextet a; y ← sextet b; Some [byte1 x y]
  | [a; b; c] =>
      if pad then None
      else x ← sextet a; y ← sextet b; z ← sextet c; Some [byte1 x y; byte2 y z]
  | a :: b :: c :: d :: rest =>
      x ← sextet a; y ← sextet b;
      if pad && bool_decide (c = "="%char) then
        if bool_decide (d = "="%char) && bool_decide (rest = []) then Some [byte1 x y] else None
      else
        z ← sextet c;
        if pad && bool_decide (d = "="%char) then
          if bool_decide (rest = []) then Some [byte1 x y; byte2 y z] else None
        else
          w ← sextet d; out ← base64_quanta pad rest;
          Some (byte1 x y :: byte2 y z :: byte3 z w :: out)
  end.

(** The decoder skips line breaks wherever they are. *)
Definition DecodeString (pad : bool) (s : string) : option string :=
  String.string_of_list_ascii <$>
    base64_quanta pad (filter (fun c => c <> ascii_of_nat 10 /\ c <> ascii_of_nat 13)
                              (String.list_ascii_of_string s)).

(** *** The payload *)

Definition quote : ascii := ascii_of_nat 34.
Definition backslash : ascii := ascii_of_nat 92.
Definition opens (b : ascii) : bool := bool_decide (b = "{"%char) || bool_decide (b = "["%char).
Definition closes (b : ascii) : bool := bool_decide (b = "}"%char) || bool_decide (b = "]"%char).
Definition separates (b : ascii) : bool := bool_decide (b = ","%char) || bool_decide (b = ":"%char).

Fixpoint shape_loop (raw : list ascii) (depth separators : Z) (inString escaped : bool) : bool :=
  match raw with
  | [] => true
  | b :: raw =>
      if inString then
        if escaped then shape_loop raw depth separators true false
        else if bool_decide (b = backslash) then shape_loop raw depth separators true true
        else if bool_decide (b = quote) then shape_loop raw depth separators false false
        else shape_loop raw depth separators true false
      else if bool_decide (b = quote) then shape_loop raw depth separators true escaped
      else if opens b then
        if depth + 1 >? MaxPayloadDepth then false
        else shape_loop raw (depth + 1) separators false escaped
      else if closes b then shape_loop raw (depth - 1) separators false escaped
      else if separates b then
        if separators + 1 >? MaxPayloadSeparators then false
        else shape_loop raw depth (separators + 1) false escaped
      else shape_loop raw depth separators false escaped
  end.

Definition withinShape (raw : string) : bool :=
  shape_loop (String.list_ascii_of_string raw) 0 0 false false.

(** *** Claims *)

Fixpoint field (fields : list (string * json)) (name : string) : option json :=
  match fields with
  | [] => None
  | (n, v) :: fields => if bool_decide (n = name) then Some v else field fields name
  end.

(** The loop of [walk]. *)
Fixpoint walk_from (current : json) (path : list string) : option json :=
  match path with
  | [] => Some current
  | segment :: path =>
      match current with
      | JObject fields =>
          match field fields segment with
          | Some v => walk_from v path
          | None => None
          end
      | _ => None
      end
  end.

Definition walk (claims : list (string * json)) (path : list string) : option json :=
  walk_from (JObject claims) path.

(** A value of Go's [(result, reason)], the reason empty or not. *)
Definition noted : Type := list string * option SkipReason.

Fixpoint array_loop (items : list json) (values : list string) : noted :=
  match items with
  | [] => (values, None)
  | JString s :: items =>
      if len s >? MaxValueBytes then ([], Some SkipTooLong)
      else array_loop items (if bool_decide (s = "") then values else values ++ [s])
  | _ :: _ => ([], Some SkipBadType)
  end.

Definition coerceArray (v : json) : noted :=
  match v with
  | JArray arr =>
      if Z.of_nat (length arr) >? MaxArrayItems then ([], Some SkipTooManyItems)
      else array_loop arr []
  | _ => ([], Some SkipBadType)
  end.

Definition coerce (v : json) (t : string) : noted :=
  if bool_decide (t = ValueStringArray) then coerceArray v
  else match v with
       | JString s =>
           if len s >? MaxValueBytes then ([], Some SkipTooLong)
           else if bool_decide (s = "") then ([], None)
           else ([s], None)
       | _ => ([], Some SkipBadType)
       end.

(** *** Keys passed directly *)

Fixpoint distinct_loop (values out : list string) : list string :=
  match values with
  | [] => out
  | v :: values => distinct_loop values (if bool_decide (v ∈ out) then out else out ++ [v])
  end.

Definition distinct (values : list string) : list string :=
  if (length values <? 2)%nat then values else distinct_loop values [].

Definition planned (plan : list KeyExtraction) (key : string) : option KeyExtraction :=
  find_first (fun e => bool_decide (ke_Key e = key)) plan.

Fixpoint explicit_loop (values kept : list string) : noted :=
  match values with
  | [] => (kept, None)
  | v :: values =>
      if len v >? MaxValueBytes then ([], Some SkipTooLong)
      else explicit_loop values (if bool_decide (v = "") then kept else kept ++ [v])
  end.

Definition explicitValues (values : list string) : noted :=
  if Z.of_nat (length values) >? MaxArrayItems then ([], Some SkipTooManyItems)
  else explicit_loop values [].

Section platform.
Context `{Platform}.

Definition payload (token : string) : option (list (string * json)) :=
  if len token >? MaxTokenBytes then None
  else match Split "." token with
       | _ :: part :: _ =>
           match (match DecodeString false part with
                  | Some raw => Some raw
                  | None => DecodeString true part
                  end) with
           | None => None
           | Some raw => if negb (withinShape raw) then None else Unmarshal raw
           end
       | _ => None
       end.

Definition normalized (normalization : string) (values : list string) : list string :=
  if bool_decide (normalization = NormalizeLowercase) then ToLower <$> values else values.

(** The loop of [extractKey] over the primary path and the fallbacks. *)
Fixpoint extract_loop (claims : list (string * json)) (e : KeyExtraction) (paths : list (list string))
    (firstSkip : option SkipReason) : noted :=
  match paths with
  | [] => ([], firstSkip)
  | p :: paths =>
      match walk claims p with
      | None => extract_loop claims e paths firstSkip
      | Some v =>
          match coerce v (ke_Type e) with
          | (_, Some reason) =>
              extract_loop claims e paths (match firstSkip with None => Some reason | _ => firstSkip end)
          | ([], None) => extract_loop claims e paths firstSkip
          | (values, None) => (normalized (ke_Normalization e) values, firstSkip)
          end
      end
  end.

Definition extractKey (claims : list (string * json)) (e : KeyExtraction) : noted :=
  extract_loop claims e (ke_Path e :: ke_Fallbacks e) None.

(** The loop of [Extract] over the plan. A nil map and an empty one are read
    alike by every caller. *)
Fixpoint plan_loop (claims : list (string * json)) (plan : list KeyExtraction)
    (keys : gmap string (list string)) (skips : list Skip) : gmap string (list string) * list Skip :=
  match plan with
  | [] => (keys, skips)
  | e :: plan =>
      let '(values, reason) := extractKey claims e in
      plan_loop claims plan
        (match values with [] => keys | _ => <[ke_Key e := values]> keys end)
        (match reason with Some r => skips ++ [mkSkip (ke_Key e) r] | None => skips end)
  end.

Definition Extract (plan : list KeyExtraction) (token : string)
    : gmap string (list string) * list Skip :=
  let token := TrimSpace token in
  let token :=
    if (7 <=? len token) && bool_decide (ToLowerASCII (take_str 7 token) = "bearer ")
    then drop_str 7 token else token in
  if bool_decide (token = "") then (∅, [])
  else match payload token with
       | None => (∅, (fun e => mkSkip (ke_Key e) SkipDecodeFailed) <$> plan)
       | Some claims => plan_loop claims plan ∅ []
       end.

(** One key of [Explicit]. *)
Definition explicit_key (plan : list KeyExtraction) (kv : string * list string)
    (acc : gmap string (list string) * list Skip) : gmap string (list string) * list Skip :=
  let '(key, values) := kv in
  let '(out, skips) := acc in
  match explicitValues values with
  | (_, Some reason) =>
      (out, match planned plan key with Some _ => skips ++ [mkSkip key reason] | None => skips end)
  | ([], None) => (out, skips)
  | (kept, None) =>
      let kept := match planned plan key with
                  | Some e => normalized (ke_Normalization e) kept
                  | None => kept
                  end in
      (<[key := distinct kept]> out, skips)
  end.

(** [Explicit]; the range over a Go map visits the entries in an order of its
    own, so the entries are a list here, and any order of them is a run. *)
Definition Explicit (plan : list KeyExtraction) (keys : list (string * list string))
    : gmap string (list string) * list Skip :=
  foldl (fun acc kv => explicit_key plan kv acc) (∅, []) keys.

End platform.
