(* ===== verification/IdentityFacts.v ===== *)
(** * What extraction guarantees

    Bounds on everything extracted, the meaning of the payload's shape scan,
    and that keys passed directly count as the same keys extracted from a
    token would, in any order of the map they come in. *)
From S2P Require Import Prelude GoStrings Algo Model Compile Identity.

(** ** Definitions *)

Definition value_ok (v : string) : Prop := v <> "" /\ len v <= MaxValueBytes.

(** The bytes of a JSON text outside its strings, quotes excluded. *)
Fixpoint structure (raw : list ascii) (inString escaped : bool) : list ascii :=
  match raw with
  | [] => []
  | b :: raw =>
      if inString then
        if escaped then structure raw true false
        else if bool_decide (b = backslash) then structure raw true true
        else structure raw (negb (bool_decide (b = quote))) false
      else if bool_decide (b = quote) then structure raw true false
      else b :: structure raw false false
  end.

(** How deep the text nests after these bytes. *)
Definition nesting (l : list ascii) : Z :=
  sumZ (fun b => if opens b then 1 else if closes b then -1 else 0) l.
Definition separators_of (l : list ascii) : Z := sumZ (fun b => if separates b then 1 else 0) l.

(** What one key passed directly contributes. *)
Definition explicit_value `{Platform} (plan : list KeyExtraction) (kv : string * list string)
    : option (list string) :=
  match explicitValues kv.2 with
  | (_, Some _) | ([], None) => None
  | (kept, None) =>
      Some (distinct match planned plan kv.1 with
                     | Some e => normalized (ke_Normalization e) kept
                     | None => kept
                     end)
  end.
Definition explicit_skip (plan : list KeyExtraction) (kv : string * list string) : option Skip :=
  match explicitValues kv.2, planned plan kv.1 with
  | (_, Some reason), Some _ => Some (mkSkip kv.1 reason)
  | _, _ => None
  end.

(** ** The shape scan *)

Lemma separates_not_nesting b : separates b = true -> opens b = false /\ closes b = false.
Proof. unfold separates, opens, closes. repeat case_bool_decide; subst; done. Qed.
Lemma opens_not_closes b : opens b = true -> separates b = false.
Proof. unfold separates, opens. repeat case_bool_decide; subst; done. Qed.
Lemma closes_not_opens b : closes b = true -> opens b = false /\ separates b = false.
Proof. unfold separates, opens, closes. repeat case_bool_decide; subst; done. Qed.

(** The scan of the bytes outside strings alone. *)
Fixpoint scan (l : list ascii) (depth separators : Z) : bool :=
  match l with
  | [] => true
  | b :: l =>
      if opens b then negb (depth + 1 >? MaxPayloadDepth) && scan l (depth + 1) separators
      else if closes b then scan l (depth - 1) separators
      else if separates b then
        negb (separators + 1 >? MaxPayloadSeparators) && scan l depth (separators + 1)
      else scan l depth separators
  end.

Lemma shape_loop_scan raw depth separators inString escaped :
  (inString = false -> escaped = false) ->
  shape_loop raw depth separators inString escaped = scan (structure raw inString escaped) depth separators.
Proof.
  revert depth separators inString escaped.
  induction raw as [|b raw IH]; intros depth separators inString escaped He; [done|].
  cbn [shape_loop structure]. destruct inString.
  - destruct escaped; [by apply IH|]. case_bool_decide; [by apply IH|].
    case_bool_decide; by apply IH.
  - rewrite He by done. case_bool_decide; [by apply IH|]. cbn [scan].
    rewrite !IH by done. repeat case_match; done.
Qed.

Lemma scan_spec l depth separators :
  depth <= MaxPayloadDepth -> separators <= MaxPayloadSeparators ->
  scan l depth separators = true <->
  (forall pre suf, l = pre ++ suf -> depth + nesting pre <= MaxPayloadDepth) /\
  separators + separators_of l <= MaxPayloadSeparators.
Proof.
  revert depth separators. induction l as [|b l IH]; intros depth separators Hd Hs.
  { simpl. split; [|done]. intros _. split; [|lia].
    intros pre suf Hp. symmetry in Hp. apply app_nil in Hp as [-> _]. simpl. lia. }
  assert ((forall pre suf, b :: l = pre ++ suf -> depth + nesting pre <= MaxPayloadDepth) <->
      (forall pre suf, l = pre ++ suf -> depth + nesting (b :: pre) <= MaxPayloadDepth)) as Hcons.
  { split; intros H pre suf Hp.
    - apply (H (b :: pre) suf). by rewrite Hp.
    - destruct pre as [|b' pre]; [simpl; lia|]. simplify_eq/=. by apply (H pre suf). }
  rewrite Hcons. cbn [scan]. unfold separators_of, nesting in *. rewrite !sumZ_cons in *.
  setoid_rewrite sumZ_cons.
  destruct (opens b) eqn:Eo.
  { rewrite (opens_not_closes b Eo). rewrite andb_true_iff, negb_true_iff, Z.gtb_ltb, Z.ltb_ge.
    split.
    - intros [H1 H2]. apply IH in H2 as [H2 H3]; [|lia|lia]. split; [|lia].
      intros pre suf Hp. specialize (H2 pre suf Hp). lia.
    - intros [H1 H2]. pose proof (H1 [] l eq_refl) as H0. simpl in H0. split; [lia|].
      apply IH; [lia|lia|]. split; [|lia]. intros pre suf Hp. specialize (H1 pre suf Hp). lia. }
  destruct (closes b) eqn:Ec.
  { destruct (closes_not_opens b Ec) as [_ ->]. rewrite IH by lia.
    split; intros [H1 H2]; (split; [|lia]); intros pre suf Hp; specialize (H1 pre suf Hp); lia. }
  destruct (separates b) eqn:Es.
  - rewrite andb_true_iff, negb_true_iff, Z.gtb_ltb, Z.ltb_ge.
    assert (0 <= sumZ (fun b => if separates b then 1 else 0) l) as Hn.
    { clear. induction l as [|x l IH]; simpl; [lia|]. destruct (separates x); lia. }
    split.
    + intros [H1 H2]. apply IH in H2 as [H2 H3]; [|lia|lia]. split; [|lia].
      intros pre suf Hp. specialize (H2 pre suf Hp). lia.
    + intros [H1 H2]. split; [lia|]. apply IH; [lia|lia|]. split; [|lia].
      intros pre suf Hp. specialize (H1 pre suf Hp). lia.
  - rewrite IH by lia. split; intros [H1 H2]; (split; [|lia]); intros pre suf Hp; specialize (H1 pre suf Hp); lia.
Qed.

(** The shape scan accepts a payload exactly when, outside its strings, it
    never nests deeper than [MaxPayloadDepth] and has at most
    [MaxPayloadSeparators] commas and colons. *)
Theorem within_shape_meaning (raw : string) :
  let outside := structure (String.list_ascii_of_string raw) false false in
  withinShape raw = true <->
  (forall pre suf, outside = pre ++ suf -> nesting pre <= MaxPayloadDepth) /\
  separators_of outside <= MaxPayloadSeparators.
Proof.
  intros outside. unfold withinShape. rewrite shape_loop_scan by done.
  rewrite scan_spec by (vm_compute; discriminate). fold outside. setoid_rewrite Z.add_0_l. done.
Qed.

(** ** Bounds *)

Lemma explicit_loop_spec values kept out :
  explicit_loop values kept = (out, None) ->
  out = kept ++ filter (fun v => v <> "") values /\ Forall (fun v => len v <= MaxValueBytes) values.
Proof.
  revert kept. induction values as [|v values IH]; intros kept; cbn [explicit_loop].
  { intros [= <-]. by rewrite app_nil_r. }
  rewrite Z.gtb_ltb. destruct (Z.ltb_spec MaxValueBytes (len v)); [done|].
  intros [-> Hf]%IH. split; [|by constructor; [lia|]].
  rewrite filter_cons. case_bool_decide; case_decide; try done. by rewrite <- app_assoc.
Qed.

Lemma array_loop_strings strs kept : array_loop (JString <$> strs) kept = explicit_loop strs kept.
Proof.
  revert kept. induction strs as [|s strs IH]; intros kept; [done|].
  cbn [fmap list_fmap array_loop explicit_loop]. destruct (len s >? MaxValueBytes); [done|]. apply IH.
Qed.

Lemma array_loop_is_strings items kept out :
  array_loop items kept = (out, None) -> exists strs, items = JString <$> strs.
Proof.
  revert kept. induction items as [|j items IH]; intros kept; [by exists []|].
  destruct j; cbn [array_loop]; try done. destruct (len s >? MaxValueBytes); [done|].
  intros [strs ->]%IH. by exists (s :: strs).
Qed.

Lemma explicitValues_ok values kept :
  explicitValues values = (kept, None) ->
  kept = filter (fun v => v <> "") values /\ Forall value_ok kept /\ Z.of_nat (length kept) <= MaxArrayItems.
Proof.
  unfold explicitValues. rewrite Z.gtb_ltb.
  destruct (Z.ltb_spec MaxArrayItems (Z.of_nat (length values))) as [|Hl]; [done|].
  intros [-> Hf]%explicit_loop_spec. split_and!; [done| |].
  - apply Forall_forall. intros v [Hv Hin]%list_elem_of_filter. split; [done|].
    by eapply Forall_forall in Hf.
  - pose proof (length_filter (fun v => v <> "") values). simpl. lia.
Qed.

Lemma coerceArray_strings strs : coerceArray (JArray (JString <$> strs)) = explicitValues strs.
Proof. unfold coerceArray, explicitValues. by rewrite length_fmap, array_loop_strings. Qed.

Lemma coerce_ok v t values :
  coerce v t = (values, None) -> Forall value_ok values /\ Z.of_nat (length values) <= MaxArrayItems.
Proof.
  unfold coerce. case_bool_decide.
  - destruct v as [| | | |items|]; try done. intros Hc.
    assert (exists strs, items = JString <$> strs) as [strs ->].
    { unfold coerceArray in Hc. destruct (_ >? _); [done|]. by eapply array_loop_is_strings. }
    rewrite coerceArray_strings in Hc. apply explicitValues_ok in Hc. tauto.
  - destruct v; try done. rewrite Z.gtb_ltb. destruct (Z.ltb_spec MaxValueBytes (len s)); [done|].
    case_bool_decide; intros [= <-]; unfold MaxArrayItems; simpl; (split; [|lia]); [constructor|].
    apply Forall_singleton. split; [done|lia].
Qed.

Section facts.
Context `{Platform}.

Lemma extract_loop_ok claims e paths skip values reason :
  extract_loop claims e paths skip = (values, reason) -> values <> [] ->
  exists raw p v, p ∈ paths /\ walk claims p = Some v /\ coerce v (ke_Type e) = (raw, None) /\
    values = normalized (ke_Normalization e) raw /\ raw <> [].
Proof.
  revert skip. induction paths as [|p paths IH]; intros skip; cbn [extract_loop].
  { intros [= <- <-]. done. }
  destruct (walk claims p) as [v|] eqn:Hw.
  2:{ intros Hx Hne. destruct (IH _ Hx Hne) as (raw & q & v & ? & ?). exists raw, q, v. set_solver. }
  destruct (coerce v (ke_Type e)) as [[|r raw] [reason'|]] eqn:Hc.
  - intros Hx Hne. destruct (IH _ Hx Hne) as (raw & q & u & ? & ?). exists raw, q, u. set_solver.
  - intros Hx Hne. destruct (IH _ Hx Hne) as (raw & q & u & ? & ?). exists raw, q, u. set_solver.
  - intros Hx Hne. destruct (IH _ Hx Hne) as (raw' & q & u & ? & ?). exists raw', q, u. set_solver.
  - intros [= <- <-] _. exists (r :: raw), p, v. split_and!; try done. left.
Qed.

Lemma plan_loop_ok claims plan keys skips k vs :
  (plan_loop claims plan keys skips).1 !! k = Some vs ->
  keys !! k = Some vs \/
  exists e reason, e ∈ plan /\ ke_Key e = k /\ extractKey claims e = (vs, reason) /\ vs <> [].
Proof.
  revert keys skips. induction plan as [|e plan IH]; intros keys skips; cbn [plan_loop]; [by left|].
  destruct (extractKey claims e) as [values reason] eqn:He. intros Hk.
  apply IH in Hk as [Hk|(e' & r' & ? & ?)]; [|right; exists e', r'; set_solver].
  destruct values as [|v values]; [by left|].
  destruct (decide (ke_Key e = k)) as [Hek|Hne].
  - right. exists e, reason. rewrite Hek, lookup_insert_eq in Hk. injection Hk as <-.
    split_and!; [left|done|done|done].
  - left. by rewrite lookup_insert_ne in Hk.
Qed.

Lemma extract_loop_skip claims e paths skip :
  skip <> None -> (extract_loop claims e paths skip).2 = skip.
Proof.
  induction paths as [|p paths IH]; intros Hs; [done|]. cbn [extract_loop].
  destruct (walk claims p); [|by apply IH]. destruct (coerce j (ke_Type e)) as [[|v vs] [r|]]; try by apply IH.
  all: destruct skip; try done; by apply IH.
Qed.

Lemma plan_loop_skips claims plan keys skips :
  (plan_loop claims plan keys skips).2 =
  skips ++ omap (fun e => mkSkip (ke_Key e) <$> (extractKey claims e).2) plan.
Proof.
  revert keys skips. induction plan as [|e plan IH]; intros keys skips; cbn [plan_loop omap list_omap].
  { by rewrite app_nil_r. }
  destruct (extractKey claims e) as [values [r|]]; rewrite IH; cbn [snd fmap option_fmap option_map]; [|done].
  by rewrite <- app_assoc.
Qed.

(** ** Keys passed directly *)

Lemma explicit_key_spec plan kv acc :
  explicit_key plan kv acc =
  (match explicit_value plan kv with Some v => <[kv.1 := v]> acc.1 | None => acc.1 end,
   acc.2 ++ option_list (explicit_skip plan kv)).
Proof.
  destruct kv as [key values], acc as [out skips].
  unfold explicit_key, explicit_value, explicit_skip. cbn [fst snd].
  destruct (explicitValues values) as [[|v vs] [r|]]; destruct (planned plan key);
    cbn [option_list]; by rewrite ?app_nil_r.
Qed.

Lemma explicit_foldl plan keys acc :
  (foldl (fun acc kv => explicit_key plan kv acc) acc keys).2 = acc.2 ++ omap (explicit_skip plan) keys /\
  (NoDup keys.*1 -> forall k v,
     (foldl (fun acc kv => explicit_key plan kv acc) acc keys).1 !! k = Some v <->
     (exists vs, (k, vs) ∈ keys /\ explicit_value plan (k, vs) = Some v) \/
     (acc.1 !! k = Some v /\ forall vs, (k, vs) ∈ keys -> explicit_value plan (k, vs) = None)).
Proof.
  revert acc. induction keys as [|[key values] keys IH]; intros acc; cbn [foldl].
  { split; [by rewrite app_nil_r|]. intros _ k v. split; [|set_solver].
    intros Hk. right. split; [done|]. by intros vs ?%elem_of_nil. }
  destruct (IH (explicit_key plan (key, values) acc)) as [IH1 IH2].
  rewrite explicit_key_spec in IH1, IH2. rewrite explicit_key_spec. cbn [fst snd] in *. split.
  { rewrite IH1, <- app_assoc. f_equal. cbn [omap list_omap]. by destruct (explicit_skip _ _). }
  rewrite fmap_cons. intros [Hn Hd]%NoDup_cons k v. rewrite (IH2 Hd). clear IH1 IH2. simpl in Hn.
  assert (forall vs, (key, vs) ∈ keys -> False) as Habs.
  { intros vs Hin. apply Hn, list_elem_of_fmap. by exists (key, vs). }
  destruct (decide (k = key)) as [->|Hne].
  - destruct (explicit_value plan (key, values)) as [u|] eqn:Eu.
    + rewrite lookup_insert_eq. split.
      * intros [(vs & Hin & _)|[[= ->] _]]; [by destruct (Habs vs)|]. left. exists values. set_solver.
      * intros [(vs & Hin & Hv)|[_ Hall]].
        { apply elem_of_cons in Hin as [[= ->]|Hin]; [|by destruct (Habs vs)].
          right. split; [congruence|]. intros vs Hin. by destruct (Habs vs). }
        { rewrite (Hall values) in Eu; [done|left]. }
    + split; [intros [(vs & Hin & _)|[Ha _]]; [by destruct (Habs vs)|]|].
      { right. split; [done|]. intros vs [[= ->]|Hin]%elem_of_cons; [done|]. by destruct (Habs vs). }
      intros [(vs & [[= ->]|Hin]%elem_of_cons & Hv)|[Ha _]]; [congruence|by destruct (Habs vs)|].
      right. split; [done|]. intros vs Hin. by destruct (Habs vs).
  - assert (match explicit_value plan (key, values) with Some u => <[key := u]> acc.1 | None => acc.1 end !! k
      = acc.1 !! k) as -> by (case_match; [by rewrite lookup_insert_ne|done]).
    split; (intros [(vs & Hin & Hv)|[Ha Hall]]; [left; exists vs; set_solver|right]);
      (split; [done|]); intros vs Hin; apply Hall; set_solver.
Qed.

Lemma Explicit_lookup plan keys k v :
  NoDup keys.*1 ->
  (Explicit plan keys).1 !! k = Some v <->
  exists vs, (k, vs) ∈ keys /\ explicit_value plan (k, vs) = Some v.
Proof.
  intros Hd. unfold Explicit. rewrite (proj2 (explicit_foldl plan keys (∅, [])) Hd). simpl.
  split; [|by left]. by intros [?|[? _]].
Qed.

Lemma Explicit_skips plan keys : (Explicit plan keys).2 = omap (explicit_skip plan) keys.
Proof. unfold Explicit. by rewrite (proj1 (explicit_foldl plan keys (∅, []))). Qed.

End facts.

(** ** Distinct values *)

Lemma distinct_loop_spec values out :
  NoDup out ->
  NoDup (distinct_loop values out) /\
  (forall v, v ∈ distinct_loop values out <-> v ∈ out \/ v ∈ values) /\
  exists rest, distinct_loop values out = out ++ rest /\ rest `sublist_of` values.
Proof.
  revert out. induction values as [|v values IH]; intros out Hn; cbn [distinct_loop].
  { split_and!; [done|set_solver|]. exists []. by rewrite app_nil_r. }
  case_bool_decide as Hin.
  - destruct (IH out Hn) as (H1 & H2 & rest & H3 & H4). split_and!; [done|set_solver|].
    exists rest. split; [done|]. by constructor.
  - destruct (IH (out ++ [v])) as (H1 & H2 & rest & H3 & H4).
    { apply NoDup_app. split_and!; [done|set_solver|apply NoDup_singleton]. }
    split_and!; [done|set_solver|]. exists (v :: rest). rewrite H3, <- app_assoc.
    split; [done|]. by constructor.
Qed.

Lemma distinct_spec values :
  NoDup (distinct values) /\ (forall v, v ∈ distinct values <-> v ∈ values) /\
  distinct values `sublist_of` values.
Proof.
  unfold distinct. destruct (Nat.ltb_spec (length values) 2) as [Hl|Hl].
  - split_and!; [|done|done]. destruct values as [|v [|w vs]];
      [apply NoDup_nil_2|apply NoDup_singleton|simpl in Hl; lia].
  - destruct (distinct_loop_spec values [] (NoDup_nil_2)) as (H1 & H2 & rest & H3 & H4).
    split_and!; [done|set_solver|]. by rewrite H3.
Qed.

(** ** Claims *)

(** Everything extracted from a token is bounded and comes from the plan:
    each key is planned, has between 1 and 64 values, each of them the
    normalised form of a non-empty claim string of at most 256 bytes found
    along one of the key's paths; a token over the size bound yields no key,
    and every skip names a planned key. *)
Theorem extract_bounded `{Platform} (plan : list KeyExtraction) (token : string)
    (keys : gmap string (list string)) (skips : list Skip) :
  Extract plan token = (keys, skips) ->
  (forall k vs, keys !! k = Some vs ->
     exists e raw, e ∈ plan /\ ke_Key e = k /\ vs = normalized (ke_Normalization e) raw /\
       1 <= Z.of_nat (length raw) <= MaxArrayItems /\ Forall value_ok raw) /\
  (len token > MaxTokenBytes + 7 -> TrimSpace token = token -> keys = ∅) /\
  Forall (fun s => sk_Key s ∈ ke_Key <$> plan) skips.
Proof.
  unfold Extract. set (t := if _ && _ then _ else _). case_bool_decide as Ht; intros He.
  { simplify_eq. split_and!; [by intros|done|constructor]. }
  destruct (payload t) as [claims|] eqn:Hp.
  2:{ simplify_eq. split_and!; [by intros|done|]. apply Forall_forall.
      intros s (e & -> & Hin)%list_elem_of_fmap. simpl. by apply list_elem_of_fmap_2. }
  split_and!.
  - intros k vs Hk. assert ((plan_loop claims plan ∅ []).1 !! k = Some vs) as Hk' by (by rewrite He).
    apply plan_loop_ok in Hk' as [?|(e & r & Hin & Hke & Hx & Hne)]; [done|].
    apply extract_loop_ok in Hx as (raw & p & v & _ & _ & Hc & -> & Hraw); [|done].
    exists e, raw. apply coerce_ok in Hc as [Hf Hl]. split_and!; try done.
    destruct raw; [done|simpl; lia].
  - intros Hl Htrim. exfalso. unfold payload in Hp. subst t. rewrite Htrim in Hp.
    assert (forall s, (String.length s <= 7 + String.length (drop_str 7 s))%nat) as Hdrop.
    { intros s. generalize 7%nat. intros n. revert s. induction n as [|n IH]; intros [|c s]; simpl; try lia.
      specialize (IH s). lia. }
    specialize (Hdrop token). unfold len, MaxTokenBytes in *.
    match type of Hp with (if ?b then _ else _) = _ => destruct b eqn:E end; [done|].
    rewrite Z.gtb_ltb in E. apply Z.ltb_ge in E.
    match type of E with context [if ?b then _ else _] => destruct b end; lia.
  - assert (skips = (plan_loop claims plan ∅ []).2) as -> by (by rewrite He).
    rewrite plan_loop_skips. apply Forall_forall. intros s Hs. simpl in Hs.
    apply list_elem_of_omap in Hs as (e & Hin & Hs).
    destruct (extractKey claims e).2; simplify_eq/=. by apply list_elem_of_fmap_2.
Qed.

(** Keys passed directly do not depend on the order a Go map gives them:
    the resulting keys are the same, and the skips the same up to order. *)
Theorem explicit_order_independent `{Platform} (plan : list KeyExtraction)
    (keys keys' : list (string * list string)) :
  NoDup keys.*1 -> keys ≡ₚ keys' ->
  (Explicit plan keys).1 = (Explicit plan keys').1 /\ (Explicit plan keys).2 ≡ₚ (Explicit plan keys').2.
Proof.
  intros Hd Hp. assert (NoDup keys'.*1) as Hd' by (by rewrite <- Hp). split.
  - apply map_eq. intros k. apply option_eq. intros v.
    rewrite !Explicit_lookup by done. by setoid_rewrite Hp.
  - rewrite !Explicit_skips. by apply omap_Permutation.
Qed.

(** A value counts the same whichever form carried it. For a key declared
    as a string array, passing the strings of its claim directly gives the same
    set of values as extracting the claim from a token, without repeats, and
    reports the same anomaly. *)
Theorem explicit_agrees_with_token `{Platform} (plan : list KeyExtraction) (e : KeyExtraction)
    (claims : list (string * json)) (strs values : list string) (reason : option SkipReason) :
  planned plan (ke_Key e) = Some e -> ke_Type e = ValueStringArray -> ke_Fallbacks e = [] ->
  walk claims (ke_Path e) = Some (JArray (JString <$> strs)) ->
  extractKey claims e = (values, reason) ->
  let '(keys, skips) := Explicit plan [(ke_Key e, strs)] in
  skips = option_list (mkSkip (ke_Key e) <$> reason) /\
  (values = [] -> keys !! ke_Key e = None) /\
  (values <> [] -> exists vs, keys !! ke_Key e = Some vs /\ NoDup vs /\ forall v, v ∈ vs <-> v ∈ values).
Proof.
  intros Hpl Ht Hfb Hw Hx. unfold extractKey in Hx. rewrite Hfb in Hx. cbn [extract_loop] in Hx.
  rewrite Hw, Ht in Hx. unfold coerce in Hx. rewrite bool_decide_true in Hx by done.
  rewrite coerceArray_strings in Hx.
  destruct (Explicit plan [(ke_Key e, strs)]) as [keys skips] eqn:E. unfold Explicit in E.
  cbn [foldl] in E. rewrite explicit_key_spec in E. unfold explicit_value, explicit_skip in E.
  cbn [fst snd app] in E. rewrite Hpl in E. destruct (explicitValues strs) as [[|k kept] [r|]];
    injection E as <- <-; injection Hx as <- <-.
  1-3: split_and!; [done|done|done].
  split_and!; [done| |].
  - unfold normalized. by case_bool_decide.
  - intros _. eexists. rewrite lookup_insert_eq. split; [done|].
    destruct (distinct_spec (normalized (ke_Normalization e) (k :: kept))) as (? & ? & _). done.
Qed.

(** ** Witnesses *)

(** A platform that reads one fixed payload. *)
Definition demo_platform : Platform := {|
  Unmarshal raw :=
    if bool_decide (raw = "{}") then Some []
    else if bool_decide (raw = "[1]") then None
    else Some [("sub", JString "Alice"); ("roles", JArray [JString "a"; JString ""; JString "b"; JString "a"])];
  ToLower := ToLowerASCII;
  Sum256 s := s |}.

Definition demo_plan : list KeyExtraction :=
  [mkKeyExtraction "sub" ["sub"] ValueString NormalizeLowercase [];
   mkKeyExtraction "roles" ["roles"] ValueStringArray NormalizeNone []].

Lemma extract_bounded_witness :
  exists keys skips, Extract (H := demo_platform) demo_plan " Bearer h.eyI.s " = (keys, skips) /\
    keys !! "sub" = Some ["alice"] /\
    exists e raw, e ∈ demo_plan /\ ke_Key e = "sub" /\
      ["alice"] = normalized (H := demo_platform) (ke_Normalization e) raw /\ Forall value_ok raw.
Proof.
  eexists _, _. split; [vm_compute; reflexivity|]. split; [vm_compute; reflexivity|].
  destruct (extract_bounded (H := demo_platform) demo_plan " Bearer h.eyI.s " _ _ eq_refl) as (Hk & _ & _).
  destruct (Hk "sub" ["alice"]) as (e & raw & H1 & H2 & H3 & _ & H4); [vm_compute; reflexivity|].
  exists e, raw. split_and!; [exact H1|exact H2|exact H3|exact H4].
Defined.

Lemma explicit_order_independent_witness :
  (Explicit (H := demo_platform) demo_plan [("sub", ["Bob"]); ("x", ["1"])]).1 =
  (Explicit (H := demo_platform) demo_plan [("x", ["1"]); ("sub", ["Bob"])]).1.
Proof.
  apply (explicit_order_independent (H := demo_platform) demo_plan
    [("sub", ["Bob"]); ("x", ["1"])] [("x", ["1"]); ("sub", ["Bob"])]).
  - by_decide.
  - apply perm_swap.
Defined.

Lemma explicit_agrees_with_token_witness :
  exists vs, (Explicit (H := demo_platform) demo_plan [("roles", ["a"; ""; "b"; "a"])]).1 !! "roles" = Some vs /\
    forall v, v ∈ vs <-> v ∈ ["a"; "b"; "a"].
Proof.
  pose proof (explicit_agrees_with_token (H := demo_platform) demo_plan
    (mkKeyExtraction "roles" ["roles"] ValueStringArray NormalizeNone [])
    [("roles", JArray (JString <$> ["a"; ""; "b"; "a"]))] ["a"; ""; "b"; "a"] ["a"; "b"; "a"] None
    eq_refl eq_refl eq_refl eq_refl eq_refl) as Hw.
  destruct (Explicit _ _) as [keys skips]. destruct Hw as (_ & _ & Hw).
  destruct Hw as (vs & Hk & _ & Hv); [discriminate|]. exists vs. split; [exact Hk|exact Hv].
Defined.
