(* ===== verification/TokenCache.v ===== *)
(** * engine/tokencache.go: the extraction cache

    Two generations of entries keyed by the hash of a token. The operations
    are the atomic sections of the source; the interleavings of concurrent
    requests are a step relation over the cache and the stores in flight. The
    theorems: under any interleaving the cache stays within its entry and byte
    bounds, and a cached extraction always equals a fresh one. *)
From S2P Require Import Prelude GoStrings Algo Model Compile Identity.

(** ** Definitions *)

Record cacheEntry := mkCacheEntry {
  ce_keys : gmap string (list string);
  ce_skips : list Skip;
  ce_size : Z }.

Record tokenCache := mkTokenCache {
  tc_half : Z;
  tc_halfBytes : Z;
  tc_single : bool;
  tc_cur : gmap string cacheEntry;
  tc_prev : gmap string cacheEntry;
  tc_curBytes : Z }.

Definition tokenCacheBytes : Z := 8388608.
Definition maxCachedEntryBytes : Z := 4096.
Definition entryOverhead : Z := 160.
Definition mapOverhead : Z := 384.
Definition keyOverhead : Z := 64.
Definition valueOverhead : Z := 16.
Definition valueAlign : Z := 16.
(** two string headers on a 64-bit platform *)
Definition skipOverhead : Z := 32.

Definition value_size (v : string) : Z :=
  valueOverhead + (len v + valueAlign - 1) / valueAlign * valueAlign.

(** The sum over the entries of the map, in whatever order Go visits them. *)
Definition entrySize (keys : gmap string (list string)) (skips : list Skip) : Z :=
  entryOverhead + Z.of_nat (length skips) * skipOverhead
  + (if (0 <? size keys)%nat then mapOverhead else 0)
  + sumZ (fun kv => keyOverhead + len kv.1 + sumZ value_size kv.2) (map_to_list keys).

Definition newCacheEntry (keys : gmap string (list string)) (skips : list Skip) (sz : Z) : cacheEntry :=
  mkCacheEntry keys skips sz.

Definition newTokenCache (capacity budget : Z) : tokenCache :=
  if capacity <? 2 then mkTokenCache 1 budget true ∅ ∅ 0
  else mkTokenCache (capacity / 2) (budget / 2) false ∅ ∅ 0.

(** The locked section of [store]. *)
Definition store (h : string) (e : cacheEntry) (c : tokenCache) : tokenCache :=
  match tc_cur c !! h with
  | Some _ =>
      mkTokenCache (tc_half c) (tc_halfBytes c) (tc_single c) (<[h := e]> (tc_cur c)) (tc_prev c) (tc_curBytes c)
  | None =>
      if (tc_half c <=? Z.of_nat (size (tc_cur c))) || (tc_curBytes c + ce_size e >? tc_halfBytes c)
      then mkTokenCache (tc_half c) (tc_halfBytes c) (tc_single c) {[h := e]}
             (if tc_single c then tc_prev c else tc_cur c) (ce_size e)
      else mkTokenCache (tc_half c) (tc_halfBytes c) (tc_single c) (<[h := e]> (tc_cur c)) (tc_prev c)
             (tc_curBytes c + ce_size e)
  end.

(** [lookup] with nothing in between its read and its promotion. *)
Definition lookup (h : string) (c : tokenCache) : tokenCache * option cacheEntry :=
  match tc_cur c !! h with
  | Some e => (c, Some e)
  | None =>
      match tc_prev c !! h with
      | Some e => (store h e c, Some e)
      | None => (c, None)
      end
  end.

(** [CacheStats]: 64-bit counters. *)
Record CacheStats := mkStats { st_hits : Z; st_misses : Z }.
Definition hit_stats (s : CacheStats) : CacheStats := mkStats ((st_hits s + 1) mod 2 ^ 64) (st_misses s).
Definition miss_stats (s : CacheStats) : CacheStats := mkStats (st_hits s) ((st_misses s + 1) mod 2 ^ 64).

(** The mutable state of an engine: its cache, when it has one, and the
    counters it was given. *)
Record engine_cache := mkEC { ec_cache : option tokenCache; ec_stats : option CacheStats }.

Section cache.
Context `{Platform} (plan : list KeyExtraction).

Definition cachedExtract (token : string) (ec : engine_cache)
    : engine_cache * (gmap string (list string) * list Skip) :=
  match ec_cache ec with
  | None => (ec, Extract plan token)
  | Some c =>
      if bool_decide (plan = []) || bool_decide (token = "") || (len token >? MaxTokenBytes)
      then (ec, Extract plan token)
      else
        let h := Sum256 token in
        match lookup h c with
        | (c', Some entry) => (mkEC (Some c') (hit_stats <$> ec_stats ec), (ce_keys entry, ce_skips entry))
        | (c', None) =>
            let '(keys, skips) := Extract plan token in
            let sz := entrySize keys skips in
            (mkEC (Some (if sz <=? maxCachedEntryBytes then store h (newCacheEntry keys skips sz) c' else c'))
                  (miss_stats <$> ec_stats ec), (keys, skips))
        end
  end.

(** The entry a token's extraction makes. *)
Definition entry_for (token : string) : cacheEntry :=
  let '(keys, skips) := Extract plan token in newCacheEntry keys skips (entrySize keys skips).

(** *** Interleavings

    Requests run concurrently; their locked sections do not overlap. A
    configuration is the cache and the stores requests are about to make. The
    tokens that arrive are those of [seen]. *)
Context (seen : gset string).

Definition config : Type := tokenCache * list (string * cacheEntry).

Inductive step : config -> config -> Prop :=
| step_promote c pending h e :
    (** a lookup found [h] in the previous generation only *)
    tc_cur c !! h = None -> tc_prev c !! h = Some e ->
    step (c, pending) (c, (h, e) :: pending)
| step_miss c pending token :
    (** a lookup missed and the extraction is small enough to cache *)
    token ∈ seen -> ce_size (entry_for token) <= maxCachedEntryBytes ->
    step (c, pending) (c, (Sum256 token, entry_for token) :: pending)
| step_store c pending pending' h e :
    (** any request in flight takes the lock and stores *)
    pending ≡ₚ (h, e) :: pending' ->
    step (c, pending) (store h e c, pending').

Definition reachable (c0 : tokenCache) (cfg : config) : Prop := rtc step (c0, []) cfg.

(** ** The invariant *)

Definition bytes_of (m : gmap string cacheEntry) : Z := sumZ (fun kv => ce_size kv.2) (map_to_list m).

(** An entry holds the extraction of the token it is filed under. *)
Definition entry_valid (h : string) (e : cacheEntry) : Prop :=
  exists token, token ∈ seen /\ Sum256 token = h /\ e = entry_for token /\ ce_size e <= maxCachedEntryBytes.

Definition cache_inv (c : tokenCache) : Prop :=
  1 <= tc_half c /\ maxCachedEntryBytes <= tc_halfBytes c /\
  Z.of_nat (size (tc_cur c)) <= tc_half c /\ Z.of_nat (size (tc_prev c)) <= tc_half c /\
  tc_curBytes c = bytes_of (tc_cur c) /\
  bytes_of (tc_cur c) <= tc_halfBytes c /\ bytes_of (tc_prev c) <= tc_halfBytes c /\
  (tc_single c = true -> tc_prev c = ∅) /\
  map_Forall entry_valid (tc_cur c) /\ map_Forall entry_valid (tc_prev c).

(** No two of the tokens that arrive have the same SHA-256. *)
Context (collision_free : forall t1 t2, t1 ∈ seen -> t2 ∈ seen -> Sum256 t1 = Sum256 t2 -> t1 = t2).

Lemma entry_valid_unique h e1 e2 : entry_valid h e1 -> entry_valid h e2 -> e1 = e2.
Proof. intros (t1 & S1 & H1 & -> & _) (t2 & S2 & H2 & -> & _). f_equal. apply collision_free; congruence. Qed.

Lemma sumZ_perm {A} (f : A -> Z) l1 l2 : l1 ≡ₚ l2 -> sumZ f l1 = sumZ f l2.
Proof. induction 1; simpl in *; lia. Qed.

Lemma bytes_of_insert m h e : m !! h = None -> bytes_of (<[h := e]> m) = ce_size e + bytes_of m.
Proof. intros Hn. unfold bytes_of. rewrite (sumZ_perm _ _ _ (map_to_list_insert m h e Hn)). done. Qed.

Lemma bytes_of_singleton h e : bytes_of {[h := e]} = ce_size e.
Proof. unfold bytes_of. rewrite map_to_list_singleton. simpl. lia. Qed.

Lemma entrySize_nonneg keys skips : 0 <= entrySize keys skips.
Proof.
  unfold entrySize. assert (forall l, 0 <= sumZ value_size l) as Hv.
  { induction l as [|v l IH]; simpl; [lia|]. unfold value_size at 1, valueOverhead, valueAlign, len.
    pose proof (Z.div_pos (Z.of_nat (String.length v) + 16 - 1) 16). lia. }
  assert (forall l : list (string * list string),
    0 <= sumZ (fun kv => keyOverhead + len kv.1 + sumZ value_size kv.2) l) as Hk.
  { induction l as [|[k vs] l IH]; simpl; [lia|]. specialize (Hv vs). unfold keyOverhead, len in *. lia. }
  specialize (Hk (map_to_list keys)). unfold entryOverhead, skipOverhead, mapOverhead.
  destruct (0 <? size keys)%nat; lia.
Qed.

Lemma store_inv_preserved h e c : cache_inv c -> entry_valid h e -> cache_inv (store h e c).
Proof.
  intros (Hh & Hb & Hc & Hp & Hcb & Hbc & Hbp & Hs & Vc & Vp) He. unfold store.
  pose proof He as (token & _ & _ & Hsz & Hmax).
  destruct (tc_cur c !! h) as [e0|] eqn:E.
  - assert (e0 = e) as -> by (eapply entry_valid_unique; [|done]; by apply (Vc h)).
    rewrite insert_id by done. by repeat split.
  - destruct (_ || _) eqn:Efull; unfold cache_inv; cbn [tc_half tc_halfBytes tc_single tc_cur tc_prev tc_curBytes].
    + rewrite map_size_singleton, bytes_of_singleton.
      split_and!; try done; try (simpl; lia); try (by destruct (tc_single c)).
      all: try (by destruct (tc_single c); [rewrite Hs by done|]).
      all: try (destruct (tc_single c); [by intros; apply Hs|done]).
      by apply map_Forall_singleton.
    + apply orb_false_iff in Efull as [Ef1 Ef2]. rewrite Z.gtb_ltb in Ef2.
      apply Z.leb_gt in Ef1. apply Z.ltb_ge in Ef2.
      rewrite map_size_insert_None, bytes_of_insert by done.
      split_and!; try done; try lia. by apply map_Forall_insert_2.
Qed.

Lemma lookup_inv h c : cache_inv c -> cache_inv (lookup h c).1.
Proof.
  intros Hi. unfold lookup. destruct (tc_cur c !! h); [done|].
  destruct (tc_prev c !! h) as [e|] eqn:E; [|done].
  apply store_inv_preserved; [done|]. pose proof Hi as (_ & _ & _ & _ & _ & _ & _ & _ & _ & Vp). by apply (Vp h).
Qed.

Lemma lookup_valid h c e : cache_inv c -> (lookup h c).2 = Some e -> entry_valid h e.
Proof.
  intros (_ & _ & _ & _ & _ & _ & _ & _ & Vc & Vp). unfold lookup.
  destruct (tc_cur c !! h) as [e'|] eqn:E; [intros [= <-]; by apply (Vc h)|].
  destruct (tc_prev c !! h) as [e'|] eqn:E'; [intros [= <-]; by apply (Vp h)|done].
Qed.

Lemma new_inv capacity budget :
  1 <= capacity -> 2 * maxCachedEntryBytes <= budget -> cache_inv (newTokenCache capacity budget).
Proof.
  unfold maxCachedEntryBytes. intros Hc Hb. unfold newTokenCache, cache_inv, maxCachedEntryBytes, bytes_of.
  pose proof (Z.div_le_lower_bound budget 2 4096).
  destruct (Z.ltb_spec capacity 2); cbn [tc_half tc_halfBytes tc_single tc_cur tc_prev tc_curBytes];
    rewrite map_size_empty, map_to_list_empty; simpl.
  - split_and!; try done; lia.
  - pose proof (Z.div_le_lower_bound capacity 2 1). split_and!; try done; try lia.
Qed.

Definition config_inv (cfg : config) : Prop :=
  cache_inv cfg.1 /\ Forall (fun he => entry_valid he.1 he.2) cfg.2.

Lemma step_inv cfg cfg' : config_inv cfg -> step cfg cfg' -> config_inv cfg'.
Proof.
  intros [Hi Hp] Hs. destruct Hs as [c pending h e Hc Hpr|c pending token Hseen Hsz|c pending pending' h e Hperm];
    cbn [fst snd] in *.
  - split; [done|]. constructor; [|done]. pose proof Hi as (_ & _ & _ & _ & _ & _ & _ & _ & _ & Vp).
    by apply (Vp h).
  - split; [done|]. constructor; [|done]. by exists token.
  - simpl in Hp. rewrite Hperm in Hp. apply Forall_cons in Hp as [He Hp]. simpl in He.
    split; [|done]. by apply store_inv_preserved.
Qed.

(** The bounds do not change over a run. *)
Lemma store_frame h e c :
  tc_half (store h e c) = tc_half c /\ tc_halfBytes (store h e c) = tc_halfBytes c /\
  tc_single (store h e c) = tc_single c.
Proof. unfold store. repeat case_match; done. Qed.

Lemma reachable_inv c0 cfg :
  cache_inv c0 -> reachable c0 cfg ->
  config_inv cfg /\ tc_half cfg.1 = tc_half c0 /\ tc_halfBytes cfg.1 = tc_halfBytes c0 /\
  tc_single cfg.1 = tc_single c0.
Proof.
  intros H0. unfold reachable. intros Hr.
  assert (config_inv (c0, [])) as Hi by (split; [done|constructor]).
  remember (c0, []) as start eqn:Es. assert (start.1 = c0) as <- by (by subst). clear Es H0.
  induction Hr as [cfg|cfg1 cfg2 cfg3 Hs Hr IH]; [done|].
  destruct (IH (step_inv _ _ Hi Hs)) as (? & -> & -> & ->). split; [done|].
  destruct Hs; simpl; try done. apply store_frame.
Qed.

(** The whole of [cachedExtract], uninterrupted. *)
Lemma cachedExtract_ok c stats token :
  cache_inv c -> token ∈ seen ->
  (cachedExtract token (mkEC (Some c) stats)).2 = Extract plan token /\
  exists c', ec_cache (cachedExtract token (mkEC (Some c) stats)).1 = Some c' /\ cache_inv c'.
Proof.
  intros Hi Hseen. unfold cachedExtract. cbn [ec_cache ec_stats].
  destruct (_ || _); [by split; [|exists c]|].
  pose proof (lookup_inv (Sum256 token) c Hi) as Hi'. pose proof (lookup_valid (Sum256 token) c) as Hv.
  destruct (lookup (Sum256 token) c) as [c' [e|]]; cbn [fst snd] in *.
  - destruct (Hv e Hi eq_refl) as (t & St & Ht & -> & _). split; [|by exists c'].
    rewrite (collision_free t token) by done. unfold entry_for. by destruct (Extract plan token).
  - destruct (Extract plan token) as [keys skips] eqn:E. split; [done|]. eexists. split; [done|].
    destruct (Z.leb_spec (entrySize keys skips) maxCachedEntryBytes); [|done].
    apply store_inv_preserved; [done|]. exists token. unfold entry_for. by rewrite E.
Qed.

End cache.

(** ** Claims *)

(** C39: under any interleaving of concurrent lookups and stores, the cache never
    holds more entries than its capacity nor more bytes, as it estimates them,
    than its budget. *)
Theorem token_cache_bounded `{Platform} (plan : list KeyExtraction) (seen : gset string)
    (capacity budget : Z) (c : tokenCache) (pending : list (string * cacheEntry)) :
  (forall t1 t2, t1 ∈ seen -> t2 ∈ seen -> Sum256 t1 = Sum256 t2 -> t1 = t2) ->
  1 <= capacity -> 2 * maxCachedEntryBytes <= budget ->
  reachable plan seen (newTokenCache capacity budget) (c, pending) ->
  Z.of_nat (size (tc_cur c) + size (tc_prev c)) <= capacity /\
  bytes_of (tc_cur c) + bytes_of (tc_prev c) <= budget.
Proof.
  intros Hinj Hc Hb Hr.
  destruct (reachable_inv plan seen Hinj _ _ (new_inv plan seen capacity budget Hc Hb) Hr)
    as ([Hi _] & E1 & E2 & E3). cbn [fst] in *.
  destruct Hi as (_ & _ & Hs1 & Hs2 & _ & Hb1 & Hb2 & Hsg & _).
  rewrite E1, E2 in *. rewrite E3 in Hsg. unfold newTokenCache in *.
  destruct (Z.ltb_spec capacity 2); cbn [tc_half tc_halfBytes tc_single] in *.
  - rewrite Hsg in * by done. rewrite map_size_empty. unfold bytes_of at 2. rewrite map_to_list_empty. simpl. lia.
  - pose proof (Z.mul_div_le capacity 2). pose proof (Z.mul_div_le budget 2). lia.
Qed.

(** The cache changes cost, never results: in every cache concurrent
    requests can produce, a cached extraction returns exactly what extracting
    the token anew would, hit or miss, and keeps the cache valid. *)
Theorem cached_extract_transparent `{Platform} (plan : list KeyExtraction) (seen : gset string)
    (capacity budget : Z) (c : tokenCache) (pending : list (string * cacheEntry))
    (stats : option CacheStats) (token : string) :
  (forall t1 t2, t1 ∈ seen -> t2 ∈ seen -> Sum256 t1 = Sum256 t2 -> t1 = t2) ->
  1 <= capacity -> 2 * maxCachedEntryBytes <= budget ->
  reachable plan seen (newTokenCache capacity budget) (c, pending) -> token ∈ seen ->
  (cachedExtract plan token (mkEC (Some c) stats)).2 = Extract plan token /\
  exists c', ec_cache (cachedExtract plan token (mkEC (Some c) stats)).1 = Some c' /\
    cache_inv plan seen c'.
Proof.
  intros Hinj Hc Hb Hr Hseen.
  destruct (reachable_inv plan seen Hinj _ _ (new_inv plan seen capacity budget Hc Hb) Hr) as ([Hi _] & _).
  by apply cachedExtract_ok.
Qed.

(** A token in use survives a rotation: after a lookup found it, storing any
    other entry, rotation or not, leaves it in the cache. *)
Theorem cache_hit_survives_store `{Platform} (h h' : string) (e e' : cacheEntry) (c c' : tokenCache) :
  tc_single c = false -> lookup h c = (c', Some e) -> h' <> h ->
  (lookup h (store h' e' c')).2 = Some e.
Proof.
  intros Hs Hl Hne.
  assert (tc_cur c' !! h = Some e /\ tc_single c' = false) as [Hc Hs'].
  { unfold lookup in Hl. destruct (tc_cur c !! h) as [x|] eqn:E; [by simplify_eq|].
    destruct (tc_prev c !! h) as [x|]; [|done]. simplify_eq. split; [|by rewrite (proj2 (proj2 (store_frame _ _ _)))].
    unfold store. rewrite E. destruct (_ || _); simpl; by rewrite ?lookup_singleton_eq, ?lookup_insert_eq. }
  unfold store. destruct (tc_cur c' !! h') as [y|].
  { unfold lookup. simpl. by rewrite lookup_insert_ne, Hc. }
  destruct (_ || _); unfold lookup; simpl.
  - rewrite lookup_singleton_ne by done. by rewrite Hs', Hc.
  - by rewrite lookup_insert_ne, Hc.
Qed.

(** ** Witnesses *)

Definition demo_cache_platform : Platform :=
  {| Unmarshal _ := Some [("sub", JString "alice")]; ToLower := ToLowerASCII; Sum256 s := s |}.
Definition demo_cache_plan : list KeyExtraction :=
  [mkKeyExtraction "sub" ["sub"] ValueString NormalizeNone []].
Definition demo_seen : gset string := {["a.e30.s"; "b.e30.s"]}.

(** Two requests miss and store one after the other: the second store rotates
    a cache of two entries. *)
Definition demo_entry (t : string) : cacheEntry := entry_for (H := demo_cache_platform) demo_cache_plan t.
Definition demo_cache : tokenCache :=
  store "b.e30.s" (demo_entry "b.e30.s") (store "a.e30.s" (demo_entry "a.e30.s") (newTokenCache 2 8192)).

Lemma demo_cache_reachable :
  reachable (H := demo_cache_platform) demo_cache_plan demo_seen (newTokenCache 2 8192) (demo_cache, []).
Proof.
  unfold reachable.
  eapply rtc_l; [apply (step_miss _ _ _ _ "a.e30.s"); [set_solver|vm_compute; discriminate]|].
  eapply rtc_l; [apply (step_miss _ _ _ _ "b.e30.s"); [set_solver|vm_compute; discriminate]|].
  eapply rtc_l; [apply (step_store _ _ _ _ [("b.e30.s", demo_entry "b.e30.s")] "a.e30.s"); apply perm_swap|].
  eapply rtc_l; [apply (step_store _ _ _ _ [] "b.e30.s"); reflexivity|]. apply rtc_refl.
Qed.

Lemma token_cache_bounded_witness :
  Z.of_nat (size (tc_cur demo_cache) + size (tc_prev demo_cache)) <= 2 /\
  size (tc_prev demo_cache) = 1%nat.
Proof.
  split; [|vm_compute; reflexivity].
  apply (token_cache_bounded (H := demo_cache_platform) demo_cache_plan demo_seen 2 8192 demo_cache []).
  - intros t1 t2 _ _ Heq. exact Heq.
  - lia.
  - vm_compute. discriminate.
  - exact demo_cache_reachable.
Defined.

Lemma cached_extract_transparent_witness :
  (cachedExtract (H := demo_cache_platform) demo_cache_plan "a.e30.s" (mkEC (Some demo_cache) None)).2
  = Extract (H := demo_cache_platform) demo_cache_plan "a.e30.s".
Proof.
  apply (cached_extract_transparent (H := demo_cache_platform) demo_cache_plan demo_seen 2 8192 demo_cache []).
  - intros t1 t2 _ _ Heq. exact Heq.
  - lia.
  - vm_compute. discriminate.
  - exact demo_cache_reachable.
  - set_solver.
Defined.

Lemma cache_hit_survives_store_witness :
  (lookup "a.e30.s" (store "c" (demo_entry "b.e30.s") (lookup "a.e30.s" demo_cache).1)).2
  = Some (demo_entry "a.e30.s").
Proof.
  apply (cache_hit_survives_store (H := demo_cache_platform) "a.e30.s" "c" (demo_entry "a.e30.s")
    (demo_entry "b.e30.s") demo_cache (lookup "a.e30.s" demo_cache).1).
  - vm_compute. reflexivity.
  - vm_compute. reflexivity.
  - discriminate.
Defined.
