(* ===== verification/Engine.v ===== *)
(** * engine/engine.go: the decision pipeline

    One request through matching, identity, the store and the aggregation of
    the verdicts into rule outcomes and response headers. The store is any
    implementation of the counter contract; the engine's own state is its
    extraction cache. *)
From S2P Require Import Prelude GoStrings Algo Key StoreApi Model Compile Match Identity TokenCache.

(** ** Definitions *)

Definition DefaultTokenCacheSize : Z := 10000.

Record Request := mkRequest {
  rq_Path : string;
  rq_Method : string;
  rq_Token : string;
  rq_Keys : list (string * list string);
  rq_Cost : Z }.

Record Headers := mkHeaders {
  hd_Block : string;
  hd_Rule : string;
  hd_Limit : Z;
  hd_Remaining : Z;
  hd_RetryAfter : Z;
  hd_ResetAfter : Z;
  hd_Cost : Z;
  hd_EffectiveWindow : Z;
  hd_Algorithm : string;
  hd_PeriodSeconds : Z }.

Record RuleOutcome := mkOutcome {
  ro_Block : string;
  ro_Rule : string;
  ro_Shadow : bool;
  ro_Allowed : bool;
  ro_Cost : Z;
  ro_CostExceedsCapacity : bool;
  ro_Limit : Z;
  ro_Capacity : Z;
  ro_Remaining : Z;
  ro_RetryAfter : Z;
  ro_Algorithm : string;
  ro_PeriodSeconds : Z }.

Record Decision := mkDecision {
  d_Allowed : bool;
  d_CostExceedsCapacity : bool;
  d_Headers : option Headers;
  d_Rules : list RuleOutcome;
  d_Targeted : bool;
  d_Skips : list Skip;
  d_ExtractedKeys : list string }.

Inductive EngineError :=
| ErrTooManyBuckets (matched : nat)
| ErrStore (e : StoreError).

Definition MaxDecisionBuckets : Z := MaxDomainDecisionBuckets.

(** The slices are read at indices in range; the zero value stands for the
    rest. *)
Definition zero_bucket : Bucket := mkBucket "" 0 (mkWindow 0 0 0) false 0.
Definition zero_verdict : Verdict := mkVerdict false 0 false 0 0.
Definition bucket_at (bs : list Bucket) (i : nat) : Bucket := default zero_bucket (bs !! i).
Definition verdict_at (vs : list Verdict) (i : nat) : Verdict := default zero_verdict (vs !! i).

Definition algorithmName (id : Z) : string :=
  match ByID id with Some a => ToLowerASCII (Name a) | None => "" end.

Definition bucketCapacity (w : Window) : Z := if Burst w >? 0 then Burst w else Requests w.

Definition stricter (bs : list Bucket) (vs : list Verdict) (i best : nat) (allowed : bool) : bool :=
  let bi := bucket_at bs i in let bb := bucket_at bs best in
  let vi := verdict_at vs i in let vb := verdict_at vs best in
  if allowed then
    let left := v_Remaining vi *i b_Cost bb in
    let right := v_Remaining vb *i b_Cost bi in
    if negb (left =? right) then left <? right else str_ltb (b_Key bi) (b_Key bb)
  else if negb (Bool.eqb (v_CostExceedsCapacity vi) (v_CostExceedsCapacity vb))
  then v_CostExceedsCapacity vi
  else if negb (v_CostExceedsCapacity vi) && negb (v_RetryAfter vi =? v_RetryAfter vb)
  then v_RetryAfter vi >? v_RetryAfter vb
  else str_ltb (b_Key bi) (b_Key bb).

(** The loop of [strictestIndex] over the indices [ixs]; no best yet is
    [None]. *)
Fixpoint strictest_loop (bs : list Bucket) (vs : list Verdict) (ixs : list nat)
    (allowed skipShadow : bool) (best : option nat) : option nat :=
  match ixs with
  | [] => best
  | i :: ixs =>
      if skipShadow && b_Shadow (bucket_at bs i) then strictest_loop bs vs ixs allowed skipShadow best
      else if negb allowed && v_Allowed (verdict_at vs i) then strictest_loop bs vs ixs allowed skipShadow best
      else strictest_loop bs vs ixs allowed skipShadow
             (match best with
              | None => Some i
              | Some b => if stricter bs vs i b allowed then Some i else best
              end)
  end.

Definition strictestIndex (bs : list Bucket) (vs : list Verdict) (from to : nat)
    (allowed skipShadow : bool) : option nat :=
  strictest_loop bs vs (seq from (to - from)) allowed skipShadow None.

(** One rule of [ruleOutcomes], its buckets at [from, to). *)
Definition rule_outcome (bs : list Bucket) (vs : list Verdict) (m : MatchedRule) (from to : nat) : RuleOutcome :=
  let range := seq from (to - from) in
  let allowed := forallb (fun j => v_Allowed (verdict_at vs j)) range in
  let exceeds := existsb (fun j => negb (v_Allowed (verdict_at vs j)) && v_CostExceedsCapacity (verdict_at vs j)) range in
  match strictestIndex bs vs from to allowed false with
  | Some best =>
      let b := bucket_at bs best in let v := verdict_at vs best in
      mkOutcome (m_Block m) (m_Rule m) (m_Shadow m) allowed (m_Cost m) exceeds
        (Requests (b_Window b)) (bucketCapacity (b_Window b)) (v_Remaining v) (v_RetryAfter v)
        (algorithmName (b_Algorithm b)) (Period (b_Window b) /i Second)
  | None =>
      mkOutcome (m_Block m) (m_Rule m) (m_Shadow m) allowed (m_Cost m) exceeds 0 0 0 0 "" 0
  end.

Fixpoint outcomes_loop (bs : list Bucket) (vs : list Verdict) (matched : list MatchedRule) (i : nat)
    : list RuleOutcome :=
  match matched with
  | [] => []
  | m :: matched =>
      let to := (i + length (m_Buckets m))%nat in
      rule_outcome bs vs m i to :: outcomes_loop bs vs matched to
  end.

Definition ruleOutcomes (matched : list MatchedRule) (bs : list Bucket) (vs : list Verdict) : list RuleOutcome :=
  outcomes_loop bs vs matched 0.

Definition zero_matched : MatchedRule := mkMatched "" "" false 0 [].

Fixpoint ruleOf (matched : list MatchedRule) (i : nat) : MatchedRule :=
  match matched with
  | [] => zero_matched
  | m :: matched => if (i <? length (m_Buckets m))%nat then m else ruleOf matched (i - length (m_Buckets m))
  end.

Definition effectiveWindow (b : Bucket) (v : Verdict) : Z :=
  if v_Remaining v >=? bucketCapacity (b_Window b) then -1
  else if negb (b_Algorithm b =? GCRAID) then v_ResetAfter v
  else
    let depth := v_ResetAfter v /i Microsecond in
    let emission := EmissionMicros (b_Window b) in
    (depth -i TauMicros (b_Window b) +i (v_Remaining v +i 1) *i emission) *i Microsecond.

Definition aggregate (matched : list MatchedRule) (bs : list Bucket) (vs : list Verdict) (allowed : bool)
    : option Headers * bool :=
  let costExceeds :=
    negb allowed &&
    existsb (fun i => negb (b_Shadow (bucket_at bs i)) && v_CostExceedsCapacity (verdict_at vs i))
      (seq 0 (length bs)) in
  match strictestIndex bs vs 0 (length bs) allowed true with
  | None => (None, false)
  | Some best =>
      let owner := ruleOf matched best in
      let b := bucket_at bs best in let v := verdict_at vs best in
      (Some (mkHeaders (m_Block owner) (m_Rule owner) (Requests (b_Window b)) (v_Remaining v)
               (if costExceeds then -1 else v_RetryAfter v) (v_ResetAfter v) (b_Cost b)
               (effectiveWindow b v) (algorithmName (b_Algorithm b)) (Period (b_Window b) /i Second)),
       costExceeds)
  end.

(** [keyNames]: the declared keys present, in the compiled order. *)
Definition keyNames (snap : Snapshot) (keys : gmap string (list string)) : list string :=
  if (size keys =? 0)%nat then [] else filter (fun k => is_Some (keys !! k)) (s_EffectiveKeys snap).

(** An engine over a store with state [S]. *)
Section engine.
Context `{Platform} {S : Type}.

Record engine_state := mkES { es_cache : engine_cache; es_store : S }.

(** [New] with the options it applies: the cache bound and the counters. *)
Definition New_engine (tokenCache : Z) (stats : option CacheStats) (s : S) : engine_state :=
  mkES (mkEC (if tokenCache >? 0 then Some (newTokenCache tokenCache tokenCacheBytes) else None) stats) s.

Definition extractKeys (snap : Snapshot) (req : Request) (ec : engine_cache)
    : engine_cache * (gmap string (list string) * list Skip) :=
  let '(ec, (extracted, skips)) := cachedExtract (s_Extraction snap) (rq_Token req) ec in
  if (length (rq_Keys req) =? 0)%nat then (ec, (extracted, skips))
  else
    let '(explicit, explicitSkips) := Explicit (s_Extraction snap) (rq_Keys req) in
    (ec, (explicit ∪ extracted, skips ++ explicitSkips)).

(** [None] is a panic. [judge] is the store call: [Decide] or [Peek]. *)
Definition evaluate (snap : Snapshot) (judge : list Bucket -> S -> S * result StoreError (list Verdict))
    (req : Request) (es : engine_state) : engine_state * option (result EngineError Decision) :=
  let cost := if rq_Cost req =? 0 then 1 else rq_Cost req in
  let cands := Match snap (rq_Path req) (rq_Method req) in
  if Empty cands then (es, Some (Ok (mkDecision true false None [] false [] [])))
  else
    let '(ec, (keys, skips)) := extractKeys snap req (es_cache es) in
    let matched := Evaluate cands keys cost in
    let buckets := Buckets matched in
    if (length buckets =? 0)%nat
    then (mkES ec (es_store es), Some (Ok (mkDecision true false None [] true skips (keyNames snap keys))))
    else if Z.of_nat (length buckets) >? MaxDecisionBuckets
    then (mkES ec (es_store es), Some (Err (ErrTooManyBuckets (length buckets))))
    else
      let '(s, r) := judge buckets (es_store es) in
      let es' := mkES ec s in
      match r with
      | Err e => (es', Some (Err (ErrStore e)))
      | Ok verdicts =>
          match StoreAdmitted buckets verdicts with
          | None => (es', None)
          | Some allowed =>
              let '(headers, exceeds) := aggregate matched buckets verdicts allowed in
              (es', Some (Ok (mkDecision allowed exceeds headers (ruleOutcomes matched buckets verdicts)
                                true skips (keyNames snap keys))))
          end
      end.

Context {cap : Z} {kind : string -> Kind} {CS : CounterStore cap kind S}.

Definition Decide_engine (snap : Snapshot) (now : Z) (req : Request) (es : engine_state) :=
  evaluate snap (store_decide now) req es.

Definition Peek_engine (snap : Snapshot) (now : Z) (req : Request) (es : engine_state) :=
  evaluate snap (store_peek now) req es.

End engine.

Arguments engine_state : clear implicits.

(** * The strictest bucket

    The order [stricter] computes, on pairs of a bucket and its verdict and in
    exact arithmetic, is a strict total order on buckets with distinct keys,
    so the pick of [strictestIndex] is its least element, whatever order the
    buckets come in. *)

(** ** Definitions *)

Definition judged : Type := Bucket * Verdict.

(** [x] binds harder than [y]. *)
Definition binds (allowed : bool) (x y : judged) : Prop :=
  let '(bx, vx) := x in let '(by_, vy) := y in
  if allowed then
    v_Remaining vx * b_Cost by_ < v_Remaining vy * b_Cost bx \/
    (v_Remaining vx * b_Cost by_ = v_Remaining vy * b_Cost bx /\ str_ltb (b_Key bx) (b_Key by_) = true)
  else
    (v_CostExceedsCapacity vx = true /\ v_CostExceedsCapacity vy = false) \/
    (v_CostExceedsCapacity vx = v_CostExceedsCapacity vy /\
     ((v_CostExceedsCapacity vx = false /\ v_RetryAfter vx > v_RetryAfter vy) \/
      ((v_CostExceedsCapacity vx = true \/ v_RetryAfter vx = v_RetryAfter vy) /\
       str_ltb (b_Key bx) (b_Key by_) = true))).

(** A pair the comparison may look at: on allow, the numbers are below 2^31,
    which keeps the products below 2^62. *)
Definition comparable (allowed : bool) (x : judged) : Prop :=
  allowed = true -> 0 <= v_Remaining x.2 < 2 ^ 31 /\ 1 <= b_Cost x.1 < 2 ^ 31.

(** The pairs [strictestIndex] considers. *)
Definition considered (allowed skipShadow : bool) (x : judged) : bool :=
  negb (skipShadow && b_Shadow x.1) && (allowed || negb (v_Allowed x.2)).

(** The least element of the considered pairs. *)
Definition is_strictest (allowed skipShadow : bool) (l : list judged) (x : judged) : Prop :=
  x ∈ l /\ considered allowed skipShadow x = true /\
  forall y, y ∈ l -> considered allowed skipShadow y = true -> b_Key y.1 <> b_Key x.1 -> binds allowed x y.

(** ** A strict total order *)

Lemma binds_trans allowed x y z :
  comparable allowed x -> comparable allowed y -> comparable allowed z ->
  binds allowed x y -> binds allowed y z -> binds allowed x z.
Proof.
  destruct x as [bx vx], y as [by_ vy], z as [bz vz]. unfold binds, comparable. destruct allowed; cbn [fst snd].
  - intros Hx Hy Hz. specialize (Hx eq_refl). specialize (Hy eq_refl). specialize (Hz eq_refl).
    set (rx := v_Remaining vx) in *. set (ry := v_Remaining vy) in *. set (rz := v_Remaining vz) in *.
    set (cx := b_Cost bx) in *. set (cy := b_Cost by_) in *. set (cz := b_Cost bz) in *.
    assert (forall a b, cy * a < cy * b -> a < b) as Hlt by (intros; nia).
    assert (forall a b, cy * a = cy * b -> a = b) as Heq by (intros; nia).
    intros [H1|[H1 K1]] [H2|[H2 K2]].
    + left. apply Hlt. nia.
    + left. apply Hlt. nia.
    + left. apply Hlt. nia.
    + right. split; [apply Heq; nia|by eapply str_ltb_trans].
  - intros _ _ _.
    destruct (v_CostExceedsCapacity vx), (v_CostExceedsCapacity vy), (v_CostExceedsCapacity vz);
      intros H1 H2; destruct_or?; destruct_and?; destruct_or?; destruct_and?; try done; try tauto.
    all: try (right; split; [done|]).
    all: try (left; split; [done|lia]).
    all: right; (split; [first [by left|right; lia]|by eapply str_ltb_trans]).
Qed.

Lemma binds_total allowed x y :
  b_Key x.1 <> b_Key y.1 -> binds allowed x y \/ binds allowed y x.
Proof.
  destruct x as [bx vx], y as [by_ vy]. cbn [fst]. intros Hk. unfold binds.
  pose proof (str_ltb_total _ _ Hk) as Ht. destruct allowed.
  - destruct (Z.lt_trichotomy (v_Remaining vx * b_Cost by_) (v_Remaining vy * b_Cost bx)) as [?|[He|?]];
      [tauto| |tauto]. rewrite He. tauto.
  - destruct (v_CostExceedsCapacity vx), (v_CostExceedsCapacity vy); try tauto.
    destruct (Z.lt_trichotomy (v_RetryAfter vx) (v_RetryAfter vy)) as [?|[He|?]].
    + right. right. split; [done|]. left. split; [done|lia].
    + rewrite He. tauto.
    + left. right. split; [done|]. left. split; [done|lia].
Qed.

Lemma binds_irrefl allowed x : ~ binds allowed x x.
Proof.
  destruct x as [b v]. unfold binds. rewrite str_ltb_irrefl. destruct allowed; [lia|].
  destruct (v_CostExceedsCapacity v); naive_solver lia.
Qed.

(** ** The code computes this order *)

Lemma mul_exact_31 a c : 0 <= a < 2 ^ 31 -> 1 <= c < 2 ^ 31 -> a *i c = a * c.
Proof.
  intros Ha Hc. apply mul64_exact. split; [nia|].
  apply Z.le_lt_trans with (2 ^ 31 * 2 ^ 31); [|done].
  apply Z.mul_le_mono_nonneg; lia.
Qed.

Lemma stricter_binds bs vs i j x y allowed :
  bs !! i = Some x.1 -> vs !! i = Some x.2 -> bs !! j = Some y.1 -> vs !! j = Some y.2 ->
  comparable allowed x -> comparable allowed y ->
  stricter bs vs i j allowed = true <-> binds allowed x y.
Proof.
  destruct x as [bx vx], y as [by_ vy]. cbn [fst snd]. intros Hb1 Hv1 Hb2 Hv2 Hx Hy.
  unfold stricter, bucket_at, verdict_at, binds. rewrite Hb1, Hv1, Hb2, Hv2. cbn [from_option id].
  destruct allowed.
  - specialize (Hx eq_refl). specialize (Hy eq_refl). cbn [fst snd] in Hx, Hy.
    rewrite !mul_exact_31 by tauto.
    destruct (Z.eqb_spec (v_Remaining vx * b_Cost by_) (v_Remaining vy * b_Cost bx)); cbn [negb].
    + split; [intros; by right|]. intros [?|[_ ?]]; [lia|done].
    + rewrite Z.ltb_lt. split; [intros; by left|]. intros [?|[? _]]; [done|lia].
  - destruct (v_CostExceedsCapacity vx), (v_CostExceedsCapacity vy); cbn [Bool.eqb negb andb]; simpl.
    + naive_solver.
    + naive_solver.
    + naive_solver.
    + rewrite Z.gtb_ltb. destruct (Z.eqb_spec (v_RetryAfter vx) (v_RetryAfter vy)); cbn [negb].
      * split; [intros; right; split; [done|]; right; by auto|]. intros [?|[_ [?|?]]]; naive_solver lia.
      * rewrite Z.ltb_lt. split; [intros; right; split; [done|]; left; split; [done|lia]|].
        naive_solver lia.
Qed.

Section pick.
Context (bs : list Bucket) (vs : list Verdict) (allowed skipShadow : bool).
Context (Hlen : length vs = length bs) (Hnd : NoDup (b_Key <$> bs)).
Context (Hcmp : forall i b v, bs !! i = Some b -> vs !! i = Some v ->
  considered allowed skipShadow (b, v) = true -> comparable allowed (b, v)).

Definition at_ (i : nat) : judged := (bucket_at bs i, verdict_at vs i).

Lemma at_lookup i : (i < length bs)%nat -> bs !! i = Some (at_ i).1 /\ vs !! i = Some (at_ i).2.
Proof.
  intros Hi. unfold at_, bucket_at, verdict_at. cbn [fst snd].
  destruct (lookup_lt_is_Some_2 bs i Hi) as [b ->].
  destruct (lookup_lt_is_Some_2 vs i) as [v ->]; [lia|]. done.
Qed.

Lemma at_key_inj i j : (i < length bs)%nat -> (j < length bs)%nat -> b_Key (at_ i).1 = b_Key (at_ j).1 -> i = j.
Proof.
  intros Hi Hj Hk. destruct (at_lookup i Hi) as [Hbi _], (at_lookup j Hj) as [Hbj _].
  apply (NoDup_lookup (b_Key <$> bs) i j (b_Key (at_ i).1)); [done| |].
  - by rewrite list_lookup_fmap, Hbi.
  - by rewrite list_lookup_fmap, Hbj, Hk.
Qed.

Definition pick_inv (done_ : list nat) (best : option nat) : Prop :=
  match best with
  | None => forall i, i ∈ done_ -> considered allowed skipShadow (at_ i) = false
  | Some b => b ∈ done_ /\ considered allowed skipShadow (at_ b) = true /\
      forall i, i ∈ done_ -> considered allowed skipShadow (at_ i) = true -> i <> b ->
        binds allowed (at_ b) (at_ i)
  end.

Lemma considered_comparable i :
  (i < length bs)%nat -> considered allowed skipShadow (at_ i) = true -> comparable allowed (at_ i).
Proof. intros Hi Hc. destruct (at_lookup i Hi). by eapply Hcmp. Qed.

Lemma pick_step done_ best i :
  (forall j, j ∈ i :: done_ -> (j < length bs)%nat) -> i ∉ done_ ->
  considered allowed skipShadow (at_ i) = true -> pick_inv done_ best ->
  pick_inv (i :: done_) (match best with
    | None => Some i | Some b => if stricter bs vs i b allowed then Some i else best end).
Proof.
  intros Hlt Hi Hc Hinv. destruct best as [b|].
  - destruct Hinv as (Hb & Hcb & Hall).
    assert (i < length bs)%nat as Hil by (apply Hlt; set_solver).
    assert (b < length bs)%nat as Hbl by (apply Hlt; set_solver).
    assert (i <> b) as Hne by (intros ->; done).
    destruct (at_lookup i Hil) as [Hb1 Hv1], (at_lookup b Hbl) as [Hb2 Hv2].
    pose proof (stricter_binds bs vs i b (at_ i) (at_ b) allowed Hb1 Hv1 Hb2 Hv2
      (considered_comparable i Hil Hc) (considered_comparable b Hbl Hcb)) as Hs.
    destruct (stricter bs vs i b allowed).
    + split_and!; [left|done|]. intros j [->|Hj]%elem_of_cons Hcj Hji; [done|].
      destruct (decide (j = b)) as [->|Hjb]; [by apply Hs|].
      assert (j < length bs)%nat as Hjl by (apply Hlt; set_solver).
      apply (binds_trans allowed _ (at_ b)); [by apply considered_comparable..|by apply Hs|].
      by apply Hall.
    + split_and!; [by right|done|]. intros j [->|Hj]%elem_of_cons Hcj Hjb; [|by apply Hall].
      destruct (binds_total allowed (at_ b) (at_ i)) as [?|Hib]; [|done|].
      * intros Hk. apply Hjb. symmetry. by apply at_key_inj.
      * by apply Hs in Hib.
  - split_and!; [left|done|]. intros j [->|Hj]%elem_of_cons Hcj Hji; [done|].
    by rewrite (Hinv j Hj) in Hcj.
Qed.

Lemma pick_skip done_ best i :
  considered allowed skipShadow (at_ i) = false -> pick_inv done_ best -> pick_inv (i :: done_) best.
Proof.
  intros Hc. destruct best as [b|]; cbn [pick_inv].
  - intros (Hb & Hcb & Hall). split_and!; [by right|done|].
    intros j [->|Hj]%elem_of_cons Hcj; [congruence|by apply Hall].
  - intros Hall j [->|Hj]%elem_of_cons; [done|by apply Hall].
Qed.

Lemma strictest_loop_inv ixs done_ best :
  (forall j, j ∈ ixs ++ done_ -> (j < length bs)%nat) -> NoDup (ixs ++ done_) ->
  pick_inv done_ best -> exists done', done' ≡ₚ ixs ++ done_ /\
    pick_inv done' (strictest_loop bs vs ixs allowed skipShadow best).
Proof.
  revert done_ best. induction ixs as [|i ixs IH]; intros done_ best Hlt Hn Hinv; cbn [strictest_loop].
  { exists done_. done. }
  cbn [app] in *. apply NoDup_cons in Hn as [Hi Hn].
  assert (NoDup (ixs ++ i :: done_)) as Hn' by (rewrite <- Permutation_middle; by constructor).
  assert (forall j, j ∈ ixs ++ i :: done_ -> (j < length bs)%nat) as Hlt'
    by (intros j Hj; apply Hlt; set_solver).
  assert (forall best', pick_inv (i :: done_) best' -> exists done', done' ≡ₚ i :: ixs ++ done_ /\
    pick_inv done' (strictest_loop bs vs ixs allowed skipShadow best')) as Hrec.
  { intros best' Hb. destruct (IH (i :: done_) best' Hlt' Hn' Hb) as (d' & Hd & Hp).
    exists d'. split; [|done]. by rewrite Hd, <- Permutation_middle. }
  destruct (considered allowed skipShadow (at_ i)) eqn:Hc.
  - pose proof Hc as Hc'. unfold considered, at_ in Hc. cbn [fst snd] in Hc.
    apply andb_true_iff in Hc as [Hc1 Hc2]. apply negb_true_iff in Hc1. rewrite Hc1.
    assert (negb allowed && v_Allowed (verdict_at vs i) = false) as ->
      by (destruct allowed, (v_Allowed (verdict_at vs i)); done).
    apply Hrec, pick_step; [|set_solver|done|done]. intros j Hj. apply Hlt. set_solver.
  - pose proof (pick_skip done_ best i Hc Hinv) as Hp. unfold considered, at_ in Hc. cbn [fst snd] in Hc.
    destruct (skipShadow && b_Shadow (bucket_at bs i)); [by apply Hrec|]. cbn [negb andb] in Hc.
    assert (negb allowed && v_Allowed (verdict_at vs i) = true) as ->
      by (destruct allowed, (v_Allowed (verdict_at vs i)); done).
    by apply Hrec.
Qed.

Lemma strictestIndex_spec from to :
  (to <= length bs)%nat ->
  match strictestIndex bs vs from to allowed skipShadow with
  | None => forall i, (from <= i < to)%nat -> considered allowed skipShadow (at_ i) = false
  | Some b => (from <= b < to)%nat /\ considered allowed skipShadow (at_ b) = true /\
      forall i, (from <= i < to)%nat -> considered allowed skipShadow (at_ i) = true -> i <> b ->
        binds allowed (at_ b) (at_ i)
  end.
Proof.
  intros Hto. unfold strictestIndex.
  destruct (strictest_loop_inv (seq from (to - from)) [] None) as (d & Hd & Hp).
  - intros j. rewrite app_nil_r, elem_of_seq. lia.
  - rewrite app_nil_r. apply NoDup_seq.
  - cbn [pick_inv]. by intros i ?%elem_of_nil.
  - rewrite app_nil_r in Hd. assert (forall i, i ∈ d <-> (from <= i < to)%nat) as Hin.
    { intros i. rewrite Hd, elem_of_seq. lia. }
    destruct (strictest_loop _ _ _ _ _ _) as [b|]; cbn [pick_inv] in Hp.
    + destruct Hp as (Hb & Hc & Hall). split_and!; [by apply Hin..|done|]. intros i Hi. apply Hall. by apply Hin.
    + intros i Hi. apply Hp. by apply Hin.
Qed.

Lemma elem_of_zip x : x ∈ zip bs vs <-> exists i, (i < length bs)%nat /\ x = at_ i.
Proof.
  destruct x as [b v]. rewrite list_elem_of_lookup. split.
  - intros [i Hi]. exists i. apply lookup_zip_Some in Hi as [Hb Hv]. split; [by eapply lookup_lt_Some|].
    unfold at_, bucket_at, verdict_at. by rewrite Hb, Hv.
  - intros (i & Hi & [= -> ->]). exists i. apply lookup_zip_Some. by apply at_lookup.
Qed.

(** Over the whole decision, as a property of the pairs. *)
Lemma strictest_whole :
  match strictestIndex bs vs 0 (length bs) allowed skipShadow with
  | None => forall x, x ∈ zip bs vs -> considered allowed skipShadow x = false
  | Some b => (b < length bs)%nat /\ is_strictest allowed skipShadow (zip bs vs) (at_ b)
  end.
Proof.
  pose proof (strictestIndex_spec 0 (length bs) ltac:(lia)) as H.
  destruct (strictestIndex _ _ _ _ _ _) as [b|].
  - destruct H as (Hb & Hc & Hall). split; [lia|]. split_and!; [|done|].
    + apply elem_of_zip. exists b. split; [lia|done].
    + intros y (i & Hi & ->)%elem_of_zip Hcy Hk. apply Hall; [lia|done|]. by intros ->.
  - intros x (i & Hi & ->)%elem_of_zip. apply H. lia.
Qed.

End pick.

(** The least element is unique. *)
Lemma strictest_unique allowed skipShadow l x y :
  (forall z, z ∈ l -> considered allowed skipShadow z = true -> comparable allowed z) ->
  NoDup ((fun z : judged => b_Key z.1) <$> l) ->
  is_strictest allowed skipShadow l x -> is_strictest allowed skipShadow l y -> x = y.
Proof.
  intros Hcmp Hnd (Hx & Hcx & Hax) (Hy & Hcy & Hay).
  destruct (decide (b_Key x.1 = b_Key y.1)) as [He|Hne].
  - apply list_elem_of_lookup in Hx as [i Hi], Hy as [j Hj].
    assert (i = j) as ->; [|congruence].
    apply (NoDup_lookup ((fun z : judged => b_Key z.1) <$> l) i j (b_Key x.1)); [done| |].
    + by rewrite list_lookup_fmap, Hi.
    + rewrite list_lookup_fmap, Hj. simpl. by rewrite He.
  - exfalso. apply (binds_irrefl allowed x).
    apply (binds_trans allowed x y x); [by apply Hcmp..|by apply Hax|by apply Hay].
Qed.

(** ** Claims *)

(** The strictest bucket does not depend on the order the buckets come in,
    so replicas that list them differently report the same headers: permuted
    decisions pick the same bucket and verdict. *)
Theorem strictest_order_independent (bs bs' : list Bucket) (vs vs' : list Verdict)
    (allowed skipShadow : bool) :
  length vs = length bs -> length vs' = length bs' -> NoDup (b_Key <$> bs) ->
  zip bs vs ≡ₚ zip bs' vs' ->
  Forall (fun x => considered allowed skipShadow x = true -> comparable allowed x) (zip bs vs) ->
  at_ bs vs <$> strictestIndex bs vs 0 (length bs) allowed skipShadow =
  at_ bs' vs' <$> strictestIndex bs' vs' 0 (length bs') allowed skipShadow.
Proof.
  intros Hl Hl' Hnd Hp Hcmp.
  assert (bs ≡ₚ bs') as Hbs.
  { rewrite <- (fst_zip bs vs), <- (fst_zip bs' vs') by lia. by rewrite Hp. }
  assert (NoDup (b_Key <$> bs')) as Hnd' by (by rewrite <- Hbs).
  rewrite Forall_forall in Hcmp.
  assert (forall xs ys, zip bs vs ≡ₚ zip xs ys -> forall i b v, xs !! i = Some b -> ys !! i = Some v ->
    considered allowed skipShadow (b, v) = true -> comparable allowed (b, v)) as Hc.
  { intros xs ys Hxy i b v Hb Hv. apply Hcmp. rewrite Hxy. apply list_elem_of_lookup. exists i.
    by apply lookup_zip_Some. }
  pose proof (strictest_whole bs vs allowed skipShadow Hl Hnd (Hc bs vs ltac:(done))) as H1.
  pose proof (strictest_whole bs' vs' allowed skipShadow Hl' Hnd' (Hc bs' vs' Hp)) as H2.
  destruct (strictestIndex bs vs _ _ _ _) as [i|], (strictestIndex bs' vs' _ _ _ _) as [j|]; simpl.
  - f_equal. destruct H1 as [_ H1], H2 as [_ H2].
    apply (strictest_unique allowed skipShadow (zip bs vs)); [done| |done|].
    + change ((fun z : judged => b_Key z.1) <$> zip bs vs) with (b_Key ∘ fst <$> zip bs vs).
      by rewrite list_fmap_compose, fst_zip by lia.
    + destruct H2 as (Ha & Hb & Hall). split_and!; [by rewrite Hp|done|].
      intros y Hy. apply Hall. by rewrite <- Hp.
  - destruct H1 as [_ (Hin & Hcon & _)]. rewrite Hp in Hin. by rewrite (H2 _ Hin) in Hcon.
  - destruct H2 as [_ (Hin & Hcon & _)]. rewrite <- Hp in Hin. by rewrite (H1 _ Hin) in Hcon.
  - done.
Qed.

Definition demo_b (k : string) (cost : Z) : Bucket := mkBucket k GCRAID (mkWindow 10 Second 10) false cost.
Definition demo_v (rem : Z) : Verdict := mkVerdict true rem false (-1) 0.

Lemma strictest_order_independent_witness :
  strictestIndex [demo_b "a" 100; demo_b "b" 1] [demo_v 500; demo_v 30] 0 2 true true = Some 0%nat /\
  at_ [demo_b "a" 100; demo_b "b" 1] [demo_v 500; demo_v 30] <$>
    strictestIndex [demo_b "a" 100; demo_b "b" 1] [demo_v 500; demo_v 30] 0 2 true true =
  at_ [demo_b "b" 1; demo_b "a" 100] [demo_v 30; demo_v 500] <$>
    strictestIndex [demo_b "b" 1; demo_b "a" 100] [demo_v 30; demo_v 500] 0 2 true true.
Proof.
  split; [vm_compute; reflexivity|].
  apply (strictest_order_independent [demo_b "a" 100; demo_b "b" 1] [demo_b "b" 1; demo_b "a" 100]
    [demo_v 500; demo_v 30] [demo_v 30; demo_v 500] true true).
  - reflexivity.
  - reflexivity.
  - by_decide.
  - apply perm_swap.
  - repeat constructor; simpl; lia.
Defined.
