(* ===== verification/EngineFacts.v ===== *)
(** * What a decision guarantees

    End-to-end theorems about the engine over a snapshot the compiler emitted
    and any store that meets the counter contract: a decision is always made,
    it charges all or nothing, a peek agrees with it, and its retry hint and
    headers mean what they say. *)
From S2P Require Import Prelude GoStrings Algo Key StoreApi Memory Model Compile CompileFacts Match MatchFacts MatchKeys Identity IdentityFacts.
From S2P Require Import TokenCache Engine.

(** ** Definitions *)

(** The cache of an engine is valid for the tokens of [seen]. *)
Definition ec_ok `{Platform} (plan : list KeyExtraction) (seen : gset string) (ec : engine_cache) : Prop :=
  match ec_cache ec with None => True | Some c => cache_inv plan seen c end.

Definition hash_injective `{Platform} (seen : gset string) : Prop :=
  forall t1 t2, t1 ∈ seen -> t2 ∈ seen -> Sum256 t1 = Sum256 t2 -> t1 = t2.

(** The identity of a request, without the cache. *)
Definition request_keys `{Platform} (snap : Snapshot) (req : Request) : gmap string (list string) :=
  let extracted := (Extract (s_Extraction snap) (rq_Token req)).1 in
  if (length (rq_Keys req) =? 0)%nat then extracted
  else (Explicit (s_Extraction snap) (rq_Keys req)).1 ∪ extracted.

Definition request_cost (req : Request) : Z := if rq_Cost req =? 0 then 1 else rq_Cost req.

(** The rules a request matches and the buckets it is judged on. *)
Definition request_matched `{Platform} (snap : Snapshot) (req : Request) : list MatchedRule :=
  Evaluate (Match snap (rq_Path req) (rq_Method req)) (request_keys snap req) (request_cost req).
Definition request_buckets `{Platform} (snap : Snapshot) (req : Request) : list Bucket :=
  Buckets (request_matched snap req).

(** ** Levels and time *)

Lemma decay_le kd t0 t1 lvl : t0 <= t1 -> 0 <= lvl -> 0 <= decay kd t0 t1 lvl <= lvl.
Proof.
  intros Ht Hl. unfold decay. destruct (k_alg kd); [lia|]. case_match; lia.
Qed.

Lemma judge_allowed_mono cap kind b l1 l2 :
  bucket_ok cap kind b -> l2 <= l1 -> judge_allowed b l1 = true -> judge_allowed b l2 = true.
Proof.
  intros Hb Hl. unfold judge_allowed. destruct (b_Algorithm b =? GCRAID).
  - rewrite !andb_true_iff, !Z.leb_le. lia.
  - rewrite !Z.leb_le. lia.
Qed.

Lemma exceeds_never_allowed cap kind b lvl :
  bucket_ok cap kind b -> 0 <= lvl -> judge_exceeds b = true -> judge_allowed b lvl = false.
Proof.
  intros Hb Hl. unfold judge_exceeds, judge_allowed. destruct (b_Algorithm b =? GCRAID); intros Hx; bools.
  - by rewrite (proj2 (Z.leb_gt _ _)) by lia.
  - apply Z.leb_gt. destruct Hb as (_ & _ & ? & _). lia.
Qed.

Lemma existsb_at bs vs (f : Bucket -> Verdict -> bool) :
  length vs = length bs ->
  existsb (fun i => f (bucket_at bs i) (verdict_at vs i)) (seq 0 (length bs)) = true <->
  exists b v, (b, v) ∈ zip bs vs /\ f b v = true.
Proof.
  intros Hl. rewrite existsb_exists. setoid_rewrite in_seq. split.
  - intros (i & Hi & Hf). exists (bucket_at bs i), (verdict_at vs i). split; [|done].
    apply (elem_of_zip bs vs Hl). exists i. split; [lia|done].
  - intros (b & v & Hin & Hf). apply (elem_of_zip bs vs Hl) in Hin as (i & Hi & [= -> ->]).
    exists i. split; [lia|done].
Qed.

Lemma spec_verdicts_zip c now bs lv b v :
  (b, v) ∈ zip bs (spec_verdicts c now bs lv) ->
  b ∈ bs /\ v = (if c && spec_admitted bs lv && judge_allowed b (lv (b_Key b))
                 then charged_verdict now b (lv (b_Key b)) else current_verdict now b (lv (b_Key b))).
Proof.
  intros Hin. apply list_elem_of_lookup in Hin as [i Hi]. apply lookup_zip_Some in Hi as [Hb Hv].
  unfold spec_verdicts in Hv. rewrite list_lookup_fmap, Hb in Hv. injection Hv as <-.
  split; [by eapply list_elem_of_lookup_2|done].
Qed.

Lemma spec_verdicts_zip_intro c now bs lv b :
  b ∈ bs ->
  (b, if c && spec_admitted bs lv && judge_allowed b (lv (b_Key b))
      then charged_verdict now b (lv (b_Key b)) else current_verdict now b (lv (b_Key b)))
    ∈ zip bs (spec_verdicts c now bs lv).
Proof.
  intros [i Hi]%list_elem_of_lookup. apply list_elem_of_lookup. exists i. apply lookup_zip_Some.
  split; [done|]. unfold spec_verdicts. by rewrite list_lookup_fmap, Hi.
Qed.

Lemma spec_admitted_true bs lv :
  spec_admitted bs lv = true <->
  forall b, b ∈ bs -> b_Shadow b = false -> judge_allowed b (lv (b_Key b)) = true.
Proof.
  unfold spec_admitted. rewrite forallb_forall. setoid_rewrite <- list_elem_of_In. split.
  - intros H b Hb Hs. specialize (H b Hb). rewrite Hs in H. done.
  - intros H b Hb. destruct (b_Shadow b) eqn:E; [done|]. by rewrite (H b Hb E).
Qed.

(** ** The headers of a refusal *)

Section refusal.
Context (cap : Z) (kind : string -> Kind) (now : Z) (bs : list Bucket) (lv : string -> Z).
Context (Hnd : NoDup (b_Key <$> bs)) (Hok : Forall (bucket_ok cap kind) bs).
Context (Hlv : forall k, 0 <= lv k) (Href : spec_admitted bs lv = false).

Lemma refusing_bucket : exists b, b ∈ bs /\ b_Shadow b = false /\ judge_allowed b (lv (b_Key b)) = false.
Proof.
  destruct (decide (Exists (fun b => b_Shadow b = false /\ judge_allowed b (lv (b_Key b)) = false) bs))
    as [He|Hn]; [by apply Exists_exists in He|].
  exfalso. assert (spec_admitted bs lv = true); [|congruence]. apply spec_admitted_true. intros b Hb Hs.
  destruct (judge_allowed b (lv (b_Key b))) eqn:E; [done|]. destruct Hn. apply Exists_exists. eauto.
Qed.

(** What the aggregation of a refusal reports. *)
Lemma aggregate_refused matched c :
  exists h ex, aggregate matched bs (spec_verdicts c now bs lv) false = (Some h, ex) /\
    (ex = true <-> exists b, b ∈ bs /\ b_Shadow b = false /\ judge_exceeds b = true) /\
    (ex = true -> hd_RetryAfter h = -1) /\
    (ex = false -> exists b, b ∈ bs /\ b_Shadow b = false /\ judge_allowed b (lv (b_Key b)) = false /\
       judge_exceeds b = false /\ hd_RetryAfter h = wait now b (lv (b_Key b)) * Microsecond /\
       forall b', b' ∈ bs -> b_Shadow b' = false -> judge_allowed b' (lv (b_Key b')) = false ->
         wait now b' (lv (b_Key b')) <= wait now b (lv (b_Key b))).
Proof.
  set (vs := spec_verdicts c now bs lv). unfold aggregate. cbn [negb andb].
  assert (length vs = length bs) as Hlen by apply spec_verdicts_length.
  assert (forall b v, (b, v) ∈ zip bs vs -> b ∈ bs /\ v = current_verdict now b (lv (b_Key b))) as Hz.
  { intros b v [Hb ->]%spec_verdicts_zip. split; [done|]. rewrite Href, andb_false_r. done. }
  set (ex := existsb _ _).
  assert (ex = true <-> exists b, b ∈ bs /\ b_Shadow b = false /\ judge_exceeds b = true) as Hex.
  { subst ex. rewrite (existsb_at bs vs (fun b v => negb (b_Shadow b) && v_CostExceedsCapacity v) Hlen).
    split.
    - intros (b & v & Hin & Hf). apply Hz in Hin as [Hb ->]. bools. exists b.
      destruct (b_Shadow b); simpl in *; [|by split_and!]. naive_solver.
    - intros (b & Hb & Hs & Hx). exists b, (current_verdict now b (lv (b_Key b))). split.
      + pose proof (spec_verdicts_zip_intro c now bs lv b Hb) as Hin.
        by rewrite Href, andb_false_r in Hin.
      + simpl. by rewrite Hs, Hx. }
  pose proof (strictest_whole bs vs false true Hlen Hnd ltac:(done)) as Hst.
  destruct (strictestIndex bs vs 0 (length bs) false true) as [best|].
  2:{ exfalso. destruct refusing_bucket as (b & Hb & Hs & Hj).
      specialize (Hst _ (spec_verdicts_zip_intro c now bs lv b Hb)).
      unfold considered in Hst. rewrite Href, andb_false_r in Hst. simpl in Hst.
      by rewrite Hs, Hj in Hst. }
  destruct Hst as [_ (Hin & Hcon & Hall)]. unfold at_ in *.
  destruct (Hz _ _ Hin) as [Hb Hv]. set (b := bucket_at bs best) in *.
  do 2 eexists. split; [done|]. split; [done|]. cbn [hd_RetryAfter]. split.
  { by intros ->. }
  intros He. rewrite He. unfold considered in Hcon. cbn [fst snd] in Hcon. rewrite Hv in Hcon |- *.
  cbn [v_Allowed v_RetryAfter current_verdict andb orb] in *.
  apply andb_true_iff in Hcon as [Hs%negb_true_iff Hj%negb_true_iff].
  assert (forall b', b' ∈ bs -> b_Shadow b' = false -> judge_exceeds b' = false) as Hnx.
  { intros b' Hb' Hs'. destruct (judge_exceeds b') eqn:E; [|done].
    assert (ex = true) by (apply Hex; eauto). congruence. }
  exists b. rewrite Hj, (Hnx b Hb Hs). cbn [orb]. split_and!; try done.
  intros b' Hb' Hs' Hj'. destruct (decide (b_Key b' = b_Key b)) as [Hk|Hk].
  { assert (b' = b) as ->; [|done].
    pose proof (find_key_NoDup bs b Hnd Hb) as F1. pose proof (find_key_NoDup bs b' Hnd Hb') as F2.
    rewrite Hk in F2. congruence. }
  pose proof (spec_verdicts_zip_intro c now bs lv b' Hb') as Hin'.
  rewrite Href, andb_false_r in Hin'. cbn [andb] in Hin'.
  specialize (Hall _ Hin'). unfold considered in Hall. cbn [fst snd v_Allowed current_verdict] in Hall.
  rewrite Hs', Hj' in Hall. specialize (Hall eq_refl Hk). unfold binds in Hall. rewrite Hv in Hall.
  cbn [v_CostExceedsCapacity v_RetryAfter current_verdict] in Hall.
  rewrite Hj, Hj', (Hnx b Hb Hs), (Hnx b' Hb' Hs') in Hall. cbn [orb] in Hall. unfold Microsecond in Hall.
  destruct Hall as [[? _]|[_ [[_ ?]|[[?|?] _]]]]; try done; lia.
Qed.

(** Left alone, the refused buckets are admitted together once the longest of
    their waits has passed. *)
Lemma admitted_after d :
  0 <= d -> (forall b, b ∈ bs -> b_Shadow b = false -> judge_exceeds b = false) ->
  spec_admitted bs (fun k => decay (kind k) now (now + d) (lv k)) = true <->
  forall b, b ∈ bs -> b_Shadow b = false -> judge_allowed b (lv (b_Key b)) = false ->
    wait now b (lv (b_Key b)) <= d.
Proof.
  intros Hd Hx. rewrite spec_admitted_true. rewrite Forall_forall in Hok.
  split; intros H b Hb Hs.
  - intros Hj. apply (wait_exact cap kind now b _ d (Hok b Hb) (Hlv _) Hd Hj (Hx b Hb Hs)). by apply H.
  - destruct (judge_allowed b (lv (b_Key b))) eqn:Hj.
    + eapply judge_allowed_mono; [by apply Hok| |done]. apply decay_le; [lia|apply Hlv].
    + apply (wait_exact cap kind now b _ d (Hok b Hb) (Hlv _) Hd Hj (Hx b Hb Hs)). by apply H.
Qed.

End refusal.

(** ** One decision *)

Lemma forallb_ext_in {A} (f g : A -> bool) l : (forall x, x ∈ l -> f x = g x) -> forallb f l = forallb g l.
Proof.
  induction l as [|x l IH]; intros Hfg; [done|]. simpl. rewrite Hfg by left. f_equal. apply IH.
  intros. apply Hfg. by right.
Qed.

Section decision.
Context `{Platform} {S : Type} {cap : Z} {CS : CounterStore cap key_kind S}.
Context (ns : string) (snap : Snapshot) (seen : gset string).
Context (Hsnap : snapshot_ok cap ns snap) (Hinj : hash_injective seen).

Lemma extractKeys_pure req ec :
  ec_ok (s_Extraction snap) seen ec -> rq_Token req ∈ seen ->
  (extractKeys snap req ec).2.1 = request_keys snap req /\
  ec_ok (s_Extraction snap) seen (extractKeys snap req ec).1.
Proof.
  intros Hec Hseen. unfold extractKeys, request_keys.
  assert ((cachedExtract (s_Extraction snap) (rq_Token req) ec).2 = Extract (s_Extraction snap) (rq_Token req) /\
    ec_ok (s_Extraction snap) seen (cachedExtract (s_Extraction snap) (rq_Token req) ec).1) as [H2 H1].
  { destruct ec as [[c|] stats]; [|done].
    destruct (cachedExtract_ok (s_Extraction snap) seen Hinj c stats (rq_Token req) Hec Hseen)
      as (? & c' & E & ?). split; [done|]. unfold ec_ok. by rewrite E. }
  destruct (cachedExtract _ _ _) as [ec' [extracted skips]]. cbn [fst snd] in *. subst.
  rewrite <- H2. cbn [fst]. destruct (length (rq_Keys req) =? 0)%nat; [done|].
  by destruct (Explicit _ _).
Qed.

Lemma request_buckets_ok req :
  0 <= rq_Cost req <= max_i64 ->
  NoDup (b_Key <$> request_buckets snap req) /\ GuardBuckets (request_buckets snap req) = Ok tt /\
  Forall (bucket_ok cap key_kind) (request_buckets snap req) /\
  Z.of_nat (length (request_buckets snap req)) <= MaxDecisionBuckets.
Proof.
  intros Hc. assert (1 <= request_cost req <= max_i64) as Hrc.
  { unfold request_cost. destruct (Z.eqb_spec (rq_Cost req) 0); [unfold max_i64; lia|lia]. }
  split_and!.
  - by apply (evaluate_NoDup cap ns).
  - by apply (evaluate_guard cap ns).
  - by apply (evaluate_bucket_ok cap ns).
  - pose proof (evaluate_budget snap (rq_Path req) (rq_Method req) (request_keys snap req) (request_cost req)).
    destruct Hsnap as (_ & _ & Hb & Hm). unfold MaxDecisionBuckets, request_buckets, request_matched. lia.
Qed.

(** The pipeline on the request's buckets: [commit] tells [Decide] from
    [Peek]. *)
Lemma evaluate_pipeline (commit : bool) judge now req es :
  0 <= rq_Cost req <= max_i64 -> time_ok now ->
  ec_ok (s_Extraction snap) seen (es_cache es) -> rq_Token req ∈ seen ->
  (forall bs, GuardBuckets bs = Ok tt -> Forall (bucket_ok cap key_kind) bs ->
     (judge bs (es_store es)).2 = Ok (spec_verdicts commit now bs (store_level now (es_store es)))) ->
  let bs := request_buckets snap req in
  let lv := store_level now (es_store es) in
  exists d, evaluate snap judge req es =
      (mkES (if Empty (Match snap (rq_Path req) (rq_Method req)) then es_cache es
             else (extractKeys snap req (es_cache es)).1)
            (if (length bs =? 0)%nat then es_store es else (judge bs (es_store es)).1), Some (Ok d)) /\
    d_Allowed d = spec_admitted bs lv /\
    d_Targeted d = negb (Empty (Match snap (rq_Path req) (rq_Method req))) /\
    (bs <> [] ->
       aggregate (request_matched snap req) bs (spec_verdicts commit now bs lv) (d_Allowed d) = (d_Headers d, d_CostExceedsCapacity d) /\
       d_Rules d = ruleOutcomes (request_matched snap req) bs (spec_verdicts commit now bs lv)) /\
    (bs = [] -> d_Headers d = None /\ d_CostExceedsCapacity d = false /\ d_Rules d = []).
Proof.
  intros Hc Ht Hec Hseen Hj bs lv. unfold evaluate. fold (request_cost req).
  destruct (Empty (Match snap (rq_Path req) (rq_Method req))) eqn:He.
  { assert (bs = []) as ->.
    { subst bs. unfold request_buckets, request_matched, Evaluate. unfold Empty in He. apply Nat.eqb_eq in He.
      by destruct (ca_hits _). }
    eexists. split; [by destruct es|]. by split_and!. }
  destruct (extractKeys_pure req (es_cache es) Hec Hseen) as [Hk _].
  destruct (extractKeys snap req (es_cache es)) as [ec [keys skips]]. cbn [fst snd] in *. subst keys.
  fold (request_matched snap req). fold (request_buckets snap req). fold bs.
  destruct (request_buckets_ok req Hc) as (_ & Hg & Hb & Hmax). fold bs in Hg, Hb, Hmax.
  destruct (Nat.eqb_spec (length bs) 0) as [Hz|Hz].
  { apply nil_length_inv in Hz. rewrite Hz in *. eexists. split; [done|]. by split_and!. }
  rewrite Z.gtb_ltb, (proj2 (Z.ltb_ge _ _)) by lia.
  specialize (Hj bs Hg Hb). destruct (judge bs (es_store es)) as [s r]. cbn [fst snd] in *. subst r.
  rewrite spec_verdicts_admitted. fold lv.
  destruct (aggregate _ bs _ _) as [headers exceeds] eqn:Eagg.
  eexists. split; [done|]. cbn [d_Allowed d_Targeted d_Headers d_CostExceedsCapacity d_Rules]. split_and!; try done.
  intros Hn. by rewrite Hn in Hz.
Qed.

Lemma decide_pipeline now req es :
  0 <= rq_Cost req <= max_i64 -> time_ok now -> store_inv now (es_store es) ->
  ec_ok (s_Extraction snap) seen (es_cache es) -> rq_Token req ∈ seen ->
  let bs := request_buckets snap req in
  let lv := store_level now (es_store es) in
  exists d es', Decide_engine snap now req es = (es', Some (Ok d)) /\
    d_Allowed d = spec_admitted bs lv /\
    d_Targeted d = negb (Empty (Match snap (rq_Path req) (rq_Method req))) /\
    (forall k, store_level now (es_store es') k = spec_levels bs lv k) /\
    store_inv now (es_store es') /\ ec_ok (s_Extraction snap) seen (es_cache es') /\
    (bs <> [] ->
       aggregate (request_matched snap req) bs (spec_verdicts true now bs lv) (d_Allowed d) = (d_Headers d, d_CostExceedsCapacity d) /\
       d_Rules d = ruleOutcomes (request_matched snap req) bs (spec_verdicts true now bs lv)) /\
    (bs = [] -> d_Headers d = None /\ d_CostExceedsCapacity d = false /\ d_Rules d = []).
Proof.
  intros Hc Ht Hi Hec Hseen bs lv.
  destruct (request_buckets_ok req Hc) as (_ & Hg & Hb & _). fold bs in Hg, Hb.
  destruct (evaluate_pipeline true (store_decide now) now req es Hc Ht Hec Hseen) as (d & He & Ha & Hta & Hm & Hn).
  { intros bs' Hg' Hb'. pose proof (decide_law now bs' (es_store es) Hi Ht Hg' Hb') as Hl.
    destruct (store_decide now bs' (es_store es)). by destruct Hl as (-> & _). }
  fold bs lv in He, Ha, Hm, Hn. eexists d, _. split; [exact He|]. cbn [es_store es_cache].
  pose proof (decide_law now bs (es_store es) Hi Ht Hg Hb) as Hl.
  assert (ec_ok (s_Extraction snap) seen (if Empty (Match snap (rq_Path req) (rq_Method req)) then es_cache es
             else (extractKeys snap req (es_cache es)).1)) as Hec'
    by (destruct (Empty _); [done|by apply extractKeys_pure]).
  destruct (Nat.eqb_spec (length bs) 0) as [Hz|Hz].
  - apply nil_length_inv in Hz. split_and!; try done. intros k. by rewrite Hz.
  - destruct (store_decide now bs (es_store es)) as [s r]. destruct Hl as (_ & Hl & Hi'). by split_and!.
Qed.

Lemma refusal_retry now dt req es es1 dec :
  0 <= rq_Cost req <= max_i64 -> time_ok now -> store_inv now (es_store es) ->
  ec_ok (s_Extraction snap) seen (es_cache es) -> rq_Token req ∈ seen ->
  Decide_engine snap now req es = (es1, Some (Ok dec)) ->
  d_Allowed dec = false -> d_CostExceedsCapacity dec = false -> 0 <= dt -> time_ok (now + dt) ->
  exists h es2 dec2, d_Headers dec = Some h /\
    Decide_engine snap (now + dt) req es1 = (es2, Some (Ok dec2)) /\
    (d_Allowed dec2 = true <-> hd_RetryAfter h <= dt * Microsecond) /\
    exists b, b ∈ request_buckets snap req /\ judge_exceeds b = false /\
      judge_allowed b (store_level now (es_store es) (b_Key b)) = false /\
      hd_RetryAfter h = wait now b (store_level now (es_store es) (b_Key b)) * Microsecond.
Proof.
  intros Hcost Ht Hi Hec Hseen Hdec Hf Hx Hdt Htd.
  destruct (decide_pipeline now req es Hcost Ht Hi Hec Hseen)
    as (dec' & es1' & H1 & H2 & _ & Hl & Hi1 & Hec1 & Hm & Hn).
  rewrite Hdec in H1. injection H1 as <- <-.
  set (bs := request_buckets snap req) in *. set (lv := store_level now (es_store es)) in *.
  assert (bs <> []) as Hne by (intros E; by rewrite H2, E in Hf).
  destruct (Hm Hne) as [Hagg _]. rewrite Hf in Hagg, H2.
  destruct (request_buckets_ok req Hcost) as (Hnd & _ & Hbok & _). fold bs in Hnd, Hbok.
  assert (forall k, 0 <= lv k) as Hlv by (intros; by apply level_nonneg).
  destruct (aggregate_refused now bs lv Hnd (eq_sym H2) (request_matched snap req) true)
    as (h & ex & Ha & Hex & _ & Hw).
  rewrite Ha in Hagg. injection Hagg as Hh Hxx. rewrite Hx in Hxx. subst ex.
  destruct (Hw eq_refl) as (b & Hb & Hs & Hj & Hbx & Hr & Hmax).
  destruct (decide_pipeline (now + dt) req es1 Hcost Htd
    (inv_mono now (now + dt) _ Hi1 ltac:(lia)) Hec1 Hseen) as (dec2 & es2 & D1 & D2 & _).
  exists h, es2, dec2. split; [done|]. split; [done|]. split; [|by exists b]. rewrite D2. fold bs.
  assert (spec_admitted bs (store_level (now + dt) (es_store es1)) =
    spec_admitted bs (fun k => decay (key_kind k) now (now + dt) (lv k))) as ->.
  { unfold spec_admitted. apply forallb_ext_in. intros b' _. f_equal. f_equal.
    rewrite (level_decay now (now + dt)) by (done || lia). f_equal. rewrite Hl. unfold spec_levels.
    rewrite <- H2. by case_match. }
  rewrite (admitted_after cap key_kind now bs lv Hbok Hlv dt Hdt).
  - rewrite Hr. unfold Microsecond. split.
    + intros Hall. specialize (Hall b Hb Hs Hj). lia.
    + intros Hle b' Hb' Hs' Hj'. specialize (Hmax b' Hb' Hs' Hj'). lia.
  - intros b' Hb' Hs'. destruct (judge_exceeds b') eqn:E; [|done].
    exfalso. assert (false = true); [|done]. apply Hex. eauto.
Qed.

Lemma over_capacity_final now dt req es es1 dec :
  0 <= rq_Cost req <= max_i64 -> time_ok now -> store_inv now (es_store es) ->
  ec_ok (s_Extraction snap) seen (es_cache es) -> rq_Token req ∈ seen ->
  Decide_engine snap now req es = (es1, Some (Ok dec)) ->
  d_CostExceedsCapacity dec = true -> 0 <= dt -> time_ok (now + dt) ->
  d_Allowed dec = false /\ (exists h, d_Headers dec = Some h /\ hd_RetryAfter h = -1) /\
  exists es2 dec2, Decide_engine snap (now + dt) req es1 = (es2, Some (Ok dec2)) /\ d_Allowed dec2 = false.
Proof.
  intros Hcost Ht Hi Hec Hseen Hdec Hx Hdt Htd.
  destruct (decide_pipeline now req es Hcost Ht Hi Hec Hseen)
    as (dec' & es1' & H1 & H2 & _ & Hl & Hi1 & Hec1 & Hm & Hn).
  rewrite Hdec in H1. injection H1 as <- <-.
  set (bs := request_buckets snap req) in *. set (lv := store_level now (es_store es)) in *.
  assert (bs <> []) as Hne by (intros E; destruct (Hn E) as (_ & ? & _); congruence).
  destruct (Hm Hne) as [Hagg _].
  destruct (request_buckets_ok req Hcost) as (Hnd & _ & Hbok & _). fold bs in Hnd, Hbok.
  destruct (d_Allowed dec) eqn:Hf.
  { exfalso. unfold aggregate in Hagg. cbn [negb andb] in Hagg.
    destruct (strictestIndex _ _ _ _ _ _); injection Hagg as _ Hbad; congruence. }
  destruct (aggregate_refused now bs lv Hnd (eq_sym H2) (request_matched snap req) true)
    as (h & ex & Ha & Hex & Hre & _).
  rewrite Ha in Hagg. injection Hagg as Hh Hxx. rewrite Hx in Hxx. subst ex.
  split; [done|]. split; [exists h; by split; [|apply Hre]|].
  destruct (decide_pipeline (now + dt) req es1 Hcost Htd
    (inv_mono now (now + dt) _ Hi1 ltac:(lia)) Hec1 Hseen) as (dec2 & es2 & D1 & D2 & _).
  exists es2, dec2. split; [done|]. rewrite D2. fold bs.
  destruct (proj1 Hex eq_refl) as (b & Hb & Hs & Hbx).
  destruct (spec_admitted bs (store_level (now + dt) (es_store es1))) eqn:E; [|done].
  rewrite spec_admitted_true in E. specialize (E b Hb Hs). rewrite Forall_forall in Hbok.
  rewrite (exceeds_never_allowed cap key_kind) in E; [done|by apply Hbok| |done].
  apply level_nonneg. apply (inv_mono now); [done|lia].
Qed.

End decision.
