(* ===== verification/EngineClaims.v ===== *)
(** * The engine, end to end

    The claims about [Decide] and [Peek] of the engine over a compiled snapshot
    and any store of the counter contract, with the in-memory store as the
    witness, and about the numbers in the response headers. *)
From S2P Require Import Prelude GoStrings Algo Key StoreApi Memory Model Compile CompileFacts Match MatchFacts MatchKeys Identity IdentityFacts.
From S2P Require Import TokenCache Engine EngineFacts.

(** ** Rule outcomes *)

Lemma forallb_seq_shift (f : nat -> bool) i n m :
  forallb f (seq i (n + m)) = forallb f (seq i n) && forallb f (seq (i + n) m).
Proof. by rewrite seq_app, forallb_app. Qed.

Lemma orb_forallb {A} (c : bool) (f : A -> bool) l : c || forallb f l = forallb (fun x => c || f x) l.
Proof. induction l as [|x l IH]; simpl; [by rewrite orb_true_r|]. rewrite <- IH. by destruct c, (f x). Qed.

Lemma rule_outcome_fields bs vs m from to :
  ro_Shadow (rule_outcome bs vs m from to) = m_Shadow m /\
  ro_Allowed (rule_outcome bs vs m from to) = forallb (fun j => v_Allowed (verdict_at vs j)) (seq from (to - from)).
Proof. unfold rule_outcome. by destruct (strictestIndex _ _ _ _ _ _). Qed.

Lemma outcomes_loop_allowed pre matched bs vs :
  bs = pre ++ Buckets matched ->
  Forall (fun m => Forall (fun b => b_Shadow b = m_Shadow m) (m_Buckets m)) matched ->
  forallb (fun r => ro_Shadow r || ro_Allowed r) (outcomes_loop bs vs matched (length pre)) =
  forallb (fun j => b_Shadow (bucket_at bs j) || v_Allowed (verdict_at vs j))
    (seq (length pre) (length (Buckets matched))).
Proof.
  revert pre. induction matched as [|m matched IH]; intros pre Hbs Hsh; [done|].
  apply Forall_cons in Hsh as [Hm Hsh]. cbn [outcomes_loop forallb].
  rewrite Buckets_cons, length_app, forallb_seq_shift.
  destruct (rule_outcome_fields bs vs m (length pre) (length pre + length (m_Buckets m))) as [-> ->].
  rewrite <- length_app, (IH (pre ++ m_Buckets m)), length_app; [|by rewrite <- app_assoc|done].
  f_equal. rewrite orb_forallb. replace (length pre + length (m_Buckets m) - length pre)%nat
    with (length (m_Buckets m)) by lia.
  apply forallb_ext_in. intros j [Hj1 Hj2]%elem_of_seq. f_equal.
  unfold bucket_at. rewrite Hbs, Buckets_cons, lookup_app_r by lia.
  rewrite lookup_app_l by lia.
  destruct (lookup_lt_is_Some_2 (m_Buckets m) (j - length pre)) as [b Hb]; [lia|]. rewrite Hb. simpl.
  symmetry. eapply Forall_lookup_1 in Hm; done.
Qed.

Lemma evaluate_shadow c keys cost :
  Forall (fun m => Forall (fun b => b_Shadow b = m_Shadow m) (m_Buckets m)) (Evaluate c keys cost).
Proof.
  apply Forall_forall. intros m Hm. apply elem_of_concat_map in Hm as (h & _ & Hm).
  destruct (evalBlock_shape (h_block h) (hit_ctx (ca_method c) keys cost h)) as (rs & _ & _ & He).
  rewrite He in Hm. apply list_elem_of_In, in_map_iff in Hm as (r & <- & _).
  apply Forall_forall. intros b Hb. simpl in Hb.
  by apply list_elem_of_In, in_map_iff in Hb as (rate & <- & _).
Qed.

Lemma admitted_at bs vs :
  length vs = length bs ->
  admitted_loop bs vs =
  forallb (fun j => b_Shadow (bucket_at bs j) || v_Allowed (verdict_at vs j)) (seq 0 (length bs)).
Proof.
  intros Hl. rewrite admitted_loop_spec by done. apply Bool.eq_iff_eq_true. rewrite !forallb_forall.
  setoid_rewrite in_seq. setoid_rewrite <- list_elem_of_In. split.
  - intros Hall j Hj. apply (Hall (at_ bs vs j)). apply (elem_of_zip bs vs Hl). exists j. split; [lia|done].
  - intros Hall x (j & Hj & ->)%(elem_of_zip bs vs Hl). apply Hall. lia.
Qed.

(** A decision and a look at the same instant. *)
Lemma peek_pipeline `{Platform} {S : Type} {cap : Z} {CS : CounterStore cap key_kind S} ns snap seen now req (es : engine_state S) :
  snapshot_ok cap ns snap -> hash_injective seen ->
  0 <= rq_Cost req <= max_i64 -> time_ok now -> store_inv now (es_store es) ->
  ec_ok (s_Extraction snap) seen (es_cache es) -> rq_Token req ∈ seen ->
  let bs := request_buckets snap req in
  let lv := store_level now (es_store es) in
  exists dec dec' es1 es2,
    Decide_engine snap now req es = (es1, Some (Ok dec)) /\
    Peek_engine snap now req es = (es2, Some (Ok dec')) /\
    d_Allowed dec' = d_Allowed dec /\ d_Targeted dec' = d_Targeted dec /\
    (d_Allowed dec = false ->
       d_Headers dec' = d_Headers dec /\ d_Rules dec' = d_Rules dec /\
       d_CostExceedsCapacity dec' = d_CostExceedsCapacity dec) /\
    (forall k, store_level now (es_store es2) k = lv k) /\
    d_Allowed dec' = spec_admitted bs lv /\
    (bs <> [] ->
       aggregate (request_matched snap req) bs (spec_verdicts false now bs lv) (d_Allowed dec') =
         (d_Headers dec', d_CostExceedsCapacity dec') /\
       d_Rules dec' = ruleOutcomes (request_matched snap req) bs (spec_verdicts false now bs lv)) /\
    (bs = [] -> d_Headers dec' = None /\ d_CostExceedsCapacity dec' = false /\ d_Rules dec' = []).
Proof.
  intros Hok Hinj Hcost Ht Hi Hec Hseen bs lv.
  destruct (decide_pipeline ns snap seen Hok Hinj now req es Hcost Ht Hi Hec Hseen)
    as (dec & es1 & H1 & H2 & H3 & _ & _ & _ & Hm & Hn).
  destruct (evaluate_pipeline ns snap seen Hok Hinj false (store_peek now) now req es Hcost Ht Hec Hseen)
    as (dec' & P1 & P2 & P3 & Pm & Pn).
  { intros bs' Hg Hb. pose proof (peek_law now bs' (es_store es) Hi Ht Hg Hb) as Hl.
    destruct (store_peek now bs' (es_store es)). by destruct Hl as (-> & _). }
  eexists dec, dec', es1, _. split; [exact H1|]. split; [exact P1|].
  split; [by rewrite H2, P2|]. split; [by rewrite H3, P3|]. split; [|split; [|by split_and!]].
  - intros Hf. destruct (decide (request_buckets snap req = [])) as [He|He].
    { destruct (Hn He) as (-> & -> & ->), (Pn He) as (-> & -> & ->). done. }
    destruct (Hm He) as [Ha ->], (Pm He) as [Pa ->]. rewrite Hf in Ha. rewrite P2, <- H2, Hf in Pa.
    rewrite Hf in H2.
    assert (spec_verdicts true now (request_buckets snap req) (store_level now (es_store es)) =
            spec_verdicts false now (request_buckets snap req) (store_level now (es_store es))) as Hv.
    { unfold spec_verdicts. by rewrite <- H2. }
    rewrite Hv in *. rewrite Ha in Pa. by injection Pa as -> ->.
  - intros k. cbn [es_store]. destruct (Nat.eqb_spec (length (request_buckets snap req)) 0); [done|].
    destruct (request_buckets_ok ns snap Hok req Hcost) as (_ & Hg & Hb & _).
    pose proof (peek_law now _ (es_store es) Hi Ht Hg Hb) as Hl.
    destruct (store_peek now _ (es_store es)). by destruct Hl as (_ & Hl & _).
Qed.

(** The rules of a look or a decision against its verdict. *)
Lemma rules_agree `{Platform} commit snap req now lv :
  spec_admitted (request_buckets snap req) lv =
    forallb (fun r => ro_Shadow r || ro_Allowed r)
      (ruleOutcomes (request_matched snap req) (request_buckets snap req) (spec_verdicts commit now (request_buckets snap req) lv)).
Proof.
  pose proof (spec_verdicts_admitted commit now (request_buckets snap req) lv) as Ha.
  unfold StoreAdmitted in Ha. rewrite spec_verdicts_length, Nat.eqb_refl in Ha. injection Ha as Ha.
  rewrite <- Ha, admitted_at by apply spec_verdicts_length.
  symmetry. apply (outcomes_loop_allowed []); [done|apply evaluate_shadow].
Qed.

(** ** Claims on decisions *)

(** C1: over a compiled snapshot and any store of the contract, a decision is
    always made: [Decide] neither errs nor panics, allows exactly when every
    enforcing bucket has room for its cost, charges every bucket that has when
    it allows and none when it refuses, and keeps the store and the cache
    valid. *)
Theorem engine_decision_total `{Platform} {S : Type} {cap : Z} {CS : CounterStore cap key_kind S}
    (ns d : string) (p : Policy) (snap : Snapshot) (ps : list Problem) (seen : gset string)
    (now : Z) (req : Request) (es : engine_state S) :
  policy_within cap p -> Compile ns d (Some p) = Some (snap, ps) -> hash_injective seen ->
  0 <= rq_Cost req <= max_i64 -> time_ok now -> store_inv now (es_store es) ->
  ec_ok (s_Extraction snap) seen (es_cache es) -> rq_Token req ∈ seen ->
  let bs := request_buckets snap req in
  let lv := store_level now (es_store es) in
  exists dec es', Decide_engine snap now req es = (es', Some (Ok dec)) /\
    d_Allowed dec = spec_admitted bs lv /\
    (forall k, store_level now (es_store es') k = spec_levels bs lv k) /\
    store_inv now (es_store es') /\ ec_ok (s_Extraction snap) seen (es_cache es').
Proof.
  intros Hp Hc Hinj Hcost Ht Hi Hec Hseen bs lv.
  assert (snapshot_ok cap ns snap) as Hok by (eapply compile_snapshot_ok; [|done]; by intros ? [= <-]).
  destruct (decide_pipeline ns snap seen Hok Hinj now req es Hcost Ht Hi Hec Hseen)
    as (dec & es' & H1 & H2 & _ & H3 & H4 & H5 & _). by exists dec, es'.
Qed.

(** The rules of a decision agree with its verdict: it allows exactly when
    every matched rule that is not a shadow allows. *)
Theorem engine_rules_agree `{Platform} {S : Type} {cap : Z} {CS : CounterStore cap key_kind S}
    (ns d : string) (p : Policy) (snap : Snapshot) (ps : list Problem) (seen : gset string)
    (now : Z) (req : Request) (es es' : engine_state S) (dec : Decision) :
  policy_within cap p -> Compile ns d (Some p) = Some (snap, ps) -> hash_injective seen ->
  0 <= rq_Cost req <= max_i64 -> time_ok now -> store_inv now (es_store es) ->
  ec_ok (s_Extraction snap) seen (es_cache es) -> rq_Token req ∈ seen ->
  Decide_engine snap now req es = (es', Some (Ok dec)) ->
  d_Allowed dec = forallb (fun r => ro_Shadow r || ro_Allowed r) (d_Rules dec).
Proof.
  intros Hp Hc Hinj Hcost Ht Hi Hec Hseen Hdec.
  assert (snapshot_ok cap ns snap) as Hok by (eapply compile_snapshot_ok; [|done]; by intros ? [= <-]).
  destruct (decide_pipeline ns snap seen Hok Hinj now req es Hcost Ht Hi Hec Hseen)
    as (dec' & es2 & H1 & H2 & _ & _ & _ & _ & Hm & Hn). rewrite Hdec in H1. injection H1 as <- <-.
  destruct (decide (request_buckets snap req = [])) as [He|He].
  { destruct (Hn He) as (_ & _ & ->). by rewrite H2, He. }
  destruct (Hm He) as [_ ->]. rewrite H2. apply rules_agree.
Qed.

(** [Peek] answers what [Decide] would: the same verdict, and the whole same
    decision when the request is refused, while no counter moves. *)
Theorem engine_peek_agrees `{Platform} {S : Type} {cap : Z} {CS : CounterStore cap key_kind S}
    (ns d : string) (p : Policy) (snap : Snapshot) (ps : list Problem) (seen : gset string)
    (now : Z) (req : Request) (es : engine_state S) :
  policy_within cap p -> Compile ns d (Some p) = Some (snap, ps) -> hash_injective seen ->
  0 <= rq_Cost req <= max_i64 -> time_ok now -> store_inv now (es_store es) ->
  ec_ok (s_Extraction snap) seen (es_cache es) -> rq_Token req ∈ seen ->
  exists dec dec' es1 es2,
    Decide_engine snap now req es = (es1, Some (Ok dec)) /\
    Peek_engine snap now req es = (es2, Some (Ok dec')) /\
    d_Allowed dec' = d_Allowed dec /\ d_Targeted dec' = d_Targeted dec /\
    (d_Allowed dec = false ->
       d_Headers dec' = d_Headers dec /\ d_Rules dec' = d_Rules dec /\
       d_CostExceedsCapacity dec' = d_CostExceedsCapacity dec) /\
    (forall k, store_level now (es_store es2) k = store_level now (es_store es) k).
Proof.
  intros Hp Hc Hinj Hcost Ht Hi Hec Hseen.
  assert (snapshot_ok cap ns snap) as Hok by (eapply compile_snapshot_ok; [|done]; by intros ? [= <-]).
  destruct (peek_pipeline ns snap seen now req es Hok Hinj Hcost Ht Hi Hec Hseen)
    as (dec & dec' & es1 & es2 & H1 & H2 & H3 & H4 & H5 & H6 & _). by exists dec, dec', es1, es2.
Qed.

(** C2: the retry hint of a refusal is exact for the whole request. When a
    decision refuses for a reason waiting cures, the header carries a retry
    time, and with no other traffic the same request is allowed at every
    instant from then on and at none before. *)
Theorem engine_retry_after_exact `{Platform} {S : Type} {cap : Z} {CS : CounterStore cap key_kind S}
    (ns d : string) (p : Policy) (snap : Snapshot) (ps : list Problem) (seen : gset string)
    (now dt : Z) (req : Request) (es es1 : engine_state S) (dec : Decision) :
  policy_within cap p -> Compile ns d (Some p) = Some (snap, ps) -> hash_injective seen ->
  0 <= rq_Cost req <= max_i64 -> time_ok now -> store_inv now (es_store es) ->
  ec_ok (s_Extraction snap) seen (es_cache es) -> rq_Token req ∈ seen ->
  Decide_engine snap now req es = (es1, Some (Ok dec)) ->
  d_Allowed dec = false -> d_CostExceedsCapacity dec = false -> 0 <= dt -> time_ok (now + dt) ->
  exists h es2 dec2, d_Headers dec = Some h /\
    Decide_engine snap (now + dt) req es1 = (es2, Some (Ok dec2)) /\
    (d_Allowed dec2 = true <-> hd_RetryAfter h <= dt * Microsecond).
Proof.
  intros Hp Hc Hinj Hcost Ht Hi Hec Hseen Hdec Hf Hx Hdt Htd.
  assert (snapshot_ok cap ns snap) as Hok by (eapply compile_snapshot_ok; [|done]; by intros ? [= <-]).
  destruct (refusal_retry ns snap seen Hok Hinj now dt req es es1 dec Hcost Ht Hi Hec Hseen Hdec Hf Hx Hdt Htd)
    as (h & es2 & dec2 & H1 & H2 & H3 & _). by exists h, es2, dec2.
Qed.

(** A refusal flagged as over capacity is final: the header carries no retry
    time, and the same request is refused at every later instant. *)
Theorem engine_over_capacity_final `{Platform} {S : Type} {cap : Z} {CS : CounterStore cap key_kind S}
    (ns d : string) (p : Policy) (snap : Snapshot) (ps : list Problem) (seen : gset string)
    (now dt : Z) (req : Request) (es es1 : engine_state S) (dec : Decision) :
  policy_within cap p -> Compile ns d (Some p) = Some (snap, ps) -> hash_injective seen ->
  0 <= rq_Cost req <= max_i64 -> time_ok now -> store_inv now (es_store es) ->
  ec_ok (s_Extraction snap) seen (es_cache es) -> rq_Token req ∈ seen ->
  Decide_engine snap now req es = (es1, Some (Ok dec)) ->
  d_CostExceedsCapacity dec = true -> 0 <= dt -> time_ok (now + dt) ->
  d_Allowed dec = false /\ (exists h, d_Headers dec = Some h /\ hd_RetryAfter h = -1) /\
  exists es2 dec2, Decide_engine snap (now + dt) req es1 = (es2, Some (Ok dec2)) /\ d_Allowed dec2 = false.
Proof.
  intros Hp Hc Hinj Hcost Ht Hi Hec Hseen Hdec Hx Hdt Htd.
  assert (snapshot_ok cap ns snap) as Hok by (eapply compile_snapshot_ok; [|done]; by intros ? [= <-]).
  by apply (over_capacity_final ns snap seen Hok Hinj now dt req es es1 dec).
Qed.

(** ** The effective window *)

Lemma capacity_gcra w : gcra_ok w -> bucketCapacity w = Burst w.
Proof. intros (_ & _ & Hb & _). unfold bucketCapacity. rewrite Z.gtb_ltb, (proj2 (Z.ltb_lt 0 _)) by lia. done. Qed.

Lemma capacity_fixed w : fixed_ok w -> bucketCapacity w = Requests w.
Proof. intros (_ & _ & Hb). unfold bucketCapacity. by rewrite Hb. Qed.

Lemma effective_gcra w r lvl :
  gcra_ok w -> 0 <= lvl <= 2 ^ 53 -> r = Z.max ((TauMicros w - lvl) / EmissionMicros w) 0 -> r < Burst w ->
  let x := lvl - TauMicros w + (r + 1) * EmissionMicros w in
  0 < x <= lvl /\ (r + 1) * EmissionMicros w <= TauMicros w /\
  ((lvl * Microsecond) /i Microsecond -i TauMicros w +i (r +i 1) *i EmissionMicros w) *i Microsecond = x * Microsecond.
Proof.
  intros Hw Hl Hr Hrb x.
  pose proof (gcra_ok_facts w Hw) as (_ & _ & Hem & _ & Htau & Hbu & Htm). unfold maxTauMicros in *.
  set (em := EmissionMicros w) in *. set (tau := TauMicros w) in *.
  pose proof (Z.div_mod (tau - lvl) em ltac:(lia)) as Hdm. pose proof (Z.mod_pos_bound (tau - lvl) em ltac:(lia)).
  assert ((r + 1) * em <= tau) as Hle by nia.
  assert (0 < x <= lvl) as Hx by (subst x; split; [nia|lia]).
  split; [done|]. split; [done|]. unfold Microsecond.
  rewrite div64_nonneg, Z.div_mul by lia. rewrite (sub64_exact lvl) by lia.
  rewrite (add64_exact r) by lia. rewrite (mul64_exact (r + 1)) by nia.
  rewrite add64_exact by lia. rewrite mul64_exact; [done|]. lia.
Qed.

(** The effective window of the headers is exact: left alone, the bucket
    admits one unit more than the reported remaining from that time on and not
    before; it is negative exactly when the bucket already holds its whole
    capacity. *)
Theorem effective_window_exact (cap : Z) (kind : string -> Kind) (now lvl d : Z) (b : Bucket) (v : Verdict) :
  bucket_ok cap kind b -> time_ok now -> 0 <= lvl <= 2 ^ 53 -> 0 <= d ->
  v_Remaining v = room b lvl -> v_ResetAfter v = drain now b lvl * Microsecond ->
  (effectiveWindow b v < 0 <-> room b lvl = bucketCapacity (b_Window b)) /\
  (room b lvl < room b (decay (kind (b_Key b)) now (now + d) lvl) <->
   0 <= effectiveWindow b v <= d * Microsecond).
Proof.
  intros Hb Ht Hl Hd Hrem Hres. unfold effectiveWindow. rewrite Hrem, Hres.
  pose proof (bucket_ok_period cap kind b Hb) as Hper.
  unfold room, drain, decay, b_period in *. rewrite Z.geb_leb.
  destruct (Z.eqb_spec (b_Algorithm b) GCRAID) as [Ha|Ha]; cbn [negb].
  - destruct (bucket_ok_gcra cap kind b Hb Ha) as [-> Hw]. rewrite (capacity_gcra _ Hw).
    pose proof (gcra_ok_facts _ Hw) as (_ & _ & Hem & _ & Htau & Hbu & _).
    pose proof (effective_gcra (b_Window b) _ lvl Hw Hl eq_refl) as Hx.
    set (em := EmissionMicros (b_Window b)) in *. set (tau := TauMicros (b_Window b)) in *.
    set (r := Z.max ((tau - lvl) / em) 0) in *. set (bu := Burst (b_Window b)) in *.
    assert (forall l, 0 <= l -> Z.max ((tau - l) / em) 0 <= bu) as Hcap.
    { intros l H0. rewrite Htau. apply Z.max_lub; [|lia]. apply Z.div_le_upper_bound; lia. }
    pose proof (Hcap lvl ltac:(lia)) as Hrb. fold r in Hrb.
    pose proof (Hcap (Z.max (lvl - (now + d - now)) 0) ltac:(lia)).
    destruct (Z.leb_spec bu r) as [Hfull|Hfull]; [lia|].
    destruct (Hx Hfull) as (Hx1 & Hx2 & ->). unfold Microsecond. split; [lia|].
    rewrite <- Z.le_succ_l, Z.max_le_iff, div_le_iff by lia.
    replace (Z.succ r) with (r + 1) by lia. split; [intros [?|?]; lia|]. intros. left. lia.
  - destruct (bucket_ok_fixed cap kind b Hb Ha) as (_ & -> & Hw & _). rewrite (capacity_fixed _ Hw), Hper.
    pose proof (fixed_ok_facts _ Hw) as [Hpm Hp]. rewrite Hpm in Hp.
    set (p := Period (b_Window b) / Microsecond) in *. set (rq := Requests (b_Window b)) in *.
    assert (1 <= rq) by (by destruct Hw as (_ & ? & _)).
    pose proof (window_start_bounds p now ltac:(lia)). unfold Microsecond.
    rewrite (same_window p now (now + d) (window_start p now)) by (lia || by apply window_start_mod; lia).
    destruct (Z.leb_spec rq (Z.max (rq - lvl) 0)) as [Hfull|Hfull].
    + case_bool_decide; lia.
    + destruct (Z.eqb_spec lvl 0); [lia|]. case_bool_decide; lia.
Qed.

(** ** The range of the comparison *)

(** Two windows the compiler accepts: one of the [int64] range, one of ten. *)
Definition wide_policy : Policy :=
  mkPolicy "d" [] []
    [mkMBlock "b"
       [mkMRoute (mkPathMatch PathPrefix "/") [] (Some (mkRouteCost CostQueryParameter "n" 0))] ""
       [mkMRule "narrow" [] [] [mkMRate 10 Second 0 "FixedWindow"] "" [];
        mkMRule "wide" [] [] [mkMRate (2 ^ 62 + 4) Second 0 "FixedWindow"] "" []]].

Definition wide_snapshot : Snapshot :=
  match Compile "ns" "d" (Some wide_policy) with Some (s, _) => s | None => mkSnapshot "" [] [] [] 0 end.

Definition wide_decision : option (result EngineError Decision) :=
  (Decide_engine (H := demo_platform) (CS := memory_store key_kind) wide_snapshot 0
     (mkRequest "/x?n=4" "GET" "" [] 0) (mkES (mkEC None None) New)).2.

(** The comparison of [stricter] needs the capacity below 2^31 its comment
    states, and the compiler does not ensure it: it accepts a window of 2^62+4
    requests without a problem, and then a request of cost 4 that leaves 6 units
    of a narrow window and 2^62 of the wide one reports the headers of the wide
    one, because 2^62 * 4 wraps to 0. *)
Theorem headers_need_bounded_capacity :
  Compile "ns" "d" (Some wide_policy) = Some (wide_snapshot, []) /\
  exists dec h, wide_decision = Some (Ok dec) /\ d_Headers dec = Some h /\ d_Allowed dec = true /\
    hd_Rule h = "wide" /\ hd_Remaining h = 2 ^ 62 /\
    map (fun r => (ro_Rule r, ro_Remaining r)) (d_Rules dec) = [("narrow", 6); ("wide", 2 ^ 62)].
Proof.
  split; [vm_compute; reflexivity|].
  eexists _, _. split; [vm_compute; reflexivity|]. split; [vm_compute; reflexivity|].
  vm_compute. split_and!; reflexivity.
Qed.

(** ** Witnesses: the demo policy over the in-memory store *)

Definition demo_seen_tokens : gset string := {[""]}.
Definition demo_req (path : string) : Request := mkRequest path "GET" "" [("sub", ["Alice"])] 0.
Definition demo_es0 : engine_state (gmap string entry) := mkES (mkEC None None) New.
Definition demo_run (now : Z) (path : string) (es : engine_state (gmap string entry)) :=
  Decide_engine (H := demo_platform) (CS := memory_store key_kind) demo_snapshot now (demo_req path) es.

(** The state after a request of cost 2 emptied the bucket of the client. *)
Definition demo_es1 : engine_state (gmap string entry) := (demo_run 0 "/orders/42?limit=2" demo_es0).1.

Lemma demo_compiles : Compile "ns" "gateway.public" (Some demo_policy) = Some (demo_snapshot, []).
Proof. vm_compute. reflexivity. Qed.
Lemma demo_policy_i64 : policy_within max_i64 demo_policy.
Proof. repeat constructor; vm_compute; discriminate. Qed.
Lemma demo_injective : hash_injective (H := demo_platform) demo_seen_tokens.
Proof. intros t1 t2 _ _ E. exact E. Qed.
Lemma demo_snapshot_ok : snapshot_ok max_i64 "ns" demo_snapshot.
Proof. eapply compile_snapshot_ok; [|apply demo_compiles]. intros ? [= <-]. apply demo_policy_i64. Qed.

Lemma demo_es1_ok :
  store_inv (CounterStore := memory_store key_kind) 0 (es_store demo_es1) /\
  ec_ok (H := demo_platform) (s_Extraction demo_snapshot) demo_seen_tokens (es_cache demo_es1).
Proof.
  destruct (decide_pipeline (H := demo_platform) (CS := memory_store key_kind) "ns" demo_snapshot
    demo_seen_tokens demo_snapshot_ok demo_injective 0 (demo_req "/orders/42?limit=2") demo_es0)
    as (d & es' & E & _ & _ & _ & Hi & Hec & _).
  - vm_compute. split; discriminate.
  - by_decide.
  - apply mem_inv_New.
  - exact I.
  - simpl. set_solver.
  - unfold demo_es1, demo_run. rewrite E. split; [exact Hi|exact Hec].
Qed.

Lemma engine_decision_total_witness :
  exists dec es', demo_run 0 "/orders/42?limit=2" demo_es0 = (es', Some (Ok dec)) /\
    d_Allowed dec = spec_admitted (request_buckets (H := demo_platform) demo_snapshot (demo_req "/orders/42?limit=2"))
      (store_level (CounterStore := memory_store key_kind) 0 New).
Proof.
  destruct (engine_decision_total (H := demo_platform) (CS := memory_store key_kind) "ns" "gateway.public"
    demo_policy demo_snapshot [] demo_seen_tokens 0 (demo_req "/orders/42?limit=2") demo_es0)
    as (dec & es' & H1 & H2 & _).
  - exact demo_policy_i64.
  - exact demo_compiles.
  - exact demo_injective.
  - vm_compute. split; discriminate.
  - by_decide.
  - apply mem_inv_New.
  - exact I.
  - simpl. set_solver.
  - exists dec, es'. split; [exact H1|exact H2].
Defined.

(** The decision on a path in that state. *)
Definition demo_dec (path : string) : Decision :=
  match (demo_run 0 path demo_es1).2 with
  | Some (Ok dec) => dec
  | _ => mkDecision true false None [] false [] []
  end.

Lemma demo_dec_eq path :
  is_Some (demo_run 0 path demo_es1).2 ->
  (forall e, (demo_run 0 path demo_es1).2 <> Some (Err e)) ->
  demo_run 0 path demo_es1 = ((demo_run 0 path demo_es1).1, Some (Ok (demo_dec path))).
Proof.
  intros [r Hr] He. rewrite (surjective_pairing (demo_run 0 path demo_es1)) at 1. f_equal.
  unfold demo_dec. rewrite Hr in *. destruct r as [dec|e]; [done|]. by destruct (He e).
Qed.

Lemma demo_refused_eq :
  demo_run 0 "/orders/42?limit=2" demo_es1 =
  ((demo_run 0 "/orders/42?limit=2" demo_es1).1, Some (Ok (demo_dec "/orders/42?limit=2"))) /\
  d_Allowed (demo_dec "/orders/42?limit=2") = false /\
  d_CostExceedsCapacity (demo_dec "/orders/42?limit=2") = false.
Proof.
  split; [apply demo_dec_eq; [vm_compute; by eexists|intros e; vm_compute; discriminate]|].
  vm_compute. split; reflexivity.
Qed.

Lemma demo_exceeds_eq :
  demo_run 0 "/orders/42?limit=5" demo_es1 =
  ((demo_run 0 "/orders/42?limit=5" demo_es1).1, Some (Ok (demo_dec "/orders/42?limit=5"))) /\
  d_CostExceedsCapacity (demo_dec "/orders/42?limit=5") = true.
Proof.
  split; [apply demo_dec_eq; [vm_compute; by eexists|intros e; vm_compute; discriminate]|].
  vm_compute. reflexivity.
Qed.

Lemma engine_rules_agree_witness :
  d_Allowed (demo_dec "/orders/42?limit=2") = false /\
  d_Allowed (demo_dec "/orders/42?limit=2") =
    forallb (fun r => ro_Shadow r || ro_Allowed r) (d_Rules (demo_dec "/orders/42?limit=2")).
Proof.
  split; [exact (proj1 (proj2 demo_refused_eq))|].
  apply (engine_rules_agree (H := demo_platform) (CS := memory_store key_kind) "ns" "gateway.public"
    demo_policy demo_snapshot [] demo_seen_tokens 0 (demo_req "/orders/42?limit=2") demo_es1
    (demo_run 0 "/orders/42?limit=2" demo_es1).1).
  - exact demo_policy_i64.
  - exact demo_compiles.
  - exact demo_injective.
  - vm_compute. split; discriminate.
  - by_decide.
  - exact (proj1 demo_es1_ok).
  - exact (proj2 demo_es1_ok).
  - simpl. set_solver.
  - exact (proj1 demo_refused_eq).
Defined.

Lemma engine_peek_agrees_witness :
  exists dec dec' es1 es2, demo_run 0 "/orders/42?limit=2" demo_es1 = (es1, Some (Ok dec)) /\
    Peek_engine (H := demo_platform) (CS := memory_store key_kind) demo_snapshot 0
      (demo_req "/orders/42?limit=2") demo_es1 = (es2, Some (Ok dec')) /\
    d_Allowed dec' = d_Allowed dec.
Proof.
  destruct (engine_peek_agrees (H := demo_platform) (CS := memory_store key_kind) "ns" "gateway.public"
    demo_policy demo_snapshot [] demo_seen_tokens 0 (demo_req "/orders/42?limit=2") demo_es1)
    as (dec & dec' & es1 & es2 & H1 & H2 & H3 & _).
  - exact demo_policy_i64.
  - exact demo_compiles.
  - exact demo_injective.
  - vm_compute. split; discriminate.
  - by_decide.
  - exact (proj1 demo_es1_ok).
  - exact (proj2 demo_es1_ok).
  - simpl. set_solver.
  - exists dec, dec', es1, es2. split; [exact H1|]. split; [exact H2|exact H3].
Defined.

(** The refused request is allowed after exactly the second its hint says. *)
Lemma engine_retry_after_exact_witness :
  exists h es2 dec2, d_Headers (demo_dec "/orders/42?limit=2") = Some h /\
    demo_run (0 + 1000000) "/orders/42?limit=2" (demo_run 0 "/orders/42?limit=2" demo_es1).1 = (es2, Some (Ok dec2)) /\
    (d_Allowed dec2 = true <-> hd_RetryAfter h <= 1000000 * Microsecond).
Proof.
  apply (engine_retry_after_exact (H := demo_platform) (CS := memory_store key_kind) "ns" "gateway.public"
    demo_policy demo_snapshot [] demo_seen_tokens 0 1000000 (demo_req "/orders/42?limit=2") demo_es1).
  - exact demo_policy_i64.
  - exact demo_compiles.
  - exact demo_injective.
  - vm_compute. split; discriminate.
  - by_decide.
  - exact (proj1 demo_es1_ok).
  - exact (proj2 demo_es1_ok).
  - simpl. set_solver.
  - exact (proj1 demo_refused_eq).
  - exact (proj1 (proj2 demo_refused_eq)).
  - exact (proj2 (proj2 demo_refused_eq)).
  - lia.
  - by_decide.
Defined.

Lemma engine_over_capacity_final_witness :
  d_Allowed (demo_dec "/orders/42?limit=5") = false.
Proof.
  apply (engine_over_capacity_final (H := demo_platform) (CS := memory_store key_kind) "ns" "gateway.public"
    demo_policy demo_snapshot [] demo_seen_tokens 0 1000000 (demo_req "/orders/42?limit=5") demo_es1
    (demo_run 0 "/orders/42?limit=5" demo_es1).1).
  - exact demo_policy_i64.
  - exact demo_compiles.
  - exact demo_injective.
  - vm_compute. split; discriminate.
  - by_decide.
  - exact (proj1 demo_es1_ok).
  - exact (proj2 demo_es1_ok).
  - simpl. set_solver.
  - exact (proj1 demo_exceeds_eq).
  - exact (proj2 demo_exceeds_eq).
  - lia.
  - by_decide.
Defined.

Lemma effective_window_exact_witness :
  effectiveWindow (mkBucket "k" GCRAID (mkWindow 2 Second 2) false 1) (mkVerdict true 1 false (-1) 500000000)
    = 500000000 /\
  (1 < room (mkBucket "k" GCRAID (mkWindow 2 Second 2) false 1)
         (decay (mkKind gcra Second) 0 (0 + 500000) 500000) <->
   0 <= effectiveWindow (mkBucket "k" GCRAID (mkWindow 2 Second 2) false 1) (mkVerdict true 1 false (-1) 500000000)
     <= 500000 * Microsecond).
Proof.
  split; [vm_compute; reflexivity|].
  apply (effective_window_exact max_i64 (fun _ => mkKind gcra Second) 0 500000 500000
    (mkBucket "k" GCRAID (mkWindow 2 Second 2) false 1) (mkVerdict true 1 false (-1) 500000000)).
  - by_decide.
  - by_decide.
  - lia.
  - lia.
  - vm_compute. reflexivity.
  - vm_compute. reflexivity.
Defined.
