(* ===== verification/Convert.v ===== *)
(** * api/v1 and internal/convert: the resource and its conversion

    The spec of a RateLimitPolicy as the API server stores it, with its 32-bit
    fields and optional pointers, and the conversion into the engine's model.
    Nil and empty slices are the same list here, as they are to every reader of
    the converted policy. *)
From S2P Require Import Prelude GoStrings Algo Model Compile CompileFacts RedisFacts.

(** ** Definitions *)

(** *** api/v1: the spec *)

Record V1PathMatch := mkV1PathMatch { v1pm_Type : string; v1pm_Value : string }.

Record V1RouteCost := mkV1RouteCost {
  v1rc_Source : string;
  v1rc_Name : string;
  v1rc_Default : option Z }.

Record V1Route := mkV1Route {
  v1rt_Path : V1PathMatch;
  v1rt_Methods : list string;
  v1rt_Cost : option V1RouteCost }.

Record V1Target := mkV1Target { v1t_Routes : list V1Route }.

Record V1Predicate := mkV1Predicate {
  v1p_Key : string;
  v1p_Operator : string;
  v1p_Value : string;
  v1p_Values : list string }.

Record V1Rate := mkV1Rate {
  v1ra_Requests : Z;
  v1ra_PeriodSeconds : Z;
  v1ra_Burst : option Z;
  v1ra_Algorithm : string }.

Record V1Rule := mkV1Rule {
  v1ru_Name : string;
  v1ru_Matches : list V1Predicate;
  v1ru_Counters : list string;
  v1ru_Rates : list V1Rate;
  v1ru_Behavior : string;
  v1ru_ReplacedRules : list string }.

Record LimitBlock := mkLimitBlock {
  lb_Name : string;
  lb_Target : option V1Target;
  lb_Mode : string;
  lb_Rules : list V1Rule }.

Record ClaimMapping := mkClaimMapping {
  cm_Key : string;
  cm_Claim : string;
  cm_ClaimPath : list string;
  cm_Type : string;
  cm_Normalization : string;
  cm_Fallbacks : list string }.

Record V1Group := mkV1Group { v1g_Name : string; v1g_Values : list string }.

Record RateLimitPolicySpec := mkSpec {
  sp_Domain : string;
  sp_Mappings : list ClaimMapping;
  sp_Groups : list V1Group;
  sp_Limits : list LimitBlock }.

#[export] Instance V1PathMatch_eq_dec : EqDecision V1PathMatch.
Proof. solve_decision. Defined.
#[export] Instance V1RouteCost_eq_dec : EqDecision V1RouteCost.
Proof. solve_decision. Defined.
#[export] Instance V1Route_eq_dec : EqDecision V1Route.
Proof. solve_decision. Defined.
#[export] Instance V1Target_eq_dec : EqDecision V1Target.
Proof. solve_decision. Defined.
#[export] Instance V1Predicate_eq_dec : EqDecision V1Predicate.
Proof. solve_decision. Defined.
#[export] Instance V1Rate_eq_dec : EqDecision V1Rate.
Proof. solve_decision. Defined.
#[export] Instance V1Rule_eq_dec : EqDecision V1Rule.
Proof. solve_decision. Defined.
#[export] Instance LimitBlock_eq_dec : EqDecision LimitBlock.
Proof. solve_decision. Defined.
#[export] Instance ClaimMapping_eq_dec : EqDecision ClaimMapping.
Proof. solve_decision. Defined.
#[export] Instance V1Group_eq_dec : EqDecision V1Group.
Proof. solve_decision. Defined.
#[export] Instance RateLimitPolicySpec_eq_dec : EqDecision RateLimitPolicySpec.
Proof. solve_decision. Defined.

(** *** internal/convert *)

Definition modelRoute (route : V1Route) : MRoute :=
  mkMRoute (mkPathMatch (v1pm_Type (v1rt_Path route)) (v1pm_Value (v1rt_Path route)))
    (v1rt_Methods route)
    (match v1rt_Cost route with
     | None => None
     | Some cost =>
         Some (mkRouteCost (v1rc_Source cost) (v1rc_Name cost)
                 (match v1rc_Default cost with Some d => d | None => 0 end))
     end).

Definition modelRoutes (routes : list V1Route) : list MRoute := map modelRoute routes.

Definition modelPredicate (p : V1Predicate) : MPredicate :=
  mkMPredicate (v1p_Key p) (v1p_Operator p) (v1p_Value p) (v1p_Values p).

Definition modelRate (rate : V1Rate) : MRate :=
  mkMRate (v1ra_Requests rate) (v1ra_PeriodSeconds rate *i Second)
    (match v1ra_Burst rate with Some b => b | None => 0 end) (v1ra_Algorithm rate).

Definition modelRule (rule : V1Rule) : MRule :=
  mkMRule (v1ru_Name rule) (map modelPredicate (v1ru_Matches rule)) (v1ru_Counters rule)
    (map modelRate (v1ru_Rates rule)) (v1ru_Behavior rule) (v1ru_ReplacedRules rule).

Definition modelMappings (mappings : list ClaimMapping) : list KeyMapping :=
  map (fun e => mkKeyMapping (cm_Key e) (cm_Claim e) (cm_ClaimPath e) (cm_Type e)
                  (cm_Normalization e) (cm_Fallbacks e)) mappings.

Definition modelGroups (groups : list V1Group) : list Group :=
  map (fun g => mkGroup (v1g_Name g) (v1g_Values g)) groups.

Definition modelBlock (block : LimitBlock) : MBlock :=
  mkMBlock (lb_Name block)
    (match lb_Target block with Some t => modelRoutes (v1t_Routes t) | None => [] end)
    (lb_Mode block) (map modelRule (lb_Rules block)).

(** [Policy] on a spec; the nil pointer, which no caller passes, is left out. *)
Definition convert_Policy (spec : RateLimitPolicySpec) : Policy :=
  mkPolicy (sp_Domain spec) (modelMappings (sp_Mappings spec)) (modelGroups (sp_Groups spec))
    (map modelBlock (sp_Limits spec)).

(** *** What the fields' types allow *)

Definition is_i32 (z : Z) : Prop := - 2 ^ 31 <= z < 2 ^ 31.

Definition rate_i32 (r : V1Rate) : Prop :=
  is_i32 (v1ra_Requests r) /\ is_i32 (v1ra_PeriodSeconds r) /\ is_i32 (default 0 (v1ra_Burst r)).

Definition spec_i32 (spec : RateLimitPolicySpec) : Prop :=
  Forall (fun b => Forall (fun r => Forall rate_i32 (v1ru_Rates r)) (lb_Rules b)) (sp_Limits spec).

#[export] Instance is_i32_dec z : Decision (is_i32 z).
Proof. unfold is_i32. apply _. Defined.
#[export] Instance rate_i32_dec r : Decision (rate_i32 r).
Proof. unfold rate_i32. apply _. Defined.
#[export] Instance spec_i32_dec s : Decision (spec_i32 s).
Proof. unfold spec_i32. apply _. Defined.

(** ** Lemmas *)

(** No conversion of a rate wraps around. *)
Lemma modelRate_exact r :
  rate_i32 r -> mra_Period (modelRate r) = v1ra_PeriodSeconds r * Second /\ mra_Requests (modelRate r) < 2 ^ 31.
Proof.
  intros (Hr & Hp & _). unfold is_i32 in *. simpl. split; [|lia].
  unfold mul64. rewrite i64_id; [done|]. unfold is_i64, min_i64, max_i64, Second. lia.
Qed.

Lemma converted_within cap spec : spec_i32 spec -> 2 ^ 31 - 1 <= cap -> policy_within cap (convert_Policy spec).
Proof.
  intros Hs Hc. unfold policy_within, convert_Policy. simpl.
  eapply Forall_map, Forall_impl; [exact Hs|]. intros b Hb. simpl.
  eapply Forall_map, Forall_impl; [exact Hb|]. intros r Hr. simpl.
  eapply Forall_map, Forall_impl; [exact Hr|]. intros x Hx. destruct (modelRate_exact x Hx). lia.
Qed.
