(* ===== verification/Deployed.v ===== *)
(** * The deployed stack

    A RateLimitPolicy as the API server stores it, converted, compiled, and
    enforced by the engine over Redis: the decisions are those of the engine
    over the in-memory reference. *)
From S2P Require Import Prelude GoStrings Algo Key StoreApi Memory Limits Model Compile CompileFacts Match MatchFacts MatchKeys.
From S2P Require Import Lua Redis RedisFacts Differential Identity IdentityFacts TokenCache Engine EngineFacts EngineClaims Convert.

(** ** Definitions *)

Inductive engine_call :=
| EDecide (req : Request)
| EPeek (req : Request).

Definition call_request (c : engine_call) : Request := match c with EDecide r | EPeek r => r end.

Definition engine_step `{Platform} {S : Type} {cap : Z} {CS : CounterStore cap key_kind S} (snap : Snapshot)
    (t : Z) (c : engine_call) (es : engine_state S) : engine_state S * option (result EngineError Decision) :=
  match c with
  | EDecide req => Decide_engine snap t req es
  | EPeek req => Peek_engine snap t req es
  end.

(** The answers of the engine to a trace of timed calls. *)
Fixpoint engine_answers `{Platform} {S : Type} {cap : Z} {CS : CounterStore cap key_kind S} (snap : Snapshot)
    (cs : list (Z * engine_call)) (es : engine_state S) : list (option (result EngineError Decision)) :=
  match cs with
  | [] => []
  | (t, c) :: cs =>
      let '(es', r) := engine_step snap t c es in r :: engine_answers snap cs es'
  end.

(** Instants that do not go back, and costs a request can carry. *)
Fixpoint calls_ok (t0 : Z) (cs : list (Z * engine_call)) : Prop :=
  match cs with
  | [] => True
  | (t, c) :: cs => t0 <= t /\ time_ok t /\ 0 <= rq_Cost (call_request c) <= max_i64 /\ calls_ok t cs
  end.

(** ** Lemmas *)

Section two_stores.
Context `{Platform} {S1 S2 : Type} {cap1 cap2 : Z}.
Context {CS1 : CounterStore cap1 key_kind S1} {CS2 : CounterStore cap2 key_kind S2}.
Context (Hcap1 : redis_cap <= cap1) (Hcap2 : redis_cap <= cap2).
Context (ns : string) (snap : Snapshot) (Hsnap : snapshot_ok redis_cap ns snap).

(** The pipeline only sees a store through its verdicts. *)
Lemma evaluate_agrees (R : S1 -> S2 -> Prop) judge1 judge2 req ec s1 s2 :
  0 <= rq_Cost req <= max_i64 -> R s1 s2 ->
  (forall bs, GuardBuckets bs = Ok tt -> Forall (bucket_ok redis_cap key_kind) bs ->
     exists vs, (judge1 bs s1).2 = Ok vs /\ (judge2 bs s2).2 = Ok vs /\ is_Some (StoreAdmitted bs vs) /\
       R (judge1 bs s1).1 (judge2 bs s2).1) ->
  exists d ec' s1' s2', evaluate snap judge1 req (mkES ec s1) = (mkES ec' s1', Some (Ok d)) /\
    evaluate snap judge2 req (mkES ec s2) = (mkES ec' s2', Some (Ok d)) /\ R s1' s2'.
Proof using Hsnap.
  intros Hc HR Hj. unfold evaluate. cbn [es_cache es_store].
  assert (1 <= (if rq_Cost req =? 0 then 1 else rq_Cost req) <= max_i64) as Hrc
    by (destruct (Z.eqb_spec (rq_Cost req) 0); [unfold max_i64|]; lia).
  set (cost := if rq_Cost req =? 0 then 1 else rq_Cost req) in *.
  destruct (Empty _). { eexists _, _, _, _. split; [done|]. split; [done|exact HR]. }
  destruct (extractKeys snap req ec) as [ec' [keys skips]].
  set (bs := Buckets (Evaluate (Match snap (rq_Path req) (rq_Method req)) keys cost)).
  destruct (length bs =? 0)%nat. { eexists _, _, _, _. split; [done|]. split; [done|exact HR]. }
  assert (Z.of_nat (length bs) <= MaxDecisionBuckets) as Hm.
  { pose proof (evaluate_budget snap (rq_Path req) (rq_Method req) keys cost) as Hb. fold bs in Hb.
    destruct Hsnap as (_ & _ & Hdb & Hmx). unfold MaxDecisionBuckets. lia. }
  rewrite Z.gtb_ltb, (proj2 (Z.ltb_ge _ _)) by lia.
  destruct (Hj bs) as (vs & H1 & H2 & [adm Ha] & HR').
  { by apply (evaluate_guard redis_cap ns). }
  { by apply (evaluate_bucket_ok redis_cap ns). }
  destruct (judge1 bs s1) as [s1' r1], (judge2 bs s2) as [s2' r2]. cbn [fst snd] in *. subst r1 r2. rewrite Ha.
  destruct (aggregate _ bs vs adm). eexists _, _, _, _. split; [done|]. split; [done|exact HR'].
Qed.

Lemma engine_step_agrees t c ec (s1 : S1) (s2 : S2) :
  related t s1 s2 -> time_ok t -> 0 <= rq_Cost (call_request c) <= max_i64 ->
  exists d ec' s1' s2', engine_step snap t c (mkES ec s1) = (mkES ec' s1', Some (Ok d)) /\
    engine_step snap t c (mkES ec s2) = (mkES ec' s2', Some (Ok d)) /\ related t s1' s2'.
Proof using Hsnap Hcap1 Hcap2.
  intros Hr Ht Hc. destruct c as [req|req]; simpl in Hc; unfold engine_step, Decide_engine, Peek_engine;
    apply evaluate_agrees; try done; intros bs Hg Hb.
  - pose proof (call_agrees Hcap1 Hcap2 t (CallDecide bs) s1 s2 Hr Ht Hb) as [He Hr']. unfold do_call in He, Hr'.
    assert (Forall (bucket_ok cap1 key_kind) bs) as Hb1 by (eapply Forall_impl; [exact Hb|]; intros; by eapply bucket_ok_weaken).
    pose proof (decide_law t bs s1 (proj1 Hr) Ht Hg Hb1) as D1.
    destruct (store_decide t bs s1) as [s1' r1], (store_decide t bs s2) as [s2' r2]. simpl in *.
    destruct D1 as (-> & _). eexists. split; [done|]. split; [congruence|]. split; [|done]. rewrite spec_verdicts_admitted. by eexists.
  - pose proof (call_agrees Hcap1 Hcap2 t (CallPeek bs) s1 s2 Hr Ht Hb) as [He Hr']. unfold do_call in He, Hr'.
    assert (Forall (bucket_ok cap1 key_kind) bs) as Hb1 by (eapply Forall_impl; [exact Hb|]; intros; by eapply bucket_ok_weaken).
    pose proof (peek_law t bs s1 (proj1 Hr) Ht Hg Hb1) as D1.
    destruct (store_peek t bs s1) as [s1' r1], (store_peek t bs s2) as [s2' r2]. simpl in *.
    destruct D1 as (-> & _). eexists. split; [done|]. split; [congruence|]. split; [|done]. rewrite spec_verdicts_admitted. by eexists.
Qed.

Lemma engine_answers_agree cs : forall t0 ec (s1 : S1) (s2 : S2),
  related t0 s1 s2 -> time_ok t0 -> calls_ok t0 cs ->
  exists ds, engine_answers snap cs (mkES ec s1) = map (fun d => Some (Ok d)) ds /\
    engine_answers snap cs (mkES ec s2) = map (fun d => Some (Ok d)) ds.
Proof using Hsnap Hcap1 Hcap2.
  induction cs as [|[t c] cs IH]; intros t0 ec s1 s2 Hr H0 Hok; [by exists []|].
  destruct Hok as (Ht0 & Ht & Hc & Hok).
  destruct (engine_step_agrees t c ec s1 s2 (related_later t0 t s1 s2 Hr H0 Ht0 Ht) Ht Hc)
    as (d & ec' & s1' & s2' & E1 & E2 & Hr').
  destruct (IH t ec' s1' s2' Hr' Ht Hok) as (ds & A1 & A2). exists (d :: ds). cbn [engine_answers].
  rewrite E1, E2. cbn [map]. by rewrite A1, A2.
Qed.

End two_stores.

(** ** Claims *)

(** C8: whatever policy the API server stores, once it compiles, the engine
    over Redis answers every trace of decisions and peeks with a decision, and
    with the decision, headers and rule outcomes included, that the engine over
    the in-memory reference gives. *)
Theorem deployed_decisions_exact `{Platform} {DB : Type} `{RedisServer DB} (ns d : string)
    (spec : RateLimitPolicySpec) (snap : Snapshot) (ps : list Problem) (t0 tokenCache : Z)
    (cs : list (Z * engine_call)) (db : DB) :
  spec_i32 spec -> Compile ns d (Some (convert_Policy spec)) = Some (snap, ps) ->
  (forall t k, GET t k db = None) -> time_ok t0 -> calls_ok t0 cs ->
  exists ds,
    engine_answers (CS := redis_store key_kind) snap cs (New_engine tokenCache None db) = map (fun d => Some (Ok d)) ds /\
    engine_answers (CS := memory_store key_kind) snap cs (New_engine tokenCache None New) = map (fun d => Some (Ok d)) ds.
Proof.
  intros Hs Hc Hempty Ht Hcs.
  assert (snapshot_ok redis_cap ns snap) as Hok.
  { eapply compile_snapshot_ok; [|done]. intros ? [= <-]. apply converted_within; [done|]. unfold redis_cap. lia. }
  unfold New_engine.
  apply (engine_answers_agree (CS1 := redis_store key_kind) (CS2 := memory_store key_kind)) with (ns := ns) (t0 := t0);
    try done.
  split_and!; [|apply mem_inv_New|].
  - intros k v Hk. by rewrite Hempty in Hk.
  - intros k. simpl. unfold redis_level. by rewrite Hempty.
Qed.

(** ** Witness *)

Definition demo_resource : RateLimitPolicySpec :=
  mkSpec "gw" [] [] [mkLimitBlock "b" None "" [mkV1Rule "r" [] [] [mkV1Rate 1 60 None ""] "" []]].
Definition demo_resource_snapshot : Snapshot :=
  match Compile "ns" "gw" (Some (convert_Policy demo_resource)) with
  | Some (s, _) => s
  | None => mkSnapshot "" [] [] [] 0
  end.
Definition demo_calls : list (Z * engine_call) :=
  [(5, EDecide (mkRequest "/x" "GET" "" [] 0)); (6, EPeek (mkRequest "/x" "GET" "" [] 0));
   (7, EDecide (mkRequest "/x" "GET" "" [] 0))].

(** The first request is allowed, the others are refused. *)
Lemma deployed_decisions_exact_witness :
  exists ds, engine_answers (H := demo_platform) (CS := redis_store key_kind) demo_resource_snapshot demo_calls
      (New_engine 0 None demo_db) = map (fun d => Some (Ok d)) ds /\
    map d_Allowed ds = [true; false; false].
Proof.
  destruct (deployed_decisions_exact (H := demo_platform) "ns" "gw" demo_resource demo_resource_snapshot [] 0 0 demo_calls demo_db)
    as (ds & H1 & _); [by_decide|vm_compute; reflexivity|apply demo_db_empty|by_decide| |].
  - simpl. unfold time_ok, maxNow, max_i64. lia.
  - exists ds. split; [exact H1|]. vm_compute in H1.
    destruct ds as [|d1 [|d2 [|d3 [|d4 ds]]]]; try discriminate H1. injection H1 as <- <- <-. reflexivity.
Defined.
