(* ===== verification/OpPolicy.v ===== *)
(** * operator/internal/policy: which generation is enforced

    One compilation of a namespace's policies against the persisted last-good
    state, and the fit of the result into a ConfigMap. The encoders of payload
    and manifest are an interface: only whether they fail and how long their
    output is matters here. [None] of an operation is a panic. *)
From S2P Require Import Prelude GoStrings Algo Model Compile CompileFacts Convert.

(** ** Definitions *)

(** *** Objects and outcomes *)

Record RuleProblem := mkRuleProblem {
  rp_Block : string;
  rp_Rule : string;
  rp_Reason : string;
  rp_Message : Message }.

Definition ProblemInvalidSpec : string := "InvalidSpec".

(** A policy object, as far as compilation reads it. *)
Record RateLimitPolicy := mkObject {
  o_Namespace : string;
  o_Name : string;
  o_UID : string;
  o_Generation : Z;
  o_Spec : RateLimitPolicySpec }.

Definition ObjectKey : Type := string * string.
Definition ObjectKeyFromObject (o : RateLimitPolicy) : ObjectKey := (o_Namespace o, o_Name o).

Record Bundle := mkBundle {
  bu_UID : string;
  bu_GoodGeneration : Z;
  bu_GoodSpec : RateLimitPolicySpec }.

(** The spec that claims a domain and nothing else, and the zero bundle. *)
Definition bare_spec (domain : string) : RateLimitPolicySpec := mkSpec domain [] [] [].
Definition no_bundle : Bundle := mkBundle "" 0 (bare_spec "").

(** [Bundle.good] *)
Definition good (b : Bundle) (uid : string) : option Bundle :=
  if bool_decide (bu_UID b = "") || negb (bool_decide (bu_UID b = uid)) then None else Some b.

(** The errors of an outcome, by what their texts carry. *)
Inductive PolicyError :=
| ErrNameMismatch (name domain : string)
| ErrSkew (fields : nat)
| ErrBlocking (count : nat) (reasons : list string).

Inductive Lost :=
| LostPruned (generation : Z)
| LostNotCompiling (generation : Z) (err : PolicyError).

(** The reason of a generation that does not fit: the size and the limit. *)
Definition TooLargeReason : Type := Z * Z.

Record Outcome := mkOutcome {
  oc_UID : string;
  oc_Generation : Z;
  oc_ActiveGeneration : Z;
  oc_LastGoodLost : option Lost;
  oc_Problems : list RuleProblem;
  oc_Err : option PolicyError;
  oc_TooLarge : option TooLargeReason;
  oc_EffectiveKeys : list string;
  oc_Blocks : nat;
  oc_Rules : nat }.

Definition Compiled (o : Outcome) : bool := bool_decide (oc_Err o = None).
Definition Enforced (o : Outcome) : bool := Compiled o && (oc_ActiveGeneration o =? oc_Generation o).

Record Input := mkInput {
  in_Namespace : string;
  in_Policies : list RateLimitPolicy;
  in_Skew : gmap ObjectKey (list RuleProblem);
  in_State : gmap string Bundle;
  in_OperatorVersion : string }.

Record Result := mkResult {
  rs_Snapshots : gmap string Snapshot;
  rs_Policies : gmap ObjectKey Outcome;
  rs_State : gmap string Bundle }.

(** *** One domain *)

Definition ruleProblems (problems : list Problem) : list RuleProblem :=
  map (fun p => mkRuleProblem (pb_Block p) (pb_Rule p) (pb_Reason p) (pb_Message p)) problems.

(** The blocking problems counted, and their distinct reasons in order. *)
Fixpoint blocking_loop (problems : list Problem) (seen : gset string) : nat * list string :=
  match problems with
  | [] => (0%nat, [])
  | p :: problems =>
      if negb (pb_Blocking p) then blocking_loop problems seen
      else if bool_decide (pb_Reason p ∈ seen)
      then let '(n, rs) := blocking_loop problems seen in (S n, rs)
      else let '(n, rs) := blocking_loop problems ({[pb_Reason p]} ∪ seen) in (S n, pb_Reason p :: rs)
  end.

Definition blockingError (problems : list Problem) : option PolicyError :=
  let '(count, reasons) := blocking_loop problems ∅ in
  if (count =? 0)%nat then None else Some (ErrBlocking count reasons).

(** The latest generation compiled, or refused unread with the bare snapshot. *)
Definition latestGeneration (namespace : string) (object : RateLimitPolicy) (skew : list RuleProblem)
    : option (Snapshot * Outcome) :=
  let domain := sp_Domain (o_Spec object) in
  let outcome problems err :=
    mkOutcome (o_UID object) (o_Generation object) 0 None problems err None [] 0 0 in
  if (0 <? length skew)%nat then
    '(empty, _) ← Compile namespace domain (Some (convert_Policy (bare_spec domain)));
    Some (empty, outcome skew (Some (ErrSkew (length skew))))
  else
    '(snapshot, problems) ← Compile namespace domain (Some (convert_Policy (o_Spec object)));
    Some (snapshot, outcome (ruleProblems problems) (blockingError problems)).

Definition sum_nat (l : list nat) : nat := foldr Nat.add 0%nat l.

Definition withContribution (o : Outcome) (snapshot : Snapshot) : Outcome :=
  mkOutcome (oc_UID o) (oc_Generation o) (oc_ActiveGeneration o) (oc_LastGoodLost o) (oc_Problems o)
    (oc_Err o) (oc_TooLarge o) (s_EffectiveKeys snapshot) (length (s_Blocks snapshot))
    (oc_Rules o + sum_nat (map (fun b => length (bl_Rules b)) (s_Blocks snapshot))).

Definition set_active (g : Z) (o : Outcome) : Outcome :=
  mkOutcome (oc_UID o) (oc_Generation o) g (oc_LastGoodLost o) (oc_Problems o)
    (oc_Err o) (oc_TooLarge o) (oc_EffectiveKeys o) (oc_Blocks o) (oc_Rules o).
Definition set_lost (l : Lost) (o : Outcome) : Outcome :=
  mkOutcome (oc_UID o) (oc_Generation o) (oc_ActiveGeneration o) (Some l) (oc_Problems o)
    (oc_Err o) (oc_TooLarge o) (oc_EffectiveKeys o) (oc_Blocks o) (oc_Rules o).
Definition set_tooLarge (t : TooLargeReason) (o : Outcome) : Outcome :=
  mkOutcome (oc_UID o) (oc_Generation o) (oc_ActiveGeneration o) (oc_LastGoodLost o) (oc_Problems o)
    (oc_Err o) (Some t) (oc_EffectiveKeys o) (oc_Blocks o) (oc_Rules o).

Definition compileDomainFitting (namespace : string) (object : RateLimitPolicy) (previous : Bundle)
    (skew : list RuleProblem) (tooLarge : option TooLargeReason) : option (Outcome * Snapshot * Bundle) :=
  let domain := sp_Domain (o_Spec object) in
  '(snapshot, outcome) ← latestGeneration namespace object skew;
  if Compiled outcome && bool_decide (tooLarge = None) then
    let outcome := set_active (o_Generation object) outcome in
    Some (withContribution outcome snapshot, snapshot,
          mkBundle (o_UID object) (o_Generation object) (o_Spec object))
  else
    '(snapshot, outcome) ←
      match tooLarge with
      | Some reason =>
          if Compiled outcome then
            '(empty, _) ← Compile namespace domain (Some (convert_Policy (bare_spec domain)));
            Some (empty, set_tooLarge reason outcome)
          else Some (snapshot, outcome)
      | None => Some (snapshot, outcome)
      end;
    match good previous (o_UID object) with
    | None => Some (outcome, snapshot, no_bundle)
    | Some b =>
        if (0 <? length skew)%nat && (bu_GoodGeneration b =? o_Generation object) then
          Some (set_lost (LostPruned (bu_GoodGeneration b)) outcome, snapshot, no_bundle)
        else
          '(fallback, problems) ← Compile namespace domain (Some (convert_Policy (bu_GoodSpec b)));
          match blockingError problems with
          | Some err => Some (set_lost (LostNotCompiling (bu_GoodGeneration b) err) outcome, snapshot, no_bundle)
          | None => Some (withContribution (set_active (bu_GoodGeneration b) outcome) fallback, fallback, b)
          end
    end.

Definition compileDomain (namespace : string) (object : RateLimitPolicy) (previous : Bundle)
    (skew : list RuleProblem) : option (Outcome * Snapshot * Bundle) :=
  compileDomainFitting namespace object previous skew None.

(** *** The namespace *)

(** The order of [sortedPolicies]: by namespace, then by name. *)
Definition object_le (a b : RateLimitPolicy) : Prop :=
  (if bool_decide (o_Namespace a = o_Namespace b) then String.leb (o_Name a) (o_Name b)
   else str_ltb (o_Namespace a) (o_Namespace b)) = true.

#[export] Instance object_le_dec : RelDecision object_le.
Proof. unfold RelDecision, object_le. intros; apply _. Defined.

Definition sortedPolicies (policies : list RateLimitPolicy) : list RateLimitPolicy :=
  merge_sort object_le policies.

Definition mismatch_outcome (o : RateLimitPolicy) : Outcome :=
  mkOutcome (o_UID o) (o_Generation o) 0 None
    [mkRuleProblem "" "" ProblemInvalidSpec
       (mkMsg "metadata.name %q does not equal spec.domain %q" [AStr (o_Name o); AStr (sp_Domain (o_Spec o))])]
    (Some (ErrNameMismatch (o_Name o) (sp_Domain (o_Spec o)))) None [] 0 0.

Definition put (domain : string) (key : ObjectKey) (osb : Outcome * Snapshot * Bundle) (r : Result) : Result :=
  let '(outcome, snapshot, bundle) := osb in
  mkResult (<[domain := snapshot]> (rs_Snapshots r)) (<[key := outcome]> (rs_Policies r))
    (<[domain := bundle]> (rs_State r)).

(** The value of a Go map at an absent key is the zero value. *)
Definition state_of (inp : Input) (domain : string) : Bundle := default no_bundle (in_State inp !! domain).
Definition skew_of (inp : Input) (o : RateLimitPolicy) : list RuleProblem :=
  default [] (in_Skew inp !! ObjectKeyFromObject o).

Fixpoint compile_loop (inp : Input) (objects : list RateLimitPolicy) (r : Result) : option Result :=
  match objects with
  | [] => Some r
  | object :: objects =>
      let key := ObjectKeyFromObject object in
      let domain := sp_Domain (o_Spec object) in
      if negb (bool_decide (o_Name object = domain)) then
        compile_loop inp objects
          (mkResult (rs_Snapshots r) (<[key := mismatch_outcome object]> (rs_Policies r)) (rs_State r))
      else
        osb ← compileDomain (in_Namespace inp) object (state_of inp domain) (skew_of inp object);
        compile_loop inp objects (put domain key osb r)
  end.

Definition policy_Compile (inp : Input) : option Result :=
  compile_loop inp (sortedPolicies (in_Policies inp)) (mkResult ∅ ∅ ∅).

Definition Domains (inp : Input) : list string :=
  sort_strings (elements (list_to_set (map (fun o => sp_Domain (o_Spec o)) (in_Policies inp)) : gset string)).

(** *** The ConfigMap *)

Definition ConfigMapLimit : Z := 2 ^ 20.

Record ManifestDomain := mkManifestDomain { md_Generation : Z; md_UID : string; md_Hash : string }.
#[export] Instance ManifestDomain_eq_dec : EqDecision ManifestDomain.
Proof. solve_decision. Defined.

Record Manifest := mkManifest { mf_OperatorVersion : string; mf_Domains : gmap string ManifestDomain }.

(** The encoders of api/manifest; [None] is an error. *)
Class Codec := {
  EncodePayload : RateLimitPolicySpec -> option (string * string);
  EncodeManifest : Manifest -> option string
}.

Record Rendered := mkRendered { rd_Manifest : string; rd_Payloads : gmap string string; rd_Size : Z }.

Section fit.
Context {CO : Codec}.

(** The loop over the domains: payloads, their size, and the manifest's entries. *)
Fixpoint render_loop (state : list (string * Bundle)) (payloads : gmap string string) (size : Z)
    (domains : gmap string ManifestDomain) : option (gmap string string * Z * gmap string ManifestDomain) :=
  match state with
  | [] => Some (payloads, size, domains)
  | (domain, bundle) :: state =>
      if bool_decide (bu_UID bundle = "") then render_loop state payloads size domains
      else
        '(compressed, hash) ← EncodePayload (bu_GoodSpec bundle);
        render_loop state (<[domain := compressed]> payloads) (size + len compressed)
          (<[domain := mkManifestDomain (bu_GoodGeneration bundle) (bu_UID bundle) hash]> domains)
  end.

Definition Render (state : gmap string Bundle) (operatorVersion : string) : option Rendered :=
  '(payloads, size, domains) ← render_loop (map_to_list state) ∅ 0 ∅;
  encoded ← EncodeManifest (mkManifest operatorVersion domains);
  Some (mkRendered encoded payloads (size + len encoded)).

(** A domain whose bundle this compilation changed. *)
Definition moved (inp : Input) (domain : string) (bundle : Bundle) : bool :=
  negb (bool_decide (bu_UID bundle = "")) &&
  negb (match in_State inp !! domain with
        | Some previous => bool_decide (bu_UID previous = bu_UID bundle) &&
                           (bu_GoodGeneration previous =? bu_GoodGeneration bundle)
        | None => false
        end).

(** Largest payload first, by name after. *)
Definition moved_le (payloads : gmap string string) (a b : string) : Prop :=
  let size d := len (default "" (payloads !! d)) in
  (if negb (size a =? size b) then size b <? size a else String.leb a b) = true.

#[export] Instance moved_le_dec payloads : RelDecision (moved_le payloads).
Proof. unfold RelDecision, moved_le. intros; apply _. Defined.

Definition moved_domains (inp : Input) (r : Result) (rendered : Rendered) : list string :=
  merge_sort (moved_le (rd_Payloads rendered))
    (filter (fun db : string * Bundle => moved inp db.1 db.2 = true) (map_to_list (rs_State r))).*1.

(** The object the index of [Fit] holds for a domain: the last that claims it. *)
Fixpoint object_of (domain : string) (policies : list RateLimitPolicy) : option RateLimitPolicy :=
  match policies with
  | [] => None
  | o :: policies =>
      match object_of domain policies with
      | Some o' => Some o'
      | None => if bool_decide (sp_Domain (o_Spec o) = domain) then Some o else None
      end
  end.

Fixpoint fit_loop (inp : Input) (limit : Z) (domains : list string) (rendered : Rendered) (r : Result)
    : option Result :=
  match domains with
  | [] => Some r
  | domain :: domains =>
      match object_of domain (in_Policies inp) with
      | None => fit_loop inp limit domains rendered r
      | Some object =>
          osb ← compileDomainFitting (in_Namespace inp) object (state_of inp domain) (skew_of inp object)
                  (Some (rd_Size rendered, limit));
          let r := put domain (ObjectKeyFromObject object) osb r in
          match Render (rs_State r) (in_OperatorVersion inp) with
          | None => Some r
          | Some rendered =>
              if rd_Size rendered <=? limit then Some r else fit_loop inp limit domains rendered r
          end
      end
  end.

Definition Fit (inp : Input) (r : Result) (limit : Z) : option Result :=
  if limit <=? 0 then None
  else match Render (rs_State r) (in_OperatorVersion inp) with
       | None => Some r
       | Some rendered =>
           if rd_Size rendered <=? limit then Some r
           else fit_loop inp limit (moved_domains inp r rendered) rendered r
       end.

End fit.

(** * The operator serves one good generation per domain

    What [compileDomainFitting] serves as a function of the latest spec and the
    persisted one; the compilation of a namespace domain by domain; what the
    fit into a ConfigMap keeps. *)

(** ** Definitions *)

(** The snapshot of a spec that compiles without a blocking problem. *)
Definition compiled_snapshot (ns d : string) (spec : RateLimitPolicySpec) : option Snapshot :=
  match Compile ns d (Some (convert_Policy spec)) with
  | Some (s, ps) => if blocking ps then None else Some s
  | None => None
  end.

(** The latest generation, when it can be served: read in full and compiling. *)
Definition latest_good (ns : string) (o : RateLimitPolicy) (skew : list RuleProblem) : option Snapshot :=
  if bool_decide (skew = []) then compiled_snapshot ns (sp_Domain (o_Spec o)) (o_Spec o) else None.

(** The persisted one, when it can: the same object's, not saved from a pruned
    read of the generation at hand, and still compiling. *)
Definition saved_good (ns : string) (o : RateLimitPolicy) (previous : Bundle) (skew : list RuleProblem)
    : option (Snapshot * Bundle) :=
  b ← good previous (o_UID o);
  if negb (bool_decide (skew = [])) && (bu_GoodGeneration b =? o_Generation o) then None
  else s ← compiled_snapshot ns (sp_Domain (o_Spec o)) (bu_GoodSpec b); Some (s, b).

(** What a domain is served: the latest generation unless it does not fit or
    is not good, else the saved one. *)
Definition serve (ns : string) (o : RateLimitPolicy) (previous : Bundle) (skew : list RuleProblem) (fits : bool)
    : option (Snapshot * Bundle) :=
  match (if fits then latest_good ns o skew else None) with
  | Some s => Some (s, mkBundle (o_UID o) (o_Generation o) (o_Spec o))
  | None => saved_good ns o previous skew
  end.

(** The snapshot of a domain that is claimed and serves nothing. *)
Definition idle_snapshot (ns : string) (o : RateLimitPolicy) (skew : list RuleProblem) : option Snapshot :=
  let d := sp_Domain (o_Spec o) in
  if bool_decide (skew = []) && negb (bool_decide (is_Some (compiled_snapshot ns d (o_Spec o))))
  then fst <$> Compile ns d (Some (convert_Policy (o_Spec o)))
  else fst <$> Compile ns d (Some (convert_Policy (bare_spec d))).

(** A domain's revisions compiled one after the other, each against the state
    the one before persisted; the last result. *)
Fixpoint edits (ns : string) (revs : list (RateLimitPolicy * list RuleProblem)) (previous : Bundle)
    (last : option (Outcome * Snapshot * Bundle)) : option (Outcome * Snapshot * Bundle) :=
  match revs with
  | [] => last
  | (o, skew) :: revs =>
      '(oc, s, b) ← compileDomain ns o previous skew; edits ns revs b (Some (oc, s, b))
  end.

(** The last revision that could be served, with its snapshot. *)
Fixpoint last_good (ns : string) (revs : list (RateLimitPolicy * list RuleProblem))
    : option (RateLimitPolicy * Snapshot) :=
  match revs with
  | [] => None
  | (o, skew) :: revs =>
      match last_good ns revs with
      | Some x => Some x
      | None => s ← latest_good ns o skew; Some (o, s)
      end
  end.

(** ** One domain *)

Lemma blocking_loop_zero ps seen : ((blocking_loop ps seen).1 =? 0)%nat = negb (blocking ps).
Proof.
  revert seen. induction ps as [|p ps IH]; intros seen; [done|]. cbn [blocking_loop]. unfold blocking. cbn [existsb].
  destruct (pb_Blocking p); cbn [negb orb]; [|apply IH].
  case_bool_decide; by destruct (blocking_loop ps _).
Qed.

Lemma blockingError_None ps : bool_decide (blockingError ps = None) = negb (blocking ps).
Proof.
  unfold blockingError. pose proof (blocking_loop_zero ps ∅) as H. destruct (blocking_loop ps ∅) as [n rs].
  simpl in H. rewrite H. by destruct (blocking ps).
Qed.

Lemma compile_bare_empty ns d snap ps :
  Compile ns d (Some (convert_Policy (bare_spec d))) = Some (snap, ps) -> s_Blocks snap = [].
Proof.
  unfold Compile. case_bool_decide; [by intros; simplify_eq|]. destruct (_ || _); [by intros; simplify_eq|].
  destruct (compileEnvironment d _) as [env eps].
  destruct (compileBlocks ns d _ env) as [|blocks bps] eqn:Hb; [done|]. vm_compute in Hb. simplify_eq.
  destruct (blocking _); intros; by simplify_eq.
Qed.

Lemma idle_snapshot_empty ns o skew s : idle_snapshot ns o skew = Some s -> s_Blocks s = [].
Proof.
  unfold idle_snapshot. set (d := sp_Domain (o_Spec o)).
  destruct (bool_decide (skew = []) && _) eqn:E.
  - apply andb_true_iff in E as [_ E]. apply negb_true_iff, bool_decide_eq_false in E.
    unfold compiled_snapshot in E. destruct (Compile ns d _) as [[snap ps]|] eqn:Hc; [|done].
    simpl. intros [= <-]. eapply compile_refused_empty; [done|]. destruct (blocking ps); [done|]. destruct E. by eexists.
  - destruct (Compile ns d _) as [[snap ps]|] eqn:Hc; [|done]. simpl. intros [= <-]. by eapply compile_bare_empty.
Qed.

Lemma idle_snapshot_defined ns o skew : is_Some (idle_snapshot ns o skew).
Proof.
  unfold idle_snapshot. destruct (_ && _); match goal with |- context [Compile ?a ?b ?c] =>
    destruct (compile_defined a b c) as (s & ps & ->) end; by eexists.
Qed.

(** What the latest generation compiles to, with the outcome it starts. *)
Lemma latestGeneration_spec ns o skew :
  exists s oc, latestGeneration ns o skew = Some (s, oc) /\ oc_ActiveGeneration oc = 0 /\
    Compiled oc = bool_decide (is_Some (latest_good ns o skew)) /\
    match latest_good ns o skew with Some s' => s = s' | None => idle_snapshot ns o skew = Some s end.
Proof.
  unfold latestGeneration, latest_good, idle_snapshot, compiled_snapshot. destruct skew as [|x skew].
  - cbn [length Nat.ltb Nat.leb]. rewrite (bool_decide_true (@nil RuleProblem = [])) by done.
    destruct (compile_defined ns (sp_Domain (o_Spec o)) (Some (convert_Policy (o_Spec o)))) as (s & ps & Hc).
    rewrite Hc. eexists _, _. split; [done|]. cbn [oc_ActiveGeneration]. split; [done|].
    unfold Compiled. cbn [oc_Err]. rewrite blockingError_None. destruct (blocking ps); split; try done.
  - cbn [length Nat.ltb Nat.leb]. rewrite (bool_decide_false (x :: skew = [])) by done. cbn [andb].
    destruct (compile_defined ns (sp_Domain (o_Spec o)) (Some (convert_Policy (bare_spec (sp_Domain (o_Spec o))))))
      as (s & ps & Hc).
    rewrite Hc. eexists _, _. split; [done|]. split_and!; done.
Qed.

Lemma compileDomainFitting_serves ns o prev skew tl :
  exists oc snap b, compileDomainFitting ns o prev skew tl = Some (oc, snap, b) /\
    (Compiled oc = bool_decide (is_Some (latest_good ns o skew))) /\
    match serve ns o prev skew (bool_decide (tl = None)) with
    | Some (s, b') => snap = s /\ b = b' /\ oc_ActiveGeneration oc = bu_GoodGeneration b'
    | None => idle_snapshot ns o skew = Some snap /\ b = no_bundle /\ oc_ActiveGeneration oc = 0
    end.
Proof.
  destruct (latestGeneration_spec ns o skew) as (s & oc & Hl & Ha & Hc & Hs).
  unfold compileDomainFitting, serve. rewrite Hl. cbn [mbind option_bind].
  destruct (Compiled oc && bool_decide (tl = None)) eqn:E.
  { apply andb_true_iff in E as [Ec Et]. rewrite Et. rewrite Ec in Hc. symmetry in Hc. apply bool_decide_eq_true in Hc.
    destruct Hc as [s' Hg]. rewrite Hg in *. subst s'. eexists _, _, _. split; [done|].
    split; [|done]. unfold Compiled in *. cbn [withContribution set_active oc_Err]. by rewrite Ec, bool_decide_true. }
  assert ((if bool_decide (tl = None) then latest_good ns o skew else None) = None) as ->.
  { case_bool_decide; [|done]. rewrite andb_true_r in E. rewrite E in Hc. symmetry in Hc.
    apply bool_decide_eq_false in Hc. by apply eq_None_not_Some. }
  match goal with |- context [mbind _ ?m] => assert (exists s1 oc1, m = Some (s1, oc1) /\ idle_snapshot ns o skew = Some s1 /\
    oc_ActiveGeneration oc1 = 0 /\ oc_Err oc1 = oc_Err oc) as (s1 & oc1 & -> & Hs1 & Ha1 & He1) end.
  { destruct tl as [reason|].
    - destruct (Compiled oc) eqn:Ec.
      + destruct (compile_defined ns (sp_Domain (o_Spec o)) (Some (convert_Policy (bare_spec (sp_Domain (o_Spec o))))))
          as (sb & ps & Hb).
        rewrite Hb. eexists _, _. split; [done|]. split_and!; try done.
        symmetry in Hc. apply bool_decide_eq_true in Hc. unfold idle_snapshot, latest_good in *.
        destruct (bool_decide (skew = [])); [|by destruct Hc]. rewrite (bool_decide_true (is_Some (compiled_snapshot _ _ _))) by done.
        cbn [negb andb]. by rewrite Hb.
      + eexists _, _. split; [done|]. symmetry in Hc. apply bool_decide_eq_false in Hc.
        destruct (latest_good ns o skew); [by destruct Hc|]. done.
    - rewrite andb_true_r in E. rewrite E in Hc. eexists _, _. split; [done|].
      symmetry in Hc. apply bool_decide_eq_false in Hc. destruct (latest_good ns o skew); [by destruct Hc|]. done. }
  cbn [mbind option_bind]. unfold saved_good.
  assert (Compiled oc1 = Compiled oc) as Hcc by (unfold Compiled; by rewrite He1).
  rewrite <- Hc, <- Hcc. destruct (good prev (o_UID o)) as [b|]; cbn [mbind option_bind].
  2:{ eexists _, _, _. split; [done|]. done. }
  assert ((0 <? length skew)%nat = negb (bool_decide (skew = []))) as -> by (by destruct skew).
  destruct (negb (bool_decide (skew = [])) && _).
  { eexists _, _, _. split; [done|]. done. }
  unfold compiled_snapshot.
  destruct (compile_defined ns (sp_Domain (o_Spec o)) (Some (convert_Policy (bu_GoodSpec b)))) as (sf & ps & Hf).
  rewrite Hf. pose proof (blockingError_None ps) as Hbe.
  cbn [mbind option_bind]. destruct (blockingError ps) as [err|].
  - rewrite bool_decide_false in Hbe by done. destruct (blocking ps); [|done]. eexists _, _, _. split; [done|]. done.
  - rewrite bool_decide_true in Hbe by done. destruct (blocking ps); [done|]. eexists _, _, _. split; [done|]. done.
Qed.

Lemma serve_bundle ns o prev skew fits s b :
  serve ns o prev skew fits = Some (s, b) ->
  bu_UID b = o_UID o /\ compiled_snapshot ns (sp_Domain (o_Spec o)) (bu_GoodSpec b) = Some s /\
  (b = mkBundle (o_UID o) (o_Generation o) (o_Spec o) \/ (b = prev /\ bu_UID prev <> "")).
Proof.
  unfold serve, saved_good, good. destruct (if fits then latest_good ns o skew else None) as [s'|] eqn:E.
  - intros [= <- <-]. split_and!; [done| |by left]. destruct fits; [|done]. unfold latest_good in E.
    by destruct (bool_decide (skew = [])).
  - destruct (bool_decide (bu_UID prev = "")) eqn:Hu; [done|]. apply bool_decide_eq_false in Hu.
    destruct (bool_decide (bu_UID prev = o_UID o)) eqn:Ho; [|done]. apply bool_decide_eq_true in Ho.
    cbn [orb negb mbind option_bind]. destruct (_ && _); [done|].
    destruct (compiled_snapshot _ _ (bu_GoodSpec prev)) eqn:Hc; [|done]. intros [= <- <-]. split_and!; [done|done|by right].
Qed.

(** Compiling once more against what was persisted changes nothing. *)
Lemma serve_stable ns o prev skew :
  o_UID o <> "" ->
  serve ns o (match serve ns o prev skew true with Some (_, b) => b | None => no_bundle end) skew true =
  serve ns o prev skew true.
Proof.
  intros Hu. unfold serve at 1 3. unfold serve. destruct (latest_good ns o skew) as [s|] eqn:E; [done|].
  unfold saved_good. destruct (good prev (o_UID o)) as [b|] eqn:Hg; [|done]. cbn [mbind option_bind].
  assert (b = prev /\ bu_UID prev = o_UID o) as [-> Hb].
  { unfold good in Hg. destruct (bool_decide (bu_UID prev = "")); [done|]. case_bool_decide; [|done].
    by simplify_eq/=. }
  destruct (_ && _) eqn:Hp; [done|]. destruct (compiled_snapshot _ _ (bu_GoodSpec prev)) as [s|] eqn:Hc; [|done].
  cbn [mbind option_bind]. rewrite Hg. cbn [mbind option_bind]. by rewrite Hp, Hc.
Qed.

(** ** A history of revisions *)

Section history.
Context (ns uid d : string) (Huid : uid <> "").

(** A persisted bundle with what it serves, before generations above [g]. *)
Definition holds (prev : Bundle) (sp : option Snapshot) (gens : list Z) : Prop :=
  match sp with
  | None => prev = no_bundle
  | Some s => bu_UID prev = uid /\ compiled_snapshot ns d (bu_GoodSpec prev) = Some s /\
              Forall (fun g => bu_GoodGeneration prev < g) gens
  end.

Definition serves (r : Outcome * Snapshot * Bundle) (b : Bundle) (sp : option Snapshot) : Prop :=
  let '(oc, snap, b') := r in
  b' = b /\ oc_ActiveGeneration oc = match sp with Some _ => bu_GoodGeneration b | None => 0 end /\
  match sp with Some s => snap = s | None => s_Blocks snap = [] end.

Lemma edit_step o skew prev sp gens :
  o_UID o = uid -> sp_Domain (o_Spec o) = d -> holds prev sp (o_Generation o :: gens) ->
  Forall (fun g => o_Generation o < g) gens ->
  let b := match latest_good ns o skew with Some _ => mkBundle uid (o_Generation o) (o_Spec o) | None => prev end in
  let sp' := match latest_good ns o skew with Some s => Some s | None => sp end in
  exists r, compileDomain ns o prev skew = Some r /\ serves r b sp' /\ holds b sp' gens.
Proof.
  intros Hu Hd Hh Hg. unfold compileDomain.
  destruct (compileDomainFitting_serves ns o prev skew None) as (oc & snap & b & -> & _ & Hs).
  rewrite bool_decide_true in Hs by done. unfold serve in Hs.
  destruct (latest_good ns o skew) as [s|] eqn:E; cbv zeta.
  - destruct Hs as (-> & -> & Ha). eexists. split; [done|]. simpl. rewrite Hu in *. split_and!; try done.
    unfold latest_good in E. rewrite Hd in E. by destruct (bool_decide (skew = [])).
  - destruct sp as [s|]; simpl in Hh.
    + destruct Hh as (Hpu & Hps & Hpg). apply Forall_cons in Hpg as [Hpo Hpg].
      assert (saved_good ns o prev skew = Some (s, prev)) as Hsg.
      { unfold saved_good, good. rewrite (bool_decide_false (bu_UID prev = "")) by congruence.
        rewrite (bool_decide_true (bu_UID prev = o_UID o)) by congruence. cbn [orb negb mbind option_bind].
        rewrite (proj2 (Z.eqb_neq (bu_GoodGeneration prev) _)), andb_false_r by lia. rewrite Hd, Hps. done. }
      rewrite Hsg in Hs. destruct Hs as (-> & -> & Ha). eexists. by split; [|split].
    + subst prev. destruct Hs as (Hi & -> & Ha). eexists. split; [done|]. split; [|done].
      split_and!; [done|done|]. by eapply idle_snapshot_empty.
Qed.

Lemma edits_ok revs : forall prev sp r,
  Forall (fun x => o_UID x.1 = uid /\ sp_Domain (o_Spec x.1) = d) revs ->
  StronglySorted Z.lt ((fun x => o_Generation x.1) <$> revs) ->
  holds prev sp ((fun x => o_Generation x.1) <$> revs) -> serves r prev sp ->
  exists r', edits ns revs prev (Some r) = Some r' /\
    match last_good ns revs with
    | Some (o, s) => serves r' (mkBundle uid (o_Generation o) (o_Spec o)) (Some s)
    | None => serves r' prev sp
    end.
Proof.
  induction revs as [|[o skew] revs IH]; intros prev sp r Hf Hg Hh Hs; [by exists r|].
  apply Forall_cons in Hf as [[Hu Hd] Hf]. simpl in Hu, Hd. rewrite fmap_cons in Hg, Hh.
  inversion Hg as [|? ? Hg' Hlt]; subst. simpl in Hlt.
  destruct (edit_step o skew prev sp _ Hu Hd Hh Hlt) as ([[oc snap] b'] & Hc & Hsv & Hh').
  cbn [edits]. rewrite Hc. cbn [mbind option_bind].
  assert (b' = match latest_good ns o skew with Some _ => mkBundle uid (o_Generation o) (o_Spec o) | None => prev end) as -> by apply Hsv.
  destruct (IH _ _ (oc, snap, _) Hf Hg' Hh' Hsv) as (r' & -> & Hr). exists r'. split; [done|].
  cbn [last_good]. destruct (last_good ns revs) as [[o' s']|]; [done|].
  by destruct (latest_good ns o skew) as [s|].
Qed.

End history.

(** ** The namespace *)

Definition key_of := ObjectKeyFromObject.
Definition domain_of (o : RateLimitPolicy) : string := sp_Domain (o_Spec o).

(** An object's entries in a result are those of its own compilation. *)
Definition entry_of (inp : Input) (r : Result) (o : RateLimitPolicy) (tl : option TooLargeReason) : Prop :=
  exists oc s b,
    compileDomainFitting (in_Namespace inp) o (state_of inp (domain_of o)) (skew_of inp o) tl = Some (oc, s, b) /\
    rs_Snapshots r !! domain_of o = Some s /\ rs_State r !! domain_of o = Some b /\
    rs_Policies r !! key_of o = Some oc.

Lemma compile_loop_ok inp objs : forall r,
  NoDup (o_Name <$> objs) ->
  exists r', compile_loop inp objs r = Some r' /\
    (forall o, o ∈ objs -> o_Name o = domain_of o -> entry_of inp r' o None) /\
    (forall o, o ∈ objs -> o_Name o <> domain_of o -> rs_Policies r' !! key_of o = Some (mismatch_outcome o)) /\
    (forall d, (forall o, o ∈ objs -> o_Name o = domain_of o -> domain_of o <> d) ->
       rs_Snapshots r' !! d = rs_Snapshots r !! d /\ rs_State r' !! d = rs_State r !! d) /\
    (forall k, k ∉ key_of <$> objs -> rs_Policies r' !! k = rs_Policies r !! k).
Proof.
  induction objs as [|o objs IH]; intros r Hn.
  { exists r. split_and!; try done; intros o Ho; by apply elem_of_nil in Ho. }
  rewrite fmap_cons in Hn. apply NoDup_cons in Hn as [Hni Hn].
  assert (key_of o ∉ key_of <$> objs) as Hk.
  { intros (o' & He & Ho')%list_elem_of_fmap. apply Hni. injection He as _ ->. by apply list_elem_of_fmap_2. }
  cbn [compile_loop]. fold (domain_of o) (key_of o).
  destruct (bool_decide (o_Name o = domain_of o)) eqn:Ed; cbn [negb].
  - apply bool_decide_eq_true in Ed. unfold compileDomain.
    destruct (compileDomainFitting_serves (in_Namespace inp) o (state_of inp (domain_of o)) (skew_of inp o) None)
      as (oc & s & b & Hc & _). rewrite Hc. cbn [mbind option_bind].
    destruct (IH (put (domain_of o) (key_of o) (oc, s, b) r) Hn) as (r' & -> & H1 & H2 & H3 & H4).
    exists r'. split; [done|].
    assert (forall o', o' ∈ objs -> o_Name o' = domain_of o' -> domain_of o' <> domain_of o) as Hoth.
    { intros o' Ho' Ho'd E. apply Hni. rewrite Ed, <- E, <- Ho'd. by apply list_elem_of_fmap_2. }
    split_and!.
    + intros o' [->|Ho']%elem_of_cons Hd'; [|by apply H1]. exists oc, s, b. destruct (H3 _ Hoth) as [-> ->].
      rewrite (H4 _ Hk). simpl. by rewrite !lookup_insert_eq.
    + intros o' [->|Ho']%elem_of_cons Hd'; [done|by apply H2].
    + intros d Hd. destruct (H3 d) as [-> ->]; [intros o' Ho'; apply Hd; by right|].
      simpl. rewrite !lookup_insert_ne by (apply Hd; [by left|done]). done.
    + intros k Hkn. rewrite fmap_cons, not_elem_of_cons in Hkn. destruct Hkn as [Hk1 Hk2]. rewrite (H4 k Hk2).
      simpl. by rewrite lookup_insert_ne.
  - apply bool_decide_eq_false in Ed.
    match goal with |- context [compile_loop inp objs ?r1] => destruct (IH r1 Hn) as (r' & -> & H1 & H2 & H3 & H4) end.
    exists r'. split; [done|]. split_and!.
    + intros o' [->|Ho']%elem_of_cons Hd'; [done|by apply H1].
    + intros o' [->|Ho']%elem_of_cons Hd'; [|by apply H2]. rewrite (H4 _ Hk). simpl. by rewrite lookup_insert_eq.
    + intros d Hd. destruct (H3 d) as [-> ->]; [intros o' Ho'; apply Hd; by right|]. done.
    + intros k Hkn. rewrite fmap_cons, not_elem_of_cons in Hkn. destruct Hkn as [Hk1 Hk2]. rewrite (H4 k Hk2).
      simpl. by rewrite lookup_insert_ne.
Qed.

Lemma sortedPolicies_perm ps : sortedPolicies ps ≡ₚ ps.
Proof. apply merge_sort_Permutation. Qed.

Lemma policy_compile_spec inp :
  NoDup (o_Name <$> in_Policies inp) ->
  exists r, policy_Compile inp = Some r /\
    (forall o, o ∈ in_Policies inp -> o_Name o = domain_of o -> entry_of inp r o None) /\
    (forall o, o ∈ in_Policies inp -> o_Name o <> domain_of o -> rs_Policies r !! key_of o = Some (mismatch_outcome o)) /\
    (forall d, (forall o, o ∈ in_Policies inp -> o_Name o = domain_of o -> domain_of o <> d) ->
       rs_Snapshots r !! d = None /\ rs_State r !! d = None).
Proof.
  intros Hn. pose proof (sortedPolicies_perm (in_Policies inp)) as Hp. rewrite <- Hp in Hn.
  destruct (compile_loop_ok inp (sortedPolicies (in_Policies inp)) (mkResult ∅ ∅ ∅) Hn) as (r & Hc & H1 & H2 & H3 & _).
  exists r. split; [done|]. split_and!.
  - intros o Ho. apply H1. by rewrite Hp.
  - intros o Ho. apply H2. by rewrite Hp.
  - intros d Hd. destruct (H3 d) as [-> ->]; [|done]. intros o Ho. rewrite Hp in Ho. by apply Hd.
Qed.
