(* ===== verification/OpPolicyClaims.v ===== *)
(** * What the operator promises

    The last good revision keeps serving, domains do not touch each other, a
    restart changes nothing, and the fit into the ConfigMap sets back only what
    moved. The last theorem records where the fit and the compilation disagree
    on which object a domain belongs to. *)
From S2P Require Import Prelude GoStrings Algo Model Compile CompileFacts Convert OpPolicy.

(** ** Definitions *)

(** The input of the next compilation: the same objects against what this one
    persisted. *)
Definition restarted (inp : Input) (r : Result) : Input :=
  mkInput (in_Namespace inp) (in_Policies inp) (in_Skew inp) (rs_State r) (in_OperatorVersion inp).

(** A domain's entry is good: what is persisted compiles to what is served and
    is the object's latest spec or the one saved before; or the domain serves
    no rule and nothing is persisted. *)
Definition entry_good (inp : Input) (r : Result) (o : RateLimitPolicy) : Prop :=
  exists s b, rs_Snapshots r !! domain_of o = Some s /\ rs_State r !! domain_of o = Some b /\
    ((b = no_bundle /\ s_Blocks s = []) \/
     (compiled_snapshot (in_Namespace inp) (domain_of o) (bu_GoodSpec b) = Some s /\ bu_UID b = o_UID o /\
      (b = mkBundle (o_UID o) (o_Generation o) (o_Spec o) \/ in_State inp !! domain_of o = Some b))).

(** ** Lemmas *)

Lemma entry_of_good inp r o tl : entry_of inp r o tl -> entry_good inp r o.
Proof.
  intros (oc & s & b & Hc & Hs & Hb & _). exists s, b. split_and!; [done|done|].
  destruct (compileDomainFitting_serves (in_Namespace inp) o (state_of inp (domain_of o)) (skew_of inp o) tl)
    as (oc' & s' & b' & Hc' & _ & Hv).
  rewrite Hc in Hc'. injection Hc' as <- <- <-.
  destruct (serve _ _ _ _ _) as [[s1 b1]|] eqn:E.
  - destruct Hv as (-> & -> & _). right. destruct (serve_bundle _ _ _ _ _ _ _ E) as (Hu & Hcs & Hor).
    split_and!; [done|done|]. destruct Hor as [->|[-> Hne]]; [by left|right].
    unfold state_of in *. by destruct (in_State inp !! domain_of o).
  - destruct Hv as (Hi & -> & _). left. split; [done|]. by eapply idle_snapshot_empty.
Qed.

Lemma domain_stable ns o prev skew oc s b oc' s' b' :
  o_UID o <> "" -> compileDomainFitting ns o prev skew None = Some (oc, s, b) ->
  compileDomainFitting ns o b skew None = Some (oc', s', b') -> s' = s /\ b' = b.
Proof.
  intros Hu H1 H2.
  destruct (compileDomainFitting_serves ns o prev skew None) as (oc3 & s3 & b3 & E3 & _ & V3).
  destruct (compileDomainFitting_serves ns o b skew None) as (oc4 & s4 & b4 & E4 & _ & V4).
  rewrite H1 in E3. rewrite H2 in E4. simplify_eq. rewrite bool_decide_true in V3, V4 by done.
  pose proof (serve_stable ns o prev skew Hu) as Hst.
  destruct (serve ns o prev skew true) as [[s b]|]; destruct V3 as (V31 & -> & _);
    rewrite Hst in V4; destruct V4 as (V41 & -> & _); split; congruence.
Qed.

Lemma entry_stable inp r r' o :
  o_UID o <> "" -> entry_of inp r o None -> entry_of (restarted inp r) r' o None ->
  rs_Snapshots r' !! domain_of o = rs_Snapshots r !! domain_of o /\ rs_State r' !! domain_of o = rs_State r !! domain_of o.
Proof.
  intros Hu (oc1 & s1 & b1 & Hc1 & Hs1 & Hb1 & _) (oc2 & s2 & b2 & Hc2 & Hs2 & Hb2 & _).
  unfold state_of at 1 in Hc2. simpl in Hc2. rewrite Hb1 in Hc2. simpl in Hc2.
  destruct (domain_stable _ _ _ _ _ _ _ _ _ _ Hu Hc1 Hc2) as [-> ->]. by rewrite Hs1, Hb1.
Qed.

Lemma no_bundle_unmoved inp d : moved inp d no_bundle = false.
Proof. done. Qed.

(** A domain set back is not a candidate any more. *)
Lemma set_back_unmoved inp o oc s b reason :
  compileDomainFitting (in_Namespace inp) o (state_of inp (domain_of o)) (skew_of inp o) (Some reason) = Some (oc, s, b) ->
  moved inp (domain_of o) b = false.
Proof.
  intros Hc.
  destruct (compileDomainFitting_serves (in_Namespace inp) o (state_of inp (domain_of o)) (skew_of inp o) (Some reason))
    as (oc' & s' & b' & Hc' & _ & Hv).
  rewrite Hc in Hc'. injection Hc' as <- <- <-. rewrite bool_decide_false in Hv by done. unfold serve in Hv.
  destruct (saved_good _ _ _ _) as [[s1 b1]|] eqn:E; [|destruct Hv as (_ & -> & _); apply no_bundle_unmoved].
  destruct Hv as (_ & -> & _). unfold saved_good, good in E.
  destruct (bool_decide (bu_UID (state_of inp (domain_of o)) = "")) eqn:Hu; [done|]. apply bool_decide_eq_false in Hu.
  destruct (bool_decide (bu_UID (state_of inp (domain_of o)) = o_UID o)); [|done]. cbn [orb negb mbind option_bind] in E.
  destruct (_ && _); [done|]. destruct (compiled_snapshot _ _ _); [|done]. injection E as _ <-.
  unfold moved, state_of in *. destruct (in_State inp !! domain_of o) as [p|]; [|done]. simpl.
  rewrite (bool_decide_true (bu_UID p = bu_UID p)), Z.eqb_refl by done. by rewrite andb_false_r.
Qed.

Section fit.
Context {CO : Codec} (inp : Input).
Context (Hnames : NoDup (o_Name <$> in_Policies inp)) (Hdom : Forall (fun o => o_Name o = domain_of o) (in_Policies inp)).

Lemma domain_unique o1 o2 :
  o1 ∈ in_Policies inp -> o2 ∈ in_Policies inp -> domain_of o1 = domain_of o2 -> o1 = o2.
Proof using Hnames Hdom.
  intros H1 H2 He. rewrite Forall_forall in Hdom.
  apply list_elem_of_lookup in H1 as [i Hi], H2 as [j Hj].
  assert (i = j) as ->; [|congruence]. apply (NoDup_lookup _ i j (domain_of o1) Hnames).
  - rewrite list_lookup_fmap, Hi. simpl. f_equal. apply Hdom. by eapply list_elem_of_lookup_2.
  - rewrite list_lookup_fmap, Hj. simpl. f_equal. rewrite He. apply Hdom. by eapply list_elem_of_lookup_2.
Qed.

Lemma object_of_elem d ps o : object_of d ps = Some o -> o ∈ ps /\ domain_of o = d.
Proof.
  induction ps as [|o' ps IH]; [done|]. cbn [object_of]. destruct (object_of d ps) as [o2|].
  - intros [= <-]. destruct (IH eq_refl). split; [by right|done].
  - case_bool_decide; [|done]. intros [= <-]. split; [by left|done].
Qed.

Lemma object_of_defined d ps o : o ∈ ps -> domain_of o = d -> is_Some (object_of d ps).
Proof.
  intros Ho Hd. induction ps as [|o' ps IH]; [by apply elem_of_nil in Ho|]. cbn [object_of].
  destruct (object_of d ps) as [o2|] eqn:E; [by eexists|]. apply elem_of_cons in Ho as [<-|Ho].
  - rewrite bool_decide_true by done. by eexists.
  - destruct (IH Ho) as [? ?]. done.
Qed.

Definition state_known (r : Result) : Prop :=
  (forall o, o ∈ in_Policies inp -> exists tl, entry_of inp r o tl) /\
  (forall d b, rs_State r !! d = Some b -> exists o, o ∈ in_Policies inp /\ domain_of o = d).

Definition settled (limit : Z) (r : Result) : Prop :=
  match Render (rs_State r) (in_OperatorVersion inp) with
  | None => True
  | Some rd => rd_Size rd <= limit \/ forall d b, rs_State r !! d = Some b -> moved inp d b = false
  end.

Lemma put_known r o tl osb :
  state_known r -> o ∈ in_Policies inp ->
  compileDomainFitting (in_Namespace inp) o (state_of inp (domain_of o)) (skew_of inp o) tl = Some osb ->
  state_known (put (domain_of o) (key_of o) osb r).
Proof using Hnames Hdom.
  intros [H1 H2] Ho Hc. destruct osb as [[oc s] b]. split.
  - intros o' Ho'. destruct (decide (domain_of o' = domain_of o)) as [He|Hne].
    + rewrite (domain_unique o' o Ho' Ho He) in *. exists tl, oc, s, b. simpl. by rewrite !lookup_insert_eq.
    + destruct (H1 o' Ho') as (tl' & oc' & s' & b' & Hc' & Hs & Hb & Hp). exists tl', oc', s', b'. simpl.
      rewrite !lookup_insert_ne; try done. unfold key_of, ObjectKeyFromObject. intros [= _ E].
      rewrite Forall_forall in Hdom. rewrite (Hdom o Ho), (Hdom o' Ho') in E. done.
  - intros d b'. simpl. destruct (decide (d = domain_of o)) as [->|Hne]; [by exists o|].
    rewrite lookup_insert_ne by done. apply H2.
Qed.

Lemma fit_loop_ok limit domains : forall rd r,
  state_known r -> (forall d b, rs_State r !! d = Some b -> moved inp d b = true -> d ∈ domains) ->
  exists r', fit_loop inp limit domains rd r = Some r' /\ state_known r' /\ settled limit r'.
Proof using Hnames Hdom.
  induction domains as [|d domains IH]; intros rd r Hk Hm; cbn [fit_loop].
  { exists r. split_and!; try done. unfold settled. case_match; [|done]. right. intros d b Hb.
    destruct (moved inp d b) eqn:E; [|done]. by apply Hm, elem_of_nil in E. }
  destruct (object_of d (in_Policies inp)) as [o|] eqn:Eo.
  - destruct (object_of_elem _ _ _ Eo) as [Ho <-].
    destruct (compileDomainFitting_serves (in_Namespace inp) o (state_of inp (domain_of o)) (skew_of inp o)
      (Some (rd_Size rd, limit))) as (oc & s & b & Hc & _).
    rewrite Hc. cbn [mbind option_bind]. fold (key_of o).
    pose proof (put_known r o _ _ Hk Ho Hc) as Hk'.
    set (r' := put (domain_of o) (key_of o) (oc, s, b) r) in *.
    destruct (Render (rs_State r') (in_OperatorVersion inp)) as [rd'|] eqn:Er.
    + destruct (Z.leb_spec (rd_Size rd') limit) as [Hl|Hl].
      * exists r'. split_and!; [done|done|]. unfold settled. rewrite Er. by left.
      * apply IH; [done|]. intros d' b' Hb' Hmv. unfold r' in Hb'. simpl in Hb'.
        destruct (decide (d' = domain_of o)) as [->|Hne].
        -- rewrite lookup_insert_eq in Hb'. injection Hb' as <-. by rewrite (set_back_unmoved _ _ _ _ _ _ Hc) in Hmv.
        -- rewrite lookup_insert_ne in Hb' by done. destruct (proj1 (elem_of_cons _ _ _) (Hm _ _ Hb' Hmv)); done.
    + exists r'. split_and!; [done|done|]. unfold settled. by rewrite Er.
  - apply IH; [done|]. intros d' b' Hb' Hmv. destruct (proj1 (elem_of_cons _ _ _) (Hm _ _ Hb' Hmv)) as [->|]; [|done].
    destruct (proj2 Hk d b' Hb') as (o & Ho & Hod). destruct (object_of_defined d _ o Ho Hod) as [? ?]. congruence.
Qed.

Lemma moved_domains_elem r rd d b : rs_State r !! d = Some b -> moved inp d b = true -> d ∈ moved_domains inp r rd.
Proof.
  intros Hb Hm. unfold moved_domains. rewrite merge_sort_Permutation. apply list_elem_of_fmap.
  exists (d, b). split; [done|]. apply list_elem_of_filter. split; [done|]. by apply elem_of_map_to_list.
Qed.

End fit.

(** A compilation fitted into its limit: every object keeps the entries of one
    compilation of its own. *)
Lemma compile_fit_known {CO : Codec} inp limit :
  NoDup (o_Name <$> in_Policies inp) -> Forall (fun o => o_Name o = domain_of o) (in_Policies inp) -> 0 < limit ->
  exists r r', policy_Compile inp = Some r /\ Fit inp r limit = Some r' /\ state_known inp r' /\ settled inp limit r'.
Proof.
  intros Hn Hd Hl. destruct (policy_compile_spec inp Hn) as (r & Hr & H1 & _ & H3).
  assert (state_known inp r) as Hk.
  { rewrite Forall_forall in Hd. split; [intros o Ho; exists None; by apply H1, Hd|]. intros d b Hb.
    destruct (decide (Exists (fun o => domain_of o = d) (in_Policies inp))) as [He|He].
    - apply Exists_exists in He as (o & ? & ?). by exists o.
    - destruct (H3 d) as [_ E]; [|congruence]. intros o Ho _ E. apply He, Exists_exists. by exists o. }
  assert (exists r', Fit inp r limit = Some r' /\ state_known inp r' /\ settled inp limit r') as (r' & Hf & Hk' & Hs).
  { unfold Fit. rewrite (proj2 (Z.leb_gt limit 0)) by lia.
    destruct (Render (rs_State r) (in_OperatorVersion inp)) as [rd|] eqn:Er;
      [|exists r; split_and!; try done; unfold settled; by rewrite Er].
    destruct (Z.leb_spec (rd_Size rd) limit);
      [exists r; split_and!; try done; unfold settled; rewrite Er; by left|].
    apply fit_loop_ok; try done. intros d b. apply moved_domains_elem. }
  by exists r, r'.
Qed.

(** ** Claims *)

(** C25: whatever the edits of a policy, its domain is served by exactly the
    last revision that was read in full and compiles, and it is that revision
    the operator persists and reports as active; before the first such
    revision the domain is claimed and serves no rule. *)
Theorem policy_last_good_history (ns uid d : string) (revs : list (RateLimitPolicy * list RuleProblem)) :
  uid <> "" -> revs <> [] ->
  Forall (fun x => o_UID x.1 = uid /\ sp_Domain (o_Spec x.1) = d) revs ->
  StronglySorted Z.lt ((fun x => o_Generation x.1) <$> revs) ->
  exists oc snap b, edits ns revs no_bundle None = Some (oc, snap, b) /\
    match last_good ns revs with
    | Some (o, s) => snap = s /\ oc_ActiveGeneration oc = o_Generation o /\
                     b = mkBundle uid (o_Generation o) (o_Spec o)
    | None => s_Blocks snap = [] /\ oc_ActiveGeneration oc = 0 /\ b = no_bundle
    end.
Proof.
  intros Hu Hne Hf Hg. destruct revs as [|[o skew] revs]; [done|].
  apply Forall_cons in Hf as [[Hou Hod] Hf]. simpl in Hou, Hod. rewrite fmap_cons in Hg.
  inversion Hg as [|? ? Hg' Hlt]; subst uid d. simpl in Hlt.
  destruct (edit_step ns (o_UID o) (sp_Domain (o_Spec o)) Hu o skew no_bundle None _ eq_refl eq_refl eq_refl Hlt)
    as ([[oc1 snap1] b1] & Hc & Hsv & Hh).
  cbn [edits]. rewrite Hc. cbn [mbind option_bind]. pose proof (proj1 Hsv) as Hb1. cbn beta iota in Hb1. subst b1.
  destruct (edits_ok ns (o_UID o) (sp_Domain (o_Spec o)) Hu revs _ _ _ Hf Hg' Hh Hsv) as ([[oc snap] b] & -> & Hr).
  exists oc, snap, b. split; [done|]. cbn [last_good]. destruct (last_good ns revs) as [[o' s']|].
  - by destruct Hr as (-> & -> & ->).
  - destruct (latest_good ns o skew) as [s|]; simpl; by destruct Hr as (-> & -> & Hs).
Qed.

(** What happens to a domain depends on its own policy, its own saved state
    and its own unreadable fields alone: two compilations that agree on those
    agree on the domain's snapshot, saved state and status, whatever the other
    policies of the namespace are and in whatever order they arrive. *)
Theorem policy_domains_isolated (inp1 inp2 : Input) (o : RateLimitPolicy) :
  NoDup (o_Name <$> in_Policies inp1) -> NoDup (o_Name <$> in_Policies inp2) ->
  o ∈ in_Policies inp1 -> o ∈ in_Policies inp2 -> o_Name o = domain_of o ->
  in_Namespace inp1 = in_Namespace inp2 ->
  in_State inp1 !! domain_of o = in_State inp2 !! domain_of o ->
  in_Skew inp1 !! key_of o = in_Skew inp2 !! key_of o ->
  exists r1 r2, policy_Compile inp1 = Some r1 /\ policy_Compile inp2 = Some r2 /\
    is_Some (rs_Snapshots r1 !! domain_of o) /\
    rs_Snapshots r1 !! domain_of o = rs_Snapshots r2 !! domain_of o /\
    rs_State r1 !! domain_of o = rs_State r2 !! domain_of o /\
    rs_Policies r1 !! key_of o = rs_Policies r2 !! key_of o.
Proof.
  intros Hn1 Hn2 Ho1 Ho2 Hd Hns Hst Hsk.
  destruct (policy_compile_spec inp1 Hn1) as (r1 & -> & H1 & _).
  destruct (policy_compile_spec inp2 Hn2) as (r2 & -> & H2 & _).
  destruct (H1 o Ho1 Hd) as (oc1 & s1 & b1 & Hc1 & Hs1 & Hb1 & Hp1).
  destruct (H2 o Ho2 Hd) as (oc2 & s2 & b2 & Hc2 & Hs2 & Hb2 & Hp2).
  unfold state_of, skew_of in *. fold (key_of o) in Hc1, Hc2. rewrite Hns, Hst, Hsk, Hc2 in Hc1. injection Hc1 as <- <- <-.
  exists r1, r2. split_and!; try done; try (by eexists); congruence.
Qed.

(** A compilation against the state the previous one persisted serves and
    persists the same: a restarted operator enforces what was enforced. *)
Theorem policy_restart_stable (inp : Input) :
  NoDup (o_Name <$> in_Policies inp) -> Forall (fun o => o_UID o <> "") (in_Policies inp) ->
  exists r r', policy_Compile inp = Some r /\ policy_Compile (restarted inp r) = Some r' /\
    rs_Snapshots r' = rs_Snapshots r /\ rs_State r' = rs_State r.
Proof.
  intros Hn Hu. destruct (policy_compile_spec inp Hn) as (r & -> & H1 & _ & H3).
  destruct (policy_compile_spec (restarted inp r) Hn) as (r' & Hr' & H1' & _ & H3').
  exists r, r'. split_and!; [done|done| |];
    (apply map_eq; intros d;
     destruct (decide (Exists (fun o => o_Name o = domain_of o /\ domain_of o = d) (in_Policies inp))) as [He|He];
     [|assert (forall o, o ∈ in_Policies inp -> o_Name o = domain_of o -> domain_of o <> d) as Hno;
       [intros o Ho Hod E; apply He, Exists_exists; by exists o
       |destruct (H3 d Hno), (H3' d Hno); congruence]]);
    apply Exists_exists in He as (o & Ho & Hod & <-); rewrite Forall_forall in Hu;
    destruct (entry_stable inp r r' o (Hu o Ho) (H1 o Ho Hod) (H1' o Ho Hod)); done.
Qed.

(** C27: fitting a compilation into the ConfigMap never panics with a positive
    limit and ends in one of two ways: the content is within the limit, or
    every generation that moved was set back, so that nothing more can be
    given up. Whatever it set back, every domain still serves its latest spec
    or the saved one, whole, or claims the domain without a rule. *)
Theorem policy_fit_settles {CO : Codec} (inp : Input) (limit : Z) :
  NoDup (o_Name <$> in_Policies inp) -> Forall (fun o => o_Name o = domain_of o) (in_Policies inp) -> 0 < limit ->
  exists r r', policy_Compile inp = Some r /\ Fit inp r limit = Some r' /\
    (forall o, o ∈ in_Policies inp -> entry_good inp r' o) /\
    (forall rd, Render (rs_State r') (in_OperatorVersion inp) = Some rd ->
       rd_Size rd <= limit \/ forall d b, rs_State r' !! d = Some b -> moved inp d b = false).
Proof.
  intros Hn Hd Hl. destruct (compile_fit_known inp limit Hn Hd Hl) as (r & r' & Hr & Hf & Hk' & Hs).
  exists r, r'. split_and!; [done|done| |].
  - intros o Ho. destruct (proj1 Hk' o Ho) as [tl He]. by eapply entry_of_good.
  - intros rd Hrd. unfold settled in Hs. by rewrite Hrd in Hs.
Qed.

(** ** Demonstration objects *)

Definition demo_rates (n : Z) : RateLimitPolicySpec :=
  mkSpec "gw" [] [] [mkLimitBlock "b" None "" [mkV1Rule "r" [] [] [mkV1Rate n 60 None ""] "" []]].
Definition demo_broken : RateLimitPolicySpec :=
  mkSpec "gw" [] [] [mkLimitBlock "b" None "" [mkV1Rule "r" [] ["nokey"] [mkV1Rate 5 60 None ""] "" []]].
Definition demo_object (uid : string) (g : Z) (spec : RateLimitPolicySpec) : RateLimitPolicy :=
  mkObject "ns" "gw" uid g spec.

(** An encoder whose payload is as long as the quota of the first rate. *)
Fixpoint filler (n : nat) : string := match n with O => "" | S n => String "x" (filler n) end.
Definition first_quota (spec : RateLimitPolicySpec) : Z :=
  match sp_Limits spec with
  | mkLimitBlock _ _ _ (mkV1Rule _ _ _ (rate :: _) _ _ :: _) :: _ => v1ra_Requests rate
  | _ => 0
  end.
#[export] Instance demo_codec : Codec := {
  EncodePayload spec := Some (filler (Z.to_nat (first_quota spec)), "");
  EncodeManifest _ := Some ""
}.

Definition demo_saved : Bundle := mkBundle "ua" 1 (demo_rates 5).
Definition demo_input (ps : list RateLimitPolicy) : Input := mkInput "ns" ps ∅ {["gw" := demo_saved]} "".
Definition demo_grown : RateLimitPolicy := demo_object "ua" 2 (demo_rates 50).
Definition demo_misnamed : RateLimitPolicy := mkObject "ns" "other" "ub" 1 (demo_rates 7).

(** [Fit] looks a domain's object up by spec.domain alone, without the
    check that metadata.name equals it, which the compilation makes. With an
    object of another name claiming a domain whose new generation does not fit,
    the domain is set back with that object's identity: its saved generation is
    dropped, it serves no rule, and its status still reports the generation
    that did not fit as enforced. Without the other object the saved
    generation is served. *)
Example fit_misnamed_object_unprotects :
  (exists r r' s oc, policy_Compile (demo_input [demo_grown; demo_misnamed]) = Some r /\
     Fit (demo_input [demo_grown; demo_misnamed]) r 20 = Some r' /\
     rs_State r' !! "gw" = Some no_bundle /\ rs_Snapshots r' !! "gw" = Some s /\ s_Blocks s = [] /\
     rs_Policies r' !! ("ns", "gw") = Some oc /\ Enforced oc = true /\ oc_ActiveGeneration oc = 2) /\
  (exists r r' s, policy_Compile (demo_input [demo_grown]) = Some r /\
     Fit (demo_input [demo_grown]) r 20 = Some r' /\
     rs_State r' !! "gw" = Some demo_saved /\ rs_Snapshots r' !! "gw" = Some s /\
     compiled_snapshot "ns" "gw" (demo_rates 5) = Some s /\ s_Blocks s <> []).
Proof.
  split.
  - eexists _, _, _, _. do 5 (split; [vm_compute; reflexivity|]). split; [vm_compute; reflexivity|].
    vm_compute. done.
  - eexists _, _, _. do 5 (split; [vm_compute; reflexivity|]). vm_compute. done.
Qed.

(** ** Witnesses *)

Lemma policy_last_good_history_witness :
  exists oc snap b,
    edits "ns" [(demo_object "ua" 1 (demo_rates 5), []); (demo_object "ua" 2 demo_broken, [])] no_bundle None
      = Some (oc, snap, b) /\
    s_Blocks snap <> [] /\ oc_ActiveGeneration oc = 1 /\ Compiled oc = false.
Proof.
  destruct (policy_last_good_history "ns" "ua" "gw"
    [(demo_object "ua" 1 (demo_rates 5), []); (demo_object "ua" 2 demo_broken, [])]) as (oc & snap & b & He & Hs).
  - done.
  - done.
  - repeat constructor.
  - repeat constructor.
  - exists oc, snap, b. split; [exact He|]. vm_compute in Hs. destruct Hs as (-> & Ha & _).
    split_and!; [done|exact Ha|]. vm_compute in He. by simplify_eq.
Defined.

Definition demo_other : RateLimitPolicy := mkObject "ns" "api" "ub" 1 (mkSpec "api" [] [] []).

Lemma policy_domains_isolated_witness :
  exists r1 r2, policy_Compile (demo_input [demo_grown]) = Some r1 /\
    policy_Compile (demo_input [demo_other; demo_grown]) = Some r2 /\
    rs_Snapshots r1 !! "gw" = rs_Snapshots r2 !! "gw".
Proof.
  destruct (policy_domains_isolated (demo_input [demo_grown]) (demo_input [demo_other; demo_grown]) demo_grown)
    as (r1 & r2 & H1 & H2 & _ & H3 & _); [by_decide|by_decide|by left|right; by left|done|done|done|done|].
  exists r1, r2. split_and!; [exact H1|exact H2|exact H3].
Defined.

Lemma policy_restart_stable_witness :
  exists r r', policy_Compile (demo_input [demo_object "ua" 2 demo_broken]) = Some r /\
    policy_Compile (restarted (demo_input [demo_object "ua" 2 demo_broken]) r) = Some r' /\
    rs_Snapshots r' = rs_Snapshots r /\ rs_State r !! "gw" = Some demo_saved.
Proof.
  destruct (policy_restart_stable (demo_input [demo_object "ua" 2 demo_broken])) as (r & r' & H1 & H2 & H3 & _);
    [by_decide|by repeat constructor|].
  exists r, r'. split_and!; [exact H1|exact H2|exact H3|]. vm_compute in H1. injection H1 as <-. reflexivity.
Defined.

Lemma policy_fit_settles_witness :
  exists r r', policy_Compile (demo_input [demo_grown]) = Some r /\ Fit (demo_input [demo_grown]) r 20 = Some r' /\
    entry_good (demo_input [demo_grown]) r' demo_grown /\ rs_State r' !! "gw" = Some demo_saved.
Proof.
  destruct (policy_fit_settles (demo_input [demo_grown]) 20) as (r & r' & H1 & H2 & H3 & _);
    [by_decide|by repeat constructor|lia|].
  exists r, r'. split_and!; [exact H1|exact H2|apply H3; by left|].
  vm_compute in H1. injection H1 as <-. vm_compute in H2. injection H2 as <-. reflexivity.
Defined.
