(* ===== verification/Records.v ===== *)
(** * service/internal/records: commands that survive a retry

    The in-process record store over the in-memory counter store: bindings,
    domain leases, confirmation tokens. Instants and durations are nanoseconds;
    the readings of the clock inside one call are one instant, and the mutex is
    the atomicity of a call. The in-memory counter store enumerates its keys
    and never fails, so the branches for a store that does not are absent. *)
From S2P Require Import Prelude GoStrings Algo StoreApi Memory MemoryScan.

(** ** Definitions *)

Definition Retention : Z := 24 * 3600 * Second.

Record Keys := mkKeys { k_Record : string; k_Lease : string; k_Token : string }.

Record Progress := mkProgress {
  pg_Scanned : Z;
  pg_Matched : Z;
  pg_Reset : Z;
  pg_Rules : gmap string Z;
  pg_Keys : list string;
  pg_Truncated : bool }.
Definition no_progress : Progress := mkProgress 0 0 0 ∅ [] false.

Record COutcome := mkCOutcome {
  co_Failed : bool;
  co_Code : string;
  co_ErrorID : string;
  co_Message : string;
  co_Progress : Progress;
  co_Token : string;
  co_TokenExpiresAt : Z }.
Definition no_outcome : COutcome := mkCOutcome false "" "" "" no_progress "" 0.

Record Record_ := mkRecord {
  r_Found : bool;
  r_Command : string;
  r_Terminal : bool;
  r_Outcome : COutcome;
  r_Progress : Progress;
  r_Answer : string;
  r_Fencing : string;
  r_LeaseHolder : string;
  r_LeaseTTL : Z }.
Definition no_record : Record_ := mkRecord false "" false no_outcome no_progress "" "" "" 0.

Definition Alive (r : Record_) : bool :=
  negb (r_Terminal r) && negb (bool_decide (r_Fencing r = "")) && bool_decide (r_Fencing r = r_LeaseHolder r).

Record Acceptance := mkAcceptance { ac_Keys : Keys; ac_Command : string; ac_Fencing : string; ac_LeaseTTL : Z }.

Record Accepted := mkAccepted {
  ad_OK : bool;
  ad_Existing : Record_;
  ad_TokenMissing : bool;
  ad_SweepBusy : bool;
  ad_LeaseTTL : Z;
  ad_Token : string }.

Record BatchArg := mkBatchArg { ba_Keys : Keys; ba_Fencing : string; ba_Delete : list string; ba_Progress : Progress }.
Record CommitArg := mkCommitArg { cm_Keys : Keys; cm_Fencing : string; cm_Outcome : COutcome }.
Record FinalizeArg := mkFinalizeArg { fi_Keys : Keys; fi_Outcome : COutcome }.
Record Addressed := mkAddressed {
  a_Record : string; a_Command : string; a_Delete : list string; a_DryRun : bool; a_Answer : string }.
Record AddressedOutcome := mkAddressedOutcome {
  ao_Replayed : bool; ao_Command : string; ao_Count : Z; ao_Answer : string }.

Record rentry := mkREntry {
  re_command : string;
  re_fencing : string;
  re_terminal : bool;
  re_progress : Progress;
  re_outcome : COutcome;
  re_answer : string;
  re_expiresAt : Z }.

Record lease := mkLease { l_value : string; l_expiresAt : Z }.
Record document := mkDocument { d_value : string; d_expiresAt : Z }.

Record MemoryRecords := mkMem {
  mm_counters : gmap string entry;
  mm_records : gmap string rentry;
  mm_leases : gmap string lease;
  mm_documents : gmap string document }.

Definition NewMemory (store : gmap string entry) : MemoryRecords := mkMem store ∅ ∅ ∅.

Definition with_counters (c : gmap string entry) (m : MemoryRecords) : MemoryRecords :=
  mkMem c (mm_records m) (mm_leases m) (mm_documents m).
Definition set_record (k : string) (e : rentry) (m : MemoryRecords) : MemoryRecords :=
  mkMem (mm_counters m) (<[k := e]> (mm_records m)) (mm_leases m) (mm_documents m).
Definition set_lease (k : string) (l : lease) (m : MemoryRecords) : MemoryRecords :=
  mkMem (mm_counters m) (mm_records m) (<[k := l]> (mm_leases m)) (mm_documents m).
Definition drop_lease (k : string) (m : MemoryRecords) : MemoryRecords :=
  mkMem (mm_counters m) (mm_records m) (delete k (mm_leases m)) (mm_documents m).
Definition drop_document (k : string) (m : MemoryRecords) : MemoryRecords :=
  mkMem (mm_counters m) (mm_records m) (mm_leases m) (delete k (mm_documents m)).

(** [record]: an expired entry is removed and absent. *)
Definition record (now : Z) (key : string) (m : MemoryRecords) : MemoryRecords * option rentry :=
  match mm_records m !! key with
  | None => (m, None)
  | Some held =>
      if negb (now <? re_expiresAt held)
      then (mkMem (mm_counters m) (delete key (mm_records m)) (mm_leases m) (mm_documents m), None)
      else (m, Some held)
  end.

Definition lease_of (now : Z) (key : string) (m : MemoryRecords) : option lease :=
  match mm_leases m !! key with
  | Some held => if negb (now <? l_expiresAt held) then None else Some held
  | None => None
  end.

Definition document_of (now : Z) (key : string) (m : MemoryRecords) : option document :=
  match mm_documents m !! key with
  | Some held => if negb (now <? d_expiresAt held) then None else Some held
  | None => None
  end.

Definition owns (now : Z) (key fencing : string) (m : MemoryRecords) : bool :=
  match lease_of now key m with Some held => bool_decide (l_value held = fencing) | None => false end.

Definition read (now : Z) (keys : Keys) (m : MemoryRecords) : MemoryRecords * Record_ :=
  match record now (k_Record keys) m with
  | (m, None) => (m, no_record)
  | (m, Some e) =>
      let '(holder, ttl) := match lease_of now (k_Lease keys) m with
                            | Some held => (l_value held, l_expiresAt held - now)
                            | None => ("", 0)
                            end in
      (m, mkRecord true (re_command e) (re_terminal e) (re_outcome e) (re_progress e) (re_answer e)
            (re_fencing e) holder ttl)
  end.

Definition Lookup (now : Z) (keys : Keys) (m : MemoryRecords) : MemoryRecords * Record_ := read now keys m.

Definition Accept (now : Z) (a : Acceptance) (m : MemoryRecords) : MemoryRecords * Accepted :=
  let keys := ac_Keys a in
  match record now (k_Record keys) m with
  | (m, Some _) =>
      let '(m, existing) := read now keys m in (m, mkAccepted false existing false false 0 "")
  | (m, None) =>
      match lease_of now (k_Lease keys) m with
      | Some held => (m, mkAccepted false no_record false true (l_expiresAt held - now) "")
      | None =>
          let bind m token :=
            let m := set_record (k_Record keys)
                       (mkREntry (ac_Command a) (ac_Fencing a) false no_progress no_outcome "" (now + Retention)) m in
            let m := set_lease (k_Lease keys) (mkLease (ac_Fencing a) (now + ac_LeaseTTL a)) m in
            (m, mkAccepted true no_record false false 0 token) in
          if negb (bool_decide (k_Token keys = "")) then
            match document_of now (k_Token keys) m with
            | None => (m, mkAccepted false no_record true false 0 "")
            | Some held => bind (drop_document (k_Token keys) m) (d_value held)
            end
          else bind m ""
      end
  end.

Inductive RecordsError := ErrLeaseLost | ErrCounters (e : StoreError).

Definition Batch (now : Z) (b : BatchArg) (m : MemoryRecords) : MemoryRecords * option RecordsError :=
  if negb (owns now (k_Lease (ba_Keys b)) (ba_Fencing b) m) then (m, Some ErrLeaseLost)
  else match record now (k_Record (ba_Keys b)) m with
       | (m, None) => (m, Some ErrLeaseLost)
       | (m, Some e) =>
           let m := if (0 <? length (ba_Delete b))%nat
                    then with_counters (Memory.Reset (ba_Delete b) (mm_counters m)) m else m in
           (set_record (k_Record (ba_Keys b))
              (mkREntry (re_command e) (re_fencing e) (re_terminal e) (ba_Progress b) (re_outcome e)
                 (re_answer e) (re_expiresAt e)) m, None)
       end.

Definition Commit (now : Z) (c : CommitArg) (m : MemoryRecords) : MemoryRecords * option RecordsError :=
  if negb (owns now (k_Lease (cm_Keys c)) (cm_Fencing c) m) then (m, Some ErrLeaseLost)
  else match record now (k_Record (cm_Keys c)) m with
       | (m, None) => (m, Some ErrLeaseLost)
       | (m, Some e) =>
           let m := set_record (k_Record (cm_Keys c))
                      (mkREntry (re_command e) (re_fencing e) true (co_Progress (cm_Outcome c)) (cm_Outcome c)
                         (re_answer e) (now + Retention)) m in
           (drop_lease (k_Lease (cm_Keys c)) m, None)
       end.

Definition with_progress (p : Progress) (o : COutcome) : COutcome :=
  mkCOutcome (co_Failed o) (co_Code o) (co_ErrorID o) (co_Message o) p (co_Token o) (co_TokenExpiresAt o).

Definition Finalize (now : Z) (f : FinalizeArg) (m : MemoryRecords) : MemoryRecords * Record_ :=
  match record now (k_Record (fi_Keys f)) m with
  | (m, None) => (m, no_record)
  | (m, Some e) =>
      if re_terminal e then read now (fi_Keys f) m
      else match lease_of now (k_Lease (fi_Keys f)) m with
           | Some _ => read now (fi_Keys f) m
           | None =>
               let outcome := with_progress (re_progress e) (fi_Outcome f) in
               let m := set_record (k_Record (fi_Keys f))
                          (mkREntry (re_command e) (re_fencing e) true (re_progress e) outcome
                             (re_answer e) (now + Retention)) m in
               read now (fi_Keys f) m
           end
  end.

(** [exists]: the walk of the store for one key. Microseconds for the counter
    store's own clock. *)
Fixpoint exists_loop (fuel : nat) (now : Z) (k cursor : string) (c : gmap string entry)
    : gmap string entry * result StoreError bool :=
  match fuel with
  | O => (c, Err (ErrBackend "the walk does not end"))
  | S fuel =>
      match Scan (now / 1000) k cursor 64 c with
      | (c, Err e) => (c, Err e)
      | (c, Ok (found, next)) =>
          if bool_decide (k ∈ found) then (c, Ok true)
          else if bool_decide (next = "") then (c, Ok false)
          else exists_loop fuel now k next c
      end
  end.

Fixpoint live_loop (fuel : nat) (now : Z) (keys : list string) (c : gmap string entry)
    : gmap string entry * result StoreError (list string) :=
  match keys with
  | [] => (c, Ok [])
  | k :: keys =>
      match exists_loop fuel now k "" c with
      | (c, Err e) => (c, Err e)
      | (c, Ok found) =>
          match live_loop fuel now keys c with
          | (c, Err e) => (c, Err e)
          | (c, Ok out) => (c, Ok (if found then k :: out else out))
          end
      end
  end.

(** A walk passes no key twice, so the number of keys and one is enough. *)
Definition live_keys (now : Z) (keys : list string) (c : gmap string entry) :=
  live_loop (S (size c)) now keys c.

Definition Reset (now : Z) (a : Addressed) (m : MemoryRecords)
    : MemoryRecords * result RecordsError AddressedOutcome :=
  match record now (a_Record a) m with
  | (m, Some e) => (m, Ok (mkAddressedOutcome true (re_command e) (pg_Reset (re_progress e)) (re_answer e)))
  | (m, None) =>
      match live_keys now (a_Delete a) (mm_counters m) with
      | (c, Err e) => (with_counters c m, Err (ErrCounters e))
      | (c, Ok live) =>
          let n := Z.of_nat (length live) in
          let c := if negb (a_DryRun a) && (0 <? length live)%nat then Memory.Reset live c else c in
          let m := with_counters c m in
          let m := set_record (a_Record a)
                     (mkREntry (a_Command a) "" true (mkProgress 0 0 n ∅ [] false) no_outcome (a_Answer a)
                        (now + Retention)) m in
          (m, Ok (mkAddressedOutcome false (a_Command a) n (a_Answer a)))
      end
  end.

Definition Put (now : Z) (key value : string) (ttl : Z) (m : MemoryRecords) : MemoryRecords :=
  mkMem (mm_counters m) (mm_records m) (mm_leases m) (<[key := mkDocument value (now + ttl)]> (mm_documents m)).

Definition Get (now : Z) (key : string) (m : MemoryRecords) : option string :=
  d_value <$> document_of now key m.

(** *** Traces *)

Inductive rop :=
| OLookup (keys : Keys)
| OAccept (a : Acceptance)
| OBatch (b : BatchArg)
| OCommit (c : CommitArg)
| OFinalize (f : FinalizeArg)
| OReset (a : Addressed)
| OPut (key value : string) (ttl : Z)
| OGet (key : string)
(** anything the decision path does to the counters *)
| OCounters (f : gmap string entry -> gmap string entry).

Definition rstep (now : Z) (op : rop) (m : MemoryRecords) : MemoryRecords :=
  match op with
  | OLookup keys => (Lookup now keys m).1
  | OAccept a => (Accept now a m).1
  | OBatch b => (Batch now b m).1
  | OCommit c => (Commit now c m).1
  | OFinalize f => (Finalize now f m).1
  | OReset a => (Reset now a m).1
  | OPut key value ttl => Put now key value ttl m
  | OGet _ => m
  | OCounters f => with_counters (f (mm_counters m)) m
  end.

Fixpoint rrun (ops : list (Z * rop)) (m : MemoryRecords) : MemoryRecords :=
  match ops with
  | [] => m
  | (now, op) :: ops => rrun ops (rstep now op m)
  end.

(** * What a retried command can rely on

    Recorded outcomes are final, sweeps of a domain exclude each other, an
    addressed reset happens once, a confirmation token is spent once. *)

(** ** Definitions *)

Section protocol.
(** The lease of a record's domain, and the record a fencing token was minted
    for. *)
Context (dom_lease : string -> string) (minted_for : string -> string).

(** How the command layer calls the store: the keys of a call belong together,
    a walker acts on the command its token was minted for, and a lease does not
    outlive the record. *)
Definition follows (op : rop) : Prop :=
  match op with
  | OAccept a => k_Lease (ac_Keys a) = dom_lease (k_Record (ac_Keys a)) /\
                 minted_for (ac_Fencing a) = k_Record (ac_Keys a) /\ ac_LeaseTTL a <= Retention
  | OBatch b => k_Lease (ba_Keys b) = dom_lease (k_Record (ba_Keys b)) /\ minted_for (ba_Fencing b) = k_Record (ba_Keys b)
  | OCommit c => k_Lease (cm_Keys c) = dom_lease (k_Record (cm_Keys c)) /\ minted_for (cm_Fencing c) = k_Record (cm_Keys c)
  | OFinalize f => k_Lease (fi_Keys f) = dom_lease (k_Record (fi_Keys f))
  | _ => True
  end.

(** The instants of a trace do not go back and stay before [tend]. *)
Fixpoint timed (t0 tend : Z) (ops : list (Z * rop)) : Prop :=
  match ops with
  | [] => True
  | (t, _) :: ops => t0 <= t < tend /\ timed t tend ops
  end.

(** A lease that is held belongs to a command that is accepted, unfinished and
    recorded for at least as long. *)
Definition lease_backed (now : Z) (m : MemoryRecords) : Prop :=
  forall lk l, mm_leases m !! lk = Some l ->
    dom_lease (minted_for (l_value l)) = lk /\
    (now < l_expiresAt l -> exists e, mm_records m !! minted_for (l_value l) = Some e /\
       re_fencing e = l_value l /\ re_terminal e = false /\ l_expiresAt l <= re_expiresAt e).

(** ** Invariant *)

Lemma lease_backed_later t0 t m : t0 <= t -> lease_backed t0 m -> lease_backed t m.
Proof. intros Ht H lk l Hl. destruct (H lk l Hl) as [Hd He]. split; [done|]. intros. apply He. lia. Qed.

Lemma record_cases now key m :
  (exists e, mm_records m !! key = Some e /\ now < re_expiresAt e /\ record now key m = (m, Some e)) \/
  ((forall e, mm_records m !! key = Some e -> re_expiresAt e <= now) /\
   exists rs, record now key m = (mkMem (mm_counters m) rs (mm_leases m) (mm_documents m), None) /\
     rs !! key = None /\ forall k, k <> key -> rs !! k = mm_records m !! k).
Proof.
  unfold record. destruct (mm_records m !! key) as [e|] eqn:E.
  - destruct (Z.ltb_spec now (re_expiresAt e)); cbn [negb].
    + left. by exists e.
    + right. split; [by intros ? [= <-]|]. eexists. split; [done|]. split; [apply lookup_delete_eq|].
      intros. by rewrite lookup_delete_ne.
  - right. split; [done|]. exists (mm_records m). split; [by destruct m|done].
Qed.

Lemma lease_of_None now key m l : lease_of now key m = None -> mm_leases m !! key = Some l -> l_expiresAt l <= now.
Proof. unfold lease_of. intros H E. rewrite E in H. destruct (Z.ltb_spec now (l_expiresAt l)); [done|lia]. Qed.

Lemma owns_lease now key f m :
  owns now key f m = true -> exists l, mm_leases m !! key = Some l /\ l_value l = f /\ now < l_expiresAt l.
Proof.
  unfold owns, lease_of. destruct (mm_leases m !! key) as [l|]; [|done].
  destruct (Z.ltb_spec now (l_expiresAt l)); [|done]. cbn [negb]. intros ?%bool_decide_eq_true. by exists l.
Qed.

(** Changing records that back no held lease keeps the invariant. *)
Lemma lease_backed_records now m c rs ds key :
  lease_backed now m ->
  (forall k, k <> key -> rs !! k = mm_records m !! k) ->
  (forall lk l, mm_leases m !! lk = Some l -> now < l_expiresAt l -> minted_for (l_value l) = key ->
     forall e, mm_records m !! key = Some e -> re_terminal e = false -> l_expiresAt l <= re_expiresAt e ->
     exists e', rs !! key = Some e' /\ re_fencing e' = re_fencing e /\ re_terminal e' = false /\
       re_expiresAt e' = re_expiresAt e) ->
  lease_backed now (mkMem c rs (mm_leases m) ds).
Proof.
  intros Hi Ho Hk lk l Hl. simpl in Hl. destruct (Hi lk l Hl) as [Hd He]. split; [done|]. intros Hn. simpl.
  destruct (He Hn) as (e & Hr & Hf & Ht & Hx). destruct (decide (minted_for (l_value l) = key)) as [E|E].
  - rewrite E in *. destruct (Hk lk l Hl Hn E e Hr Ht Hx) as (e' & ? & ? & ? & ?). exists e'. split_and!; [done|congruence|done|lia].
  - rewrite Ho by done. by exists e.
Qed.

Lemma record_backed now key m m' r : record now key m = (m', r) -> lease_backed now m -> lease_backed now m'.
Proof.
  intros Hr Hi. destruct (record_cases now key m) as [(e & _ & _ & E)|(Hx & rs & E & Hn & Ho)]; rewrite E in Hr;
    injection Hr as <- _; [done|].
  apply lease_backed_records with (key := key); [done|done|]. intros lk l Hl Hlt Hk e He Ht Hex.
  specialize (Hx e He). lia.
Qed.

Lemma read_backed now keys m : lease_backed now m -> lease_backed now (read now keys m).1.
Proof.
  intros Hi. unfold read. destruct (record now (k_Record keys) m) as [m' r] eqn:E.
  pose proof (record_backed _ _ _ _ _ E Hi). destruct r; [|done]. by destruct (lease_of _ _ _).
Qed.

(** A command bound on a domain whose lease is free. *)
Lemma bind_backed now rk f cmd ttl m ds :
  lease_backed now m -> minted_for f = rk -> ttl <= Retention -> lease_of now (dom_lease rk) m = None ->
  lease_backed now (mkMem (mm_counters m)
    (<[rk := mkREntry cmd f false no_progress no_outcome "" (now + Retention)]> (mm_records m))
    (<[dom_lease rk := mkLease f (now + ttl)]> (mm_leases m)) ds).
Proof.
  intros Hi Hf Ht Hl lk l Hlk. simpl in *. destruct (decide (lk = dom_lease rk)) as [->|Hne].
  - rewrite lookup_insert_eq in Hlk. injection Hlk as <-. simpl. rewrite Hf. split; [done|]. intros _.
    rewrite lookup_insert_eq. eexists. split; [done|]. simpl. split_and!; try done. lia.
  - rewrite lookup_insert_ne in Hlk by done. destruct (Hi lk l Hlk) as [Hd He]. split; [done|]. intros Hn.
    rewrite lookup_insert_ne; [by apply He|]. intros E. by rewrite <- E in Hd.
Qed.

Lemma rstep_backed now op m : follows op -> lease_backed now m -> lease_backed now (rstep now op m).
Proof.
  intros Hf Hi. destruct op as [keys|a|b|c|f|a|k v ttl|k|f]; cbn [rstep follows] in *.
  - by apply read_backed.
  - destruct Hf as (Hlk & Hmi & Httl). unfold Accept.
    destruct (record now (k_Record (ac_Keys a)) m) as [m1 [e|]] eqn:E; pose proof (record_backed _ _ _ _ _ E Hi) as Hi1.
    { pose proof (read_backed now (ac_Keys a) m1 Hi1). by destruct (read now (ac_Keys a) m1). }
    destruct (lease_of now (k_Lease (ac_Keys a)) m1) eqn:El; [done|].
    rewrite Hlk in *. destruct (negb (bool_decide (k_Token (ac_Keys a) = ""))).
    + destruct (document_of now (k_Token (ac_Keys a)) m1); [|done].
      by apply (bind_backed now (k_Record (ac_Keys a)) (ac_Fencing a) (ac_Command a) (ac_LeaseTTL a) m1).
    + by apply (bind_backed now (k_Record (ac_Keys a)) (ac_Fencing a) (ac_Command a) (ac_LeaseTTL a) m1).
  - destruct Hf as (Hlk & Hmi). unfold Batch. destruct (negb (owns _ _ _ _)); [done|].
    destruct (record now (k_Record (ba_Keys b)) m) as [m1 r] eqn:E; pose proof (record_backed _ _ _ _ _ E Hi) as Hi1.
    destruct (record_cases now (k_Record (ba_Keys b)) m) as [(e & He & _ & E')|(_ & rs & E' & _)]; rewrite E in E';
      [|by injection E' as -> ->]. injection E' as -> ->. simpl. unfold set_record.
    assert (forall c, lease_backed now (mkMem c (<[k_Record (ba_Keys b) := mkREntry (re_command e) (re_fencing e)
      (re_terminal e) (ba_Progress b) (re_outcome e) (re_answer e) (re_expiresAt e)]> (mm_records m)) (mm_leases m)
      (mm_documents m))) as Hb; [|by destruct (_ <? _)%nat; apply Hb].
    intros c. apply lease_backed_records with (key := k_Record (ba_Keys b)); [done|intros; by rewrite lookup_insert_ne|].
    intros lk l _ _ _ e' He' Ht _. rewrite lookup_insert_eq. rewrite He in He'. injection He' as <-.
    eexists. split; [done|]. done.
  - destruct Hf as (Hlk & Hmi). unfold Commit. destruct (negb (owns _ _ _ _)); [done|].
    destruct (record now (k_Record (cm_Keys c)) m) as [m1 [e|]] eqn:E; pose proof (record_backed _ _ _ _ _ E Hi) as Hi1;
      [|done]. simpl. intros lk l Hl. simpl in Hl. apply lookup_delete_Some in Hl as [Hne Hl].
    destruct (Hi1 lk l Hl) as [Hd He]. split; [done|]. intros Hn. simpl. rewrite lookup_insert_ne; [by apply He|].
    intros E2. rewrite <- E2, <- Hlk in Hd. done.
  - unfold Finalize.
    destruct (record now (k_Record (fi_Keys f)) m) as [m1 [e|]] eqn:E; pose proof (record_backed _ _ _ _ _ E Hi) as Hi1;
      [|done]. destruct (re_terminal e); [by apply read_backed|].
    destruct (lease_of now (k_Lease (fi_Keys f)) m1) eqn:El; [by apply read_backed|]. apply read_backed.
    apply (lease_backed_records now m1) with (key := k_Record (fi_Keys f)); [done|intros; by rewrite lookup_insert_ne|].
    intros lk l Hl Hlt Hk. destruct (Hi1 lk l Hl) as [Hd _]. rewrite Hk, <- Hf in Hd. subst lk.
    pose proof (lease_of_None _ _ _ _ El Hl). lia.
  - unfold Reset.
    destruct (record now (a_Record a) m) as [m1 [e|]] eqn:E; pose proof (record_backed _ _ _ _ _ E Hi) as Hi1; [done|].
    destruct (live_keys now (a_Delete a) (mm_counters m1)) as [cc [live|err]]; [|by destruct m1].
    apply (lease_backed_records now m1) with (key := a_Record a); [done|intros; by rewrite lookup_insert_ne|].
    intros lk l Hl Hlt Hk e He. exfalso.
    destruct (record_cases now (a_Record a) m) as [(e' & _ & _ & E')|(_ & rs & E' & Hno & _)]; rewrite E in E'; [done|].
    injection E' as ->. simpl in He. congruence.
  - by destruct m.
  - done.
  - by destruct m.
Qed.

(** ** A recorded outcome is final *)

Lemma record_keeps now key rk m e :
  mm_records m !! rk = Some e -> now < re_expiresAt e -> mm_records (record now key m).1 !! rk = Some e.
Proof.
  intros He Hn. destruct (record_cases now key m) as [(e' & _ & _ & ->)|(Hx & rs & -> & _ & Ho)]; [done|]. simpl.
  destruct (decide (rk = key)) as [->|Hne]; [specialize (Hx e He); lia|]. by rewrite Ho.
Qed.

Lemma record_found now rk m e :
  mm_records m !! rk = Some e -> now < re_expiresAt e -> record now rk m = (m, Some e).
Proof. intros He Hn. unfold record. rewrite He. by rewrite (proj2 (Z.ltb_lt _ _)) by done. Qed.

Lemma read_keeps now keys rk m e :
  mm_records m !! rk = Some e -> now < re_expiresAt e -> mm_records (read now keys m).1 !! rk = Some e.
Proof.
  intros He Hn. unfold read. pose proof (record_keeps now (k_Record keys) rk m e He Hn) as Hk.
  destruct (record now (k_Record keys) m) as [m1 [e1|]]; [|done]. by destruct (lease_of _ _ _).
Qed.

Lemma terminal_not_owned now rk f m e :
  lease_backed now m -> mm_records m !! rk = Some e -> re_terminal e = true -> minted_for f = rk ->
  owns now (dom_lease rk) f m = false.
Proof.
  intros Hi He Ht Hf. destruct (owns now (dom_lease rk) f m) eqn:Ho; [|done].
  destruct (owns_lease _ _ _ _ Ho) as (l & Hl & Hv & Hn). destruct (Hi _ l Hl) as [_ Hb].
  destruct (Hb Hn) as (e' & He' & _ & Ht' & _). rewrite Hv, Hf in He'. congruence.
Qed.

Lemma rstep_terminal now op m rk e :
  follows op -> lease_backed now m -> mm_records m !! rk = Some e -> re_terminal e = true -> now < re_expiresAt e ->
  mm_records (rstep now op m) !! rk = Some e.
Proof.
  intros Hf Hi He Ht Hn. destruct op as [keys|a|b|c|f|a|k v ttl|k|f]; cbn [rstep follows] in *; try done.
  - by apply read_keeps.
  - unfold Accept. pose proof (record_keeps now (k_Record (ac_Keys a)) rk m e He Hn) as Hk.
    destruct (decide (k_Record (ac_Keys a) = rk)) as [E|E].
    { rewrite E, (record_found now rk m e He Hn) in *. pose proof (read_keeps now (ac_Keys a) rk m e He Hn) as Hr.
      by destruct (read now (ac_Keys a) m). }
    destruct (record now (k_Record (ac_Keys a)) m) as [m1 [e1|]]; simpl in Hk.
    { pose proof (read_keeps now (ac_Keys a) rk m1 e Hk Hn). by destruct (read now (ac_Keys a) m1). }
    destruct (lease_of _ _ _); [done|].
    destruct (negb _); [destruct (document_of _ _ _); [|done]|]; simpl; by rewrite lookup_insert_ne.
  - destruct Hf as [Hlk Hmi]. unfold Batch. destruct (decide (k_Record (ba_Keys b) = rk)) as [E|E].
    { rewrite Hlk, E, (terminal_not_owned now rk (ba_Fencing b) m e) by (done || congruence). done. }
    destruct (negb _); [done|]. pose proof (record_keeps now (k_Record (ba_Keys b)) rk m e He Hn) as Hk.
    destruct (record now (k_Record (ba_Keys b)) m) as [m1 [e1|]]; [|done]. simpl in *.
    destruct (_ <? _)%nat; simpl; by rewrite lookup_insert_ne.
  - destruct Hf as [Hlk Hmi]. unfold Commit. destruct (decide (k_Record (cm_Keys c) = rk)) as [E|E].
    { rewrite Hlk, E, (terminal_not_owned now rk (cm_Fencing c) m e) by (done || congruence). done. }
    destruct (negb _); [done|]. pose proof (record_keeps now (k_Record (cm_Keys c)) rk m e He Hn) as Hk.
    destruct (record now (k_Record (cm_Keys c)) m) as [m1 [e1|]]; [|done]. simpl in *. by rewrite lookup_insert_ne.
  - unfold Finalize. destruct (decide (k_Record (fi_Keys f) = rk)) as [E|E].
    { rewrite E, (record_found now rk m e He Hn), Ht. by apply read_keeps. }
    pose proof (record_keeps now (k_Record (fi_Keys f)) rk m e He Hn) as Hk.
    destruct (record now (k_Record (fi_Keys f)) m) as [m1 [e1|]]; [|done]. simpl in Hk.
    destruct (re_terminal e1); [by apply read_keeps|]. destruct (lease_of _ _ _); [by apply read_keeps|].
    apply read_keeps; [|done]. simpl. by rewrite lookup_insert_ne.
  - unfold Reset. destruct (decide (a_Record a = rk)) as [E|E].
    { by rewrite E, (record_found now rk m e He Hn). }
    pose proof (record_keeps now (a_Record a) rk m e He Hn) as Hk.
    destruct (record now (a_Record a) m) as [m1 [e1|]]; [done|]. simpl in Hk.
    destruct (live_keys _ _ _) as [cc [live|err]]; [|done]. simpl. by rewrite lookup_insert_ne.
Qed.

Lemma rrun_terminal ops : forall t0 m rk e,
  Forall (fun x => follows x.2) ops -> timed t0 (re_expiresAt e) ops -> lease_backed t0 m ->
  mm_records m !! rk = Some e -> re_terminal e = true ->
  mm_records (rrun ops m) !! rk = Some e.
Proof.
  induction ops as [|[t op] ops IH]; intros t0 m rk e Hf Ht Hi He Hte; [done|].
  apply Forall_cons in Hf as [Hfo Hf]. destruct Ht as [Ht0 Ht]. simpl in Hfo.
  pose proof (lease_backed_later t0 t m ltac:(lia) Hi) as Hi'.
  cbn [rrun]. eapply IH; [done|exact Ht|by apply rstep_backed| |done]. apply rstep_terminal; try done. lia.
Qed.

End protocol.
