(* ===== verification/RecordsClaims.v ===== *)
(** * Commands: claims

    The promises of the record store to the management commands that use it. *)
From S2P Require Import Prelude GoStrings Algo StoreApi Memory MemoryScan Records.

(** ** Definitions *)

(** A counter that exists at an instant. *)
Definition counted (now : Z) (c : gmap string entry) (k : string) : bool :=
  match c !! k with Some e => now / 1000 <? e_deadline e | None => false end.

Definition swept (us : Z) (c : gmap string entry) : gmap string entry :=
  filter (fun ke : string * entry => us < e_deadline ke.2) c.

(** What a step says to a sweep of the lease [lk] other than [f]'s. *)
Definition shut_out (lk f : string) (t : Z) (op : rop) (m : MemoryRecords) : Prop :=
  match op with
  | OBatch b => k_Lease (ba_Keys b) = lk -> ba_Fencing b <> f -> Batch t b m = (m, Some ErrLeaseLost)
  | OCommit c => k_Lease (cm_Keys c) = lk -> cm_Fencing c <> f -> Commit t c m = (m, Some ErrLeaseLost)
  | OAccept a => k_Lease (ac_Keys a) = lk -> ad_OK (Accept t a m).2 = false
  | _ => True
  end.

(** ** Walking for the live keys *)

Lemma Scan_state us p cur limit c : 1 <= limit -> (Scan us p cur limit c).1 = swept us c.
Proof. intros. unfold Scan. rewrite (proj2 (Z.ltb_ge limit 1)) by lia. by destruct (_ <=? limit). Qed.

Lemma swept_idem us c : swept us (swept us c) = swept us c.
Proof. unfold swept. rewrite map_filter_filter. apply map_filter_ext. naive_solver. Qed.

Lemma live_swept p us c k : live p us (swept us c) k <-> live p us c k.
Proof.
  unfold live, swept. setoid_rewrite map_lookup_filter_Some. naive_solver.
Qed.

Lemma counted_live now c k : counted now c k = true <-> live k (now / 1000) c k.
Proof.
  unfold counted, live. split.
  - destruct (c !! k) as [e|]; [|done]. intros ?%Z.ltb_lt. split; [|by exists e].
    unfold HasPrefix. clear. induction k as [|a k IH]; [done|]. simpl. destruct (Ascii.ascii_dec a a); done.
  - intros [_ (e & -> & He)]. by apply Z.ltb_lt.
Qed.

Lemma counted_swept now c k : counted now (swept (now / 1000) c) k = counted now c k.
Proof. apply eq_true_iff_eq. rewrite !counted_live. apply live_swept. Qed.

Lemma counted_before now t c k : now <= t -> counted t c k = true -> counted now c k = true.
Proof.
  unfold counted. destruct (c !! k) as [e|]; [|done]. intros Ht H%Z.ltb_lt. apply Z.ltb_lt.
  pose proof (Z.div_le_mono now t 1000). lia.
Qed.

Lemma counted_swept_later now t c k : now <= t -> counted t (swept (now / 1000) c) k = counted t c k.
Proof.
  intros Ht. unfold counted, swept. rewrite map_lookup_filter. destruct (c !! k) as [e|]; [|done]. cbn.
  pose proof (Z.div_le_mono now t 1000). case_guard; [done|]. cbn. symmetry. apply Z.ltb_ge. cbn in *. lia.
Qed.

Lemma exists_loop_ok now k U fuel : forall cursor c,
  (forall x e, c !! x = Some e -> x ∈ U) -> swept (now / 1000) c = c ->
  (length (filter (fun x => str_ltb cursor x = true) U) < fuel)%nat -> str_lt cursor k \/ counted now c k = false ->
  exists_loop fuel now k cursor c = (c, Ok (counted now c k)).
Proof.
  induction fuel as [|fuel IH]; intros cursor c HU Hs Hf Hc; [lia|]. cbn [exists_loop].
  destruct (scan_step k cursor 64 (now / 1000) c ltac:(lia)) as (keys & next & Hr & _ & Hk & Hn & Hall).
  pose proof (Scan_state (now / 1000) k cursor 64 c ltac:(lia)) as Hst.
  destruct (Scan (now / 1000) k cursor 64 c) as [c' r]. simpl in Hr, Hst. subst r c'. rewrite Hs.
  case_bool_decide as Hin.
  { destruct (Hk k Hin) as [Hl _]. by rewrite (proj2 (counted_live now c k) Hl). }
  assert (counted now c k = true -> next <> "" /\ str_lt next k) as Hcl.
  { intros Hct. pose proof Hct as Hl. apply counted_live in Hl. destruct Hc as [Hc|Hc]; [|congruence].
    destruct (Hall k Hl Hc); done. }
  case_bool_decide as Hne.
  { destruct (counted now c k); [|done]. by destruct (Hcl eq_refl). }
  destruct (Hn Hne) as [Hni _]. destruct (Hk next Hni) as [(_ & e & He & _) Hcn]. apply IH; [done|done| |].
  - apply Nat.lt_le_trans with (length (filter (fun x => str_ltb cursor x = true) U)); [|lia].
    apply filter_shrinks with next; [|by eapply HU|done|apply str_ltb_irrefl]. intros y Hy. by eapply str_ltb_trans.
  - destruct (counted now c k); [|by right]. left. by apply Hcl.
Qed.

(** The first scan sweeps; from then on the store does not change. *)
Lemma exists_loop_swept fuel now k cursor c :
  fuel <> O -> exists_loop fuel now k cursor c = exists_loop fuel now k cursor (swept (now / 1000) c).
Proof.
  intros Hf. destruct fuel as [|fuel]; [done|]. cbn [exists_loop].
  assert (Scan (now / 1000) k cursor 64 c = Scan (now / 1000) k cursor 64 (swept (now / 1000) c)) as ->; [|done].
  unfold Scan. cbn [Z.ltb Z.compare]. by fold (swept (now / 1000) c) (swept (now / 1000) (swept (now / 1000) c)); rewrite swept_idem.
Qed.

Lemma live_loop_ok now keys fuel : forall c,
  "" ∉ keys -> (size c < fuel)%nat ->
  live_loop fuel now keys c = (if bool_decide (keys = []) then c else swept (now / 1000) c, Ok (filter (fun k => counted now c k = true) keys)).
Proof.
  induction keys as [|k keys IH]; intros c Hne Hf; [done|]. apply not_elem_of_cons in Hne as [Hk Hne].
  cbn [live_loop]. rewrite exists_loop_swept by lia. set (c' := swept (now / 1000) c).
  assert (size c' <= size c)%nat as Hsz by (apply map_size_filter).
  rewrite (exists_loop_ok now k (map_to_list c').*1).
  2:{ intros x e Hx. apply list_elem_of_fmap. exists (x, e). split; [done|]. by apply elem_of_map_to_list. }
  2:{ apply swept_idem. }
  2:{ pose proof (length_filter (fun x => str_ltb "" x = true) (map_to_list c').*1) as Hl.
      rewrite length_fmap, length_map_to_list in Hl. lia. }
  2:{ left. by destruct k. }
  rewrite IH by (done || lia). rewrite (bool_decide_false (k :: keys = [])) by done.
  assert ((if bool_decide (keys = []) then c' else swept (now / 1000) c') = c') as ->
    by (case_bool_decide; [done|apply swept_idem]).
  f_equal. f_equal. rewrite filter_cons. unfold c' at 1. rewrite counted_swept.
  assert (filter (fun x => counted now c' x = true) keys = filter (fun x => counted now c x = true) keys) as ->.
  { apply list_filter_iff. intros x. unfold c'. by rewrite counted_swept. }
  destruct (counted now c k) eqn:E; [by rewrite decide_True|by rewrite decide_False].
Qed.

(** ** Leases *)

Lemma record_leases now key m : mm_leases (record now key m).1 = mm_leases m.
Proof. unfold record. destruct (mm_records m !! key); [|done]. by destruct (negb _). Qed.

Lemma read_leases now keys m : mm_leases (read now keys m).1 = mm_leases m.
Proof.
  unfold read. pose proof (record_leases now (k_Record keys) m) as H.
  destruct (record now (k_Record keys) m) as [m1 [e|]]; [|done]. by destruct (lease_of _ _ _).
Qed.

(** A lease is only ever written by an acceptance. *)
Lemma rstep_leases now op m lk l :
  mm_leases (rstep now op m) !! lk = Some l ->
  mm_leases m !! lk = Some l \/ exists a, op = OAccept a /\ l_value l = ac_Fencing a.
Proof.
  destruct op as [keys|a|b|c|f|a|k v ttl|k|f]; cbn [rstep]; try by left.
  - unfold Lookup. rewrite read_leases. by left.
  - unfold Accept. pose proof (record_leases now (k_Record (ac_Keys a)) m) as H.
    destruct (record now (k_Record (ac_Keys a)) m) as [m1 [e|]]; simpl in H.
    { pose proof (read_leases now (ac_Keys a) m1) as Hr. destruct (read now (ac_Keys a) m1). simpl in *.
      rewrite Hr, H. by left. }
    destruct (lease_of _ _ _); [rewrite <- H; by left|].
    assert (<[k_Lease (ac_Keys a) := mkLease (ac_Fencing a) (now + ac_LeaseTTL a)]> (mm_leases m1) !! lk = Some l ->
      mm_leases m !! lk = Some l \/ (exists a0, OAccept a = OAccept a0 /\ l_value l = ac_Fencing a0)) as Hb.
    { intros [[_ <-]|[_ Hl]]%lookup_insert_Some; [right; by exists a|left; by rewrite <- H]. }
    destruct (negb _); [destruct (document_of _ _ _)|]; simpl; [exact Hb| |exact Hb]. rewrite <- H. by left.
  - unfold Batch. destruct (negb _); [by left|]. pose proof (record_leases now (k_Record (ba_Keys b)) m) as H.
    destruct (record now (k_Record (ba_Keys b)) m) as [m1 [e|]]; simpl in *; [|rewrite H; by left].
    destruct (_ <? _)%nat; simpl; rewrite H; by left.
  - unfold Commit. destruct (negb _); [by left|]. pose proof (record_leases now (k_Record (cm_Keys c)) m) as H.
    destruct (record now (k_Record (cm_Keys c)) m) as [m1 [e|]]; simpl in *; [|rewrite H; by left].
    rewrite H. intros [_ Hl]%lookup_delete_Some. by left.
  - unfold Finalize. pose proof (record_leases now (k_Record (fi_Keys f)) m) as H.
    destruct (record now (k_Record (fi_Keys f)) m) as [m1 [e|]]; simpl in *; [|rewrite H; by left].
    destruct (re_terminal e); [rewrite read_leases, H; by left|].
    destruct (lease_of _ _ _); rewrite read_leases; simpl; rewrite H; by left.
  - unfold Reset. pose proof (record_leases now (a_Record a) m) as H.
    destruct (record now (a_Record a) m) as [m1 [e|]]; simpl in *; [rewrite H; by left|].
    destruct (live_keys _ _ _) as [cc [live|err]]; simpl; rewrite H; by left.
Qed.

(** A token that holds the lease in the end and was not accepted on the way
    held it all along. *)
Lemma lease_held_along ops : forall m lk l,
  mm_leases (rrun ops m) !! lk = Some l ->
  Forall (fun x => forall a, x.2 = OAccept a -> ac_Fencing a <> l_value l) ops ->
  forall ops1 x ops2, ops = ops1 ++ x :: ops2 -> mm_leases (rrun ops1 m) !! lk = Some l.
Proof.
  induction ops as [|[t op] ops IH]; intros m lk l Hl Hf ops1 x ops2 E; [by destruct ops1|].
  apply Forall_cons in Hf as [Hop Hf]. cbn [rrun] in Hl.
  assert (mm_leases (rstep t op m) !! lk = Some l) as Hs.
  { destruct ops as [|y ops]; [done|]. by apply (IH _ lk l Hl Hf [] y ops). }
  destruct ops1 as [|y ops1]; simplify_eq/=; [|by eapply IH].
  apply rstep_leases in Hs as [|(a & -> & Hv)]; [done|]. by destruct (Hop a eq_refl).
Qed.

Lemma owned_shuts_out lk f t op m : owns t lk f m = true -> shut_out lk f t op m.
Proof.
  intros Ho. destruct (owns_lease _ _ _ _ Ho) as (l & Hl & Hv & Ht).
  assert (forall g m', mm_leases m' = mm_leases m -> g <> f -> owns t lk g m' = false) as Hg.
  { intros g m' Hm Hg. unfold owns, lease_of. rewrite Hm, Hl, (proj2 (Z.ltb_lt _ _)) by lia. cbn [negb].
    rewrite bool_decide_false by congruence. done. }
  destruct op as [keys|a|b|c|fi|a|k v ttl|k|g]; cbn [shut_out]; try done.
  - intros Hk. unfold Accept. pose proof (record_leases t (k_Record (ac_Keys a)) m) as Hr.
    destruct (record t (k_Record (ac_Keys a)) m) as [m1 [e|]]; simpl in Hr; [by destruct (read _ _ _)|].
    unfold lease_of. rewrite Hk, Hr, Hl, (proj2 (Z.ltb_lt _ _)) by lia. done.
  - intros Hk Hne. unfold Batch. by rewrite Hk, Hg.
  - intros Hk Hne. unfold Commit. by rewrite Hk, Hg.
Qed.

(** ** Tokens *)

Lemma record_documents now key m : mm_documents (record now key m).1 = mm_documents m.
Proof. unfold record. destruct (mm_records m !! key); [|done]. by destruct (negb _). Qed.

Lemma read_documents now keys m : mm_documents (read now keys m).1 = mm_documents m.
Proof.
  unfold read. pose proof (record_documents now (k_Record keys) m) as H.
  destruct (record now (k_Record keys) m) as [m1 [e|]]; [|done]. by destruct (lease_of _ _ _).
Qed.

Lemma rstep_documents now op m k :
  (forall v ttl, op <> OPut k v ttl) -> mm_documents m !! k = None -> mm_documents (rstep now op m) !! k = None.
Proof.
  intros Hop Hd. destruct op as [keys|a|b|c|f|a|k' v ttl|k'|f]; cbn [rstep]; try done.
  - unfold Lookup. by rewrite read_documents.
  - unfold Accept. pose proof (record_documents now (k_Record (ac_Keys a)) m) as H.
    destruct (record now (k_Record (ac_Keys a)) m) as [m1 [e|]]; simpl in H.
    { pose proof (read_documents now (ac_Keys a) m1) as Hr. destruct (read now (ac_Keys a) m1). simpl in *. congruence. }
    destruct (lease_of _ _ _); [simpl; congruence|].
    destruct (negb _); [destruct (document_of _ _ _)|]; simpl; rewrite ?lookup_delete_None, H; auto.
  - unfold Batch. destruct (negb _); [done|]. pose proof (record_documents now (k_Record (ba_Keys b)) m) as H.
    destruct (record now (k_Record (ba_Keys b)) m) as [m1 [e|]]; simpl in *; [|by rewrite H].
    destruct (_ <? _)%nat; simpl; by rewrite H.
  - unfold Commit. destruct (negb _); [done|]. pose proof (record_documents now (k_Record (cm_Keys c)) m) as H.
    destruct (record now (k_Record (cm_Keys c)) m) as [m1 [e|]]; simpl in *; by rewrite H.
  - unfold Finalize. pose proof (record_documents now (k_Record (fi_Keys f)) m) as H.
    destruct (record now (k_Record (fi_Keys f)) m) as [m1 [e|]]; simpl in *; [|by rewrite H].
    destruct (re_terminal e); [by rewrite read_documents, H|].
    destruct (lease_of _ _ _); rewrite read_documents; simpl; by rewrite H.
  - unfold Reset. pose proof (record_documents now (a_Record a) m) as H.
    destruct (record now (a_Record a) m) as [m1 [e|]]; simpl in *; [by rewrite H|].
    destruct (live_keys _ _ _) as [cc [live|err]]; simpl; by rewrite H.
  - simpl. rewrite lookup_insert_ne; [done|]. intros ->. by destruct (Hop v ttl).
Qed.

Lemma rrun_documents ops : forall m k,
  Forall (fun x => forall v ttl, x.2 <> OPut k v ttl) ops -> mm_documents m !! k = None ->
  mm_documents (rrun ops m) !! k = None.
Proof.
  induction ops as [|[t op] ops IH]; intros m k Hf Hd; [done|]. apply Forall_cons in Hf as [Hop Hf].
  cbn [rrun]. apply IH; [done|]. by apply rstep_documents.
Qed.

(** ** Reachable states *)

Lemma lease_backed_New dom_lease minted_for now c : lease_backed dom_lease minted_for now (NewMemory c).
Proof. intros lk l Hl. simpl in Hl. by rewrite lookup_empty in Hl. Qed.

Lemma rrun_backed dom_lease minted_for ops : forall t0 t1 m,
  t0 <= t1 -> Forall (fun x => follows dom_lease minted_for x.2) ops -> timed t0 t1 ops ->
  lease_backed dom_lease minted_for t0 m -> lease_backed dom_lease minted_for t1 (rrun ops m).
Proof.
  induction ops as [|[t op] ops IH]; intros t0 t1 m Ht Hf Htm Hi; [by eapply lease_backed_later|].
  apply Forall_cons in Hf as [Hop Hf]. destruct Htm as [Ht0 Htm]. cbn [rrun].
  apply (IH t); [lia|done|done|]. apply rstep_backed; [done|]. eapply lease_backed_later; [|done]. lia.
Qed.

(** An unbound addressed reset: the binding it leaves, and the counters from
    then on. *)
Lemma Reset_unbound_state now a m :
  (record now (a_Record a) m).2 = None -> "" ∉ a_Delete a ->
  let n := length (filter (fun k => counted now (mm_counters m) k = true) (a_Delete a)) in
  let m1 := (record now (a_Record a) m).1 in
  exists c, Reset now a m =
      (set_record (a_Record a)
         (mkREntry (a_Command a) "" true (mkProgress 0 0 (Z.of_nat n) ∅ [] false) no_outcome (a_Answer a) (now + Retention))
         (with_counters c m1),
       Ok (mkAddressedOutcome false (a_Command a) (Z.of_nat n) (a_Answer a))) /\
    (forall t k, now <= t -> counted t c k =
       counted t (mm_counters m) k && (a_DryRun a || negb (bool_decide (k ∈ a_Delete a)))).
Proof.
  intros Hr Hne n. unfold Reset.
  assert (mm_counters (record now (a_Record a) m).1 = mm_counters m) as Hc.
  { unfold record. destruct (mm_records m !! a_Record a); [|done]. by destruct (negb _). }
  destruct (record now (a_Record a) m) as [m1 r]. simpl in Hr, Hc. subst r. unfold live_keys. cbn [fst].
  rewrite Hc, live_loop_ok by (done || lia). fold n.
  set (c' := if bool_decide (a_Delete a = []) then _ else _). set (L := filter _ (a_Delete a)).
  assert (forall t k, now <= t -> counted t c' k = counted t (mm_counters m) k) as Hcc.
  { intros t k Ht. unfold c'. case_bool_decide; [done|by apply counted_swept_later]. }
  eexists. split; [done|]. intros t k Ht. rewrite <- Hcc by done.
  destruct (a_DryRun a); cbn [negb andb orb]; [by rewrite andb_true_r|].
  assert (forall c2, counted t (Memory.Reset L c2) k = counted t c2 k && negb (bool_decide (k ∈ L))) as HR.
  { intros c2. unfold counted. rewrite Reset_lookup. case_bool_decide; [by rewrite andb_false_r|].
    by rewrite andb_true_r. }
  assert (counted t c' k && negb (bool_decide (k ∈ L)) = counted t c' k && negb (bool_decide (k ∈ a_Delete a))) as HL.
  { destruct (counted t c' k) eqn:E; [|done]. cbn [andb]. f_equal. apply bool_decide_ext. unfold L.
    rewrite Hcc in E by done. rewrite list_elem_of_filter. pose proof (counted_before now t _ _ Ht E). naive_solver. }
  change n with (length L).
  destruct (Nat.ltb_spec 0 (length L)) as [Hl|Hl]; [by rewrite HR|].
  rewrite <- HL. destruct L; [|simpl in Hl; lia]. by rewrite bool_decide_false, andb_true_r by apply not_elem_of_nil.
Qed.

Lemma Reset_unbound now a m :
  (record now (a_Record a) m).2 = None -> "" ∉ a_Delete a ->
  let n := length (filter (fun k => counted now (mm_counters m) k = true) (a_Delete a)) in
  exists m', Reset now a m = (m', Ok (mkAddressedOutcome false (a_Command a) (Z.of_nat n) (a_Answer a))) /\
    mm_records m' !! a_Record a =
      Some (mkREntry (a_Command a) "" true (mkProgress 0 0 (Z.of_nat n) ∅ [] false) no_outcome (a_Answer a) (now + Retention)) /\
    (forall k, counted now (mm_counters m') k =
       counted now (mm_counters m) k && (a_DryRun a || negb (bool_decide (k ∈ a_Delete a)))).
Proof.
  intros Hr Hne n. destruct (Reset_unbound_state now a m Hr Hne) as (c & -> & Hc). eexists. split; [done|].
  split; [apply lookup_insert_eq|]. intros k. by apply Hc.
Qed.

(** ** Claims *)

(** C30: a recorded outcome is final. In any state the commands can reach, once
    a command's record is terminal, every lookup until its retention passes
    returns the same command, outcome, progress and answer, whatever calls of
    whatever commands and replicas run in between. *)
Theorem records_outcome_final (dom_lease minted_for : string -> string) (c : gmap string entry)
    (ops0 ops : list (Z * rop)) (t0 t1 t : Z) (keys : Keys) (e : rentry) :
  Forall (fun x => follows dom_lease minted_for x.2) (ops0 ++ ops) -> t0 <= t1 -> timed t0 t1 ops0 ->
  mm_records (rrun ops0 (NewMemory c)) !! k_Record keys = Some e -> re_terminal e = true ->
  timed t1 (re_expiresAt e) ops -> t < re_expiresAt e ->
  exists holder ttl, (Lookup t keys (rrun ops (rrun ops0 (NewMemory c)))).2 =
    mkRecord true (re_command e) true (re_outcome e) (re_progress e) (re_answer e) (re_fencing e) holder ttl.
Proof.
  intros [Hf0 Hf]%Forall_app Ht Ht0 He Hte Htm Hlt.
  pose proof (rrun_backed dom_lease minted_for ops0 t0 t1 _ Ht Hf0 Ht0 (lease_backed_New _ _ _ c)) as Hi.
  pose proof (rrun_terminal dom_lease minted_for ops t1 _ _ e Hf Htm Hi He Hte) as Hr.
  unfold Lookup, read. rewrite (record_found t _ _ e Hr Hlt). rewrite Hte.
  destruct (lease_of _ _ _) as [l|]; by eexists _, _.
Qed.

(** C31: sweeps of a domain do not interleave. While a walker still holds the
    domain's lease, and its token was not accepted again, every batch and
    commit of another token that ran since was refused and changed nothing,
    and no other sweep was accepted. *)
Theorem records_sweeps_exclusive (lk f : string) (m : MemoryRecords) (ops ops1 ops2 : list (Z * rop))
    (t0 t t1 : Z) (op : rop) :
  ops = ops1 ++ (t, op) :: ops2 -> timed t0 t1 ops ->
  Forall (fun x => forall a, x.2 = OAccept a -> ac_Fencing a <> f) ops ->
  owns t1 lk f (rrun ops m) = true ->
  shut_out lk f t op (rrun ops1 m).
Proof.
  intros E Ht Hf Ho. destruct (owns_lease _ _ _ _ Ho) as (l & Hl & Hv & Hlt). rewrite <- Hv in *.
  pose proof (lease_held_along ops m lk l Hl Hf ops1 (t, op) ops2 E) as Hl1.
  assert (t < t1) as Htt.
  { subst ops. clear -Ht. revert t0 Ht. induction ops1 as [|[t' op'] ops1 IH]; intros t0; simpl; [lia|].
    intros [_ H]. by eapply IH. }
  apply owned_shuts_out. unfold owns, lease_of. rewrite Hl1, (proj2 (Z.ltb_lt _ _)) by lia. by apply bool_decide_eq_true.
Qed.

(** An addressed reset happens once. On an unbound key it removes exactly
    the addressed counters that exist, unless it is a preview, and counts
    them; every later call under the same key within the retention, whatever
    it addresses and whatever ran in between, answers with the first call's
    command, count and answer and touches nothing. *)
Theorem records_reset_once (dom_lease minted_for : string -> string) (c : gmap string entry)
    (ops0 ops : list (Z * rop)) (t0 t1 t : Z) (a a' : Addressed) :
  Forall (fun x => follows dom_lease minted_for x.2) (ops0 ++ ops) -> t0 <= t1 -> timed t0 t1 ops0 ->
  let m := rrun ops0 (NewMemory c) in
  (record t1 (a_Record a) m).2 = None -> "" ∉ a_Delete a -> a_Record a' = a_Record a ->
  timed t1 (t1 + Retention) ops -> t < t1 + Retention ->
  let n := Z.of_nat (length (filter (fun k => counted t1 (mm_counters m) k = true) (a_Delete a))) in
  exists m', Reset t1 a m = (m', Ok (mkAddressedOutcome false (a_Command a) n (a_Answer a))) /\
    (forall k, counted t1 (mm_counters m') k =
       counted t1 (mm_counters m) k && (a_DryRun a || negb (bool_decide (k ∈ a_Delete a)))) /\
    Reset t a' (rrun ops m') = (rrun ops m', Ok (mkAddressedOutcome true (a_Command a) n (a_Answer a))).
Proof.
  intros [Hf0 Hf]%Forall_app Ht Ht0 m Hr Hne Ha Htm Hlt n.
  destruct (Reset_unbound t1 a m Hr Hne) as (m' & HR & Hrec & Hcnt). exists m'. split_and!; [done|done|].
  pose proof (rrun_backed dom_lease minted_for ops0 t0 t1 _ Ht Hf0 Ht0 (lease_backed_New _ _ _ c)) as Hi.
  assert (lease_backed dom_lease minted_for t1 m') as Hi'.
  { pose proof (rstep_backed dom_lease minted_for t1 (OReset a) m I Hi) as Hb. simpl in Hb. by rewrite HR in Hb. }
  match type of Hrec with _ = Some ?e =>
    pose proof (rrun_terminal dom_lease minted_for ops t1 m' _ e Hf Htm Hi' Hrec eq_refl) as Hfin end.
  unfold Reset. rewrite Ha. by rewrite (record_found t _ _ _ Hfin) by (simpl; lia).
Qed.

(** A confirmation token authorizes one command. After an acceptance that
    consumed it, no acceptance with the same token succeeds again unless the
    token is stored anew. *)
Theorem records_token_single_use (t t' : Z) (a a' : Acceptance) (m m' : MemoryRecords) (ad : Accepted)
    (ops : list (Z * rop)) :
  Accept t a m = (m', ad) -> ad_OK ad = true -> k_Token (ac_Keys a) <> "" ->
  k_Token (ac_Keys a') = k_Token (ac_Keys a) ->
  Forall (fun x => forall v ttl, x.2 <> OPut (k_Token (ac_Keys a)) v ttl) ops ->
  ad_OK (Accept t' a' (rrun ops m')).2 = false.
Proof.
  intros HA Hok Hne Htok Hops.
  assert (mm_documents m' !! k_Token (ac_Keys a) = None) as Hd.
  { unfold Accept in HA. destruct (record t (k_Record (ac_Keys a)) m) as [m1 [e|]].
    { destruct (read t (ac_Keys a) m1). by simplify_eq. }
    destruct (lease_of _ _ _); [by simplify_eq|]. rewrite bool_decide_false in HA by done. cbn [negb] in HA.
    destruct (document_of _ _ _); [|by simplify_eq]. simplify_eq. simpl. apply lookup_delete_eq. }
  pose proof (rrun_documents ops m' _ Hops Hd) as Hd'. unfold Accept.
  pose proof (record_documents t' (k_Record (ac_Keys a')) (rrun ops m')) as Hr.
  destruct (record t' (k_Record (ac_Keys a')) (rrun ops m')) as [m2 [e|]]; simpl in Hr; [by destruct (read _ _ _)|].
  destruct (lease_of _ _ _); [done|]. rewrite Htok, bool_decide_false by done. cbn [negb].
  unfold document_of. by rewrite Hr, Hd'.
Qed.

(** ** Witnesses

    One domain: a sweep is accepted under "k1" with token "f1", deletes a
    counter, commits; a reset is addressed under "k2". *)

Definition demo_lease (_ : string) : string := "lease".
Definition demo_minted (f : string) : string := if bool_decide (f = "f1") then "k1" else "k3".
Definition demo_keys1 : Keys := mkKeys "k1" "lease" "tok".
Definition demo_accept : Acceptance := mkAcceptance demo_keys1 "cmd" "f1" 1000.
Definition demo_batch (f : string) : BatchArg :=
  mkBatchArg (mkKeys (demo_minted f) "lease" "") f ["a"] (mkProgress 1 1 1 ∅ ["a"] false).
Definition demo_outcome : COutcome := mkCOutcome false "" "" "" (mkProgress 1 1 1 ∅ ["a"] false) "" 0.
Definition demo_counters : gmap string entry :=
  {["a" := mkEntry GCRAID 9 0 0 1000000000; "b" := mkEntry GCRAID 9 0 0 1000000000]}.
Definition demo_sweep : list (Z * rop) :=
  [(0, OPut "tok" "doc" 60); (1, OAccept demo_accept); (2, OBatch (demo_batch "f1"));
   (3, OCommit (mkCommitArg demo_keys1 "f1" demo_outcome))].
Definition demo_done : rentry :=
  mkREntry "cmd" "f1" true (mkProgress 1 1 1 ∅ ["a"] false) demo_outcome "" (3 + Retention).

Lemma records_outcome_final_witness :
  exists holder ttl, (Lookup 9 demo_keys1
      (rrun [(5, OBatch (demo_batch "f1")); (6, OFinalize (mkFinalizeArg demo_keys1 no_outcome))]
        (rrun demo_sweep (NewMemory demo_counters)))).2 =
    mkRecord true "cmd" true demo_outcome (mkProgress 1 1 1 ∅ ["a"] false) "" "f1" holder ttl.
Proof.
  apply (records_outcome_final demo_lease demo_minted demo_counters demo_sweep
    [(5, OBatch (demo_batch "f1")); (6, OFinalize (mkFinalizeArg demo_keys1 no_outcome))] 0 4 9 demo_keys1 demo_done).
  - unfold demo_sweep. repeat constructor; done.
  - lia.
  - simpl. lia.
  - vm_compute. reflexivity.
  - reflexivity.
  - simpl. unfold Retention, Second. lia.
  - simpl. unfold Retention, Second. lia.
Defined.

Lemma records_sweeps_exclusive_witness :
  Batch 3 (demo_batch "f9") (rrun [(2, OBatch (demo_batch "f1"))]
     (rrun [(0, OPut "tok" "doc" 60); (1, OAccept demo_accept)] (NewMemory demo_counters))) =
  (rrun [(2, OBatch (demo_batch "f1"))]
     (rrun [(0, OPut "tok" "doc" 60); (1, OAccept demo_accept)] (NewMemory demo_counters)), Some ErrLeaseLost).
Proof.
  apply (records_sweeps_exclusive "lease" "f1"
    (rrun [(0, OPut "tok" "doc" 60); (1, OAccept demo_accept)] (NewMemory demo_counters))
    ([(2, OBatch (demo_batch "f1"))] ++ (3, OBatch (demo_batch "f9")) :: []) [(2, OBatch (demo_batch "f1"))] []
    1 3 4 (OBatch (demo_batch "f9"))).
  - reflexivity.
  - simpl. lia.
  - repeat constructor; done.
  - vm_compute. reflexivity.
  - reflexivity.
  - done.
Defined.

Definition demo_reset (delete : list string) : Addressed := mkAddressed "k2" "reset" delete false "answer".

Lemma records_reset_once_witness :
  exists m', Reset 4 (demo_reset ["a"; "b"]) (rrun demo_sweep (NewMemory demo_counters)) =
      (m', Ok (mkAddressedOutcome false "reset" 1 "answer")) /\
    Reset 8 (demo_reset ["z"]) (rrun [(5, OAccept demo_accept)] m') =
      (rrun [(5, OAccept demo_accept)] m', Ok (mkAddressedOutcome true "reset" 1 "answer")).
Proof.
  destruct (records_reset_once demo_lease demo_minted demo_counters demo_sweep [(5, OAccept demo_accept)] 0 4 8
    (demo_reset ["a"; "b"]) (demo_reset ["z"])) as (m' & H1 & _ & H2).
  - unfold demo_sweep. repeat constructor; done.
  - lia.
  - simpl. lia.
  - vm_compute. reflexivity.
  - by_decide.
  - reflexivity.
  - simpl. unfold Retention, Second. lia.
  - unfold Retention, Second. lia.
  - exists m'. split; [exact H1|exact H2].
Defined.

Lemma records_token_single_use_witness :
  ad_OK (Accept 20000 (mkAcceptance (mkKeys "k9" "lease" "tok") "cmd" "f9" 1000)
    (Accept 1 demo_accept (Put 0 "tok" "doc" 90000 (NewMemory ∅))).1).2 = false.
Proof.
  apply (records_token_single_use 1 20000 demo_accept (mkAcceptance (mkKeys "k9" "lease" "tok") "cmd" "f9" 1000)
    (Put 0 "tok" "doc" 90000 (NewMemory ∅)) (Accept 1 demo_accept (Put 0 "tok" "doc" 90000 (NewMemory ∅))).1
    (Accept 1 demo_accept (Put 0 "tok" "doc" 90000 (NewMemory ∅))).2 []).
  - vm_compute. reflexivity.
  - vm_compute. reflexivity.
  - done.
  - reflexivity.
  - constructor.
Defined.
