(* ===== verification/MgmtKeys.v ===== *)
(** * service/internal/management/keys.go: reading counter keys back

    The management side takes apart the keys the engine's key package builds:
    a listing and a sweep have to name the rule and the client a counter
    belongs to, and both live only in the key. The decoder is written apart
    from the encoder; the theorems show that it inverts it, so that no counter
    is attributed to another rule, window or client. *)
From S2P Require Import Prelude GoStrings Algo Key Compile MatchFacts MatchKeys.

(** ** Definitions *)

Record counterKey := mkCounterKey {
  ck_RuleID : string;
  ck_Block : string;
  ck_Rule : string;
  ck_Algorithm : string;
  ck_PeriodSeconds : Z;
  ck_RatePrefix : string;
  ck_Axes : list string }.

(** The errors of the decoder. [KeyPanic] is the panic of [key.DomainPrefix]
    on an empty namespace or domain. *)
Inductive KeyError :=
| KeyPanic
| KeyForeign (k domain : string)
| KeySegments (k : string) (n : nat)
| KeyRuleSegment (segment : string)
| KeyEmptyPart (segment : string)
| KeyTruncated (segment : string)
| KeyHexDigit (c : ascii)
| KeyPeriod (k field : string).

(** ruleview.go's [ID] *)
Definition ruleID (block rule : string) : string := block +:+ "/" +:+ rule.

Definition hexDigit (c : ascii) : result KeyError Z :=
  let n := Z.of_nat (nat_of_ascii c) in
  if (48 <=? n) && (n <=? 57) then Ok (n - 48)
  else if (65 <=? n) && (n <=? 70) then Ok (n - 65 + 10)
  else if (97 <=? n) && (n <=? 102) then Ok (n - 97 + 10)
  else Err (KeyHexDigit c).

(** The byte loop; [segment] is the whole segment, for the message. *)
Fixpoint unescape_loop (segment s : string) : result KeyError string :=
  match s with
  | EmptyString => Ok ""
  | String "%" r =>
      match r with
      | String h (String l r) =>
          let? high := hexDigit h in
          let? low := hexDigit l in
          let? rest := unescape_loop segment r in
          Ok (String (ascii_of_nat (Z.to_nat (Z.lor (Z.shiftl high 4) low))) rest)
      | _ => Err (KeyTruncated segment)
      end
  | String c r => let? rest := unescape_loop segment r in Ok (String c rest)
  end.

Definition unescapeSegment (segment : string) : result KeyError string :=
  if negb (contains_char "%" segment) then Ok segment else unescape_loop segment segment.

Definition rule_part (segment part : string) : result KeyError string :=
  let? value := unescapeSegment part in
  if bool_decide (value = "") then Err (KeyEmptyPart segment) else Ok value.

Definition splitRuleSegment (segment : string) : result KeyError (string * string) :=
  match Split "/" segment with
  | [b; r] =>
      let? block := rule_part segment b in
      let? rule := rule_part segment r in
      Ok (block, rule)
  | _ => Err (KeyRuleSegment segment)
  end.

Fixpoint unescape_all (fields : list string) : result KeyError (list string) :=
  match fields with
  | [] => Ok []
  | f :: fields =>
      let? value := unescapeSegment f in
      let? rest := unescape_all fields in
      Ok (value :: rest)
  end.

(** The split without the empty element the last terminator leaves. *)
Fixpoint drop_last_empty (fields : list string) : list string :=
  match fields with
  | [] => []
  | [f] => if bool_decide (f = "") then [] else [f]
  | f :: fields => f :: drop_last_empty fields
  end.

Definition parseCounterKey (namespace domain k : string) : result KeyError counterKey :=
  match DomainPrefix namespace domain with
  | None => Err KeyPanic
  | Some prefix =>
      match CutPrefix k prefix with
      | None => Err (KeyForeign k domain)
      | Some rest =>
          match drop_last_empty (Split ":" rest) with
          | f0 :: f1 :: f2 :: axes =>
              let? br := splitRuleSegment f0 in
              match ParseInt f2 with
              | None => Err (KeyPeriod k f2)
              | Some period =>
                  let? values := unescape_all axes in
                  Ok (mkCounterKey (ruleID br.1 br.2) br.1 br.2 f1 period
                        (prefix +:+ Join ":" [f0; f1; f2] +:+ ":") values)
              end
          | fields => Err (KeySegments k (length fields))
          end
      end
  end.

(** The axis values under the names the rule declares. The error is the
    number of values against the number of names; a later name of two equal
    ones wins, as an assignment to a map does. *)
Definition namedAxes (c : counterKey) (names : list string)
    : result (nat * nat) (gmap string string) :=
  if negb (length (ck_Axes c) =? length names)%nat
  then Err (length (ck_Axes c), length names)
  else Ok (foldl (fun axes nv => <[nv.1 := nv.2]> axes) ∅ (zip names (ck_Axes c))).

(** ** Lemmas *)

Lemma hexDigit_hex (c : ascii) :
  hexDigit (hex_digit (nat_of_ascii c / 16)) = Ok (Z.of_nat (nat_of_ascii c / 16)) /\
  hexDigit (hex_digit (nat_of_ascii c mod 16)) = Ok (Z.of_nat (nat_of_ascii c mod 16)) /\
  ascii_of_nat (Z.to_nat (Z.lor (Z.shiftl (Z.of_nat (nat_of_ascii c / 16)) 4)
                                (Z.of_nat (nat_of_ascii c mod 16)))) = c.
Proof. destruct c as [[] [] [] [] [] [] [] []]; by vm_compute. Qed.

Lemma unescape_loop_percent seg c r :
  unescape_loop seg (percent_encode c +:+ r) = (let? rest := unescape_loop seg r in Ok (String c rest)).
Proof.
  destruct (hexDigit_hex c) as (Hh & Hl & Hc). unfold percent_encode. cbn [String.append unescape_loop].
  rewrite Hh, Hl. cbn beta iota. by rewrite Hc.
Qed.

Lemma unescape_loop_plain seg c r :
  reserved c = false ->
  unescape_loop seg (String c r) = (let? rest := unescape_loop seg r in Ok (String c rest)).
Proof. destruct c as [[] [] [] [] [] [] [] []]; intros; done. Qed.

Lemma unescape_loop_escape seg v : unescape_loop seg (escape_loop v) = Ok v.
Proof.
  induction v as [|c v IH]; [done|]. cbn [escape_loop]. destruct (reserved c) eqn:E.
  - by rewrite unescape_loop_percent, IH.
  - change (String c "" +:+ escape_loop v) with (String c (escape_loop v)).
    by rewrite unescape_loop_plain, IH.
Qed.

Lemma unescape_loop_id seg s : contains_char "%" s = false -> unescape_loop seg s = Ok s.
Proof.
  induction s as [|c s IH]; [done|]. cbn [contains_char]. intros [Hc Hs]%orb_false_iff.
  specialize (IH Hs). destruct c as [[] [] [] [] [] [] [] []]; try done; cbn [unescape_loop]; by rewrite IH.
Qed.

(** The fast path of [unescapeSegment] changes nothing. *)
Lemma unescapeSegment_eq s : unescapeSegment s = unescape_loop s s.
Proof. unfold unescapeSegment. destruct (contains_char "%" s) eqn:E; [done|]. by rewrite unescape_loop_id. Qed.

Lemma unescapeSegment_escape v : unescapeSegment (escape v) = Ok v.
Proof. rewrite unescapeSegment_eq, escape_eq. apply unescape_loop_escape. Qed.

Lemma unescape_all_escape axes : unescape_all (escape <$> axes) = Ok axes.
Proof.
  induction axes as [|v axes IH]; [done|]. cbn [fmap list_fmap unescape_all].
  rewrite unescapeSegment_escape. cbn beta iota. by rewrite IH.
Qed.

Lemma splitRuleSegment_escape block rule :
  block <> "" -> rule <> "" ->
  splitRuleSegment (escape block +:+ "/" +:+ escape rule) = Ok (block, rule).
Proof.
  intros Hb Hr. unfold splitRuleSegment.
  destruct (escape_clean block) as (_ & Cb & _). destruct (escape_clean rule) as (_ & Cr & _).
  change (escape block +:+ "/" +:+ escape rule) with (escape block +:+ String "/" (escape rule)).
  rewrite Split_app_sep, Split_no_char by done. unfold rule_part.
  rewrite !unescapeSegment_escape. cbn beta iota.
  rewrite bool_decide_false by done. cbn beta iota.
  by rewrite bool_decide_false.
Qed.

Lemma Split_axes_suffix axes :
  Split ":" (axes_suffix axes) = (escape <$> axes) ++ [""].
Proof.
  induction axes as [|v axes IH]; [done|]. cbn [axes_suffix].
  destruct (escape_clean v) as (Hv & _). by rewrite Split_app_sep, IH.
Qed.

Lemma drop_last_empty_snoc l : drop_last_empty (l ++ [""]) = l.
Proof. induction l as [|f l IH]; [done|]. cbn [app]. destruct l; [done|]. cbn [app drop_last_empty]. by f_equal. Qed.

Lemma CutPrefix_app p s : CutPrefix (p +:+ s) p = Some s.
Proof.
  unfold CutPrefix, HasPrefix, TrimPrefix. rewrite prefix_app. unfold HasPrefix.
  by rewrite prefix_app, drop_str_app.
Qed.

(** The parts of a bucket key after its domain prefix. *)
Lemma bucket_fields block rule a w axes :
  drop_last_empty (Split ":" (rule_tail block rule +:+ rate_tail a w +:+ axes_suffix axes)) =
  (escape block +:+ "/" +:+ escape rule) :: ToLowerASCII (Name a) :: pretty (Period w /i Second)
    :: (escape <$> axes).
Proof.
  unfold rule_tail, rate_tail.
  destruct (escape_clean block) as (Hb & _). destruct (escape_clean rule) as (Hr & _).
  rewrite !app_str_assoc. cbn [String.append].
  replace (escape block +:+ String "/" (escape rule +:+ String ":" (ToLowerASCII (Name a) +:+ String ":"
    (pretty (Period w /i Second) +:+ String ":" (axes_suffix axes)))))
    with ((escape block +:+ "/" +:+ escape rule) +:+ String ":" (ToLowerASCII (Name a) +:+ String ":"
      (pretty (Period w /i Second) +:+ String ":" (axes_suffix axes)))) by (by rewrite !app_str_assoc).
  rewrite Split_app_sep by (rewrite !contains_char_app, Hb, Hr; done).
  rewrite Split_app_sep by apply algorithm_name_no_colon.
  rewrite Split_app_sep by apply pretty_Z_no_colon.
  rewrite Split_axes_suffix. apply (drop_last_empty_snoc (_ :: _ :: _ :: (escape <$> axes))).
Qed.

Lemma seconds_i64 w : is_i64 (Period w /i Second).
Proof. apply i64_range. Qed.

(** What the decoder makes of a key the encoder built. *)
Lemma parse_bucket namespace domain block rule a w p axes :
  block <> "" -> rule <> "" ->
  RatePrefix (mkIdent namespace domain block rule) a w = Some p ->
  parseCounterKey namespace domain (Key.Bucket p axes) =
  Ok (mkCounterKey (ruleID block rule) block rule (ToLowerASCII (Name a)) (Period w /i Second) p axes).
Proof.
  intros Hb Hr Hp. apply RatePrefix_split in Hp as (rp & Hrp & ->).
  apply RulePrefix_split in Hrp as (dp & Hd & ->). cbn [IdNamespace IdDomain IdBlock IdRule] in *.
  unfold parseCounterKey, Key.Bucket. rewrite Hd, !app_str_assoc, CutPrefix_app.
  rewrite bucket_fields. rewrite splitRuleSegment_escape by done. cbn beta iota.
  rewrite ParseInt_pretty by apply seconds_i64. rewrite unescape_all_escape. cbn [fst snd].
  do 2 f_equal. unfold rule_tail, rate_tail. cbn [Join].
  rewrite !app_str_assoc. simpl. rewrite !app_str_assoc. done.
Qed.

Lemma CutPrefix_spec s p : CutPrefix s p = None <-> forall r, s <> p +:+ r.
Proof.
  unfold CutPrefix, HasPrefix. destruct (String.prefix p s) eqn:E; split; try done.
  - apply prefix_spec in E as [r ->]. intros H. by destruct (H r).
  - intros _ r ->. by rewrite prefix_app in E.
Qed.

(** The axis values under distinct names are read back under each of them. *)
Lemma zip_fold_lookup (names values : list string) (acc : gmap string string) :
  length names = length values -> NoDup names ->
  (forall n, n ∉ names ->
     foldl (fun axes nv => <[nv.1 := nv.2]> axes) acc (zip names values) !! n = acc !! n) /\
  (fun n => foldl (fun axes nv => <[nv.1 := nv.2]> axes) acc (zip names values) !! n) <$> names = Some <$> values.
Proof.
  revert values acc. induction names as [|n names IH]; intros [|v values] acc Hl Hn; try done.
  apply NoDup_cons in Hn as [Hnin Hn]. simpl in Hl. apply Nat.succ_inj in Hl.
  destruct (IH values (<[n:=v]> acc) Hl Hn) as [Hout Hin]. split.
  - intros m [Hm Hmn]%not_elem_of_cons. cbn [zip_with zip foldl fst snd].
    rewrite Hout by done. by rewrite lookup_insert_ne.
  - cbn [fmap list_fmap]. f_equal; [|exact Hin].
    change (foldl (fun axes nv => <[nv.1 := nv.2]> axes) (<[n:=v]> acc) (zip names values) !! n = Some v).
    rewrite Hout by done. by rewrite lookup_insert_eq.
Qed.

Lemma namedAxes_lookup c names :
  NoDup names -> length (ck_Axes c) = length names ->
  exists axes, namedAxes c names = Ok axes /\
    (fun n => axes !! n) <$> names = Some <$> ck_Axes c /\
    forall n, n ∉ names -> axes !! n = None.
Proof.
  intros Hn Hl. unfold namedAxes. rewrite Hl, Nat.eqb_refl. cbn [negb].
  destruct (zip_fold_lookup names (ck_Axes c) ∅ (eq_sym Hl) Hn) as [Hout Hin].
  eexists. split; [done|]. split; [exact Hin|]. intros n Hnin. by rewrite Hout.
Qed.

(** ** Properties *)

(** C35: The decoder inverts the encoder: from the key of any bucket the engine
    can build, the management side reads back the rule, the algorithm, the
    window length, the rate prefix and every axis value as they were, whatever
    bytes the values carry; and a key of another domain or namespace is
    refused as foreign, never read as one of this domain. *)
Theorem counter_key_roundtrip : forall namespace domain id a w p axes,
  namespace <> "" -> domain <> "" -> IdBlock id <> "" -> IdRule id <> "" ->
  RatePrefix id a w = Some p ->
  parseCounterKey namespace domain (Key.Bucket p axes) =
  if decide (IdNamespace id = namespace /\ IdDomain id = domain)
  then Ok (mkCounterKey (ruleID (IdBlock id) (IdRule id)) (IdBlock id) (IdRule id)
             (ToLowerASCII (Name a)) (Period w /i Second) p axes)
  else Err (KeyForeign (Key.Bucket p axes) domain).
Proof.
  intros ns dom id a w p axes Hns Hdom Hb Hr Hp. case_decide as E.
  - destruct E as [<- <-], id as [n d b r]. by apply parse_bucket.
  - unfold parseCounterKey. destruct (DomainPrefix ns dom) as [dp|] eqn:Hd.
    + enough (CutPrefix (Key.Bucket p axes) dp = None) as -> by done.
      apply CutPrefix_spec. intros r Hk. apply E.
      apply RatePrefix_split in Hp as (rp & (dp' & Hd' & ->)%RulePrefix_split & ->).
      unfold Key.Bucket in Hk. rewrite !app_str_assoc in Hk.
      by destruct (DomainPrefix_inj _ _ _ _ _ _ _ _ Hd' Hd Hk) as (-> & -> & _).
    + unfold DomainPrefix, DomainTag in Hd. by rewrite !bool_decide_false in Hd.
Qed.

Definition demo_key_ident : Ident := mkIdent "core-1-core" "gateway.public" "api" "per:user".

Lemma counter_key_roundtrip_witness :
  parseCounterKey "core-1-core" "gateway.public"
    "rl:v1:{core-1-core/gateway.public}:api/per%3Auser:gcra:60:a%3Ab:%2Fapi%25:" =
  Ok (mkCounterKey "api/per:user" "api" "per:user" "gcra" 60
        "rl:v1:{core-1-core/gateway.public}:api/per%3Auser:gcra:60:" ["a:b"; "/api%"]).
Proof.
  exact (counter_key_roundtrip "core-1-core" "gateway.public" demo_key_ident gcra
    (mkWindow 10 (60 * Second) 10) "rl:v1:{core-1-core/gateway.public}:api/per%3Auser:gcra:60:"
    ["a:b"; "/api%"] ltac:(done) ltac:(done) ltac:(done) ltac:(done) ltac:(reflexivity)).
Defined.
