(* ===== verification/RuleView.v ===== *)
(** * service/internal/ruleview: the rendering of a compiled domain

    The view the management API reports and the version hash is taken of. The
    rendering drops what the compiler derives (template segments, counter key
    prefixes) and the group names it has resolved; the theorems of
    [RuleViewFacts] show that what is left still determines every decision of
    the rule phase, so that two rule sets with one rendering are one enforced
    set. *)
From S2P Require Import Prelude GoStrings Algo Model Compile.

(** [time.Duration.String]. [fmtFrac] prints the low [prec] digits without
    trailing zeros, and the dot when it printed any. *)
Fixpoint fmtFrac (prec : nat) (v : Z) (print : bool) (acc : string) : string * Z :=
  match prec with
  | O => (if print then String "." acc else acc, v)
  | S prec =>
      let digit := v mod 10 in
      let print := print || negb (digit =? 0) in
      fmtFrac prec (v / 10) print
        (if print then String (ascii_of_nat (Z.to_nat (48 + digit))) acc else acc)
  end.

Definition Duration_String (d : Z) : string :=
  let u := Z.abs d in
  let sign := if d <? 0 then "-" else "" in
  if u <? Second then
    if u =? 0 then "0s"
    else
      let '(unit, prec) :=
        if u <? 1000 then ("ns", 0%nat)
        else if u <? 1000000 then (String (ascii_of_nat 194) (String (ascii_of_nat 181) "s"), 3%nat)
        else ("ms", 6%nat) in
      let '(frac, v) := fmtFrac prec u false unit in
      sign +:+ pretty v +:+ frac
  else
    let '(frac, v) := fmtFrac 9 u false "s" in
    let seconds := pretty (v mod 60) +:+ frac in
    let v := v / 60 in
    if v =? 0 then sign +:+ seconds
    else
      let minutes := pretty (v mod 60) +:+ "m" +:+ seconds in
      let v := v / 60 in
      if v =? 0 then sign +:+ minutes else sign +:+ pretty v +:+ "h" +:+ minutes.

Module ruleview.

Definition ModeEnforce : string := "enforce".
Definition ModeShadow : string := "shadow".
Definition ModeBypass : string := "bypass".

Definition ApplicabilityAlways : string := "always".
Definition ApplicabilityConditional : string := "conditional".
Definition ApplicabilityNever : string := "never".

Record DomainSummary := mkDomainSummary {
  ds_Domain : string;
  ds_RuleSetVersion : string;
  ds_Blocks : Z;
  ds_Rules : Z;
  ds_EffectiveKeys : list string;
  ds_ListValuedKeys : list string }.

Record CostView := mkCostView { cv_Source : string; cv_Name : string; cv_Default : Z }.

Record RouteView := mkRouteView {
  rtv_Type : string;
  rtv_Value : string;
  rtv_Methods : list string;
  rtv_Cost : option CostView }.

Record ApplicabilityGate := mkGate { ag_Reason : string; ag_Key : string; ag_Rule : string }.

Definition GateMissingAxis : string := "missing_axis".
Definition GateUndecidedCondition : string := "undecided_condition".
Definition GateMayBePreempted : string := "may_be_preempted".

Record PredicateView := mkPredicateView {
  pv_Key : string;
  pv_Operator : string;
  pv_Value : string;
  pv_Values : list string }.

Record RateView := mkRateView {
  rav_Algorithm : string;
  rav_Requests : Z;
  rav_PeriodSeconds : Z;
  rav_Period : string;
  rav_Burst : Z }.

Record RuleView := mkRuleView {
  rv_ID : string;
  rv_Block : string;
  rv_Rule : string;
  rv_Mode : string;
  rv_Axes : list string;
  rv_Matches : list PredicateView;
  rv_ReplacedRules : list string;
  rv_Rates : list RateView;
  rv_Applicability : string;
  rv_ConditionalOn : list ApplicabilityGate }.

Record BlockView := mkBlockView {
  bv_Block : string;
  bv_Mode : string;
  bv_Routes : list RouteView;
  bv_Captures : list string;
  bv_Rules : list RuleView }.

Record RuleSetView := mkRuleSetView {
  rs_Domain : string;
  rs_RuleSetVersion : string;
  rs_EffectiveKeys : list string;
  rs_ListValuedKeys : list string;
  rs_Blocks : list BlockView }.

Definition ID (block rule : string) : string := block +:+ "/" +:+ rule.

Definition SplitID (id : string) : option (string * string) :=
  match Split "/" id with
  | [block; rule] => if bool_decide (block = "") || bool_decide (rule = "") then None else Some (block, rule)
  | _ => None
  end.

Definition sortedKeys (s : gset string) : list string := sort_strings (elements s).

Definition Algorithm (rate : Rate) : string := ToLowerASCII (Name (ra_Algorithm rate)).

Definition Mode (behavior : string) : string :=
  if bool_decide (behavior = BehaviorShadow) then ModeShadow
  else if bool_decide (behavior = BehaviorBypass) then ModeBypass
  else ModeEnforce.

Definition ListValuedKeys (snapshot : Snapshot) : list string :=
  sort_strings (ke_Key <$> filter (fun e => ke_Type e = ValueStringArray) (s_Extraction snapshot)).

Definition view_rate (rate : Rate) : RateView :=
  mkRateView (Algorithm rate) (Requests (ra_Window rate)) (Period (ra_Window rate) /i Second)
    (Duration_String (Period (ra_Window rate))) (Burst (ra_Window rate)).

Definition predicate (c : Predicate) : PredicateView :=
  let operator := if bool_decide (pr_Operator c = OperatorInGroup) then OperatorIn else pr_Operator c in
  mkPredicateView (pr_Key c) operator
    (if bool_decide (operator = OperatorEquals) || bool_decide (operator = OperatorContains)
     then pr_Value c else "")
    (if bool_decide (operator = OperatorIn) then sortedKeys (pr_Values c) else []).

Definition view_rule (block : Compile.Block) (rule : Compile.Rule) : RuleView :=
  mkRuleView (ID (bl_Name block) (ru_Name rule)) (bl_Name block) (ru_Name rule) (Mode (ru_Behavior rule))
    (ru_Counters rule) (predicate <$> ru_Matches rule) (ru_ReplacedRules rule)
    (view_rate <$> ru_Rates rule) "" [].

Definition route (r : Compile.Route) : RouteView :=
  mkRouteView (rt_Type r) (rt_Value r)
    (if bool_decide (rt_Methods r = ∅) then [] else sortedKeys (rt_Methods r))
    (match rt_Cost r with
     | Some c => Some (mkCostView CostQueryParameter (co_Parameter c) (co_Default c))
     | None => None
     end).

Definition view_block (block : Compile.Block) : BlockView :=
  mkBlockView (bl_Name block) (if bool_decide (bl_Mode block = "") then ModeAll else bl_Mode block)
    (route <$> bl_Routes block) (bl_Captures block) (view_rule block <$> bl_Rules block).

Definition Render (snapshot : Snapshot) : RuleSetView :=
  mkRuleSetView (s_Domain snapshot) "" (s_EffectiveKeys snapshot) (ListValuedKeys snapshot)
    (view_block <$> s_Blocks snapshot).

Definition Summary (snapshot : Snapshot) (version : string) : DomainSummary :=
  mkDomainSummary (s_Domain snapshot) version (Z.of_nat (length (s_Blocks snapshot)))
    (foldl (fun n b => n + Z.of_nat (length (bl_Rules b))) 0 (s_Blocks snapshot))
    (s_EffectiveKeys snapshot) (ListValuedKeys snapshot).

End ruleview.

Example duration_minute : Duration_String (60 * Second) = "1m0s".
Proof. reflexivity. Qed.

Example duration_day : Duration_String (24 * 3600 * Second) = "24h0m0s".
Proof. reflexivity. Qed.

Example duration_fraction : Duration_String (1500 * 1000000) = "1.5s".
Proof. reflexivity. Qed.
