(* ===== verification/RuleViewFacts.v ===== *)
(** * The rendering determines the decisions

    Two generations of a domain whose renderings agree match the same rules
    with the same buckets for every request: the version of a rule set, a hash
    of its rendering, stands for what it enforces. *)
From S2P Require Import Prelude GoStrings Algo Key StoreApi Model Compile CompileFacts Match MatchFacts MatchKeys RuleView.

(** ** Reference definitions *)

(** A template segment as its text says. *)
Definition segment_of (s : string) : Segment :=
  if negb (HasPrefix s "{") || negb (HasSuffix s "}") then mkSegment s ""
  else mkSegment "" (String.substring 1 (String.length s - 2) s).

(** The segments of a template route are those of its text. *)
Definition route_textual (r : Route) : Prop :=
  rt_Type r = PathTemplate -> rt_Segments r = segment_of <$> Split "/" (TrimPrefix (rt_Value r) "/").

(** ** Template routes *)

Lemma compileSegment_quiet env b v i s seen caps segs seen' caps' ps :
  compileSegment env b v i s seen caps = Log (segs, seen', caps') ps -> blocking ps = false ->
  segs = [segment_of s].
Proof.
  unfold compileSegment, segment_of. intros H Hq.
  match type of H with (if ?c then _ else _) = _ => destruct c; [winv; quiet|] end.
  match type of H with (if ?c then _ else _) = _ => destruct c eqn:E end.
  { destruct (ContainsAny s "{}"); winv; by quiet. }
  do 3 match type of H with (if ?c then _ else _) = _ => destruct c; [winv; quiet|] end.
  by winv.
Qed.

Lemma compileSegments_quiet env b v i l seen caps segs caps' ps :
  compileSegments env b v i l seen caps = Log (segs, caps') ps -> blocking ps = false ->
  segs = segment_of <$> l.
Proof.
  revert i seen caps segs caps' ps. induction l as [|s l IH]; intros i seen caps segs caps' ps;
    cbn [compileSegments]; intros H Hq; winv; [done|]. quiet.
  match goal with H : compileSegment _ _ _ _ _ _ _ = _ |- _ => apply compileSegment_quiet in H as ->; [|done] end.
  match goal with H : compileSegments _ _ _ _ _ _ _ = _ |- _ => apply IH in H as ->; [|done] end. done.
Qed.

Lemma compileRoute_textual env b r caps route caps' ps :
  compileRoute env b r caps = Log (route, caps') ps -> blocking ps = false -> route_textual route.
Proof.
  unfold compileRoute, route_textual. intros H Hq. winv. quiet. intros Ht. rewrite Ht in *.
  match goal with H : (if _ then _ else _) = Log _ _ |- _ =>
    change (compileTemplate env b (pm_Value (mr_Path r)) caps = Log (l, caps') x3) in H;
    by eapply compileSegments_quiet in H end.
Qed.

Lemma compileRouteList_textual env b rs caps out caps' ps :
  compileRouteList env b rs caps = Log (out, caps') ps -> blocking ps = false -> Forall route_textual out.
Proof.
  revert caps out caps' ps. induction rs as [|r rs IH]; intros caps out caps' ps; cbn [compileRouteList].
  { intros H _. winv. constructor. }
  intros H Hq. winv. quiet. constructor; [by eapply compileRoute_textual|by eapply IH].
Qed.

Lemma compileBlockList_textual ns d env bs seen out ps :
  compileBlockList ns d env bs seen = Log out ps -> blocking ps = false ->
  Forall (fun c => Forall route_textual (bl_Routes c)) out.
Proof.
  revert seen out ps. induction bs as [|b bs IH]; intros seen out ps; cbn [compileBlockList].
  { intros H _. winv. constructor. }
  case_bool_decide as Hd; intros H Hq; winv; quiet.
  constructor; [|by eapply IH].
  match goal with H : compileBlock _ _ _ _ = Log _ _ |- _ => unfold compileBlock, compileRoutes in H end.
  winv. quiet. by eapply compileRouteList_textual.
Qed.

Lemma compile_textual ns d p snap ps :
  Compile ns d p = Some (snap, ps) ->
  s_Domain snap = d /\ Forall (fun c => Forall route_textual (bl_Routes c)) (s_Blocks snap).
Proof.
  unfold Compile. case_bool_decide; [intros; simplify_eq; split; [done|constructor]|].
  destruct (_ || _); [intros; simplify_eq; split; [done|constructor]|].
  destruct (compileEnvironment d p) as [env eps].
  destruct p as [pol|]; [|intros; simplify_eq; split; [done|constructor]].
  destruct (compileBlocks ns d pol env) as [|blocks bps] eqn:Hb; [done|].
  destruct (blocking _) eqn:Hq; intros; simplify_eq; split; try done.
  unfold compileBlocks in Hb. winv. quiet. by eapply compileBlockList_textual.
Qed.

(** ** Every policy is within some bound *)

Lemma Forall_bound {A} (P : Z -> A -> Prop) (l : list A) :
  (forall c d x, c <= d -> P c x -> P d x) -> (forall x, exists c, P c x) ->
  exists c, Forall (P c) l.
Proof.
  intros Hm He. induction l as [|x l [c IH]]; [by exists 0|].
  destruct (He x) as [d Hd]. exists (Z.max c d). constructor; [eapply (Hm d); [lia|done]|].
  eapply Forall_impl; [exact IH|]. intros y. apply Hm. lia.
Qed.

Lemma policy_within_some p : exists cap, policy_within cap p.
Proof.
  unfold policy_within. apply Forall_bound.
  { intros c d b Hcd Hb. eapply Forall_impl; [exact Hb|]. intros r Hr.
    eapply Forall_impl; [exact Hr|]. simpl. lia. }
  intros b. apply Forall_bound.
  { intros c d r Hcd Hr. eapply Forall_impl; [exact Hr|]. simpl. lia. }
  intros r. apply Forall_bound; [simpl; lia|]. intros x. by exists (mra_Requests x).
Qed.

Lemma compile_ok_some ns d p snap ps :
  Compile ns d p = Some (snap, ps) -> exists cap, snapshot_ok cap ns snap.
Proof.
  intros H. assert (exists cap, forall pol, p = Some pol -> policy_within cap pol) as [cap Hc].
  { destruct p as [pol|]; [|by exists 0]. destruct (policy_within_some pol) as [cap Hc].
    exists cap. by intros ? [= ->]. }
  exists cap. by eapply compile_snapshot_ok.
Qed.

Lemma compile_blocks_ok ns d p snap ps :
  Compile ns d p = Some (snap, ps) -> exists cap, Forall (block_ok cap ns d) (s_Blocks snap).
Proof.
  intros H. destruct (compile_ok_some _ _ _ _ _ H) as (cap & _ & Hb & _). exists cap.
  destruct (compile_textual _ _ _ _ _ H) as [E _]. by rewrite E in Hb.
Qed.

(** ** What the views keep *)

Lemma Mode_shadow b1 b2 : ruleview.Mode b1 = ruleview.Mode b2 ->
  bool_decide (b1 = BehaviorShadow) = bool_decide (b2 = BehaviorShadow) /\
  bool_decide (b1 = BehaviorBypass) = bool_decide (b2 = BehaviorBypass).
Proof. unfold ruleview.Mode. repeat case_bool_decide; by subst. Qed.

(** A set is determined by its sorted elements. *)
Lemma sortedKeys_inj (x y : gset string) : ruleview.sortedKeys x = ruleview.sortedKeys y -> x = y.
Proof.
  unfold ruleview.sortedKeys. intros H. apply set_eq. intros k.
  rewrite <- (elem_of_elements x), <- (elem_of_elements y).
  by rewrite <- (sort_strings_Permutation (elements x)), <- (sort_strings_Permutation (elements y)), H.
Qed.

(** A predicate is decided by its view alone. *)
Definition view_holds (v : ruleview.PredicateView) (ctx : blockCtx) : bool :=
  let set := valueOf ctx (ruleview.pv_Key v) in
  let op := ruleview.pv_Operator v in
  if bool_decide (op = OperatorEquals) then
    match set with [x] => bool_decide (x = ruleview.pv_Value v) | _ => false end
  else if bool_decide (op = OperatorIn) then
    existsb (fun x => bool_decide (x ∈ ruleview.pv_Values v)) set
  else if bool_decide (op = OperatorContains) then bool_decide (ruleview.pv_Value v ∈ set)
  else if bool_decide (op = OperatorExists) then (0 <? length set)%nat
  else if bool_decide (op = OperatorDoesNotExist) then (length set =? 0)%nat
  else false.

Lemma elem_of_sortedKeys x (s : gset string) : x ∈ ruleview.sortedKeys s <-> x ∈ s.
Proof. unfold ruleview.sortedKeys. by rewrite sort_strings_Permutation, elem_of_elements. Qed.

Lemma predicate_view_holds p ctx : predicateHolds p ctx = view_holds (ruleview.predicate p) ctx.
Proof.
  unfold predicateHolds, view_holds, ruleview.predicate. simpl.
  set (set := valueOf ctx (pr_Key p)).
  assert (forall s : gset string, existsb (fun v => bool_decide (v ∈ s)) set =
    existsb (fun x => bool_decide (x ∈ ruleview.sortedKeys s)) set) as Hin.
  { intros s. induction set as [|x l IH]; [done|]. simpl. rewrite IH. f_equal.
    apply bool_decide_ext. by rewrite elem_of_sortedKeys. }
  destruct (decide (pr_Operator p = OperatorEquals)) as [->|Ne]; [done|].
  destruct (decide (pr_Operator p = OperatorIn)) as [->|Ni]; [apply Hin|].
  destruct (decide (pr_Operator p = OperatorInGroup)) as [->|Ng]; [apply Hin|].
  destruct (decide (pr_Operator p = OperatorContains)) as [->|Nc]; [done|].
  rewrite !(bool_decide_false (pr_Operator p = OperatorEquals)) by done.
  rewrite !(bool_decide_false (pr_Operator p = OperatorIn)) by done.
  rewrite !(bool_decide_false (pr_Operator p = OperatorInGroup)) by done.
  rewrite !(bool_decide_false (pr_Operator p = OperatorContains)) by done.
  rewrite !(bool_decide_false (pr_Operator p = OperatorEquals)) by done.
  rewrite !(bool_decide_false (pr_Operator p = OperatorIn)) by done. done.
Qed.

Lemma rate_view_eq cap cap' ns d block rule r1 r2 :
  rate_ok cap (mkIdent ns d block rule) r1 -> rate_ok cap' (mkIdent ns d block rule) r2 ->
  ruleview.view_rate r1 = ruleview.view_rate r2 -> r1 = r2.
Proof.
  unfold rate_ok, ruleview.view_rate. intros (C1 & P1 & _) (C2 & P2 & _) [= Ha Hq Hp _ Hb].
  apply algorithm_name_inj in Ha.
  destruct (check_ok_facts _ _ C1) as (W1 & _), (check_ok_facts _ _ C2) as (W2 & _).
  pose proof (whole_period_seconds _ W1) as [E1 _]. pose proof (whole_period_seconds _ W2) as [E2 _].
  assert (ra_Window r1 = ra_Window r2) as Hw.
  { destruct (ra_Window r1), (ra_Window r2); simpl in *. congruence. }
  destruct r1, r2; simpl in *. subst. by simplify_eq.
Qed.

Lemma cons_inv {A} (x y : A) l k : x :: l = y :: k -> x = y /\ l = k.
Proof. by intros [= -> ->]. Qed.

Lemma rates_view_eq cap cap' ns d block rule l1 l2 :
  Forall (rate_ok cap (mkIdent ns d block rule)) l1 -> Forall (rate_ok cap' (mkIdent ns d block rule)) l2 ->
  ruleview.view_rate <$> l1 = ruleview.view_rate <$> l2 -> l1 = l2.
Proof.
  intros H1. revert l2. induction H1 as [|r1 l1 Hr H1 IH]; intros [|r2 l2] H2; try done.
  inversion H2; subst. cbn [fmap list_fmap]. intros [= Ha Hb Hc Hd He Hl].
  f_equal; [|by apply IH]. eapply rate_view_eq; [done..|]. unfold ruleview.view_rate. congruence.
Qed.

(** ** Rules, blocks and routes *)

(** Two rules the rule phase cannot tell apart. *)
Definition same_rule (b1 b2 : Block) (r1 r2 : Rule) : Prop :=
  (forall ctx, ruleMatches r1 ctx = ruleMatches r2 ctx) /\
  (forall ctx, matchedRule b1 r1 ctx = matchedRule b2 r2 ctx) /\
  bool_decide (ru_Behavior r1 = BehaviorShadow) = bool_decide (ru_Behavior r2 = BehaviorShadow) /\
  bool_decide (ru_Behavior r1 = BehaviorBypass) = bool_decide (ru_Behavior r2 = BehaviorBypass) /\
  ru_ReplacedRules r1 = ru_ReplacedRules r2.

Lemma matches_view l1 l2 ctx :
  ruleview.predicate <$> l1 = ruleview.predicate <$> l2 ->
  forallb (fun p => predicateHolds p ctx) l1 = forallb (fun p => predicateHolds p ctx) l2.
Proof.
  intros H. assert (forall l, forallb (fun p => predicateHolds p ctx) l =
    forallb (fun v => view_holds v ctx) (ruleview.predicate <$> l)) as E.
  { induction l as [|p l IH]; [done|]. cbn. by rewrite IH, predicate_view_holds. }
  by rewrite !E, H.
Qed.

Lemma rule_view_same cap cap' ns d b1 b2 r1 r2 :
  rule_ok cap ns d (bl_Name b1) r1 -> rule_ok cap' ns d (bl_Name b2) r2 ->
  ruleview.view_rule b1 r1 = ruleview.view_rule b2 r2 -> same_rule b1 b2 r1 r2.
Proof.
  intros (_ & Hr1 & _) (_ & Hr2 & _) H. unfold ruleview.view_rule in H.
  injection H as _ Hblk Hname Hmode Hax Hms Hrep Hrates.
  destruct (Mode_shadow _ _ Hmode) as [Hs Hb]. rewrite Hblk, Hname in Hr1.
  pose proof (rates_view_eq _ _ _ _ _ _ _ _ Hr1 Hr2 Hrates) as Hra.
  split_and!; [| |done..].
  - intros ctx. unfold ruleMatches. by rewrite Hax, (matches_view _ _ ctx Hms).
  - intros ctx. unfold matchedRule, rule_axes. by rewrite Hs, Hblk, Hname, Hra, Hax.
Qed.

Lemma rules_view_same cap cap' ns d b1 b2 l1 l2 :
  Forall (rule_ok cap ns d (bl_Name b1)) l1 -> Forall (rule_ok cap' ns d (bl_Name b2)) l2 ->
  ruleview.view_rule b1 <$> l1 = ruleview.view_rule b2 <$> l2 -> Forall2 (same_rule b1 b2) l1 l2.
Proof.
  intros H1. revert l2. induction H1 as [|r1 l1 Hr H1 IH]; intros [|r2 l2] H2; try done.
  inversion H2; subst. cbn [fmap list_fmap]. intros [Hv Hl]%cons_inv.
  constructor; [by eapply rule_view_same|by apply IH].
Qed.

Lemma firstMatch_same b1 b2 l1 l2 ctx :
  Forall2 (same_rule b1 b2) l1 l2 -> firstMatch_loop b1 l1 ctx = firstMatch_loop b2 l2 ctx.
Proof.
  induction 1 as [|r1 r2 l1 l2 (Hm & Hr & Hs & Hb & _) _ IH]; [done|]. cbn [firstMatch_loop].
  by rewrite Hm, Hr, Hs, Hb, IH.
Qed.

Lemma all_same b1 b2 l1 l2 ctx suppressed :
  Forall2 (same_rule b1 b2) l1 l2 -> all_loop b1 l1 ctx suppressed = all_loop b2 l2 ctx suppressed.
Proof.
  intros H. revert suppressed.
  induction H as [|r1 r2 l1 l2 (Hm & Hr & Hs & Hb & Hp) _ IH]; intros suppressed; [done|]. cbn [all_loop].
  rewrite Hm, Hs, Hp. destruct (negb _); [apply IH|]. rewrite IH. by rewrite Hr, Hb.
Qed.

Lemma Mode_All m1 m2 :
  (if bool_decide (m1 = "") then ModeAll else m1) = (if bool_decide (m2 = "") then ModeAll else m2) ->
  bool_decide (m1 = ModeFirstMatch) = bool_decide (m2 = ModeFirstMatch).
Proof. by repeat case_bool_decide; intros; subst. Qed.

Lemma block_view_eval cap cap' ns d b1 b2 ctx :
  block_ok cap ns d b1 -> block_ok cap' ns d b2 ->
  ruleview.view_block b1 = ruleview.view_block b2 -> evalBlock b1 ctx = evalBlock b2 ctx.
Proof.
  intros (_ & H1 & _) (_ & H2 & _) H. unfold ruleview.view_block in H.
  injection H as _ Hmode _ _ Hrules.
  pose proof (rules_view_same _ _ _ _ _ _ _ _ H1 H2 Hrules) as Hs.
  unfold evalBlock, evalFirstMatch, evalAll. rewrite (Mode_All _ _ Hmode).
  by rewrite (firstMatch_same _ _ _ _ ctx Hs), (all_same _ _ _ _ ctx ∅ Hs).
Qed.

Lemma route_view_same r1 r2 path method :
  route_textual r1 -> route_textual r2 -> ruleview.route r1 = ruleview.route r2 ->
  rt_Type r1 = rt_Type r2 /\ rt_Value r1 = rt_Value r2 /\ rt_Cost r1 = rt_Cost r2 /\
  method_admits r1 method = method_admits r2 method /\ matchPath r1 path = matchPath r2 path.
Proof.
  intros T1 T2 H. unfold ruleview.route in H. injection H as Ht Hv Hm Hc.
  assert (rt_Methods r1 = rt_Methods r2) as Hms.
  { apply sortedKeys_inj. revert Hm. by repeat case_bool_decide; intros; subst; rewrite ?H, ?H0. }
  assert (rt_Cost r1 = rt_Cost r2) as Hcs.
  { destruct (rt_Cost r1) as [[]|], (rt_Cost r2) as [[]|]; naive_solver. }
  split_and!; try done; [unfold method_admits; by rewrite Hms|].
  unfold matchPath. rewrite Ht, Hv. destruct (bool_decide (rt_Type r2 = PathTemplate)) eqn:E; [|done].
  apply bool_decide_eq_true in E. unfold route_textual in T1, T2.
  by rewrite T1, T2, Hv by congruence.
Qed.

Lemma match_routes_same l1 l2 path method :
  Forall route_textual l1 -> Forall route_textual l2 ->
  ruleview.route <$> l1 = ruleview.route <$> l2 ->
  match match_routes l1 path method, match_routes l2 path method with
  | Some (r1, a1, c1), Some (r2, a2, c2) => rt_Cost r1 = rt_Cost r2 /\ a1 = a2 /\ c1 = c2
  | None, None => True
  | _, _ => False
  end.
Proof.
  intros H1. revert l2. induction H1 as [|r1 l1 Hr H1 IH]; intros [|r2 l2] H2; try done.
  inversion H2; subst. cbn [fmap list_fmap]. intros [Hv Hl]%cons_inv.
  destruct (route_view_same r1 r2 path method) as (Ht & Hval & Hc & Hm & Hp); [done..|].
  cbn [match_routes]. rewrite Hm, Hp, Ht, Hval.
  destruct (negb (method_admits r2 method)); [by apply IH|].
  destruct (matchPath r2 path) as [caps|]; [|by apply IH].
  by destruct (bool_decide (rt_Type r2 = PathTemplate)).
Qed.

(** Two hits the rule phase cannot tell apart. *)
Definition same_hit (h1 h2 : hit) : Prop :=
  (forall ctx, evalBlock (h_block h1) ctx = evalBlock (h_block h2) ctx) /\
  h_pathAxis h1 = h_pathAxis h2 /\ h_captures h1 = h_captures h2 /\ h_cost h1 = h_cost h2.

Lemma match_block_same cap cap' ns d b1 b2 path query method :
  block_ok cap ns d b1 -> block_ok cap' ns d b2 ->
  Forall route_textual (bl_Routes b1) -> Forall route_textual (bl_Routes b2) ->
  ruleview.view_block b1 = ruleview.view_block b2 ->
  option_Forall2 same_hit (match_block b1 path query method) (match_block b2 path query method).
Proof.
  intros O1 O2 T1 T2 H.
  assert (forall ctx, evalBlock b1 ctx = evalBlock b2 ctx) as He by (intros; by eapply block_view_eval).
  unfold ruleview.view_block in H. injection H as _ _ Hr _ _.
  pose proof (match_routes_same _ _ path method T1 T2 Hr) as Hm.
  unfold match_block, matchTarget.
  destruct (bl_Routes b1) as [|r1 l1], (bl_Routes b2) as [|r2 l2]; try done.
  { constructor. split_and!; done. }
  destruct (match_routes (r1 :: l1) path method) as [[[x1 a1] c1]|],
    (match_routes (r2 :: l2) path method) as [[[x2 a2] c2]|]; try done; [|constructor].
  destruct Hm as (Hc & -> & ->). constructor. unfold same_hit. simpl. by rewrite Hc.
Qed.

Lemma blocks_view_same cap1 cap2 ns d l1 l2 path query method keys cost :
  Forall (block_ok cap1 ns d) l1 -> Forall (block_ok cap2 ns d) l2 ->
  Forall (fun c => Forall route_textual (bl_Routes c)) l1 ->
  Forall (fun c => Forall route_textual (bl_Routes c)) l2 ->
  ruleview.view_block <$> l1 = ruleview.view_block <$> l2 ->
  concat (map (fun h => evalBlock (h_block h) (hit_ctx method keys cost h))
    (omap (fun b => match_block b path query method) l1)) =
  concat (map (fun h => evalBlock (h_block h) (hit_ctx method keys cost h))
    (omap (fun b => match_block b path query method) l2)).
Proof.
  revert l2. induction l1 as [|b1 l1 IH]; intros [|b2 l2] O1 O2 T1 T2; try done.
  inversion O1; inversion O2; inversion T1; inversion T2; subst.
  cbn [fmap list_fmap]. intros [Hv Hl]%cons_inv.
  pose proof (match_block_same cap1 cap2 ns d b1 b2 path query method
    ltac:(done) ltac:(done) ltac:(done) ltac:(done) Hv) as Hm.
  simpl. destruct (match_block b1 path query method) as [h1|], (match_block b2 path query method) as [h2|];
    inversion Hm; simplify_eq; [|by apply IH].
  match goal with H : same_hit _ _ |- _ => destruct H as (He & Ha & Hc & Hco) end.
  simpl. unfold hit_ctx. rewrite He, Ha, Hc, Hco. f_equal. by apply IH.
Qed.

(** ** Properties *)

(** Two generations of a domain whose renderings agree enforce the same
    rules: whatever policies they were compiled from, every request, with any
    identity and cost, matches the same rules with the same counters and
    windows in both. The version of a rule set, a hash of its rendering,
    therefore stands for what the rule phase enforces. *)
Theorem equal_rendering_equal_decisions : forall ns d p1 p2 s1 s2 ps1 ps2 path method keys cost,
  Compile ns d p1 = Some (s1, ps1) -> Compile ns d p2 = Some (s2, ps2) ->
  ruleview.Render s1 = ruleview.Render s2 ->
  Evaluate (Match s1 path method) keys cost = Evaluate (Match s2 path method) keys cost.
Proof.
  intros ns d p1 p2 s1 s2 ps1 ps2 path method keys cost C1 C2 H.
  destruct (compile_blocks_ok _ _ _ _ _ C1) as [cap1 O1], (compile_blocks_ok _ _ _ _ _ C2) as [cap2 O2].
  destruct (compile_textual _ _ _ _ _ C1) as [_ T1], (compile_textual _ _ _ _ _ C2) as [_ T2].
  unfold ruleview.Render in H. injection H as _ _ _ Hb.
  unfold Match. destruct (Cut "?" path) as [[pa query] fnd]. unfold Evaluate. cbn [ca_hits ca_method].
  by eapply blocks_view_same.
Qed.

Definition view_demo (groups : list Group) (p : MPredicate) : Policy :=
  mkPolicy "gateway.public" [] groups
    [mkMBlock "api" [mkMRoute (mkPathMatch PathTemplate "/orders/{id}") ["GET"] None] ""
       [mkMRule "per-user" [p] ["sub"; "id"] [mkMRate 10 (60 * Second) 0 "GCRA"] "" []]].

Definition view_demo_group : option (Snapshot * list Problem) :=
  Compile "core" "gateway.public"
    (Some (view_demo [mkGroup "vip" ["alice"; "bob"]] (mkMPredicate "sub" OperatorInGroup "vip" []))).

Definition view_demo_list : option (Snapshot * list Problem) :=
  Compile "core" "gateway.public"
    (Some (view_demo [] (mkMPredicate "sub" OperatorIn "" ["bob"; "alice"]))).

Definition snap_of (c : option (Snapshot * list Problem)) : Snapshot :=
  match c with Some (s, _) => s | None => mkSnapshot "" [] [] [] 0 end.

(** A group and the list of its values render the same, and decide the same. *)
Lemma equal_rendering_equal_decisions_witness :
  view_demo_group <> view_demo_list /\
  length (Evaluate (Match (snap_of view_demo_group) "/orders/7" "GET") {["sub" := ["bob"]]} 1) = 1%nat /\
  Evaluate (Match (snap_of view_demo_group) "/orders/7" "GET") {["sub" := ["bob"]]} 1 =
  Evaluate (Match (snap_of view_demo_list) "/orders/7" "GET") {["sub" := ["bob"]]} 1.
Proof.
  split_and!; [by vm_compute|reflexivity|].
  apply (equal_rendering_equal_decisions "core" "gateway.public"
    (Some (view_demo [mkGroup "vip" ["alice"; "bob"]] (mkMPredicate "sub" OperatorInGroup "vip" [])))
    (Some (view_demo [] (mkMPredicate "sub" OperatorIn "" ["bob"; "alice"])))
    (snap_of view_demo_group) (snap_of view_demo_list) [] []); reflexivity.
Defined.
