(* ===== verification/MgmtErrors.v ===== *)
(** * service/internal/management/errors.go, http.go: refusals and requests

    The error catalog, the error value every handler returns, and the query
    string as the handlers read it. A client branches on the code, the fields
    and the conflict kind and never on the prose, so the text of a message is
    not part of an error here. *)
From S2P Require Import Prelude GoStrings Algo.

(** ** The catalog *)

Definition CodeInvalidRequest : string := "RLS-0400".
Definition CodeUnauthorized : string := "RLS-0401".
Definition CodeForbidden : string := "RLS-0403".
Definition CodeNotFound : string := "RLS-0404".
Definition CodeConflict : string := "RLS-0409".
Definition CodeGone : string := "RLS-0410".
Definition CodeWorkLimit : string := "RLS-0422".
Definition CodeInternal : string := "RLS-0500".
Definition CodeInterrupted : string := "RLS-0501".
Definition CodeStoreDown : string := "RLS-0503".
Definition CodeVerifierUnavailable : string := "RLS-0504".

Definition statuses : gmap string Z :=
  list_to_map [
    (CodeInvalidRequest, 400); (CodeUnauthorized, 401); (CodeForbidden, 403); (CodeNotFound, 404);
    (CodeConflict, 409); (CodeGone, 410); (CodeWorkLimit, 422); (CodeInternal, 500);
    (CodeInterrupted, 500); (CodeStoreDown, 503); (CodeVerifierUnavailable, 503)].

Definition ConflictCommandMismatch : string := "command_mismatch".
Definition ConflictStaleConfirmation : string := "stale_confirmation".
Definition ConflictStaleRuleSet : string := "stale_rule_set".
Definition ConflictSweepInFlight : string := "sweep_in_flight".

(** ** Disclosures *)

(** Exactly one of the counts is present: matched on a preview, reset on an
    execution. *)
Record BulkRuleCount := mkBulkRuleCount {
  brc_RuleID : string;
  brc_MatchedCount : option Z;
  brc_ResetCount : option Z }.

Record PartialReset := mkPartialReset {
  pt_DryRun : bool;
  pt_Scanned : Z;
  pt_MatchedCount : option Z;
  pt_ResetCount : option Z;
  pt_Rules : list BulkRuleCount;
  pt_Keys : list string;
  pt_Truncated : bool }.

(** ** Errors *)

(** [ae_Id] is [None] for the fresh id every new error mints, and the recorded
    one for a replay. *)
Record apiError := mkApiError {
  ae_Code : string;
  ae_Id : option string;
  ae_Fields : list string;
  ae_ConflictType : string;
  ae_PartialReset : option PartialReset;
  ae_RetryAfter : Z }.

Definition errorf (code : string) (fields : list string) : apiError := mkApiError code None fields "" None 0.

Definition invalid (fields : list string) : apiError := errorf CodeInvalidRequest fields.
Definition notFound : apiError := errorf CodeNotFound [].
Definition conflict (kind : string) : apiError := mkApiError CodeConflict None [] kind None 0.
Definition storeDown : apiError := errorf CodeStoreDown [].

Definition verifierRetryAfter : Z := 5 * Second.
Definition verifierUnavailable : apiError := mkApiError CodeVerifierUnavailable None [] "" None verifierRetryAfter.

Definition interrupted (partial : PartialReset) : apiError :=
  mkApiError CodeInterrupted None [] "" (Some partial) 0.
Definition workLimit (partial : PartialReset) : apiError :=
  mkApiError CodeWorkLimit None [] "" (Some partial) 0.

Definition withRetryAfter (wait : Z) (e : apiError) : apiError :=
  mkApiError (ae_Code e) (ae_Id e) (ae_Fields e) (ae_ConflictType e) (ae_PartialReset e) wait.

Definition replayOf (code id : string) (partial : PartialReset) : apiError :=
  mkApiError code (Some id) [] "" (Some partial) 0.

Definition status (e : apiError) : Z := default 500 (statuses !! ae_Code e).

(** *** The answer *)

(** One entry of the error's meta; the request id is the current call's. *)
Inductive meta_value := MRequestID (id : string) | MFields (fields : list string) | MConflict (kind : string) | MPartial (p : PartialReset).

Definition meta (e : apiError) (requestID : string) : list (string * meta_value) :=
  ("requestId", MRequestID requestID) ::
  (match ae_Fields e with [] => [] | fields => [("fields", MFields fields)] end) ++
  (if bool_decide (ae_ConflictType e = "") then [] else [("conflictType", MConflict (ae_ConflictType e))]) ++
  match ae_PartialReset e with None => [] | Some p => [("partialReset", MPartial p)] end.

Record error_answer := mkErrorAnswer {
  ea_Status : Z;
  ea_Headers : gmap string string;
  ea_Code : string;
  ea_Id : option string;
  ea_Meta : list (string * meta_value) }.

(** [int(math.Ceil(d.Seconds()))]; a wait is far below the 2^22 seconds whose
    nanoseconds a double tells apart. *)
Definition ceil_seconds (d : Z) : Z := (d + Second - 1) / Second.

Definition Handle (e : apiError) (requestID : string) : error_answer :=
  let headers : gmap string string := {["X-Content-Type-Options" := "nosniff"]} in
  let headers := if ae_RetryAfter e >? 0 then <["Retry-After" := pretty (ceil_seconds (ae_RetryAfter e))]> headers else headers in
  let headers := if bool_decide (ae_Code e = CodeUnauthorized) then <["WWW-Authenticate" := "Bearer"]> headers else headers in
  mkErrorAnswer (status e) headers (ae_Code e) (ae_Id e) (meta e requestID).

(** ** Queries *)

(** [url.Values] *)
Abbreviation Values := (gmap string (list string)).

(** [query.Get]: the first value, or the empty string. *)
Definition query_get (q : Values) (name : string) : string := default "" (head (default [] (q !! name))).

Definition axisPrefix : string := "axis.".

(** The names outside the whitelist, sorted; axis parameters are admitted as
    a family. *)
Definition checkQueryNames (q : Values) (allowed : list string) : result apiError unit :=
  let unknown := filter (fun name => name ∉ allowed /\ HasPrefix name axisPrefix = false)
                   (elements (dom q)) in
  match unknown with
  | [] => Ok tt
  | _ => Err (invalid (sort_strings unknown))
  end.

(** ** Lemmas *)

(** Only a client's mistake is answered with a 4xx, and every code of the
    catalog has a status. *)
Lemma status_classes (e : apiError) :
  (ae_Code e ∈ [CodeInternal; CodeInterrupted; CodeStoreDown; CodeVerifierUnavailable] -> 500 <= status e) /\
  (ae_Code e ∈ [CodeInvalidRequest; CodeUnauthorized; CodeForbidden; CodeNotFound; CodeConflict; CodeGone;
                CodeWorkLimit] -> 400 <= status e < 500).
Proof.
  unfold status. split; intros H; repeat (apply elem_of_cons in H as [->|H]; [vm_compute; done|]);
    by apply elem_of_nil in H.
Qed.

Lemma checkQueryNames_spec q allowed :
  checkQueryNames q allowed = Ok tt <->
  forall name, is_Some (q !! name) -> name ∈ allowed \/ HasPrefix name axisPrefix = true.
Proof.
  unfold checkQueryNames. set (l := filter _ _).
  assert (forall name, name ∈ l <-> is_Some (q !! name) /\ name ∉ allowed /\ HasPrefix name axisPrefix = false) as Hl.
  { intros name. unfold l. rewrite list_elem_of_filter, elem_of_elements, elem_of_dom. naive_solver. }
  split.
  - intros H name Hn. destruct l as [|x l']; [|done].
    destruct (decide (name ∈ allowed)); [by left|right].
    destruct (HasPrefix name axisPrefix) eqn:E; [done|]. exfalso.
    apply (not_elem_of_nil name), Hl. done.
  - intros H. destruct l as [|x l'] eqn:E; [done|]. exfalso.
    destruct (proj1 (Hl x)) as (Hx & Hna & Hp); [left|]. destruct (H x Hx); [done|congruence].
Qed.

(** The wait a refusal names is enough and less than a second too long, and a
    replay is answered as the failure it repeats apart from the request id. *)
Lemma Handle_retry_after e requestID :
  0 < ae_RetryAfter e ->
  ea_Headers (Handle e requestID) !! "Retry-After" = Some (pretty (ceil_seconds (ae_RetryAfter e))) /\
  ae_RetryAfter e <= ceil_seconds (ae_RetryAfter e) * Second < ae_RetryAfter e + Second.
Proof.
  intros Hr. split.
  - cbn. rewrite Z.gtb_ltb, (proj2 (Z.ltb_lt _ _)) by done.
    destruct (bool_decide _); [rewrite lookup_insert_ne by done|]; by rewrite lookup_insert_eq.
  - unfold ceil_seconds. pose proof (Z.div_mod (ae_RetryAfter e + Second - 1) Second ltac:(done)).
    pose proof (Z.mod_pos_bound (ae_RetryAfter e + Second - 1) Second ltac:(done)). unfold Second in *. lia.
Qed.

Lemma Handle_replay code id partial r r' :
  let e := mkApiError code (Some id) [] "" (Some partial) 0 in
  let a := Handle e r in
  let b := Handle (replayOf code id partial) r' in
  ea_Status b = ea_Status a /\ ea_Headers b = ea_Headers a /\ ea_Code b = ea_Code a /\ ea_Id b = ea_Id a /\
  tail (ea_Meta b) = tail (ea_Meta a).
Proof. done. Qed.
