(* ===== verification/Selector.v ===== *)
(** * service/internal/management/selector.go, normalize.go: selections

    The selection grammar of the management API (rules, window, identity,
    state), its canonical form, the key-level filters and the continuation
    cursor of a listing. JSON text, hashing and [time.ParseDuration] are
    operations of the Go library the definitions are parameterised by; base64
    is modelled. *)
From S2P Require Import Prelude GoStrings Algo Key Model Compile MatchKeys Identity MgmtKeys RuleView MgmtErrors.

(** ** Definitions *)

Record selector := mkSelector {
  se_RuleIDs : list string;
  se_Algorithm : string;
  se_PeriodSeconds : Z;
  se_Axes : gmap string (list string);
  se_LimitedOnly : bool }.

#[export] Instance selector_eq_dec : EqDecision selector.
Proof. solve_decision. Defined.

Definition no_selector : selector := mkSelector [] "" 0 ∅ false.

(** The continuation inside a cursor. *)
Record cursor := mkCursor { cu_Step : string; cu_Fingerprint : string; cu_ExpiresAt : Z }.

(** What the management side uses of the Go library: [json.Marshal] of a value
    built field by field, the codec of the cursor, and [time.ParseDuration]. *)
Class GoText := {
  MarshalJSON : json -> string;
  MarshalCursor : cursor -> string;
  UnmarshalCursor : string -> option cursor;
  ParseDuration : string -> option Z }.

(** [sortedUnique]: the first of equal values, then in order. *)
Fixpoint unique_loop (seen : gset string) (values : list string) : list string :=
  match values with
  | [] => []
  | v :: values =>
      if bool_decide (v ∈ seen) then unique_loop seen values else v :: unique_loop ({[v]} ∪ seen) values
  end.

Definition sortedUnique (values : list string) : list string := sort_strings (unique_loop ∅ values).

Definition checkRuleIDForm (id field : string) : result apiError unit :=
  let parts := Split "/" id in
  if (2 <? length parts)%nat then Err (invalid [field])
  else if bool_decide ("" ∈ parts) then Err (invalid [field])
  else Ok tt.

Fixpoint check_ids (ids : list string) (field : string) : result apiError unit :=
  match ids with
  | [] => Ok tt
  | id :: ids => let? _ := checkRuleIDForm id field in check_ids ids field
  end.

Definition parseEnumTrue (q : Values) (name : string) : result apiError bool :=
  let raw := query_get q name in
  if bool_decide (raw = "") then Ok false
  else if bool_decide (raw = "true") then Ok true
  else Err (invalid [name]).

(** The axis parameters one by one; the map is read in some order. *)
Fixpoint axes_loop (params : list (string * list string)) (axes : gmap string (list string))
    : result apiError (gmap string (list string)) :=
  match params with
  | [] => Ok axes
  | (parameter, values) :: params =>
      match CutPrefix parameter axisPrefix with
      | None => axes_loop params axes
      | Some name =>
          if bool_decide (name = "") then Err (invalid [parameter])
          else if bool_decide ("" ∈ values) then Err (invalid [parameter])
          else axes_loop params (<[name := sortedUnique values]> axes)
      end
  end.

Definition parseAxes (q : Values) : result apiError (gmap string (list string)) :=
  axes_loop (map_to_list q) ∅.

Definition selectorParams (extra : list string) : list string :=
  ["ruleId"; "algorithm"; "period"; "limited"] ++ extra.

(** *** The filters *)

Definition matchesRuleID (id : string) (parsed : counterKey) : bool :=
  match Split "/" id with
  | [block] => bool_decide (ck_Block parsed = block)
  | [_; _] => bool_decide (ck_RuleID parsed = id)
  | _ => false
  end.

Definition matches (s : selector) (parsed : counterKey) : bool :=
  if negb (bool_decide (se_Algorithm s = "")) && negb (bool_decide (ck_Algorithm parsed = se_Algorithm s)) then false
  else if negb (se_PeriodSeconds s =? 0) && negb (ck_PeriodSeconds parsed =? se_PeriodSeconds s) then false
  else match se_RuleIDs s with
       | [] => true
       | ids => existsb (fun id => matchesRuleID id parsed) ids
       end.

Definition matchesAxes (s : selector) (axes : gmap string string) : bool :=
  forallb (fun nw : string * list string => match axes !! nw.1 with
                     | None => false
                     | Some value => bool_decide (value ∈ nw.2)
                     end) (map_to_list (se_Axes s)).

(** *** Text *)

(** [hex.EncodeToString] *)
Definition hex_lower (n : nat) : ascii := ascii_of_nat (if (n <? 10)%nat then 48 + n else 87 + n)%nat.

Fixpoint hex_encode (s : string) : string :=
  match s with
  | EmptyString => EmptyString
  | String c s => String (hex_lower (nat_of_ascii c / 16)) (String (hex_lower (nat_of_ascii c mod 16)) (hex_encode s))
  end.

(** [base64.RawURLEncoding.EncodeToString] *)
Definition sextet_char (n : nat) : ascii :=
  ascii_of_nat (if (n <? 26)%nat then 65 + n else if (n <? 52)%nat then 71 + n
                else if (n <? 62)%nat then n - 4 else if (n =? 62)%nat then 45 else 95)%nat.

Fixpoint base64_encode (s : list ascii) : list ascii :=
  match s with
  | [] => []
  | [a] =>
      let x := nat_of_ascii a in
      [sextet_char (x / 4); sextet_char (x mod 4 * 16)]
  | [a; b] =>
      let x := nat_of_ascii a in let y := nat_of_ascii b in
      [sextet_char (x / 4); sextet_char (x mod 4 * 16 + y / 16); sextet_char (y mod 16 * 4)]
  | a :: b :: c :: rest =>
      let x := nat_of_ascii a in let y := nat_of_ascii b in let z := nat_of_ascii c in
      sextet_char (x / 4) :: sextet_char (x mod 4 * 16 + y / 16) ::
      sextet_char (y mod 16 * 4 + z / 64) :: sextet_char (z mod 64) :: base64_encode rest
  end.

Definition EncodeToString (s : string) : string :=
  String.string_of_list_ascii (base64_encode (String.list_ascii_of_string s)).

(** [time.Time.Unix] of an instant in nanoseconds *)
Definition Unix (t : Z) : Z := t / Second.

Definition cursorTTL : Z := 10 * 60 * Second.

Section platform.
Context {PL : Platform} {GT : GoText}.

(** The canonical form: absent fields absent, the map's keys in order. *)
Definition axis_field (axes : gmap string (list string)) (n : string) : string * json :=
  (n, JArray (JString <$> default [] (axes !! n))).

Definition axes_json (axes : gmap string (list string)) : json :=
  JObject (axis_field axes <$> sort_strings (elements (dom axes))).

Definition selector_fields (s : selector) : list (string * json) :=
  (match se_RuleIDs s with [] => [] | ids => [("ruleIds", JArray (JString <$> ids))] end) ++
  (if bool_decide (se_Algorithm s = "") then [] else [("algorithm", JString (se_Algorithm s))]) ++
  (if se_PeriodSeconds s =? 0 then [] else [("periodSeconds", JNumber (pretty (se_PeriodSeconds s)))]) ++
  (if bool_decide (se_Axes s = ∅) then [] else [("axes", axes_json (se_Axes s))]) ++
  (if se_LimitedOnly s then [("limited", JBool true)] else []).

Definition canonical (s : selector) : string := MarshalJSON (JObject (selector_fields s)).

Definition fingerprint (s : selector) : string := take_str 16 (hex_encode (Sum256 (canonical s))).

Definition encodeCursor (step : string) (s : selector) (now : Z) : string :=
  EncodeToString (MarshalCursor (mkCursor step (fingerprint s) (Unix (now + cursorTTL)))).

Definition decodeCursor (raw : string) (s : selector) (now : Z) : result apiError string :=
  match DecodeString false raw with
  | None => Err (invalid ["cursor"])
  | Some buf =>
      match UnmarshalCursor buf with
      | None => Err (invalid ["cursor"])
      | Some parsed =>
          if negb (bool_decide (cu_Fingerprint parsed = fingerprint s)) then Err (invalid ["cursor"])
          else if Unix now >? cu_ExpiresAt parsed then Err (invalid ["cursor"])
          else Ok (cu_Step parsed)
      end
  end.

(** *** Parsing *)

Definition parsePeriod (raw field : string) : result apiError Z :=
  match ParseInt raw with
  | Some seconds => if seconds <=? 0 then Err (invalid [field]) else Ok seconds
  | None =>
      match ParseDuration raw with
      | None => Err (invalid [field])
      | Some period =>
          if (period <=? 0) || negb (period %i Second =? 0) then Err (invalid [field])
          else Ok (period /i Second)
      end
  end.

Definition parse_algorithm (raw : string) : string := if bool_decide (raw = "") then "" else ToLower raw.

Definition parse_period_opt (raw field : string) : result apiError Z :=
  if bool_decide (raw = "") then Ok 0 else parsePeriod raw field.

Definition parseSelector (q : Values) : result apiError selector :=
  let ids := default [] (q !! "ruleId") in
  let? _ := check_ids ids "ruleId" in
  let? seconds := parse_period_opt (query_get q "period") "period" in
  let? limited := parseEnumTrue q "limited" in
  let? axes := parseAxes q in
  Ok (mkSelector (sortedUnique ids) (parse_algorithm (query_get q "algorithm")) seconds axes limited).

(** *** normalize.go *)

(** The first extraction whose normalization would change a given value. *)
Fixpoint unnormalized_loop (plan : list KeyExtraction) (values : gmap string (list string))
    (captured : gset string) : option string :=
  match plan with
  | [] => None
  | e :: plan =>
      if negb (bool_decide (ke_Normalization e = NormalizeLowercase)) || bool_decide (ke_Key e ∈ captured)
      then unnormalized_loop plan values captured
      else if existsb (fun v => negb (bool_decide (ToLower v = v))) (default [] (values !! ke_Key e))
      then Some (ke_Key e)
      else unnormalized_loop plan values captured
  end.

Definition unnormalized (snapshot : Snapshot) (values : gmap string (list string)) (captured : gset string)
    (field : string -> string) : result apiError unit :=
  match unnormalized_loop (s_Extraction snapshot) values captured with
  | Some k => Err (invalid [field k])
  | None => Ok tt
  end.

End platform.

Definition capturedKeys (snapshot : Snapshot) (ruleIDs : list string) : gset string :=
  let addressed : gset string := list_to_set ((fun id => (Cut "/" id).1.1) <$> ruleIDs) in
  list_to_set (concat (bl_Captures <$>
    filter (fun b => addressed = ∅ \/ bl_Name b ∈ addressed) (s_Blocks snapshot))).

Definition axisField (key : string) : string := axisPrefix +:+ key.

Definition singleValues (axes : gmap string string) : gmap string (list string) := (fun v => [v]) <$> axes.

(** ** Lemmas *)

(** *** Canonical lists *)

Lemma unique_loop_spec seen values :
  NoDup (unique_loop seen values) /\
  forall v, v ∈ unique_loop seen values <-> v ∈ values /\ v ∉ seen.
Proof.
  revert seen. induction values as [|x l IH]; intros seen; cbn [unique_loop].
  { split; [apply NoDup_nil_2|]. intros v. rewrite elem_of_nil. tauto. }
  case_bool_decide as Hx.
  - destruct (IH seen) as [Hn Hv]. split; [done|]. intros v. rewrite Hv, elem_of_cons. naive_solver.
  - destruct (IH ({[x]} ∪ seen)) as [Hn Hv]. split.
    + apply NoDup_cons. split; [|done]. rewrite Hv. set_solver.
    + intros v. rewrite elem_of_cons, Hv, elem_of_cons, elem_of_union, elem_of_singleton.
      destruct (decide (v = x)) as [->|]; naive_solver.
Qed.

Lemma elem_of_sortedUnique v values : v ∈ sortedUnique values <-> v ∈ values.
Proof.
  unfold sortedUnique. rewrite sort_strings_Permutation. rewrite (proj2 (unique_loop_spec ∅ values)). set_solver.
Qed.

Lemma sortedUnique_NoDup values : NoDup (sortedUnique values).
Proof. unfold sortedUnique. rewrite sort_strings_Permutation. apply unique_loop_spec. Qed.

(** Two spellings of one set of values are one list. *)
Lemma sortedUnique_canonical l k : (forall v, v ∈ l <-> v ∈ k) -> sortedUnique l = sortedUnique k.
Proof.
  intros E. unfold sortedUnique. apply sort_strings_perm, NoDup_Permutation; try apply unique_loop_spec.
  intros v. by rewrite !(proj2 (unique_loop_spec ∅ _)), E.
Qed.

(** *** base64 *)

Lemma sextet_sextet_char n : (n < 64)%nat -> sextet (sextet_char n) = Some n.
Proof. intros Hn. do 64 (destruct n as [|n]; [reflexivity|]). lia. Qed.

Lemma sextet_char_plain n :
  (n < 64)%nat -> sextet_char n <> ascii_of_nat 10 /\ sextet_char n <> ascii_of_nat 13.
Proof. intros Hn. do 64 (destruct n as [|n]; [by vm_compute|]). lia. Qed.

Lemma ascii_bound a : (nat_of_ascii a < 256)%nat.
Proof. destruct a as [[] [] [] [] [] [] [] []]; vm_compute; lia. Qed.

(** The three bytes of a quantum from their bits. *)
Lemma quantum_bytes x y z :
  (x < 256)%nat -> (y < 256)%nat -> (z < 256)%nat ->
  (x / 4 * 4 + (x mod 4 * 16 + y / 16) / 16 = x)%nat /\
  ((x mod 4 * 16 + y / 16) mod 16 * 16 + (y mod 16 * 4 + z / 64) / 4 = y)%nat /\
  ((y mod 16 * 4 + z / 64) mod 4 * 64 + z mod 64 = z)%nat /\
  (x / 4 < 64 /\ x mod 4 * 16 + y / 16 < 64 /\ y mod 16 * 4 + z / 64 < 64 /\ z mod 64 < 64)%nat.
Proof.
  intros Hx Hy Hz.
  pose proof (Nat.div_mod_eq x 4). pose proof (Nat.mod_upper_bound x 4).
  pose proof (Nat.div_mod_eq y 16). pose proof (Nat.mod_upper_bound y 16).
  pose proof (Nat.div_mod_eq z 64). pose proof (Nat.mod_upper_bound z 64).
  assert (y / 16 < 16 /\ z / 64 < 4)%nat as [? ?] by lia.
  rewrite !Nat.div_add_l, !(Nat.div_small (_ / _)) by lia.
  rewrite (Nat.add_comm (x mod 4 * 16)), (Nat.add_comm (y mod 16 * 4)), !Nat.Div0.mod_add.
  rewrite !(Nat.mod_small (_ / _)) by lia. lia.
Qed.

Lemma base64_roundtrip (s : list ascii) :
  base64_quanta false (base64_encode s) = Some s /\
  Forall (fun c => c <> ascii_of_nat 10 /\ c <> ascii_of_nat 13) (base64_encode s).
Proof.
  assert (forall n (t : list ascii), (length t <= n)%nat ->
    base64_quanta false (base64_encode t) = Some t /\
    Forall (fun c => c <> ascii_of_nat 10 /\ c <> ascii_of_nat 13) (base64_encode t)) as H; [|by eapply H].
  induction n as [|n IH]; intros t Hl.
  { destruct t; [done|simpl in Hl; lia]. }
  destruct t as [|a [|b [|c rest]]]; [done|..].
  - destruct (quantum_bytes (nat_of_ascii a) 0 0) as (E1 & _ & _ & B1 & B2 & _);
      [apply ascii_bound|lia|lia|].
    change ((0 / 16)%nat) with 0%nat in *. rewrite Nat.add_0_r in *.
    split; [|repeat constructor; by apply sextet_char_plain].
    cbn [base64_encode base64_quanta]. rewrite !sextet_sextet_char by done. cbn [mbind option_bind].
    unfold byte1. by rewrite E1, Ascii.ascii_nat_embedding.
  - destruct (quantum_bytes (nat_of_ascii a) (nat_of_ascii b) 0) as (E1 & E2 & _ & B1 & B2 & B3 & _);
      [apply ascii_bound|apply ascii_bound|lia|].
    change ((0 / 64)%nat) with 0%nat in *. rewrite Nat.add_0_r in B3.
    split; [|repeat constructor; by apply sextet_char_plain].
    cbn [base64_encode base64_quanta]. rewrite !sextet_sextet_char by done. cbn [mbind option_bind].
    unfold byte1, byte2. rewrite Nat.add_0_r in E2. by rewrite E1, E2, !Ascii.ascii_nat_embedding.
  - destruct (quantum_bytes (nat_of_ascii a) (nat_of_ascii b) (nat_of_ascii c))
      as (E1 & E2 & E3 & B1 & B2 & B3 & B4); [apply ascii_bound..|].
    destruct (IH rest) as [IHr IHf]; [simpl in Hl; lia|].
    split; [|cbn [base64_encode]; repeat (constructor; [by apply sextet_char_plain|]); done].
    cbn [base64_encode base64_quanta]. rewrite !sextet_sextet_char by done. cbn [mbind option_bind andb].
    rewrite IHr. cbn [mbind option_bind].
    unfold byte1, byte2, byte3. by rewrite E1, E2, E3, !Ascii.ascii_nat_embedding.
Qed.

Lemma DecodeString_Encode s : DecodeString false (EncodeToString s) = Some s.
Proof.
  unfold DecodeString, EncodeToString. rewrite String.list_ascii_of_string_of_list_ascii.
  destruct (base64_roundtrip (String.list_ascii_of_string s)) as [Hq Hf].
  rewrite filter_all by done. rewrite Hq. cbn [fmap option_fmap option_map].
  by rewrite String.string_of_list_ascii_of_string.
Qed.

(** *** The canonical form tells selections apart *)

Lemma JString_list_inj (l k : list string) : JString <$> l = JString <$> k -> l = k.
Proof.
  revert k. induction l as [|x l IH]; intros [|y k]; try done. cbn [fmap list_fmap].
  intros [= -> H]. f_equal. by apply IH.
Qed.

Lemma axes_json_inj a b : axes_json a = axes_json b -> a = b.
Proof.
  unfold axes_json. intros [= H].
  assert (forall m l, (axis_field m <$> l).*1 = l) as Hn.
  { intros m l. rewrite <- list_fmap_compose. apply list_fmap_id. }
  pose proof (f_equal (fmap fst) H) as Hk. rewrite !Hn in Hk.
  assert (forall n, n ∈ dom a <-> n ∈ dom b) as Hd.
  { intros n. rewrite <- !elem_of_elements.
    by rewrite <- (sort_strings_Permutation (elements (dom a))), <- (sort_strings_Permutation (elements (dom b))), Hk. }
  apply map_eq. intros n. destruct (a !! n) as [v|] eqn:Ea.
  - assert (n ∈ dom a) as Hin by (by eapply elem_of_dom_2). pose proof (proj1 (Hd n) Hin) as Hb.
    apply elem_of_dom in Hb as [w Hw]. rewrite Hw. f_equal.
    assert (axis_field a n ∈ axis_field b <$> sort_strings (elements (dom b))) as Hf.
    { rewrite <- H. apply list_elem_of_fmap. exists n. split; [done|].
      by rewrite sort_strings_Permutation, elem_of_elements. }
    apply list_elem_of_fmap in Hf as (n' & Hf & _). unfold axis_field in Hf. injection Hf as <- Hf.
    rewrite Ea, Hw in Hf. by apply JString_list_inj in Hf.
  - symmetry. apply not_elem_of_dom. rewrite <- Hd. by apply not_elem_of_dom.
Qed.

Lemma selector_fields_inj s t : selector_fields s = selector_fields t -> s = t.
Proof.
  unfold selector_fields. destruct s as [i1 a1 p1 x1 l1], t as [i2 a2 p2 x2 l2]. simpl. intros H.
  assert (i1 = i2) as ->.
  { destruct i1, i2; try done; simpl in H.
    - repeat case_bool_decide; destruct (p1 =? 0), l1; simplify_eq.
    - repeat case_bool_decide; destruct (p2 =? 0), l2; simplify_eq.
    - injection H as -> H _. f_equal. by apply JString_list_inj. }
  apply app_inv_head in H.
  assert (a1 = a2) as ->.
  { repeat case_bool_decide; subst; try done; simpl in H;
      repeat match goal with H : context [if ?b then _ else _] |- _ => destruct b end; simplify_eq/=; done. }
  apply app_inv_head in H.
  assert (p1 = p2) as ->.
  { destruct (Z.eqb_spec p1 0), (Z.eqb_spec p2 0); subst; try done; simpl in H;
      repeat match goal with H : context [if ?b then _ else _] |- _ => destruct b end; simplify_eq/=; try done;
      by apply (inj pretty). }
  apply app_inv_head in H.
  assert (x1 = x2) as ->.
  { repeat case_bool_decide; subst; try done; simpl in H; destruct l1, l2; try discriminate H;
      apply axes_json_inj; unfold axes_json in *; congruence. }
  apply app_inv_head in H. by destruct l1, l2; simplify_eq/=.
Qed.

(** *** The axis parameters *)

Lemma axes_loop_spec params axes out :
  NoDup params.*1 -> axes_loop params axes = Ok out ->
  forall name, out !! name =
    match find_first (fun pv => bool_decide (pv.1 = axisPrefix +:+ name)) params with
    | Some pv => Some (sortedUnique pv.2)
    | None => axes !! name
    end.
Proof.
  revert axes. induction params as [|[p vs] l IH]; intros axes Hn H name; cbn [axes_loop] in H; [by injection H as ->|].
  apply NoDup_cons in Hn as [Hp Hn]. unfold CutPrefix in H. cbn [find_first fst snd].
  destruct (HasPrefix p axisPrefix) eqn:E.
  - apply prefix_spec in E as [r ->]. unfold TrimPrefix, HasPrefix in H. rewrite prefix_app, drop_str_app in H.
    destruct (bool_decide (r = "")); [done|]. destruct (bool_decide ("" ∈ vs)); [done|].
    rewrite (IH _ Hn H). destruct (decide (r = name)) as [->|Hne].
    + rewrite (bool_decide_true (axisPrefix +:+ name = _)) by done. rewrite lookup_insert_eq.
      destruct (find_first _ l) as [pv|] eqn:Hf; [|done].
      apply find_first_Some in Hf as [Hin Hb]. apply bool_decide_eq_true in Hb. destruct Hp.
      apply list_elem_of_fmap. exists pv. by rewrite Hb.
    + rewrite (bool_decide_false (axisPrefix +:+ r = _)) by (by intros [= ?]).
      by rewrite lookup_insert_ne.
  - rewrite (IH _ Hn H). rewrite (bool_decide_false (p = _)); [done|].
    intros ->. unfold HasPrefix in E. by rewrite prefix_app in E.
Qed.

Lemma parseAxes_spec q axes :
  parseAxes q = Ok axes -> forall name, axes !! name = sortedUnique <$> q !! (axisPrefix +:+ name).
Proof.
  unfold parseAxes. intros H name.
  rewrite (axes_loop_spec _ _ _ (NoDup_fst_map_to_list q) H), lookup_empty.
  destruct (find_first _ _) as [[p vs]|] eqn:Hf.
  - apply find_first_Some in Hf as [Hin Hb]. apply bool_decide_eq_true in Hb. cbn [fst] in Hb. subst p.
    apply elem_of_map_to_list in Hin. by rewrite Hin.
  - destruct (q !! (axisPrefix +:+ name)) as [vs|] eqn:E; [|done]. exfalso.
    apply elem_of_map_to_list in E. apply find_first_None in Hf.
    rewrite Forall_forall in Hf. specialize (Hf _ E). cbn [fst] in Hf. by rewrite bool_decide_true in Hf.
Qed.

(** ** Properties *)

(** Two queries that say the same: the same rule ids and the same values of
    each axis as sets, the same algorithm up to case, the same window length
    however spelled, and the same state filter. *)
Definition spelled_alike `{Platform} `{GoText} (q1 q2 : Values) : Prop :=
  (forall v, v ∈ default [] (q1 !! "ruleId") <-> v ∈ default [] (q2 !! "ruleId")) /\
  parse_algorithm (query_get q1 "algorithm") = parse_algorithm (query_get q2 "algorithm") /\
  parse_period_opt (query_get q1 "period") "period" = parse_period_opt (query_get q2 "period") "period" /\
  query_get q1 "limited" = query_get q2 "limited" /\
  forall name, match q1 !! (axisPrefix +:+ name), q2 !! (axisPrefix +:+ name) with
               | Some l, Some k => forall v, v ∈ l <-> v ∈ k
               | None, None => True
               | _, _ => False
               end.

(** One canonical form per selection: two queries spelled alike that parse,
    parse to one selector. *)
Lemma parseSelector_alike `{Platform} `{GoText} q1 q2 s1 s2 :
  spelled_alike q1 q2 -> parseSelector q1 = Ok s1 -> parseSelector q2 = Ok s2 -> s1 = s2.
Proof.
  intros (Hi & Ha & Hp & Hl & Hx) H1 H2. unfold parseSelector, parseEnumTrue in H1, H2.
  rewrite <- Ha, <- Hp, <- Hl in H2.
  destruct (check_ids _ _); [|done]. destruct (check_ids _ _); [|done].
  destruct (parse_period_opt _ _) as [secs|]; [|done].
  destruct (if bool_decide (query_get q1 "limited" = "") then _ else _) as [lim|]; [|done].
  destruct (parseAxes q1) as [x1|] eqn:E1; [|done]. destruct (parseAxes q2) as [x2|] eqn:E2; [|done].
  injection H1 as <-. injection H2 as <-. f_equal; [by apply sortedUnique_canonical|].
  apply map_eq. intros name. rewrite (parseAxes_spec _ _ E1), (parseAxes_spec _ _ E2).
  specialize (Hx name). destruct (q1 !! (axisPrefix +:+ name)) as [l|], (q2 !! (axisPrefix +:+ name)) as [k|]; try done.
  cbn [fmap option_fmap option_map]. f_equal. by apply sortedUnique_canonical.
Qed.

(** A continuation resumes the listing it was minted for and no other: the
    cursor a page returns, presented with any spelling of the same selection
    within its lifetime, reads back as the store cursor inside it; presented
    with another selection, or later, it is refused as a bad cursor. The Go
    JSON codec reads back the continuation it wrote, and the 64 bits of the
    selection hash do not collide on the two selections. *)
Theorem listing_cursor_roundtrip : forall `{Platform} `{GoText} step s s' now now',
  UnmarshalCursor (MarshalCursor (mkCursor step (fingerprint s) (Unix (now + cursorTTL)))) =
    Some (mkCursor step (fingerprint s) (Unix (now + cursorTTL))) ->
  (fingerprint s = fingerprint s' -> selector_fields s = selector_fields s') ->
  decodeCursor (encodeCursor step s now) s' now' =
  if decide (s = s' /\ Unix now' <= Unix (now + cursorTTL)) then Ok step else Err (invalid ["cursor"]).
Proof.
  intros ?? step s s' now now' Hj Hf. unfold decodeCursor, encodeCursor.
  rewrite DecodeString_Encode, Hj. cbn [cu_Fingerprint cu_ExpiresAt cu_Step].
  destruct (decide (s = s')) as [<-|Hne].
  - rewrite bool_decide_true by done. cbn [negb].
    destruct (Z.gtb_spec (Unix now') (Unix (now + cursorTTL))) as [Hg|Hg]; case_decide as E; try done;
      [destruct E; lia|destruct E; split; [done|lia]].
  - rewrite bool_decide_false by (intros E; by apply Hne, selector_fields_inj, Hf). cbn [negb].
    case_decide as E; [by destruct E|done].
Qed.

(** A library that prints a continuation as its fields between colons. *)
Fixpoint demo_json (j : json) : string :=
  match j with
  | JNull => "n"
  | JBool b => if b then "t" else "f"
  | JNumber d => d
  | JString v => "'" +:+ escape v +:+ "'"
  | JArray l => "[" +:+ foldr (fun x acc => demo_json x +:+ "," +:+ acc) "]" l
  | JObject l => "{" +:+ foldr (fun x acc => escape x.1 +:+ ":" +:+ demo_json x.2 +:+ "," +:+ acc) "}" l
  end.

Definition demo_text : GoText := {|
  MarshalJSON := demo_json;
  MarshalCursor c := cu_Fingerprint c +:+ ":" +:+ pretty (cu_ExpiresAt c) +:+ ":" +:+ cu_Step c;
  UnmarshalCursor raw :=
    let '(f, rest, _) := Cut ":" raw in
    let '(e, step, _) := Cut ":" rest in
    expires ← ParseInt e; Some (mkCursor step f expires);
  ParseDuration s := if bool_decide (s = "1m") then Some (60 * Second) else None |}.

Definition demo_mgmt_platform : Platform := {|
  Unmarshal _ := None;
  ToLower := ToLowerASCII;
  Sum256 s := drop_str 10 s |}.

Definition demo_selector (ids : list string) : selector := mkSelector ids "gcra" 60 ∅ false.

Lemma listing_cursor_roundtrip_witness :
  decodeCursor (PL := demo_mgmt_platform) (GT := demo_text)
    (encodeCursor (PL := demo_mgmt_platform) (GT := demo_text) "10.0.0.7:6379@42" (demo_selector ["api/per-user"])
       (1000 * Second)) (demo_selector ["api/per-user"]) (1600 * Second) = Ok "10.0.0.7:6379@42" /\
  decodeCursor (PL := demo_mgmt_platform) (GT := demo_text)
    (encodeCursor (PL := demo_mgmt_platform) (GT := demo_text) "10.0.0.7:6379@42" (demo_selector ["api/per-user"])
       (1000 * Second)) (demo_selector ["api"]) (1600 * Second) = Err (invalid ["cursor"]).
Proof.
  split.
  - apply (@listing_cursor_roundtrip demo_mgmt_platform demo_text "10.0.0.7:6379@42" (demo_selector ["api/per-user"])
      (demo_selector ["api/per-user"])); [by vm_compute|done].
  - apply (@listing_cursor_roundtrip demo_mgmt_platform demo_text "10.0.0.7:6379@42" (demo_selector ["api/per-user"])
      (demo_selector ["api"])); [by vm_compute|intros E; by vm_compute in E].
Defined.
