(* ===== verification/Listing.v ===== *)
(** * service/internal/management/counters.go: listing live counters

    A page of a domain's counters: a walk along the store's cursors that keeps
    the keys the selection admits, a judgement of the kept counters at a cost
    of one that charges nothing, and the view of each. The store is behind the
    inspection interface; its [i]-th call finds the clock and the state
    [world i], whatever other calls ran in between. *)
From S2P Require Import Prelude GoStrings Algo Key StoreApi Model Compile MatchKeys Identity MgmtKeys RuleView MgmtErrors Selector.

(** ** The inspection interface *)

(** [Inspector.Scan] of the store contract. The laws are its promise for a
    walk along the chain of cursors, each step asking for any amount of work:
    only keys live under the prefix are returned, and a key live at every step
    of the walk is. *)
Class Inspector (S : Type) := {
  insp_scan : Z -> string -> string -> Z -> S -> result StoreError (list string * string);
  insp_alive : Z -> S -> string -> Prop }.

(** A chain of steps from a cursor to the end of the walk: the steps' readings
    of the store, and the keys they returned. *)
Inductive chain {S} `{Inspector S} (prefix : string) : string -> list (Z * S) -> list string -> Prop :=
| chain_end now s limit c keys :
    1 <= limit -> insp_scan now prefix c limit s = Ok (keys, "") -> chain prefix c [(now, s)] keys
| chain_step now s limit c keys next ws rest :
    1 <= limit -> insp_scan now prefix c limit s = Ok (keys, next) -> next <> "" ->
    chain prefix next ws rest -> chain prefix c ((now, s) :: ws) (keys ++ rest).

Class InspectorLaws (S : Type) `{Inspector S} := {
  insp_sound : forall prefix ws keys k,
    chain prefix "" ws keys -> k ∈ keys ->
    HasPrefix k prefix = true /\ exists ns, ns ∈ ws /\ insp_alive ns.1 ns.2 k;
  insp_complete : forall prefix ws keys k,
    chain prefix "" ws keys -> k <> "" -> HasPrefix k prefix = true ->
    (forall ns, ns ∈ ws -> insp_alive ns.1 ns.2 k) -> k ∈ keys }.

(** ** Definitions *)

Definition scanBudget : Z := 12000.
Definition maxScanSteps : nat := 128.
Definition defaultPageSize : Z := 100.
Definition maxPageSize : Z := 500.

Definition parsePageSize (raw : string) : result apiError Z :=
  if bool_decide (raw = "") then Ok defaultPageSize
  else match ParseInt raw with
       | None => Err (invalid ["pageSize"])
       | Some size =>
           if size <? 1 then Err (invalid ["pageSize"])
           else if size >? maxPageSize then Err (invalid ["pageSize"])
           else Ok size
       end.

Record rateRef := mkRateRef { rr_block : Block; rr_rule : Rule; rr_rate : Rate }.

Definition ref_shadow (r : rateRef) : bool := bool_decide (ru_Behavior (rr_rule r) = BehaviorShadow).

Abbreviation rateIndex := (gmap string rateRef).

(** Every rate of the enforced set in authored order. *)
Definition rate_refs (snapshot : Snapshot) : list rateRef :=
  b ← s_Blocks snapshot; r ← bl_Rules b; mkRateRef b r <$> ru_Rates r.

Definition index_add (index : rateIndex) (ref : rateRef) : rateIndex :=
  match index !! ra_Prefix (rr_rate ref) with
  | Some _ => index
  | None => <[ra_Prefix (rr_rate ref) := ref]> index
  end.

Definition newRateIndex (snapshot : Snapshot) : rateIndex := foldl index_add ∅ (rate_refs snapshot).

(** [cc_ref] is [None] for a counter of a rule no longer enforced. *)
Record counterCandidate := mkCandidate {
  cc_key : string;
  cc_ref : option rateRef;
  cc_ruleID : string;
  cc_axes : gmap string string }.

Definition admit_key_of (namespace : string) (snapshot : Snapshot) (index : rateIndex) (sel : selector) (k : string)
    : option counterCandidate :=
  match parseCounterKey namespace (s_Domain snapshot) k with
  | Err _ => None
  | Ok parsed =>
      if negb (matches sel parsed) then None
      else match index !! ck_RatePrefix parsed with
           | None => None
           | Some ref =>
               match namedAxes parsed (ru_Counters (rr_rule ref)) with
               | Err _ => None
               | Ok axes =>
                   if negb (matchesAxes sel axes) then None
                   else Some (mkCandidate k (Some ref) (ck_RuleID parsed) axes)
               end
           end
  end.

(** [None] is the panic of the key package on an empty namespace or domain. *)
Definition scanPrefix (namespace domain : string) (sel : selector) : option string :=
  match se_RuleIDs sel with
  | [id] =>
      match ruleview.SplitID id with
      | Some (block, rule) => RulePrefix (mkIdent namespace domain block rule)
      | None =>
          if negb (bool_decide (id = "")) && negb (contains_char "/" id)
          then BlockPrefix namespace domain id else DomainPrefix namespace domain
      end
  | _ => DomainPrefix namespace domain
  end.

(** *** One page *)

Record page := mkPage {
  pa_candidates : list counterCandidate;
  pa_scanned : Z;
  pa_more : bool;
  pa_resume : string }.

(** The state of a walk in progress. *)
Record pageWalk := mkPageWalk { pw_next : string; pw_candidates : list counterCandidate; pw_scanned : Z }.

Section walk.
Context {S : Type} {INSP : Inspector S}.
Context (namespace : string) (snapshot : Snapshot) (sel : selector) (pageSize : Z).
Context (world : nat -> Z * S).

Definition take (keys : list string) (w : pageWalk) : pageWalk :=
  foldl (fun w k =>
    mkPageWalk (pw_next w)
      (match admit_key_of namespace snapshot (newRateIndex snapshot) sel k with
       | Some c => pw_candidates w ++ [c]
       | None => pw_candidates w
       end) (pw_scanned w + 1)) w keys.

Definition full (steps : nat) (w : pageWalk) : bool :=
  (pageSize <=? Z.of_nat (length (pw_candidates w))) || (scanBudget <=? pw_scanned w) || (maxScanSteps <=? steps)%nat.

Definition walk_room (w : pageWalk) : Z :=
  Z.min (pageSize - Z.of_nat (length (pw_candidates w))) (scanBudget - pw_scanned w).

Definition stopped (w : pageWalk) : page := mkPage (pw_candidates w) (pw_scanned w) true (pw_next w).

(** The loop of [selectCandidates] from the [steps]-th turn; the page and the
    number of store calls made so far. [steps] reaches [maxScanSteps] when the
    fuel ends, where [full] stops the walk. *)
Fixpoint select_loop (fuel : nat) (prefix : string) (steps i : nat) (w : pageWalk)
    : result StoreError (page * nat) :=
  if full steps w then Ok (stopped w, i)
  else match fuel with
       | O => Ok (stopped w, i)
       | Datatypes.S fuel =>
           match insp_scan (world i).1 prefix (pw_next w) (walk_room w) (world i).2 with
           | Err e => Err e
           | Ok (keys, next) =>
               let w := take keys w in
               if bool_decide (next = "")
               then Ok (mkPage (pw_candidates w) (pw_scanned w) false "", Datatypes.S i)
               else select_loop fuel prefix (Datatypes.S steps) (Datatypes.S i)
                      (mkPageWalk next (pw_candidates w) (pw_scanned w))
           end
       end.

Definition selectCandidates (prefix start : string) (i : nat) : result StoreError (page * nat) :=
  select_loop maxScanSteps prefix 0 i (mkPageWalk start [] 0).

End walk.

(** *** The judgement *)

(** Waits are kept in nanoseconds; 0 is an absent one. *)
Record CounterView := mkCounterView {
  vw_Key : string;
  vw_RuleID : string;
  vw_Block : string;
  vw_Rule : string;
  vw_Algorithm : string;
  vw_PeriodSeconds : Z;
  vw_Mode : string;
  vw_Axes : gmap string string;
  vw_Limit : Z;
  vw_Remaining : Z;
  vw_Limited : bool;
  vw_RetryAfter : Z;
  vw_ResetAfter : Z }.

Definition peek_bucket (k : string) (ref : rateRef) : Bucket :=
  mkBucket k (ID (ra_Algorithm (rr_rate ref))) (ra_Window (rr_rate ref)) (ref_shadow ref) 1.

(** The judged candidates with their rules; a candidate of a listing always
    has one. *)
Definition candidate_refs (cs : list counterCandidate) : list (counterCandidate * rateRef) :=
  omap (fun c => (fun r => (c, r)) <$> cc_ref c) cs.

Definition counterView (c : counterCandidate) (ref : rateRef) (b : Bucket) (v : Verdict) : CounterView :=
  mkCounterView (cc_key c) (ruleID (bl_Name (rr_block ref)) (ru_Name (rr_rule ref)))
    (bl_Name (rr_block ref)) (ru_Name (rr_rule ref)) (ruleview.Algorithm (rr_rate ref))
    (Period (ra_Window (rr_rate ref)) /i Second) (ruleview.Mode (ru_Behavior (rr_rule ref)))
    (cc_axes c) (Requests (b_Window b)) (v_Remaining v) (negb (v_Allowed v))
    (if v_RetryAfter v >? 0 then v_RetryAfter v else 0)
    (if v_ResetAfter v >? 0 then v_ResetAfter v else 0).

Section judge.
Context {S : Type} (peek : list Bucket -> S -> S * result StoreError (list Verdict)).

Definition judge (candidates : list counterCandidate) (limitedOnly : bool) (s : S)
    : S * result apiError (list CounterView) :=
  match candidates with
  | [] => (s, Ok [])
  | _ =>
      let refs := candidate_refs candidates in
      let buckets := (fun cr => peek_bucket (cc_key cr.1) cr.2) <$> refs in
      match peek buckets s with
      | (s, Err _) => (s, Err storeDown)
      | (s, Ok verdicts) =>
          if negb (length verdicts =? length buckets)%nat then (s, Err (errorf CodeInternal []))
          else (s, Ok (omap (fun crv : (counterCandidate * rateRef) * Verdict =>
                 let '(c, ref, v) := crv in
                 if limitedOnly && v_Allowed v then None
                 else Some (counterView c ref (peek_bucket (cc_key c) ref) v)) (zip refs verdicts)))
      end
  end.

End judge.

(** *** The whole call *)

Record CounterList := mkCounterList {
  cl_Items : list CounterView;
  cl_NextCursor : string;
  cl_Truncated : bool;
  cl_Scanned : Z }.

Section list.
Context {PL : Platform} {GT : GoText} {S : Type} {INSP : Inspector S}.
Context (peek : Z -> list Bucket -> S -> S * result StoreError (list Verdict)).

(** The page walk from the [i]-th store call, then the judgement as one more;
    [None] is the panic on an empty namespace or domain. *)
Definition listCounters (namespace : string) (snapshot : Snapshot) (sel : selector) (pageSize : Z)
    (start : string) (now : Z) (world : nat -> Z * S) (i : nat) : option (result apiError CounterList) :=
  prefix ← scanPrefix namespace (s_Domain snapshot) sel;
  Some (match selectCandidates namespace snapshot sel pageSize world prefix start i with
        | Err ErrBadCursor => Err (invalid ["cursor"])
        | Err _ => Err storeDown
        | Ok (p, i) =>
            match (judge (peek (world i).1) (pa_candidates p) (se_LimitedOnly sel) (world i).2).2 with
            | Err e => Err e
            | Ok views =>
                Ok (mkCounterList views (if pa_more p then encodeCursor (pa_resume p) sel now else "")
                      (pa_more p) (pa_scanned p))
            end
        end).

(** *** A client at a listing *)

(** One call of the client: its clock, the page size it asks for, and the
    store as the calls of the page find it. *)
Record visit := mkVisit { vi_now : Z; vi_pageSize : Z; vi_world : nat -> Z * S }.

(** A page that was answered: the steps its walk took, and the answer. The
    judgement is the call after the last step. *)
Record answered := mkAnswered { an_visit : visit; an_steps : nat; an_list : CounterList }.

Definition judged_at (a : answered) : Z * S := vi_world (an_visit a) (an_steps a).

Section client.
Context (namespace : string) (snapshot : Snapshot) (sel : selector).

Definition walk_steps (v : visit) (start : string) : nat :=
  match scanPrefix namespace (s_Domain snapshot) sel with
  | None => 0
  | Some prefix =>
      match selectCandidates namespace snapshot sel (vi_pageSize v) (vi_world v) prefix start 0 with
      | Ok (_, n) => n
      | Err _ => 0
      end
  end.

(** Presenting the cursor of each answer until an answer has none, as
    [handleCounters] reads it; [None] when a call fails or the calls run out. *)
Fixpoint follow (visits : list visit) (raw : string) : option (list answered) :=
  match visits with
  | [] => None
  | v :: visits =>
      match (if bool_decide (raw = "") then Ok "" else decodeCursor raw sel (vi_now v)) with
      | Err _ => None
      | Ok start =>
          match listCounters namespace snapshot sel (vi_pageSize v) start (vi_now v) (vi_world v) 0 with
          | Some (Ok list) =>
              let a := mkAnswered v (walk_steps v start) list in
              if bool_decide (cl_NextCursor list = "") then Some [a]
              else rest ← follow visits (cl_NextCursor list); Some (a :: rest)
          | _ => None
          end
      end
  end.

End client.

End list.
