(* ===== verification/ListingFacts.v ===== *)
(** * What a listing reports

    A listing followed along its cursors to the end reports every counter the
    selection names that lives through it, judged as the next request would
    be, within the bounds of a page; the scan it runs on covers everything
    the selection can match. *)
From S2P Require Import Prelude GoStrings Algo Key StoreApi Memory MemoryScan Model Compile CompileFacts Match MatchFacts MatchKeys Identity.
From S2P Require Import MgmtKeys RuleView RuleViewFacts MgmtErrors Selector Listing.

(** ** The in-memory store keeps the promise of the interface *)

#[export] Instance memory_inspector : Inspector (gmap string entry) := {
  insp_scan now prefix cursor limit m := (Scan now prefix cursor limit m).2;
  insp_alive now m k := exists e, m !! k = Some e /\ now < e_deadline e }.

Lemma memory_chain prefix c ws keys :
  chain prefix c ws keys ->
  StronglySorted str_lt keys /\
  (forall k, k ∈ keys -> str_lt c k /\ HasPrefix k prefix = true /\ exists ns, ns ∈ ws /\ insp_alive ns.1 ns.2 k) /\
  (forall k, str_lt c k -> HasPrefix k prefix = true ->
     (forall ns, ns ∈ ws -> insp_alive ns.1 ns.2 k) -> k ∈ keys).
Proof.
  induction 1 as [now m limit c keys Hl Hs|now m limit c keys next ws rest Hl Hs Hne _ (IHs & IHk & IHa)].
  - destruct (scan_step prefix c limit now m Hl) as (keys' & next' & Hs' & Hsort & Hk & _ & Hall).
    simpl in Hs. rewrite Hs in Hs'. injection Hs' as <- <-. split_and!; [done| |].
    + intros k Hin. destruct (Hk k Hin) as [[Hp Hlive] Hc]. split_and!; try done.
      exists (now, m). split; [by left|done].
    + intros k Hc Hp Hlive. destruct (Hall k) as [|[? _]]; [split; [done|]|done|done|done].
      apply (Hlive (now, m)). by left.
  - destruct (scan_step prefix c limit now m Hl) as (keys' & next' & Hs' & Hsort & Hk & Hn & Hall).
    simpl in Hs. rewrite Hs in Hs'. injection Hs' as <- <-. destruct (Hn Hne) as [Hnin Hnmax].
    destruct (Hk next Hnin) as [_ Hcn]. split_and!.
    + apply ascending_app; try done. intros a b Ha Hb. destruct (IHk b Hb) as [Hnb _].
      destruct (Hnmax a Ha) as [->|]; [done|by eapply str_ltb_trans].
    + intros k [Hi|Hi]%elem_of_app.
      * destruct (Hk k Hi) as [[Hp Hlive] Hc]. split_and!; try done. exists (now, m). split; [by left|done].
      * destruct (IHk k Hi) as (Hc & Hp & ns & Hin & Hlive). split_and!; [by eapply str_ltb_trans|done|].
        exists ns. split; [by right|done].
    + intros k Hc Hp Hlive. apply elem_of_app. destruct (Hall k) as [|[_ Hnk]];
        [split; [done|apply (Hlive (now, m)); by left]|done|by left|].
      right. apply IHa; try done. intros ns Hin. apply Hlive. by right.
Qed.

#[export] Instance memory_inspector_laws : InspectorLaws (gmap string entry).
Proof.
  split.
  - intros prefix ws keys k Hc Hk. destruct (memory_chain _ _ _ _ Hc) as (_ & H & _). by apply H.
  - intros prefix ws keys k Hc Hne Hp Hlive. destruct (memory_chain _ _ _ _ Hc) as (_ & _ & H).
    apply H; try done. by destruct k.
Qed.

Lemma ascending_nodup l : StronglySorted str_lt l -> NoDup l.
Proof.
  induction 1 as [|k l _ IH Hk]; constructor; [|done]. intros Hin.
  rewrite Forall_forall in Hk. specialize (Hk k Hin). unfold str_lt in Hk. by rewrite str_ltb_irrefl in Hk.
Qed.

Lemma omap_length_le {A B} (f : A -> option B) l : (length (omap f l) <= length l)%nat.
Proof. induction l as [|x l IH]; [done|]. change (omap f (x :: l)) with (match f x with Some y => y :: omap f l | None => omap f l end). destruct (f x); cbn [length]; lia. Qed.

(** ** The walk of a page is a stretch of the chain *)

Section walk.
Context {S : Type} {INSP : Inspector S}.
Context (namespace : string) (snapshot : Snapshot) (sel : selector) (pageSize : Z).
Context (world : nat -> Z * S).

Abbreviation admit_ := (admit_key_of namespace snapshot (newRateIndex snapshot) sel).

Lemma take_eq keys w :
  take namespace snapshot sel keys w =
  mkPageWalk (pw_next w) (pw_candidates w ++ omap admit_ keys) (pw_scanned w + Z.of_nat (length keys)).
Proof.
  unfold take. revert w. induction keys as [|k keys IH]; intros w; simpl.
  { rewrite app_nil_r, Z.add_0_r. by destruct w. }
  rewrite IH. simpl. f_equal; [|lia].
  destruct (admit_ k); [|done]. by rewrite <- app_assoc.
Qed.

Lemma room_pos steps w : full pageSize steps w = false -> 1 <= walk_room pageSize w.
Proof. unfold full, walk_room. intros H. bools. lia. Qed.

(** The readings of the store calls [i] to [n]. *)
Definition readings (i n : nat) : list (Z * S) := world <$> seq i (n - i).

Lemma readings_step i n : (i < n)%nat -> readings i n = world i :: readings (Datatypes.S i) n.
Proof. unfold readings. intros H. replace (n - i)%nat with (Datatypes.S (n - Datatypes.S i)) by lia. done. Qed.

Lemma readings_app i j n : (i <= j <= n)%nat -> readings i n = readings i j ++ readings j n.
Proof.
  intros H. unfold readings. rewrite <- fmap_app. f_equal.
  replace (n - i)%nat with ((j - i) + (n - j))%nat by lia. rewrite seq_app. do 2 f_equal. lia.
Qed.

Lemma select_loop_spec fuel prefix steps i w p n :
  select_loop namespace snapshot sel pageSize world fuel prefix steps i w = Ok (p, n) ->
  exists keys,
    (i <= n <= i + fuel)%nat /\
    pa_candidates p = pw_candidates w ++ omap admit_ keys /\
    pa_scanned p = pw_scanned w + Z.of_nat (length keys) /\
    (pa_more p = false -> chain prefix (pw_next w) (readings i n) keys) /\
    (pa_more p = true -> forall ws rest, chain prefix (pa_resume p) ws rest ->
       chain prefix (pw_next w) (readings i n ++ ws) (keys ++ rest)).
Proof.
  revert steps i w. induction fuel as [|fuel IH]; intros steps i w; cbn [select_loop];
    destruct (full pageSize steps w) eqn:Hf; intros H.
  1-3: injection H as <- <-; exists []; unfold stopped; simpl; rewrite app_nil_r, Z.add_0_r;
    (split_and!; [lia|lia|done..| |]); [done|]; unfold readings; rewrite Nat.sub_diag; simpl; done.
  pose proof (room_pos _ _ Hf) as Hr. destruct (world i) as [now s] eqn:Hw. cbn [fst snd] in H.
  destruct (insp_scan now prefix (pw_next w) (walk_room pageSize w) s) as [[keys next]|e] eqn:Hs; [|done].
  rewrite take_eq in H. cbn [pw_candidates pw_scanned pw_next] in H. case_bool_decide as Hne.
  - injection H as <- <-. exists keys. simpl. split_and!; try done; [lia|lia|].
    intros _. rewrite readings_step by lia. rewrite Hw. subst next.
    unfold readings. rewrite Nat.sub_diag. by eapply chain_end.
  - apply IH in H as (keys' & Hn & Hc & Hsc & Hend & Hmore). cbn [pw_candidates pw_scanned pw_next] in *.
    exists (keys ++ keys'). rewrite readings_step by lia. rewrite Hw. split_and!; [lia|lia| | | |].
    + rewrite omap_app, app_assoc. done.
    + rewrite length_app. lia.
    + intros Hm. by eapply chain_step; [..|apply Hend].
    + intros Hm ws rest Hrest. rewrite <- app_assoc. by eapply chain_step; [..|apply Hmore].
Qed.

(** Where a page stops is where it started or a cursor the store returned. *)
Lemma select_loop_resume fuel prefix steps i w p n :
  select_loop namespace snapshot sel pageSize world fuel prefix steps i w = Ok (p, n) -> pa_more p = true ->
  pa_resume p = pw_next w \/
  exists j c limit keys, insp_scan (world j).1 prefix c limit (world j).2 = Ok (keys, pa_resume p).
Proof.
  revert steps i w. induction fuel as [|fuel IH]; intros steps i w; cbn [select_loop];
    destruct (full pageSize steps w) eqn:Hf; intros H Hm.
  1-3: injection H as <- <-; by left.
  destruct (insp_scan (world i).1 prefix (pw_next w) (walk_room pageSize w) (world i).2) as [[keys next]|e] eqn:Hs; [|done].
  rewrite take_eq in H. cbn [pw_candidates pw_scanned pw_next] in H. case_bool_decide as Hne.
  - by injection H as <- <-.
  - apply IH in H as [H|?]; [|by right|done]. right. cbn [pw_next] in H. rewrite H. eauto.
Qed.

(** The same for one page. *)
Lemma selectCandidates_spec prefix start p n :
  selectCandidates namespace snapshot sel pageSize world prefix start 0 = Ok (p, n) ->
  (pa_more p = true -> pa_resume p = start \/
     exists j c limit keys, insp_scan (world j).1 prefix c limit (world j).2 = Ok (keys, pa_resume p)) /\
  exists keys, pa_candidates p = omap admit_ keys /\
    (pa_more p = false -> chain prefix start (readings 0 n) keys) /\
    (pa_more p = true -> forall ws rest, chain prefix (pa_resume p) ws rest ->
       chain prefix start (readings 0 n ++ ws) (keys ++ rest)).
Proof.
  unfold selectCandidates. intros Hs. split; [by apply (select_loop_resume _ _ _ _ _ _ _ Hs)|].
  apply select_loop_spec in Hs as (keys & _ & Hc & _ & Hend & Hmore). by exists keys.
Qed.

End walk.

(** ** The pages of a listing *)

Lemma Forall2_elem_l {A B} (P : A -> B -> Prop) l k x : Forall2 P l k -> x ∈ l -> exists y, y ∈ k /\ P x y.
Proof.
  intros HF [i Hi]%list_elem_of_lookup. destruct (Forall2_lookup_l _ _ _ _ _ HF Hi) as (y & Hy & ?).
  exists y. split; [by eapply list_elem_of_lookup_2|done].
Qed.

Lemma Forall2_elem_r {A B} (P : A -> B -> Prop) l k y : Forall2 P l k -> y ∈ k -> exists x, x ∈ l /\ P x y.
Proof.
  intros HF [i Hi]%list_elem_of_lookup. destruct (Forall2_lookup_r _ _ _ _ _ HF Hi) as (x & Hx & ?).
  exists x. split; [by eapply list_elem_of_lookup_2|done].
Qed.

Lemma elem_of_concat_list {A} (x : A) ls : x ∈ concat ls <-> exists l, l ∈ ls /\ x ∈ l.
Proof.
  induction ls as [|l ls IH]; cbn [concat].
  - split; [intros H|intros (? & H & _)]; by apply elem_of_nil in H.
  - rewrite elem_of_app, IH. set_solver.
Qed.

Lemma elem_of_concat_list_2 {A} (x : A) l ls : l ∈ ls -> x ∈ l -> x ∈ concat ls.
Proof. intros. apply elem_of_concat_list. eauto. Qed.

Lemma EncodeToString_nonempty s : s <> "" -> EncodeToString s <> "".
Proof.
  intros Hs He. pose proof (DecodeString_Encode s) as Hd. rewrite He in Hd.
  vm_compute in Hd. by injection Hd.
Qed.

Section client.
Context {PL : Platform} {GT : GoText} {S : Type} {INSP : Inspector S}.
Context (peek : Z -> list Bucket -> S -> S * result StoreError (list Verdict)).
Context (namespace : string) (snapshot : Snapshot) (sel : selector).

Abbreviation admit_ := (admit_key_of namespace snapshot (newRateIndex snapshot) sel).

(** A cursor a walk can be told to resume at: none, or one a step returned. *)
Definition store_cursor (visits : list visit) (step : string) : Prop :=
  step = "" \/ exists v i prefix c limit keys, v ∈ visits /\
    insp_scan (vi_world v i).1 prefix c limit (vi_world v i).2 = Ok (keys, step).

(** The JSON codec reads back the continuations of the listing. *)
Definition continuations_read (visits : list visit) : Prop :=
  forall v step, v ∈ visits -> store_cursor visits step ->
  let c := mkCursor step (fingerprint sel) (Unix (vi_now v + cursorTTL)) in
  UnmarshalCursor (MarshalCursor c) = Some c /\ MarshalCursor c <> "".

(** A presented cursor and the step it stands for. *)
Definition presents (visits : list visit) (raw step : string) : Prop :=
  (raw = "" /\ step = "") \/
  exists v, v ∈ visits /\ store_cursor visits step /\ raw = encodeCursor step sel (vi_now v).

Lemma presents_read visits raw step now start :
  continuations_read visits -> presents visits raw step ->
  (if bool_decide (raw = "") then Ok "" else decodeCursor raw sel now) = Ok start -> start = step.
Proof.
  intros HC [[-> ->]|(v & Hv & Hs & ->)].
  - rewrite bool_decide_true by done. congruence.
  - destruct (HC v step Hv Hs) as [Hr Hne]. rewrite bool_decide_false by (by apply EncodeToString_nonempty).
    rewrite listing_cursor_roundtrip by done. case_decide; congruence.
Qed.

(** What a page walked over, and what its answer is made of. *)
Definition walked (a : answered) : list (Z * S) := readings (vi_world (an_visit a)) 0 (an_steps a).

Definition judges (a : answered) (cs : list counterCandidate) : Prop :=
  (judge (peek (judged_at a).1) cs (se_LimitedOnly sel) (judged_at a).2).2 = Ok (cl_Items (an_list a)).

(** The pages of a listing followed to its end are one chain of steps, and
    their answers the judgements of what the selection admits of its keys. *)
Lemma follow_spec all prefix visits raw step answers :
  scanPrefix namespace (s_Domain snapshot) sel = Some prefix -> continuations_read all -> visits ⊆ all ->
  presents all raw step -> follow peek namespace snapshot sel visits raw = Some answers ->
  exists kss, Forall2 (fun a ks => judges a (omap admit_ ks)) answers kss /\
    chain prefix step (concat (walked <$> answers)) (concat kss) /\
    Forall (fun a => an_visit a ∈ visits) answers.
Proof.
  intros Hpre HC. revert raw step answers.
  induction visits as [|v visits IH]; intros raw step answers Hsub Hp; [done|]. cbn [follow].
  destruct (if bool_decide (raw = "") then _ else _) as [start|] eqn:Hd; [|done].
  pose proof (presents_read _ _ _ _ _ HC Hp Hd) as ->.
  unfold listCounters, walk_steps. rewrite Hpre. cbn [mbind option_bind].
  destruct (selectCandidates _ _ _ _ _ _ _ _) as [[p n]|[]] eqn:Hs; try done.
  destruct (judge _ _ _ _).2 as [views|] eqn:Hj; [|done]. cbn [cl_NextCursor].
  apply selectCandidates_spec in Hs as (Hresume & keys & Hc & Hend & Hmore).
  assert (v ∈ all) as Hv by (apply Hsub; left).
  set (a := mkAnswered _ _ _).
  assert (judges a (omap admit_ keys)) as Hja by (rewrite <- Hc; exact Hj).
  destruct (pa_more p).
  - assert (store_cursor all (pa_resume p)) as Hsc.
    { destruct (Hresume eq_refl) as [->|(j & c & limit & ks & Hsc)]; [|right; by exists v, j, prefix, c, limit, ks].
      destruct Hp as [[_ ->]|(? & _ & ? & _)]; [by left|done]. }
    destruct (HC v (pa_resume p) Hv Hsc) as [_ Hne].
    rewrite bool_decide_false by (by apply EncodeToString_nonempty). intros H.
    destruct (follow _ _ _ _ visits _) as [rest|] eqn:Hr; [|done]. injection H as <-.
    apply (IH _ (pa_resume p)) in Hr as (kss & Hjs & Hch & Hin).
    + exists (keys :: kss). split_and!.
      * by constructor.
      * rewrite fmap_cons. cbn [concat]. by apply Hmore.
      * constructor; [left|]. eapply Forall_impl; [exact Hin|]. intros x Hx. by right.
    + intros x Hx. apply Hsub. by right.
    + right. by exists v.
  - rewrite bool_decide_true by done. intros [= <-]. exists [keys]. split_and!.
    + by constructor.
    + cbn. rewrite !app_nil_r. by apply Hend.
    + constructor; [left|constructor].
Qed.

Lemma follow_prefix visits raw answers :
  follow peek namespace snapshot sel visits raw = Some answers ->
  is_Some (scanPrefix namespace (s_Domain snapshot) sel).
Proof.
  destruct visits as [|v visits]; [done|]. cbn [follow]. destruct (if bool_decide (raw = "") then _ else _); [|done].
  unfold listCounters. destruct (scanPrefix _ _ _); [by eexists|done].
Qed.

Lemma walked_elem answers x :
  x ∈ concat (walked <$> answers) -> exists a i, a ∈ answers /\ (i < an_steps a)%nat /\ x = vi_world (an_visit a) i.
Proof.
  intros (l & (a & -> & Ha)%list_elem_of_fmap & (i & -> & Hi)%list_elem_of_fmap)%elem_of_concat_list.
  apply elem_of_seq in Hi. exists a, i. split_and!; [done|lia|done].
Qed.

End client.

(** ** The index of the enforced rates *)

Lemma NoDup_fmap_eq {A B} (f : A -> B) l x y : NoDup (f <$> l) -> x ∈ l -> y ∈ l -> f x = f y -> x = y.
Proof.
  induction l as [|z l IH]; intros Hn Hx Hy E; [by apply elem_of_nil in Hx|].
  rewrite fmap_cons in Hn. apply NoDup_cons in Hn as [Hz Hn].
  apply elem_of_cons in Hx as [->|Hx], Hy as [->|Hy]; try done.
  - destruct Hz. rewrite E. by apply list_elem_of_fmap_2.
  - destruct Hz. rewrite <- E. by apply list_elem_of_fmap_2.
  - by apply IH.
Qed.

Lemma elem_of_rate_refs snapshot ref :
  ref ∈ rate_refs snapshot <->
  rr_block ref ∈ s_Blocks snapshot /\ rr_rule ref ∈ bl_Rules (rr_block ref) /\ rr_rate ref ∈ ru_Rates (rr_rule ref).
Proof.
  unfold rate_refs. rewrite list_elem_of_bind. split.
  - intros (b & Hr & Hb). apply list_elem_of_bind in Hr as (r & Hr & Hrl).
    apply list_elem_of_fmap in Hr as (ra & -> & Hra). done.
  - destruct ref as [b r ra]; simpl. intros (Hb & Hr & Hra). exists b. split; [|done].
    apply list_elem_of_bind. exists r. split; [|done]. by apply list_elem_of_fmap_2.
Qed.

Lemma index_fold_lookup l index p :
  foldl index_add index l !! p =
  match index !! p with
  | Some r => Some r
  | None => find_first (fun ref => bool_decide (ra_Prefix (rr_rate ref) = p)) l
  end.
Proof.
  revert index. induction l as [|ref l IH]; intros index; simpl; [by destruct (index !! p)|].
  rewrite IH. unfold index_add.
  destruct (index !! ra_Prefix (rr_rate ref)) as [r|] eqn:E.
  - destruct (index !! p) eqn:Ep; [done|]. rewrite bool_decide_false; [done|]. intros <-. congruence.
  - case_bool_decide as Hp.
    + subst p. by rewrite lookup_insert_eq, E.
    + by rewrite lookup_insert_ne.
Qed.

(** Where the rates of a compiled snapshot come from, and that a prefix names
    one of them. *)
Lemma ref_rate_ok cap ns snapshot ref :
  snapshot_ok cap ns snapshot -> ref ∈ rate_refs snapshot ->
  rate_ok cap (mkIdent ns (s_Domain snapshot) (bl_Name (rr_block ref)) (ru_Name (rr_rule ref))) (rr_rate ref).
Proof.
  intros (_ & Hb & _) (Hbl & Hru & Hra)%elem_of_rate_refs.
  rewrite Forall_forall in Hb. destruct (Hb _ Hbl) as (_ & Hr & _).
  rewrite Forall_forall in Hr. destruct (Hr _ Hru) as (_ & Hx & _).
  rewrite Forall_forall in Hx. by apply Hx.
Qed.

Lemma rate_ref_unique cap ns snapshot x y :
  snapshot_ok cap ns snapshot -> x ∈ rate_refs snapshot -> y ∈ rate_refs snapshot ->
  ra_Prefix (rr_rate x) = ra_Prefix (rr_rate y) -> x = y.
Proof.
  intros Hok Hx Hy E. pose proof (ref_rate_ok _ _ _ _ Hok Hx) as (Cx & Px & _).
  pose proof (ref_rate_ok _ _ _ _ Hok Hy) as (Cy & Py & _).
  destruct (RatePrefix_inj _ _ _ _ _ _ _ _ "" "" Px Py) as (Hid & Ha & Hp & _); [by rewrite E|].
  injection Hid as Hbn Hrn.
  destruct (check_ok_facts _ _ Cx) as (Wx & _), (check_ok_facts _ _ Cy) as (Wy & _).
  apply whole_period_inj in Hp; [|done..].
  apply elem_of_rate_refs in Hx as (Hbx & Hrx & Hax), Hy as (Hby & Hry & Hay).
  destruct Hok as (Hnb & Hb & _). rewrite Forall_forall in Hb.
  destruct (Hb _ Hbx) as (Hnr & Hr & _). rewrite Forall_forall in Hr. destruct (Hr _ Hrx) as (Hnp & _).
  destruct x as [bx rx ax], y as [by_ ry ay]; simpl in *.
  assert (bx = by_) as -> by (by eapply NoDup_fmap_eq).
  assert (rx = ry) as -> by (by eapply NoDup_fmap_eq).
  f_equal. by eapply (NoDup_fmap_eq (fun z => Period (ra_Window z))).
Qed.

Lemma index_lookup cap ns snapshot ref :
  snapshot_ok cap ns snapshot -> ref ∈ rate_refs snapshot ->
  newRateIndex snapshot !! ra_Prefix (rr_rate ref) = Some ref.
Proof.
  intros Hok Hr. unfold newRateIndex. rewrite index_fold_lookup, lookup_empty.
  destruct (find_first _ _) as [y|] eqn:E.
  - apply find_first_Some in E as [Hy Hp]. apply bool_decide_eq_true in Hp.
    f_equal. by eapply rate_ref_unique.
  - apply find_first_None in E. rewrite Forall_forall in E. specialize (E _ Hr). simpl in E.
    by rewrite bool_decide_true in E.
Qed.

Lemma index_lookup_in snapshot p ref :
  newRateIndex snapshot !! p = Some ref -> ref ∈ rate_refs snapshot /\ ra_Prefix (rr_rate ref) = p.
Proof.
  unfold newRateIndex. rewrite index_fold_lookup, lookup_empty. intros [Hi Hp]%find_first_Some.
  by apply bool_decide_eq_true in Hp.
Qed.

Lemma admit_key ns snapshot index sel k c : admit_key_of ns snapshot index sel k = Some c -> cc_key c = k.
Proof.
  unfold admit_key_of. destruct (parseCounterKey _ _ _) as [parsed|]; [|done]. destruct (negb _); [done|].
  destruct (index !! _) as [ref|]; [|done]. destruct (namedAxes _ _) as [axes|]; [|done].
  destruct (negb _); [done|]. by intros [= <-].
Qed.

(** ** What a selection selects *)

(** A rule or block name: not empty and without the slash of an id. *)
Definition plain_name (s : string) : Prop := s <> "" /\ contains_char "/" s = false.

(** The counter of a rule with given axis values is in the selection. *)
Definition selects (sel : selector) (ref : rateRef) (values : list string) : Prop :=
  (se_Algorithm sel = "" \/ ruleview.Algorithm (rr_rate ref) = se_Algorithm sel) /\
  (se_PeriodSeconds sel = 0 \/ Period (ra_Window (rr_rate ref)) /i Second = se_PeriodSeconds sel) /\
  (se_RuleIDs sel = [] \/ bl_Name (rr_block ref) ∈ se_RuleIDs sel \/
     ruleID (bl_Name (rr_block ref)) (ru_Name (rr_rule ref)) ∈ se_RuleIDs sel) /\
  (forall name wanted, se_Axes sel !! name = Some wanted ->
     exists i v, ru_Counters (rr_rule ref) !! i = Some name /\ values !! i = Some v /\ v ∈ wanted).

(** The decoded key of a counter of the enforced set. *)
Definition ref_key (ref : rateRef) (values : list string) : counterKey :=
  mkCounterKey (ruleID (bl_Name (rr_block ref)) (ru_Name (rr_rule ref))) (bl_Name (rr_block ref))
    (ru_Name (rr_rule ref)) (ruleview.Algorithm (rr_rate ref)) (Period (ra_Window (rr_rate ref)) /i Second)
    (ra_Prefix (rr_rate ref)) values.

Lemma Split_ruleID b r : plain_name b -> plain_name r -> Split "/" (ruleID b r) = [b; r].
Proof.
  intros [_ Hb] [_ Hr]. unfold ruleID. change (b +:+ "/" +:+ r) with (b +:+ String "/" r).
  by rewrite Split_app_sep, Split_no_char.
Qed.

Lemma matchesRuleID_iff id ref values :
  plain_name (bl_Name (rr_block ref)) -> plain_name (ru_Name (rr_rule ref)) ->
  matchesRuleID id (ref_key ref values) = true <->
  id = bl_Name (rr_block ref) \/ id = ruleID (bl_Name (rr_block ref)) (ru_Name (rr_rule ref)).
Proof.
  intros Hb Hr. unfold matchesRuleID. cbn [ref_key ck_Block ck_RuleID]. split.
  - pose proof (Join_Split "/"%char id) as HJ. destruct (Split "/" id) as [|x [|y [|z l]]]; try done;
      rewrite bool_decide_eq_true; intros ->; [|by right]. left. by rewrite <- HJ.
  - intros [->| ->].
    + destruct Hb as [_ Hb]. rewrite Split_no_char by done. by rewrite bool_decide_true.
    + rewrite Split_ruleID by done. by rewrite bool_decide_true.
Qed.

Lemma matches_iff sel ref values :
  plain_name (bl_Name (rr_block ref)) -> plain_name (ru_Name (rr_rule ref)) ->
  matches sel (ref_key ref values) = true <->
  (se_Algorithm sel = "" \/ ruleview.Algorithm (rr_rate ref) = se_Algorithm sel) /\
  (se_PeriodSeconds sel = 0 \/ Period (ra_Window (rr_rate ref)) /i Second = se_PeriodSeconds sel) /\
  (se_RuleIDs sel = [] \/ bl_Name (rr_block ref) ∈ se_RuleIDs sel \/
     ruleID (bl_Name (rr_block ref)) (ru_Name (rr_rule ref)) ∈ se_RuleIDs sel).
Proof.
  intros Hb Hr. unfold matches. cbn [ref_key ck_Algorithm ck_PeriodSeconds].
  assert (forall ids, existsb (fun id => matchesRuleID id (ref_key ref values)) ids = true <->
    bl_Name (rr_block ref) ∈ ids \/ ruleID (bl_Name (rr_block ref)) (ru_Name (rr_rule ref)) ∈ ids) as Hids.
  { intros ids. rewrite existsb_exists. split.
    - intros (id & Hin & Hm). apply list_elem_of_In in Hin. apply matchesRuleID_iff in Hm as [->| ->]; auto.
    - intros [Hin|Hin]; eexists; (split; [by apply list_elem_of_In|]); apply matchesRuleID_iff; auto. }
  case_bool_decide as E1; case_bool_decide as E2; cbn [negb andb];
    destruct (Z.eqb_spec (se_PeriodSeconds sel) 0) as [E3|E3];
    destruct (Z.eqb_spec (Period (ra_Window (rr_rate ref)) /i Second) (se_PeriodSeconds sel)) as [E4|E4];
    cbn [negb andb]; try (split; [done|]; naive_solver);
    (destruct (se_RuleIDs sel) as [|id ids]; [naive_solver|]; rewrite Hids; naive_solver).
Qed.

Lemma matchesAxes_iff sel axes :
  matchesAxes sel axes = true <->
  forall name wanted, se_Axes sel !! name = Some wanted -> exists v, axes !! name = Some v /\ v ∈ wanted.
Proof.
  unfold matchesAxes. rewrite forallb_Forall, Forall_forall. split.
  - intros H name wanted Hn. apply elem_of_map_to_list in Hn. specialize (H _ Hn). simpl in H.
    destruct (axes !! name) as [v|]; [|done]. apply bool_decide_eq_true in H. eauto.
  - intros H [name wanted] Hn. apply elem_of_map_to_list in Hn. simpl.
    destruct (H _ _ Hn) as (v & -> & Hv). by apply bool_decide_eq_true.
Qed.

(** The value of a declared axis, by its place. *)
Lemma zip_axes_lookup names values (axes : gmap string string) :
  NoDup names -> (fun n => axes !! n) <$> names = Some <$> values -> (forall n, n ∉ names -> axes !! n = None) ->
  forall name v, axes !! name = Some v <-> exists i, names !! i = Some name /\ values !! i = Some v.
Proof.
  intros Hn He Ho name v. split.
  - intros Hv. destruct (decide (name ∈ names)) as [Hin|Hni]; [|by rewrite Ho in Hv].
    apply list_elem_of_lookup in Hin as [i Hi]. exists i. split; [done|].
    pose proof (f_equal (fun l => l !! i) He) as H. cbn beta in H. rewrite !list_lookup_fmap, Hi in H. simpl in H.
    rewrite Hv in H. destruct (values !! i); simpl in H; naive_solver.
  - intros (i & Hi & Hvi). pose proof (f_equal (fun l => l !! i) He) as H. cbn beta in H.
    rewrite !list_lookup_fmap, Hi, Hvi in H. simpl in H. naive_solver.
Qed.

(** *** Admission of the counters the engine writes *)

Section compiled.
Context (cap : Z) (ns : string) (snapshot : Snapshot) (Hok : snapshot_ok cap ns snapshot).

Lemma parse_ref_key ref values :
  ref ∈ rate_refs snapshot -> plain_name (bl_Name (rr_block ref)) -> plain_name (ru_Name (rr_rule ref)) ->
  parseCounterKey ns (s_Domain snapshot) (Key.Bucket (ra_Prefix (rr_rate ref)) values) = Ok (ref_key ref values).
Proof.
  intros Hr [Hb _] [Hu _]. destruct (ref_rate_ok _ _ _ _ Hok Hr) as (_ & Hp & _).
  by apply (parse_bucket _ _ _ _ _ _ _ values Hb Hu) in Hp.
Qed.

(** The selection keeps a counter of the enforced set exactly when it selects
    it, and names its axis values. *)
Lemma admit_ref sel ref values :
  ref ∈ rate_refs snapshot -> plain_name (bl_Name (rr_block ref)) -> plain_name (ru_Name (rr_rule ref)) ->
  NoDup (ru_Counters (rr_rule ref)) -> length values = length (ru_Counters (rr_rule ref)) ->
  exists axes, (fun n => axes !! n) <$> ru_Counters (rr_rule ref) = Some <$> values /\
  let k := Key.Bucket (ra_Prefix (rr_rate ref)) values in
  (selects sel ref values ->
     admit_key_of ns snapshot (newRateIndex snapshot) sel k =
       Some (mkCandidate k (Some ref) (ruleID (bl_Name (rr_block ref)) (ru_Name (rr_rule ref))) axes)) /\
  (forall c, admit_key_of ns snapshot (newRateIndex snapshot) sel k = Some c -> selects sel ref values).
Proof.
  intros Hr Hb Hu Hnd Hl.
  destruct (namedAxes_lookup (ref_key ref values) (ru_Counters (rr_rule ref)) Hnd Hl) as (axes & Ha & Hn & Ho).
  exists axes. split; [done|]. unfold admit_key_of. rewrite parse_ref_key by done.
  assert (forall name v, axes !! name = Some v <->
    exists i, ru_Counters (rr_rule ref) !! i = Some name /\ values !! i = Some v) as Hz
    by (by apply zip_axes_lookup).
  assert (selects sel ref values <-> matches sel (ref_key ref values) = true /\ matchesAxes sel axes = true) as Hs.
  { rewrite matches_iff, matchesAxes_iff by done. unfold selects.
    assert (forall name (wanted : list string),
      (exists i v, ru_Counters (rr_rule ref) !! i = Some name /\ values !! i = Some v /\ v ∈ wanted) <->
      exists v, axes !! name = Some v /\ v ∈ wanted) as E.
    { intros name wanted. setoid_rewrite Hz. naive_solver. }
    setoid_rewrite E. tauto. }
  cbn [ref_key ck_RatePrefix ck_RuleID]. rewrite (index_lookup cap ns) by done.
  split.
  - intros [Hm Hx]%Hs. rewrite Hm. cbn [negb]. rewrite Ha, Hx. done.
  - intros c. destruct (matches sel (ref_key ref values)); [|done]. cbn [negb]. rewrite Ha.
    destruct (matchesAxes sel axes); [|done]. intros _. by apply Hs.
Qed.

(** *** The scan covers the selection *)

Lemma DomainPrefix_of ref :
  ref ∈ rate_refs snapshot ->
  exists dp, DomainPrefix ns (s_Domain snapshot) = Some dp /\
    ra_Prefix (rr_rate ref) = dp +:+ rule_tail (bl_Name (rr_block ref)) (ru_Name (rr_rule ref))
      +:+ rate_tail (ra_Algorithm (rr_rate ref)) (ra_Window (rr_rate ref)).
Proof.
  intros Hr. destruct (ref_rate_ok _ _ _ _ Hok Hr) as (_ & Hp & _).
  apply RatePrefix_split in Hp as (rp & (dp & Hd & ->)%RulePrefix_split & Hp).
  exists dp. split; [done|]. by rewrite Hp, app_str_assoc.
Qed.

Lemma ref_bucket_nonempty ref values :
  ref ∈ rate_refs snapshot -> Key.Bucket (ra_Prefix (rr_rate ref)) values <> "".
Proof.
  intros Hr. destruct (DomainPrefix_of _ Hr) as (dp & Hd & Hp). unfold Key.Bucket. rewrite Hp.
  unfold DomainPrefix in Hd. destruct (DomainTag ns (s_Domain snapshot)); [|done]. by injection Hd as <-.
Qed.

Lemma scanPrefix_covers sel ref values :
  ref ∈ rate_refs snapshot -> plain_name (bl_Name (rr_block ref)) -> plain_name (ru_Name (rr_rule ref)) ->
  selects sel ref values ->
  exists prefix, scanPrefix ns (s_Domain snapshot) sel = Some prefix /\
    HasPrefix (Key.Bucket (ra_Prefix (rr_rate ref)) values) prefix = true.
Proof.
  intros Hr Hb Hu (_ & _ & Hids & _). destruct (DomainPrefix_of _ Hr) as (dp & Hd & Hp).
  unfold Key.Bucket. rewrite Hp, !app_str_assoc. unfold scanPrefix.
  assert (exists prefix, DomainPrefix ns (s_Domain snapshot) = Some prefix /\ forall s, HasPrefix (dp +:+ s) prefix = true)
    as (prefix & Hpre & Hall) by (exists dp; split; [done|intros; apply prefix_app]).
  destruct (se_RuleIDs sel) as [|id [|id' ids]]; [exists prefix; auto| |exists prefix; auto].
  assert (id = bl_Name (rr_block ref) \/ id = ruleID (bl_Name (rr_block ref)) (ru_Name (rr_rule ref))) as Hid
    by (set_solver).
  unfold ruleview.SplitID. destruct Hid as [->| ->].
  - rewrite Split_no_char by apply Hb.
    rewrite bool_decide_false by apply Hb. rewrite (proj2 Hb). cbn [negb andb].
    unfold BlockPrefix. rewrite Hd. eexists. split; [done|]. unfold rule_tail, HasPrefix.
    apply prefix_spec. eexists. rewrite !app_str_assoc. done.
  - rewrite Split_ruleID by done. rewrite !bool_decide_false by apply Hb || apply Hu. cbn [orb].
    unfold RulePrefix. cbn [IdNamespace IdDomain IdBlock IdRule]. rewrite Hd. eexists. split; [done|].
    unfold rule_tail, HasPrefix. apply prefix_spec. eexists. rewrite !app_str_assoc. done.
Qed.

End compiled.

Lemma select_loop_bounds {S} `{Inspector S} ns snap sel pageSize world prefix :
  (forall now c limit s keys next, 1 <= limit -> insp_scan now prefix c limit s = Ok (keys, next) ->
     Z.of_nat (length keys) <= limit) ->
  forall fuel steps i w p n,
  Z.of_nat (length (pw_candidates w)) <= pageSize -> pw_scanned w <= scanBudget ->
  Z.of_nat (length (pw_candidates w)) <= pw_scanned w ->
  select_loop ns snap sel pageSize world fuel prefix steps i w = Ok (p, n) ->
  Z.of_nat (length (pa_candidates p)) <= pageSize /\ pa_scanned p <= scanBudget /\
  Z.of_nat (length (pa_candidates p)) <= pa_scanned p.
Proof.
  intros Hexact. induction fuel as [|fuel IH]; intros steps i w p n H1 H2 H3; cbn [select_loop];
    destruct (full pageSize steps w) eqn:Hf; intros H'; try (by injection H' as <- <-).
  destruct (insp_scan _ _ _ _ _) as [[ks next]|] eqn:Hs; [|done]. apply Hexact in Hs; [|by eapply room_pos].
  rewrite take_eq in H'. cbn [pw_candidates pw_scanned pw_next] in H'.
  pose proof (omap_length_le (admit_key_of ns snap (newRateIndex snap) sel) ks) as Hle.
  unfold walk_room in Hs.
  assert (length (pw_candidates w ++ omap (admit_key_of ns snap (newRateIndex snap) sel) ks) =
    length (pw_candidates w) + length (omap (admit_key_of ns snap (newRateIndex snap) sel) ks))%nat as Hl
    by apply length_app.
  case_bool_decide; [injection H' as <- <-|apply IH in H'; [done|..]];
    cbn [pa_candidates pa_scanned pw_candidates pw_scanned]; rewrite ?Hl; lia.
Qed.

(** *** The judgement *)

Lemma candidate_refs_all ns snapshot index sel keys :
  let cs := omap (admit_key_of ns snapshot index sel) keys in
  length (candidate_refs cs) = length cs /\
  Forall (fun cr => cc_ref cr.1 = Some cr.2) (candidate_refs cs) /\ (candidate_refs cs).*1 = cs.
Proof.
  cbn zeta. induction keys as [|k keys (IH1 & IH2 & IH3)]; [done|].
  change (omap (admit_key_of ns snapshot index sel) (k :: keys)) with
    (match admit_key_of ns snapshot index sel k with
     | Some y => y :: omap (admit_key_of ns snapshot index sel) keys
     | None => omap (admit_key_of ns snapshot index sel) keys end).
  destruct (admit_key_of ns snapshot index sel k) as [c|] eqn:E; [|done].
  assert (exists ref, cc_ref c = Some ref) as [ref Hr].
  { unfold admit_key_of in E. destruct (parseCounterKey _ _ _) as [parsed|]; [|done]. destruct (negb _); [done|].
    destruct (index !! _) as [ref|]; [|done]. destruct (namedAxes _ _) as [axes|]; [|done].
    destruct (negb _); [done|]. injection E as <-. eauto. }
  set (cs := omap (admit_key_of ns snapshot index sel) keys) in *.
  change (candidate_refs (c :: cs)) with
    (match (fun r => (c, r)) <$> cc_ref c with Some y => y :: candidate_refs cs | None => candidate_refs cs end).
  rewrite Hr. cbn [fmap option_fmap option_map length list_fmap fst]. split_and!; [lia|by constructor|by f_equal].
Qed.

Lemma guard_dup bs : ~ NoDup (b_Key <$> bs) -> exists e, GuardBuckets bs = Err e.
Proof.
  intros Hd. destruct (GuardBuckets bs) as [[]|e] eqn:E; [|eauto].
  apply GuardBuckets_ok in E as [Hn _]. done.
Qed.

(** The keys a page's candidates are judged under. *)
Lemma judged_keys cs :
  Forall (fun c => is_Some (cc_ref c)) cs ->
  b_Key <$> ((fun cr => peek_bucket (cc_key cr.1) cr.2) <$> candidate_refs cs) = cc_key <$> cs.
Proof.
  induction 1 as [|c cs [ref Hr] _ IH]; [done|].
  change (candidate_refs (c :: cs)) with
    (match (fun r => (c, r)) <$> cc_ref c with Some y => y :: candidate_refs cs | None => candidate_refs cs end).
  rewrite Hr. cbn [fmap option_fmap option_map list_fmap fst snd peek_bucket b_Key]. by f_equal.
Qed.

(** Two equal keys on a page make every store refuse the judgement. *)
Lemma judge_repeated {cap kind S} `{CounterStore cap kind S} now cs limitedOnly s :
  Forall (fun c => is_Some (cc_ref c)) cs -> ~ NoDup (cc_key <$> cs) ->
  (judge (store_peek now) cs limitedOnly s).2 = Err storeDown.
Proof.
  intros Hr Hd. unfold judge.
  destruct cs as [|c cs]; [destruct Hd; apply NoDup_nil_2|].
  set (bs := _ <$> candidate_refs (c :: cs)).
  assert (~ NoDup (b_Key <$> bs)) as Hb by (unfold bs; by rewrite judged_keys).
  apply guard_dup in Hb as [e He]. by rewrite (peek_guard now bs s e He).
Qed.

(** A candidate of a rate of the snapshot: its key is of the rate's kind. *)
Definition engine_candidate (snap : Snapshot) (c : counterCandidate) : Prop :=
  exists ref, cc_ref c = Some ref /\ ref ∈ rate_refs snap /\
    key_kind (cc_key c) = mkKind (ra_Algorithm (rr_rate ref)) (Period (ra_Window (rr_rate ref))).

(** Would the store refuse the next request of cost one on this counter
    alone, under the window of a rate? *)
Definition refused_now {cap kind S} `{CounterStore cap kind S} (now : Z) (s : S) (k : string) (ref : rateRef) : bool :=
  match (store_decide now [peek_bucket k ref] s).2 with
  | Ok [v] => negb (v_Allowed v)
  | _ => false
  end.

Definition candidate_refused {cap kind S} `{CounterStore cap kind S} (now : Z) (s : S) (c : counterCandidate) : bool :=
  match cc_ref c with Some ref => refused_now now s (cc_key c) ref | None => false end.

Lemma candidate_bucket_ok cap ns snap k ref :
  snapshot_ok cap ns snap -> ref ∈ rate_refs snap ->
  key_kind k = mkKind (ra_Algorithm (rr_rate ref)) (Period (ra_Window (rr_rate ref))) ->
  bucket_ok cap key_kind (peek_bucket k ref).
Proof.
  intros Hok Hr Hk. destruct (ref_rate_ok _ _ _ _ Hok Hr) as (Hck & Hp & Hreq).
  pose proof (check_ok_facts _ _ Hck) as (Hper & _ & Hal).
  unfold bucket_ok, peek_bucket. simpl. rewrite Hk. simpl.
  split_and!; try done; unfold max_i64; try lia; by destruct (ra_Algorithm (rr_rate ref)).
Qed.

Lemma ref_bucket_kind cap ns snap ref values :
  snapshot_ok cap ns snap -> ref ∈ rate_refs snap ->
  key_kind (Key.Bucket (ra_Prefix (rr_rate ref)) values) =
  mkKind (ra_Algorithm (rr_rate ref)) (Period (ra_Window (rr_rate ref))).
Proof.
  intros Hok Hr. destruct (ref_rate_ok _ _ _ _ Hok Hr) as (Hck & Hp & _).
  eapply key_kind_bucket; [exact Hp|by apply (check_ok_facts _ _ Hck)].
Qed.

Lemma Split_domain ns d dp :
  DomainPrefix ns d = Some dp -> exists tag, forall rest, Split ":" (dp +:+ rest) = "rl" :: "v1" :: tag :: Split ":" rest.
Proof.
  unfold DomainPrefix, DomainTag. destruct (_ || _); [done|]. cbn [mbind option_bind]. intros [= <-].
  exists ("{" +:+ escape ns +:+ "/" +:+ escape d +:+ "}"). intros rest.
  pose proof (escape_clean ns) as (Hn & _). pose proof (escape_clean d) as (Hd & _).
  replace (_ +:+ rest) with ("rl" +:+ String ":" ("v1" +:+ String ":"
    (("{" +:+ escape ns +:+ "/" +:+ escape d +:+ "}") +:+ String ":" rest)))
    by (simpl; rewrite !app_str_assoc; simpl; by rewrite ?app_str_assoc).
  rewrite (Split_app_sep _ "rl"), (Split_app_sep _ "v1") by done.
  by rewrite Split_app_sep by (rewrite !contains_char_app, Hn, Hd; done).
Qed.

Lemma drop_last_empty_head l f0 f1 f2 axes :
  drop_last_empty l = f0 :: f1 :: f2 :: axes -> exists axes', l = f0 :: f1 :: f2 :: axes'.
Proof.
  destruct l as [|x0 [|x1 [|x2 [|x3 l]]]]; cbn; try case_bool_decide; intros [=]; subst; eauto.
Qed.

(** Every key the selection admits is of the kind of its rate: the parser
    takes the algorithm and the period from the places the kind does. *)
Lemma admitted_candidate cap ns snap sel k c :
  snapshot_ok cap ns snap -> admit_key_of ns snap (newRateIndex snap) sel k = Some c -> engine_candidate snap c.
Proof.
  intros Hok Hadm. pose proof (admit_key _ _ _ _ _ _ Hadm) as Hkey. revert Hadm.
  unfold admit_key_of, parseCounterKey.
  destruct (DomainPrefix ns (s_Domain snap)) as [dp|] eqn:Hdp; [|done].
  destruct (CutPrefix k dp) as [rest|] eqn:Hcut; [|done].
  assert (k = dp +:+ rest) as ->.
  { unfold CutPrefix, HasPrefix in Hcut. destruct (String.prefix dp k) eqn:E; [|done].
    apply prefix_spec in E as [r ->]. unfold TrimPrefix, HasPrefix in Hcut.
    rewrite prefix_app, drop_str_app in Hcut. by injection Hcut as ->. }
  destruct (drop_last_empty _) as [|f0 [|f1 [|f2 axes]]] eqn:Hf; try done.
  apply drop_last_empty_head in Hf as [axes' Hf].
  destruct (splitRuleSegment f0) as [br|]; [|done]. destruct (ParseInt f2) as [period|]; [|done].
  destruct (unescape_all axes) as [values|]; [|done]. destruct (negb _); [done|]. cbn [ck_RatePrefix].
  destruct (newRateIndex snap !! _) as [ref|] eqn:Hix; [|done]. apply index_lookup_in in Hix as [Hr Hpre].
  destruct (namedAxes _ _); [|done]. destruct (negb _); [done|]. intros [= <-]. cbn [cc_key cc_ref] in *.
  exists ref. split_and!; [done..|]. rewrite <- (ref_bucket_kind cap ns snap ref [] Hok Hr).
  destruct (Split_domain _ _ _ Hdp) as [tag Htag]. unfold Key.Bucket. rewrite Hpre. unfold key_kind. cbn [cc_key].
  rewrite Htag, Hf.
  pose proof (Split_no_sep ":"%char rest) as Hns. rewrite Hf in Hns. do 3 (apply Forall_cons in Hns as [? Hns]).
  replace ((dp +:+ Join ":"%char [f0; f1; f2] +:+ ":") +:+ axes_suffix [])
    with (dp +:+ (f0 +:+ String ":" (f1 +:+ String ":" (f2 +:+ String ":" ""))))
    by (cbn [Join axes_suffix]; simpl; rewrite !app_str_assoc; simpl; by rewrite ?app_str_assoc, ?app_str_nil_r).
  rewrite Htag, !Split_app_sep by done. done.
Qed.

Lemma refused_now_level {cap S} `{CounterStore cap key_kind S} ns snap now s k ref :
  snapshot_ok cap ns snap -> ref ∈ rate_refs snap ->
  key_kind k = mkKind (ra_Algorithm (rr_rate ref)) (Period (ra_Window (rr_rate ref))) ->
  store_inv now s -> time_ok now ->
  refused_now now s k ref = negb (judge_allowed (peek_bucket k ref) (store_level now s k)).
Proof.
  intros Hok Hin Hk Hi Ht. unfold refused_now. set (b := peek_bucket k ref).
  assert (bucket_ok cap key_kind b) as Hb by (by eapply candidate_bucket_ok).
  assert (GuardBuckets [b] = Ok tt) as Hg.
  { apply GuardBuckets_ok. split; [apply NoDup_singleton|].
    constructor; [by eapply bucket_ok_guard|constructor]. }
  pose proof (decide_law now [b] s Hi Ht Hg ltac:(by constructor)) as HD.
  destruct (store_decide now [b] s) as [s' r]. destruct HD as (-> & _). simpl.
  change (b_Key b) with k.
  destruct (judge_allowed b (store_level now s k)) eqn:E.
  { rewrite orb_true_r. done. }
  rewrite andb_false_r. cbn [current_verdict v_Allowed]. by rewrite E.
Qed.

Definition zero_rate : Rate := mkRate gcra (mkWindow 0 0 0) "".
Definition zero_rule : Rule := mkRule "" "" [] [] [] [].
Definition zero_block : Block := mkBlock "" "" [] [] [].

Lemma judged_buckets cs :
  Forall (fun c => is_Some (cc_ref c)) cs ->
  (fun cr => peek_bucket (cc_key cr.1) cr.2) <$> candidate_refs cs =
  (fun c => peek_bucket (cc_key c) (default (mkRateRef zero_block zero_rule zero_rate) (cc_ref c))) <$> cs.
Proof.
  induction 1 as [|c cs [ref Hr] _ IH]; [done|].
  change (candidate_refs (c :: cs)) with
    (match (fun r => (c, r)) <$> cc_ref c with Some y => y :: candidate_refs cs | None => candidate_refs cs end).
  rewrite Hr. cbn [fmap option_fmap option_map list_fmap fst snd default]. rewrite Hr. by f_equal.
Qed.

(** The views of the judged candidates, given which of them refuse. *)
Lemma judged_views cs limitedOnly verdicts (refuses : counterCandidate -> bool) :
  Forall (fun c => is_Some (cc_ref c)) cs ->
  v_Allowed <$> verdicts = (fun c => negb (refuses c)) <$> cs ->
  (fun v => (vw_Key v, vw_Limited v)) <$>
    omap (fun crv : (counterCandidate * rateRef) * Verdict =>
      let '(c, ref, v) := crv in
      if limitedOnly && v_Allowed v then None
      else Some (counterView c ref (peek_bucket (cc_key c) ref) v)) (zip (candidate_refs cs) verdicts) =
  (fun c => (cc_key c, refuses c)) <$> filter (fun c => negb limitedOnly || refuses c = true) cs.
Proof.
  intros Hr. revert verdicts. induction Hr as [|c cs [ref Hc] _ IH]; intros verdicts Hv; [done|].
  destruct verdicts as [|v verdicts]; [done|]. rewrite !fmap_cons in Hv. injection Hv as Hv Hvs.
  change (candidate_refs (c :: cs)) with
    (match (fun r => (c, r)) <$> cc_ref c with Some y => y :: candidate_refs cs | None => candidate_refs cs end).
  rewrite Hc. cbn [fmap option_fmap option_map zip zip_with]. specialize (IH _ Hvs).
  rewrite filter_cons. cbn [omap list_omap]. rewrite Hv.
  destruct limitedOnly, (refuses c) eqn:E; cbn [negb orb andb];
    case_decide; try done; rewrite ?fmap_cons; cbn [counterView vw_Key vw_Limited];
    rewrite ?Hv, ?E; first [exact IH | f_equal; exact IH].
Qed.

(** The views of a page, one by one: each is the view of a candidate under its
    own verdict, an admitted one only without the limited filter; and a
    candidate the filter keeps has its view. *)
Lemma judged_view_in cs limitedOnly verdicts (refuses : counterCandidate -> bool) :
  Forall (fun c => is_Some (cc_ref c)) cs ->
  v_Allowed <$> verdicts = (fun c => negb (refuses c)) <$> cs ->
  let views := omap (fun crv : (counterCandidate * rateRef) * Verdict =>
      let '(c, ref, v) := crv in
      if limitedOnly && v_Allowed v then None
      else Some (counterView c ref (peek_bucket (cc_key c) ref) v)) (zip (candidate_refs cs) verdicts) in
  (forall view, view ∈ views -> exists c ref v, c ∈ cs /\ cc_ref c = Some ref /\
     view = counterView c ref (peek_bucket (cc_key c) ref) v /\ v_Allowed v = negb (refuses c) /\
     (limitedOnly = true -> refuses c = true)) /\
  (forall c, c ∈ cs -> limitedOnly = false \/ refuses c = true -> exists ref v, cc_ref c = Some ref /\
     counterView c ref (peek_bucket (cc_key c) ref) v ∈ views /\ v_Allowed v = negb (refuses c)).
Proof.
  intros Hr. cbv zeta. revert verdicts. induction Hr as [|c cs [ref Hc] _ IH]; intros verdicts Hv.
  { split; [intros view Hi|intros c Hi]; by apply elem_of_nil in Hi. }
  destruct verdicts as [|v verdicts]; [done|]. rewrite !fmap_cons in Hv. injection Hv as Hv Hvs.
  change (candidate_refs (c :: cs)) with
    (match (fun r => (c, r)) <$> cc_ref c with Some y => y :: candidate_refs cs | None => candidate_refs cs end).
  rewrite Hc. cbn [fmap option_fmap option_map].
  change (zip ((c, ref) :: candidate_refs cs) (v :: verdicts)) with ((c, ref, v) :: zip (candidate_refs cs) verdicts).
  specialize (IH _ Hvs).
  set (f := fun crv : (counterCandidate * rateRef) * Verdict => _) in *.
  set (views := omap f (zip (candidate_refs cs) verdicts)) in *. destruct IH as [IH1 IH2].
  assert (omap f ((c, ref, v) :: zip (candidate_refs cs) verdicts) =
    if limitedOnly && v_Allowed v then views else counterView c ref (peek_bucket (cc_key c) ref) v :: views) as Hom
    by (cbn [omap list_omap]; unfold f at 1; by destruct (limitedOnly && v_Allowed v)).
  rewrite Hom. split.
  - intros view Hi.
    assert (view ∈ views \/ view = counterView c ref (peek_bucket (cc_key c) ref) v /\ limitedOnly && v_Allowed v = false)
      as [Hi'|[-> Hl]] by (destruct (limitedOnly && v_Allowed v); [by left|]; apply elem_of_cons in Hi as [->|]; auto).
    + destruct (IH1 view Hi') as (c' & ref' & v' & ? & ?). exists c', ref', v'. split; [by right|done].
    + exists c, ref, v. split_and!; [left|done..|]. intros ->. rewrite Hv in Hl. by destruct (refuses c).
  - intros c' [->|Hi]%elem_of_cons Hf.
    + exists ref, v. split_and!; [done| |done]. rewrite Hv.
      destruct Hf as [->| ->]; cbn; [left|]. rewrite andb_false_r. left.
    + destruct (IH2 c' Hi Hf) as (ref' & v' & ? & ? & ?). exists ref', v'. split_and!; [done| |done].
      destruct (limitedOnly && v_Allowed v); [done|by right].
Qed.

(** The verdicts a page of distinct counters is judged by. *)
Lemma judge_verdicts {cap S} `{CounterStore cap key_kind S} ns snap now cs limitedOnly s :
  snapshot_ok cap ns snap -> store_inv now s -> time_ok now ->
  Forall (engine_candidate snap) cs -> NoDup (cc_key <$> cs) ->
  exists s' verdicts, judge (store_peek now) cs limitedOnly s =
    (s', Ok (omap (fun crv : (counterCandidate * rateRef) * Verdict =>
       let '(c, ref, v) := crv in
       if limitedOnly && v_Allowed v then None
       else Some (counterView c ref (peek_bucket (cc_key c) ref) v)) (zip (candidate_refs cs) verdicts))) /\
    (forall k, store_level now s' k = store_level now s k) /\
    v_Allowed <$> verdicts = (fun c => negb (candidate_refused now s c)) <$> cs.
Proof.
  intros Hok Hi Ht Hcs Hn. unfold judge.
  destruct cs as [|c0 cs0]; [by exists s, []|]. set (cs := c0 :: cs0) in *.
  assert (Forall (fun c => is_Some (cc_ref c)) cs) as Hr.
  { eapply Forall_impl; [exact Hcs|]. intros c (ref & -> & _). eauto. }
  set (bs := (fun cr => peek_bucket (cc_key cr.1) cr.2) <$> candidate_refs cs).
  assert (b_Key <$> bs = cc_key <$> cs) as Hkeys by (by apply judged_keys).
  assert (bs = (fun c => peek_bucket (cc_key c) (default (mkRateRef zero_block zero_rule zero_rate) (cc_ref c))) <$> cs)
    as Hbs by (by apply judged_buckets).
  assert (Forall (bucket_ok cap key_kind) bs) as Hb.
  { rewrite Hbs. apply Forall_fmap. eapply Forall_impl; [exact Hcs|].
    intros c (ref & Hc & Hin & Hk). simpl. rewrite Hc. by eapply candidate_bucket_ok. }
  assert (GuardBuckets bs = Ok tt) as Hg.
  { apply GuardBuckets_ok. rewrite Hkeys. split; [done|].
    eapply Forall_impl; [exact Hb|]. apply bucket_ok_guard. }
  pose proof (peek_law now bs s Hi Ht Hg Hb) as HP.
  destruct (store_peek now bs s) as [s' r]. destruct HP as (-> & Hlv & _).
  rewrite spec_verdicts_length, Nat.eqb_refl. cbn [negb]. do 2 eexists. split; [done|]. split; [done|].
  rewrite Hbs. unfold spec_verdicts. rewrite map_map. cbn [andb].
  rewrite <- list_fmap_compose. apply list_fmap_ext. intros i c Hci. cbn.
  rewrite Forall_forall in Hcs, Hr. apply list_elem_of_lookup_2 in Hci.
  destruct (Hcs c Hci) as (ref & Hc & Hin & Hkind). unfold candidate_refused. rewrite Hc. simpl.
  by rewrite (refused_now_level ns snap now s (cc_key c) ref Hok Hin Hkind Hi Ht), negb_involutive.
Qed.

(** ** The listing ends *)

Section memory_listing.
Context (namespace : string) (snapshot : Snapshot) (sel : selector) (pageSize : Z).
Context (world : nat -> Z * gmap string entry) (U : list string).
Context (HU : forall i k e, (world i).2 !! k = Some e -> k ∈ U).

(** The keys still above a cursor. *)
Definition above (c : string) : nat := length (filter (fun k => str_ltb c k = true) U).

Lemma memory_step i prefix c limit :
  1 <= limit -> exists keys next, insp_scan (world i).1 prefix c limit (world i).2 = Ok (keys, next) /\
    (next <> "" -> (above next < above c)%nat).
Proof.
  intros Hl. destruct (scan_step prefix c limit (world i).1 (world i).2 Hl) as (keys & next & Hs & _ & Hk & Hn & _).
  exists keys, next. split; [done|]. intros Hne. destruct (Hn Hne) as [Hin _].
  destruct (Hk next Hin) as [(_ & e & He & _) Hc].
  apply (filter_shrinks _ _ U next); [|by eapply HU|done|apply str_ltb_irrefl].
  intros y Hy. by eapply str_ltb_trans.
Qed.

(** A page answers, and leaves fewer keys above its cursor than it found,
    unless it had no room to begin with. *)
Lemma memory_page fuel prefix steps i w :
  exists p n, select_loop namespace snapshot sel pageSize world fuel prefix steps i w = Ok (p, n) /\
    (pa_more p = true -> (above (pa_resume p) <= above (pw_next w))%nat /\
       (full pageSize steps w = false -> (0 < fuel)%nat -> (above (pa_resume p) < above (pw_next w))%nat)).
Proof.
  revert steps i w. induction fuel as [|fuel IH]; intros steps i w; cbn [select_loop];
    destruct (full pageSize steps w) eqn:Hf.
  1-3: do 2 eexists; split; [done|]; simpl; intros _; split; [lia|]; intros; (done || lia).
  pose proof (room_pos _ _ _ Hf) as Hr.
  destruct (memory_step i prefix (pw_next w) _ Hr) as (keys & next & -> & Hd).
  rewrite take_eq. cbn [pw_candidates pw_scanned pw_next]. case_bool_decide as Hne.
  { do 2 eexists. split; [done|]. done. }
  destruct (IH (S steps) (S i) (mkPageWalk next (pw_candidates w ++ omap (admit_key_of namespace snapshot
    (newRateIndex snapshot) sel) keys) (pw_scanned w + Z.of_nat (length keys)))) as (p & n & -> & Hm).
  do 2 eexists. split; [done|]. intros Hmore. destruct (Hm Hmore) as [Hle _]. cbn [pw_next] in Hle.
  specialize (Hd Hne). split; [lia|]. intros; lia.
Qed.

(** One page: distinct counters, and progress when it stops short. *)
Lemma memory_candidates prefix start :
  1 <= pageSize ->
  exists p n keys, selectCandidates namespace snapshot sel pageSize world prefix start 0 = Ok (p, n) /\
    pa_candidates p = omap (admit_key_of namespace snapshot (newRateIndex snapshot) sel) keys /\ NoDup keys /\
    (pa_more p = true -> (above (pa_resume p) < above start)%nat).
Proof.
  intros Hp. destruct (memory_page maxScanSteps prefix 0 0 (mkPageWalk start [] 0)) as (p & n & Hs & Hm).
  assert (full pageSize 0 (mkPageWalk start [] 0) = false) as Hf.
  { unfold full, scanBudget, maxScanSteps. cbn [pw_candidates pw_scanned length].
    rewrite !orb_false_iff. split_and!; [apply Z.leb_gt; lia|done|done]. }
  destruct (selectCandidates_spec _ _ _ _ _ _ _ _ _ Hs) as (_ & keys & Hc & Hend & Hmore).
  exists p, n, keys. split_and!; [exact Hs|exact Hc| |].
  - destruct (pa_more p).
    + destruct (memory_chain prefix start (readings world 0 n ++ [(0, ∅)]) (keys ++ [])) as (Hsort & _);
        [|rewrite app_nil_r in Hsort; by apply ascending_nodup].
      apply Hmore; [done|]. apply (chain_end prefix 0 ∅ 1); [lia|]. by vm_compute.
    + destruct (memory_chain _ _ _ _ (Hend eq_refl)) as (Hsort & _). by apply ascending_nodup.
  - intros E. destruct (Hm E) as [_ Hlt]. cbn [pw_next] in Hlt.
    apply Hlt; [exact Hf|unfold maxScanSteps; lia].
Qed.

End memory_listing.

Lemma omap_admit_nodup ns snap index sel keys :
  NoDup keys -> NoDup (cc_key <$> omap (admit_key_of ns snap index sel) keys).
Proof.
  induction 1 as [|k keys Hk Hn IH]; [constructor|]. cbn [omap list_omap].
  destruct (admit_key_of ns snap index sel k) as [c|] eqn:E; [|done]. rewrite fmap_cons. constructor; [|done].
  rewrite (admit_key _ _ _ _ _ _ E). intros (c' & Hc & (k' & Hk' & Ha)%list_elem_of_omap)%list_elem_of_fmap.
  rewrite (admit_key _ _ _ _ _ _ Ha) in Hc. congruence.
Qed.

(** The rest of a listing of the in-memory store, from any cursor of it. *)
Lemma memory_follow {PL : Platform} {GT : GoText} ns snap sel prefix U (all visits : list (visit (S := gmap string entry))) raw step :
  snapshot_ok max_i64 ns snap -> scanPrefix ns (s_Domain snap) sel = Some prefix ->
  (forall v, v ∈ all -> 1 <= vi_pageSize v /\ forall i, mem_inv key_kind (vi_world v i).1 (vi_world v i).2 /\
     time_ok (vi_world v i).1 /\ forall k e, (vi_world v i).2 !! k = Some e -> k ∈ U) ->
  (forall v v', v ∈ all -> v' ∈ all -> Unix (vi_now v') <= Unix (vi_now v + cursorTTL)) ->
  continuations_read sel all -> visits ⊆ all -> presents sel all raw step -> (above U step < length visits)%nat ->
  exists answers, follow (store_peek (CounterStore := memory_store key_kind)) ns snap sel visits raw = Some answers.
Proof.
  intros Hok Hpre Hw Hclock HC. revert raw step. induction visits as [|v visits IH]; intros raw step Hsub Hp Hlen; [cbn in Hlen; lia|].
  assert (v ∈ all) as Hv by (apply Hsub; left). destruct (Hw v Hv) as [Hsize Hinv]. cbn [follow].
  assert ((if bool_decide (raw = "") then Ok "" else decodeCursor raw sel (vi_now v)) = Ok step) as ->.
  { destruct Hp as [[-> ->]|(v' & Hv' & Hs & ->)]; [by rewrite bool_decide_true|].
    destruct (HC v' step Hv' Hs) as [Hr Hne]. rewrite bool_decide_false by (by apply EncodeToString_nonempty).
    rewrite listing_cursor_roundtrip by done. rewrite decide_True; [done|]. split; [done|]. by apply Hclock. }
  destruct (memory_candidates ns snap sel (vi_pageSize v) (vi_world v) U
    ltac:(intros i k e; apply Hinv) prefix step Hsize) as (p & n & keys & Hs & Hc & Hnd & Hlt).
  unfold listCounters, walk_steps. rewrite Hpre. cbn [mbind option_bind]. rewrite Hs.
  destruct (judge_verdicts (H := memory_store key_kind) ns snap (vi_world v n).1 (pa_candidates p) (se_LimitedOnly sel) (vi_world v n).2)
    as (s' & vs & -> & _ & _); [done|apply Hinv|apply Hinv| |rewrite Hc; by apply omap_admit_nodup|].
  { rewrite Hc. apply Forall_forall. intros c (k & _ & Hk)%list_elem_of_omap. by eapply admitted_candidate. }
  cbn [snd cl_NextCursor]. apply selectCandidates_spec in Hs as (Hresume & _).
  destruct (pa_more p); [|rewrite bool_decide_true by done; by eexists].
  assert (store_cursor all (pa_resume p)) as Hsc.
  { destruct (Hresume eq_refl) as [->|(j & c & limit & ks & Hsc)]; [|right; by exists v, j, prefix, c, limit, ks].
    destruct Hp as [[_ ->]|(? & _ & ? & _)]; [by left|done]. }
  rewrite bool_decide_false by (by apply EncodeToString_nonempty, (HC v)).
  destruct (IH (encodeCursor (pa_resume p) sel (vi_now v)) (pa_resume p)) as [rest ->]; [| | |by eexists].
  - intros x Hx. apply Hsub. by right.
  - right. by exists v.
  - specialize (Hlt eq_refl). cbn [length] in Hlen. lia.
Qed.

(** ** Properties *)

(** How the view of a counter shows its rule, its window and its client. *)
Definition shows (v : CounterView) (ref : rateRef) (values : list string) : Prop :=
  vw_Key v = Key.Bucket (ra_Prefix (rr_rate ref)) values /\
  vw_RuleID v = ruleID (bl_Name (rr_block ref)) (ru_Name (rr_rule ref)) /\
  vw_Block v = bl_Name (rr_block ref) /\ vw_Rule v = ru_Name (rr_rule ref) /\
  vw_Algorithm v = ruleview.Algorithm (rr_rate ref) /\
  vw_PeriodSeconds v = Period (ra_Window (rr_rate ref)) /i Second /\
  vw_Mode v = ruleview.Mode (ru_Behavior (rr_rule ref)) /\
  vw_Limit v = Requests (ra_Window (rr_rate ref)) /\
  (fun name => vw_Axes v !! name) <$> ru_Counters (rr_rule ref) = Some <$> values.

Section listed.
Context {PL : Platform} {GT : GoText} {cap : Z} {S : Type} {CS : CounterStore cap key_kind S}.
Context {INSP : Inspector S}.
Context (ns : string) (snap : Snapshot) (Hok : snapshot_ok cap ns snap) (sel : selector).

Abbreviation admit_ := (admit_key_of ns snap (newRateIndex snap) sel).

(** The items of one page whose candidates the selection admitted. *)
Lemma page_items keys (a : answered) :
  store_inv (judged_at a).1 (judged_at a).2 -> time_ok (judged_at a).1 ->
  judges store_peek sel a (omap admit_ keys) ->
  (forall v, v ∈ cl_Items (an_list a) -> exists c ref w, c ∈ omap admit_ keys /\ cc_ref c = Some ref /\
     v = counterView c ref (peek_bucket (cc_key c) ref) w /\
     vw_Limited v = refused_now (judged_at a).1 (judged_at a).2 (cc_key c) ref /\
     (se_LimitedOnly sel = true -> vw_Limited v = true)) /\
  (forall c ref, c ∈ omap admit_ keys -> cc_ref c = Some ref ->
     se_LimitedOnly sel = false \/ refused_now (judged_at a).1 (judged_at a).2 (cc_key c) ref = true ->
     exists w, counterView c ref (peek_bucket (cc_key c) ref) w ∈ cl_Items (an_list a)).
Proof.
  intros Hi Ht Hj. unfold judges in Hj. set (cs := omap admit_ keys) in *.
  assert (Forall (engine_candidate snap) cs) as Hcs.
  { apply Forall_forall. intros c (k & _ & Hk)%list_elem_of_omap. by eapply admitted_candidate. }
  assert (Forall (fun c => is_Some (cc_ref c)) cs) as Hr.
  { eapply Forall_impl; [exact Hcs|]. intros c (ref & -> & _). eauto. }
  destruct (decide (NoDup (cc_key <$> cs))) as [Hn|Hd]; [|by rewrite judge_repeated in Hj].
  destruct (judge_verdicts ns snap _ cs (se_LimitedOnly sel) _ Hok Hi Ht Hcs Hn) as (s' & verdicts & E & _ & Hv).
  rewrite E in Hj. injection Hj as <-. clear E.
  destruct (judged_view_in cs (se_LimitedOnly sel) verdicts _ Hr Hv) as [H1 H2]. split.
  - intros v Hin. destruct (H1 v Hin) as (c & ref & w & Hc & Href & -> & Hw & Hl). exists c, ref, w.
    unfold candidate_refused in *. rewrite Href in *. cbn [counterView vw_Limited]. rewrite Hw, negb_involutive. done.
  - intros c ref Hc Href Hf. destruct (H2 c Hc) as (ref' & w & Href' & Hin & _).
    { unfold candidate_refused. by rewrite Href. }
    rewrite Href in Href'. injection Href' as <-. by exists w.
Qed.
End listed.

(** C33: A listing misses nothing it was asked for and makes nothing up. A client
    follows the continuations of the answers to the end, over any store that
    keeps the counter contract and the inspection promise, with any traffic
    between the calls and any page sizes; the JSON codec reads back the
    continuations the pages write. For a counter that lives through the walk,
    of a rule whose names carry no slash and which counts by distinct axes: if
    the selection selects its rule, window and client, then some page found it
    and judged it, and has an item for it exactly when the selection is not
    limited to refusing counters or the store, as that page's judgement finds
    it, would refuse a request of cost one on it; and every item with its key, on whatever page, is of a
    selected counter, shows its rule, its window and the client's values under
    their names, and is marked limited exactly when the store would refuse,
    which under the limited filter it would. Every item was alive during the
    walk. The narrowed scan a single rule id turns into loses none of them. *)
Theorem listing_complete : forall {PL : Platform} {GT : GoText} {cap S} {CS : CounterStore cap key_kind S} `{InspectorLaws S}
    ns d p snap probs sel (visits : list visit) (answers : list answered),
  policy_within cap p -> Compile ns d (Some p) = Some (snap, probs) ->
  (forall v i, v ∈ visits -> store_inv (vi_world v i).1 (vi_world v i).2 /\ time_ok (vi_world v i).1) ->
  continuations_read sel visits ->
  follow store_peek ns snap sel visits "" = Some answers ->
  (forall a v, a ∈ answers -> v ∈ cl_Items (an_list a) ->
     exists a' i, a' ∈ answers /\ (i < an_steps a')%nat /\
       insp_alive (vi_world (an_visit a') i).1 (vi_world (an_visit a') i).2 (vw_Key v)) /\
  (forall ref values,
     ref ∈ rate_refs snap -> plain_name (bl_Name (rr_block ref)) -> plain_name (ru_Name (rr_rule ref)) ->
     NoDup (ru_Counters (rr_rule ref)) -> length values = length (ru_Counters (rr_rule ref)) ->
     let k := Key.Bucket (ra_Prefix (rr_rate ref)) values in
     (forall a i, a ∈ answers -> (i < an_steps a)%nat ->
        insp_alive (vi_world (an_visit a) i).1 (vi_world (an_visit a) i).2 k) ->
     let refused a := refused_now (judged_at a).1 (judged_at a).2 k ref in
     (selects sel ref values -> exists a found, a ∈ answers /\ judges store_peek sel a found /\ k ∈ cc_key <$> found /\
        (se_LimitedOnly sel = false \/ refused a = true <->
         exists v, v ∈ cl_Items (an_list a) /\ vw_Key v = k)) /\
     (forall a v, a ∈ answers -> v ∈ cl_Items (an_list a) -> vw_Key v = k ->
        selects sel ref values /\ shows v ref values /\ vw_Limited v = refused a /\
        (se_LimitedOnly sel = true -> refused a = true))).
Proof.
  intros PL GT cap S CS INSP LAWS ns d p snap probs sel visits answers Hp HC Hinv Hcont Hrun.
  assert (snapshot_ok cap ns snap) as Hok by (eapply compile_snapshot_ok; [|done]; by intros ? [= <-]).
  assert (s_Domain snap = d) as Hd by (by eapply compile_textual).
  destruct (follow_prefix _ _ _ _ _ _ _ Hrun) as [prefix Hpre].
  destruct (follow_spec _ _ _ _ visits prefix visits "" "" answers Hpre Hcont ltac:(done) ltac:(by left) Hrun)
    as (kss & Hjs & Hch & Hvis). rewrite Forall_forall in Hvis.
  assert (forall a, a ∈ answers -> exists ks, ks ∈ kss /\ judges store_peek sel a
            (omap (admit_key_of ns snap (newRateIndex snap) sel) ks)) as Hpage by (intros a; exact (Forall2_elem_l _ _ _ a Hjs)).
  assert (forall a, a ∈ answers -> store_inv (judged_at a).1 (judged_at a).2 /\ time_ok (judged_at a).1) as Hat
    by (intros a Ha; apply Hinv, Hvis, Ha).
  pose proof (fun a ks Ha => page_items ns snap Hok sel ks a (proj1 (Hat a Ha)) (proj2 (Hat a Ha))) as Hitems.
  split.
  - intros a v Ha Hv. destruct (Hpage a Ha) as (ks & Hks & Hj).
    destruct (proj1 (Hitems a ks Ha Hj) v Hv) as (c & ref & w & (k & Hk & Hadm)%list_elem_of_omap & _ & -> & _).
    cbn [counterView vw_Key]. rewrite (admit_key _ _ _ _ _ _ Hadm).
    destruct (insp_sound _ _ _ k Hch) as (_ & x & Hx & Hl); [by eapply elem_of_concat_list_2|].
    apply walked_elem in Hx as (a' & i & Ha' & Hi & ->). by exists a', i.
  - intros ref values Hr Hb Hu Hnd Hl k Halive refused.
    destruct (admit_ref cap ns snap Hok sel ref values Hr Hb Hu Hnd Hl) as (axes & Hax & Hyes & Hno).
    cbn zeta in Hyes, Hno. fold k in Hyes, Hno.
    assert (forall a v, a ∈ answers -> v ∈ cl_Items (an_list a) -> vw_Key v = k ->
        selects sel ref values /\ shows v ref values /\ vw_Limited v = refused a /\
        (se_LimitedOnly sel = true -> refused a = true)) as Hback.
    { intros a v Ha Hv Hk. destruct (Hpage a Ha) as (ks & _ & Hj).
      destruct (proj1 (Hitems a ks Ha Hj) v Hv) as (c & ref' & w & (k' & _ & Hadm)%list_elem_of_omap & Href & -> & Hlim & Hlo).
      cbn [counterView vw_Key] in Hk. pose proof (admit_key _ _ _ _ _ _ Hadm) as Hkk. rewrite Hk in Hkk. subst k'.
      pose proof (Hno _ Hadm) as Hs. rewrite (Hyes Hs) in Hadm. injection Hadm as <-. injection Href as <-.
      split; [done|]. split; [by repeat split|]. split; [exact Hlim|]. intros Hb'. unfold refused. etrans; [symmetry; exact Hlim|by apply Hlo]. }
    split; [|exact Hback]. intros Hs.
    destruct (scanPrefix_covers cap ns snap Hok sel ref values Hr Hb Hu Hs) as (pre & Hpre' & Hhas).
    rewrite Hpre in Hpre'. injection Hpre' as <-.
    assert (k ∈ concat kss) as (ks & Hks & Hin)%elem_of_concat_list.
    { apply (insp_complete _ _ _ _ Hch); [by eapply ref_bucket_nonempty|done|].
      intros x (a & i & Ha & Hi & ->)%walked_elem. by apply Halive. }
    destruct (Forall2_elem_r _ _ _ _ Hjs Hks) as (a & Ha & Hj). specialize (Hyes Hs).
    exists a, (omap (admit_key_of ns snap (newRateIndex snap) sel) ks). split_and!; [done|done| |split].
    + apply list_elem_of_fmap. eexists. split; [symmetry; exact (admit_key _ _ _ _ _ _ Hyes)|]. apply list_elem_of_omap. by exists k.
    + intros Hf.
      destruct (proj2 (Hitems a ks Ha Hj) _ ref (proj2 (list_elem_of_omap _ _ _) (ex_intro _ k (conj Hin Hyes))) eq_refl Hf) as [w Hw].
      by eexists.
    + intros (v & Hv & Hk). destruct (Hback a v Ha Hv Hk) as (_ & _ & _ & Hlo).
      destruct (se_LimitedOnly sel); [right; by apply Hlo|by left].
Qed.

(** A listing of the in-memory store ends and is answered: while the keys that
    ever exist during it are finitely many, a client that presents each
    continuation within its lifetime reaches an answer without one after at
    most one page per key and one more, whatever the traffic, the page sizes
    and the selection, and no call fails. *)
Theorem listing_ends : forall {PL : Platform} {GT : GoText} ns d p snap probs sel prefix U
    (visits : list (visit (S := gmap string entry))),
  policy_within max_i64 p -> Compile ns d (Some p) = Some (snap, probs) -> scanPrefix ns d sel = Some prefix ->
  (forall v, v ∈ visits -> 1 <= vi_pageSize v /\ forall i, mem_inv key_kind (vi_world v i).1 (vi_world v i).2 /\
     time_ok (vi_world v i).1 /\ forall k e, (vi_world v i).2 !! k = Some e -> k ∈ U) ->
  (forall v v', v ∈ visits -> v' ∈ visits -> Unix (vi_now v') <= Unix (vi_now v + cursorTTL)) ->
  continuations_read sel visits -> (length U < length visits)%nat ->
  exists answers, follow (store_peek (CounterStore := memory_store key_kind)) ns snap sel visits "" = Some answers.
Proof.
  intros PL GT ns d p snap probs sel prefix U visits Hp HC Hpre Hw Hclock Hcont Hlen.
  assert (snapshot_ok max_i64 ns snap) as Hok by (eapply compile_snapshot_ok; [|done]; by intros ? [= <-]).
  assert (s_Domain snap = d) as Hd by (by eapply compile_textual). rewrite <- Hd in Hpre.
  apply (memory_follow ns snap sel prefix U visits visits "" ""); try done; [by left|].
  unfold above. pose proof (length_filter (fun k => str_ltb "" k = true) U). lia.
Qed.

#[local] Opaque select_loop.

(** One page stays within its bounds: it makes at most 128 store calls, and
    over a store whose step is exact it keeps at most the page size and
    examines at most the scan budget. *)
Theorem page_within_bounds : forall {S} `{Inspector S} ns snap sel pageSize world prefix start i p n,
  1 <= pageSize ->
  (forall now c limit s keys next, 1 <= limit -> insp_scan now prefix c limit s = Ok (keys, next) ->
     Z.of_nat (length keys) <= limit) ->
  selectCandidates ns snap sel pageSize world prefix start i = Ok (p, n) ->
  Z.of_nat (length (pa_candidates p)) <= pageSize /\ pa_scanned p <= scanBudget /\
  Z.of_nat (length (pa_candidates p)) <= pa_scanned p /\ (n - i <= maxScanSteps)%nat.
Proof.
  intros S INSP ns snap sel pageSize world prefix start i p n Hp Hexact H.
  destruct (select_loop_spec _ _ _ _ _ _ _ _ _ _ _ _ H) as (keys & Hn & _).
  destruct (select_loop_bounds ns snap sel pageSize world prefix Hexact maxScanSteps 0 i (mkPageWalk start [] 0) p n)
    as (? & ? & ?); [simpl; lia|simpl; unfold scanBudget; lia|simpl; lia|exact H|].
  split_and!; [done..|lia].
Qed.

(** A page that holds one counter twice fails. The inspection promise lets a
    walk return a key twice, the judgement puts every key of the page into one
    call, and every store refuses a call with two equal keys; the client is
    told that the store did not answer. *)
Theorem listing_repeated_key_fails : forall {cap kind S} `{CounterStore cap kind S} now cs limitedOnly s,
  Forall (fun c => is_Some (cc_ref c)) cs -> ~ NoDup (cc_key <$> cs) ->
  (judge (store_peek now) cs limitedOnly s).2 = Err storeDown.
Proof. intros cap kind S CS. apply judge_repeated. Qed.

(** A listing judges counters as the next request would find them: over any
    store that keeps the counter contract, a page of distinct counters of a
    compiled domain is answered, charges nothing, and marks as limited exactly
    the counters on which a decision of cost one would be refused now; the
    limited filter keeps exactly those. *)
Theorem listing_limited_exact : forall {cap S} `{CounterStore cap key_kind S} ns snap now cs limitedOnly s,
  snapshot_ok cap ns snap -> store_inv now s -> time_ok now ->
  Forall (engine_candidate snap) cs -> NoDup (cc_key <$> cs) ->
  exists s' views, judge (store_peek now) cs limitedOnly s = (s', Ok views) /\
    (forall k, store_level now s' k = store_level now s k) /\
    (fun v => (vw_Key v, vw_Limited v)) <$> views =
    (fun c => (cc_key c, candidate_refused now s c)) <$>
      filter (fun c => negb limitedOnly || candidate_refused now s c = true) cs.
Proof.
  intros cap S CS ns snap now cs limitedOnly s Hok Hi Ht Hcs Hn.
  destruct (judge_verdicts ns snap now cs limitedOnly s Hok Hi Ht Hcs Hn) as (s' & verdicts & -> & Hl & Hv).
  do 2 eexists. split; [done|]. split; [done|]. apply judged_views; [|done].
  eapply Forall_impl; [exact Hcs|]. intros c (ref & -> & _). eauto.
Qed.

(** ** Witnesses *)

Definition demo_snap : Snapshot := snap_of view_demo_list.
Definition demo_ref : rateRef := default (mkRateRef zero_block zero_rule zero_rate) (head (rate_refs demo_snap)).
Definition demo_bob : string := Key.Bucket (ra_Prefix (rr_rate demo_ref)) ["bob"; "7"].
Definition demo_alice : string := Key.Bucket (ra_Prefix (rr_rate demo_ref)) ["alice"; "7"].
Definition demo_counters : gmap string entry :=
  {[demo_bob := mkEntry GCRAID 60000000 0 0 60000000; demo_alice := mkEntry GCRAID 60000000 0 0 60000000]}.
Definition demo_sel : selector := mkSelector ["api"] "" 0 {["sub" := ["bob"]]} false.
Definition demo_prefix : string := default "" (scanPrefix "core" "gateway.public" demo_sel).

(** Two counters in a store at rest, one of them with room left, read by a
    client that asks for one counter per page and wants the refusing ones. *)
Definition demo_mixed : gmap string entry :=
  {[demo_bob := mkEntry GCRAID 60000000 0 0 60000000; demo_alice := mkEntry GCRAID 1 0 0 1]}.
Definition demo_visit : visit (S := gmap string entry) := mkVisit (1000 * Second) 1 (fun _ => (0, demo_mixed)).
Definition demo_visits : list visit := [demo_visit; demo_visit; demo_visit].
Definition demo_limited : selector := mkSelector ["api"] "" 0 {["id" := ["7"]]} true.

Lemma demo_counter_keys k e :
  demo_counters !! k = Some e -> k ∈ [demo_bob; demo_alice] /\ e = mkEntry GCRAID 60000000 0 0 60000000.
Proof.
  unfold demo_counters. intros H. apply lookup_insert_Some in H as [[<- <-]|[_ H]]; [split; [left|done]|].
  apply lookup_singleton_Some in H as [<- <-]. split; [right; left|done].
Qed.

(** A store whose step is exact: the first [limit] of a list of keys. *)
#[local] Instance list_inspector : Inspector (list string) := {
  insp_scan now prefix cursor limit l := Ok (firstn (Z.to_nat limit) l, "");
  insp_alive now l k := k ∈ l }.

Lemma demo_ref_in : demo_ref ∈ rate_refs demo_snap.
Proof. unfold demo_ref. destruct (rate_refs demo_snap) as [|x l] eqn:E; [vm_compute in E; discriminate E|left]. Qed.

Lemma demo_alive v : v = "bob" \/ v = "alice" ->
  insp_alive 0 demo_counters (Key.Bucket (ra_Prefix (rr_rate demo_ref)) [v; "7"]).
Proof. intros [->| ->]; eexists; (split; [vm_compute; reflexivity|done]). Qed.

Lemma demo_ref_names :
  bl_Name (rr_block demo_ref) = "api" /\ ru_Name (rr_rule demo_ref) = "per-user" /\
  ru_Counters (rr_rule demo_ref) = ["sub"; "id"].
Proof. by vm_compute. Qed.

Lemma demo_compiled :
  Compile "core" "gateway.public" (Some (view_demo [] (mkMPredicate "sub" OperatorIn "" ["bob"; "alice"])))
    = Some (demo_snap, []) /\ scanPrefix "core" "gateway.public" demo_sel = Some demo_prefix.
Proof. by vm_compute. Qed.

Lemma demo_plain : plain_name "api" /\ plain_name "per-user" /\ NoDup ["sub"; "id"].
Proof. split_and!; [done..|by_decide]. Qed.

Lemma demo_axis i : ["sub"; "id"] !! i = Some "sub" -> i = 0%nat.
Proof. by destruct i as [|[|i]]. Qed.

Abbreviation demo_policy := (view_demo [] (mkMPredicate "sub" OperatorIn "" ["bob"; "alice"])).

Lemma demo_within : policy_within max_i64 demo_policy.
Proof. repeat constructor; vm_compute; done. Qed.

Lemma demo_inv : mem_inv key_kind 0 demo_counters.
Proof.
  intros k e H. apply demo_counter_keys in H as [Hk ->].
  apply elem_of_cons in Hk as [->|Hk]; [|apply list_elem_of_singleton in Hk as ->]; vm_compute; split_and!; done.
Qed.

Lemma demo_visits_only v : v ∈ demo_visits -> v = demo_visit.
Proof. unfold demo_visits. intros H. do 3 (apply elem_of_cons in H as [->|H]; [reflexivity|]). by apply elem_of_nil in H. Qed.

Lemma demo_continuations :
  continuations_read (PL := demo_mgmt_platform) (GT := demo_text) demo_limited demo_visits.
Proof.
  intros v step Hv _. apply demo_visits_only in Hv as ->.
  split; [|by vm_compute]. by vm_compute.
Qed.

Definition demo_answers : list answered :=
  default [] (follow (PL := demo_mgmt_platform) (GT := demo_text) (store_peek (CounterStore := memory_store key_kind))
                "core" demo_snap demo_limited demo_visits "").

Lemma demo_followed :
  follow (PL := demo_mgmt_platform) (GT := demo_text) (store_peek (CounterStore := memory_store key_kind))
    "core" demo_snap demo_limited demo_visits "" = Some demo_answers.
Proof.
  unfold demo_answers. set (r := follow _ _ _ _ _ _).
  assert ((if r then true else false) = true) as H by (vm_compute; reflexivity).
  clearbody r. by destruct r.
Qed.

#[local] Opaque demo_mixed demo_answers demo_snap demo_ref demo_prefix demo_counters demo_bob demo_alice.

Lemma demo_answer a : a ∈ demo_answers -> judged_at a = (0, demo_mixed) /\ an_visit a = demo_visit.
Proof.
  intros Ha. assert (an_visit a = demo_visit) as E.
  { destruct (follow_prefix _ _ _ _ _ _ _ demo_followed) as [prefix Hpre].
    destruct (follow_spec _ _ _ _ demo_visits prefix demo_visits "" "" demo_answers Hpre demo_continuations
      (fun x Hx => Hx) (or_introl (conj eq_refl eq_refl)) demo_followed) as (_ & _ & _ & Hv).
    rewrite Forall_forall in Hv. specialize (Hv a Ha). by apply demo_visits_only in Hv. }
  unfold judged_at. rewrite E. split; reflexivity.
Qed.

#[local] Transparent demo_mixed demo_snap demo_ref demo_prefix demo_bob demo_alice.

Lemma demo_mixed_keys k e : demo_mixed !! k = Some e -> k ∈ [demo_bob; demo_alice].
Proof.
  unfold demo_mixed. intros H. apply lookup_insert_Some in H as [[<- <-]|[_ H]]; [left|].
  apply lookup_singleton_Some in H as [<- <-]. right; left.
Qed.

Lemma demo_mixed_inv : mem_inv key_kind 0 demo_mixed.
Proof.
  intros k e H. unfold demo_mixed in H. apply lookup_insert_Some in H as [[<- <-]|[_ H]];
    [|apply lookup_singleton_Some in H as [<- <-]]; vm_compute; split_and!; done.
Qed.

Lemma demo_mixed_refused :
  refused_now (H := memory_store key_kind) 0 demo_mixed (Key.Bucket (ra_Prefix (rr_rate demo_ref)) ["bob"; "7"]) demo_ref = true /\
  refused_now (H := memory_store key_kind) 0 demo_mixed (Key.Bucket (ra_Prefix (rr_rate demo_ref)) ["alice"; "7"]) demo_ref = false.
Proof. by vm_compute. Qed.

Lemma demo_mixed_alive v : v = "bob" \/ v = "alice" ->
  insp_alive 0 demo_mixed (Key.Bucket (ra_Prefix (rr_rate demo_ref)) [v; "7"]).
Proof. intros [->| ->]; eexists; (split; [vm_compute; reflexivity|done]). Qed.

#[local] Opaque demo_mixed demo_answers.
#[local] Opaque demo_snap demo_ref demo_prefix demo_counters demo_bob demo_alice.

(** Under the limited filter the counter with no room is listed and the one
    with room is not. *)
Lemma listing_complete_witness :
  (exists a v, a ∈ demo_answers /\ v ∈ cl_Items (an_list a) /\
     vw_Key v = Key.Bucket (ra_Prefix (rr_rate demo_ref)) ["bob"; "7"]) /\
  ~ exists a v, a ∈ demo_answers /\ v ∈ cl_Items (an_list a) /\
     vw_Key v = Key.Bucket (ra_Prefix (rr_rate demo_ref)) ["alice"; "7"].
Proof.
  destruct demo_compiled as [HC _]. destruct demo_ref_names as (Hb & Hr & Hc).
  destruct (@listing_complete demo_mgmt_platform demo_text max_i64 _ (memory_store key_kind) memory_inspector
    memory_inspector_laws "core" "gateway.public" demo_policy demo_snap [] demo_limited demo_visits demo_answers
    demo_within HC) as [_ H].
  - intros v i Hv. apply demo_visits_only in Hv as ->.
    split; [exact demo_mixed_inv|split; [done|unfold maxNow; cbn; lia]].
  - exact demo_continuations.
  - exact demo_followed.
  - specialize (fun values => H demo_ref values demo_ref_in). unfold selects in H.
    rewrite Hb, Hr, Hc in H. destruct demo_plain as (P1 & P2 & P3). destruct demo_mixed_refused as [R1 R2]. split.
    + specialize (H ["bob"; "7"] P1 P2 P3 eq_refl). cbv beta zeta in H. destruct H as [H _].
      { intros a j Ha _. destruct (demo_answer a Ha) as [_ ->]. exact (demo_mixed_alive "bob" (or_introl eq_refl)). }
      destruct H as (a & found & Ha & _ & _ & Hiff).
      { split_and!; [by left|by left|right; left; by_decide|]. intros name wanted Hw. unfold demo_limited in Hw.
        cbn [se_Axes] in Hw. apply lookup_singleton_Some in Hw as [<- <-]. exists 1%nat, "7". by split_and!; [| |left]. }
      rewrite (proj1 (demo_answer a Ha)) in Hiff. destruct (proj1 Hiff (or_intror R1)) as (v & Hv & Hk).
      exact (ex_intro _ a (ex_intro _ v (conj Ha (conj Hv Hk)))).
    + intros (a & v & Ha & Hv & Hk).
      specialize (H ["alice"; "7"] P1 P2 P3 eq_refl). cbv beta zeta in H. destruct H as [_ H].
      { intros a' j Ha' _. destruct (demo_answer a' Ha') as [_ ->]. exact (demo_mixed_alive "alice" (or_intror eq_refl)). }
      destruct (H a v Ha Hv Hk) as (_ & _ & _ & Hl). specialize (Hl eq_refl).
      rewrite (proj1 (demo_answer a Ha)) in Hl. cbn [fst snd] in Hl. rewrite R2 in Hl. discriminate Hl.
Defined.

Lemma listing_ends_witness : exists answers,
  follow (PL := demo_mgmt_platform) (GT := demo_text) (store_peek (CounterStore := memory_store key_kind))
    "core" demo_snap demo_limited demo_visits "" = Some answers.
Proof.
  apply (@listing_ends demo_mgmt_platform demo_text "core" "gateway.public" demo_policy demo_snap [] demo_limited
    demo_prefix [demo_bob; demo_alice]); [exact demo_within|apply demo_compiled|apply demo_compiled| | |exact demo_continuations|].
  - intros v Hv. apply demo_visits_only in Hv as ->.
    split; [done|]. intros i. split; [exact demo_mixed_inv|]. split; [split; [done|unfold maxNow; cbn; lia]|].
    intros k e H. change ((vi_world demo_visit i).2) with demo_mixed in H. by apply demo_mixed_keys in H.
  - intros v v' Hv Hv'. apply demo_visits_only in Hv as ->.
    apply demo_visits_only in Hv' as ->. by vm_compute.
  - cbn. lia.
Defined.

Lemma page_within_bounds_witness : exists p n,
  selectCandidates "core" demo_snap demo_sel 5 (fun _ => (0, ["a"; "b"; "c"])) "" "" 0 = Ok (p, n) /\
  pa_scanned p <= scanBudget.
Proof.
  destruct (selectCandidates "core" demo_snap demo_sel 5 (fun _ => (0, ["a"; "b"; "c"])) "" "" 0) as [[p n]|] eqn:E;
    [|vm_compute in E; discriminate E].
  exists p, n. split; [done|].
  apply (page_within_bounds "core" demo_snap demo_sel 5 (fun _ => (0, ["a"; "b"; "c"])) "" "" 0 p n); [lia| |done].
  intros now c limit s keys next Hl. simpl. intros [= <- <-].
  rewrite length_take. lia.
Defined.

Definition demo_candidate : counterCandidate := mkCandidate demo_bob (Some demo_ref) "api/per-user" ∅.

Lemma listing_repeated_key_fails_witness :
  (judge (store_peek (CounterStore := memory_store key_kind) 0) [demo_candidate; demo_candidate] false demo_counters).2 =
  Err storeDown.
Proof.
  apply (listing_repeated_key_fails (H := memory_store key_kind) 0 [demo_candidate; demo_candidate] false demo_counters).
  - by repeat constructor; eexists.
  - intros [Hn _]%NoDup_cons. apply Hn. left.
Defined.

Lemma demo_snap_ok : snapshot_ok max_i64 "core" demo_snap.
Proof.
  eapply compile_snapshot_ok; [|apply demo_compiled]. intros pol [= <-].
  repeat constructor; vm_compute; done.
Qed.

Lemma listing_limited_exact_witness : exists s views,
  judge (store_peek (CounterStore := memory_store key_kind) 0) [demo_candidate] true demo_counters = (s, Ok views) /\
  (fun v => (vw_Key v, vw_Limited v)) <$> views = [(demo_bob, true)].
Proof.
  destruct (listing_limited_exact (H := memory_store key_kind) "core" demo_snap 0 [demo_candidate] true demo_counters)
    as (s & views & Hj & _ & Hv).
  - exact demo_snap_ok.
  - exact demo_inv.
  - split; [done|]. unfold maxNow. lia.
  - constructor; [|constructor]. exists demo_ref. split_and!; [done|apply demo_ref_in|].
    eapply (ref_bucket_kind max_i64 "core" demo_snap demo_ref ["bob"; "7"]); [exact demo_snap_ok|apply demo_ref_in].
  - apply NoDup_singleton.
  - exists s, views. split; [exact Hj|]. rewrite Hv. vm_compute. done.
Defined.
