(* ===== verification/Applicability.v ===== *)
(** * service/internal/management/applicability.go: rules against a partial identity

    A caller of the management API names part of an identity; every rule of a
    block is annotated always, conditional or never. The analysis is a
    three-valued reading of the matcher: [ApplicabilityFacts] proves it sound
    against the rule phase of a decision. *)
From S2P Require Import Prelude GoStrings Model Compile Match Identity RuleView MgmtErrors Selector.

(** ** Definitions *)

(** A partial identity. An absent key has an empty list of values. *)
Record scope := mkScope {
  sc_values : gmap string (list string);
  sc_declared : gset string;
  sc_present : bool;
  sc_effective : gset string }.

Inductive state := stateFailed | stateSatisfied | stateUndecided.

#[export] Instance state_eq_dec : EqDecision state.
Proof. solve_decision. Defined.

Record keyValues := mkKeyValues { kv_known : bool; kv_values : list string; kv_nonEmpty : bool }.

Definition cutAxisParameter (parameter : string) : option string :=
  if (len parameter <=? len axisPrefix) || negb (HasPrefix parameter axisPrefix) then None
  else Some (drop_str (String.length axisPrefix) parameter).

Definition knownKeys (snapshot : Snapshot) : gset string :=
  {[KeyPath; KeyMethod]} ∪ list_to_set (s_EffectiveKeys snapshot)
    ∪ list_to_set (concat (bl_Captures <$> s_Blocks snapshot)).

Definition scope_add (name : string) (values : list string) (sc : scope) : scope :=
  mkScope (<[name := values]> (sc_values sc)) ({[name]} ∪ sc_declared sc) true (sc_effective sc).

(** The axis parameters of the query, in some order of the map. *)
Fixpoint scope_axes (valid listValued : gset string) (params : list (string * list string)) (sc : scope)
    : result apiError scope :=
  match params with
  | [] => Ok sc
  | (parameter, raw) :: params =>
      match cutAxisParameter parameter with
      | None => scope_axes valid listValued params sc
      | Some name =>
          let values := sortedUnique raw in
          if negb (bool_decide (name ∈ valid)) then Err (invalid [parameter])
          else if bool_decide ("" ∈ values) then Err (invalid [parameter])
          else if negb (bool_decide (name ∈ listValued)) && (1 <? length values)%nat then Err (invalid [parameter])
          else scope_axes valid listValued params (scope_add name values sc)
      end
  end.

Fixpoint scope_absent (valid : gset string) (names : list string) (sc : scope) : result apiError scope :=
  match names with
  | [] => Ok sc
  | name :: names =>
      if negb (bool_decide (name ∈ valid)) then Err (invalid ["absent"])
      else
        (** a name declared absent twice is supplied the second time *)
        match sc_values sc !! name with
        | Some _ => Err (invalid ["absent"])
        | None => scope_absent valid names (scope_add name [] sc)
        end
  end.

Definition parseScope (snapshot : Snapshot) (q : Values) : result apiError scope :=
  let valid := knownKeys snapshot in
  let listValued : gset string := list_to_set (ruleview.ListValuedKeys snapshot) in
  let? sc := scope_axes valid listValued (map_to_list q)
               (mkScope ∅ ∅ false (list_to_set (s_EffectiveKeys snapshot))) in
  scope_absent valid (default [] (q !! "absent")) sc.

(** *** What a scope says about a key *)

Definition produces (name : string) (route : Route) : bool :=
  existsb (fun s => bool_decide (sg_Capture s = name)) (rt_Segments route).

Definition capturedByEveryRoute (block : Block) (name : string) : bool :=
  negb (length (bl_Routes block) =? 0)%nat && forallb (produces name) (bl_Routes block).

Definition lookup_key (sc : scope) (block : Block) (name : string) : keyValues :=
  match sc_values sc !! name with
  | Some values => mkKeyValues true values false
  | None =>
      if bool_decide (name = KeyPath) || bool_decide (name = KeyMethod) then mkKeyValues false [] true
      else if capturedByEveryRoute block name then mkKeyValues false [] true
      else mkKeyValues false [] false
  end.

(** *** The request a path names *)

Definition scope_set (name : string) (values : list string) (sc : scope) : scope :=
  mkScope (<[name := values]> (sc_values sc)) ({[name]} ∪ sc_declared sc) (sc_present sc) (sc_effective sc).

Definition scope_drop (name : string) (sc : scope) : scope :=
  mkScope (delete name (sc_values sc)) (sc_declared sc ∖ {[name]}) (sc_present sc) (sc_effective sc).

(** The loop over the captures of the block; [s] is the caller's scope. *)
Fixpoint target_loop (s : scope) (target : Target) (names : list string) (out : scope) : result apiError scope :=
  match names with
  | [] => Ok out
  | name :: names =>
      let identity := bool_decide (name ∈ sc_effective s) in
      if bool_decide (name ∈ t_Undecided target) then
        target_loop s target names (if identity then scope_drop name out else out)
      else
        let produced := t_Captures target !! name in
        if identity then
          target_loop s target names (match produced with Some v => scope_set name [v] out | None => out end)
        else
          let decided := match produced with Some v => [v] | None => [] end in
          match sc_values s !! name with
          | Some supplied =>
              if negb (bool_decide (supplied = decided)) then
                Err (invalid [if bool_decide (supplied = []) then "absent" else axisPrefix +:+ name])
              else target_loop s target names out
          | None => target_loop s target names (scope_set name decided out)
          end
  end.

Definition forTarget (s : scope) (target : Target) : result apiError scope :=
  target_loop s target (bl_Captures (t_Block target)) s.

(** *** One rule *)

Definition boolState (ok : bool) : state := if ok then stateSatisfied else stateFailed.

Definition conditionState (block : Block) (condition : Predicate) (sc : scope) : state :=
  let values := lookup_key sc block (pr_Key condition) in
  let op := pr_Operator condition in
  if negb (kv_known values) then
    if kv_nonEmpty values then
      if bool_decide (op = OperatorExists) then stateSatisfied
      else if bool_decide (op = OperatorDoesNotExist) then stateFailed
      else stateUndecided
    else stateUndecided
  else
    let set := kv_values values in
    if bool_decide (op = OperatorEquals) then
      boolState (match set with [v] => bool_decide (v = pr_Value condition) | _ => false end)
    else if bool_decide (op = OperatorIn) || bool_decide (op = OperatorInGroup) then
      boolState (existsb (fun v => bool_decide (v ∈ pr_Values condition)) set)
    else if bool_decide (op = OperatorContains) then boolState (bool_decide (pr_Value condition ∈ set))
    else if bool_decide (op = OperatorExists) then boolState (0 <? length set)%nat
    else if bool_decide (op = OperatorDoesNotExist) then boolState (length set =? 0)%nat
    else stateUndecided.

Definition condition_gate (key : string) : ruleview.ApplicabilityGate :=
  ruleview.mkGate ruleview.GateUndecidedCondition key "".
Definition axis_gate (key : string) : ruleview.ApplicabilityGate :=
  ruleview.mkGate ruleview.GateMissingAxis key "".
Definition preempt_gate (rule : string) : ruleview.ApplicabilityGate :=
  ruleview.mkGate ruleview.GateMayBePreempted "" rule.

(** The conditions: [None] is the early return on one that failed. *)
Fixpoint conditions_loop (block : Block) (ps : list Predicate) (sc : scope) (undecided : gset string)
    (gates : list ruleview.ApplicabilityGate) : option (gset string * list ruleview.ApplicabilityGate) :=
  match ps with
  | [] => Some (undecided, gates)
  | p :: ps =>
      match conditionState block p sc with
      | stateFailed => None
      | stateSatisfied => conditions_loop block ps sc undecided gates
      | stateUndecided =>
          if bool_decide (pr_Key p ∈ undecided) then conditions_loop block ps sc undecided gates
          else conditions_loop block ps sc ({[pr_Key p]} ∪ undecided) (gates ++ [condition_gate (pr_Key p)])
      end
  end.

Fixpoint axes_gates (block : Block) (axes : list string) (sc : scope) (undecided : gset string)
    (gates : list ruleview.ApplicabilityGate) : option (list ruleview.ApplicabilityGate) :=
  match axes with
  | [] => Some gates
  | axis :: axes =>
      let values := lookup_key sc block axis in
      if kv_known values && (length (kv_values values) =? 1)%nat then axes_gates block axes sc undecided gates
      else if kv_known values then None
      else if kv_nonEmpty values then axes_gates block axes sc undecided gates
      else if bool_decide (axis ∈ undecided) then axes_gates block axes sc undecided gates
      else axes_gates block axes sc undecided (gates ++ [axis_gate axis])
  end.

Definition evaluateRule (block : Block) (rule : Rule) (sc : scope) : state * list ruleview.ApplicabilityGate :=
  match conditions_loop block (ru_Matches rule) sc ∅ [] with
  | None => (stateFailed, [])
  | Some (undecided, gates) =>
      match axes_gates block (ru_Counters rule) sc undecided gates with
      | None => (stateFailed, [])
      | Some [] => (stateSatisfied, [])
      | Some gates => (stateUndecided, gates)
      end
  end.

(** *** The other rules of the block *)

Definition first_preempts (block : Block) (j : nat) : bool :=
  match bl_Rules block !! j with
  | Some r => negb (bool_decide (ru_Behavior r = BehaviorShadow))
  | None => false
  end.

Definition all_preempts (block : Block) (i : nat) (rule : Rule) (j : nat) : bool :=
  match bl_Rules block !! j with
  | Some r => negb (j =? i)%nat && negb (bool_decide (ru_Behavior r = BehaviorShadow))
              && bool_decide (ru_Name rule ∈ ru_ReplacedRules r)
  | None => false
  end.

Definition preemptors (block : Block) (i : nat) (rule : Rule) : list nat :=
  if bool_decide (bl_Mode block = ModeFirstMatch)
  then filter (fun j => first_preempts block j = true) (seq 0 i)
  else filter (fun j => all_preempts block i rule j = true) (seq 0 (length (bl_Rules block))).

(** The loop of [preempt]; [None] is the early return on a rule that decides
    for every completion. *)
Fixpoint preempt_loop (block : Block) (base : list state) (js : list nat)
    (conditionalOn : list ruleview.ApplicabilityGate) : option (list ruleview.ApplicabilityGate) :=
  match js with
  | [] => Some conditionalOn
  | j :: js =>
      match base !! j with
      | Some stateSatisfied => None
      | Some stateUndecided =>
          preempt_loop block base js
            (conditionalOn ++
               [preempt_gate (ruleview.ID (bl_Name block)
                  (match bl_Rules block !! j with Some r => ru_Name r | None => "" end))])
      | _ => preempt_loop block base js conditionalOn
      end
  end.

Definition preempt (block : Block) (base : list state) (gates : list ruleview.ApplicabilityGate) (i : nat) (rule : Rule)
    : string * list ruleview.ApplicabilityGate :=
  if bool_decide (base !! i = Some stateFailed) then (ruleview.ApplicabilityNever, [])
  else match preempt_loop block base (preemptors block i rule) gates with
       | None => (ruleview.ApplicabilityNever, [])
       | Some [] => (ruleview.ApplicabilityAlways, [])
       | Some on => (ruleview.ApplicabilityConditional, on)
       end.

(** The annotations of a block's rules, in order. *)
Definition annotations (block : Block) (sc : scope) : list (string * list ruleview.ApplicabilityGate) :=
  let judged := (fun r => evaluateRule block r sc) <$> bl_Rules block in
  imap (fun i r => preempt block judged.*1 (default [] (judged.*2 !! i)) i r) (bl_Rules block).

Definition annotate (block : Block) (view : ruleview.BlockView) (sc : scope) : ruleview.BlockView :=
  ruleview.mkBlockView (ruleview.bv_Block view) (ruleview.bv_Mode view) (ruleview.bv_Routes view)
    (ruleview.bv_Captures view)
    (zip_with (fun v (an : string * list ruleview.ApplicabilityGate) =>
       ruleview.mkRuleView (ruleview.rv_ID v) (ruleview.rv_Block v) (ruleview.rv_Rule v) (ruleview.rv_Mode v)
         (ruleview.rv_Axes v) (ruleview.rv_Matches v) (ruleview.rv_ReplacedRules v) (ruleview.rv_Rates v) an.1 an.2)
       (ruleview.bv_Rules view) (annotations block sc)).

(** *** The rules endpoint (api.go) *)

Definition selectTargets (snapshot : Snapshot) (path method : string) : list Target :=
  if bool_decide (path = "") then (fun b => mkTarget b ∅ []) <$> s_Blocks snapshot
  else if bool_decide (method = "") then TargetsByPath snapshot path
  else Targets (Match snapshot path method).

Fixpoint rules_loop (targets : list Target) (path : string) (sc : scope) : result apiError (list ruleview.BlockView) :=
  match targets with
  | [] => Ok []
  | target :: targets =>
      let rendered := ruleview.view_block (t_Block target) in
      let? view :=
        (if sc_present sc then
           let? question := (if bool_decide (path = "") then Ok sc else forTarget sc target) in
           Ok (annotate (t_Block target) rendered question)
         else Ok rendered) in
      let? views := rules_loop targets path sc in
      Ok (view :: views)
  end.

(** [handleRules] past the lookup of the domain: [version] is the version of
    the enforced set. *)
Definition handleRules (PL : Platform) (snapshot : Snapshot) (version : string) (query : Values)
    : result apiError ruleview.RuleSetView :=
  let? _ := checkQueryNames query ["path"; "method"; "absent"] in
  let path := query_get query "path" in
  let method := query_get query "method" in
  if bool_decide (path = "") && negb (bool_decide (method = "")) then Err (invalid ["method"])
  else
    let? sc := parseScope snapshot query in
    let? _ := unnormalized snapshot (sc_values sc) (capturedKeys snapshot []) axisField in
    let? blocks := rules_loop (selectTargets snapshot path method) path sc in
    Ok (ruleview.mkRuleSetView (s_Domain snapshot) version (s_EffectiveKeys snapshot)
          (ruleview.ListValuedKeys snapshot) blocks).
