(* ===== verification/ApplicabilityFacts.v ===== *)
(** * The applicability analysis is sound for the matcher

    Always means every request the scope describes is subject to the rule,
    never that none is; and what a path decides about the captures of a block
    describes the request that carries it. *)
From S2P Require Import Prelude GoStrings Algo Key StoreApi Model Compile CompileFacts Match MatchFacts MatchSpec MatchTargets RuleView RuleViewFacts MgmtErrors Selector Listing ListingFacts Applicability.

(** ** Reference definitions *)

(** The keys a rule reads: of its conditions and of its counter axes. *)
Definition rule_keys (r : Rule) : list string := (pr_Key <$> ru_Matches r) ++ ru_Counters r.

Definition block_reads (block : Block) (name : string) : Prop :=
  exists r, r ∈ bl_Rules block /\ name ∈ rule_keys r.

(** The scope tells the truth about a request inside a block, on the keys the
    block reads. *)
Definition describes (block : Block) (sc : scope) (ctx : blockCtx) : Prop :=
  (forall name l, block_reads block name -> sc_values sc !! name = Some l -> valueOf ctx name ≡ₚ l) /\
  (forall name, block_reads block name -> capturedByEveryRoute block name = true ->
     length (valueOf ctx name) = 1%nat).

(** The rule counts the request, alone or beside others. *)
Definition in_effect (block : Block) (rule : Rule) (ctx : blockCtx) : Prop :=
  exists m, m ∈ evalBlock block ctx /\ m_Rule m = ru_Name rule.

(** Another rule of the block keeps rule [i] from applying. *)
Definition preempted (block : Block) (i : nat) (rule : Rule) (ctx : blockCtx) : Prop :=
  exists j r, j ∈ preemptors block i rule /\ bl_Rules block !! j = Some r /\ ruleMatches r ctx = true.

(** ** One rule *)

Lemma lookup_key_sound block sc ctx name :
  describes block sc ctx -> block_reads block name ->
  (kv_known (lookup_key sc block name) = true -> valueOf ctx name ≡ₚ kv_values (lookup_key sc block name)) /\
  (kv_nonEmpty (lookup_key sc block name) = true -> length (valueOf ctx name) = 1%nat).
Proof.
  intros [Hv Hc] Hr. unfold lookup_key. destruct (sc_values sc !! name) as [l|] eqn:E; simpl.
  { split; [intros _; by apply Hv|done]. }
  destruct (bool_decide (name = KeyPath)) eqn:Ep.
  { apply bool_decide_eq_true in Ep as ->. by split. }
  destruct (bool_decide (name = KeyMethod)) eqn:Em.
  { apply bool_decide_eq_true in Em as ->. by split. }
  destruct (capturedByEveryRoute block name) eqn:Ec; simpl; split; try done. intros _. by apply Hc.
Qed.

Lemma existsb_perm {A} (f : A -> bool) l k : l ≡ₚ k -> existsb f l = existsb f k.
Proof. induction 1; simpl; [done|by f_equal|by rewrite !orb_assoc, (orb_comm (f y))|congruence]. Qed.

Lemma conditionState_sound block sc ctx p :
  describes block sc ctx -> block_reads block (pr_Key p) ->
  (conditionState block p sc = stateSatisfied -> predicateHolds p ctx = true) /\
  (conditionState block p sc = stateFailed -> predicateHolds p ctx = false).
Proof.
  intros Hd Hr. destruct (lookup_key_sound block sc ctx (pr_Key p) Hd Hr) as [Hk Hn].
  unfold conditionState, predicateHolds. set (kv := lookup_key sc block (pr_Key p)) in *.
  set (set := valueOf ctx (pr_Key p)) in *.
  destruct (kv_known kv); cbn [negb].
  - specialize (Hk eq_refl). assert (forall b, boolState b = stateSatisfied -> b = true) as HT by (by intros []).
    assert (forall b, boolState b = stateFailed -> b = false) as HF by (by intros []).
    assert (match set with [v] => bool_decide (v = pr_Value p) | _ => false end =
            match kv_values kv with [v] => bool_decide (v = pr_Value p) | _ => false end) as He.
    { pose proof (Permutation_length Hk) as Hl.
      destruct set as [|x [|y l]], (kv_values kv) as [|x' [|y' l']]; try done.
      apply Permutation_singleton_r in Hk. by injection Hk as ->. }
    pose proof (Permutation_length Hk) as Hl.
    assert (bool_decide (pr_Value p ∈ set) = bool_decide (pr_Value p ∈ kv_values kv)) as Hc
      by (apply bool_decide_ext; by rewrite Hk).
    rewrite He, (existsb_perm _ _ _ Hk), Hc, Hl.
    repeat (match goal with |- context [if ?b then _ else _] => destruct b end); split; auto; done.
  - destruct (kv_nonEmpty kv); [|done]. specialize (Hn eq_refl).
    destruct (decide (pr_Operator p = OperatorExists)) as [->|Ne].
    { split; [intros _; cbn; by rewrite Hn|done]. }
    rewrite (bool_decide_false (pr_Operator p = OperatorExists)) by done.
    destruct (decide (pr_Operator p = OperatorDoesNotExist)) as [->|Nd].
    { split; [done|intros _; cbn; by rewrite Hn]. }
    by rewrite (bool_decide_false (pr_Operator p = OperatorDoesNotExist)) by done.
Qed.

Lemma conditions_loop_spec block ps sc ctx u g :
  describes block sc ctx -> Forall (fun p => block_reads block (pr_Key p)) ps ->
  match conditions_loop block ps sc u g with
  | None => forallb (fun p => predicateHolds p ctx) ps = false
  | Some (u', g') =>
      (exists more, g' = g ++ more) /\ (u' = u \/ g' <> []) /\
      (g' = [] -> u = ∅ -> forallb (fun p => predicateHolds p ctx) ps = true)
  end.
Proof.
  intros Hd Hps. revert u g. induction Hps as [|p ps Hp Hps IH]; intros u g; cbn [conditions_loop forallb].
  { split_and!; [exists []; by rewrite app_nil_r|by left|done]. }
  destruct (conditionState_sound block sc ctx p Hd Hp) as [HS HF].
  destruct (conditionState block p sc).
  - by rewrite HF.
  - rewrite HS by done. apply IH.
  - case_bool_decide as Hin.
    + specialize (IH u g). destruct (conditions_loop block ps sc u g) as [[u' g']|]; [|by rewrite IH, andb_false_r].
      destruct IH as (Hm & Hu & Ht). split_and!; try done. intros _ ->. by apply not_elem_of_empty in Hin.
    + specialize (IH ({[pr_Key p]} ∪ u) (g ++ [condition_gate (pr_Key p)])).
      destruct (conditions_loop block ps sc _ _) as [[u' g']|]; [|by rewrite IH, andb_false_r].
      destruct IH as ((more & ->) & _ & _). rewrite <- app_assoc.
      split_and!; [by eexists|right; by destruct g|by destruct g].
Qed.

Lemma axes_gates_spec block axes sc ctx u g :
  describes block sc ctx -> Forall (block_reads block) axes ->
  match axes_gates block axes sc u g with
  | None => forallb (fun axis => (length (valueOf ctx axis) =? 1)%nat) axes = false
  | Some g' =>
      (exists more, g' = g ++ more) /\
      (g' = [] -> u = ∅ -> forallb (fun axis => (length (valueOf ctx axis) =? 1)%nat) axes = true)
  end.
Proof.
  intros Hd Hax. revert g. induction Hax as [|axis axes Ha Hax IH]; intros g; cbn [axes_gates forallb].
  { split; [exists []; by rewrite app_nil_r|done]. }
  destruct (lookup_key_sound block sc ctx axis Hd Ha) as [Hk Hn].
  destruct (kv_known (lookup_key sc block axis)); cbn [andb].
  - specialize (Hk eq_refl). rewrite <- (Permutation_length Hk).
    destruct (length (valueOf ctx axis) =? 1)%nat; [apply IH|done].
  - destruct (kv_nonEmpty (lookup_key sc block axis)); [rewrite Hn by done; apply IH|].
    case_bool_decide as Hin.
    + specialize (IH g). destruct (axes_gates block axes sc u g); [|by rewrite IH, andb_false_r].
      destruct IH as [Hm Ht]. split; [done|]. intros _ ->. by apply not_elem_of_empty in Hin.
    + specialize (IH (g ++ [axis_gate axis])).
      destruct (axes_gates block axes sc u _); [|by rewrite IH, andb_false_r].
      destruct IH as [(more & ->) _]. rewrite <- app_assoc. split; [by eexists|by destruct g].
Qed.

Lemma reads_rule block rule :
  rule ∈ bl_Rules block ->
  Forall (fun p => block_reads block (pr_Key p)) (ru_Matches rule) /\ Forall (block_reads block) (ru_Counters rule).
Proof.
  intros Hr. unfold block_reads, rule_keys. split; apply Forall_forall; intros x Hx; exists rule; (split; [done|]);
    apply elem_of_app; [left; by apply list_elem_of_fmap_2|by right].
Qed.

Lemma evaluateRule_sound block rule sc ctx :
  describes block sc ctx -> rule ∈ bl_Rules block ->
  (fst (evaluateRule block rule sc) = stateSatisfied -> ruleMatches rule ctx = true) /\
  (fst (evaluateRule block rule sc) = stateFailed -> ruleMatches rule ctx = false) /\
  (snd (evaluateRule block rule sc) = [] <-> fst (evaluateRule block rule sc) <> stateUndecided).
Proof.
  intros Hd Hin. destruct (reads_rule block rule Hin) as [R1 R2]. unfold evaluateRule, ruleMatches.
  pose proof (conditions_loop_spec block (ru_Matches rule) sc ctx ∅ [] Hd R1) as HC.
  destruct (conditions_loop block (ru_Matches rule) sc ∅ []) as [[u g]|]; [|by rewrite HC].
  destruct HC as (_ & Hu & HC).
  pose proof (axes_gates_spec block (ru_Counters rule) sc ctx u g Hd R2) as HA.
  destruct (axes_gates block (ru_Counters rule) sc u g) as [[|x g']|]; [| |by rewrite HA, andb_false_r].
  - destruct HA as [(more & Hm) HA]. symmetry in Hm. apply app_nil in Hm as [-> _].
    destruct Hu as [->|?]; [|done]. by rewrite HC, HA.
  - by simpl.
Qed.

(** ** The rules a block applies, by their place *)

Lemma firstMatch_elem block rules ctx m :
  m ∈ firstMatch_loop block rules ctx <->
  exists i r, rules !! i = Some r /\ m = matchedRule block r ctx /\ ruleMatches r ctx = true /\ ~ is_bypass r /\
    forall j r', (j < i)%nat -> rules !! j = Some r' -> ruleMatches r' ctx = true -> is_shadow r'.
Proof.
  induction rules as [|r rules IH]; cbn [firstMatch_loop].
  { split; [by intros ?%elem_of_nil|by intros (i & r & Hi & _)]. }
  destruct (ruleMatches r ctx) eqn:Em; cbn [negb].
  2:{ rewrite IH. split.
      - intros (i & r' & Hi & Hm & Hma & Hb & Hall). exists (S i), r'. split_and!; try done.
        intros [|j] r'' Hj Hr; [simpl in Hr; congruence|]. apply (Hall j); [lia|done].
      - intros ([|i] & r' & Hi & Hm & Hma & Hb & Hall); [simpl in Hi; congruence|].
        exists i, r'. split_and!; try done. intros j r'' Hj Hr. apply (Hall (S j)); [lia|done]. }
  case_bool_decide as Hb.
  { split; [by intros ?%elem_of_nil|]. intros ([|i] & r' & Hi & Hm & Hma & Hnb & Hall).
    - injection Hi as <-. done.
    - specialize (Hall 0%nat r ltac:(lia) eq_refl Em). unfold is_shadow in Hall. by rewrite Hb in Hall. }
  rewrite elem_of_cons. case_bool_decide as Hs.
  - rewrite IH. split.
    + intros [->|(i & r' & Hi & Hm & Hma & Hnb & Hall)].
      * exists 0%nat, r. split_and!; try done. intros; lia.
      * exists (S i), r'. split_and!; try done. intros [|j] r'' Hj Hr; [by injection Hr as <-|].
        apply (Hall j); [lia|done].
    + intros ([|i] & r' & Hi & Hm & Hma & Hnb & Hall); [injection Hi as <-; by left|]. right.
      exists i, r'. split_and!; try done. intros j r'' Hj Hr. apply (Hall (S j)); [lia|done].
  - split.
    + intros [->|H]; [|by apply elem_of_nil in H]. exists 0%nat, r. split_and!; try done. intros; lia.
    + intros ([|i] & r' & Hi & Hm & Hma & Hnb & Hall); [injection Hi as <-; by left|].
      destruct Hs. by apply (Hall 0%nat); [lia|..].
Qed.

Lemma in_effect_iff block i rule ctx :
  NoDup (ru_Name <$> bl_Rules block) -> bl_Rules block !! i = Some rule ->
  (bl_Mode block <> ModeFirstMatch -> ru_Name rule ∉ ru_ReplacedRules rule) -> ~ is_bypass rule ->
  in_effect block rule ctx <-> ruleMatches rule ctx = true /\ ~ preempted block i rule ctx.
Proof.
  intros Hn Hi Hself Hnb. unfold in_effect, preempted, preemptors, evalBlock.
  assert (forall k r, bl_Rules block !! k = Some r -> ru_Name r = ru_Name rule -> k = i /\ r = rule) as Huniq.
  { intros k r Hk E. assert (k = i) as ->; [|by simplify_eq].
    apply (NoDup_lookup (ru_Name <$> bl_Rules block) _ _ (ru_Name rule)); [done|..];
      rewrite list_lookup_fmap, ?Hk, ?Hi; simpl; congruence. }
  case_bool_decide as Hmode.
  - unfold evalFirstMatch. setoid_rewrite firstMatch_elem. split.
    + intros (m & (k & r & Hk & -> & Hma & _ & Hall) & E). destruct (Huniq k r Hk E) as [-> ->]. split; [done|].
      intros (j & r' & Hj & Hr' & Hma'). apply list_elem_of_filter in Hj as [Hp Hj]. apply elem_of_seq in Hj.
      unfold first_preempts in Hp. rewrite Hr' in Hp. apply negb_true_iff, bool_decide_eq_false in Hp.
      apply Hp. by apply (Hall j); [lia|..].
    + intros [Hma Hpre]. exists (matchedRule block rule ctx). split; [|done]. exists i, rule. split_and!; try done.
      intros j r' Hj Hr' Hma'. destruct (decide (is_shadow r')) as [|Hns]; [done|]. destruct Hpre.
      exists j, r'. split_and!; try done. apply list_elem_of_filter. split; [|apply elem_of_seq; lia].
      unfold first_preempts. rewrite Hr'. by rewrite bool_decide_false.
  - rewrite evalAll_declarative. split.
    + intros (m & Hm & E). apply list_elem_of_In, in_map_iff in Hm as (r & <- & Hr).
      apply list_elem_of_In, list_elem_of_filter in Hr as ((Hma & _ & Hrep) & Hr).
      apply list_elem_of_lookup in Hr as [k Hk]. destruct (Huniq k r Hk E) as [-> ->]. split; [done|].
      intros (j & r' & Hj & Hr' & Hma'). apply list_elem_of_filter in Hj as [Hp Hj].
      unfold all_preempts in Hp. rewrite Hr' in Hp. bools. apply Hrep. apply Exists_exists.
      exists r'. split; [by eapply list_elem_of_lookup_2|]. by split_and!.
    + intros [Hma Hpre]. exists (matchedRule block rule ctx). split; [|done].
      apply list_elem_of_In, in_map_iff. exists rule. split; [done|]. apply list_elem_of_In, list_elem_of_filter.
      split; [|by eapply list_elem_of_lookup_2]. split_and!; try done. intros Hrep.
      apply Exists_exists in Hrep as (r' & Hr' & Hma' & Hns & Hin).
      apply list_elem_of_lookup in Hr' as [j Hj]. apply Hpre. exists j, r'. split_and!; try done.
      apply list_elem_of_filter. split; [|apply elem_of_seq; split; [lia|by eapply lookup_lt_Some]].
      unfold all_preempts. rewrite Hj. rewrite (bool_decide_false (ru_Behavior r' = _)), (bool_decide_true (_ ∈ _)) by done.
      destruct (Nat.eqb_spec j i) as [->|]; [|done]. simplify_eq. by destruct (Hself Hmode).
Qed.

(** ** A block *)

Section block.
Context (block : Block) (sc : scope) (ctx : blockCtx) (Hd : describes block sc ctx).

Definition base : list state := ((fun r => evaluateRule block r sc) <$> bl_Rules block).*1.

Lemma base_lookup j r : bl_Rules block !! j = Some r -> base !! j = Some (evaluateRule block r sc).1.
Proof. intros Hj. unfold base. by rewrite !list_lookup_fmap, Hj. Qed.

(** What the loop over the preempting rules concludes. *)
Lemma preempt_loop_spec js on :
  match preempt_loop block base js on with
  | None => exists j r, j ∈ js /\ bl_Rules block !! j = Some r /\ ruleMatches r ctx = true
  | Some on' => (exists more, on' = on ++ more) /\
      (on' = [] -> forall j r, j ∈ js -> bl_Rules block !! j = Some r -> ruleMatches r ctx = false)
  end.
Proof.
  revert on. induction js as [|j js IH]; intros on; cbn [preempt_loop].
  { split; [exists []; by rewrite app_nil_r|]. by intros _ j r ?%elem_of_nil. }
  destruct (bl_Rules block !! j) as [r|] eqn:Hj.
  - rewrite (base_lookup j r Hj). destruct (evaluateRule_sound block r sc ctx Hd) as (HS & HF & _); [by eapply list_elem_of_lookup_2|].
    destruct (evaluateRule block r sc).1.
    + specialize (IH on). destruct (preempt_loop block base js on).
      * destruct IH as [Hm Hno]. split; [done|]. intros Hnil j' r' [->|Hin]%elem_of_cons Hr'; [|by eapply Hno].
        simplify_eq. by apply HF.
      * destruct IH as (j' & r' & Hin & ? & ?). exists j', r'. split_and!; [by right|done..].
    + exists j, r. split_and!; [by left|done|by apply HS].
    + specialize (IH (on ++ [preempt_gate (ruleview.ID (bl_Name block) (ru_Name r))])).
      destruct (preempt_loop block base js _).
      * destruct IH as [(more & ->) _]. rewrite <- app_assoc. split; [by eexists|by destruct on].
      * destruct IH as (j' & r' & Hin & ? & ?). exists j', r'. split_and!; [by right|done..].
  - assert (base !! j = None) as ->.
    { unfold base. by rewrite !list_lookup_fmap, Hj. }
    specialize (IH on). destruct (preempt_loop block base js on).
    + destruct IH as [Hm Hno]. split; [done|]. intros Hnil j' r' [->|Hin]%elem_of_cons Hr'; [congruence|by eapply Hno].
    + destruct IH as (j' & r' & Hin & ? & ?). exists j', r'. split_and!; [by right|done..].
Qed.

Lemma preempt_sound i rule :
  bl_Rules block !! i = Some rule ->
  let '(verdict, on) := preempt block base (evaluateRule block rule sc).2 i rule in
  (verdict = ruleview.ApplicabilityAlways -> ruleMatches rule ctx = true /\ ~ preempted block i rule ctx) /\
  (verdict = ruleview.ApplicabilityNever -> ruleMatches rule ctx = false \/ preempted block i rule ctx) /\
  (verdict = ruleview.ApplicabilityConditional -> on <> []) /\
  verdict ∈ [ruleview.ApplicabilityAlways; ruleview.ApplicabilityConditional; ruleview.ApplicabilityNever].
Proof.
  intros Hi. unfold preempt. rewrite (base_lookup i rule Hi).
  destruct (evaluateRule_sound block rule sc ctx Hd) as (HS & HF & HG); [by eapply list_elem_of_lookup_2|].
  case_bool_decide as E.
  { injection E as E. split_and!; try done; [intros _; left; by apply HF|set_solver]. }
  pose proof (preempt_loop_spec (preemptors block i rule) (evaluateRule block rule sc).2) as HP.
  destruct (preempt_loop block base _ _) as [[|x on]|].
  - destruct HP as [(more & Hm) Hno]. symmetry in Hm. apply app_nil in Hm as [Hg _].
    split_and!; try done; [|set_solver]. intros _. split.
    + apply HS. apply HG in Hg. destruct (evaluateRule block rule sc).1; done.
    + intros (j & r & Hj & Hr & Hma). by rewrite (Hno eq_refl j r Hj Hr) in Hma.
  - split_and!; try done. set_solver.
  - split_and!; try done; [|set_solver]. intros _. right. done.
Qed.

Lemma annotations_lookup i rule :
  bl_Rules block !! i = Some rule ->
  annotations block sc !! i = Some (preempt block base (evaluateRule block rule sc).2 i rule).
Proof.
  intros Hi. unfold annotations. rewrite list_lookup_imap, Hi. cbn [fmap option_fmap option_map].
  by rewrite !list_lookup_fmap, Hi.
Qed.

End block.

(** ** What the compiler guarantees *)

(** No rule replaces itself, every capture a route can produce is among the
    captures of its block, and the keys the rules read have names. *)
Definition block_applicable (b : Block) : Prop :=
  Forall (fun r => bl_Mode b <> ModeFirstMatch -> ru_Name r ∉ ru_ReplacedRules r) (bl_Rules b) /\
  Forall (fun r => (rt_Type r <> PathTemplate -> rt_Segments r = []) /\
            Forall (fun s => sg_Capture s = "" \/ sg_Capture s ∈ bl_Captures b) (rt_Segments r)) (bl_Routes b) /\
  Forall (fun n => n <> "" /\ n <> KeyPath /\ n <> KeyMethod) (bl_Captures b) /\
  ~ block_reads b "".

(** The captures of a block grow segment by segment and stay proper names. *)
Definition captures_grow (caps caps' : gset string) (segs : list Segment) : Prop :=
  caps ⊆ caps' /\ Forall (fun x => sg_Capture x = "" \/ sg_Capture x ∈ caps') segs /\
  (forall n, n ∈ caps' -> n ∈ caps \/ (n <> "" /\ n <> KeyPath /\ n <> KeyMethod)).

Lemma captures_grow_same caps l : captures_grow caps caps (if l : bool then [] else []).
Proof. destruct l; split_and!; [done|constructor|auto|done|constructor|auto]. Qed.

Lemma compileSegment_captures env b v i s seen caps segs seen' caps' ps :
  compileSegment env b v i s seen caps = Log (segs, seen', caps') ps -> captures_grow caps caps' segs.
Proof.
  unfold compileSegment. intros H. pose proof (captures_grow_same caps true) as Hs.
  match type of H with (if ?c then _ else _) = _ => destruct c; [by winv|] end.
  match type of H with (if ?c then _ else _) = _ => destruct c end.
  { destruct (ContainsAny s "{}"); [by winv|]. winv. split_and!; [done| |auto]. repeat constructor. }
  set (name := String.substring 1 (String.length s - 2) s) in *.
  match type of H with (if ?c then _ else _) = _ => destruct c eqn:E1; [by winv|] end.
  match type of H with (if ?c then _ else _) = _ => destruct c eqn:E2; [by winv|] end.
  match type of H with (if ?c then _ else _) = _ => destruct c; [by winv|] end.
  winv. bools. split_and!; [set_solver|constructor; [right; set_solver|constructor]|].
  intros n [Hn|Hn]%elem_of_union; [right|by left]. apply elem_of_singleton in Hn as ->.
  split_and!; try done. intros Hz. subst name. by rewrite Hz in *.
Qed.

Lemma captures_grow_trans c1 c2 c3 l k :
  captures_grow c1 c2 l -> captures_grow c2 c3 k -> captures_grow c1 c3 (l ++ k).
Proof.
  intros (S1 & F1 & N1) (S2 & F2 & N2). split_and!; [set_solver| |].
  - apply Forall_app. split; [|done]. eapply Forall_impl; [exact F1|]. intros x [?|?]; [by left|right; set_solver].
  - intros n [?|?]%N2; [|by right]. by apply N1.
Qed.

Lemma compileSegments_captures env b v i l seen caps segs caps' ps :
  compileSegments env b v i l seen caps = Log (segs, caps') ps -> captures_grow caps caps' segs.
Proof.
  revert i seen caps segs caps' ps. induction l as [|s l IH]; intros i seen caps segs caps' ps;
    cbn [compileSegments]; intros H; winv; [apply (captures_grow_same _ true)|].
  eapply captures_grow_trans; [by eapply compileSegment_captures|by eapply IH].
Qed.

Lemma compileRoute_captures env b r caps route caps' ps :
  compileRoute env b r caps = Log (route, caps') ps -> blocking ps = false ->
  captures_grow caps caps' (rt_Segments route) /\ (rt_Type route <> PathTemplate -> rt_Segments route = []).
Proof.
  unfold compileRoute. intros H Hq. winv. quiet.
  match goal with H : (if _ then _ else _) = Log _ _ |- _ => rename H into H1 end.
  destruct (bool_decide (pm_Type (mr_Path r) = PathExact) || bool_decide (pm_Type (mr_Path r) = PathPrefix)).
  { winv. split; [apply (captures_grow_same _ true)|done]. }
  case_bool_decide as Ht; [|winv; quiet].
  split; [by eapply compileSegments_captures|done].
Qed.

Lemma compileRouteList_captures env b rs caps out caps' ps :
  compileRouteList env b rs caps = Log (out, caps') ps -> blocking ps = false ->
  captures_grow caps caps' (concat (rt_Segments <$> out)) /\
  Forall (fun r => rt_Type r <> PathTemplate -> rt_Segments r = []) out.
Proof.
  revert caps out caps' ps. induction rs as [|r rs IH]; intros caps out caps' ps; cbn [compileRouteList].
  { intros H _. winv. split; [apply (captures_grow_same _ true)|constructor]. }
  intros H Hq. winv. quiet.
  match goal with H : compileRoute _ _ _ _ = Log _ _ |- _ => apply compileRoute_captures in H as [G1 T1]; [|done] end.
  match goal with H : compileRouteList _ _ _ _ = Log _ _ |- _ => apply IH in H as [G2 T2]; [|done] end.
  split; [|by constructor]. by eapply captures_grow_trans.
Qed.

Lemma checkReplacedTargets_quiet b rule names ts x ps :
  checkReplacedTargets b rule names ts = Log x ps -> blocking ps = false -> rule ∉ ts.
Proof.
  revert x ps. induction ts as [|t ts IH]; intros x ps; cbn [checkReplacedTargets].
  { intros _ _. apply not_elem_of_nil. }
  intros H Hq. winv. quiet. bools. apply not_elem_of_cons. split; [congruence|by eapply IH].
Qed.

Lemma checkReplacedRules_quiet b rs mode names x ps :
  mode <> ModeFirstMatch -> checkReplacedRules b rs mode names = Log x ps -> blocking ps = false ->
  Forall (fun r => mru_Name r ∉ mru_ReplacedRules r) rs.
Proof.
  intros Hm. revert x ps. induction rs as [|r rs IH]; intros x ps; cbn [checkReplacedRules].
  { intros _ _. constructor. }
  destruct (mru_ReplacedRules r) as [|t ts] eqn:E; cbn [length Nat.eqb].
  - intros H Hq. winv. quiet. constructor; [rewrite E; apply not_elem_of_nil|by eapply IH].
  - rewrite bool_decide_false by done. intros H Hq. apply W_bind_Log in H as (? & ? & ? & HT & HR & ->). quiet.
    constructor; [rewrite E; by eapply checkReplacedTargets_quiet|by eapply IH].
Qed.

Lemma compilePredicate_key env b rule p keys c ps :
  compilePredicate env b rule p keys = Log c ps -> blocking ps = false ->
  match c with Some c => is_Some (keys !! pr_Key c) | None => True end.
Proof.
  unfold compilePredicate. intros H Hq.
  match type of H with (if ?c then _ else _) = _ => destruct c; [by winv|] end.
  destruct (keys !! mp_Key p) as [isArray|] eqn:E; [|by winv]. apply W_bind_Log in H as (ok & ? & ? & _ & H & ->).
  destruct (negb ok); [by winv|].
  repeat match type of H with
         | (if ?c then _ else _) = _ => destruct c
         | (match ?x with _ => _ end) = _ => destruct x
         end; winv; cbn [pr_Key]; eauto.
Qed.

Lemma compileMatches_keys env b rule l keys out ps :
  compileMatches env b rule l keys = Log out ps -> blocking ps = false ->
  Forall (fun n => is_Some (keys !! n)) (pr_Key <$> out).
Proof.
  revert out ps. induction l as [|p l IH]; intros out ps; cbn [compileMatches]; intros H Hq; winv; [constructor|].
  quiet. match goal with H : compilePredicate _ _ _ _ _ = Log _ _ |- _ => apply compilePredicate_key in H as HP; [|done] end.
  match goal with H : compileMatches _ _ _ _ _ = Log _ _ |- _ => apply IH in H as HR; [|done] end.
  case_match; [by constructor|done].
Qed.

Lemma compileCounters_keys b rule axes keys x ps :
  compileCounters b rule axes keys = Log x ps -> blocking ps = false -> Forall (fun n => is_Some (keys !! n)) axes.
Proof.
  revert x ps. induction axes as [|a axes IH]; intros x ps; cbn [compileCounters]; intros H Hq; [constructor|].
  apply W_bind_Log in H as (? & ? & ? & H1 & H2 & ->). quiet.
  destruct (keys !! a) eqn:E; [|winv; quiet]. constructor; [eauto|by eapply IH].
Qed.

Lemma compileRuleList_keys ns d env b rs keys names out names' ps :
  compileRuleList ns d env b rs keys names = Log (out, names') ps -> blocking ps = false ->
  Forall (fun r => Forall (fun n => is_Some (keys !! n)) (rule_keys r)) out.
Proof.
  revert names out names' ps. induction rs as [|r rs IH]; intros names out names' ps; cbn [compileRuleList].
  { intros H _. winv. constructor. }
  case_bool_decide as Hd; intros H Hq; winv; quiet. constructor; [|by eapply IH].
  match goal with H : compileRule _ _ _ _ _ _ = Log _ _ |- _ => unfold compileRule in H end. winv. quiet.
  unfold rule_keys. cbn [ru_Matches ru_Counters]. apply Forall_app.
  split; [by eapply compileMatches_keys|by eapply compileCounters_keys].
Qed.

Lemma block_keys_empty env caps : env_keys env !! "" = None -> "" ∉ caps -> block_keys env caps !! "" = None.
Proof.
  unfold block_keys. generalize (env_keys env). intros m Hm. revert m Hm.
  induction caps as [|c caps IH]; intros m Hm Hn; [done|]. apply not_elem_of_cons in Hn as [Hc Hn].
  cbn [foldl]. apply IH; [|done]. by rewrite lookup_insert_ne by congruence.
Qed.

(** The empty name is no key of an environment. *)
Lemma compileMapping_keys st km : ms_keys st !! "" = None -> ms_keys (compileMapping st km) !! "" = None.
Proof.
  intros Hs. unfold compileMapping. case_bool_decide; [done|].
  destruct (compileKeyMapping km) eqn:E; [|done]. cbn [ms_keys]. rewrite lookup_insert_ne; [done|].
  intros Hk. unfold compileKeyMapping in E. rewrite Hk in E. done.
Qed.

Lemma compileEnvironment_keys d p : env_keys (compileEnvironment d p).1 !! "" = None.
Proof.
  unfold compileEnvironment. destruct p as [pol|]; [|done].
  match goal with |- context [foldl compileMapping ?x] => assert (ms_keys x !! "" = None) as Hx by done; revert Hx; generalize x end.
  intros st Hst. assert (ms_keys (foldl compileMapping st (p_Mappings pol)) !! "" = None) as Hf.
  { revert st Hst. induction (p_Mappings pol) as [|km l IH]; intros st Hst; [done|]. apply IH. by apply compileMapping_keys. }
  by destruct (compileGroups _ _).
Qed.

Lemma compileBlock_applicable ns d env b c ps :
  env_keys env !! "" = None ->
  compileBlock ns d env b = Log c ps -> blocking ps = false -> block_applicable c.
Proof.
  intros Henv H Hq. pose proof (compileBlock_quiet _ _ _ _ _ _ H Hq) as (_ & _ & _ & _ & Hf).
  unfold compileBlock, compileRoutes in H. winv. quiet. unfold block_applicable.
  match goal with H : compileRouteList _ _ _ _ = Log _ _ |- _ =>
    apply compileRouteList_captures in H as [(_ & Hsegs & Hnames) Ht]; [|done] end.
  cbn [bl_Rules bl_Routes bl_Captures bl_Mode] in *. split_and!.
  - match goal with H : checkReplacedRules _ _ _ _ = Log _ _ |- _ => rename H into HR end.
    apply Forall_forall. intros rule Hin Hm.
    pose proof (checkReplacedRules_quiet _ _ _ _ _ _ Hm HR ltac:(done)) as Hself.
    apply list_elem_of_lookup in Hin as [i Hi].
    destruct (Forall2_lookup_r _ _ _ _ _ Hf Hi) as (r & Hr & (Hnm & _ & _ & _ & Hrep & _)).
    rewrite Hnm, Hrep. rewrite Forall_forall in Hself. apply Hself. by eapply list_elem_of_lookup_2.
  - apply Forall_forall. intros r Hr. rewrite Forall_forall in Ht. split; [by apply Ht|].
    apply Forall_forall. intros s Hs. rewrite Forall_forall in Hsegs.
    destruct (Hsegs s) as [|Hc]; [|by left|right].
    + apply (elem_of_concat_map rt_Segments). eauto.
    + by rewrite sort_strings_Permutation, elem_of_elements.
  - apply Forall_forall. intros n Hn. rewrite sort_strings_Permutation, elem_of_elements in Hn.
    destruct (Hnames n Hn) as [Hx|?]; [by apply not_elem_of_empty in Hx|done].
  - intros (r & Hr & Hk). match goal with H : compileRuleList _ _ _ _ _ _ _ = Log _ _ |- _ =>
      apply compileRuleList_keys in H as HK; [|done] end.
    rewrite Forall_forall in HK. specialize (HK r Hr). rewrite Forall_forall in HK. specialize (HK "" Hk).
    destruct HK as [isArr Hx]. rewrite block_keys_empty in Hx; [done..|]. intros He.
    rewrite sort_strings_Permutation, elem_of_elements in He.
    destruct (Hnames "" He) as [Hz|[Hz _]]; [by apply not_elem_of_empty in Hz|done].
Qed.

Lemma compileBlockList_applicable ns d env bs seen out ps :
  env_keys env !! "" = None ->
  compileBlockList ns d env bs seen = Log out ps -> blocking ps = false -> Forall block_applicable out.
Proof.
  intros Henv. revert seen out ps. induction bs as [|b bs IH]; intros seen out ps; cbn [compileBlockList].
  { intros H _. winv. constructor. }
  case_bool_decide as Hd; intros H Hq; winv; quiet.
  constructor; [by eapply compileBlock_applicable|by eapply IH].
Qed.

Lemma compile_applicable ns d p snap ps :
  Compile ns d p = Some (snap, ps) -> Forall block_applicable (s_Blocks snap).
Proof.
  unfold Compile. case_bool_decide; [intros; simplify_eq; constructor|].
  destruct (_ || _); [intros; simplify_eq; constructor|].
  pose proof (compileEnvironment_keys d p) as Henv. destruct (compileEnvironment d p) as [env eps].
  destruct p as [pol|]; [|intros; simplify_eq; constructor].
  destruct (compileBlocks ns d pol env) as [|blocks bps] eqn:Hb; [done|].
  destruct (blocking _) eqn:Hq; intros; simplify_eq; [constructor|].
  unfold compileBlocks in Hb. winv. quiet. by eapply compileBlockList_applicable.
Qed.
