(* ===== verification/ApplicabilityClaims.v ===== *)
(** * Applicability for the request a path names

    What a path decides about the captures of a block describes the request
    that carries it, so an annotation of the rules endpoint holds of every
    request the caller's question describes. *)
From S2P Require Import Prelude GoStrings Algo Key StoreApi Model Compile CompileFacts Match MatchFacts MatchSpec MatchTargets Identity RuleView RuleViewFacts MgmtErrors Selector Listing ListingFacts Applicability ApplicabilityFacts.

(** ** What a path decides *)

(** What the caller says is true of the request, read inside its block. An
    identity key speaks of the token, also where a capture shadows it. *)
Definition truthful (block : Block) (sc : scope) (ctx : blockCtx) : Prop :=
  (forall name l, sc_values sc !! name = Some l -> block_reads block name ->
     if bool_decide (name ∈ sc_effective sc) && negb (bool_decide (name = KeyPath \/ name = KeyMethod))
     then default [] (c_keys ctx !! name) ≡ₚ l else valueOf ctx name ≡ₚ l) /\
  dom (c_keys ctx) ⊆ sc_effective sc.

(** What the target phase says of the captures of a request. *)
Definition target_of (t : Target) (caps : gmap string string) : Prop :=
  (forall n v, t_Captures t !! n = Some v -> caps !! n = Some v) /\
  (forall n v, caps !! n = Some v -> n ∈ bl_Captures (t_Block t) ->
     t_Captures t !! n = Some v \/ n ∈ t_Undecided t).

Lemma template_loop_captures segs parts caps0 caps n :
  template_loop segs parts caps0 = Some caps -> length segs = length parts ->
  (is_Some (caps !! n) <-> is_Some (caps0 !! n) \/ (n <> "" /\ Exists (fun s => sg_Capture s = n) segs)).
Proof.
  revert parts caps0. induction segs as [|s segs IH]; intros [|p parts] caps0; cbn [template_loop length]; try done.
  { intros [= ->] _. split; [by left|]. intros [?|[_ H]]; [done|by apply Exists_nil in H]. }
  rewrite Exists_cons. intros H Hl. injection Hl as Hl. case_bool_decide as Ec.
  - case_bool_decide; [|done]. rewrite (IH _ _ H Hl). split; [tauto|].
    intros [?|[Hn [E|?]]]; [tauto|congruence|tauto].
  - case_bool_decide as Ep; [done|]. rewrite (IH _ _ H Hl). destruct (decide (sg_Capture s = n)) as [<-|Hne].
    + rewrite lookup_insert_eq. split; [intros _; right; tauto|intros _; left; eauto].
    + rewrite lookup_insert_ne by done. tauto.
Qed.

Lemma matchPath_captures route path caps n :
  matchPath route path = Some caps -> (rt_Type route <> PathTemplate -> rt_Segments route = []) ->
  is_Some (caps !! n) <-> n <> "" /\ produces n route = true.
Proof.
  intros H Hseg. assert (produces n route = true <-> Exists (fun s => sg_Capture s = n) (rt_Segments route)) as ->.
  { unfold produces. rewrite existsb_exists, Exists_exists. setoid_rewrite bool_decide_eq_true.
    by setoid_rewrite list_elem_of_In. }
  unfold matchPath in H. case_bool_decide as E1; [|case_bool_decide as E2; [|case_bool_decide as E3; [|done]]].
  - case_bool_decide; [|done]. injection H as <-. rewrite Hseg, Exists_nil by (by rewrite E1).
    split; [by intros []|by intros []].
  - destruct (matchPrefix _ _); [|done]. injection H as <-. rewrite Hseg, Exists_nil by (by rewrite E2).
    split; [by intros []|by intros []].
  - unfold matchTemplate in H. destruct (negb _); [done|]. destruct (Nat.eqb_spec (length (Split "/" (drop_str 1 path))) (length (rt_Segments route))) as [El|]; [|done].
    cbn [negb] in H. rewrite (template_loop_captures _ _ _ _ n H) by done. split; [|tauto].
    intros [[? Hx]|?]; [done|tauto].
Qed.

Lemma match_routes_elem routes path method r axis caps :
  match_routes routes path method = Some (r, axis, caps) -> r ∈ routes /\ matchPath r path = Some caps.
Proof.
  induction routes as [|route routes IH]; cbn [match_routes]; [done|]. destruct (negb _).
  { intros [? ?]%IH. split; [by right|done]. }
  destruct (matchPath route path) eqn:E; [|intros [? ?]%IH; split; [by right|done]].
  case_bool_decide; intros; simplify_eq; (split; [left|done]).
Qed.

Lemma match_block_captures block path query method h n :
  block_applicable block -> match_block block path query method = Some h ->
  h_block h = block /\ (is_Some (h_captures h !! n) -> n ∈ bl_Captures block) /\
  (capturedByEveryRoute block n = true -> n ∈ bl_Captures block -> is_Some (h_captures h !! n)).
Proof.
  intros (_ & Hr & Hc & _). unfold match_block, matchTarget, capturedByEveryRoute.
  destruct (bl_Routes block) as [|r0 rs] eqn:Er.
  { intros [= <-]. simpl. split_and!; [done|by intros []|done]. }
  destruct (match_routes _ _ _) as [[[r axis] caps]|] eqn:E; [|done]. intros [= <-]. cbn [h_block h_captures].
  apply match_routes_elem in E as [Hin Hm]. rewrite Forall_forall in Hr. destruct (Hr r Hin) as [Hs Hcap].
  rewrite (matchPath_captures _ _ _ n Hm Hs). split_and!; [done|..].
  - intros [Hn Hp]. unfold produces in Hp. apply existsb_exists in Hp as (s & Hsin & Hp).
    apply bool_decide_eq_true in Hp. rewrite Forall_forall in Hcap.
    destruct (Hcap s) as [|?]; [by apply list_elem_of_In|congruence..].
  - intros [_ Hall]%andb_true_iff Hnb. rewrite forallb_forall in Hall. rewrite Forall_forall in Hc.
    split; [by apply Hc|]. apply Hall. by apply list_elem_of_In.
Qed.

(** One capture of the block, as the loop leaves it. *)
Definition narrowed (s : scope) (t : Target) (name : string) (out : option (list string)) : Prop :=
  if bool_decide (name ∈ t_Undecided t) then
    out = if bool_decide (name ∈ sc_effective s) then None else sc_values s !! name
  else match t_Captures t !! name with
       | Some v => out = Some [v]
       | None => out = if bool_decide (name ∈ sc_effective s) then sc_values s !! name else Some []
       end.

Lemma target_loop_values s t names out sc :
  target_loop s t names out = Ok sc ->
  (forall n, n ∈ names -> sc_values out !! n = sc_values s !! n \/ narrowed s t n (sc_values out !! n)) ->
  forall n, (n ∈ names -> narrowed s t n (sc_values sc !! n)) /\
            (n ∉ names -> sc_values sc !! n = sc_values out !! n).
Proof.
  revert out. induction names as [|name names IH]; intros out; cbn [target_loop].
  { intros [= <-] _ n. split; [by intros ?%elem_of_nil|done]. }
  intros H Hout.
  assert (exists out', target_loop s t names out' = Ok sc /\ narrowed s t name (sc_values out' !! name) /\
            forall m, m <> name -> sc_values out' !! m = sc_values out !! m) as (out' & H' & Hname & Hother).
  { specialize (Hout name (list_elem_of_here _ _)). unfold narrowed in *. case_bool_decide as Hu.
    { eexists. split; [exact H|]. case_bool_decide; simpl.
      - split; [by rewrite lookup_delete_eq|]. intros m ?. by rewrite lookup_delete_ne.
      - split; [tauto|done]. }
    case_bool_decide as He.
    { eexists. split; [exact H|]. destruct (t_Captures t !! name); simpl.
      - split; [by rewrite lookup_insert_eq|]. intros m ?. by rewrite lookup_insert_ne.
      - split; [tauto|done]. }
    destruct (sc_values s !! name) as [supplied|] eqn:Es.
    - case_bool_decide as Ed; cbn [negb] in H; [|done]. eexists. split; [exact H|]. split; [|done].
      destruct (t_Captures t !! name); rewrite Ed in *; naive_solver.
    - eexists. split; [exact H|]. simpl. rewrite lookup_insert_eq. split; [by destruct (t_Captures t !! name)|].
      intros m ?. by rewrite lookup_insert_ne. }
  destruct (IH out' H') with (n := name) as [_ _]; [|intros n; destruct (IH out' H') with (n := n) as [H1 H2]].
  1, 2: intros m Hm; destruct (decide (m = name)) as [->|Hne]; [by right|]; rewrite Hother by done;
    apply Hout; by right.
  split.
  - intros [->|Hn]%elem_of_cons; [|by apply H1].
    destruct (decide (name ∈ names)) as [Hin|Hin]; [by apply H1|]. by rewrite H2.
  - intros [Hne Hn]%not_elem_of_cons. rewrite H2 by done. by apply Hother.
Qed.

(** The scope a path narrows describes the request that carries the path. *)
Lemma forTarget_describes t sc sc' method keys cost h path query :
  block_applicable (t_Block t) -> match_block (t_Block t) path query method = Some h ->
  target_of t (h_captures h) -> forTarget sc t = Ok sc' ->
  truthful (t_Block t) sc (hit_ctx method keys cost h) ->
  describes (t_Block t) sc' (hit_ctx method keys cost h).
Proof.
  intros Hb Hh [Ht1 Ht2] Hf [Htr Hdom]. set (ctx := hit_ctx method keys cost h) in *.
  pose proof (target_loop_values _ _ _ _ _ Hf (fun n _ => or_introl eq_refl)) as Hv.
  assert (forall n, n ∈ bl_Captures (t_Block t) -> n <> KeyPath /\ n <> KeyMethod) as Hbuiltin.
  { intros n Hn. destruct Hb as (_ & _ & Hc & _). rewrite Forall_forall in Hc. by destruct (Hc n Hn) as (? & ? & ?). }
  split.
  - intros n l Hr Hl. destruct (Hv n) as [Hin Hout]. destruct (decide (n ∈ bl_Captures (t_Block t))) as [Hc|Hc].
    + specialize (Hin Hc). rewrite Hl in Hin. destruct (Hbuiltin n Hc) as [Hp Hm]. unfold narrowed in Hin.
      specialize (Htr n). rewrite (bool_decide_false (n = KeyPath \/ n = KeyMethod)) in Htr by tauto.
      unfold valueOf in *. rewrite (bool_decide_false (n = KeyPath)), (bool_decide_false (n = KeyMethod)) in * by done.
      cbn [negb] in Htr. rewrite andb_true_r in Htr. change (c_captures ctx) with (h_captures h) in *.
      case_bool_decide as Hu.
      { case_bool_decide as He; [done|]. by apply Htr. }
      destruct (t_Captures t !! n) as [v|] eqn:Ev.
      { rewrite (Ht1 n v Ev). injection Hin as ->. done. }
      destruct (h_captures h !! n) as [w|] eqn:Ew.
      { destruct (Ht2 n w Ew Hc); [congruence|done]. }
      case_bool_decide as He; [by apply Htr|]. injection Hin as ->.
      destruct (c_keys ctx !! n) as [x|] eqn:Ex; [|done]. destruct He. apply Hdom. by apply elem_of_dom_2 in Ex.
    + rewrite (Hout Hc) in Hl. specialize (Htr n l Hl Hr).
      destruct (decide (n = KeyPath \/ n = KeyMethod)) as [Hk|Hk].
      { rewrite (bool_decide_true (n = KeyPath \/ n = KeyMethod)) in Htr by done.
        rewrite andb_false_r in Htr. done. }
      rewrite (bool_decide_false (n = KeyPath \/ n = KeyMethod)) in Htr by done. cbn [negb] in Htr.
      rewrite andb_true_r in Htr. case_bool_decide as He; [|done]. unfold valueOf.
      rewrite (bool_decide_false (n = KeyPath)), (bool_decide_false (n = KeyMethod)) by tauto.
      change (c_captures ctx) with (h_captures h). destruct (h_captures h !! n) eqn:Ew; [|done].
      destruct Hc. destruct (match_block_captures _ _ _ _ _ n Hb Hh) as (_ & Hsub & _). apply Hsub. eauto.
  - intros n Hr Hc. destruct (match_block_captures _ _ _ _ _ n Hb Hh) as (_ & _ & Hall). unfold valueOf.
    case_bool_decide; [done|]. case_bool_decide; [done|]. change (c_captures ctx) with (h_captures h).
    destruct (Hall Hc) as [v ->]; [|done].
    unfold capturedByEveryRoute in Hc. apply andb_true_iff in Hc as [Hnil Hf2].
    destruct Hb as (_ & Hrt & _ & Hne). destruct (bl_Routes (t_Block t)) as [|r rs]; [done|].
    apply Forall_cons in Hrt as [[_ Hseg] _]. cbn [forallb] in Hf2. apply andb_true_iff in Hf2 as [Hp _].
    unfold produces in Hp. apply existsb_exists in Hp as (s & Hs & Hp). apply bool_decide_eq_true in Hp.
    rewrite Forall_forall in Hseg. destruct (Hseg s) as [E|?]; [by apply list_elem_of_In| |congruence].
    destruct Hne. by rewrite <- E, Hp.
Qed.

(** The targets of the rules endpoint tell the truth about the captures of
    every request on that path, and under that method when one is given. *)
Lemma selectTargets_of snap path method m t h :
  path <> "" -> (method = "" \/ m = method) -> NoDup (bl_Name <$> s_Blocks snap) ->
  t ∈ selectTargets snap path method -> h ∈ ca_hits (Match snap path m) -> h_block h = t_Block t ->
  t_Block t ∈ s_Blocks snap /\ target_of t (h_captures h) /\
  match_block (t_Block t) (Cut "?" path).1.1 (Cut "?" path).1.2 m = Some h.
Proof.
  intros Hp Hm Hnd Ht Hh Eb. unfold selectTargets in Ht. rewrite bool_decide_false in Ht by done.
  unfold TargetsByPath, Targets, Match in *. destruct (Cut "?" path) as [[p q] f]. cbn [fst snd ca_hits] in *.
  apply list_elem_of_omap in Hh as (b & Hb & Hh).
  assert (h_block h = b) as <-.
  { unfold match_block in Hh. destruct (matchTarget b p m) as [[[? ?] ?]|]; [|done]. by injection Hh as <-. }
  rewrite <- Eb. split_and!; [done| |done]. unfold target_of. rewrite <- Eb. case_bool_decide as Em.
  - apply list_elem_of_omap in Ht as (b' & Hb' & Ht). unfold match_block in Hh.
    destruct (matchTarget (h_block h) p m) as [[[r a] caps]|] eqn:E; [|done]. injection Hh as Hh.
    assert (h_captures h = caps) as -> by (by rewrite <- Hh).
    assert (h_block h = b') as Ebb.
    { rewrite Eb. unfold targetByPath in Ht. destruct (bl_Routes b'); [by injection Ht as <-|].
      destruct (_ =? 0)%nat; [done|]. destruct (decide_captures _ _). by injection Ht as <-. }
    subst b'. destruct (targetByPath_spec (h_block h) p) as [_ Hs]. by destruct (Hs t m r a caps Ht E) as (_ & ? & ?).
  - destruct Hm as [|<-]; [done|]. apply list_elem_of_In, in_map_iff in Ht as (h' & <- & Hh').
    cbn [t_Block t_Captures t_Undecided] in *. apply list_elem_of_In, list_elem_of_omap in Hh' as (b' & Hb' & Hh').
    assert (h' = h) as ->; [|split; [done|by left]].
    assert (h_block h' = b') as Eb'.
    { unfold match_block in Hh'. destruct (matchTarget b' p m) as [[[? ?] ?]|]; [|done]. by injection Hh' as <-. }
    rewrite <- Eb', <- Eb in Hh'. congruence.
Qed.

Lemma target_block_in snap path method t : t ∈ selectTargets snap path method -> t_Block t ∈ s_Blocks snap.
Proof.
  unfold selectTargets, TargetsByPath, Targets, Match. destruct (Cut "?" path) as [[p q] f].
  case_bool_decide; [by intros (b & -> & ?)%list_elem_of_fmap|]. case_bool_decide.
  - intros (b & Hb & Ht)%list_elem_of_omap. unfold targetByPath in Ht.
    destruct (bl_Routes b); [by injection Ht as <-|]. destruct (_ =? 0)%nat; [done|].
    destruct (decide_captures _ _). by injection Ht as <-.
  - intros (h & <- & Hh)%list_elem_of_In%in_map_iff. cbn [t_Block ca_hits] in *.
    apply list_elem_of_In, list_elem_of_omap in Hh as (b & Hb & Hh). unfold match_block in Hh.
    destruct (matchTarget b p method) as [[[? ?] ?]|]; [|done]. by injection Hh as <-.
Qed.

(** ** Claims *)

(** C32: The annotations of the rules endpoint are sound for the
    decision. Take a policy the compiler accepted, a block the path selects
    and any request on that path, under the method when one is named, of
    which the caller's statements are true. A rule annotated always counts
    the request, a rule annotated never does not, whatever the identity keys
    the caller left open; a conditional rule names what its fate depends on,
    and there is no fourth annotation. Bypass rules, which count nothing, are
    set aside. *)
Theorem applicability_sound (ns d : string) (p : option Policy) (snap : Snapshot) (ps : list Problem)
    (path method m : string) (t : Target) (sc sc' : scope) (i : nat) (rule : Rule) (verdict : string)
    (on : list ruleview.ApplicabilityGate) (h : hit) (keys : gmap string (list string)) (cost : Z) :
  Compile ns d p = Some (snap, ps) -> path <> "" -> (method = "" \/ m = method) ->
  t ∈ selectTargets snap path method -> forTarget sc t = Ok sc' ->
  bl_Rules (t_Block t) !! i = Some rule -> ~ is_bypass rule ->
  annotations (t_Block t) sc' !! i = Some (verdict, on) ->
  h ∈ ca_hits (Match snap path m) -> h_block h = t_Block t ->
  truthful (t_Block t) sc (hit_ctx m keys cost h) ->
  (verdict = ruleview.ApplicabilityAlways -> in_effect (t_Block t) rule (hit_ctx m keys cost h)) /\
  (verdict = ruleview.ApplicabilityNever -> ~ in_effect (t_Block t) rule (hit_ctx m keys cost h)) /\
  (verdict = ruleview.ApplicabilityConditional -> on <> []) /\
  verdict ∈ [ruleview.ApplicabilityAlways; ruleview.ApplicabilityConditional; ruleview.ApplicabilityNever].
Proof.
  intros Hc Hp Hm Ht Hf Hi Hnb Ha Hh Eb Htr.
  destruct (compile_ok_some _ _ _ _ _ Hc) as (cap & Hnd & Hbs & _).
  destruct (selectTargets_of _ _ _ _ _ _ Hp Hm Hnd Ht Hh Eb) as (Hin & Hto & Hmb).
  pose proof (compile_applicable _ _ _ _ _ Hc) as Happ. rewrite Forall_forall in Happ, Hbs.
  specialize (Happ _ Hin). destruct (Hbs _ Hin) as (Hnames & _).
  pose proof (forTarget_describes _ _ _ _ keys cost _ _ _ Happ Hmb Hto Hf Htr) as Hd.
  pose proof (preempt_sound _ _ _ Hd i rule Hi) as Hs.
  rewrite (annotations_lookup _ _ _ _ Hi) in Ha. injection Ha as Ha. rewrite Ha in Hs.
  destruct Hs as (H1 & H2 & H3 & H4).
  assert (bl_Mode (t_Block t) <> ModeFirstMatch -> ru_Name rule ∉ ru_ReplacedRules rule) as Hself.
  { destruct Happ as (Hf2 & _). rewrite Forall_forall in Hf2. apply Hf2. by eapply list_elem_of_lookup_2. }
  rewrite (in_effect_iff _ i rule _ Hnames Hi Hself Hnb). split_and!; [done| |done|done].
  intros Hv [Hma Hpre]. destruct (H2 Hv) as [Hx|Hx]; [congruence|done].
Qed.

(** ** Examples *)

(** A block behind [/tenants/{tenant}] whose capture shadows the identity key
    of the same name. *)
Definition shadow_policy : Policy :=
  mkPolicy "gateway.public" [mkKeyMapping "tenant" "tenant" [] "" "" []] []
    [mkMBlock "api" [mkMRoute (mkPathMatch PathTemplate "/tenants/{tenant}") [] None] ""
       [mkMRule "acme" [mkMPredicate "tenant" OperatorEquals "acme" []] ["sub"]
          [mkMRate 10 (60 * Second) 0 "GCRA"] "" []]].

Definition shadow_snap : Snapshot := snap_of (Compile "core" "gateway.public" (Some shadow_policy)).

Definition no_block : Block := mkBlock "" "" [] [] [].
Definition no_hit : hit := mkHit no_block "" ∅ 0.

Definition shadow_target (path : string) : Target := default (mkTarget no_block ∅ []) (head (selectTargets shadow_snap path "")).
Definition shadow_hit (path : string) : hit := default no_hit (head (ca_hits (Match shadow_snap path "GET"))).
Definition shadow_rule : Rule :=
  default (mkRule "" "" [] [] [] []) (head (bl_Rules (t_Block (shadow_target "/tenants/acme")))).

(** The caller says the token carries [tenant = other] and [sub = alice]. *)
Definition shadow_scope : scope :=
  mkScope {["tenant" := ["other"]; "sub" := ["alice"]]} {["tenant"; "sub"]} true {["tenant"; "sub"]}.
Definition shadow_keys : gmap string (list string) := {["tenant" := ["other"]; "sub" := ["alice"]]}.

Definition shadow_question (path : string) : scope :=
  match forTarget shadow_scope (shadow_target path) with Ok sc => sc | Err _ => shadow_scope end.

Lemma shadow_truthful path :
  truthful (t_Block (shadow_target path)) shadow_scope (hit_ctx "GET" shadow_keys 1 (shadow_hit path)).
Proof.
  unfold truthful. change (c_keys _) with shadow_keys. split; [|by vm_compute].
  intros name l Hl _. cbn [sc_values sc_effective shadow_scope] in *.
  apply lookup_insert_Some in Hl as [[<- <-]|[_ [<- <-]%lookup_singleton_Some]]; by vm_compute.
Qed.

Lemma shadow_target_in : shadow_target "/tenants/acme" ∈ selectTargets shadow_snap "/tenants/acme" "".
Proof. apply head_Some_elem_of. vm_compute. reflexivity. Qed.

Lemma shadow_hit_in : shadow_hit "/tenants/acme" ∈ ca_hits (Match shadow_snap "/tenants/acme" "GET").
Proof. apply head_Some_elem_of. vm_compute. reflexivity. Qed.

(** On [/tenants/acme] the route's value decides, so the rule is always in
    effect, although the token names another tenant. *)
Lemma applicability_sound_witness :
  annotations (t_Block (shadow_target "/tenants/acme")) (shadow_question "/tenants/acme") !! 0%nat =
    Some (ruleview.ApplicabilityAlways, []) /\
  in_effect (t_Block (shadow_target "/tenants/acme")) shadow_rule
    (hit_ctx "GET" shadow_keys 1 (shadow_hit "/tenants/acme")).
Proof.
  split; [reflexivity|].
  apply (applicability_sound "core" "gateway.public" (Some shadow_policy) shadow_snap
           (default [] (snd <$> Compile "core" "gateway.public" (Some shadow_policy)))
           "/tenants/acme" "" "GET" (shadow_target "/tenants/acme") shadow_scope (shadow_question "/tenants/acme")
           0%nat shadow_rule ruleview.ApplicabilityAlways [] (shadow_hit "/tenants/acme") shadow_keys 1).
  - vm_compute. reflexivity.
  - discriminate.
  - by left.
  - apply shadow_target_in.
  - vm_compute. reflexivity.
  - vm_compute. reflexivity.
  - intros H. vm_compute in H. discriminate H.
  - vm_compute. reflexivity.
  - apply shadow_hit_in.
  - vm_compute. reflexivity.
  - apply shadow_truthful.
  - reflexivity.
Defined.

(** The question [?axis.tenant=other&axis.sub=alice] without a path. *)
Definition shadow_query : Values := {["axis.tenant" := ["other"]; "axis.sub" := ["alice"]]}.

(** The applicabilities of the answer, block by block. *)
Definition verdicts (r : result apiError ruleview.RuleSetView) : list (list string) :=
  match r with
  | Ok v => (fun b => ruleview.rv_Applicability <$> ruleview.bv_Rules b) <$> ruleview.rs_Blocks v
  | Err _ => []
  end.

(** Without a path the annotation reads an identity key a capture
    of the block shadows as the caller's own value, although inside the block
    every request carries the route's. The rule below is annotated never for
    a caller whose token names another tenant, and the same caller is counted
    by it on [/tenants/acme]. *)
Theorem applicability_shadowed_key :
  verdicts (handleRules demo_mgmt_platform shadow_snap "v1" shadow_query) = [[ruleview.ApplicabilityNever]] /\
  m_Rule <$> Evaluate (Match shadow_snap "/tenants/acme" "GET") shadow_keys 1 = ["acme"].
Proof. split; vm_compute; reflexivity. Qed.
