(* ===== verification/Sanitize.v ===== *)
(** * Values of callers in log lines

    [sanitizeValue] and [sanitizePath] of service/internal/rls/server.go and
    [logSafe] of service/internal/management/http.go, over Go's reading of a
    string as UTF-8. *)
From S2P Require Import Prelude GoStrings.

(** ** Definitions *)

(** *** Go's runes *)

Definition byte_in (lo hi : nat) (c : ascii) : bool := (lo <=? nat_of_ascii c)%nat && (nat_of_ascii c <=? hi)%nat.

Definition continuation (c : ascii) : bool := byte_in 128 191 c.

(** The width of the encoding at the head of the bytes; 0 where there is no
    valid one. *)
Definition rune_width (s : list ascii) : nat :=
  match s with
  | [] => 0
  | b0 :: s =>
      if byte_in 0 127 b0 then 1
      else match s with
      | [] => 0
      | b1 :: s =>
          if byte_in 194 223 b0 then (if continuation b1 then 2 else 0)
          else match s with
          | [] => 0
          | b2 :: s =>
              if byte_in 224 239 b0 then
                if (if byte_in 224 224 b0 then byte_in 160 191 b1
                    else if byte_in 237 237 b0 then byte_in 128 159 b1 else continuation b1) && continuation b2
                then 3 else 0
              else match s with
              | [] => 0
              | b3 :: _ =>
                  if byte_in 240 244 b0 then
                    if (if byte_in 240 240 b0 then byte_in 144 191 b1
                        else if byte_in 244 244 b0 then byte_in 128 143 b1 else continuation b1)
                       && continuation b2 && continuation b3
                    then 4 else 0
                  else 0
              end
          end
      end
  end%nat.

(** One turn of a range loop over a string: a rune by its bytes, or one byte
    that starts no rune. *)
Inductive rune := Rune (bytes : list ascii) | BadByte (b : ascii).

(** Every turn consumes a byte, so as many turns as there are bytes are
    enough. *)
Fixpoint runes_loop (fuel : nat) (s : list ascii) : list rune :=
  match fuel, s with
  | S fuel, b :: rest =>
      match rune_width s with
      | O => BadByte b :: runes_loop fuel rest
      | w => Rune (firstn w s) :: runes_loop fuel (skipn w s)
      end
  | _, _ => []
  end.

Definition runes (s : list ascii) : list rune := runes_loop (length s) s.

Definition control (c : ascii) : bool := (nat_of_ascii c <? 32)%nat || (nat_of_ascii c =? 127)%nat.

(** A rune below U+0080 is its one byte, so a control character is a
    one-byte rune. *)
Definition control_rune (r : rune) : bool := match r with Rune [c] => control c | _ => false end.

(** U+FFFD in UTF-8, what an invalid byte is written as. *)
Definition replacement : list ascii := [ascii_of_nat 239; ascii_of_nat 191; ascii_of_nat 189].

Definition rune_bytes (r : rune) : list ascii := match r with Rune bs => bs | BadByte _ => replacement end.

(** [strings.Map] that drops the control characters. *)
Definition map_drop_control (s : list ascii) : list ascii :=
  concat (rune_bytes <$> filter (fun r => control_rune r = false) (runes s)).

(** [strings.ToValidUTF8] with an empty replacement. *)
Definition ToValidUTF8 (s : list ascii) : list ascii :=
  concat ((fun r => match r with Rune bs => bs | BadByte _ => [] end) <$> runes s).

(** *** server.go *)

Definition maxLoggedValueLength : nat := 256.
Definition valueTruncated : string := "[truncated]".
Definition queryRedacted : string := "?[redacted]".

Definition sanitizeValue (value : string) : string :=
  let value := map_drop_control (String.list_ascii_of_string value) in
  if (maxLoggedValueLength <? length value)%nat
  then String.string_of_list_ascii (ToValidUTF8 (firstn maxLoggedValueLength value)) +:+ valueTruncated
  else String.string_of_list_ascii value.

Definition sanitizePath (path : string) : string :=
  let '(before, _, found) := Cut "?" path in
  sanitizeValue before +:+ (if found then queryRedacted else "").

(** *** http.go *)

(** Its own [maxLoggedValueLength]. *)
Definition maxRecordedValueLength : nat := 512.

(** The loop of [logSafe]; [b] is the builder. *)
Fixpoint logSafe_loop (rs : list rune) (b : list ascii) : list ascii :=
  match rs with
  | [] => b
  | r :: rs =>
      if control_rune r then logSafe_loop rs b
      else if (maxRecordedValueLength <? length b + length (rune_bytes r))%nat then b
      else logSafe_loop rs (b ++ rune_bytes r)
  end.

Definition logSafe (v : string) : string :=
  String.string_of_list_ascii (logSafe_loop (runes (String.list_ascii_of_string v)) []).

(** ** Lemmas *)

#[local] Arguments byte_in : simpl never.
#[local] Arguments continuation : simpl never.

(** *** Decoding *)

(** A sequence of bytes that is one rune. *)
Definition encoding (bs : list ascii) : Prop := rune_width bs = length bs /\ bs <> [].

(** Every byte string is a sequence of runes and bad bytes. *)
Definition valid_utf8 (s : list ascii) : Prop := Forall (fun r => match r with Rune _ => True | BadByte _ => False end) (runes s).

Ltac width_cases :=
  repeat match goal with
         | H : context [if ?b then _ else _] |- _ => destruct b eqn:?
         | |- context [if ?b then _ else _] => destruct b eqn:?
         end.

Lemma rune_width_app bs rest : bs <> [] -> rune_width bs <> 0%nat -> rune_width (bs ++ rest) = rune_width bs.
Proof.
  destruct bs as [|b0 bs]; [done|]. intros _. unfold rune_width at 1 2. cbn [app].
  destruct (byte_in 0 127 b0) eqn:E0; [by cbn; rewrite E0|].
  destruct bs as [|b1 bs]; [done|]. destruct (byte_in 194 223 b0) eqn:E1.
  { cbn. by rewrite E0, E1. }
  destruct bs as [|b2 bs]; [done|]. destruct (byte_in 224 239 b0) eqn:E2.
  { cbn. by rewrite E0, E1, E2. }
  destruct bs as [|b3 bs]; [done|]. cbn. by rewrite E0, E1, E2.
Qed.

Lemma rune_width_le s : (rune_width s <= length s)%nat.
Proof.
  destruct s as [|b0 [|b1 [|b2 [|b3 s]]]]; cbn; width_cases; lia.
Qed.

Lemma rune_width_take s : rune_width s <> 0%nat -> encoding (firstn (rune_width s) s).
Proof.
  intros Hw. pose proof (rune_width_le s) as Hle. unfold encoding. rewrite length_firstn.
  split; [|destruct s as [|b s]; [done|]; by destruct (rune_width (b :: s))]. rewrite Nat.min_l by done.
  destruct s as [|b0 [|b1 [|b2 [|b3 s]]]]; cbn in *; try done;
    destruct (byte_in 0 127 b0) eqn:E0; cbn [firstn]; cbn; rewrite ?E0; try done;
    destruct (byte_in 194 223 b0) eqn:E1; cbn [firstn]; cbn; rewrite ?E0, ?E1; try done;
    repeat (case_match; cbn [firstn] in *; cbn; rewrite ?E0, ?E1; try done); try congruence.
Qed.

Lemma runes_loop_cover fuel s : (length s <= fuel)%nat ->
  Forall (fun r => match r with Rune bs => encoding bs | BadByte _ => True end) (runes_loop fuel s).
Proof.
  revert s. induction fuel as [|fuel IH]; intros [|b s] Hf; cbn [runes_loop]; try constructor.
  destruct (rune_width (b :: s)) as [|w] eqn:E; [constructor; [done|apply IH; simpl in *; lia]|].
  constructor; [rewrite <- E; apply rune_width_take; lia|]. apply IH. rewrite length_skipn. simpl in *. lia.
Qed.

(** A concatenation of runes reads back as these runes. *)
Lemma runes_concat fuel l : Forall encoding l -> (length (concat l) <= fuel)%nat ->
  runes_loop fuel (concat l) = Rune <$> l.
Proof.
  intros Hl. revert fuel. induction Hl as [|bs l [Hw Hn] Hl IH]; intros fuel Hf; [by destruct fuel|].
  cbn [concat] in *. rewrite length_app in Hf. destruct bs as [|b bs]; [done|].
  destruct fuel as [|fuel]; [simpl in Hf; lia|]. cbn [runes_loop app].
  change (b :: bs ++ concat l) with ((b :: bs) ++ concat l).
  rewrite rune_width_app by (rewrite ?Hw; done). rewrite Hw.
  cbn [length]. change (S (length bs)) with (length (b :: bs)). rewrite take_app_length, drop_app_length.
  rewrite IH by (simpl in Hf; lia). done.
Qed.

Lemma valid_concat l : Forall encoding l -> valid_utf8 (concat l).
Proof.
  intros Hl. unfold valid_utf8, runes. rewrite runes_concat by done.
  apply Forall_fmap, Forall_forall. by intros.
Qed.

(** *** The bytes of a rune *)

Lemma byte_in_high lo hi c : byte_in lo hi c = true -> (128 <= lo)%nat -> control c = false.
Proof.
  unfold byte_in, control. rewrite andb_true_iff, !Nat.leb_le. intros [H _] Hlo.
  apply orb_false_iff. rewrite Nat.ltb_ge, Nat.eqb_neq. lia.
Qed.

Lemma encoding_control bs : encoding bs -> control_rune (Rune bs) = false -> Forall (fun c => control c = false) bs.
Proof.
  intros [Hw Hn] Hc. destruct bs as [|b0 [|b1 [|b2 [|b3 [|b4 bs]]]]]; cbn in Hw; try done; [by constructor|..];
    unfold continuation in Hw; width_cases; try done; bools;
    repeat (apply Forall_cons; split); try apply Forall_nil_2; try (eapply byte_in_high; [eassumption|lia]).
Qed.

Lemma replacement_encoding : encoding replacement.
Proof. by split. Qed.

(** *** What the functions write *)

(** A value a log line can carry. *)
Definition log_clean (s : list ascii) : Prop := valid_utf8 s /\ Forall (fun c => control c = false) s.

(** The same, as a sequence of runes, which concatenates. *)
Definition chunks (s : list ascii) : Prop :=
  exists l, s = concat l /\ Forall (fun bs => encoding bs /\ Forall (fun c => control c = false) bs) l.

Lemma chunks_clean s : chunks s -> log_clean s.
Proof.
  intros (l & -> & Hl). split; [apply valid_concat; eapply Forall_impl; [exact Hl|by intros ? [? _]]|].
  induction Hl as [|bs l [_ Hb] Hl IH]; [constructor|]. cbn [concat]. by apply Forall_app.
Qed.

Lemma chunks_app s t : chunks s -> chunks t -> chunks (s ++ t).
Proof. intros (l & -> & Hl) (k & -> & Hk). exists (l ++ k). by rewrite concat_app, Forall_app. Qed.

Lemma chunks_nil : chunks [].
Proof. by exists []. Qed.

Lemma rune_bytes_clean r :
  match r with Rune bs => encoding bs | BadByte _ => True end -> control_rune r = false ->
  encoding (rune_bytes r) /\ Forall (fun c => control c = false) (rune_bytes r).
Proof.
  destruct r as [bs|b]; intros He Hc; cbn [rune_bytes].
  - split; [done|by apply encoding_control].
  - split; [apply replacement_encoding|by repeat constructor].
Qed.

Lemma runes_cover s : Forall (fun r => match r with Rune bs => encoding bs | BadByte _ => True end) (runes s).
Proof. by apply runes_loop_cover. Qed.

Lemma map_drop_control_chunks s : chunks (map_drop_control s).
Proof.
  eexists. split; [done|]. apply Forall_fmap, Forall_forall. intros r [Hc Hr]%list_elem_of_filter.
  apply rune_bytes_clean; [|done]. pose proof (runes_cover s) as H. rewrite Forall_forall in H. by apply H.
Qed.

Lemma runes_loop_bytes fuel s r :
  r ∈ runes_loop fuel s -> match r with Rune bs => Forall (fun c => c ∈ s) bs | BadByte b => b ∈ s end.
Proof.
  revert s. induction fuel as [|fuel IH]; intros [|b s]; cbn [runes_loop]; try by intros ?%elem_of_nil.
  destruct (rune_width (b :: s)) as [|w] eqn:E; intros [->|Hr]%elem_of_cons.
  - left.
  - apply IH in Hr. destruct r; [|by right]. eapply Forall_impl; [exact Hr|]. intros c ?. by right.
  - apply Forall_forall. intros c Hc. by apply elem_of_take in Hc as (i & Hi & _); eapply list_elem_of_lookup_2.
  - apply IH in Hr. assert (forall c, c ∈ skipn (S w) (b :: s) -> c ∈ b :: s) as Hsub.
    { intros c Hc. rewrite <- (firstn_skipn (S w) (b :: s)). apply elem_of_app. by right. }
    destruct r; [|by apply Hsub]. eapply Forall_impl; [exact Hr|]. done.
Qed.

Lemma runes_loop_length fuel s :
  (length (concat ((fun r => match r with Rune bs => bs | BadByte _ => [] end) <$> runes_loop fuel s)) <= length s)%nat.
Proof.
  revert s. induction fuel as [|fuel IH]; intros [|b s]; cbn [runes_loop]; try (simpl; lia).
  destruct (rune_width (b :: s)) as [|w] eqn:E; cbn [fmap list_fmap concat].
  - rewrite length_app. specialize (IH s). simpl in *. lia.
  - rewrite length_app. specialize (IH (skipn (S w) (b :: s))).
    pose proof (firstn_skipn (S w) (b :: s)) as Hs. apply (f_equal length) in Hs. rewrite length_app in Hs. lia.
Qed.

Lemma ToValidUTF8_chunks s : Forall (fun c => control c = false) s -> chunks (ToValidUTF8 s).
Proof.
  intros Hs. unfold ToValidUTF8.
  assert (forall r, r ∈ runes s -> match r with Rune bs => Forall (fun c => c ∈ s) bs | BadByte b => b ∈ s end) as Hin
    by (intros r Hr; by eapply runes_loop_bytes).
  induction (runes_cover s) as [|r l Hr Hl IH]; [apply chunks_nil|]. cbn [fmap list_fmap concat].
  apply chunks_app; [|apply IH; intros r' ?; apply Hin; by right]. destruct r as [bs|b]; [|apply chunks_nil].
  exists [bs]. cbn [concat]. rewrite app_nil_r. split; [done|]. constructor; [|constructor]. split; [done|].
  specialize (Hin (Rune bs) (list_elem_of_here _ _)). rewrite Forall_forall in Hs.
  eapply Forall_impl; [exact Hin|]. done.
Qed.

Lemma logSafe_loop_chunks rs b :
  Forall (fun r => match r with Rune bs => encoding bs | BadByte _ => True end) rs ->
  chunks b -> (length b <= maxRecordedValueLength)%nat ->
  chunks (logSafe_loop rs b) /\ (length (logSafe_loop rs b) <= maxRecordedValueLength)%nat.
Proof.
  intros Hrs. revert b. induction Hrs as [|r rs Hr Hrs IH]; intros b Hb Hl; cbn [logSafe_loop]; [done|].
  destruct (control_rune r) eqn:Ec; [by apply IH|].
  destruct (Nat.ltb_spec maxRecordedValueLength (length b + length (rune_bytes r))); [done|].
  apply IH; [|rewrite length_app; lia]. apply chunks_app; [done|]. exists [rune_bytes r]. cbn [concat].
  rewrite app_nil_r. split; [done|]. constructor; [by apply rune_bytes_clean|constructor].
Qed.

(** The bytes of a Go string. *)
Abbreviation bytes := String.list_ascii_of_string.

Lemma bytes_app s t : bytes (s +:+ t) = bytes s ++ bytes t.
Proof. induction s as [|c s IH]; [done|]. cbn. by rewrite <- IH. Qed.

Lemma bytes_of l : bytes (String.string_of_list_ascii l) = l.
Proof. apply String.list_ascii_of_string_of_list_ascii. Qed.

Lemma length_bytes s : length (bytes s) = String.length s.
Proof. induction s as [|c s IH]; [done|]. cbn. by rewrite IH. Qed.

(** An ASCII literal of the source. *)
Lemma literal_chunks (t : string) :
  forallb (fun c => byte_in 32 126 c) (bytes t) = true -> chunks (bytes t).
Proof.
  intros Ht. exists ((fun c => [c]) <$> bytes t). split; [by induction (bytes t) as [|c l IH]; cbn; [|rewrite <- IH; [|by apply andb_true_iff in Ht as [_ ?]]]|].
  apply Forall_fmap, Forall_forall. intros c Hc. rewrite forallb_forall in Ht. apply list_elem_of_In, Ht in Hc.
  unfold byte_in in Hc. apply andb_true_iff in Hc as [H1 H2]. rewrite Nat.leb_le in H1, H2. cbn. split.
  - split; [|done]. cbn. assert (byte_in 0 127 c = true) as ->; [|done]. unfold byte_in.
    rewrite andb_true_iff, !Nat.leb_le. lia.
  - constructor; [|constructor]. unfold control. apply orb_false_iff. rewrite Nat.ltb_ge, Nat.eqb_neq. lia.
Qed.

Lemma sanitizeValue_chunks v :
  chunks (bytes (sanitizeValue v)) /\ (String.length (sanitizeValue v) <= 267)%nat.
Proof.
  unfold sanitizeValue. pose proof (map_drop_control_chunks (bytes v)) as Hm.
  set (m := map_drop_control (bytes v)) in *. destruct (Nat.ltb_spec maxLoggedValueLength (length m)) as [Hlt|Hle].
  - set (t := firstn maxLoggedValueLength m). pose proof (runes_loop_length (length t) t) as Hlen.
    pose proof (length_firstn maxLoggedValueLength m) as Ht. fold t in Ht.
    rewrite <- length_bytes, bytes_app, bytes_of, length_app. split.
    + apply chunks_app; [|by apply literal_chunks]. apply ToValidUTF8_chunks.
      apply Forall_forall. intros c (i & Hc%list_elem_of_lookup_2 & _)%elem_of_take.
      apply chunks_clean in Hm as [_ Hm]. rewrite Forall_forall in Hm. by apply Hm.
    + unfold ToValidUTF8, runes. change (length (bytes valueTruncated)) with 11%nat.
      unfold maxLoggedValueLength in *. lia.
  - rewrite <- length_bytes, bytes_of. split; [done|]. unfold maxLoggedValueLength in *. lia.
Qed.

Lemma Cut_at c before q :
  (Cut c (before +:+ String c "" +:+ q)).1.1 = (Cut c before).1.1 /\ (Cut c (before +:+ String c "" +:+ q)).2 = true.
Proof.
  induction before as [|x before [IH1 IH2]]; cbn.
  - by rewrite bool_decide_true by done.
  - case_match; [done|]. revert IH1 IH2. cbn. destruct (Cut c (before +:+ String c q)) as [[? ?] ?], (Cut c before) as [[? ?] ?].
    cbn. by intros -> ->.
Qed.

Lemma sanitizePath_chunks v : chunks (bytes (sanitizePath v)) /\ (String.length (sanitizePath v) <= 278)%nat.
Proof.
  unfold sanitizePath. destruct (Cut "?" v) as [[before after] found].
  destruct (sanitizeValue_chunks before) as [Hc Hl]. rewrite bytes_app, <- length_bytes, bytes_app, length_app, length_bytes.
  split; [apply chunks_app; [done|]|]; destruct found; try apply chunks_nil; try by apply literal_chunks.
  - change (length (bytes queryRedacted)) with 11%nat. lia.
  - simpl. lia.
Qed.

(** ** Claims *)

(** What a caller chose never forges or floods a log line: a logged
    value, a logged path and a value quoted in an error are valid UTF-8
    without control characters and of bounded length whatever bytes the
    caller sent, and a logged path does not depend on the query string behind
    its first question mark. *)
Theorem log_values_safe (v before q q' : string) :
  (log_clean (bytes (sanitizeValue v)) /\ len (sanitizeValue v) <= 267) /\
  (log_clean (bytes (sanitizePath v)) /\ len (sanitizePath v) <= 278) /\
  (log_clean (bytes (logSafe v)) /\ len (logSafe v) <= 512) /\
  sanitizePath (before +:+ "?" +:+ q) = sanitizePath (before +:+ "?" +:+ q').
Proof.
  destruct (sanitizeValue_chunks v) as [Hv Lv]. destruct (sanitizePath_chunks v) as [Hp Lp].
  destruct (logSafe_loop_chunks (runes (bytes v)) [] (runes_cover _) chunks_nil) as [Hs Ls]; [unfold maxRecordedValueLength; simpl; lia|].
  unfold len. split_and!; try (by apply chunks_clean); try lia.
  - unfold logSafe. rewrite bytes_of. by apply chunks_clean.
  - unfold logSafe. rewrite <- length_bytes, bytes_of. unfold maxRecordedValueLength in Ls. lia.
  - unfold sanitizePath. pose proof (Cut_at "?"%char before q) as [H1 H2]. pose proof (Cut_at "?"%char before q') as [H1' H2'].
    destruct (Cut "?" (before +:+ "?" +:+ q)) as [[b1 a1] f1], (Cut "?" (before +:+ "?" +:+ q')) as [[b2 a2] f2].
    cbn [fst snd] in *. by subst.
Qed.

Example log_newline : sanitizeValue (String.string_of_list_ascii [ascii_of_nat 97; ascii_of_nat 10; ascii_of_nat 98]) = "ab".
Proof. reflexivity. Qed.

Example log_query : sanitizePath "/orders?access_token=secret" = "/orders?[redacted]".
Proof. reflexivity. Qed.

(** * The axes of an audit line

    [auditAxes] of service/internal/management/api.go: a map of strings as
    encoding/json writes it, keys in order. *)

(** ** Definitions *)

Definition json_quote : ascii := ascii_of_nat 34.

Definition hexdigit (n : nat) : ascii := default "0"%char (String.list_ascii_of_string "0123456789abcdef" !! n).

(** The bytes below 128 that are written as they are; DEL is one of them. *)
Definition json_safe (c : ascii) : bool :=
  byte_in 32 127 c && negb (bool_decide (c ∈ [json_quote; "\"; "<"; ">"; "&"]%char)).

Definition json_byte (c : ascii) : list ascii :=
  if json_safe c then [c]
  else if bool_decide (c = json_quote) || bool_decide (c = "\"%char) then ["\"%char; c]
  else if (nat_of_ascii c =? 8)%nat then ["\"; "b"]%char
  else if (nat_of_ascii c =? 12)%nat then ["\"; "f"]%char
  else if (nat_of_ascii c =? 10)%nat then ["\"; "n"]%char
  else if (nat_of_ascii c =? 13)%nat then ["\"; "r"]%char
  else if (nat_of_ascii c =? 9)%nat then ["\"; "t"]%char
  else String.list_ascii_of_string "\u00" ++ [hexdigit (nat_of_ascii c / 16); hexdigit (nat_of_ascii c mod 16)].

(** U+2028 and U+2029 in UTF-8. *)
Definition line_separator : list ascii := [ascii_of_nat 226; ascii_of_nat 128; ascii_of_nat 168].
Definition paragraph_separator : list ascii := [ascii_of_nat 226; ascii_of_nat 128; ascii_of_nat 169].

Definition json_rune (r : rune) : list ascii :=
  match r with
  | BadByte _ => String.list_ascii_of_string "\ufffd"
  | Rune [c] => json_byte c
  | Rune bs =>
      if bool_decide (bs = line_separator) then String.list_ascii_of_string "\u2028"
      else if bool_decide (bs = paragraph_separator) then String.list_ascii_of_string "\u2029"
      else bs
  end.

Definition json_string (s : string) : list ascii :=
  json_quote :: concat (json_rune <$> runes (bytes s)) ++ [json_quote].

(** The members of the object, a comma between two. *)
Fixpoint json_members (members : list (string * string)) : list ascii :=
  match members with
  | [] => []
  | [(k, v)] => json_string k ++ ":"%char :: json_string v
  | (k, v) :: members => json_string k ++ ":"%char :: json_string v ++ ","%char :: json_members members
  end.

Definition sorted_members (axes : gmap string string) : list (string * string) :=
  omap (fun k => (k,.) <$> axes !! k) (sort_strings (elements (dom axes))).

Definition auditAxes (axes : gmap string string) : string :=
  String.string_of_list_ascii ("{"%char :: json_members (sorted_members axes) ++ ["}"%char]).

(** ** Lemmas *)

Definition ascii_bytes : list ascii := ascii_of_nat <$> seq 0 128.

Lemma ascii_bytes_elem c : byte_in 0 127 c = true -> c ∈ ascii_bytes.
Proof.
  unfold byte_in. rewrite andb_true_iff, !Nat.leb_le. intros [_ Hc]. apply list_elem_of_fmap. exists (nat_of_ascii c).
  rewrite Ascii.ascii_nat_embedding. split; [done|]. apply elem_of_seq. lia.
Qed.

(** A check of all bytes below 128. *)
Lemma check_ascii (f : ascii -> bool) c : forallb f ascii_bytes = true -> byte_in 0 127 c = true -> f c = true.
Proof. rewrite forallb_forall. intros Hf Hc%ascii_bytes_elem. apply Hf. by apply list_elem_of_In. Qed.

Fixpoint prefixb (a b : list ascii) : bool :=
  match a, b with
  | [], _ => true
  | x :: a, y :: b => bool_decide (x = y) && prefixb a b
  | _, [] => false
  end.

Lemma app_eq_prefixb a b x y : a ++ x = b ++ y -> prefixb a b = true \/ prefixb b a = true.
Proof.
  revert b. induction a as [|c a IH]; intros [|d b]; cbn; [by left|by left|by right|]. intros [= <- H].
  rewrite bool_decide_true by done. by apply IH.
Qed.

(** A rune of a valid string. *)
Definition good_rune (r : rune) : Prop := match r with Rune bs => encoding bs | BadByte _ => False end.

(** One rune is one byte below 128, or starts with a byte above. *)
Lemma encoding_cases bs : encoding bs ->
  (exists c, bs = [c] /\ byte_in 0 127 c = true) \/
  (exists c d l, bs = c :: d :: l /\ byte_in 0 127 c = false).
Proof.
  intros [Hw Hne]. destruct bs as [|c l]; [done|]. destruct (byte_in 0 127 c) eqn:Ec.
  - left. exists c. split; [|done]. cbn [rune_width] in Hw. rewrite Ec in Hw. by destruct l.
  - right. destruct l as [|d l]; [|by exists c, d, l]. cbn [rune_width] in Hw. by rewrite Ec in Hw.
Qed.

Lemma json_rune_multi c d l : json_rune (Rune (c :: d :: l)) =
  if bool_decide (c :: d :: l = line_separator) then bytes "\u2028"
  else if bool_decide (c :: d :: l = paragraph_separator) then bytes "\u2029" else c :: d :: l.
Proof. done. Qed.

(** The code of one byte says which byte it is. *)
Lemma json_byte_inj c d x y :
  byte_in 0 127 c = true -> byte_in 0 127 d = true -> json_byte c ++ x = json_byte d ++ y -> c = d.
Proof.
  intros Hc Hd He. assert (forall c d, byte_in 0 127 c = true -> byte_in 0 127 d = true ->
    prefixb (json_byte c) (json_byte d) = true -> c = d) as Hp.
  { clear. intros c d Hc Hd Hp. pose (f c := forallb (fun d => negb (prefixb (json_byte c) (json_byte d)) || bool_decide (c = d)) ascii_bytes).
    assert (f c = true) as Hf by (apply check_ascii; [by vm_compute|done]). apply (check_ascii _ d) in Hf; [|done].
    cbn beta in Hf. rewrite Hp in Hf. by apply bool_decide_eq_true in Hf. }
  destruct (app_eq_prefixb _ _ _ _ He) as [H|H]; [by apply Hp|symmetry; by apply Hp].
Qed.

(** What the code of a rune starts with. *)
Lemma json_rune_head r : good_rune r ->
  exists h t, json_rune r = h :: t /\ h <> json_quote /\
    match r with Rune [c] => True | _ => h = "\"%char \/ byte_in 0 127 h = false end.
Proof.
  destruct r as [bs|]; [|done]. intros [(c & -> & Hc)|(c & d & l & -> & Hc)]%encoding_cases.
  - pose (f c := match json_byte c with [] => false | h :: _ => negb (bool_decide (h = json_quote)) end).
    assert (f c = true) as Hf by (apply check_ascii; [by vm_compute|done]). unfold f in Hf. cbn [json_rune].
    destruct (json_byte c) as [|h t]; [done|]. exists h, t. split_and!; [done| |done]. intros ->. by rewrite bool_decide_true in Hf.
  - rewrite json_rune_multi. case_bool_decide; [do 2 eexists; by split_and!; [reflexivity|done|left]|].
    case_bool_decide; [do 2 eexists; by split_and!; [reflexivity|done|left]|].
    exists c, (d :: l). split_and!; [done| |by right]. intros ->. by vm_compute in Hc.
Qed.

(** The code of a byte that starts as a separator's is another. *)
Lemma json_byte_separator c x y t : byte_in 0 127 c = true -> t = bytes "\u2028" \/ t = bytes "\u2029" -> json_byte c ++ x = t ++ y -> False.
Proof.
  intros Hc Ht He. pose (f c := forallb (fun t => negb (prefixb (json_byte c) t) && negb (prefixb t (json_byte c))) [bytes "\u2028"; bytes "\u2029"]).
  assert (f c = true) as Hf by (apply check_ascii; [by vm_compute|done]). unfold f in Hf. rewrite forallb_forall in Hf.
  assert (negb (prefixb (json_byte c) t) && negb (prefixb t (json_byte c)) = true) as Hn.
  { apply Hf. destruct Ht as [->| ->]; [by left|right; by left]. }
  destruct (app_eq_prefixb _ _ _ _ He) as [H|H]; rewrite H in Hn; [done|by rewrite andb_false_r in Hn].
Qed.

(** The codes of the runes are told apart. *)
Lemma json_rune_split r1 r2 x y : good_rune r1 -> good_rune r2 -> json_rune r1 ++ x = json_rune r2 ++ y -> r1 = r2 /\ x = y.
Proof.
  intros H1 H2 He. assert (r1 = r2) as <-; [|split; [done|by apply app_inv_head in He]].
  destruct r1 as [b1|], r2 as [b2|]; [|done..]. cbn in H1, H2.
  assert (forall c d l bs x y, byte_in 0 127 c = true -> byte_in 0 127 d = false -> encoding (d :: bs :: l) ->
    json_rune (Rune [c]) ++ x = json_rune (Rune (d :: bs :: l)) ++ y -> False) as Hmix.
  { clear. intros c d l bs x y Hc Hd Hen. rewrite json_rune_multi. cbn [json_rune].
    case_bool_decide; [by eapply json_byte_separator; eauto|]. case_bool_decide; [by eapply json_byte_separator; eauto|].
    pose (f c := match json_byte c with [] => false | h :: _ => byte_in 0 127 h end).
    assert (f c = true) as Hf by (apply check_ascii; [by vm_compute|done]). unfold f in Hf.
    destruct (json_byte c) as [|h t]; [done|]. cbn. intros [= -> _]. congruence. }
  pose proof H1 as [(c & -> & Hc)|(c & d & l & -> & Hc)]%encoding_cases; pose proof H2 as [(c' & -> & Hc')|(c' & d' & l' & -> & Hc')]%encoding_cases.
  - f_equal. f_equal. by eapply json_byte_inj.
  - destruct (Hmix c c' l' d' x y); done.
  - destruct (Hmix c' c l d y x); done.
  - f_equal. rewrite !json_rune_multi in He. repeat case_bool_decide; try congruence; try done; cbn in He;
      try (injection He as E _; by rewrite E in Hc || by rewrite <- E in Hc' || (subst; done)).
    assert (rune_width (c :: d :: l) = rune_width (c' :: d' :: l')) as Hw.
    { rewrite <- (rune_width_app (c :: d :: l) x), <- (rune_width_app (c' :: d' :: l') y); [|done|by destruct H2 as [-> _]|done|by destruct H1 as [-> _]].
      cbn [app]. by rewrite He. }
    destruct H1 as [Hl1 _], H2 as [Hl2 _]. rewrite Hl1, Hl2 in Hw. apply (app_inj_1 (c :: d :: l) (c' :: d' :: l') x y Hw He).
Qed.

(** A string is the bytes of its runes. *)
Lemma runes_whole s : concat ((fun r => match r with Rune bs => bs | BadByte b => [b] end) <$> runes s) = s.
Proof.
  unfold runes. assert (forall fuel s, (length s <= fuel)%nat ->
    concat ((fun r => match r with Rune bs => bs | BadByte b => [b] end) <$> runes_loop fuel s) = s) as H; [|by apply H].
  clear s. induction fuel as [|fuel IH]; intros [|b s] Hl; cbn [runes_loop]; try done; [cbn in Hl; lia|].
  destruct (rune_width (b :: s)) as [|w] eqn:E; rewrite fmap_cons; cbn [concat].
  - cbn. by rewrite IH by (cbn in Hl; lia).
  - rewrite IH; [apply firstn_skipn|]. rewrite length_skipn. cbn in *. lia.
Qed.

Lemma good_runes s : valid_utf8 s -> Forall good_rune (runes s).
Proof.
  intros Hv. apply Forall_forall. intros r Hr. pose proof (runes_cover s) as Hc. unfold valid_utf8 in Hv.
  rewrite Forall_forall in Hv, Hc. specialize (Hv r Hr). specialize (Hc r Hr). by destruct r.
Qed.

(** A quoted string says where it ends. *)
Lemma json_string_split s t x y :
  valid_utf8 (bytes s) -> valid_utf8 (bytes t) -> json_string s ++ x = json_string t ++ y -> s = t /\ x = y.
Proof.
  intros Hs%good_runes Ht%good_runes. unfold json_string. cbn [app]. intros [= He].
  assert (runes (bytes s) = runes (bytes t) /\ x = y) as [Hr ->].
  { revert Ht He. generalize (runes (bytes t)) as rt. induction Hs as [|r rs Hr Hrs IH]; intros rt Ht He.
    - destruct Ht as [|r' rt Hr' _]; [cbn in He; by injection He as ->|]. exfalso. destruct (json_rune_head r' Hr') as (h & tl & E & Hq & _).
      rewrite fmap_cons in He. cbn [concat] in He. rewrite E in He. cbn in He. injection He as E2 _. congruence.
    - destruct Ht as [|r' rt Hr' Hrt].
      + exfalso. destruct (json_rune_head r Hr) as (h & tl & E & Hq & _). rewrite fmap_cons in He. cbn [concat] in He.
        rewrite E in He. cbn in He. injection He as E2 _. congruence.
      + rewrite !fmap_cons in He. cbn [concat] in He. rewrite <- !app_assoc in He.
        apply json_rune_split in He as [-> He]; [|done..]. destruct (IH rt Hrt) as [-> ->]; [by rewrite <- !app_assoc|done]. }
  split; [|done]. rewrite <- (String.string_of_list_ascii_of_string s), <- (String.string_of_list_ascii_of_string t).
  by rewrite <- (runes_whole (bytes s)), <- (runes_whole (bytes t)), Hr.
Qed.

Definition valid_member (kv : string * string) : Prop := valid_utf8 (bytes kv.1) /\ valid_utf8 (bytes kv.2).

Lemma json_members_inj l l' :
  Forall valid_member l -> Forall valid_member l' -> json_members l ++ ["}"%char] = json_members l' ++ ["}"%char] -> l = l'.
Proof.
  assert (forall kv l x, json_members (kv :: l) ++ x = json_string kv.1 ++ ":"%char :: json_string kv.2 ++
    match l with [] => x | _ => ","%char :: json_members l ++ x end) as Hcons.
  { clear. intros [k v] [|kv l] x; cbn [json_members fst snd]; rewrite <- app_assoc; cbn [app]; [done|]. by rewrite <- app_assoc. }
  intros Hl. revert l'. induction Hl as [|kv l Hkv Hl IH]; intros l' Hl' He.
  - destruct Hl' as [|kv' l' _ _]; [done|]. rewrite Hcons in He. done.
  - destruct Hl' as [|kv' l' Hkv' Hl']; [rewrite Hcons in He; done|]. rewrite !Hcons in He.
    apply json_string_split in He as [Hk He]; [|apply Hkv|apply Hkv']. apply (f_equal tail) in He. cbn [tail] in He.
    apply json_string_split in He as [Hv He]; [|apply Hkv|apply Hkv']. f_equal; [by destruct kv, kv'; cbn in *; subst|].
    destruct l as [|m l], l' as [|m' l']; [done|done|done|]. apply (f_equal tail) in He. cbn [tail] in He. by apply IH.
Qed.

Lemma sorted_members_elem axes k v : (k, v) ∈ sorted_members axes <-> axes !! k = Some v.
Proof.
  unfold sorted_members. rewrite list_elem_of_omap. split.
  - intros (k' & _ & E). destruct (axes !! k') eqn:Ek; [|done]. by injection E as -> ->.
  - intros E. exists k. rewrite E. split; [|done]. rewrite sort_strings_Permutation, elem_of_elements. apply elem_of_dom. by eexists.
Qed.

(** What encoding/json writes of a string is printable but for DEL. *)
Definition on_one_line (c : ascii) : Prop := (32 <= nat_of_ascii c)%nat.

Lemma line_literal l : forallb (fun c => (32 <=? nat_of_ascii c)%nat) l = true -> Forall on_one_line l.
Proof. intros Hl. apply Forall_forall. intros c Hc. rewrite forallb_forall in Hl. by apply Nat.leb_le, Hl, list_elem_of_In. Qed.

Lemma json_string_line s : Forall on_one_line (json_string s).
Proof.
  assert (forall r, match r with Rune bs => encoding bs | BadByte _ => True end -> Forall on_one_line (json_rune r)) as Hr.
  { intros [bs|b] H; [|by apply line_literal].
    pose proof H as [(c & -> & Hc)|(c & d & l & -> & Hc)]%encoding_cases.
    - pose (f c := forallb (fun b => (32 <=? nat_of_ascii b)%nat) (json_byte c)).
      assert (f c = true) as Hf by (apply check_ascii; [by vm_compute|done]). by apply line_literal.
    - rewrite json_rune_multi. case_bool_decide; [by apply line_literal|].
      case_bool_decide; [by apply line_literal|].
      eapply Forall_impl; [by apply encoding_control|]. intros x Hx. unfold control in Hx. apply orb_false_iff in Hx as [Hx%Nat.ltb_ge _]. done. }
  unfold json_string. constructor; [by apply Nat.leb_le|]. apply Forall_app. split; [|by apply line_literal].
  induction (runes_cover (bytes s)) as [|r l Hrr _ IH]; [constructor|]. rewrite fmap_cons. cbn [concat]. apply Forall_app. split; [by apply Hr|done].
Qed.

Lemma json_members_line l : Forall on_one_line (json_members l).
Proof.
  assert (forall c : ascii, c ∈ [":"; ","]%char -> on_one_line c) as Hp.
  { intros c [->|[->|?%elem_of_nil]%elem_of_cons]%elem_of_cons; [by apply Nat.leb_le..|done]. }
  induction l as [|[k v] [|kv l] IH]; [constructor| |].
  - cbn [json_members]. apply Forall_app. split; [apply json_string_line|]. constructor; [apply Hp; by left|apply json_string_line].
  - change (json_members ((k, v) :: kv :: l)) with (json_string k ++ ":"%char :: json_string v ++ ","%char :: json_members (kv :: l)).
    apply Forall_app. split; [apply json_string_line|]. constructor; [apply Hp; by left|].
    apply Forall_app. split; [apply json_string_line|]. constructor; [apply Hp; right; by left|done].
Qed.

(** ** Claims *)

(** The addressed identity is recorded exactly, on one line. Whatever bytes a
    client's axis values hold, the audit line's rendering of them has no byte
    below 32, so no line break; and two sets of axes in valid UTF-8 that are
    recorded alike are the same. *)
Theorem audit_axes_exact (axes axes' : gmap string string) :
  Forall on_one_line (bytes (auditAxes axes)) /\
  ((forall k v, axes !! k = Some v -> valid_member (k, v)) -> (forall k v, axes' !! k = Some v -> valid_member (k, v)) ->
   auditAxes axes = auditAxes axes' -> axes = axes').
Proof.
  unfold auditAxes. split.
  - rewrite bytes_of. constructor; [by apply Nat.leb_le|]. apply Forall_app. split; [apply json_members_line|by apply line_literal].
  - intros Hv Hv' He. apply (f_equal (fun s => bytes s)) in He. rewrite !bytes_of in He. injection He as He.
    apply json_members_inj in He; [|by apply Forall_forall; intros [k v] E%sorted_members_elem; auto..].
    apply map_eq. intros k. apply option_eq. intros v. by rewrite <- !sorted_members_elem, He.
Qed.

(** A DEL in an axis value is written as it is: encoding/json escapes the
    control characters below 32 alone. *)
Theorem audit_axes_del :
  let del := ascii_of_nat 127 in
  control del = true /\ del ∈ bytes (auditAxes {["user" := String del ""]}).
Proof. split; [reflexivity|]. apply (bool_decide_eq_true_1 _). by vm_compute. Qed.
