(* ===== verification/Sampler.v ===== *)
(** * Log lines under concurrency

    service/internal/rls/sampler.go: [admit] as one function, for calls that do
    not overlap, and as the atomic steps it is made of, for calls that do. The
    counters count calls, so they stay far below 2^63 and are plain integers
    here. internal/process/logr_adapter.go (Module [logr]): the adapters that
    goroutines share, over the slices they hold. *)
From S2P Require Import Prelude.

(** ** Definitions *)

Record logSampler := mkSampler { ls_limit : Z; ls_window : Z; ls_count : Z; ls_dropped : Z }.

(** A sampler with the given budget; the other fields are Go's zero values. *)
Definition new_sampler (limit : Z) : logSampler := mkSampler limit 0 0 0.

(** A call that no other call overlaps: the swap of the window succeeds. *)
Definition admit_seq (now : Z) (l : logSampler) : logSampler * (bool * Z) :=
  if now <=? ls_window l then
    if ls_count l + 1 <=? ls_limit l
    then (mkSampler (ls_limit l) (ls_window l) (ls_count l + 1) 0, (true, ls_dropped l))
    else (mkSampler (ls_limit l) (ls_window l) (ls_count l + 1) (ls_dropped l + 1), (false, 0))
  else (mkSampler (ls_limit l) now 1 0, (true, ls_dropped l)).

(** Where a call stands between its atomic operations. *)
Inductive call_pc :=
| Started (now : Z)                  (** about to load the window *)
| Loaded (now window : Z)            (** about to count, or to swap the window *)
| Won                                (** has swapped the window, about to store the count *)
| Taking (won : bool)              (** about to take the dropped counter *)
| Refused                            (** about to count itself as dropped *)
| Logs (won : bool) (dropped : Z)    (** returned true *)
| Silent.                            (** returned false *)

(** One atomic operation of a call. *)
Inductive call_step (l : logSampler) : call_pc -> logSampler -> call_pc -> Prop :=
| step_load now : call_step l (Started now) l (Loaded now (ls_window l))
| step_add_admit now w :
    now <= w -> ls_count l + 1 <= ls_limit l ->
    call_step l (Loaded now w) (mkSampler (ls_limit l) (ls_window l) (ls_count l + 1) (ls_dropped l)) (Taking false)
| step_add_refuse now w :
    now <= w -> ls_limit l < ls_count l + 1 ->
    call_step l (Loaded now w) (mkSampler (ls_limit l) (ls_window l) (ls_count l + 1) (ls_dropped l)) Refused
| step_swap now w :
    w < now -> ls_window l = w ->
    call_step l (Loaded now w) (mkSampler (ls_limit l) now (ls_count l) (ls_dropped l)) Won
| step_swap_lost now w :
    w < now -> ls_window l <> w -> call_step l (Loaded now w) l (Started now)
| step_store :
    call_step l Won (mkSampler (ls_limit l) (ls_window l) 1 (ls_dropped l)) (Taking true)
| step_take won :
    call_step l (Taking won) (mkSampler (ls_limit l) (ls_window l) (ls_count l) 0) (Logs won (ls_dropped l))
| step_drop :
    call_step l Refused (mkSampler (ls_limit l) (ls_window l) (ls_count l) (ls_dropped l + 1)) Silent.

(** Any number of calls share the sampler; a step is a step of one of them. *)
Record sampled := mkSampled { sd_sampler : logSampler; sd_calls : list call_pc }.

Inductive sampled_step : sampled -> sampled -> Prop :=
| sampled_call l cs i pc l' pc' :
    cs !! i = Some pc -> call_step l pc l' pc' ->
    sampled_step (mkSampled l cs) (mkSampled l' (<[i := pc']> cs)).

Definition reaches : sampled -> sampled -> Prop := rtc sampled_step.

(** *** Counting *)

Definition admitted_pc (pc : call_pc) : bool := match pc with Taking _ | Logs _ _ => true | _ => false end.
Definition won_pc (pc : call_pc) : bool := match pc with Taking true | Logs true _ => true | _ => false end.
Definition logs_pc (pc : call_pc) : bool := match pc with Logs _ _ => true | _ => false end.

Definition count_pc (f : call_pc -> bool) (cs : list call_pc) : Z := sumZ (fun pc => if f pc then 1 else 0) cs.

Definition started_pc (pc : call_pc) : Prop := match pc with Started _ => True | _ => False end.

(** A run of calls that do not overlap: what each returned, and the window it
    was counted in. *)
Fixpoint sample_run (times : list Z) (l : logSampler) : list (Z * bool) * logSampler * Z :=
  match times with
  | [] => ([], l, 0)
  | now :: times =>
      let '(l1, (ok, dropped)) := admit_seq now l in
      let '(out, l2, reported) := sample_run times l1 in
      ((ls_window l1, ok) :: out, l2, dropped + reported)
  end.

Definition logged_in (w : Z) (out : list (Z * bool)) : Z := sumZ (fun x => if (x.1 =? w) && x.2 then 1 else 0) out.
Definition silent (out : list (Z * bool)) : Z := sumZ (fun x : Z * bool => if x.2 then 0 else 1) out.

(** ** Lemmas *)

Lemma count_pc_cons f c cs : count_pc f (c :: cs) = (if f c then 1 else 0) + count_pc f cs.
Proof. done. Qed.

Lemma count_pc_insert f cs i pc pc' :
  cs !! i = Some pc ->
  count_pc f (<[i := pc']> cs) = count_pc f cs - (if f pc then 1 else 0) + (if f pc' then 1 else 0).
Proof.
  revert i. induction cs as [|c cs IH]; intros [|i] Hi; try done.
  - injection Hi as ->. change (<[0%nat := pc']> (pc :: cs)) with (pc' :: cs). rewrite !count_pc_cons. lia.
  - change (<[S i := pc']> (c :: cs)) with (c :: <[i := pc']> cs). rewrite !count_pc_cons, (IH i Hi). lia.
Qed.

Lemma count_pc_le f g cs : (forall pc, f pc = true -> g pc = true) -> count_pc f cs <= count_pc g cs.
Proof.
  intros Hfg. induction cs as [|c cs IH]; [done|]. rewrite !count_pc_cons.
  specialize (Hfg c). destruct (f c); [rewrite Hfg by done; lia|]. destruct (g c); lia.
Qed.

Lemma count_pc_none f cs : Forall (fun pc => f pc = false) cs -> count_pc f cs = 0.
Proof. induction 1 as [|c cs Hc _ IH]; [done|]. by rewrite count_pc_cons, Hc, IH. Qed.

(** Every call that opens a window grants one budget; what a late store of
    the count hands out again is never more than that. *)
Definition budget_inv (s : sampled) : Prop :=
  1 <= ls_limit (sd_sampler s) /\ 0 <= ls_count (sd_sampler s) /\
  count_pc admitted_pc (sd_calls s) <=
    ls_limit (sd_sampler s) * count_pc won_pc (sd_calls s) + Z.min (ls_count (sd_sampler s)) (ls_limit (sd_sampler s)).

Lemma budget_inv_step s s' : sampled_step s s' -> budget_inv s -> budget_inv s'.
Proof.
  intros [l cs i pc l' pc' Hi Hs]. unfold budget_inv. cbn [sd_sampler sd_calls].
  intros (Hl & Hc & Hb). rewrite !(count_pc_insert _ _ _ _ _ Hi).
  inversion Hs; subst; cbn [ls_limit ls_count admitted_pc won_pc]; try destruct won; split_and!; lia || nia.
Qed.

Lemma budget_inv_reaches s s' : reaches s s' -> budget_inv s -> budget_inv s' /\ ls_limit (sd_sampler s') = ls_limit (sd_sampler s).
Proof.
  induction 1 as [|s s1 s' H1 H2 IH]; [done|]. intros Hi.
  destruct IH as [IH1 IH2]; [by eapply budget_inv_step|]. split; [done|]. rewrite IH2.
  destruct H1 as [l cs i pc l' pc' _ Hs]. by inversion Hs.
Qed.

Lemma admit_seq_window now l : ls_window l <= ls_window (admit_seq now l).1 /\ ls_limit (admit_seq now l).1 = ls_limit l.
Proof. unfold admit_seq. repeat case_match; cbn; bools; lia. Qed.

Lemma sample_run_spec times l :
  1 <= ls_limit l -> 0 <= ls_count l ->
  let '(out, l', reported) := sample_run times l in
  (forall w, logged_in w out <=
     if w <? ls_window l then 0 else if w =? ls_window l then Z.max 0 (ls_limit l - ls_count l) else ls_limit l) /\
  ls_dropped l + silent out = reported + ls_dropped l'.
Proof.
  revert l. induction times as [|now times IH]; intros l Hl Hc; cbn [sample_run].
  { split; [|cbn; lia]. intros w. cbn. repeat case_match; lia. }
  destruct (admit_seq now l) as [l1 [ok dropped]] eqn:E.
  assert (1 <= ls_limit l1 /\ 0 <= ls_count l1) as [Hl1 Hc1].
  { unfold admit_seq in E. repeat case_match; simplify_eq; cbn; bools; lia. }
  specialize (IH l1 Hl1 Hc1). destruct (sample_run times l1) as [[out l2] reported]. destruct IH as [IH1 IH2].
  assert (forall w, logged_in w ((ls_window l1, ok) :: out) =
            (if (ls_window l1 =? w) && ok then 1 else 0) + logged_in w out) as Hlog by done.
  assert (silent ((ls_window l1, ok) :: out) = (if ok then 0 else 1) + silent out) as Hsil by done.
  unfold admit_seq in E. split.
  - intros w. rewrite Hlog. specialize (IH1 w). clear Hlog Hsil IH2.
    repeat case_match; simplify_eq; cbn [ls_window ls_limit ls_count ls_dropped] in *; bools; lia.
  - rewrite Hsil. clear Hlog Hsil IH1.
    repeat case_match; simplify_eq; cbn [ls_window ls_limit ls_count ls_dropped] in *; bools; lia.
Qed.

(** ** Claims *)

(** The budget of the sampled lines. Calls that do not overlap log at
    most the limit in each window, and every suppressed line is counted once:
    in a later line's report or still pending. Calls that overlap in any way
    log at most the limit for every window a call opens, and one limit
    beside, for the counts a late store wipes are never handed out twice. *)
Theorem sampler_budget (limit : Z) (times : list Z) (cs : list call_pc) (s : sampled) :
  1 <= limit -> Forall started_pc cs -> reaches (mkSampled (new_sampler limit) cs) s ->
  (let '(out, l, reported) := sample_run times (new_sampler limit) in
   (forall w, logged_in w out <= limit) /\ silent out = reported + ls_dropped l) /\
  count_pc logs_pc (sd_calls s) <= limit * (count_pc won_pc (sd_calls s) + 1).
Proof.
  intros Hl Hcs Hr. split.
  - pose proof (sample_run_spec times (new_sampler limit) Hl ltac:(done)) as Hs.
    destruct (sample_run times (new_sampler limit)) as [[out l] reported]. destruct Hs as [H1 H2]. split; [|done].
    intros w. specialize (H1 w). cbn [new_sampler ls_window ls_limit ls_count] in H1. repeat case_match; lia.
  - destruct (budget_inv_reaches _ _ Hr) as [(H1 & H2 & H3) H4].
    { unfold budget_inv. cbn [sd_sampler sd_calls new_sampler ls_limit ls_count].
      rewrite !count_pc_none; [lia|..]; eapply Forall_impl; [exact Hcs| |exact Hcs|]; by intros []. }
    cbn [sd_sampler new_sampler ls_limit] in H4. rewrite H4 in H3.
    pose proof (count_pc_le logs_pc admitted_pc (sd_calls s)) as Hle.
    assert (count_pc logs_pc (sd_calls s) <= count_pc admitted_pc (sd_calls s)) by (apply Hle; by intros []). lia.
Qed.

(** ** Examples *)

Ltac sampler_step i := eapply rtc_l; [eapply (sampled_call _ _ i); [reflexivity|econstructor; cbn; lia]|cbn [insert list_insert]].

(** The window is swapped before the count is stored. Four calls of one
    second share a sampler of two lines a second: two of them count against
    the stale count while the winner is between its two writes, the store
    wipes what they took, and all four log. *)
Lemma sampler_race_run :
  exists s, reaches (mkSampled (new_sampler 2) [Started 1; Started 1; Started 1; Started 1]) s /\
    sd_calls s = [Logs true 0; Logs false 0; Logs false 0; Logs false 0].
Proof.
  eexists. split.
  - unfold reaches. sampler_step 0%nat. sampler_step 0%nat.
    sampler_step 1%nat. sampler_step 1%nat. sampler_step 2%nat. sampler_step 2%nat.
    sampler_step 0%nat. sampler_step 3%nat. sampler_step 3%nat.
    sampler_step 0%nat. sampler_step 1%nat. sampler_step 2%nat. sampler_step 3%nat. apply rtc_refl.
  - reflexivity.
Qed.

(** A race at a window boundary prints extra lines: a sampler of two
    lines a second logs four calls that all carry the same second. *)
Theorem sampler_race_prints_extra :
  exists s, reaches (mkSampled (new_sampler 2) [Started 1; Started 1; Started 1; Started 1]) s /\
    count_pc logs_pc (sd_calls s) = 4.
Proof. destruct sampler_race_run as (s & Hr & Hc). exists s. split; [done|]. by rewrite Hc. Qed.

Lemma sampler_budget_witness :
  exists s, count_pc logs_pc (sd_calls s) = 4 /\ 4 <= 2 * (count_pc won_pc (sd_calls s) + 1) /\
    logged_in 7 (sample_run [7; 7; 7; 7] (new_sampler 2)).1.1 <= 2.
Proof.
  destruct sampler_race_run as (s & Hr & Hc). exists s.
  destruct (sampler_budget 2 [7; 7; 7; 7] [Started 1; Started 1; Started 1; Started 1] s ltac:(lia)
    ltac:(by repeat constructor) Hr) as [H1 H2].
  rewrite Hc in *. split_and!; [done|exact H2|]. exact (proj1 H1 7).
Defined.

(** * internal/process/logr_adapter.go: the platform logger behind logr

    The adapters that goroutines share and the slices of key and value pairs
    they hold, as Go keeps them: a slice is a part of an array in a shared
    heap, and an append writes into the array when it has room. A call is the
    sequence of its accesses to the heap, so calls of several goroutines
    interleave between them. *)
Module logr.

(** ** Definitions *)

Definition maxVerbosity : Z := 4.

(** How an adapter was obtained; [NewLogrLogger] gives the root. *)
Inductive origin (V : Type) := Root (name : string) | Values (o : origin V) (kvs : list V) | Named (o : origin V) (name : string).
#[global] Arguments Root {V}.
#[global] Arguments Values {V}.
#[global] Arguments Named {V}.

Record slice := mkSlice { sl_array : nat; sl_len : nat }.

Record logrAdapter (V : Type) := mkAdapter { ad_name : string; ad_kvs : slice; ad_origin : origin V }.
#[global] Arguments mkAdapter {V}.
#[global] Arguments ad_name {V}.
#[global] Arguments ad_kvs {V}.
#[global] Arguments ad_origin {V}.

(** What a call asks for: [Info] at a verbosity, or [Error]. *)
Inductive entry := Info (level : Z) | Error (err : option string).

Inductive severity := AtDebug | AtInfo | AtError.

Record line := mkLine { ln_logger : string; ln_severity : severity; ln_message : string }.

(** A call on the adapter of an index, between its accesses to the heap. *)
Inductive call (V : Type) :=
| Pairs (i : nat) (e : entry) (msg : string) (kvs : list V)                  (** about to make the slice *)
| Made (i : nat) (e : entry) (msg : string) (kvs : list V) (s : slice)       (** about to append the sink's pairs *)
| Copied (i : nat) (e : entry) (msg : string) (kvs : list V) (s : slice)     (** about to append the call's *)
| Paired (i : nat) (e : entry) (msg : string) (kvs : list V) (s : slice)     (** about to format *)
| Logged (i : nat) (e : entry) (msg : string) (kvs : list V) (l : line)
| WithValues (i : nat) (kvs : list V)                                        (** about to copy the sink's pairs *)
| WithCopied (i : nat) (kvs : list V) (s : slice)                            (** about to append the new ones *)
| WithDone.
#[global] Arguments Pairs {V}.
#[global] Arguments Made {V}.
#[global] Arguments Copied {V}.
#[global] Arguments Paired {V}.
#[global] Arguments Logged {V}.
#[global] Arguments WithValues {V}.
#[global] Arguments WithCopied {V}.
#[global] Arguments WithDone {V}.

Record logging (V : Type) := mkLogging { lg_heap : list (list V); lg_adapters : list (logrAdapter V); lg_calls : list (call V) }.
#[global] Arguments mkLogging {V}.
#[global] Arguments lg_heap {V}.
#[global] Arguments lg_adapters {V}.
#[global] Arguments lg_calls {V}.

Section adapter.
(** The type [any] with its nil, the verb [%v], what the runtime adds to the
    capacity of an array it grows, and the levels of the platform's loggers. *)
Context {V : Type} (nil_any : V) (sprint : V -> string) (extra : nat -> nat) (LvlDebug : Z) (GetLevel : string -> Z).

Definition array_of (h : list (list V)) (s : slice) : list V := default [] (h !! sl_array s).
Definition read (h : list (list V)) (s : slice) : list V := take (sl_len s) (array_of h s).

Definition make (cap : nat) (h : list (list V)) : list (list V) * slice := (h ++ [replicate cap nil_any], mkSlice (length h) 0).

Definition append (s : slice) (xs : list V) (h : list (list V)) : list (list V) * slice :=
  let n := (sl_len s + length xs)%nat in
  if (n <=? length (array_of h s))%nat
  then (<[sl_array s := list_inserts (sl_len s) xs (array_of h s)]> h, mkSlice (sl_array s) n)
  else (h ++ [read h s ++ xs ++ replicate (extra n) nil_any], mkSlice (length h) n).

Definition Enabled (name : string) (level : Z) : bool :=
  if 0 <? level then (level <=? maxVerbosity) && (LvlDebug <=? GetLevel name) else true.

Fixpoint pairs_text (kvs : list V) : string :=
  match kvs with k :: v :: kvs => " " +:+ sprint k +:+ "=" +:+ sprint v +:+ pairs_text kvs | _ => "" end.

Definition formatMessage (msg : string) (kvs : list V) : string :=
  if (length kvs =? 0)%nat then msg else msg +:+ pairs_text kvs.

(** The line [Info] or [Error] writes of the formatted message. *)
Definition written (name : string) (e : entry) (full : string) : line :=
  match e with
  | Info level => mkLine name (if 0 <? level then AtDebug else AtInfo) full
  | Error None => mkLine name AtError full
  | Error (Some err) => mkLine name AtError (full +:+ ": " +:+ err)
  end.

Definition full_name (parent name : string) : string := if bool_decide (parent = "") then name else parent +:+ "/" +:+ name.

Definition WithName (name : string) (a : logrAdapter V) : logrAdapter V :=
  mkAdapter (full_name (ad_name a) name) (ad_kvs a) (Named (ad_origin a) name).

(** The nil slice of the root has no array; here it has an empty one. *)
Definition NewLogrLogger (name : string) : logging V := mkLogging [[]] [mkAdapter name (mkSlice 0 0) (Root name)] [].

(** One access of a call: the heap and the call after it, and the adapter it
    returns. *)
Definition call_access (h : list (list V)) (sinks : list (logrAdapter V)) (k : call V)
    : option (list (list V) * call V * option (logrAdapter V)) :=
  match k with
  | Pairs i e msg kvs =>
      a ← sinks !! i;
      let '(h, s) := make (sl_len (ad_kvs a) + length kvs) h in Some (h, Made i e msg kvs s, None)
  | Made i e msg kvs s =>
      a ← sinks !! i;
      let '(h, s) := append s (read h (ad_kvs a)) h in Some (h, Copied i e msg kvs s, None)
  | Copied i e msg kvs s => let '(h, s) := append s kvs h in Some (h, Paired i e msg kvs s, None)
  | Paired i e msg kvs s =>
      a ← sinks !! i;
      Some (h, Logged i e msg kvs (written (ad_name a) e (formatMessage msg (read h s))), None)
  | WithValues i kvs =>
      a ← sinks !! i;
      let '(h, s) := make 0 h in
      let '(h, s) := append s (read h (ad_kvs a)) h in Some (h, WithCopied i kvs s, None)
  | WithCopied i kvs s =>
      a ← sinks !! i;
      let '(h, s) := append s kvs h in Some (h, WithDone, Some (mkAdapter (ad_name a) s (Values (ad_origin a) kvs)))
  | Logged _ _ _ _ _ | WithDone => None
  end.

(** logr calls [Info] of an enabled verbosity only. *)
Inductive logging_step : logging V -> logging V -> Prop :=
| log_call h sinks ks i a e msg kvs : sinks !! i = Some a ->
    match e with Info level => Enabled (ad_name a) level = true | Error _ => True end ->
    logging_step (mkLogging h sinks ks) (mkLogging h sinks (ks ++ [Pairs i e msg kvs]))
| with_values h sinks ks i kvs : is_Some (sinks !! i) ->
    logging_step (mkLogging h sinks ks) (mkLogging h sinks (ks ++ [WithValues i kvs]))
| with_name h sinks ks i a name : sinks !! i = Some a ->
    logging_step (mkLogging h sinks ks) (mkLogging h (sinks ++ [WithName name a]) ks)
| call_goes h sinks ks j k h' k' r : ks !! j = Some k -> call_access h sinks k = Some (h', k', r) ->
    logging_step (mkLogging h sinks ks) (mkLogging h' (sinks ++ option_list r) (<[j := k']> ks)).

(** ** What an adapter stands for *)

Fixpoint values_of (o : origin V) : list V :=
  match o with Root _ => [] | Values o kvs => values_of o ++ kvs | Named o _ => values_of o end.

Fixpoint name_of (o : origin V) : string :=
  match o with Root name => name | Values o _ => name_of o | Named o name => full_name (name_of o) name end.

(** ** Lemmas *)

Lemma list_inserts_read (xs ys : list V) n : (n + length xs <= length ys)%nat ->
  take (n + length xs) (list_inserts n xs ys) = take n ys ++ xs.
Proof.
  intros Hlen. apply list_eq. intros j. destruct (decide (j < n + length xs)%nat) as [Hj|Hj].
  - rewrite lookup_take_lt by done. destruct (decide (j < n)%nat).
    + rewrite list_lookup_inserts_lt, lookup_app_l, lookup_take_lt; [done|done|rewrite length_take; lia|done].
    + rewrite list_lookup_inserts, lookup_app_r; rewrite ?length_take; [f_equal; lia|lia..].
  - rewrite !lookup_ge_None_2; [done| |]; rewrite ?length_app, ?length_take, ?length_inserts; lia.
Qed.

(** A slice of the heap with its contents. *)
Definition holds (h : list (list V)) (s : slice) (vs : list V) : Prop :=
  (sl_array s < length h)%nat /\ (sl_len s <= length (array_of h s))%nat /\ read h s = vs.

(** A heap that keeps the arrays of another, but for one. *)
Definition keeps (owned : nat) (h h' : list (list V)) : Prop :=
  (length h <= length h')%nat /\ forall a, (a < length h)%nat -> a <> owned -> h' !! a = h !! a.

Lemma keeps_holds owned h h' s vs : keeps owned h h' -> sl_array s <> owned -> holds h s vs -> holds h' s vs.
Proof. intros [Hl Hk] Hne (Ha & Hn & Hr). unfold holds, read, array_of in *. rewrite Hk by done. split; [lia|done]. Qed.

Lemma make_spec cap h h' s : make cap h = (h', s) ->
  holds h' s [] /\ keeps (length h) h h' /\ sl_array s = length h.
Proof.
  unfold make. intros [= <- <-]. split_and!; [split; cbn|split|]; rewrite ?length_app; cbn; try lia; [split; [lia|done]|..].
  - intros a Ha _. by rewrite lookup_app_l.
Qed.

(** An append: the contents with the new values, in the owned array or in a new
    one, and no other array changed. *)
Lemma append_spec s xs vs h h' s' : append s xs h = (h', s') -> holds h s vs ->
  holds h' s' (vs ++ xs) /\ keeps (sl_array s) h h' /\ (sl_array s' = sl_array s \/ sl_array s' = length h).
Proof.
  unfold append. intros E (Ha & Hn & <-). destruct (Nat.leb_spec (sl_len s + length xs) (length (array_of h s))) as [Hle|Hlt]; simplify_eq.
  - split_and!; [|split; [by rewrite length_insert|intros a ? ?; by rewrite list_lookup_insert_ne]|by left].
    unfold holds, read. cbn. rewrite length_insert. unfold array_of at 1 3. cbn. rewrite list_lookup_insert_eq by done. cbn.
    rewrite length_inserts. split_and!; [done|lia|]. by apply list_inserts_read.
  - split_and!; [|split; [rewrite length_app; lia|intros a ? ?; by rewrite lookup_app_l]|by right].
    unfold holds, read, array_of. cbn. rewrite length_app, lookup_app_r, Nat.sub_diag by lia. cbn.
    assert (length (take (sl_len s) (default [] (h !! sl_array s))) = sl_len s) as El.
    { unfold array_of in Hn. rewrite length_take. lia. }
    rewrite !length_app, El. split_and!; [lia..|]. rewrite app_assoc. rewrite take_app_length'; [done|rewrite length_app; lia].
Qed.

(** The slice a call owns, and the contents it must have. *)
Definition owns (sinks : list (logrAdapter V)) (k : call V) : option (slice * list V) :=
  match k with
  | Made _ _ _ _ s => Some (s, [])
  | Copied i _ _ _ s | WithCopied i _ s => (fun a => (s, values_of (ad_origin a))) <$> sinks !! i
  | Paired i _ _ kvs s => (fun a => (s, values_of (ad_origin a) ++ kvs)) <$> sinks !! i
  | _ => None
  end.

(** The adapter a call is on. *)
Definition sink_of (k : call V) : option nat :=
  match k with
  | Pairs i _ _ _ | Made i _ _ _ _ | Copied i _ _ _ _ | Paired i _ _ _ _ | Logged i _ _ _ _ | WithValues i _ | WithCopied i _ _ => Some i
  | WithDone => None
  end.

Definition entry_of (k : call V) : option entry :=
  match k with
  | Pairs _ e _ _ | Made _ e _ _ _ | Copied _ e _ _ _ | Paired _ e _ _ _ | Logged _ e _ _ _ => Some e
  | _ => None
  end.

Record logging_ok (g : logging V) : Prop := {
  go_sinks : forall i a, lg_adapters g !! i = Some a ->
    holds (lg_heap g) (ad_kvs a) (values_of (ad_origin a)) /\ ad_name a = name_of (ad_origin a);
  go_calls : forall j k i, lg_calls g !! j = Some k -> sink_of k = Some i -> exists a, lg_adapters g !! i = Some a /\
    forall level, entry_of k = Some (Info level) -> Enabled (ad_name a) level = true;
  go_owned : forall j k s vs, lg_calls g !! j = Some k -> owns (lg_adapters g) k = Some (s, vs) -> holds (lg_heap g) s vs;
  go_private : forall j k s vs i a, lg_calls g !! j = Some k -> owns (lg_adapters g) k = Some (s, vs) ->
    lg_adapters g !! i = Some a -> sl_array (ad_kvs a) <> sl_array s;
  go_apart : forall j k s vs j' k' s' vs', lg_calls g !! j = Some k -> owns (lg_adapters g) k = Some (s, vs) ->
    lg_calls g !! j' = Some k' -> owns (lg_adapters g) k' = Some (s', vs') -> j <> j' -> sl_array s <> sl_array s';
  go_lines : forall j i e msg kvs l, lg_calls g !! j = Some (Logged i e msg kvs l) -> exists a, lg_adapters g !! i = Some a /\
    l = written (name_of (ad_origin a)) e (formatMessage msg (values_of (ad_origin a) ++ kvs)) }.

(** An adapter more changes nothing for the calls that are on another. *)
Lemma owns_app sinks more k : (forall i, sink_of k = Some i -> is_Some (sinks !! i)) -> owns (sinks ++ more) k = owns sinks k.
Proof.
  intros Hs. destruct k as [| | | | | |i kvs s|]; cbn; try done; rewrite lookup_app_l; try done;
    by apply lookup_lt_is_Some; apply Hs.
Qed.

Lemma logr_start_ok name : logging_ok (NewLogrLogger name).
Proof.
  split; cbn; try (intros j *; by rewrite lookup_nil). intros [|i] a Ha; cbn in Ha; simplify_eq.
  split; [split; [cbn; lia|done]|done].
Qed.

(** A call moves on within the array it owns or a new one, perhaps handing it
    to the adapter it returns. *)
Lemma call_moves h sinks ks j k h' k' r own :
  logging_ok (mkLogging h sinks ks) -> ks !! j = Some k ->
  keeps own h h' -> (length h <= own \/ exists s vs, owns sinks k = Some (s, vs) /\ sl_array s = own)%nat ->
  (forall i, sink_of k' = Some i -> sink_of k = Some i) -> (forall e, entry_of k' = Some e -> entry_of k = Some e) ->
  (forall s vs, owns sinks k' = Some (s, vs) -> r = None /\ holds h' s vs /\ (sl_array s = own \/ length h <= sl_array s)%nat) ->
  (forall a, r = Some a -> holds h' (ad_kvs a) (values_of (ad_origin a)) /\ ad_name a = name_of (ad_origin a) /\
     (sl_array (ad_kvs a) = own \/ length h <= sl_array (ad_kvs a))%nat) ->
  (forall i e msg kvs l, k' = Logged i e msg kvs l -> exists a, sinks !! i = Some a /\
     l = written (name_of (ad_origin a)) e (formatMessage msg (values_of (ad_origin a) ++ kvs))) ->
  logging_ok (mkLogging h' (sinks ++ option_list r) (<[j := k']> ks)).
Proof.
  intros [Hsi Hca How Hpr Hap Hli] Hj Hk Hown Hsk Hen Hnew Hret Hlog. cbn in *.
  assert (forall i a, sinks !! i = Some a -> (sl_array (ad_kvs a) < length h)%nat /\ sl_array (ad_kvs a) <> own) as Hsinks.
  { intros i a Ha. destruct (Hsi _ _ Ha) as [(Hlt & _) _]. split; [done|]. destruct Hown as [?|(s & vs & E & <-)]; [lia|by eapply Hpr]. }
  assert (forall j' k'' s vs, j <> j' -> ks !! j' = Some k'' -> owns sinks k'' = Some (s, vs) ->
    (sl_array s < length h)%nat /\ sl_array s <> own) as Hothers.
  { intros j' k'' s vs Hne E Ho. destruct (How _ _ _ _ E Ho) as (Hlt & _). split; [done|].
    destruct Hown as [?|(s0 & vs0 & E0 & <-)]; [lia|].
    eapply Hap; [exact E|exact Ho|exact Hj|exact E0|by apply not_eq_sym]. }
  assert (forall j0 k0, <[j := k']> ks !! j0 = Some k0 -> (j0 = j /\ k0 = k') \/ (j <> j0 /\ ks !! j0 = Some k0)) as Hat.
  { intros j0 k0 E. apply list_lookup_insert_Some in E as [(-> & <- & _)|[? ?]]; [by left|by right]. }
  assert (forall i, sink_of k' = Some i -> is_Some (sinks !! i)) as Hs'.
  { intros i Hi. destruct (Hca j k i Hj (Hsk i Hi)) as (a & Ha & _). by exists a. }
  assert (forall j0 k0, ks !! j0 = Some k0 -> owns (sinks ++ option_list r) k0 = owns sinks k0) as Hsame.
  { intros j0 k0 E. apply owns_app. intros i Hi. destruct (Hca _ _ _ E Hi) as (a & Ha & _). by exists a. }
  pose proof (owns_app sinks (option_list r) k' Hs') as Hsame'.
  assert (forall i a, (sinks ++ option_list r) !! i = Some a -> sinks !! i = Some a \/ r = Some a) as Hsplit.
  { intros i a E. apply lookup_app_Some in E as [|[_ E]]; [by left|right]. destruct r; [|done]. destruct (i - length sinks)%nat; cbn in E; simplify_eq; done. }
  split; cbn.
  - intros i a E. destruct (Hsplit _ _ E) as [Ha|Ha].
    + destruct (Hsi _ _ Ha) as [Hh ?]. split; [|done]. eapply keeps_holds; [done|by eapply Hsinks|done].
    + by destruct (Hret _ Ha) as (? & ? & _).
  - intros j0 k0 i E Hi. destruct (Hat _ _ E) as [[-> ->]|[_ E']].
    + destruct (Hca j k i Hj (Hsk i Hi)) as (a & Ha & Hlev). exists a. split; [by apply lookup_app_l_Some|]. intros level El. by apply Hlev, Hen.
    + destruct (Hca _ _ _ E' Hi) as (a & Ha & Hlev). exists a. split; [by apply lookup_app_l_Some|done].
  - intros j0 k0 s vs E Ho. destruct (Hat _ _ E) as [[-> ->]|[Hne E']].
    + rewrite Hsame' in Ho. by destruct (Hnew _ _ Ho) as (_ & ? & _).
    + rewrite (Hsame _ _ E') in Ho. eapply keeps_holds; [done|by eapply Hothers|by eapply How].
  - intros j0 k0 s vs i a E Ho Ha. destruct (Hat _ _ E) as [[-> ->]|[Hne E']].
    + rewrite Hsame' in Ho. destruct (Hnew _ _ Ho) as (-> & _ & Hs). destruct (Hsplit _ _ Ha) as [Ha'|]; [|done].
      destruct (Hsinks _ _ Ha') as [? ?]. destruct Hs; [congruence|lia].
    + rewrite (Hsame _ _ E') in Ho. destruct (Hsplit _ _ Ha) as [Ha'|Ha']; [by eapply Hpr|].
      destruct (Hret _ Ha') as (_ & _ & Hs). destruct (Hothers _ _ _ _ Hne E' Ho) as [? ?]. destruct Hs; [congruence|lia].
  - intros j1 k1 s1 vs1 j2 k2 s2 vs2 E1 Ho1 E2 Ho2 Hne.
    destruct (Hat _ _ E1) as [[-> ->]|[Hne1 E1']]; destruct (Hat _ _ E2) as [[-> ->]|[Hne2 E2']]; [done|..].
    + rewrite Hsame' in Ho1. rewrite (Hsame _ _ E2') in Ho2. destruct (Hnew _ _ Ho1) as (_ & _ & Hs).
      destruct (Hothers _ _ _ _ Hne2 E2' Ho2) as [? ?]. destruct Hs; [congruence|lia].
    + rewrite Hsame' in Ho2. rewrite (Hsame _ _ E1') in Ho1. destruct (Hnew _ _ Ho2) as (_ & _ & Hs).
      destruct (Hothers _ _ _ _ Hne1 E1' Ho1) as [? ?]. destruct Hs; [congruence|lia].
    + rewrite (Hsame _ _ E1') in Ho1. rewrite (Hsame _ _ E2') in Ho2. exact (Hap _ _ _ _ _ _ _ _ E1' Ho1 E2' Ho2 Hne).
  - intros j0 i e msg kvs l E. destruct (Hat _ _ E) as [[-> <-]|[Hne E']].
    + destruct (Hlog _ _ _ _ _ eq_refl) as (a & Ha & ?). exists a. split; [by apply lookup_app_l_Some|done].
    + destruct (Hli _ _ _ _ _ _ E') as (a & Ha & ?). exists a. split; [by apply lookup_app_l_Some|done].
Qed.

(** A slice of a sink read by a call, and an append to the call's own. *)
Lemma call_access_ok h sinks ks j k h' k' r :
  logging_ok (mkLogging h sinks ks) -> ks !! j = Some k -> call_access h sinks k = Some (h', k', r) ->
  logging_ok (mkLogging h' (sinks ++ option_list r) (<[j := k']> ks)).
Proof.
  intros Hok Hj E. pose proof Hok as [Hsi Hca How Hpr Hap Hli]. cbn in *.
  pose proof (Hca j k) as Hsink. pose proof (How j k) as Howns.
  destruct k as [i e msg kvs|i e msg kvs s|i e msg kvs s|i e msg kvs s|i e msg kvs l|i kvs|i kvs s|]; cbn [call_access] in E; try done.
  all: destruct (Hsink i Hj eq_refl) as (a & Ha & Hlev); destruct (Hsi _ _ Ha) as [Hkvs Hname]; try rewrite Ha in E; cbn [mbind option_bind] in E; cbn in Howns; try rewrite Ha in Howns; cbn in Howns.
  - destruct (make _ h) as [h1 s1] eqn:Em; simplify_eq. destruct (make_spec _ _ _ _ Em) as (Hh & Hk & Hs).
    eapply (call_moves h sinks ks j _ h' _ None (length h)); try done; [by left|].
    intros s vs [= <- <-]. split_and!; [done..|right; lia].
  - destruct (append _ _ h) as [h1 s1] eqn:Em; simplify_eq. destruct (append_spec _ _ [] _ _ _ Em) as (Hh & Hk & Hs); [by apply Howns|].
    eapply (call_moves h sinks ks j _ h' _ None (sl_array s)); try done; [right; by exists s, []|].
    cbn. rewrite Ha. intros s' vs [= <- <-]. destruct Hkvs as (_ & _ & Er). rewrite Er in Hh. split_and!; [done..|]. destruct Hs; [by left|right; lia].
  - destruct (append _ _ h) as [h1 s1] eqn:Em; simplify_eq. destruct (append_spec _ _ _ _ _ _ Em (Howns _ _ Hj eq_refl)) as (Hh & Hk & Hs).
    eapply (call_moves h sinks ks j _ h' _ None (sl_array s)); try done; [right; eexists s, _; cbn; by rewrite Ha|].
    cbn. rewrite Ha. intros s' vs [= <- <-]. split_and!; [done..|]. destruct Hs; [by left|right; lia].
  - simplify_eq. destruct (Howns _ _ Hj eq_refl) as (_ & _ & Er).
    eapply (call_moves h' sinks ks j _ h' _ None (length h')); try done; [by left|].
    intros ? ? ? ? ? [= <- <- <- <- <-]. exists a. split; [done|]. by rewrite Er, Hname.
  - cbn [make] in E. destruct (append _ _ _) as [h1 s1] eqn:Em; simplify_eq.
    destruct (append_spec _ _ [] _ _ _ Em) as (Hh & Hk & Hs); [by apply (make_spec 0 h)|]. cbn in Hk, Hs.
    assert (keeps (length h) h h') as Hk'.
    { destruct (make_spec 0 h _ _ eq_refl) as (_ & [Hl0 Hk0] & _). destruct Hk as [Hl1 Hk1].
      split; [by etrans|]. intros x Hx Hne. rewrite Hk1; [by apply Hk0|rewrite length_app; lia|done]. }
    destruct Hkvs as (Hlt & Hlen & Er).
    assert (read (h ++ [replicate 0 nil_any]) (ad_kvs a) = values_of (ad_origin a)) as Er' by (unfold read, array_of in *; by rewrite lookup_app_l).
    rewrite Er' in Hh. eapply (call_moves h sinks ks j _ h' _ None (length h)); try done; [by left|].
    cbn. rewrite Ha. intros s' vs [= <- <-]. split_and!; [done..|]. right. destruct Hs as [->| ->]; rewrite ?length_app; lia.
  - destruct (append _ _ h) as [h1 s1] eqn:Em; simplify_eq. destruct (append_spec _ _ _ _ _ _ Em (Howns _ _ Hj eq_refl)) as (Hh & Hk & Hs).
    eapply (call_moves h sinks ks j _ h' _ _ (sl_array s)); try done; [right; eexists s, _; cbn; by rewrite Ha|].
    intros a' [= <-]. cbn. split_and!; [done..|]. destruct Hs; [by left|right; lia].
Qed.

(** Calls that own nothing yet may start on any adapter. *)
Lemma starts_ok h sinks ks i a k :
  logging_ok (mkLogging h sinks ks) -> sinks !! i = Some a -> sink_of k = Some i -> owns sinks k = None ->
  (forall level, entry_of k = Some (Info level) -> Enabled (ad_name a) level = true) -> (forall i e msg kvs l, k <> Logged i e msg kvs l) ->
  logging_ok (mkLogging h sinks (ks ++ [k])).
Proof.
  intros [Hsi Hca How Hpr Hap Hli] Ha Hi Hno Hlev Hnl. cbn in *.
  assert (forall j k', (ks ++ [k]) !! j = Some k' -> ks !! j = Some k' \/ k' = k) as Hat.
  { intros j k' E. apply lookup_app_Some in E as [|[_ E]]; [by left|right]. destruct (j - length ks)%nat; cbn in E; simplify_eq; done. }
  split; cbn; [done|..].
  - intros j k' i' E Hi'. destruct (Hat _ _ E) as [E'| ->]; [by eapply Hca|]. exists a. split; [congruence|done].
  - intros j k' s vs E Ho. destruct (Hat _ _ E) as [E'| ->]; [by eapply How|congruence].
  - intros j k' s vs i' a' E Ho. destruct (Hat _ _ E) as [E'| ->]; [by eapply Hpr|congruence].
  - intros j k' s vs j' k'' s' vs' E Ho E2 Ho2. destruct (Hat _ _ E) as [E'| ->]; [|congruence].
    destruct (Hat _ _ E2) as [E2'| ->]; [by eapply Hap|congruence].
  - intros j i' e msg kvs l E. destruct (Hat _ _ E) as [E'| <-]; [by eapply Hli|by destruct (Hnl i' e msg kvs l)].
Qed.

(** A named adapter shares the pairs of its parent. *)
Lemma named_ok h sinks ks i a name :
  logging_ok (mkLogging h sinks ks) -> sinks !! i = Some a -> logging_ok (mkLogging h (sinks ++ [WithName name a]) ks).
Proof.
  intros [Hsi Hca How Hpr Hap Hli] Ha. cbn in *.
  assert (forall i a', (sinks ++ [WithName name a]) !! i = Some a' -> sinks !! i = Some a' \/ a' = WithName name a) as Hat.
  { intros i' a' E. apply lookup_app_Some in E as [|[_ E]]; [by left|right]. destruct (i' - length sinks)%nat; cbn in E; simplify_eq; done. }
  assert (forall j k, ks !! j = Some k -> owns (sinks ++ [WithName name a]) k = owns sinks k) as Hsame.
  { intros j k E. apply owns_app. intros i' Hi. destruct (Hca _ _ _ E Hi) as (a' & Ha' & _). by exists a'. }
  split; cbn.
  - intros i' a' E. destruct (Hat _ _ E) as [E'| ->]; [by apply (Hsi i')|]. destruct (Hsi _ _ Ha) as [? Hn]. cbn. by rewrite Hn.
  - intros j k i' E Hi. destruct (Hca _ _ _ E Hi) as (a' & Ha' & ?). exists a'. split; [by apply lookup_app_l_Some|done].
  - intros j k s vs E Ho. rewrite (Hsame _ _ E) in Ho. by eapply How.
  - intros j k s vs i' a' E Ho E'. rewrite (Hsame _ _ E) in Ho. destruct (Hat _ _ E') as [E2| ->]; [by eapply Hpr|]. cbn. by eapply Hpr.
  - intros j k s vs j' k' s' vs' E Ho E' Ho' Hne. rewrite (Hsame _ _ E) in Ho. rewrite (Hsame _ _ E') in Ho'.
    exact (Hap _ _ _ _ _ _ _ _ E Ho E' Ho' Hne).
  - intros j i' e msg kvs l E. destruct (Hli _ _ _ _ _ _ E) as (a' & Ha' & ?). exists a'. split; [by apply lookup_app_l_Some|done].
Qed.

Lemma logging_step_ok g g' : logging_ok g -> logging_step g g' -> logging_ok g'.
Proof.
  intros Hok Hs. destruct Hs as [h sinks ks i a e msg kvs Ha He|h sinks ks i kvs [a Ha]|h sinks ks i a name Ha|].
  - eapply starts_ok; try done. by intros level [= ->].
  - by eapply starts_ok.
  - by eapply named_ok.
  - by eapply call_access_ok.
Qed.

End adapter.

(** ** Claim *)

(** A line carries its own values whatever else is logged. However the calls of
    the goroutines that share adapters interleave, and whatever adapters are
    derived meanwhile, every line that was written has the name and the pairs
    of the adapter it was written through, in the order they were added, then
    the pairs of its own call, then its error; and a line of a verbosity above
    zero is written only by a logger at debug, and never above the cap. *)
Theorem logr_lines_exact {V : Type} (nil_any : V) (sprint : V -> string) (extra : nat -> nat) (LvlDebug : Z) (GetLevel : string -> Z)
    (name : string) (g : logging V) (j i : nat) (e : entry) (msg : string) (kvs : list V) (l : line) :
  rtc (logging_step nil_any sprint extra LvlDebug GetLevel) (NewLogrLogger name) g ->
  lg_calls g !! j = Some (Logged i e msg kvs l) ->
  exists a, lg_adapters g !! i = Some a /\
    l = written (name_of (ad_origin a)) e (formatMessage sprint msg (values_of (ad_origin a) ++ kvs)) /\
    forall level, e = Info level -> 0 < level -> level <= maxVerbosity /\ LvlDebug <= GetLevel (name_of (ad_origin a)).
Proof.
  intros Hr Hj. assert (logging_ok sprint LvlDebug GetLevel g) as Hok.
  { pose proof (logr_start_ok sprint LvlDebug GetLevel name) as Hs. revert Hr Hs. induction 1; [done|]. intros. by eapply IHHr, logging_step_ok. }
  destruct (go_lines _ _ _ _ Hok _ _ _ _ _ _ Hj) as (a & Ha & Hl). exists a. split_and!; [done..|].
  intros level -> Hpos. destruct (go_calls _ _ _ _ Hok _ _ _ Hj eq_refl) as (a' & Ha' & Hen). simplify_eq.
  specialize (Hen level eq_refl). destruct (go_sinks _ _ _ _ Hok _ _ Ha) as [_ Hn]. unfold Enabled in Hen. rewrite Hn in Hen.
  destruct (Z.ltb_spec 0 level); [|lia]. apply andb_true_iff in Hen as [?%Z.leb_le ?%Z.leb_le]. done.
Qed.

(** One access of call [j]. *)
Ltac logr_access j := eapply rtc_l; [eapply (call_goes _ _ _ _ _ _ _ _ j); reflexivity|]; cbn.

(** Two calls share an adapter whose array has room for the pairs of both, and
    make their slices before either has formatted. *)
Lemma logr_lines_exact_witness :
  exists g l, rtc (logging_step "" id (fun _ => 4%nat) 5 (fun _ => 3)) (NewLogrLogger "ops") g /\
    lg_calls g !! 1%nat = Some (Logged 1 (Info 0) "rebuilt" ["domains"; "3"] l) /\
    ln_message l = "rebuilt domain=gw domains=3".
Proof.
  assert (exists g l, rtc (logging_step "" id (fun _ => 4%nat) 5 (fun _ => 3)) (NewLogrLogger "ops") g /\
    lg_calls g !! 1%nat = Some (Logged 1 (Info 0) "rebuilt" ["domains"; "3"] l) /\
    exists a, lg_adapters g !! 1%nat = Some a /\ ad_origin a = Values (Root "ops") ["domain"; "gw"]) as (g & l & Hr & Hl & a & Ha & Ho).
  { unfold NewLogrLogger. do 2 eexists. split.
    - eapply rtc_l; [eapply (with_values _ _ _ _ _ _ _ _ 0 ["domain"; "gw"]); by eexists|]; cbn. logr_access 0%nat. logr_access 0%nat.
      eapply rtc_l; [eapply (log_call _ _ _ _ _ _ _ _ 1 _ (Info 0) "rebuilt" ["domains"; "3"]); reflexivity|]; cbn.
      eapply rtc_l; [eapply (log_call _ _ _ _ _ _ _ _ 1 _ (Error None) "refused" ["code"; "7"]); reflexivity|]; cbn.
      logr_access 1%nat. logr_access 2%nat. logr_access 1%nat. logr_access 2%nat. logr_access 2%nat. logr_access 1%nat.
      logr_access 2%nat. logr_access 1%nat. apply rtc_refl.
    - cbn. split; [reflexivity|by eexists]. }
  exists g, l. split; [exact Hr|]. split; [exact Hl|].
  destruct (logr_lines_exact "" id (fun _ => 4%nat) 5 (fun _ => 3) "ops" g 1 1 (Info 0) "rebuilt" ["domains"; "3"] l Hr Hl) as (a' & Ha' & -> & _).
  rewrite Ha in Ha'. injection Ha' as <-. rewrite Ho. reflexivity.
Defined.

End logr.
