(* ===== verification/Rls.v ===== *)
(** * service/internal/rls/server.go: the Envoy rate limit service

    A check of the protocol becomes one engine decision per descriptor; the
    answers of the decisions become one answer, its headers and the metrics
    and log lines it leaves. The log lines go through the samplers of
    [Sampler]; the values in them through [Sanitize]. *)
From S2P Require Import Prelude GoStrings Algo Key StoreApi Memory Limits Model Compile CompileFacts Match MatchFacts MatchKeys Identity.
From S2P Require Import IdentityFacts TokenCache Engine EngineFacts EngineClaims Sanitize.

(** ** Definitions *)

(** *** The protocol *)

(** An unset [hits_addend] of a descriptor is [None]; the request's is zero. *)
Record Descriptor := mkDescriptor {
  de_Entries : list (string * string);
  de_HitsAddend : option Z;
  de_IsNegativeHits : bool }.

Record RateLimitRequest := mkRateLimitRequest {
  rl_Domain : string;
  rl_Descriptors : list Descriptor;
  rl_HitsAddend : Z }.

Inductive Code := CodeOK | CodeOverLimit.

#[export] Instance Code_eq_dec : EqDecision Code.
Proof. solve_decision. Defined.

Record RateLimitResponse := mkResponse {
  rp_OverallCode : Code;
  rp_ResponseHeadersToAdd : list (string * string) }.

(** What the RPC returns: a response, or the gRPC status Unavailable. *)
Inductive rpc := Answer (r : RateLimitResponse) | Unavailable.

Definition descriptorKeyPath : string := "path".
Definition descriptorKeyMethod : string := "method".
Definition descriptorKeyToken : string := "token".
Definition descriptorKeyRequestID : string := "request_id".
Definition maxDescriptorsPerCheck : nat := 16.
Definition maxHitsAddend : Z := MaxCost.
Definition refusalLogPerSecond : Z := 10.

(** *** The server *)

Record Server := mkServer {
  sv_ietfHeaders : bool;
  sv_exemptPrefix : string;
  sv_exemptDomains : gset string }.

Inductive Option_ :=
| WithIETFHeaders (enabled : bool)
| WithExemptPath (prefix : string) (domains : list string).

Definition apply_option (s : Server) (o : Option_) : Server :=
  match o with
  | WithIETFHeaders enabled => mkServer enabled (sv_exemptPrefix s) (sv_exemptDomains s)
  | WithExemptPath prefix domains =>
      if bool_decide (prefix = "") || (length domains =? 0)%nat then s
      else mkServer (sv_ietfHeaders s) prefix (list_to_set domains)
  end.

Definition NewServer (opts : list Option_) : Server := foldl apply_option (mkServer true "" ∅) opts.

(** *** Requests of the engine *)

Record check := mkCheck { ck_Request : Request; ck_free : bool }.

(** [er.Keys[key] = append(er.Keys[key], value)] *)
Fixpoint keys_append (k v : string) (keys : list (string * list string)) : list (string * list string) :=
  match keys with
  | [] => [(k, [v])]
  | (k', vs) :: keys => if bool_decide (k' = k) then (k', vs ++ [v]) :: keys else (k', vs) :: keys_append k v keys
  end.

Definition fold_entry (er : Request) (entry : string * string) : Request :=
  let '(k, value) := entry in
  if bool_decide (value = "") then er
  else if bool_decide (k = descriptorKeyPath) then mkRequest value (rq_Method er) (rq_Token er) (rq_Keys er) (rq_Cost er)
  else if bool_decide (k = descriptorKeyMethod) then mkRequest (rq_Path er) value (rq_Token er) (rq_Keys er) (rq_Cost er)
  else if bool_decide (k = descriptorKeyToken) then mkRequest (rq_Path er) (rq_Method er) value (rq_Keys er) (rq_Cost er)
  else if bool_decide (k = descriptorKeyRequestID) then er
  else mkRequest (rq_Path er) (rq_Method er) (rq_Token er) (keys_append k value (rq_Keys er)) (rq_Cost er).

Definition descriptor_check (cost : Z) (d : Descriptor) : check :=
  let '(c, free) := match de_HitsAddend d with
                    | Some addend => (i64 addend, i64 addend =? 0)
                    | None => (cost, false)
                    end in
  mkCheck (foldl fold_entry (mkRequest "" "" "" [] c) (de_Entries d)) free.

Definition engineRequests (req : RateLimitRequest) : list check :=
  let cost := rl_HitsAddend req in
  match rl_Descriptors req with
  | [] => [mkCheck (mkRequest "" "" "" [] cost) false]
  | descriptors => descriptor_check cost <$> descriptors
  end.

(** The descriptions [costViolation] prints. *)
Inductive violation :=
| NegativeHits (i : nat)
| AddendOver (addend : Z) (i : nat)
| TotalOver (total : Z).

Definition u64 (z : Z) : Z := z mod 2 ^ 64.

Fixpoint cost_loop (requestCost : Z) (ds : list Descriptor) (i : nat) (total : Z) : result violation Z :=
  match ds with
  | [] => Ok total
  | d :: ds =>
      if de_IsNegativeHits d then Err (NegativeHits i)
      else match de_HitsAddend d with
           | Some addend =>
               if addend >? maxHitsAddend then Err (AddendOver addend i)
               else cost_loop requestCost ds (S i) (u64 (total + addend))
           | None => cost_loop requestCost ds (S i) (u64 (total + requestCost))
           end
  end.

(** [None] is the empty string: every cost is one the engine charges. *)
Definition costViolation (req : RateLimitRequest) : option violation :=
  let requestCost := if rl_HitsAddend req =? 0 then 1 else rl_HitsAddend req in
  match cost_loop requestCost (rl_Descriptors req) 0 0 with
  | Err v => Some v
  | Ok total =>
      let total := match rl_Descriptors req with [] => requestCost | _ => total end in
      if total >? maxHitsAddend then Some (TotalOver total) else None
  end.

(** *** Exempt paths *)

Definition underPrefix (path prefix : string) : bool :=
  let path := (Cut "?" path).1.1 in
  match CutPrefix path prefix with
  | None => false
  | Some EmptyString => true
  | Some (String c _) => bool_decide (c = "/"%char)
  end.

Definition withoutExempt (s : Server) (domain : string) (requests : list check) : list check :=
  if bool_decide (domain ∈ sv_exemptDomains s)
  then filter (fun c => underPrefix (rq_Path (ck_Request c)) (sv_exemptPrefix s) = false) requests
  else requests.

(** *** Response headers *)

Definition ceilSeconds (d : Z) : Z := if d <=? 0 then 0 else (d +i Second -i 1) /i Second.

Definition zero_decision (allowed : bool) : Decision := mkDecision allowed false None [] false [] [].

(** The loop over the decisions; no pick yet is [None]. *)
Fixpoint strictest_decisions (ds : list Decision) (allowed : bool) (best : option (Decision * Headers))
    : option (Decision * Headers) :=
  match ds with
  | [] => best
  | d :: ds =>
      match d_Headers d with
      | None => strictest_decisions ds allowed best
      | Some h =>
          if negb (Bool.eqb (d_Allowed d) allowed) then strictest_decisions ds allowed best
          else
            strictest_decisions ds allowed
              (match best with
               | None => Some (d, h)
               | Some (b, hb) =>
                   if allowed then
                     if hd_Remaining h *i hd_Cost hb <? hd_Remaining hb *i hd_Cost h then Some (d, h) else best
                   else if hd_RetryAfter h >? hd_RetryAfter hb then Some (d, h) else best
               end)
      end
  end.

Definition strictestDecision (decisions : list Decision) (allowed : bool) : Decision :=
  match strictest_decisions decisions allowed None with
  | Some (d, _) => d
  | None => zero_decision allowed
  end.

(** [strconv.FormatInt(n, 10)] and [%d] *)
Definition FormatInt (n : Z) : string := pretty n.

Definition quote : string := String (ascii_of_nat 34) "".

Definition responseHeaders (s : Server) (decision : Decision) : list (string * string) :=
  match d_Headers decision with
  | None => []
  | Some h =>
      let out := [("x-ratelimit-limit", FormatInt (hd_Limit h));
                  ("x-ratelimit-remaining", FormatInt (hd_Remaining h));
                  ("x-ratelimit-reset", FormatInt (ceilSeconds (hd_ResetAfter h)))] ++
                 (if negb (d_Allowed decision) && (hd_RetryAfter h >=? 0)
                  then [("retry-after", FormatInt (ceilSeconds (hd_RetryAfter h)))] else []) in
      if negb (sv_ietfHeaders s) then out
      else
        let policy := quote +:+ hd_Block h +:+ "/" +:+ hd_Rule h +:+ quote in
        let quota := policy +:+ ";r=" +:+ FormatInt (hd_Remaining h) +:+
                     (if hd_EffectiveWindow h >=? 0
                      then ";t=" +:+ FormatInt (ceilSeconds (hd_EffectiveWindow h)) else "") in
        out ++ [("ratelimit-policy", policy +:+ ";q=" +:+ FormatInt (hd_Limit h) +:+ ";w=" +:+ FormatInt (hd_PeriodSeconds h));
                ("ratelimit", quota)]
  end.

(** The path and the request id a log line carries. *)
Definition loggableEntries (req : RateLimitRequest) : string * string :=
  foldl (fun out (entry : string * string) =>
           let '(k, v) := entry in
           if bool_decide (k = descriptorKeyPath) then (sanitizePath v, out.2)
           else if bool_decide (k = descriptorKeyRequestID) then (out.1, sanitizeValue v)
           else out)
        ("", "") (concat (de_Entries <$> rl_Descriptors req)).

(** *** What a check leaves behind *)

Definition UnknownDomain : string := "[unknown]".
Definition VerdictOK : string := "ok".
Definition VerdictOverLimit : string := "over_limit".
Definition VerdictUnavailable : string := "unavailable".
Definition VerdictExempt : string := "exempt".
Definition OutcomeOK : string := "ok".
Definition OutcomeOverLimit : string := "over_limit".
Definition OutcomeShadowOverLimit : string := "shadow_over_limit".
Definition CauseTooManyBuckets : string := "too_many_buckets".
Definition CauseTooManyDescriptors : string := "too_many_descriptors".
Definition CauseInvalidCost : string := "invalid_cost".
Definition RuleID (block rule : string) : string := block +:+ "/" +:+ rule.

(** The increments of the series and the lines offered to the samplers, in
    order. *)
Inductive event :=
| Checks (domain verdict : string)
| UnknownDomainChecks
| Refusals (domain cause : string)
| UnmatchedChecks (domain : string)
| TokensSeen (domain : string)
| Decisions (domain rule outcome : string)
| NearLimit (domain rule : string)
| ExtractionSkips (domain : string) (skip : Skip)
| Extractions (domain k : string)
| LogUnknown (domain path : string)
| LogRefusal (domain path : string)
| LogViolation (domain path : string)
| LogStoreError (domain path : string).

(** *** The check *)

Section server.
Context `{Platform} {S : Type} {cap : Z} {kind : string -> Kind} {CS : CounterStore cap kind S}.

(** [nearLimit] compares in float64; only a series reads it. *)
Context (nearLimit : RuleOutcome -> bool).

Definition rule_events (domain : string) (r : RuleOutcome) : list event :=
  let id := RuleID (ro_Block r) (ro_Rule r) in
  let outcome := if ro_Allowed r then OutcomeOK
                 else if ro_Shadow r then OutcomeShadowOverLimit else OutcomeOverLimit in
  Decisions domain id outcome ::
  (if ro_Allowed r && negb (ro_Shadow r) && nearLimit r then [NearLimit domain id] else []).

Definition observeDecision (domain : string) (d : Decision) : list event :=
  concat (rule_events domain <$> d_Rules d) ++
  (ExtractionSkips domain <$> d_Skips d) ++ (Extractions domain <$> d_ExtractedKeys d).

(** One decision of the loop. *)
Definition decide_check (snap : Snapshot) (now : Z) (c : check) (es : engine_state S)
    : engine_state S * option (result EngineError Decision) :=
  if ck_free c then Peek_engine snap now (ck_Request c) es else Decide_engine snap now (ck_Request c) es.

(** How the loop ends: through every request, by an early return, or in a
    panic. *)
Inductive loop_end :=
| Decided (allowed : bool) (decisions : list Decision)
| Returned (r : rpc)
| Panicked.

(** [clock i] is the instant of the loop's i-th decision. *)
Fixpoint decide_loop (sv : Server) (snap : Snapshot) (clock : nat -> Z) (domain path : string) (i : nat)
    (requests : list check) (allowed : bool) (decisions : list Decision) (es : engine_state S)
    : engine_state S * loop_end * list event :=
  match requests with
  | [] => (es, Decided allowed decisions, [])
  | c :: requests =>
      match decide_check snap (clock i) c es with
      | (es, None) => (es, Panicked, [])
      | (es, Some (Err (ErrTooManyBuckets _))) =>
          (es, Returned (Answer (mkResponse CodeOverLimit [])),
           [Refusals domain CauseTooManyBuckets; Checks domain VerdictOverLimit; LogViolation domain path])
      | (es, Some (Err (ErrStore _))) =>
          if negb allowed then
            (es, Returned (Answer (mkResponse CodeOverLimit (responseHeaders sv (strictestDecision decisions false)))),
             [Checks domain VerdictOverLimit; LogStoreError domain path])
          else (es, Returned Unavailable, [Checks domain VerdictUnavailable; LogStoreError domain path])
      | (es, Some (Ok decision)) =>
          let seen := if negb (bool_decide (rq_Token (ck_Request c) = "")) && d_Targeted decision
                      then [TokensSeen domain] else [] in
          let '(es, e, evs) :=
            decide_loop sv snap clock domain path (Datatypes.S i) requests
              (allowed && d_Allowed decision) (decisions ++ [decision]) es in
          (es, e, seen ++ observeDecision domain decision ++ evs)
      end
  end.

(** [eng] is what the rule store holds for the domain, [es] the engine's cache
    and the counter store. [None] is a panic. *)
Definition ShouldRateLimit (sv : Server) (eng : option Snapshot) (clock : nat -> Z) (req : RateLimitRequest)
    (es : engine_state S) : engine_state S * option rpc * list event :=
  let domain := rl_Domain req in
  let path := (loggableEntries req).1 in
  match eng with
  | None =>
      (es, Some (Answer (mkResponse CodeOK [])),
       [UnknownDomainChecks; Checks UnknownDomain VerdictOK; LogUnknown (sanitizeValue domain) path])
  | Some snap =>
      let requests := engineRequests req in
      if (maxDescriptorsPerCheck <? length requests)%nat then
        (es, Some (Answer (mkResponse CodeOverLimit [])),
         [Refusals domain CauseTooManyDescriptors; Checks domain VerdictOverLimit; LogViolation domain path])
      else if bool_decide (is_Some (costViolation req)) then
        (es, Some (Answer (mkResponse CodeOverLimit [])),
         [Refusals domain CauseInvalidCost; Checks domain VerdictOverLimit; LogViolation domain path])
      else
        let requests := withoutExempt sv domain requests in
        if (length requests =? 0)%nat then
          (es, Some (Answer (mkResponse CodeOK [])), [Checks domain VerdictExempt])
        else
          match decide_loop sv snap clock domain path 0 requests true [] es with
          | (es, Panicked, evs) => (es, None, evs)
          | (es, Returned r, evs) => (es, Some r, evs)
          | (es, Decided allowed decisions, evs) =>
              let rules := sumN (fun d => length (d_Rules d)) decisions in
              (es, Some (Answer (mkResponse (if allowed then CodeOK else CodeOverLimit)
                                   (responseHeaders sv (strictestDecision decisions allowed)))),
               evs ++ [Checks domain (if allowed then VerdictOK else VerdictOverLimit)] ++
                 (if (rules =? 0)%nat then [UnmatchedChecks domain] else []) ++
                 (if allowed then [] else [LogRefusal domain path]))
          end
  end.

End server.

(** * What the rate limit service answers

    The loop of [ShouldRateLimit] against a reference that only looks at the
    results of the decisions, the bound on what one check can charge, and the
    service over the store contract. *)

(** ** Reference definitions *)

(** The code of an answer; [None] inside is Unavailable. *)
Definition rpc_code (r : rpc) : option Code :=
  match r with Answer p => Some (rp_OverallCode p) | Unavailable => None end.

Definition refuses (r : option (result EngineError Decision)) : bool :=
  match r with Some (Ok d) => negb (d_Allowed d) | _ => false end.

(** The code the results call for. A panic is [None]. Any refusal refuses the
    check, over the bucket budget too, and an error of the store is only
    passed on when no descriptor before it was refused. *)
Definition results_code (refused : bool) (rs : list (option (result EngineError Decision))) : option (option Code) :=
  let refused := refused || existsb refuses rs in
  match last rs with
  | Some None => None
  | Some (Some (Err (ErrTooManyBuckets _))) => Some (Some CodeOverLimit)
  | Some (Some (Err (ErrStore _))) => Some (if refused then Some CodeOverLimit else None)
  | _ => Some (Some (if refused then CodeOverLimit else CodeOK))
  end.

(** The verdict a check with this code is counted under. *)
Definition counted_as (verdict : string) (c : option Code) : Prop :=
  match c with
  | Some CodeOK => verdict = VerdictOK \/ verdict = VerdictExempt
  | Some CodeOverLimit => verdict = VerdictOverLimit
  | None => verdict = VerdictUnavailable
  end.

(** The verdicts of the [checks_total] increments. *)
Definition check_verdicts (evs : list event) : list string :=
  omap (fun e => match e with Checks _ v => Some v | _ => None end) evs.

Section reference.
Context `{Platform} {S : Type} {cap : Z} {kind : string -> Kind} {CS : CounterStore cap kind S}.

(** The results of the decisions, in order, up to the first that is none. *)
Fixpoint check_results (snap : Snapshot) (clock : nat -> Z) (i : nat) (cs : list check) (es : engine_state S)
    : list (option (result EngineError Decision)) :=
  match cs with
  | [] => []
  | c :: cs =>
      let '(es, r) := decide_check snap (clock i) c es in
      match r with
      | Some (Ok _) => r :: check_results snap clock (Datatypes.S i) cs es
      | _ => [r]
      end
  end.

Definition check_code (sv : Server) (eng : option Snapshot) (clock : nat -> Z) (req : RateLimitRequest)
    (es : engine_state S) : option (option Code) :=
  match eng with
  | None => Some (Some CodeOK)
  | Some snap =>
      if (maxDescriptorsPerCheck <? length (engineRequests req))%nat || bool_decide (is_Some (costViolation req))
      then Some (Some CodeOverLimit)
      else results_code false (check_results snap clock 0 (withoutExempt sv (rl_Domain req) (engineRequests req)) es)
  end.

(** ** The loop *)

Context (nearLimit : RuleOutcome -> bool).

Lemma observe_verdicts domain d : check_verdicts (observeDecision nearLimit domain d) = [].
Proof.
  unfold check_verdicts, observeDecision. rewrite !omap_app.
  assert (forall l : list event, Forall (fun e => match e with Checks _ _ => False | _ => True end) l ->
            omap (fun e => match e with Checks _ v => Some v | _ => None end) l = []) as Hn.
  { induction 1 as [|e l He _ IH]; [done|]. cbn. destruct e; try done. }
  rewrite !Hn; [done|..].
  - apply Forall_fmap, Forall_forall. by intros.
  - apply Forall_fmap, Forall_forall. by intros.
  - apply Forall_concat, Forall_fmap, Forall_forall. intros r _. cbn. unfold rule_events.
    constructor; [done|]. case_match; repeat constructor.
Qed.

Lemma last_cons_ne {A} (x : A) l : l <> [] -> last (x :: l) = last l.
Proof. by destruct l. Qed.

(** A decided head leaves the verdict on the rest to the rest. *)
Lemma results_code_cons refused d rs :
  results_code refused (Some (Ok d) :: rs) = results_code (refused || negb (d_Allowed d)) rs.
Proof.
  unfold results_code. cbn [existsb refuses]. rewrite orb_assoc.
  destruct rs as [|r rs]; [done|]. by rewrite last_cons_ne.
Qed.

Definition end_code (e : loop_end) : option (option Code) :=
  match e with
  | Decided allowed _ => Some (Some (if allowed then CodeOK else CodeOverLimit))
  | Returned r => Some (rpc_code r)
  | Panicked => None
  end.

(** The decisions among the results. *)
Definition decisions_of (rs : list (option (result EngineError Decision))) : list Decision :=
  omap (fun r => match r with Some (Ok d) => Some d | _ => None end) rs.

Lemma decide_loop_spec sv snap clock domain path i cs allowed ds es :
  let '(_, e, evs) := decide_loop nearLimit sv snap clock domain path i cs allowed ds es in
  let rs := check_results snap clock i cs es in
  end_code e = results_code (negb allowed) rs /\
  match e with
  | Decided _ ds' => check_verdicts evs = [] /\ ds' = ds ++ decisions_of rs
  | Returned r => exists v, check_verdicts evs = [v] /\ counted_as v (rpc_code r)
  | Panicked => True
  end.
Proof.
  revert i allowed ds es. induction cs as [|c cs IH]; intros i allowed ds es; cbn [decide_loop check_results].
  { unfold results_code. cbn. rewrite orb_false_r, app_nil_r. by destruct allowed. }
  destruct (decide_check snap (clock i) c es) as [es1 [[d|[n|e]]|]].
  - specialize (IH (Datatypes.S i) (allowed && d_Allowed d) (ds ++ [d]) es1).
    destruct (decide_loop _ _ _ _ _ _ _ cs _ _ es1) as [[es2 e] evs]. destruct IH as [IH1 IH2].
    rewrite results_code_cons, <- negb_andb. split; [done|].
    assert (check_verdicts ((if negb (bool_decide (rq_Token (ck_Request c) = "")) && d_Targeted d
              then [TokensSeen domain] else []) ++ observeDecision nearLimit domain d ++ evs) = check_verdicts evs) as ->.
    { unfold check_verdicts. rewrite !omap_app. pose proof (observe_verdicts domain d) as Ho. unfold check_verdicts in Ho.
      rewrite Ho. destruct (negb (bool_decide (rq_Token (ck_Request c) = "")) && d_Targeted d); reflexivity. }
    destruct e; [|done..]. destruct IH2 as [-> ->]. by rewrite <- app_assoc.
  - split; [by unfold results_code|]. exists VerdictOverLimit. by split.
  - unfold results_code. cbn. rewrite orb_false_r. destruct allowed; cbn; (split; [done|]); eexists; by split.
  - done.
Qed.

End reference.

(** ** What a check can charge *)

(** The cost the engine charges for a check of the loop. *)
Definition charged (c : check) : Z :=
  if ck_free c then 0 else if rq_Cost (ck_Request c) =? 0 then 1 else rq_Cost (ck_Request c).

Lemma fold_entry_cost es er : rq_Cost (foldl fold_entry er es) = rq_Cost er.
Proof.
  revert er. induction es as [|[k v] es IH]; intros er; [done|]. cbn [foldl]. rewrite IH. unfold fold_entry.
  by repeat case_bool_decide.
Qed.

Definition descriptor_ok (d : Descriptor) : Prop := match de_HitsAddend d with Some a => 0 <= a < 2 ^ 64 | None => True end.

Lemma descriptor_charge cost d :
  0 <= cost -> descriptor_ok d -> match de_HitsAddend d with Some a => a <= maxHitsAddend | None => True end ->
  charged (descriptor_check cost d) =
    match de_HitsAddend d with Some a => a | None => if cost =? 0 then 1 else cost end /\
  0 <= rq_Cost (ck_Request (descriptor_check cost d)) <= Z.max cost maxHitsAddend.
Proof.
  intros Hc Hok Hle. unfold charged, descriptor_check, descriptor_ok in *. destruct (de_HitsAddend d) as [a|].
  - assert (i64 a = a) as -> by (apply i64_id; unfold is_i64, min_i64, max_i64, maxHitsAddend, MaxCost in *; lia).
    cbn [ck_free ck_Request]. rewrite fold_entry_cost. cbn [rq_Cost]. destruct (Z.eqb_spec a 0); lia.
  - cbn [ck_free ck_Request]. rewrite fold_entry_cost. cbn [rq_Cost]. lia.
Qed.

(** Without wrap-around, which the bound on the descriptors keeps away. *)
Lemma cost_loop_spec cost ds i total r :
  0 <= cost -> Forall descriptor_ok ds -> 0 <= total ->
  total + Z.of_nat (length ds) * Z.max (if cost =? 0 then 1 else cost) maxHitsAddend < 2 ^ 64 ->
  cost_loop (if cost =? 0 then 1 else cost) ds i total = Ok r ->
  r = total + sumZ (fun d => charged (descriptor_check cost d)) ds /\
  Forall (fun d => match de_HitsAddend d with Some a => a <= maxHitsAddend | None => True end) ds.
Proof.
  intros Hc Hok. set (rc := if cost =? 0 then 1 else cost). revert i total. induction Hok as [|d ds Hd Hok IH]; intros i total Ht Hb; cbn [cost_loop].
  { intros [= <-]. split; [cbn; lia|constructor]. }
  assert (1 <= rc) as Hrc by (subst rc; destruct (Z.eqb_spec cost 0); lia).
  cbn [length] in Hb. rewrite Nat2Z.inj_succ in Hb.
  assert (forall x, 0 <= x <= Z.max rc maxHitsAddend -> u64 (total + x) = total + x) as Hu.
  { intros x Hx. unfold u64. apply Z.mod_small. nia. }
  destruct (de_IsNegativeHits d); [done|]. destruct (de_HitsAddend d) as [a|] eqn:Ea.
  - rewrite Z.gtb_ltb. destruct (Z.ltb_spec maxHitsAddend a) as [|Hle]; [done|]. unfold descriptor_ok in Hd. rewrite Ea in Hd.
    rewrite Hu by lia. intros H. apply IH in H as [-> HF]; [|lia|lia].
    destruct (descriptor_charge cost d Hc) as [E _]; [by unfold descriptor_ok; rewrite Ea|by rewrite Ea|]. rewrite Ea in E.
    split; [cbn [sumZ foldr]; rewrite E; unfold sumZ; lia|]. constructor; [by rewrite Ea|done].
  - rewrite Hu by lia. intros H. apply IH in H as [-> HF]; [|lia|lia].
    destruct (descriptor_charge cost d Hc) as [E _]; [by unfold descriptor_ok; rewrite Ea|by rewrite Ea|]. rewrite Ea in E. fold rc in E.
    split; [cbn [sumZ foldr]; rewrite E; unfold sumZ; lia|]. constructor; [by rewrite Ea|done].
Qed.
