(* ===== verification/RlsClaims.v ===== *)
(** * Claims on the rate limit service *)
From S2P Require Import Prelude GoStrings Algo Key StoreApi Memory Limits Model Compile CompileFacts Match MatchFacts MatchKeys Identity.
From S2P Require Import IdentityFacts TokenCache Engine EngineFacts EngineClaims Sanitize Rls.

(** ** Over the store contract *)

Section contract.
Context `{Platform} {S : Type} {cap : Z} {CS : CounterStore cap key_kind S}.
Context (nearLimit : RuleOutcome -> bool).

(** The decisions of a check in abstract terms: each judges its buckets at
    the levels it finds, an admitted one charges them, and a free one leaves
    the levels alone. *)
Inductive judged_checks (snap : Snapshot) (clock : nat -> Z) : nat -> list check -> S -> list bool -> S -> Prop :=
| judged_nil i s : judged_checks snap clock i [] s [] s
| judged_cons i c cs s s1 s2 oks :
    (forall k, store_level (clock i) s1 k =
       if ck_free c then store_level (clock i) s k
       else spec_levels (request_buckets snap (ck_Request c)) (store_level (clock i) s) k) ->
    store_inv (clock i) s1 -> judged_checks snap clock (Datatypes.S i) cs s1 oks s2 ->
    judged_checks snap clock i (c :: cs) s
      (spec_admitted (request_buckets snap (ck_Request c)) (store_level (clock i) s) :: oks) s2.

Definition clock_forward (clock : nat -> Z) : Prop := forall i, time_ok (clock i) /\ clock i <= clock (Datatypes.S i).

Context (ns : string) (snap : Snapshot) (seen : gset string).
Context (Hsnap : snapshot_ok cap ns snap) (Hinj : hash_injective seen).

Lemma decide_check_ok now c es :
  0 <= rq_Cost (ck_Request c) <= max_i64 -> time_ok now -> store_inv now (es_store es) ->
  ec_ok (s_Extraction snap) seen (es_cache es) -> rq_Token (ck_Request c) ∈ seen ->
  let bs := request_buckets snap (ck_Request c) in
  let lv := store_level now (es_store es) in
  exists d es', decide_check snap now c es = (es', Some (Ok d)) /\
    d_Allowed d = spec_admitted bs lv /\
    (forall k, store_level now (es_store es') k = if ck_free c then lv k else spec_levels bs lv k) /\
    store_inv now (es_store es') /\ ec_ok (s_Extraction snap) seen (es_cache es').
Proof using Hsnap Hinj.
  intros Hc Ht Hi Hec Hseen bs lv. unfold decide_check. destruct (ck_free c).
  - destruct (evaluate_pipeline ns snap seen Hsnap Hinj false (store_peek now) now (ck_Request c) es Hc Ht Hec Hseen)
      as (d & E & Ha & _).
    { intros bs' Hg Hb. pose proof (peek_law now bs' (es_store es) Hi Ht Hg Hb) as Hl.
      destruct (store_peek now bs' (es_store es)). by destruct Hl as (-> & _). }
    eexists d, _. split; [exact E|]. split; [done|]. cbn [es_store es_cache]. fold bs.
    destruct (request_buckets_ok ns snap Hsnap (ck_Request c) Hc) as (_ & Hg & Hb & _). fold bs in Hg, Hb.
    pose proof (peek_law now bs (es_store es) Hi Ht Hg Hb) as Hl.
    split_and!.
    + intros k. destruct (length bs =? 0)%nat; [done|]. destruct (store_peek now bs (es_store es)). by destruct Hl as (_ & Hl & _).
    + destruct (length bs =? 0)%nat; [done|]. destruct (store_peek now bs (es_store es)). by destruct Hl as (_ & _ & Hl).
    + destruct (Empty _); [done|]. by apply extractKeys_pure.
  - destruct (decide_pipeline ns snap seen Hsnap Hinj now (ck_Request c) es Hc Ht Hi Hec Hseen)
      as (d & es' & E & Ha & _ & Hl & Hi' & Hec' & _). by exists d, es'.
Qed.

Lemma decide_loop_ok sv clock domain path i cs allowed ds es :
  clock_forward clock ->
  Forall (fun c => 0 <= rq_Cost (ck_Request c) <= max_i64 /\ rq_Token (ck_Request c) ∈ seen) cs ->
  store_inv (clock i) (es_store es) -> ec_ok (s_Extraction snap) seen (es_cache es) ->
  exists es' oks ds' evs,
    decide_loop nearLimit sv snap clock domain path i cs allowed ds es =
      (es', Decided (allowed && forallb id oks) ds', evs) /\
    judged_checks snap clock i cs (es_store es) oks (es_store es').
Proof using Hsnap Hinj.
  intros Hclock Hcs. revert i allowed ds es. induction Hcs as [|c cs [Hc Hs] Hcs IH]; intros i allowed ds es Hi Hec; cbn [decide_loop].
  { exists es, [], ds, []. rewrite andb_true_r. split; [done|constructor]. }
  destruct (Hclock i) as [Ht Hle].
  destruct (decide_check_ok (clock i) c es Hc Ht Hi Hec Hs) as (d & es1 & E & Ha & Hl & Hi1 & Hec1). rewrite E.
  destruct (IH (Datatypes.S i) (allowed && d_Allowed d) (ds ++ [d]) es1) as (es2 & oks & ds' & evs & E2 & Hj).
  { by eapply inv_mono. }
  { done. }
  rewrite E2. exists es2, (d_Allowed d :: oks), ds'. eexists. split.
  - cbn [forallb]. by rewrite andb_assoc.
  - rewrite Ha. by eapply judged_cons.
Qed.

End contract.

(** A request as protobuf delivers it: [hits_addend] is a uint32, a
    descriptor's a uint64. *)
Definition wire_ok (req : RateLimitRequest) : Prop :=
  0 <= rl_HitsAddend req < 2 ^ 32 /\ Forall descriptor_ok (rl_Descriptors req).

Lemma engineRequests_costs req :
  wire_ok req -> (length (rl_Descriptors req) <= maxDescriptorsPerCheck)%nat -> costViolation req = None ->
  sumZ charged (engineRequests req) <= maxHitsAddend /\
  Forall (fun c => 0 <= rq_Cost (ck_Request c) <= max_i64) (engineRequests req).
Proof.
  intros [Hh Hd] Hlen. unfold costViolation, engineRequests. set (cost := rl_HitsAddend req) in *.
  unfold maxDescriptorsPerCheck in Hlen.
  destruct (cost_loop _ _ _ _) as [total|v] eqn:E; [|done].
  assert (maxHitsAddend < max_i64 /\ 2 ^ 32 < max_i64) as [Hm Hm2] by (vm_compute; done).
  destruct (rl_Descriptors req) as [|d ds] eqn:Ed.
  { rewrite Z.gtb_ltb. destruct (Z.ltb_spec maxHitsAddend (if cost =? 0 then 1 else cost)); [done|]. intros _.
    cbn [sumZ foldr]. unfold charged. cbn [ck_free ck_Request rq_Cost]. split; [lia|]. repeat constructor; cbn; lia. }
  rewrite <- Ed in *. clear d ds Ed. rewrite Z.gtb_ltb. destruct (Z.ltb_spec maxHitsAddend total); [done|]. intros _.
  apply (cost_loop_spec cost) in E as [-> HF]; [|lia|done|lia|].
  2:{ unfold maxHitsAddend, MaxCost. destruct (Z.eqb_spec cost 0); nia. }
  split.
  - assert (forall l : list Descriptor, sumZ charged (descriptor_check cost <$> l) =
              sumZ (fun d => charged (descriptor_check cost d)) l) as ->; [|lia].
    induction l as [|d l IHl]; [done|]. cbn [fmap list_fmap sumZ foldr]. unfold sumZ, fmap in *. by rewrite IHl.
  - apply Forall_fmap, Forall_forall. intros d Hin. rewrite Forall_forall in HF, Hd.
    destruct (descriptor_charge cost d) as [_ Hr]; [lia|by apply Hd|by apply HF|]. cbn. lia.
Qed.

Lemma engineRequests_length req : length (engineRequests req) = Nat.max 1 (length (rl_Descriptors req)).
Proof. unfold engineRequests. destruct (rl_Descriptors req) as [|d ds]; [done|]. rewrite length_fmap. cbn [length]. lia. Qed.

(** ** Claims *)

(** The answer of a check, on every branch. A domain without a policy
    passes; more than sixteen descriptors, or a cost the engine does not
    charge, is refused before anything is decided; otherwise the descriptors
    are decided in order and the answer is over the limit as soon as one is
    refused or over the bucket budget, unavailable only when the store fails
    before any refusal, and OK when every descriptor was admitted or exempt.
    Every answered check is counted exactly once, under the verdict that was
    answered. *)
Theorem rls_answer_exact `{Platform} {S : Type} {cap : Z} {kind : string -> Kind} {CS : CounterStore cap kind S}
    (nearLimit : RuleOutcome -> bool) (sv : Server) (eng : option Snapshot) (clock : nat -> Z)
    (req : RateLimitRequest) (es : engine_state S) :
  let '(_, r, evs) := ShouldRateLimit nearLimit sv eng clock req es in
  rpc_code <$> r = check_code sv eng clock req es /\
  (forall a, r = Some a -> exists v, check_verdicts evs = [v] /\ counted_as v (rpc_code a)).
Proof.
  unfold ShouldRateLimit, check_code. destruct eng as [snap|].
  2:{ split; [done|]. intros a [= <-]. exists VerdictOK. split; [done|by left]. }
  destruct (maxDescriptorsPerCheck <? _)%nat; cbn [orb].
  { split; [done|]. intros a [= <-]. by exists VerdictOverLimit. }
  destruct (bool_decide (is_Some (costViolation req))).
  { split; [done|]. intros a [= <-]. by exists VerdictOverLimit. }
  set (cs := withoutExempt sv (rl_Domain req) (engineRequests req)).
  destruct (Nat.eqb_spec (length cs) 0) as [Hz|_].
  { apply nil_length_inv in Hz. rewrite Hz. split; [done|]. intros a [= <-]. exists VerdictExempt. split; [done|by right]. }
  pose proof (decide_loop_spec nearLimit sv snap clock (rl_Domain req) (loggableEntries req).1 0 cs true [] es) as Hs.
  destruct (decide_loop _ _ _ _ _ _ _ cs _ _ es) as [[es' e] evs]. destruct Hs as [H1 H2].
  destruct e as [allowed ds|r|]; cbn [end_code negb] in H1; rewrite <- H1.
  - destruct H2 as [H2 _]. split; [by destruct allowed|]. intros a [= <-]. cbn [rpc_code rp_OverallCode].
    unfold check_verdicts in *. rewrite !omap_app, H2. destruct allowed.
    + exists VerdictOK. destruct (_ =? 0)%nat; (split; [done|by left]).
    + exists VerdictOverLimit. by destruct (_ =? 0)%nat.
  - split; [done|]. intros a [= <-]. done.
  - done.
Qed.

(** One check charges at most [maxHitsAddend], however the caller
    spreads its cost: when the server decides a check at all, the costs of its
    descriptors add up to at most that, the uint64 total did not wrap around
    to hide more, and every cost handed to the engine is one it accepts. *)
Theorem check_cost_bounded (req : RateLimitRequest) :
  wire_ok req -> (length (engineRequests req) <= maxDescriptorsPerCheck)%nat -> costViolation req = None ->
  sumZ charged (engineRequests req) <= maxHitsAddend /\
  Forall (fun c => 0 <= charged c <= maxHitsAddend /\ 0 <= rq_Cost (ck_Request c) <= max_i64) (engineRequests req).
Proof.
  intros Hw Hl Hv. rewrite engineRequests_length in Hl.
  destruct (engineRequests_costs req Hw ltac:(lia) Hv) as [Hsum HF]. split; [done|].
  assert (Forall (fun c => 0 <= charged c) (engineRequests req)) as Hnn.
  { eapply Forall_impl; [exact HF|]. intros c [Hc _]. cbv beta. unfold charged. destruct (ck_free c); [done|].
    by destruct (Z.eqb_spec (rq_Cost (ck_Request c)) 0). }
  clear Hv Hl Hw. induction (engineRequests req) as [|c cs IH]; [constructor|].
  apply Forall_cons in Hnn as [H1 H2]. apply Forall_cons in HF as [H3 H4].
  assert (0 <= sumZ charged cs) as Hpos.
  { clear -H2. induction H2 as [|c cs Hc _ IH]; [done|]. cbn [sumZ foldr]. unfold sumZ in *. lia. }
  change (sumZ charged (c :: cs)) with (charged c + sumZ charged cs) in Hsum.
  constructor; [lia|]. apply IH; [lia|done|done].
Qed.

Lemma check_answered `{Platform} {S : Type} {cap : Z} {CS : CounterStore cap key_kind S}
    (nearLimit : RuleOutcome -> bool) (ns : string) (snap : Snapshot)
    (seen : gset string) (sv : Server) (clock : nat -> Z) (req : RateLimitRequest) (es : engine_state S) :
  snapshot_ok cap ns snap -> hash_injective seen ->
  clock_forward clock -> store_inv (clock 0%nat) (es_store es) -> ec_ok (s_Extraction snap) seen (es_cache es) ->
  wire_ok req -> (length (engineRequests req) <= maxDescriptorsPerCheck)%nat -> costViolation req = None ->
  Forall (fun c => rq_Token (ck_Request c) ∈ seen) (engineRequests req) ->
  exists es' resp evs oks,
    ShouldRateLimit nearLimit sv (Some snap) clock req es = (es', Some (Answer resp), evs) /\
    judged_checks snap clock 0 (withoutExempt sv (rl_Domain req) (engineRequests req)) (es_store es) oks (es_store es') /\
    rp_OverallCode resp = if forallb id oks then CodeOK else CodeOverLimit.
Proof.
  intros Hok Hinj Hclock Hi Hec Hw Hl Hv Hseen.
  destruct (engineRequests_costs req Hw) as [_ HF]; [rewrite engineRequests_length in Hl; lia|done|].
  unfold ShouldRateLimit. rewrite (proj2 (Nat.ltb_ge _ _) Hl), Hv. cbn [is_Some].
  rewrite (bool_decide_false (is_Some None)) by (by intros [? ?]).
  set (cs := withoutExempt sv (rl_Domain req) (engineRequests req)).
  assert (Forall (fun c => 0 <= rq_Cost (ck_Request c) <= max_i64 /\ rq_Token (ck_Request c) ∈ seen) cs) as Hcs.
  { assert (forall c, c ∈ cs -> c ∈ engineRequests req) as Hsub.
    { intros c. subst cs. unfold withoutExempt. case_bool_decide; [|done]. by intros [_ ?]%list_elem_of_filter. }
    rewrite Forall_forall in HF, Hseen. apply Forall_forall. intros c Hin%Hsub. split; [by apply HF|by apply Hseen]. }
  destruct (Nat.eqb_spec (length cs) 0) as [Hz|_].
  { apply nil_length_inv in Hz. rewrite Hz. eexists _, _, _, []. split; [done|]. split; [constructor|done]. }
  destruct (decide_loop_ok nearLimit ns snap seen Hok Hinj sv clock (rl_Domain req) (loggableEntries req).1
    0 cs true [] es Hclock Hcs Hi Hec) as (es' & oks & ds' & evs & E & Hj).
  rewrite E. eexists es', _, _, oks. by split_and!.
Qed.

(** C9: The service over any store of the contract and any policy the
    compiler accepted. A check within the protocol's bounds is always
    answered: no panic, no Unavailable. Its descriptors are judged one after
    the other, each against the counters its predecessors left, each charging
    its own buckets by its own verdict, free ones charging nothing; the answer
    is OK exactly when every one of them was admitted. *)
Theorem rls_check_exact `{Platform} {S : Type} {cap : Z} {CS : CounterStore cap key_kind S}
    (nearLimit : RuleOutcome -> bool) (ns d : string) (p : Policy) (snap : Snapshot) (ps : list Problem)
    (seen : gset string) (sv : Server) (clock : nat -> Z) (req : RateLimitRequest) (es : engine_state S) :
  policy_within cap p -> Compile ns d (Some p) = Some (snap, ps) -> hash_injective seen ->
  clock_forward clock -> store_inv (clock 0%nat) (es_store es) -> ec_ok (s_Extraction snap) seen (es_cache es) ->
  wire_ok req -> (length (engineRequests req) <= maxDescriptorsPerCheck)%nat -> costViolation req = None ->
  Forall (fun c => rq_Token (ck_Request c) ∈ seen) (engineRequests req) ->
  exists es' resp evs oks,
    ShouldRateLimit nearLimit sv (Some snap) clock req es = (es', Some (Answer resp), evs) /\
    judged_checks snap clock 0 (withoutExempt sv (rl_Domain req) (engineRequests req)) (es_store es) oks (es_store es') /\
    rp_OverallCode resp = if forallb id oks then CodeOK else CodeOverLimit.
Proof.
  intros Hp Hc Hinj Hclock Hi Hec Hw Hl Hv Hseen. eapply check_answered; try done.
  eapply compile_snapshot_ok; [|done]. by intros ? [= <-].
Qed.

(** A check of one descriptor. *)
Lemma rls_single `{Platform} {S : Type} {cap : Z} {kind : string -> Kind} {CS : CounterStore cap kind S}
    nearLimit sv snap now req (es es1 : engine_state S) c d :
  (length (engineRequests req) <= maxDescriptorsPerCheck)%nat -> costViolation req = None ->
  withoutExempt sv (rl_Domain req) (engineRequests req) = [c] -> ck_free c = false ->
  Decide_engine snap now (ck_Request c) es = (es1, Some (Ok d)) ->
  exists evs, ShouldRateLimit nearLimit sv (Some snap) (fun _ => now) req es =
    (es1, Some (Answer (mkResponse (if d_Allowed d then CodeOK else CodeOverLimit)
       (responseHeaders sv (strictestDecision [d] (d_Allowed d))))), evs).
Proof.
  intros Hl Hv Hcs Hf Hd. unfold ShouldRateLimit. rewrite (proj2 (Nat.ltb_ge _ _) Hl), Hv.
  rewrite (bool_decide_false (is_Some None)) by (by intros [? ?]). rewrite Hcs.
  cbn [length Nat.eqb decide_loop]. unfold decide_check. rewrite Hf, Hd. cbn [andb app]. by eexists.
Qed.

Lemma ceilSeconds_spec r : 0 < r <= max_i64 - Second -> 0 < ceilSeconds r /\ r <= ceilSeconds r * Second < r + Second.
Proof.
  intros Hr. unfold ceilSeconds. destruct (Z.leb_spec r 0); [lia|].
  assert ((r +i Second -i 1) /i Second = (r + Second - 1) / Second) as ->.
  { unfold add64, sub64, div64. unfold Second, max_i64 in *.
    rewrite (i64_id (r + 1000000000)) by (unfold is_i64, min_i64, max_i64; lia).
    rewrite (i64_id (r + 1000000000 - 1)) by (unfold is_i64, min_i64, max_i64; lia).
    rewrite Z.quot_div_nonneg by lia. apply i64_id. unfold is_i64, min_i64, max_i64.
    split; [apply Z.le_trans with 0; [lia|apply Z.div_pos; lia]|]. apply Z.lt_le_incl, Z.div_lt_upper_bound; lia. }
  unfold Second in *. pose proof (Z.div_mod (r + 1000000000 - 1) 1000000000 ltac:(lia)) as Hdm.
  pose proof (Z.mod_pos_bound (r + 1000000000 - 1) 1000000000 ltac:(lia)). lia.
Qed.

(** How long a refused bucket can ask to wait, its level within what any
    window reaches. *)
Lemma wait_bounded cap kind now b lvl :
  bucket_ok cap kind b -> judge_exceeds b = false -> judge_allowed b lvl = false ->
  0 <= lvl -> (k_alg (kind (b_Key b)) = gcra -> lvl <= maxTauMicros) ->
  0 < wait now b lvl * Microsecond <= max_i64 - Second.
Proof.
  intros (_ & Ha & Hc & Hw) Hx Hj Hl Hg. unfold judge_exceeds, judge_allowed, wait in *. rewrite Ha in *.
  unfold Microsecond, Second, max_i64, maxTauMicros in *. destruct (k_alg (kind (b_Key b))).
  - specialize (Hg eq_refl). change (ID gcra =? GCRAID) with true in *. cbn iota in *. apply Z.ltb_ge in Hx.
    rewrite (proj2 (Z.leb_le _ _) Hx) in Hj. cbn [andb] in Hj. apply Z.leb_gt in Hj.
    destruct (gcra_ok_facts _ Hw) as (_ & _ & He & _ & Htau & Hb & _). rewrite Htau in *. nia.
  - change (ID fixedWindow =? GCRAID) with false. cbn iota. destruct Hw as [[Hp _] _].
    pose proof (whole_period_micros _ Hp) as Hm. unfold b_period, window_start.
    pose proof (Z.mod_pos_bound now (Period (b_Window b) / Microsecond) ltac:(lia)). unfold Microsecond in *. lia.
Qed.

(** Charging keeps a GCRA level within what a window holds. *)
Lemma spec_levels_bounded cap bs lv :
  Forall (bucket_ok cap key_kind) bs ->
  (forall k, k_alg (key_kind k) = gcra -> lv k <= maxTauMicros) ->
  forall k, k_alg (key_kind k) = gcra -> spec_levels bs lv k <= maxTauMicros.
Proof.
  intros Hbs Hlv k Hk. unfold spec_levels. destruct (find_first _ bs) as [b|] eqn:E; [|by apply Hlv].
  apply find_first_Some in E as [Hin Hb]. apply bool_decide_eq_true in Hb. subst k.
  destruct (spec_admitted bs lv && judge_allowed b (lv (b_Key b))) eqn:Ej; [|by apply Hlv].
  apply andb_true_iff in Ej as [_ Ej]. rewrite Forall_forall in Hbs. destruct (Hbs b Hin) as (_ & Ha & _ & Hw).
  rewrite Hk in *. unfold judge_allowed, charge in *. rewrite Ha in *. change (ID gcra =? GCRAID) with true in *.
  cbn iota in *. apply andb_true_iff in Ej as [_ Ej%Z.leb_le]. destruct (gcra_ok_facts _ Hw) as (_ & _ & _ & _ & _ & _ & Ht). lia.
Qed.

(** The retry hint of the response. A refused check of one descriptor
    that carries retry-after is admitted when it is repeated after that many
    seconds without other traffic, and still refused a whole second earlier;
    one that carries none is refused however long the client waits. *)
Theorem rls_retry_after_honest `{Platform} {S : Type} {cap : Z} {CS : CounterStore cap key_kind S}
    (nearLimit : RuleOutcome -> bool) (ns d : string) (p : Policy) (snap : Snapshot) (ps : list Problem)
    (seen : gset string) (sv : Server) (now dt : Z) (req : RateLimitRequest) (c : check)
    (es es1 : engine_state S) (resp : RateLimitResponse) (evs : list event) :
  policy_within cap p -> Compile ns d (Some p) = Some (snap, ps) -> hash_injective seen ->
  time_ok now -> store_inv now (es_store es) -> ec_ok (s_Extraction snap) seen (es_cache es) ->
  (forall k, k_alg (key_kind k) = gcra -> store_level now (es_store es) k <= maxTauMicros) ->
  wire_ok req -> (length (engineRequests req) <= maxDescriptorsPerCheck)%nat -> costViolation req = None ->
  withoutExempt sv (rl_Domain req) (engineRequests req) = [c] -> ck_free c = false -> rq_Token (ck_Request c) ∈ seen ->
  ShouldRateLimit nearLimit sv (Some snap) (fun _ => now) req es = (es1, Some (Answer resp), evs) ->
  rp_OverallCode resp = CodeOverLimit -> 0 <= dt -> time_ok (now + dt) ->
  exists es2 resp2 evs2,
    ShouldRateLimit nearLimit sv (Some snap) (fun _ => now + dt) req es1 = (es2, Some (Answer resp2), evs2) /\
    ((exists secs, ("retry-after", FormatInt secs) ∈ rp_ResponseHeadersToAdd resp /\ 0 < secs /\
        (secs * 1000000 <= dt -> rp_OverallCode resp2 = CodeOK) /\
        (dt <= (secs - 1) * 1000000 -> rp_OverallCode resp2 = CodeOverLimit)) \/
     ("retry-after" ∉ (rp_ResponseHeadersToAdd resp).*1 /\ rp_OverallCode resp2 = CodeOverLimit)).
Proof.
  intros Hp Hc Hinj Ht Hi Hec Hlv Hw Hl Hv Hcs Hf Hseen Hrun Hover Hdt Htd.
  assert (snapshot_ok cap ns snap) as Hok by (eapply compile_snapshot_ok; [|done]; by intros ? [= <-]).
  destruct (engineRequests_costs req Hw) as [_ HF]; [rewrite engineRequests_length in Hl; lia|done|].
  assert (c ∈ engineRequests req) as Hin.
  { assert (c ∈ [c]) as H1 by left. rewrite <- Hcs in H1. unfold withoutExempt in H1.
    case_bool_decide; [by apply list_elem_of_filter in H1 as [_ ?]|done]. }
  rewrite Forall_forall in HF. specialize (HF c Hin).
  destruct (decide_pipeline ns snap seen Hok Hinj now (ck_Request c) es HF Ht Hi Hec Hseen)
    as (dec & es1' & Hd & _ & _ & _ & _ & _ & Hm & Hn).
  destruct (rls_single nearLimit sv snap now req es es1' c dec Hl Hv Hcs Hf Hd) as (evs' & Hs).
  rewrite Hrun in Hs. injection Hs as -> -> _. cbn [rp_OverallCode rp_ResponseHeadersToAdd] in *.
  destruct (d_Allowed dec) eqn:Ea; [done|]. clear Hover Hrun.
  destruct (d_CostExceedsCapacity dec) eqn:Ex.
  - destruct (over_capacity_final ns snap seen Hok Hinj now dt (ck_Request c) es es1' dec HF Ht Hi Hec Hseen Hd Ex Hdt Htd)
      as (_ & (h & Hh & Hr) & es2 & dec2 & Hd2 & Ha2).
    destruct (rls_single nearLimit sv snap (now + dt) req es1' es2 c dec2 Hl Hv Hcs Hf Hd2) as (evs2 & Hs2).
    eexists es2, _, evs2. split; [exact Hs2|]. right. cbn [rp_OverallCode]. rewrite Ha2. split; [|done].
    unfold strictestDecision. cbn [strictest_decisions]. rewrite Hh, Ea. cbn [Bool.eqb negb].
    unfold responseHeaders. rewrite Hh, Ea, Hr. cbn. destruct (sv_ietfHeaders sv); cbn; set_solver.
  - destruct (refusal_retry ns snap seen Hok Hinj now dt (ck_Request c) es es1' dec HF Ht Hi Hec Hseen Hd Ea Ex Hdt Htd)
      as (h & es2 & dec2 & Hh & Hd2 & Hiff & b & Hb & Hbx & Hbj & Hr).
    destruct (rls_single nearLimit sv snap (now + dt) req es1' es2 c dec2 Hl Hv Hcs Hf Hd2) as (evs2 & Hs2).
    eexists es2, _, evs2. split; [exact Hs2|]. left. cbn [rp_OverallCode].
    destruct (request_buckets_ok ns snap Hok (ck_Request c) HF) as (_ & _ & Hbok & _).
    rewrite Forall_forall in Hbok. pose proof (wait_bounded cap key_kind now b _ (Hbok b Hb) Hbx Hbj
      (level_nonneg now _ (b_Key b) Hi) (Hlv (b_Key b))) as Hwait. rewrite <- Hr in Hwait.
    destruct (ceilSeconds_spec _ Hwait) as (Hpos & Hle & Hlt).
    exists (ceilSeconds (hd_RetryAfter h)). split_and!; [|done|..].
    + unfold strictestDecision. cbn [strictest_decisions]. rewrite Hh, Ea. cbn [Bool.eqb negb].
      unfold responseHeaders. rewrite Hh, Ea. rewrite Z.geb_leb, (proj2 (Z.leb_le 0 (hd_RetryAfter h))) by lia.
      cbn [negb andb]. destruct (sv_ietfHeaders sv); cbn [negb]; set_solver.
    + intros Hdone. unfold Second, Microsecond in *. destruct (d_Allowed dec2); [done|].
      assert (false = true); [apply Hiff; lia|done].
    + intros Hdone. unfold Second, Microsecond in *. destruct (d_Allowed dec2); [|done].
      pose proof (proj1 Hiff eq_refl). lia.
Qed.

(** ** Examples *)

(** The demo policy over the in-memory store: one client whose bucket holds
    two. *)
Definition demo_descriptor (path : string) : Descriptor :=
  mkDescriptor [("path", path); ("method", "GET"); ("sub", "Alice")] None false.

Definition demo_check (paths : list string) : RateLimitRequest :=
  mkRateLimitRequest "gateway.public" (demo_descriptor <$> paths) 0.

Definition demo_server : Server := NewServer [WithIETFHeaders false; WithExemptPath "/ratelimit/v1" ["gateway.public"]].

Definition demo_rls (clock : nat -> Z) (req : RateLimitRequest) (es : engine_state (gmap string entry)) :=
  ShouldRateLimit (H := demo_platform) (CS := memory_store key_kind) (fun _ => false) demo_server (Some demo_snapshot) clock req es.

Lemma demo_wire paths : wire_ok (demo_check paths).
Proof. split; [by_decide|]. apply Forall_fmap, Forall_forall. by intros. Qed.

Lemma demo_seen paths : Forall (fun c => rq_Token (ck_Request c) ∈ demo_seen_tokens) (engineRequests (demo_check paths)).
Proof.
  unfold engineRequests, demo_check. cbn [rl_Descriptors rl_HitsAddend].
  destruct paths as [|path paths]; [repeat constructor; cbn; set_solver|].
  rewrite fmap_cons. cbn beta iota. rewrite <- fmap_cons. apply Forall_fmap, Forall_forall. intros d Hd.
  apply list_elem_of_fmap in Hd as (q & -> & _).
  assert (rq_Token (ck_Request (descriptor_check 0 (demo_descriptor q))) = "") as E by (by destruct q).
  cbv beta. unfold compose. rewrite E. by apply elem_of_singleton.
Qed.

(** The first of two descriptors takes the whole bucket, so the second is
    refused, and so is the check. *)
Lemma rls_check_exact_witness :
  exists es' resp evs oks,
    demo_rls (fun _ => 0) (demo_check ["/orders/42?limit=2"; "/orders/42?limit=1"]) demo_es0 = (es', Some (Answer resp), evs) /\
    judged_checks (H := demo_platform) (CS := memory_store key_kind) demo_snapshot (fun _ => 0) 0
      (withoutExempt demo_server "gateway.public" (engineRequests (demo_check ["/orders/42?limit=2"; "/orders/42?limit=1"])))
      (es_store demo_es0) oks (es_store es') /\
    rp_OverallCode resp = if forallb id oks then CodeOK else CodeOverLimit.
Proof.
  apply (rls_check_exact (H := demo_platform) (CS := memory_store key_kind) (fun _ => false) "ns" "gateway.public"
    demo_policy demo_snapshot [] demo_seen_tokens demo_server (fun _ => 0)).
  - exact demo_policy_i64.
  - exact demo_compiles.
  - exact demo_injective.
  - intros i. split; [by_decide|lia].
  - apply mem_inv_New.
  - exact I.
  - apply demo_wire.
  - vm_compute. lia.
  - vm_compute. reflexivity.
  - apply demo_seen.
Defined.

Lemma check_cost_bounded_witness :
  sumZ charged (engineRequests (demo_check ["/a"; "/b"])) = 2 /\
  sumZ charged (engineRequests (demo_check ["/a"; "/b"])) <= maxHitsAddend.
Proof.
  split; [reflexivity|]. apply (check_cost_bounded (demo_check ["/a"; "/b"])).
  - apply demo_wire.
  - vm_compute. lia.
  - vm_compute. reflexivity.
Defined.

Lemma demo_es1_levels k :
  k_alg (key_kind k) = gcra -> store_level (CounterStore := memory_store key_kind) 0 (es_store demo_es1) k <= maxTauMicros.
Proof.
  intros Hk. destruct (decide_pipeline (H := demo_platform) (CS := memory_store key_kind) "ns" demo_snapshot
    demo_seen_tokens demo_snapshot_ok demo_injective 0 (demo_req "/orders/42?limit=2") demo_es0)
    as (d & es' & E & _ & _ & Hl & _).
  - vm_compute. split; discriminate.
  - by_decide.
  - apply mem_inv_New.
  - exact I.
  - simpl. set_solver.
  - unfold demo_es1, demo_run. rewrite E. cbn [fst]. rewrite Hl. apply (spec_levels_bounded max_i64); [| |done].
    + apply (request_buckets_ok (H := demo_platform) "ns" demo_snapshot demo_snapshot_ok). vm_compute. split; discriminate.
    + intros k' _. vm_compute. discriminate.
Qed.

Definition demo_refusal : engine_state (gmap string entry) * option rpc * list event :=
  demo_rls (fun _ => 0) (demo_check ["/orders/42?limit=2"]) demo_es1.

Definition demo_refusal_resp : RateLimitResponse :=
  mkResponse CodeOverLimit
    [("x-ratelimit-limit", "2"); ("x-ratelimit-remaining", "0"); ("x-ratelimit-reset", "1"); ("retry-after", "1")].

Lemma demo_refusal_eq : demo_refusal = (demo_refusal.1.1, Some (Answer demo_refusal_resp), demo_refusal.2).
Proof.
  assert (demo_refusal.1.2 = Some (Answer demo_refusal_resp)) as E by (vm_compute; reflexivity).
  destruct demo_refusal as [[es r] evs]. cbn in *. by rewrite E.
Qed.

(** The refused check is admitted after the second its header names. *)
Lemma rls_retry_after_honest_witness :
  exists es2 resp2 evs2,
    demo_rls (fun _ => 0 + 1000000) (demo_check ["/orders/42?limit=2"]) demo_refusal.1.1 = (es2, Some (Answer resp2), evs2) /\
    ((exists secs, ("retry-after", FormatInt secs) ∈ rp_ResponseHeadersToAdd demo_refusal_resp /\ 0 < secs /\
        (secs * 1000000 <= 1000000 -> rp_OverallCode resp2 = CodeOK) /\
        (1000000 <= (secs - 1) * 1000000 -> rp_OverallCode resp2 = CodeOverLimit)) \/
     ("retry-after" ∉ (rp_ResponseHeadersToAdd demo_refusal_resp).*1 /\ rp_OverallCode resp2 = CodeOverLimit)).
Proof.
  apply (rls_retry_after_honest (H := demo_platform) (CS := memory_store key_kind) (fun _ => false) "ns" "gateway.public"
    demo_policy demo_snapshot [] demo_seen_tokens demo_server 0 1000000 (demo_check ["/orders/42?limit=2"])
    (descriptor_check 0 (demo_descriptor "/orders/42?limit=2")) demo_es1 demo_refusal.1.1 demo_refusal_resp demo_refusal.2).
  - exact demo_policy_i64.
  - exact demo_compiles.
  - exact demo_injective.
  - by_decide.
  - exact (proj1 demo_es1_ok).
  - exact (proj2 demo_es1_ok).
  - exact demo_es1_levels.
  - apply demo_wire.
  - vm_compute. lia.
  - vm_compute. reflexivity.
  - vm_compute. reflexivity.
  - reflexivity.
  - by apply elem_of_singleton.
  - exact demo_refusal_eq.
  - reflexivity.
  - lia.
  - by_decide.
Defined.

(** ** A refusal that waiting does not cure *)

Definition demo_incurable : RateLimitRequest := demo_check ["/orders/42?limit=5"; "/orders/42?limit=2"].

Lemma demo_never_admitted dt :
  0 <= dt -> time_ok dt -> forall es,
  store_inv (CounterStore := memory_store key_kind) dt (es_store es) ->
  ec_ok (H := demo_platform) (s_Extraction demo_snapshot) demo_seen_tokens (es_cache es) ->
  exists es' resp evs, demo_rls (fun _ => dt) demo_incurable es = (es', Some (Answer resp), evs) /\
    rp_OverallCode resp = CodeOverLimit.
Proof.
  intros Hdt Ht es Hi Hec.
  destruct (check_answered (H := demo_platform) (CS := memory_store key_kind) (fun _ => false) "ns"
    demo_snapshot demo_seen_tokens demo_server (fun _ => dt) demo_incurable es demo_snapshot_ok demo_injective)
    as (es' & resp & evs & oks & E & Hj & Hcode).
  - intros i. split; [done|lia].
  - done.
  - done.
  - apply demo_wire.
  - vm_compute. lia.
  - vm_compute. reflexivity.
  - apply demo_seen.
  - exists es', resp, evs. split; [exact E|]. rewrite Hcode.
    assert (exists c cs, withoutExempt demo_server (rl_Domain demo_incurable) (engineRequests demo_incurable) = c :: cs /\
      forall lv, spec_admitted (request_buckets (H := demo_platform) demo_snapshot (ck_Request c)) lv = false) as (c & cs & Ec & Hc).
    { eexists _, _. split; [vm_compute; reflexivity|]. intros lv. vm_compute. reflexivity. }
    rewrite Ec in Hj. inversion Hj; subst. cbn [forallb]. by rewrite Hc.
Qed.

(** The hint of a check of several descriptors can promise a cure
    there is none for. The strictest refusal is the one with the longest
    wait, and a refusal no waiting cures has the wait -1, so it loses to any
    other: the check below carries retry-after: 1, and is refused at every
    later instant. *)
Theorem rls_incurable_hint :
  (exists es' evs headers,
     demo_rls (fun _ => 0) demo_incurable demo_es1 = (es', Some (Answer (mkResponse CodeOverLimit headers)), evs) /\
     ("retry-after", "1") ∈ headers) /\
  forall dt, 0 <= dt -> time_ok dt ->
    exists es' resp evs, demo_rls (fun _ => dt) demo_incurable demo_es1 = (es', Some (Answer resp), evs) /\
      rp_OverallCode resp = CodeOverLimit.
Proof.
  split.
  - assert ((demo_rls (fun _ => 0) demo_incurable demo_es1).1.2 =
      Some (Answer (mkResponse CodeOverLimit [("x-ratelimit-limit", "2"); ("x-ratelimit-remaining", "0");
        ("x-ratelimit-reset", "1"); ("retry-after", "1")]))) as E by (vm_compute; reflexivity).
    destruct (demo_rls (fun _ => 0) demo_incurable demo_es1) as [[es' r] evs]. cbn in E. subst r.
    eexists es', evs, _. split; [reflexivity|]. set_solver.
  - intros dt Hdt Ht. apply demo_never_admitted; [done|done| |exact (proj2 demo_es1_ok)].
    eapply (inv_mono (CounterStore := memory_store key_kind)); [exact (proj1 demo_es1_ok)|done].
Qed.
