(* ===== verification/Manifest.v ===== *)
(** * api/manifest: the configuration the operator writes and the service reads

    The encoders and the strict decoders over the JSON, gzip and hash
    libraries, which are parameters. *)
From S2P Require Import Prelude GoStrings Identity Convert OpPolicy Selector.

(** ** Definitions *)

Definition FormatVersion : Z := 1.

Definition SupportedVersions : list Z :=
  if FormatVersion >? 1 then [FormatVersion - 1; FormatVersion] else [FormatVersion].

Definition supported (version : Z) : bool := bool_decide (version ∈ SupportedVersions).

(** The manifest as JSON holds it; a null or absent map is [None]. *)
Record WireManifest := mkWireManifest {
  wm_FormatVersion : Z;
  wm_OperatorVersion : string;
  wm_Domains : option (gmap string ManifestDomain) }.

#[export] Instance WireManifest_eq_dec : EqDecision WireManifest.
Proof. solve_decision. Defined.

(** What a gzip stream yields before it ends, and whether it ends well. *)
Record gzip_stream := mkStream { gz_bytes : string; gz_ok : bool }.

(** encoding/json, sigs.k8s.io/json and compress/gzip. A strict decoder
    returns the fields it does not know beside the value. *)
Class Wire := {
  marshal_manifest : WireManifest -> option string;
  unmarshal_version : string -> option (option Z);
  unmarshal_manifest : string -> option (WireManifest * list string);
  marshal_spec : RateLimitPolicySpec -> option string;
  unmarshal_spec : string -> option (RateLimitPolicySpec * list string);
  gzip : string -> string;
  gunzip : string -> option gzip_stream }.

Inductive ManifestError :=
| ErrUnsupportedFormat (version : Z)
| ErrMalformed (reasons : list string).

Definition PayloadKey (domain : string) : string := domain +:+ ".json.gz".

Definition MaxPayloadSize : Z := Z.shiftl 8 20.

(** [unmarshalStrict] over what the decoder returned. *)
Definition unmarshalStrict {A} (r : option (A * list string)) : result ManifestError A :=
  match r with
  | None => Err (ErrMalformed [])
  | Some (v, []) => Ok v
  | Some (_, strict) => Err (ErrMalformed (sort_strings strict))
  end.

Section wire.
Context {PL : Platform} {WI : Wire}.

Definition Encode (m : Manifest) : option string :=
  marshal_manifest (mkWireManifest FormatVersion (mf_OperatorVersion m) (Some (mf_Domains m))).

(** The manifest and its format version. *)
Definition Decode (data : string) : result ManifestError (Manifest * Z) :=
  match unmarshal_version data with
  | None => Err (ErrMalformed [])
  | Some None => Err (ErrMalformed [])
  | Some (Some version) =>
      if negb (supported version) then Err (ErrUnsupportedFormat version)
      else
        let? m := unmarshalStrict (unmarshal_manifest data) in
        match wm_Domains m with
        | None => Err (ErrMalformed [])
        | Some domains => Ok (mkManifest (wm_OperatorVersion m) domains, wm_FormatVersion m)
        end
  end.

Definition Hash (raw : string) : string := "sha256:" +:+ hex_encode (Sum256 raw).

Definition encode_payload (spec : RateLimitPolicySpec) : option (string * string) :=
  raw ← marshal_spec spec;
  Some (gzip raw, Hash raw).

(** [io.ReadAll] of a [LimitReader]: an error of the stream beyond the limit is
    never met. *)
Definition read_limited (limit : Z) (s : gzip_stream) : option string :=
  if limit <=? len (gz_bytes s) then Some (take_str (Z.to_nat limit) (gz_bytes s))
  else if gz_ok s then Some (gz_bytes s) else None.

Definition DecodePayload (compressed : string) : result ManifestError (RateLimitPolicySpec * string) :=
  match gunzip compressed with
  | None => Err (ErrMalformed [])
  | Some zr =>
      match read_limited (MaxPayloadSize + 1) zr with
      | None => Err (ErrMalformed [])
      | Some raw =>
          if len raw >? MaxPayloadSize then Err (ErrMalformed [])
          else
            let? spec := unmarshalStrict (unmarshal_spec raw) in
            Ok (spec, Hash raw)
      end
  end.

(** The encoders the operator renders with. *)
#[export] Instance manifest_codec : Codec := {| EncodePayload := encode_payload; EncodeManifest := Encode |}.

(** *** operator/internal/policy/state.go: a bundle persisted *)

Definition MaxBundleSize : Z := 900 * 1024.

Inductive BundleError := BundleMarshal | ErrBundleOverflow (size : Z) | BundleRead | BundleDecode.

(** encoding/json of a bundle is the two arguments. *)
Definition EncodeBundle (marshal : Bundle -> option string) (bundle : Bundle) : result BundleError string :=
  match marshal bundle with
  | None => Err BundleMarshal
  | Some plain =>
      let compressed := gzip plain in
      if len compressed >? MaxBundleSize then Err (ErrBundleOverflow (len compressed)) else Ok compressed
  end.

Definition DecodeBundle (unmarshal : string -> option Bundle) (data : string) : result BundleError Bundle :=
  match gunzip data with
  | None => Err BundleRead
  | Some reader =>
      match read_limited (16 * MaxBundleSize) reader with
      | None => Err BundleRead
      | Some plain => match unmarshal plain with None => Err BundleDecode | Some bundle => Ok bundle end
      end
  end.

(** *** What the libraries promise *)

(** The JSON of a spec reads back as the spec, known fields only, and is no
    longer than the decoder reads. *)
Definition spec_travels (spec : RateLimitPolicySpec) : Prop :=
  exists raw, marshal_spec spec = Some raw /\ unmarshal_spec raw = Some (spec, []) /\ len raw <= MaxPayloadSize.

(** The JSON of a manifest of this format reads back as that manifest. *)
Definition manifest_travels (m : Manifest) : Prop :=
  exists raw, marshal_manifest (mkWireManifest FormatVersion (mf_OperatorVersion m) (Some (mf_Domains m))) = Some raw /\
    unmarshal_version raw = Some (Some FormatVersion) /\
    unmarshal_manifest raw = Some (mkWireManifest FormatVersion (mf_OperatorVersion m) (Some (mf_Domains m)), []).

(** A compressed string decompresses to itself. *)
Definition gzip_lossless : Prop := forall s, gunzip (gzip s) = Some (mkStream s true).

(** ** Lemmas *)

Lemma decode_encode m : manifest_travels m -> exists raw, Encode m = Some raw /\ Decode raw = Ok (m, FormatVersion).
Proof.
  intros (raw & H1 & H2 & H3). exists raw. split; [done|]. unfold Decode. rewrite H2, H3. by destruct m.
Qed.

Lemma decode_payload spec :
  gzip_lossless -> spec_travels spec ->
  exists compressed hash, encode_payload spec = Some (compressed, hash) /\
    DecodePayload compressed = Ok (spec, hash) /\ hash <> "".
Proof.
  intros Hz (raw & H1 & H2 & H3). unfold encode_payload. rewrite H1. cbn [mbind option_bind].
  exists (gzip raw), (Hash raw). split; [done|]. split; [|done]. unfold DecodePayload, read_limited.
  rewrite Hz. cbn [gz_bytes gz_ok]. destruct (Z.leb_spec (MaxPayloadSize + 1) (len raw)); [lia|].
  rewrite Z.gtb_ltb, (proj2 (Z.ltb_ge _ _)) by lia. by rewrite H2.
Qed.

Lemma take_str_all s : take_str (String.length s) s = s.
Proof. unfold take_str. induction s as [|c s IH]; [done|]. cbn. f_equal. exact IH. Qed.

(** A bundle that was persisted reads back as long as its text is no longer
    than the reader takes; one too large is refused, never cut. *)
Lemma bundle_roundtrip marshal unmarshal b :
  gzip_lossless -> (forall plain, marshal b = Some plain -> unmarshal plain = Some b) ->
  match EncodeBundle marshal b with
  | Ok data =>
      len data <= MaxBundleSize /\
      forall plain, marshal b = Some plain -> len plain <= 16 * MaxBundleSize -> DecodeBundle unmarshal data = Ok b
  | Err e => marshal b = None \/ exists size, e = ErrBundleOverflow size /\ MaxBundleSize < size
  end.
Proof.
  intros Hz Hj. unfold EncodeBundle. destruct (marshal b) as [plain|] eqn:Em; [|by left].
  destruct (Z.gtb_spec (len (gzip plain)) MaxBundleSize); [right; by eexists|]. split; [done|].
  intros ? [= <-] Hl. unfold DecodeBundle, read_limited. rewrite Hz. cbn [gz_bytes gz_ok].
  specialize (Hj plain eq_refl). destruct (Z.leb_spec (16 * MaxBundleSize) (len plain)) as [Hle|]; [|by rewrite Hj].
  assert (take_str (Z.to_nat (16 * MaxBundleSize)) plain = plain) as ->; [|by rewrite Hj].
  replace (Z.to_nat (16 * MaxBundleSize)) with (String.length plain) by (unfold len in *; lia). apply take_str_all.
Qed.

End wire.

(** ** Examples *)

(** Libraries that name the values of one example: the identity as gzip. *)
Section demo.
Context (specs : list (string * RateLimitPolicySpec)) (manifests : list (string * WireManifest)).

Definition demo_wire_text : Wire := {|
  marshal_manifest m := fst <$> find_first (fun x => bool_decide (x.2 = m)) manifests;
  unmarshal_version data := if bool_decide (data = "v9") then Some (Some 9) else
    (fun x => Some (wm_FormatVersion x.2)) <$> find_first (fun x => bool_decide (x.1 = data)) manifests;
  unmarshal_manifest data := (fun x => (x.2, [])) <$> find_first (fun x => bool_decide (x.1 = data)) manifests;
  marshal_spec s := fst <$> find_first (fun x => bool_decide (x.2 = s)) specs;
  unmarshal_spec data := (fun x => (x.2, [])) <$> find_first (fun x => bool_decide (x.1 = data)) specs;
  gzip s := s;
  gunzip s := Some (mkStream s true) |}.
End demo.

Definition demo_bare : RateLimitPolicySpec := bare_spec "gw".
Definition demo_manifest : Manifest := mkManifest "1.0" {["gw" := mkManifestDomain 3 "u1" "h"]}.
Definition demo_json : Wire :=
  demo_wire_text [("{spec}", demo_bare)] [("{manifest}", mkWireManifest 1 "1.0" (Some (mf_Domains demo_manifest)))].

(** The codec's hypotheses hold of these. *)
Lemma demo_spec_travels : spec_travels (WI := demo_json) demo_bare.
Proof. exists "{spec}". split_and!; [by vm_compute|by vm_compute|by_decide]. Qed.

Lemma demo_manifest_travels : manifest_travels (WI := demo_json) demo_manifest.
Proof. exists "{manifest}". by split_and!; vm_compute. Qed.
