(* ===== verification/ConfigStore.v ===== *)
(** * operator/internal/config: the writer of the configuration

    The one ConfigMap of the namespace: read as the last-good state, compiled
    against, and written back whole. The API server is the object it holds and
    whether it answers. *)
From S2P Require Import Prelude GoStrings Compile MatchSpec Identity Convert OpPolicy Selector Manifest.

(** ** Definitions *)

(** api/contract *)
Definition ManifestKey : string := "manifest".

Record OwnerReference := mkOwner {
  ow_APIVersion : string;
  ow_Kind : string;
  ow_Name : string;
  ow_UID : string;
  ow_Controller : option bool;
  ow_BlockOwnerDeletion : option bool }.

#[export] Instance OwnerReference_eq_dec : EqDecision OwnerReference.
Proof. solve_decision. Defined.

Record ConfigMap := mkConfigMap {
  cf_Labels : gmap string string;
  cf_OwnerReferences : list OwnerReference;
  cf_Data : gmap string string;
  cf_BinaryData : gmap string string }.

Record ConfigStore := mkConfigStore {
  cs_labels : gmap string string;
  cs_owner : option OwnerReference;
  cs_version : string }.

Definition New_store (labels : gmap string string) (version : string) : ConfigStore := mkConfigStore labels None version.

Definition SetOwner (s : ConfigStore) (name uid apiVersion kind : string) : ConfigStore :=
  mkConfigStore (cs_labels s) (Some (mkOwner apiVersion kind name uid None None)) (cs_version s).

(** [AdoptDeployment]: [None] is a Deployment the operator cannot read. *)
Definition AdoptDeployment (s : ConfigStore) (deployment : option (string * string)) : ConfigStore * bool :=
  match deployment with
  | None => (s, false)
  | Some (name, uid) => (SetOwner s name uid "apps/v1" "Deployment", true)
  end.

Inductive StoreFailure :=
| FailRead
| FailEncode
| FailTooLarge (size limit : Z)
| FailCreate
| FailUpdate.

(** The requests of one pass the API server fails. *)
Record faults := mkFaults { ft_get : bool; ft_write : bool }.
Definition no_faults : faults := mkFaults false false.

Section store.
Context {PL : Platform} {WI : Wire}.

(** The loop of [Load] over the domains; unreadable payloads are skipped. *)
Fixpoint load_loop (m : Manifest) (object : ConfigMap) (domains : list string) (bundles : gmap string Bundle)
    : gmap string Bundle :=
  match domains with
  | [] => bundles
  | domain :: domains =>
      load_loop m object domains
        (match mf_Domains m !! domain with
         | None => bundles
         | Some entry =>
             match cf_BinaryData object !! PayloadKey domain with
             | None => bundles
             | Some raw =>
                 match DecodePayload raw with
                 | Err _ => bundles
                 | Ok (spec, hash) =>
                     if bool_decide (hash = md_Hash entry)
                     then <[domain := mkBundle (md_UID entry) (md_Generation entry) spec]> bundles
                     else bundles
                 end
             end
         end)
  end.

(** [object.Data[key]] of an absent key is the empty string. *)
Definition Load (fail : bool) (object : option ConfigMap) (domains : list string)
    : result StoreFailure (gmap string Bundle) :=
  if fail then Err FailRead
  else match object with
       | None => Ok ∅
       | Some object =>
           match Decode (default "" (cf_Data object !! ManifestKey)) with
           | Err _ => Ok ∅
           | Ok (m, _) => Ok (load_loop m object domains ∅)
           end
       end.

Definition render (s : ConfigStore) (state : gmap string Bundle) (limit : Z)
    : result StoreFailure (gmap string string * gmap string string) :=
  match Render state (cs_version s) with
  | None => Err FailEncode
  | Some rendered =>
      if rd_Size rendered >? limit then Err (FailTooLarge (rd_Size rendered) limit)
      else Ok ({[ManifestKey := rd_Manifest rendered]}, kmap PayloadKey (rd_Payloads rendered))
  end.

Definition written (s : ConfigStore) (existing : ConfigMap) (data binaryData : gmap string string) : bool :=
  match cs_owner s with
  | Some o => bool_decide (cf_OwnerReferences existing = [o])
  | None => true
  end && bool_decide (cf_Labels existing = cs_labels s) && bool_decide (cf_Data existing = data)
  && bool_decide (cf_BinaryData existing = binaryData).

Definition owners (s : ConfigStore) : list OwnerReference := match cs_owner s with Some o => [o] | None => [] end.

(** The object afterwards and what the call returns; [None] is a panic. *)
Definition Save (s : ConfigStore) (state : gmap string Bundle) (limit : Z) (f : faults) (object : option ConfigMap)
    : option (option ConfigMap * result StoreFailure unit) :=
  if limit <=? 0 then None
  else Some match render s state limit with
    | Err e => (object, Err e)
    | Ok (data, binaryData) =>
        if ft_get f then (object, Err FailRead)
        else match object with
        | None =>
            if ft_write f then (object, Err FailCreate)
            else (Some (mkConfigMap (cs_labels s) (owners s) data binaryData), Ok tt)
        | Some existing =>
            if written s existing data binaryData then (object, Ok tt)
            else if ft_write f then (object, Err FailUpdate)
            else (Some (mkConfigMap (cs_labels s)
                          (match cs_owner s with Some o => [o] | None => cf_OwnerReferences existing end)
                          data binaryData), Ok tt)
        end
    end.

(** *** reconciler.go *)

Definition limit_of (Limit : Z) : Z := if Limit >? 0 then Limit else ConfigMapLimit.

(** The policies whose saved last-good generation a pass dropped. *)
Definition lostLastGood (inp : Input) (r : Result) : list (string * Lost) :=
  omap (fun o => match rs_Policies r !! ObjectKeyFromObject o with
                 | Some outcome => (fun l => (sp_Domain (o_Spec o), l)) <$> oc_LastGoodLost outcome
                 | None => None
                 end) (in_Policies inp).

(** One reconcile over the policies it read ([None]: they could not be read).
    The two reads of the object fail on their own. *)
Definition Reconcile (s : ConfigStore) (Limit : Z) (policies : option Input) (load_fails : bool) (f : faults)
    (object : option ConfigMap) : option (option ConfigMap * result StoreFailure (list (string * Lost))) :=
  match policies with
  | None => Some (object, Err FailRead)
  | Some inp =>
      match Load load_fails object (Domains inp) with
      | Err e => Some (object, Err e)
      | Ok state =>
          let inp := mkInput (in_Namespace inp) (in_Policies inp) (in_Skew inp) state (cs_version s) in
          result ← policy_Compile inp;
          result ← Fit inp result (limit_of Limit);
          '(object, r) ← Save s (rs_State result) (limit_of Limit) f object;
          Some (object, match r with
                        | Err e => Err e
                        | Ok tt => Ok (lostLastGood inp result)
                        end)
      end
  end.

(** ** What a rendered state holds *)

#[export] Instance PayloadKey_inj : Inj (=) (=) PayloadKey.
Proof. intros d1 d2. unfold PayloadKey. apply app_str_inj_r. Qed.

(** The bundles a render keeps. *)
Definition kept (b : Bundle) : bool := negb (bool_decide (bu_UID b = "")).

(** A rendered object mirrors the state: one payload and one entry per kept
    bundle, and nothing else. *)
Definition mirrors (state : gmap string Bundle) (payloads : gmap string string) (entries : gmap string ManifestDomain) : Prop :=
  forall d,
    match state !! d with
    | Some b =>
        if kept b then
          exists compressed hash, encode_payload (bu_GoodSpec b) = Some (compressed, hash) /\
            payloads !! d = Some compressed /\ entries !! d = Some (mkManifestDomain (bu_GoodGeneration b) (bu_UID b) hash)
        else payloads !! d = None /\ entries !! d = None
    | None => payloads !! d = None /\ entries !! d = None
    end.

Lemma render_loop_spec l payloads size entries payloads' size' entries' :
  NoDup l.*1 -> render_loop l payloads size entries = Some (payloads', size', entries') ->
  forall d,
    (d ∉ l.*1 -> payloads' !! d = payloads !! d /\ entries' !! d = entries !! d) /\
    (forall b, (d, b) ∈ l ->
       if kept b then
         exists compressed hash, encode_payload (bu_GoodSpec b) = Some (compressed, hash) /\
           payloads' !! d = Some compressed /\ entries' !! d = Some (mkManifestDomain (bu_GoodGeneration b) (bu_UID b) hash)
       else payloads' !! d = payloads !! d /\ entries' !! d = entries !! d).
Proof.
  revert payloads size entries. induction l as [|[d0 b0] l IH]; intros payloads size entries Hnd; cbn [render_loop].
  { intros [= -> _ ->] d. split; [done|]. by intros b ?%elem_of_nil. }
  rewrite fmap_cons in Hnd. apply NoDup_cons in Hnd as [Hn Hnd]. cbn [fst] in Hn.
  assert (forall d b, (d, b) ∈ l -> d ∈ l.*1) as Hfst by (intros d b ?; by apply list_elem_of_fmap; exists (d, b)).
  destruct (decide (bu_UID b0 = "")) as [Hu|Hu].
  - rewrite bool_decide_true by done. intros H d. destruct (IH _ _ _ Hnd H d) as [IH1 IH2].
    rewrite fmap_cons, not_elem_of_cons. split; [by intros [_ ?]; apply IH1|]. intros b [[= -> ->]|Hin]%elem_of_cons.
    + unfold kept. rewrite bool_decide_true by done. by apply IH1.
    + by apply IH2.
  - rewrite bool_decide_false by done. change (EncodePayload (bu_GoodSpec b0)) with (encode_payload (bu_GoodSpec b0)).
    destruct (encode_payload (bu_GoodSpec b0)) as [[compressed hash]|] eqn:E; [|done]. cbn [mbind option_bind].
    intros H d. destruct (IH _ _ _ Hnd H d) as [IH1 IH2]. rewrite fmap_cons, not_elem_of_cons. cbn [fst]. split.
    + intros [Hne Hd]. destruct (IH1 Hd) as [-> ->]. by rewrite !lookup_insert_ne by congruence.
    + intros b [[= -> ->]|Hin]%elem_of_cons.
      * unfold kept. rewrite bool_decide_false by done. destruct (IH1 Hn) as [-> ->].
        rewrite !lookup_insert_eq. cbn [negb]. by exists compressed, hash.
      * specialize (IH2 b Hin). assert (d <> d0) by (intros ->; by apply Hn, (Hfst _ b)).
        destruct (kept b); [done|]. destruct IH2 as [-> ->]. by rewrite !lookup_insert_ne by congruence.
Qed.

Lemma Render_mirrors state version rd :
  Render state version = Some rd ->
  exists entries, mirrors state (rd_Payloads rd) entries /\
    Encode (mkManifest version entries) = Some (rd_Manifest rd).
Proof.
  unfold Render. destruct (render_loop _ _ _ _) as [[[payloads size] entries]|] eqn:E; [|done]. cbn [mbind option_bind].
  change (EncodeManifest (mkManifest version entries)) with (Encode (mkManifest version entries)).
  destruct (Encode (mkManifest version entries)) as [encoded|] eqn:Ee; [|done]. intros [= <-]. cbn.
  exists entries. split; [|done]. intros d.
  destruct (render_loop_spec _ _ _ _ _ _ _ (NoDup_fst_map_to_list _) E d) as [H1 H2].
  destruct (state !! d) as [b|] eqn:Ed.
  - apply elem_of_map_to_list in Ed. specialize (H2 b Ed). destruct (kept b); [done|]. by rewrite !lookup_empty in H2.
  - rewrite !lookup_empty in H1. apply H1. intros ([d' b] & -> & Hin)%list_elem_of_fmap.
    apply elem_of_map_to_list in Hin. cbn in Ed. congruence.
Qed.

(** What a successful save leaves in the object, an identical write
    included. *)
Lemma Save_written s state limit f object object' :
  Save s state limit f object = Some (object', Ok tt) ->
  exists cm rd, object' = Some cm /\ Render state (cs_version s) = Some rd /\ rd_Size rd <= limit /\
    cf_Data cm = {[ManifestKey := rd_Manifest rd]} /\ cf_BinaryData cm = kmap PayloadKey (rd_Payloads rd).
Proof.
  unfold Save. destruct (limit <=? 0); [done|]. unfold render.
  destruct (Render state (cs_version s)) as [rd|] eqn:Er; [|done].
  rewrite Z.gtb_ltb. destruct (Z.ltb_spec limit (rd_Size rd)) as [|Hle]; [done|].
  destruct (ft_get f); [done|]. destruct object as [cm|].
  - destruct (written s cm _ _) eqn:Ew; [|destruct (ft_write f); [done|]]; intros [= <-].
    + unfold written in Ew. bools. exists cm, rd. by split_and!.
    + eexists _, rd. by split_and!.
  - destruct (ft_write f); [done|]. intros [= <-]. eexists _, rd. by split_and!.
Qed.

(** The specs of a state travel, and so does the manifest over them. *)
Definition state_travels (version : string) (state : gmap string Bundle) : Prop :=
  gzip_lossless /\
  (forall d b, state !! d = Some b -> kept b = true -> spec_travels (bu_GoodSpec b)) /\
  (forall payloads entries, mirrors state payloads entries -> manifest_travels (mkManifest version entries)).

(** What a reader of a saved object finds. *)
Lemma saved_object s state limit f object object' :
  Save s state limit f object = Some (object', Ok tt) -> state_travels (cs_version s) state ->
  exists cm entries raw, object' = Some cm /\ cf_Data cm = {[ManifestKey := raw]} /\
    Decode raw = Ok (mkManifest (cs_version s) entries, FormatVersion) /\
    forall d, match state !! d with
      | Some b =>
          if kept b then exists compressed hash,
            encode_payload (bu_GoodSpec b) = Some (compressed, hash) /\
            cf_BinaryData cm !! PayloadKey d = Some compressed /\ DecodePayload compressed = Ok (bu_GoodSpec b, hash) /\
            hash <> "" /\ entries !! d = Some (mkManifestDomain (bu_GoodGeneration b) (bu_UID b) hash)
          else entries !! d = None
      | None => entries !! d = None
      end.
Proof.
  intros Hs (Hz & Hspec & Hman). destruct (Save_written _ _ _ _ _ _ Hs) as (cm & rd & -> & Hr & _ & Hd & Hb).
  destruct (Render_mirrors _ _ _ Hr) as (entries & Hm & He).
  destruct (decode_encode _ (Hman _ _ Hm)) as (raw & He' & Hdec). rewrite He in He'. injection He' as <-.
  exists cm, entries, (rd_Manifest rd). split_and!; [done|done|done|]. intros d. specialize (Hm d).
  destruct (state !! d) as [b|] eqn:Ed; [|tauto]. destruct (kept b) eqn:Ek; [|tauto].
  destruct Hm as (c & h & Henc & Hp & Hent).
  destruct (decode_payload (bu_GoodSpec b) Hz (Hspec d b Ed Ek)) as (c' & h' & Henc' & Hdp & Hne).
  rewrite Henc in Henc'. injection Henc' as <- <-. exists c, h. split_and!; try done.
  rewrite Hb, (lookup_kmap PayloadKey). exact Hp.
Qed.

Lemma load_loop_spec m cm domains bundles d :
  load_loop m cm domains bundles !! d =
    if bool_decide (d ∈ domains) then load_loop m cm [d] bundles !! d else bundles !! d.
Proof.
  revert bundles. induction domains as [|d0 domains IH]; intros bundles.
  { by rewrite bool_decide_false by apply not_elem_of_nil. }
  change (load_loop m cm (d0 :: domains) bundles) with (load_loop m cm domains (load_loop m cm [d0] bundles)).
  rewrite IH. destruct (decide (d = d0)) as [->|Hne].
  - rewrite (bool_decide_true (d0 ∈ d0 :: domains)) by left. case_bool_decide; [|done].
    cbn [load_loop]. repeat (case_match; rewrite ?lookup_insert_eq; try done).
  - assert (forall bs, load_loop m cm [d0] bs !! d = bs !! d) as Hother.
    { intros bs. cbn [load_loop]. repeat (case_match; try done). all: by rewrite lookup_insert_ne by congruence. }
    destruct (decide (d ∈ domains)) as [Hin|Hin].
    + rewrite !bool_decide_true by (done || by right). cbn [load_loop] in *.
      repeat (case_match; rewrite ?lookup_insert_eq, ?Hother; try done).
    + rewrite !bool_decide_false by (rewrite ?not_elem_of_cons; done). apply Hother.
Qed.

End store.
