(* ===== verification/SvcConfig.v ===== *)
(** * service/internal/store and service/internal/config: what a replica enforces

    The rule set the server reads, the reader of the mounted directory, the
    applier that turns a reading into a rule set and the watcher that decides
    which readings reach it. An engine is its identity: which domain keeps
    the engine it had. Series and log lines are left out. *)
From S2P Require Import Prelude GoStrings Compile CompileFacts MatchSpec Identity Convert OpPolicy Selector Manifest ConfigStore.

(** ** Definitions *)

(** *** store.go *)

Record RefusalReport := mkRefusalReport { rr_FormatVersion : Z; rr_Reason : string }.

Record SvcDomain := mkSvcDomain {
  sd_Engine : nat;
  sd_Snapshot : Snapshot;
  sd_Version : string;
  sd_Generation : Z;
  sd_UID : string;
  sd_AppliedAt : Z }.

(** The zero time is [None]. *)
Record RuleSet := mkRuleSet {
  rset_domains : gmap string SvcDomain;
  rset_swappedAt : option Z;
  rset_refusal : option RefusalReport }.

Definition NewRuleSet (domains : gmap string SvcDomain) : RuleSet := mkRuleSet domains None None.

Definition Domain_of (r : RuleSet) (domain : string) : option SvcDomain := rset_domains r !! domain.
Definition Engine_of (r : RuleSet) (domain : string) : option nat := sd_Engine <$> rset_domains r !! domain.
Definition Snapshot_of (r : RuleSet) (domain : string) : option Snapshot := sd_Snapshot <$> rset_domains r !! domain.
Definition Version_of (r : RuleSet) (domain : string) : string := default "" (sd_Version <$> rset_domains r !! domain).
Definition Domains_of (r : RuleSet) : list string := sort_strings (elements (dom (rset_domains r))).
Definition Has (r : RuleSet) (domain : string) : bool := bool_decide (is_Some (Engine_of r domain)).
Definition Len (r : RuleSet) : nat := size (rset_domains r).

(** A store is the set its pointer holds. *)
Definition New_ruleStore : RuleSet := NewRuleSet ∅.

Definition Replace (rs : option RuleSet) (now : Z) : RuleSet :=
  mkRuleSet (match rs with Some r => rset_domains r | None => ∅ end) (Some now) None.

Definition Refuse_set (refusal : RefusalReport) (current : RuleSet) : RuleSet :=
  mkRuleSet (rset_domains current) (rset_swappedAt current) (Some refusal).

(** *** read.go *)

(** What [os.ReadFile] answers for a name in the mounted directory. *)
Inductive file := FileAbsent | FileUnreadable | FileBytes (s : string).
Definition directory : Type := string -> file.

Inductive refusal_reason :=
| BadManifest (e : ManifestError)
| PayloadUnread (domain : string)
| BadPayload (domain : string) (e : ManifestError)
| HashMismatch (domain hash expected : string)
| WrongDomain (domain payload : string).

Record ConfigRefusal := mkConfigRefusal { cr_FormatVersion : Z; cr_Err : refusal_reason; cr_raw : string }.

Inductive read_error :=
| ErrAbsent
| ErrRead
| ErrRefused (r : ConfigRefusal).

Record Configuration := mkConfiguration {
  co_Manifest : Manifest;
  co_Specs : gmap string RateLimitPolicySpec;
  co_Raw : string }.

Definition sortedDomains (m : Manifest) : list string := sort_strings (elements (dom (mf_Domains m))).

Section service.
Context {PL : Platform} {WI : Wire}.

(** ruleview's [Version]: the digest of a rendered snapshot. *)
Context (SnapshotVersion : Snapshot -> string) (reason_text : refusal_reason -> string).

Definition declaredVersion (raw : string) : Z :=
  match unmarshal_version raw with Some (Some v) => v | _ => 0 end.

(** The payload of one domain. *)
Definition read_payload (dir : directory) (domain : string) (entry : ManifestDomain)
    : result refusal_reason RateLimitPolicySpec :=
  match dir (PayloadKey domain) with
  | FileBytes compressed =>
      match DecodePayload compressed with
      | Err e => Err (BadPayload domain e)
      | Ok (spec, hash) =>
          if negb (bool_decide (hash = md_Hash entry)) then Err (HashMismatch domain hash (md_Hash entry))
          else if negb (bool_decide (sp_Domain spec = domain)) then Err (WrongDomain domain (sp_Domain spec))
          else Ok spec
      end
  | _ => Err (PayloadUnread domain)
  end.

(** [m.Domains[domain]] of a domain the manifest names. *)
Definition entry_at (m : Manifest) (domain : string) : ManifestDomain :=
  default (mkManifestDomain 0 "" "") (mf_Domains m !! domain).

Fixpoint read_loop (dir : directory) (m : Manifest) (domains : list string) (specs : gmap string RateLimitPolicySpec)
    : result refusal_reason (gmap string RateLimitPolicySpec) :=
  match domains with
  | [] => Ok specs
  | domain :: domains =>
      let? spec := read_payload dir domain (entry_at m domain) in
      read_loop dir m domains (<[domain := spec]> specs)
  end.

Definition Read (dir : directory) : result read_error Configuration :=
  match dir ManifestKey with
  | FileAbsent => Err ErrAbsent
  | FileUnreadable => Err ErrRead
  | FileBytes raw =>
      match Decode raw with
      | Err e => Err (ErrRefused (mkConfigRefusal (declaredVersion raw) (BadManifest e) raw))
      | Ok (m, version) =>
          match read_loop dir m (sortedDomains m) ∅ with
          | Err e => Err (ErrRefused (mkConfigRefusal version e raw))
          | Ok specs => Ok (mkConfiguration m specs raw)
          end
      end
  end.

(** *** apply.go *)

Record Applier := mkApplier {
  ap_Store : RuleSet;
  ap_domains : gmap string SvcDomain;
  ap_hashes : gmap string string;
  ap_ready : bool;
  ap_absent : bool;
  ap_engines : nat }.

Definition NewApplier : Applier := mkApplier New_ruleStore ∅ ∅ false false 0.

Definition Ready (a : Applier) : bool := ap_ready a.

Definition SetAbsent (absent : bool) (a : Applier) : Applier :=
  mkApplier (ap_Store a) (ap_domains a) (ap_hashes a) (ap_ready a) absent (ap_engines a).

(** [build]: a new engine over the snapshot; the facts of the apply are set
    by the caller. *)
Definition build (engine : nat) (snapshot : Snapshot) : SvcDomain :=
  mkSvcDomain engine snapshot (SnapshotVersion snapshot) 0 "" 0.

(** One domain of a reading: the domain, the hash recorded for it and the next
    engine. [None] is a panic of the compiler. *)
Definition apply_domain (ns domain : string) (entry : ManifestDomain) (spec : RateLimitPolicySpec)
    (previous : option (SvcDomain * string)) (now : Z) (engines : nat) : option (SvcDomain * string * nat) :=
  let stamp (built : SvcDomain) (generation : Z) (uid : string) :=
    mkSvcDomain (sd_Engine built) (sd_Snapshot built) (sd_Version built) generation uid now in
  match previous with
  | Some (built, hash) =>
      if bool_decide (hash = md_Hash entry)
      then Some (stamp built (md_Generation entry) (md_UID entry), md_Hash entry, engines)
      else
        '(snapshot, problems) ← Compile ns domain (Some (convert_Policy spec));
        if negb (blocking problems)
        then Some (stamp (build engines snapshot) (md_Generation entry) (md_UID entry), md_Hash entry, S engines)
        else if negb (bool_decide (hash = ""))
        then Some (stamp built (sd_Generation built) (sd_UID built), hash, engines)
        else
          '(bare, _) ← Compile ns domain (Some (convert_Policy (bare_spec domain)));
          Some (stamp (build engines bare) 0 (md_UID entry), "", S engines)
  | None =>
      '(snapshot, problems) ← Compile ns domain (Some (convert_Policy spec));
      if negb (blocking problems)
      then Some (stamp (build engines snapshot) (md_Generation entry) (md_UID entry), md_Hash entry, S engines)
      else
        '(bare, _) ← Compile ns domain (Some (convert_Policy (bare_spec domain)));
        Some (stamp (build engines bare) 0 (md_UID entry), "", S engines)
  end.

(** [a.domains[domain]] with the hash recorded beside it. *)
Definition previous_of (a : Applier) (domain : string) : option (SvcDomain * string) :=
  (fun d => (d, default "" (ap_hashes a !! domain))) <$> ap_domains a !! domain.

Fixpoint apply_loop (ns : string) (cfg : Configuration) (a : Applier) (now : Z) (names : list string)
    (domains : gmap string SvcDomain) (hashes : gmap string string) (engines : nat)
    : option (gmap string SvcDomain * gmap string string * nat) :=
  match names with
  | [] => Some (domains, hashes, engines)
  | domain :: names =>
      '(built, hash, engines) ← apply_domain ns domain (entry_at (co_Manifest cfg) domain)
          (default (mkSpec "" [] [] []) (co_Specs cfg !! domain)) (previous_of a domain) now engines;
      apply_loop ns cfg a now names (<[domain := built]> domains) (<[domain := hash]> hashes) engines
  end.

(** [now] is read when the apply starts, [swap] when the set is published. *)
Definition Apply (ns : string) (cfg : Configuration) (now swap : Z) (a : Applier) : option Applier :=
  '(domains, hashes, engines) ← apply_loop ns cfg a now (sortedDomains (co_Manifest cfg)) ∅ ∅ (ap_engines a);
  Some (mkApplier (Replace (Some (NewRuleSet domains)) swap) domains hashes true (ap_absent a) engines).

Definition Refuse (refusal : ConfigRefusal) (a : Applier) : Applier :=
  mkApplier (Refuse_set (mkRefusalReport (cr_FormatVersion refusal) (reason_text (cr_Err refusal))) (ap_Store a))
    (ap_domains a) (ap_hashes a) (ap_ready a) (ap_absent a) (ap_engines a).

Record AppliedDomain := mkAppliedDomain { ad_Generation : Z; ad_UID : string; ad_AppliedAt : Z }.

Record Report := mkReport {
  re_Domains : gmap string AppliedDomain;
  re_FormatVersions : list Z;
  re_Refusal : option RefusalReport;
  re_ConfigAbsent : bool }.

Definition ReportOf (set : RuleSet) (absent : bool) : Report :=
  mkReport ((fun d => mkAppliedDomain (sd_Generation d) (sd_UID d) (sd_AppliedAt d)) <$> rset_domains set)
    SupportedVersions (rset_refusal set) absent.

Definition report (a : Applier) : Report := ReportOf (ap_Store a) (ap_absent a).

(** *** watch.go *)

(** A nil slice is [None]. *)
Record Watcher := mkWatcher { wt_applied : option string; wt_refused : option string; wt_absent : bool }.

Definition NewWatcher : Watcher := mkWatcher None None false.

(** [bytes.Equal] does not tell nil from empty. *)
Definition bytes_Equal (a b : option string) : bool := bool_decide (default "" a = default "" b).

Definition present (w : Watcher) (a : Applier) : Watcher * Applier :=
  (mkWatcher (wt_applied w) (wt_refused w) false, if wt_absent w then SetAbsent false a else a).

Definition read (ns : string) (dir : directory) (now swap : Z) (w : Watcher) (a : Applier) : option (Watcher * Applier) :=
  match Read dir with
  | Err ErrAbsent =>
      if wt_absent w then Some (w, a)
      else Some (mkWatcher (wt_applied w) (wt_refused w) true, SetAbsent true a)
  | Err e =>
      let '(w, a) := present w a in
      match e with
      | ErrRefused refusal =>
          if bytes_Equal (Some (cr_raw refusal)) (wt_refused w) then Some (w, a)
          else Some (mkWatcher (wt_applied w) (Some (cr_raw refusal)) (wt_absent w), Refuse refusal a)
      | _ => Some (w, a)
      end
  | Ok cfg =>
      let '(w, a) := present w a in
      if bytes_Equal (Some (co_Raw cfg)) (wt_applied w) && bool_decide (wt_refused w = None) then Some (w, a)
      else
        a ← Apply ns cfg now swap a;
        Some (mkWatcher (Some (co_Raw cfg)) None (wt_absent w), a)
  end.

End service.

(** * The configuration from the operator to the replica

    The applier against a reference that compiles every reading anew, and the
    watcher over the readings of a directory. *)

(** ** Reference definitions *)

(** What a domain enforces: a spec that compiles, with the generation and the
    object it came from, or nothing. *)
Inductive enforced_ :=
| Good (spec : RateLimitPolicySpec) (generation : Z) (uid : string)
| Nothing (uid : string).

Definition compiled (ns d : string) (spec : RateLimitPolicySpec) : Snapshot :=
  match Compile ns d (Some (convert_Policy spec)) with
  | Some (snap, _) => snap
  | None => mkSnapshot "" [] [] [] 0
  end.

Definition compiles (ns d : string) (spec : RateLimitPolicySpec) : bool :=
  match Compile ns d (Some (convert_Policy spec)) with
  | Some (_, ps) => negb (blocking ps)
  | None => false
  end.

(** The spec a reading carries for a domain. *)
Definition spec_at (cfg : Configuration) (d : string) : RateLimitPolicySpec :=
  default (mkSpec "" [] [] []) (co_Specs cfg !! d).

(** One reading, compiled anew: the latest spec that compiles, or the one
    before it. *)
Definition last_good_step (ns d : string) (previous : option enforced_) (cfg : Configuration) : option enforced_ :=
  match mf_Domains (co_Manifest cfg) !! d with
  | None => None
  | Some e =>
      if compiles ns d (spec_at cfg d) then Some (Good (spec_at cfg d) (md_Generation e) (md_UID e))
      else match previous with
           | Some (Good s g u) => Some (Good s g u)
           | _ => Some (Nothing (md_UID e))
           end
  end.

Definition last_good (ns d : string) (cfgs : list Configuration) : option enforced_ :=
  foldl (last_good_step ns d) None cfgs.

(** The hash of a payload names its spec: no two payloads a replica reads
    collide. *)
Definition reading_hashed (spec_of : string -> RateLimitPolicySpec) (cfg : Configuration) : Prop :=
  forall d e, mf_Domains (co_Manifest cfg) !! d = Some e -> md_Hash e <> "" /\ spec_at cfg d = spec_of (md_Hash e).

Section facts.
Context {PL : Platform} {WI : Wire} (SnapshotVersion : Snapshot -> string) (ns : string).
Context (spec_of : string -> RateLimitPolicySpec).

(** A domain of the applier, with the hash recorded for it, against the
    reference. *)
Definition enforces (d : string) (x : option (SvcDomain * string)) (ref : option enforced_) : Prop :=
  match x, ref with
  | None, None => True
  | Some (sd, h), Some (Good s g u) =>
      sd_Snapshot sd = compiled ns d s /\ sd_Version sd = SnapshotVersion (compiled ns d s) /\
      sd_Generation sd = g /\ sd_UID sd = u /\ compiles ns d s = true /\ h <> "" /\ spec_of h = s
  | Some (sd, h), Some (Nothing u) =>
      sd_Snapshot sd = compiled ns d (bare_spec d) /\ sd_Version sd = SnapshotVersion (compiled ns d (bare_spec d)) /\
      sd_Generation sd = 0 /\ sd_UID sd = u /\ h = ""
  | _, _ => False
  end.

Lemma compile_cases d spec :
  exists ps, Compile ns d (Some (convert_Policy spec)) = Some (compiled ns d spec, ps) /\
    compiles ns d spec = negb (blocking ps).
Proof.
  unfold compiled, compiles. destruct (compile_defined ns d (Some (convert_Policy spec))) as (snap & ps & ->).
  by exists ps.
Qed.

Lemma apply_domain_spec d e spec previous ref now engines :
  md_Hash e <> "" -> spec = spec_of (md_Hash e) -> enforces d previous ref ->
  exists sd h engines', apply_domain SnapshotVersion ns d e spec previous now engines = Some (sd, h, engines') /\
    enforces d (Some (sd, h))
      (if compiles ns d spec then Some (Good spec (md_Generation e) (md_UID e))
       else match ref with Some (Good s g u) => Some (Good s g u) | _ => Some (Nothing (md_UID e)) end).
Proof.
  intros Hne Hspec Hp. unfold apply_domain.
  destruct (compile_cases d spec) as (ps & Hc & Hb). destruct (compile_cases d (bare_spec d)) as (psb & Hcb & _).
  destruct previous as [[built hash]|].
  - case_bool_decide as Hh.
    + do 3 eexists. split; [done|]. destruct ref as [[s g u|u]|]; [| |done].
      * destruct Hp as (H1 & H2 & H3 & H4 & H5 & H6 & H7). subst hash. rewrite <- Hspec in H7. subst s. rewrite H5. by split_and!.
      * destruct Hp as (_ & _ & _ & _ & H5). congruence.
    + rewrite Hc. cbn [mbind option_bind]. rewrite <- Hb. destruct (compiles ns d spec) eqn:E.
      * do 3 eexists. split; [done|]. by split_and!.
      * case_bool_decide as He; cbn [negb].
        -- rewrite Hcb. cbn [mbind option_bind]. do 3 eexists. split; [done|]. destruct ref as [[s g u|u]|]; [|by split_and!|done].
           destruct Hp as (_ & _ & _ & _ & _ & H6 & _). done.
        -- do 3 eexists. split; [done|]. destruct ref as [[s g u|u]|]; [| |done].
           ++ destruct Hp as (H1 & H2 & H3 & H4 & H5 & H6 & H7). by split_and!.
           ++ destruct Hp as (_ & _ & _ & _ & H5). done.
  - destruct ref as [[]|]; [done..|]. rewrite Hc. cbn [mbind option_bind]. rewrite <- Hb.
    destruct (compiles ns d spec) eqn:E.
    + do 3 eexists. split; [done|]. by split_and!.
    + rewrite Hcb. cbn [mbind option_bind]. do 3 eexists. split; [done|]. by split_and!.
Qed.

(** What an applier holds for a domain. *)
Definition held (domains : gmap string SvcDomain) (hashes : gmap string string) (d : string) : option (SvcDomain * string) :=
  match domains !! d with Some sd => Some (sd, default "" (hashes !! d)) | None => None end.

Lemma previous_held a d : previous_of a d = held (ap_domains a) (ap_hashes a) d.
Proof. unfold previous_of, held. by destruct (ap_domains a !! d). Qed.

Lemma apply_loop_spec cfg a now refs names domains hashes engines :
  reading_hashed spec_of cfg -> (forall d, enforces d (previous_of a d) (refs d)) ->
  (forall d, d ∈ names -> is_Some (mf_Domains (co_Manifest cfg) !! d)) -> NoDup names ->
  exists domains' hashes' engines',
    apply_loop SnapshotVersion ns cfg a now names domains hashes engines = Some (domains', hashes', engines') /\
    forall d, if bool_decide (d ∈ names)
      then enforces d (held domains' hashes' d) (last_good_step ns d (refs d) cfg)
      else held domains' hashes' d = held domains hashes d.
Proof.
  intros Hr Hrefs. revert domains hashes engines. induction names as [|d names IH]; intros domains hashes engines Hin Hnd.
  { do 3 eexists. split; [done|]. intros d. by rewrite bool_decide_false by apply not_elem_of_nil. }
  apply NoDup_cons in Hnd as [Hd Hnd]. cbn [apply_loop].
  destruct (Hin d (list_elem_of_here _ _)) as [e He]. destruct (Hr d e He) as [Hne Hspec].
  assert (entry_at (co_Manifest cfg) d = e) as Hent by (unfold entry_at; by rewrite He). rewrite Hent.
  change (default (mkSpec "" [] [] []) (co_Specs cfg !! d)) with (spec_at cfg d).
  destruct (apply_domain_spec d e (spec_at cfg d) (previous_of a d) (refs d) now engines Hne Hspec (Hrefs d))
    as (sd & h & engines1 & E & Henf).
  rewrite E. cbn [mbind option_bind].
  destruct (IH (<[d := sd]> domains) (<[d := h]> hashes) engines1) as (ds & hs & es & E2 & Hall);
    [intros d' ?; apply Hin; by right|done|].
  exists ds, hs, es. split; [done|]. intros d'. specialize (Hall d'). destruct (decide (d' = d)) as [->|Hdd].
  - rewrite bool_decide_true by left. rewrite bool_decide_false in Hall by done. rewrite Hall.
    unfold held. rewrite !lookup_insert_eq. cbn [default]. unfold last_good_step. rewrite He. exact Henf.
  - destruct (decide (d' ∈ names)).
    + rewrite bool_decide_true in Hall by done. by rewrite bool_decide_true by (by right).
    + rewrite bool_decide_false in Hall by done. rewrite bool_decide_false by (by rewrite not_elem_of_cons).
      rewrite Hall. unfold held. by rewrite !lookup_insert_ne by congruence.
Qed.

Lemma sortedDomains_elem m d : d ∈ sortedDomains m <-> is_Some (mf_Domains m !! d).
Proof. unfold sortedDomains. by rewrite sort_strings_Permutation, elem_of_elements, elem_of_dom. Qed.

(** The applier's view of its own set. *)
Definition coherent (a : Applier) : Prop := rset_domains (ap_Store a) = ap_domains a.

Lemma Apply_spec cfg a now swap refs :
  reading_hashed spec_of cfg -> (forall d, enforces d (previous_of a d) (refs d)) ->
  exists a', Apply SnapshotVersion ns cfg now swap a = Some a' /\
    coherent a' /\ ap_ready a' = true /\ rset_refusal (ap_Store a') = None /\ ap_absent a' = ap_absent a /\
    forall d, enforces d (previous_of a' d) (last_good_step ns d (refs d) cfg).
Proof.
  intros Hr Hrefs. unfold Apply.
  destruct (apply_loop_spec cfg a now refs (sortedDomains (co_Manifest cfg)) ∅ ∅ (ap_engines a) Hr Hrefs)
    as (ds & hs & es & E & Hall).
  { intros d. apply sortedDomains_elem. }
  { unfold sortedDomains. rewrite sort_strings_Permutation. apply NoDup_elements. }
  rewrite E. cbn [mbind option_bind]. eexists. split; [done|]. split_and!; try done.
  intros d. rewrite previous_held. cbn [ap_domains ap_hashes]. specialize (Hall d).
  destruct (decide (d ∈ sortedDomains (co_Manifest cfg))) as [Hin|Hin].
  - by rewrite bool_decide_true in Hall.
  - rewrite bool_decide_false in Hall by done. rewrite Hall. unfold held. rewrite lookup_empty.
    unfold last_good_step. rewrite sortedDomains_elem in Hin. apply eq_None_not_Some in Hin. by rewrite Hin.
Qed.

(** A history of applied readings, with the instants of each. *)
Fixpoint apply_all (cfgs : list (Configuration * (Z * Z))) (a : Applier) : option Applier :=
  match cfgs with
  | [] => Some a
  | (cfg, (now, swap)) :: cfgs => a ← Apply SnapshotVersion ns cfg now swap a; apply_all cfgs a
  end.

Lemma apply_all_spec cfgs a refs :
  Forall (fun c => reading_hashed spec_of c.1) cfgs -> (forall d, enforces d (previous_of a d) (refs d)) -> coherent a ->
  exists a', apply_all cfgs a = Some a' /\ coherent a' /\
    (cfgs <> [] -> ap_ready a' = true /\ rset_refusal (ap_Store a') = None) /\
    forall d, enforces d (previous_of a' d) (foldl (last_good_step ns d) (refs d) cfgs.*1).
Proof.
  intros Hf. revert a refs. induction Hf as [|[cfg [now swap]] cfgs Hc Hf IH]; intros a refs Hrefs Hco; cbn [apply_all].
  { by exists a. }
  destruct (Apply_spec cfg a now swap refs Hc Hrefs) as (a1 & E & Hco1 & Hr1 & Hn1 & _ & H1).
  rewrite E. cbn [mbind option_bind].
  destruct (IH a1 (fun d => last_good_step ns d (refs d) cfg) H1 Hco1) as (a2 & E2 & Hco2 & Hr2 & H2).
  exists a2. split_and!; [done|done| |done]. intros _. destruct cfgs as [|c cfgs]; [|by apply Hr2].
  cbn in E2. injection E2 as <-. done.
Qed.

Lemma held_coherent a d : coherent a -> rset_domains (ap_Store a) !! d = fst <$> previous_of a d.
Proof. intros ->. rewrite previous_held. unfold held. by destruct (ap_domains a !! d). Qed.

End facts.
