(* ===== verification/SvcConfigClaims.v ===== *)
(** * Claims on the configuration: written, delivered, applied *)
From S2P Require Import Prelude GoStrings Compile CompileFacts MatchSpec Identity Convert OpPolicy Selector Manifest ConfigStore SvcConfig.

(** ** Reading *)

Section read.
Context {PL : Platform} {WI : Wire}.

Lemma read_loop_ok dir m names specs specs' :
  read_loop dir m names specs = Ok specs' -> NoDup names ->
  forall d, (d ∈ names -> exists spec, read_payload dir d (entry_at m d) = Ok spec /\ specs' !! d = Some spec) /\
            (d ∉ names -> specs' !! d = specs !! d).
Proof.
  revert specs. induction names as [|d0 names IH]; intros specs; cbn [read_loop].
  { intros [= <-] _ d. split; [by intros ?%elem_of_nil|done]. }
  destruct (read_payload dir d0 (entry_at m d0)) as [spec|] eqn:E; [|done]. cbn beta iota. intros H Hnd d.
  apply NoDup_cons in Hnd as [Hn Hnd]. destruct (IH _ H Hnd d) as [H1 H2]. split.
  - intros [->|Hin]%elem_of_cons; [|by apply H1]. exists spec. split; [done|]. rewrite H2 by done. by rewrite lookup_insert_eq.
  - intros [Hne Hd]%not_elem_of_cons. rewrite H2 by done. by rewrite lookup_insert_ne by congruence.
Qed.

Lemma read_loop_total dir m names specs :
  (forall d, d ∈ names -> is_ok (read_payload dir d (entry_at m d)) = true) ->
  exists specs', read_loop dir m names specs = Ok specs'.
Proof.
  revert specs. induction names as [|d names IH]; intros specs Hall; cbn [read_loop]; [by eexists|].
  specialize (Hall d (list_elem_of_here _ _)) as Hd. destruct (read_payload dir d (entry_at m d)); [|done].
  cbn beta iota. apply IH. intros d' ?. apply Hall. by right.
Qed.

Lemma sortedDomains_NoDup m : NoDup (sortedDomains m).
Proof. unfold sortedDomains. rewrite sort_strings_Permutation. apply NoDup_elements. Qed.

(** A reading is whole: every payload the manifest names was there, hashed as
    it says and is for its domain. *)
Lemma Read_whole dir cfg :
  Read dir = Ok cfg ->
  dir ManifestKey = FileBytes (co_Raw cfg) /\
  (exists v, Decode (co_Raw cfg) = Ok (co_Manifest cfg, v)) /\
  forall d e, mf_Domains (co_Manifest cfg) !! d = Some e ->
    exists compressed, dir (PayloadKey d) = FileBytes compressed /\
      DecodePayload compressed = Ok (spec_at cfg d, md_Hash e) /\ sp_Domain (spec_at cfg d) = d.
Proof.
  unfold Read. destruct (dir ManifestKey) as [| |raw]; [done..|].
  destruct (Decode raw) as [[m v]|] eqn:Ed; [|done].
  destruct (read_loop dir m (sortedDomains m) ∅) as [specs|] eqn:El; [|done]. intros [= <-]. cbn [co_Raw co_Manifest].
  split_and!; [done|by exists v|]. intros d e He.
  destruct (read_loop_ok _ _ _ _ _ El (sortedDomains_NoDup m) d) as [H1 _].
  destruct H1 as (spec & Hr & Hs); [apply sortedDomains_elem; eauto|].
  unfold read_payload, entry_at in Hr. rewrite He in Hr. cbn [default] in Hr.
  destruct (dir (PayloadKey d)) as [| |compressed]; [done..|]. exists compressed. split; [done|].
  destruct (DecodePayload compressed) as [[spec' hash]|]; [|done].
  case_bool_decide as Hh; cbn [negb] in Hr; [|done]. case_bool_decide as Hd; cbn [negb] in Hr; [|done].
  injection Hr as ->. unfold spec_at. cbn [co_Specs]. rewrite Hs. cbn in *. by subst.
Qed.

Lemma DecodePayload_hash compressed spec hash : DecodePayload compressed = Ok (spec, hash) -> hash <> "".
Proof.
  unfold DecodePayload. destruct (gunzip compressed); [|done]. destruct (read_limited _ _); [|done].
  destruct (_ >? _); [done|]. destruct (unmarshalStrict _); [|done]. by intros [= _ <-].
Qed.

(** The payloads of a directory name their specs by their hashes. *)
Definition directory_hashed (spec_of : string -> RateLimitPolicySpec) (dir : directory) : Prop :=
  forall d compressed spec hash, dir (PayloadKey d) = FileBytes compressed ->
    DecodePayload compressed = Ok (spec, hash) -> spec_of hash = spec.

Lemma Read_hashed spec_of dir cfg : directory_hashed spec_of dir -> Read dir = Ok cfg -> reading_hashed spec_of cfg.
Proof.
  intros Hh Hr d e He. destruct (Read_whole _ _ Hr) as (_ & _ & H). destruct (H d e He) as (c & Hc & Hd & _).
  split; [by eapply DecodePayload_hash|]. symmetry. by eapply Hh.
Qed.

(** The volume of a ConfigMap: its two halves side by side. *)
Definition mounted (cm : ConfigMap) : directory := fun name =>
  match cf_Data cm !! name with
  | Some s => FileBytes s
  | None => match cf_BinaryData cm !! name with Some s => FileBytes s | None => FileAbsent end
  end.

Lemma mounted_payload cm raw d :
  cf_Data cm = {[ManifestKey := raw]} -> mounted cm ManifestKey = FileBytes raw /\
  mounted cm (PayloadKey d) = match cf_BinaryData cm !! PayloadKey d with Some s => FileBytes s | None => FileAbsent end.
Proof.
  intros Hd. unfold mounted. rewrite Hd, lookup_singleton_eq. split; [done|].
  rewrite lookup_singleton_ne; [done|]. unfold PayloadKey, ManifestKey. intros E.
  assert (HasSuffix "manifest" ".json.gz" = true) by (apply HasSuffix_spec; by exists d). done.
Qed.

(** What a replica reads from a saved object. *)
Lemma saved_read s state limit f object cm :
  Save s state limit f object = Some (Some cm, Ok tt) -> state_travels (cs_version s) state ->
  (forall d b, state !! d = Some b -> kept b = true -> sp_Domain (bu_GoodSpec b) = d) ->
  exists cfg, Read (mounted cm) = Ok cfg /\
    forall d, match state !! d with
      | Some b => if kept b then spec_at cfg d = bu_GoodSpec b /\ exists hash compressed,
                    encode_payload (bu_GoodSpec b) = Some (compressed, hash) /\ hash <> "" /\
                    mf_Domains (co_Manifest cfg) !! d = Some (mkManifestDomain (bu_GoodGeneration b) (bu_UID b) hash)
                  else mf_Domains (co_Manifest cfg) !! d = None
      | None => mf_Domains (co_Manifest cfg) !! d = None
      end.
Proof.
  intros Hs Ht Hdom. destruct (saved_object _ _ _ _ _ _ Hs Ht) as (cm' & entries & raw & [= <-] & Hd & Hdec & Hall).
  assert (forall d e, entries !! d = Some e -> exists b compressed, state !! d = Some b /\ kept b = true /\
    encode_payload (bu_GoodSpec b) = Some (compressed, md_Hash e) /\ md_Hash e <> "" /\
    e = mkManifestDomain (bu_GoodGeneration b) (bu_UID b) (md_Hash e) /\
    mounted cm (PayloadKey d) = FileBytes compressed /\ DecodePayload compressed = Ok (bu_GoodSpec b, md_Hash e)) as Hent.
  { intros d e He. specialize (Hall d). destruct (state !! d) as [b|] eqn:Eb; [|congruence].
    destruct (kept b) eqn:Ek; [|congruence]. destruct Hall as (c & h & Henc & Hb & Hdp & Hne & He').
    rewrite He in He'. injection He' as ->. exists b, c. split_and!; try done.
    destruct (mounted_payload cm raw d Hd) as [_ ->]. by rewrite Hb. }
  assert (exists cfg, Read (mounted cm) = Ok cfg /\ co_Manifest cfg = mkManifest (cs_version s) entries) as (cfg & Hr & Hm).
  { unfold Read. destruct (mounted_payload cm raw "" Hd) as [-> _]. rewrite Hdec.
    destruct (read_loop_total (mounted cm) (mkManifest (cs_version s) entries) (sortedDomains (mkManifest (cs_version s) entries)) ∅)
      as (specs & ->); [|by eexists].
    intros d [e He]%sortedDomains_elem. destruct (Hent d e He) as (b & c & Hb & Hk & _ & _ & _ & Hmt & Hdp).
    unfold read_payload, entry_at. rewrite He, Hmt, Hdp. cbn [default]. rewrite (bool_decide_true (md_Hash e = _)) by done.
    cbn [negb]. rewrite bool_decide_true by (by eapply Hdom). done. }
  exists cfg. split; [done|]. rewrite Hm. cbn [mf_Domains]. intros d. specialize (Hall d).
  destruct (state !! d) as [b|] eqn:Eb; [|done]. destruct (kept b) eqn:Ek; [|done].
  destruct Hall as (c & h & Henc & _ & _ & Hne & He). split; [|by exists h, c].
  destruct (Hent d _ He) as (b' & c' & Eb' & _ & _ & _ & _ & Hmt & Hdp). rewrite Eb in Eb'. injection Eb' as <-.
  destruct (Read_whole _ _ Hr) as (_ & _ & Hw). rewrite Hm in Hw. destruct (Hw d _ He) as (c2 & Hc2 & Hd2 & _).
  rewrite Hmt in Hc2. injection Hc2 as <-. rewrite Hdp in Hd2. by injection Hd2 as ->.
Qed.

End read.

(** ** The watcher *)

Section watcher.
Context {PL : Platform} {WI : Wire}.
Context (SnapshotVersion : Snapshot -> string) (reason_text : refusal_reason -> string) (ns : string).
Context (spec_of : string -> RateLimitPolicySpec).

(** The reads of a watcher, each of a directory at its instants. *)
Fixpoint run_reads (reads : list (directory * (Z * Z))) (w : Watcher) (a : Applier) : option (Watcher * Applier) :=
  match reads with
  | [] => Some (w, a)
  | (dir, (now, swap)) :: reads =>
      '(w, a) ← read SnapshotVersion reason_text ns dir now swap w a;
      run_reads reads w a
  end.

(** The applier holds the reading the watcher remembers. *)
Definition remembers (w : Watcher) (a : Applier) : Prop :=
  exists refs : string -> option enforced_,
    (forall d, enforces SnapshotVersion ns spec_of d (previous_of a d) (refs d)) /\
    match wt_applied w with
    | None => True
    | Some raw => exists cfg v refs0, Decode raw = Ok (co_Manifest cfg, v) /\ reading_hashed spec_of cfg /\
        (forall d, refs d = last_good_step ns d (refs0 d) cfg) /\ ap_ready a = true
    end.

Definition watch_inv (w : Watcher) (a : Applier) : Prop :=
  coherent a /\ ap_absent a = wt_absent w /\ (wt_refused w = None -> rset_refusal (ap_Store a) = None) /\ remembers w a.

Lemma remembers_previous w a w' a' :
  (forall d, previous_of a' d = previous_of a d) -> ap_ready a' = ap_ready a -> wt_applied w' = wt_applied w ->
  remembers w a -> remembers w' a'.
Proof.
  intros Hp Hr Hw (refs & H1 & H2). exists refs. split; [intros d; by rewrite Hp|]. rewrite Hw, Hr. done.
Qed.

Lemma present_inv w a : watch_inv w a ->
  watch_inv (present w a).1 (present w a).2 /\ wt_absent (present w a).1 = false /\
  wt_applied (present w a).1 = wt_applied w /\ wt_refused (present w a).1 = wt_refused w /\
  ap_Store (present w a).2 = ap_Store a /\ ap_ready (present w a).2 = ap_ready a.
Proof.
  intros (H1 & H2 & H3 & H4). unfold present, watch_inv. cbn [fst snd wt_absent wt_applied wt_refused].
  destruct (wt_absent w); split_and!; try done; by eapply remembers_previous.
Qed.

Lemma apply_inv cfg v now swap w a :
  reading_hashed spec_of cfg -> Decode (co_Raw cfg) = Ok (co_Manifest cfg, v) -> watch_inv w a -> wt_absent w = false ->
  exists a', Apply SnapshotVersion ns cfg now swap a = Some a' /\
    watch_inv (mkWatcher (Some (co_Raw cfg)) None (wt_absent w)) a'.
Proof.
  intros Hh Hd (H1 & H2 & H3 & refs & H4 & _) Hab.
  destruct (Apply_spec SnapshotVersion ns spec_of cfg a now swap refs Hh H4) as (a' & E & Hc & Hr & Hn & Ha & Henf).
  exists a'. split; [done|]. unfold watch_inv. cbn [wt_absent wt_refused wt_applied]. split_and!; [done|by rewrite Ha|done|].
  eexists. split; [exact Henf|]. exists cfg, v, refs. by split_and!.
Qed.

Lemma read_inv dir now swap w a :
  directory_hashed spec_of dir -> watch_inv w a ->
  exists w' a', read SnapshotVersion reason_text ns dir now swap w a = Some (w', a') /\ watch_inv w' a'.
Proof.
  intros Hdir Hi. unfold read. destruct (Read dir) as [cfg|[| |refusal]] eqn:Er.
  - destruct (present_inv w a Hi) as (Hp & Hab & _). destruct (present w a) as [w1 a1]. cbn [fst snd] in *.
    destruct (bytes_Equal _ _ && _); [by exists w1, a1|].
    destruct (Read_whole _ _ Er) as (_ & (v & Hd) & _).
    destruct (apply_inv cfg v now swap w1 a1 (Read_hashed _ _ _ Hdir Er) Hd Hp Hab) as (a' & -> & Ha').
    cbn [mbind option_bind]. by exists (mkWatcher (Some (co_Raw cfg)) None (wt_absent w1)), a'.
  - destruct Hi as (H1 & H2 & H3 & H4). destruct (wt_absent w) eqn:Ea.
    + exists w, a. split; [done|]. unfold watch_inv. by rewrite Ea.
    + do 2 eexists. split; [done|]. unfold watch_inv. cbn. split_and!; try done; by eapply remembers_previous.
  - destruct (present_inv w a Hi) as (Hp & _). destruct (present w a) as [w1 a1]. by exists w1, a1.
  - destruct (present_inv w a Hi) as (Hp & _). destruct (present w a) as [w1 a1]. cbn [fst snd] in *.
    destruct (bytes_Equal _ _); [by exists w1, a1|]. do 2 eexists. split; [done|].
    destruct Hp as (H1 & H2 & H3 & H4). unfold watch_inv. cbn. split_and!; try done; by eapply remembers_previous.
Qed.

Lemma run_reads_inv reads w a :
  Forall (fun x => directory_hashed spec_of x.1) reads -> watch_inv w a ->
  exists w' a', run_reads reads w a = Some (w', a') /\ watch_inv w' a'.
Proof.
  intros Hr. revert w a. induction Hr as [|[dir [now swap]] reads Hd Hr IH]; intros w a Hi; cbn [run_reads].
  { by exists w, a. }
  destruct (read_inv dir now swap w a Hd Hi) as (w1 & a1 & -> & Hi1). cbn [mbind option_bind]. by apply IH.
Qed.

Lemma fresh_inv : watch_inv NewWatcher NewApplier.
Proof. split_and!; try done. by exists (fun _ => None). Qed.

(** What the set says of a domain the reading names. *)
Definition serves (a : Applier) (d : string) (e : ManifestDomain) (spec : RateLimitPolicySpec) : Prop :=
  Snapshot_of (ap_Store a) d = Some (compiled ns d spec) /\
  exists at_, re_Domains (report a) !! d = Some (mkAppliedDomain (md_Generation e) (md_UID e) at_).

Lemma enforces_serves a refs d e cfg refs0 :
  coherent a -> (forall d, enforces SnapshotVersion ns spec_of d (previous_of a d) (refs d)) ->
  refs d = last_good_step ns d (refs0 d) cfg -> mf_Domains (co_Manifest cfg) !! d = Some e ->
  compiles ns d (spec_at cfg d) = true -> serves a d e (spec_at cfg d).
Proof.
  intros Hc Henf Href He Hco. specialize (Henf d). rewrite Href in Henf. unfold last_good_step in Henf. rewrite He, Hco in Henf.
  pose proof (held_coherent a d Hc) as Hd. destruct (previous_of a d) as [[sd h]|]; [|done].
  destruct Henf as (H1 & _ & H3 & H4 & _). cbn in Hd. unfold serves, Snapshot_of, report, ReportOf. cbn [re_Domains].
  rewrite lookup_fmap, Hd. cbn. rewrite H1, H3, H4. split; [done|by eexists].
Qed.

Lemma enforces_dom a refs cfg refs0 d :
  coherent a -> (forall d, enforces SnapshotVersion ns spec_of d (previous_of a d) (refs d)) ->
  refs d = last_good_step ns d (refs0 d) cfg ->
  is_Some (re_Domains (report a) !! d) <-> is_Some (mf_Domains (co_Manifest cfg) !! d).
Proof.
  intros Hc Henf Href. specialize (Henf d). rewrite Href in Henf. unfold last_good_step in Henf.
  unfold report, ReportOf. cbn [re_Domains]. rewrite lookup_fmap, fmap_is_Some, (held_coherent a d Hc), fmap_is_Some.
  destruct (mf_Domains (co_Manifest cfg) !! d).
  - destruct (previous_of a d) as [[? ?]|]; [by split; intros _; eauto|]. repeat case_match; done.
  - destruct (previous_of a d) as [[? ?]|]; [done|]. by split; intros [].
Qed.

End watcher.

Lemma read_follows {PL : Platform} {WI : Wire} SnapshotVersion reason_text ns spec_of w a dir now swap :
  unmarshal_version "" = None -> directory_hashed spec_of dir -> watch_inv SnapshotVersion ns spec_of w a ->
  exists w' a', read SnapshotVersion reason_text ns dir now swap w a = Some (w', a') /\
    match Read dir with
    | Ok cfg =>
        Ready a' = true /\ re_Refusal (report a') = None /\ re_ConfigAbsent (report a') = false /\
        (forall d, is_Some (re_Domains (report a') !! d) <-> is_Some (mf_Domains (co_Manifest cfg) !! d)) /\
        forall d e, mf_Domains (co_Manifest cfg) !! d = Some e -> compiles ns d (spec_at cfg d) = true ->
          serves ns a' d e (spec_at cfg d)
    | Err _ => rset_domains (ap_Store a') = rset_domains (ap_Store a) /\ Ready a' = Ready a
    end.
Proof.
  intros Hempty Hdir Hi. unfold read.
  destruct (present_inv SnapshotVersion ns spec_of w a Hi) as (Hp & Hab & Hap & Hrf & Hst & Hrd).
  destruct (Read dir) as [cfg|[| |refusal]] eqn:Er.
  - destruct (present w a) as [w1 a1]. cbn [fst snd] in *.
    pose proof (Read_hashed _ _ _ Hdir Er) as Hh. destruct (Read_whole _ _ Er) as (_ & (v & Hd) & _).
    destruct (bytes_Equal (Some (co_Raw cfg)) (wt_applied w1) && bool_decide (wt_refused w1 = None)) eqn:Esk.
    + apply andb_true_iff in Esk as [Eq Enone%bool_decide_eq_true]. unfold bytes_Equal in Eq. apply bool_decide_eq_true in Eq.
      cbn [default] in Eq. destruct Hp as (Hc & Ha & Hn & refs & Henf & Hrem).
      destruct (wt_applied w1) as [raw|].
      2:{ exfalso. cbn in Eq. unfold Decode in Hd. rewrite Eq, Hempty in Hd. done. }
      cbn in Eq. subst raw. destruct Hrem as (cfg0 & v0 & refs0 & Hd0 & Hh0 & Hrefs & Hready).
      exists w1, a1. rewrite Hd in Hd0. injection Hd0 as Hman _.
      split_and!; [reflexivity|exact Hready|by apply Hn|by unfold report; cbn; rewrite Ha| |].
      * intros d. rewrite Hman. by apply (enforces_dom SnapshotVersion ns spec_of a1 refs cfg0 refs0 d Hc Henf).
      * intros d e He Hco. assert (spec_at cfg d = spec_at cfg0 d) as Hsame.
        { destruct (Hh d e He) as [_ ->]. rewrite Hman in He. by destruct (Hh0 d e He) as [_ ->]. }
        rewrite Hsame in *. rewrite Hman in He.
        by apply (enforces_serves SnapshotVersion ns spec_of a1 refs d e cfg0 refs0 Hc Henf (Hrefs d) He).
    + destruct Hp as (Hc & Ha & Hn & refs & Henf & _).
      destruct (Apply_spec SnapshotVersion ns spec_of cfg a1 now swap refs Hh Henf) as (a' & Eap & Hc' & Hr' & Hn' & Ha' & Henf').
      rewrite Eap. cbn [mbind option_bind]. exists (mkWatcher (Some (co_Raw cfg)) None (wt_absent w1)), a'.
      split_and!; [done|done|done|by unfold report; cbn; rewrite Ha', Ha|..].
      * intros d. by apply (enforces_dom SnapshotVersion ns spec_of a' (fun d => last_good_step ns d (refs d) cfg) cfg refs d Hc' Henf').
      * intros d e He Hco.
        by apply (enforces_serves SnapshotVersion ns spec_of a' (fun d => last_good_step ns d (refs d) cfg) d e cfg refs Hc' Henf' eq_refl He).
  - destruct (wt_absent w); do 2 eexists; by split_and!.
  - destruct (present w a) as [w1 a1]. cbn [fst snd] in *. exists w1, a1. unfold Ready. by rewrite Hst, Hrd.
  - destruct (present w a) as [w1 a1]. cbn [fst snd] in *. unfold Ready.
    destruct (bytes_Equal _ _); do 2 eexists; (split; [done|]); cbn; by rewrite Hst, Hrd.
Qed.

(** ** Claims *)

(** Reusing engines changes nothing a client can see. Whatever
    readings a replica applied, every domain enforces exactly what a replica
    that compiled every reading anew would enforce: the latest spec of the
    domain that compiles in this build, under the generation and object it
    came from, since the domain was last in the manifest; before the first
    one, the domain is claimed and enforces no rule at generation zero. *)
Theorem applier_last_good {PL : Platform} {WI : Wire} (SnapshotVersion : Snapshot -> string) (ns : string)
    (spec_of : string -> RateLimitPolicySpec) (cfgs : list (Configuration * (Z * Z))) :
  Forall (fun c => reading_hashed spec_of c.1) cfgs ->
  exists a, apply_all SnapshotVersion ns cfgs NewApplier = Some a /\
    (cfgs <> [] -> Ready a = true) /\
    forall d, match last_good ns d cfgs.*1, Domain_of (ap_Store a) d with
      | None, None => True
      | Some (Good s g u), Some sd =>
          compiles ns d s = true /\ sd_Snapshot sd = compiled ns d s /\ sd_Generation sd = g /\ sd_UID sd = u
      | Some (Nothing u), Some sd =>
          sd_Snapshot sd = compiled ns d (bare_spec d) /\ sd_Generation sd = 0 /\ sd_UID sd = u
      | _, _ => False
      end.
Proof.
  intros Hf. destruct (apply_all_spec SnapshotVersion ns spec_of cfgs NewApplier (fun _ => None) Hf) as (a & E & Hc & Hr & Henf).
  { done. }
  { done. }
  exists a. split; [done|]. split; [intros Hn; by apply Hr|]. intros d. specialize (Henf d). unfold last_good, Domain_of.
  rewrite (held_coherent a d Hc). destruct (previous_of a d) as [[sd h]|], (foldl _ None cfgs.*1) as [[s g u|u]|]; try done; cbn.
  - by destruct Henf as (? & ? & ? & ? & ? & _).
  - by destruct Henf as (? & ? & ? & ? & _).
Qed.

(** C10: What the operator writes is what the replicas enforce. A state
    saved to the ConfigMap and mounted is read whole by a replica with any
    history of readings, and applying it leaves the replica ready and without
    a refusal, every domain of the state served by the snapshot of exactly
    its spec under its generation and object, and no other domain served. *)
Theorem config_delivered {PL : Platform} {WI : Wire} (SnapshotVersion : Snapshot -> string) (ns : string)
    (spec_of : string -> RateLimitPolicySpec) (s : ConfigStore) (state : gmap string Bundle) (limit : Z) (f : faults)
    (object : option ConfigMap) (cm : ConfigMap) (history : list (Configuration * (Z * Z))) (now swap : Z) :
  Save s state limit f object = Some (Some cm, Ok tt) -> state_travels (cs_version s) state ->
  (forall d b, state !! d = Some b -> kept b = true ->
     sp_Domain (bu_GoodSpec b) = d /\ compiles ns d (bu_GoodSpec b) = true /\
     forall compressed hash, encode_payload (bu_GoodSpec b) = Some (compressed, hash) -> spec_of hash = bu_GoodSpec b) ->
  Forall (fun c => reading_hashed spec_of c.1) history ->
  exists a cfg a', apply_all SnapshotVersion ns history NewApplier = Some a /\ Read (mounted cm) = Ok cfg /\
    Apply SnapshotVersion ns cfg now swap a = Some a' /\ Ready a' = true /\ re_Refusal (report a') = None /\
    forall d, match state !! d with
      | Some b =>
          if kept b then
            Snapshot_of (ap_Store a') d = Some (compiled ns d (bu_GoodSpec b)) /\
            exists at_, re_Domains (report a') !! d = Some (mkAppliedDomain (bu_GoodGeneration b) (bu_UID b) at_)
          else re_Domains (report a') !! d = None
      | None => re_Domains (report a') !! d = None
      end.
Proof.
  intros Hs Ht Hstate Hf.
  destruct (saved_read _ _ _ _ _ _ Hs Ht) as (cfg & Hr & Hcfg); [intros d b Hb Hk; by apply (Hstate d b)|].
  destruct (apply_all_spec SnapshotVersion ns spec_of history NewApplier (fun _ => None) Hf) as (a & E & Hc & _ & Henf); [done|done|].
  assert (reading_hashed spec_of cfg) as Hh.
  { intros d e He. specialize (Hcfg d). destruct (state !! d) as [b|] eqn:Eb; [|congruence].
    destruct (kept b) eqn:Ek; [|congruence]. destruct Hcfg as (Hsp & h & c & Henc & Hne & He').
    rewrite He in He'. injection He' as ->. cbn [md_Hash]. split; [done|]. rewrite Hsp. symmetry. by apply (Hstate d b Eb Ek) with c. }
  destruct (Apply_spec SnapshotVersion ns spec_of cfg a now swap (fun d => last_good ns d history.*1) Hh Henf) as (a' & E' & Hc' & Hr' & Hn' & _ & Henf').
  exists a, cfg, a'. split_and!; try done. intros d.
  assert (mf_Domains (co_Manifest cfg) !! d = None -> re_Domains (report a') !! d = None) as Hnone.
  { intros Hno. apply eq_None_not_Some. rewrite (enforces_dom SnapshotVersion ns spec_of a' (fun d => last_good_step ns d (last_good ns d history.*1) cfg) cfg
      (fun d => last_good ns d history.*1) d Hc' Henf' eq_refl).
    rewrite Hno. by intros []. }
  specialize (Hcfg d). destruct (state !! d) as [b|] eqn:Eb; [|by apply Hnone]. destruct (kept b) eqn:Ek; [|by apply Hnone].
  destruct Hcfg as (Hsp & h & c & _ & _ & He). rewrite <- Hsp.
  apply (enforces_serves SnapshotVersion ns spec_of a' (fun d => last_good_step ns d (last_good ns d history.*1) cfg) d _ cfg
    (fun d => last_good ns d history.*1) Hc' Henf' eq_refl He).
  rewrite Hsp. by apply (Hstate d b).
Qed.

(** The replica follows its directory. After any reads, a read that
    finds a manifest it can apply leaves the replica ready, its report without
    a refusal and listing exactly the manifest's domains, each that compiles
    enforced at the manifest's generation; it does so also when the read
    changes nothing, because the manifest was applied before. A read that
    does not leaves the domains, their engines and the readiness as they
    were. *)
Theorem watcher_converges {PL : Platform} {WI : Wire} (SnapshotVersion : Snapshot -> string)
    (reason_text : refusal_reason -> string) (ns : string) (spec_of : string -> RateLimitPolicySpec)
    (reads : list (directory * (Z * Z))) (dir : directory) (now swap : Z) :
  unmarshal_version "" = None -> Forall (fun x => directory_hashed spec_of x.1) reads -> directory_hashed spec_of dir ->
  exists w a w' a',
    run_reads SnapshotVersion reason_text ns reads NewWatcher NewApplier = Some (w, a) /\
    read SnapshotVersion reason_text ns dir now swap w a = Some (w', a') /\
    match Read dir with
    | Ok cfg =>
        Ready a' = true /\ re_Refusal (report a') = None /\ re_ConfigAbsent (report a') = false /\
        (forall d, is_Some (re_Domains (report a') !! d) <-> is_Some (mf_Domains (co_Manifest cfg) !! d)) /\
        forall d e, mf_Domains (co_Manifest cfg) !! d = Some e -> compiles ns d (spec_at cfg d) = true ->
          serves ns a' d e (spec_at cfg d)
    | Err _ => rset_domains (ap_Store a') = rset_domains (ap_Store a) /\ Ready a' = Ready a
    end.
Proof.
  intros Hempty Hreads Hdir.
  destruct (run_reads_inv SnapshotVersion reason_text ns spec_of reads _ _ Hreads (fresh_inv SnapshotVersion ns spec_of))
    as (w & a & E & Hi).
  destruct (read_follows SnapshotVersion reason_text ns spec_of w a dir now swap Hempty Hdir Hi) as (w' & a' & Er & Hm).
  by exists w, a, w', a'.
Qed.

(** The operator finds its last-good state again. What a save wrote,
    the next pass loads: for every domain asked for, exactly the bundle that
    was saved, and nothing for a domain without one. *)
Theorem saved_state_loads {PL : Platform} {WI : Wire} (s : ConfigStore) (state : gmap string Bundle) (limit : Z) (f : faults)
    (object object' : option ConfigMap) (domains : list string) :
  Save s state limit f object = Some (object', Ok tt) -> state_travels (cs_version s) state ->
  exists bundles, Load false object' domains = Ok bundles /\
    forall d, d ∈ domains ->
      bundles !! d = match state !! d with Some b => if kept b then Some b else None | None => None end.
Proof.
  intros Hs Ht. destruct (saved_object _ _ _ _ _ _ Hs Ht) as (cm & entries & raw & -> & Hd & Hdec & Hall).
  unfold Load. assert (default "" (cf_Data cm !! ManifestKey) = raw) as -> by (by rewrite Hd, lookup_singleton_eq).
  rewrite Hdec.
  eexists. split; [done|]. intros d Hin. rewrite load_loop_spec, bool_decide_true by done. cbn [load_loop mf_Domains].
  specialize (Hall d). destruct (state !! d) as [b|]; [|by rewrite Hall]. destruct (kept b); [|by rewrite Hall].
  destruct Hall as (c & h & _ & Hb & Hdp & _ & ->). rewrite Hb, Hdp. cbn [md_Hash md_UID md_Generation].
  rewrite bool_decide_true by done. rewrite lookup_insert_eq. by destruct b.
Qed.

(** An empty manifest is refused in silence. A replica whose mounted
    manifest is a file of no bytes takes it for the refusal it already
    reported, of which there is none: the report never carries it, however
    often the directory is read. *)
Theorem empty_manifest_unreported {PL : Platform} {WI : Wire} (SnapshotVersion : Snapshot -> string)
    (reason_text : refusal_reason -> string) (ns : string) (dir : directory) (times : list (Z * Z)) :
  dir ManifestKey = FileBytes "" -> unmarshal_version "" = None ->
  (exists r, Read dir = Err (ErrRefused r)) /\
  exists w a, run_reads SnapshotVersion reason_text ns ((fun t => (dir, t)) <$> times) NewWatcher NewApplier = Some (w, a) /\
    re_Refusal (report a) = None /\ Ready a = false.
Proof.
  intros Hd Hv. assert (exists r, Read dir = Err (ErrRefused r) /\ cr_raw r = "") as (r & Hr & Hraw).
  { unfold Read, Decode. rewrite Hd, Hv. by eexists. }
  split; [by exists r|]. exists NewWatcher, NewApplier. split; [|done].
  induction times as [|[now swap] times IH]; [done|]. cbn [fmap list_fmap run_reads].
  unfold read. rewrite Hr. cbn [present wt_absent NewWatcher wt_applied wt_refused]. rewrite Hraw.
  cbn [bytes_Equal default]. unfold bytes_Equal. rewrite bool_decide_true by done. exact IH.
Qed.

(** ** Examples *)

(** One domain with one rule, saved at generation 3. *)
Definition gw_spec : RateLimitPolicySpec :=
  mkSpec "gw" [] [] [mkLimitBlock "b" None "" [mkV1Rule "r" [] [] [mkV1Rate 5 60 None ""] "" []]].
Definition gw_state : gmap string Bundle := {["gw" := mkBundle "u1" 3 gw_spec]}.
Definition gw_hash : string := Hash (PL := demo_mgmt_platform) "{gw}".
Definition gw_entries : gmap string ManifestDomain := {["gw" := mkManifestDomain 3 "u1" gw_hash]}.
Definition gw_wire : Wire := demo_wire_text [("{gw}", gw_spec)] [("{manifest}", mkWireManifest 1 "1.0" (Some gw_entries))].
Definition gw_store : ConfigStore := New_store ∅ "1.0".
Definition gw_cm : ConfigMap := mkConfigMap ∅ [] {["manifest" := "{manifest}"]} {["gw.json.gz" := "{gw}"]}.
Definition gw_spec_of (_ : string) : RateLimitPolicySpec := gw_spec.
Definition no_version (_ : Snapshot) : string := "".
Definition no_reason (_ : refusal_reason) : string := "".

Lemma mirrors_unique {PL : Platform} {WI : Wire} state p e p' e' :
  mirrors state p e -> mirrors state p' e' -> e = e'.
Proof.
  intros H1 H2. apply map_eq. intros d. specialize (H1 d). specialize (H2 d).
  destruct (state !! d) as [b|]; [|by destruct H1 as [_ ->], H2 as [_ ->]].
  destruct (kept b); [|by destruct H1 as [_ ->], H2 as [_ ->]].
  destruct H1 as (c & h & E1 & _ & ->), H2 as (c' & h' & E2 & _ & ->). rewrite E1 in E2. by injection E2 as <- <-.
Qed.

Lemma gw_saved :
  Save (PL := demo_mgmt_platform) (WI := gw_wire) gw_store gw_state 1000 no_faults None = Some (Some gw_cm, Ok tt).
Proof. vm_compute. reflexivity. Qed.

Lemma gw_travels : state_travels (PL := demo_mgmt_platform) (WI := gw_wire) "1.0" gw_state.
Proof.
  split_and!.
  - intros s. reflexivity.
  - intros d b Hb _. unfold gw_state in Hb. apply lookup_singleton_Some in Hb as [_ <-].
    exists "{gw}". split_and!; [by vm_compute|by vm_compute|by_decide].
  - intros p e Hm. assert (mirrors (PL := demo_mgmt_platform) (WI := gw_wire) gw_state {["gw" := "{gw}"]} gw_entries) as H.
    { intros d. unfold gw_state, gw_entries. destruct (decide (d = "gw")) as [->|Hd].
      - rewrite !lookup_singleton_eq. by exists "{gw}", gw_hash.
      - by rewrite !lookup_singleton_ne by congruence. }
    rewrite (mirrors_unique _ _ _ _ _ Hm H). exists "{manifest}". by split_and!; vm_compute.
Qed.

Lemma config_delivered_witness :
  exists a cfg a', apply_all no_version "ns" [] NewApplier = Some a /\
    Read (PL := demo_mgmt_platform) (WI := gw_wire) (mounted gw_cm) = Ok cfg /\
    Apply no_version "ns" cfg 7 8 a = Some a' /\ Ready a' = true.
Proof.
  destruct (config_delivered (PL := demo_mgmt_platform) (WI := gw_wire) no_version "ns" gw_spec_of gw_store gw_state 1000
    no_faults None gw_cm [] 7 8) as (a & cfg & a' & H1 & H2 & H3 & H4 & _).
  - exact gw_saved.
  - exact gw_travels.
  - intros d b Hb _. unfold gw_state in Hb. apply lookup_singleton_Some in Hb as [<- <-].
    split; [reflexivity|]. split; [vm_compute; reflexivity|]. reflexivity.
  - constructor.
  - exists a, cfg, a'. by split_and!.
Defined.

Lemma saved_state_loads_witness :
  exists bundles, Load (PL := demo_mgmt_platform) (WI := gw_wire) false (Some gw_cm) ["gw"] = Ok bundles /\
    bundles !! "gw" = Some (mkBundle "u1" 3 gw_spec).
Proof.
  destruct (saved_state_loads (PL := demo_mgmt_platform) (WI := gw_wire) gw_store gw_state 1000 no_faults None (Some gw_cm) ["gw"]
    gw_saved gw_travels) as (bundles & H1 & H2).
  exists bundles. split; [exact H1|]. exact (H2 "gw" (list_elem_of_here _ _)).
Defined.

Lemma gw_hashed : directory_hashed (PL := demo_mgmt_platform) (WI := gw_wire) gw_spec_of (mounted gw_cm).
Proof.
  intros d c spec h Hc Hd. destruct (decide (d = "gw")) as [->|Hne].
  - assert (c = "{gw}") as -> by (vm_compute in Hc; by injection Hc as <-). vm_compute in Hd. by injection Hd as <- _.
  - exfalso. revert Hc. rewrite (proj2 (mounted_payload gw_cm "{manifest}" d eq_refl)). unfold gw_cm. cbn [cf_BinaryData].
    rewrite lookup_singleton_ne; [done|]. intros E. apply Hne. apply (inj PayloadKey). by rewrite <- E.
Qed.

Lemma watcher_converges_witness :
  exists w a w' a',
    run_reads (PL := demo_mgmt_platform) (WI := gw_wire) no_version no_reason "ns" [(mounted gw_cm, (1, 2))] NewWatcher NewApplier = Some (w, a) /\
    read (PL := demo_mgmt_platform) (WI := gw_wire) no_version no_reason "ns" (mounted gw_cm) 3 4 w a = Some (w', a') /\ Ready a' = true.
Proof.
  destruct (watcher_converges (PL := demo_mgmt_platform) (WI := gw_wire) no_version no_reason "ns" gw_spec_of
    [(mounted gw_cm, (1, 2))] (mounted gw_cm) 3 4) as (w & a & w' & a' & H1 & H2 & H3).
  - reflexivity.
  - repeat constructor. exact gw_hashed.
  - exact gw_hashed.
  - exists w, a, w', a'. split; [exact H1|]. split; [exact H2|].
    assert (exists cfg, Read (PL := demo_mgmt_platform) (WI := gw_wire) (mounted gw_cm) = Ok cfg) as [cfg E]
      by (eexists; vm_compute; reflexivity).
    rewrite E in H3. exact (proj1 H3).
Defined.

(** A reading whose spec compiles, then one whose spec does not. *)
Definition gw_reading (hash : string) (g : Z) (spec : RateLimitPolicySpec) : Configuration :=
  mkConfiguration (mkManifest "1.0" {["gw" := mkManifestDomain g "u1" hash]}) {["gw" := spec]} "".
Definition gw_broken : RateLimitPolicySpec :=
  mkSpec "gw" [] [] [mkLimitBlock "b" None "" [mkV1Rule "r" [] ["nokey"] [mkV1Rate 5 60 None ""] "" []]].
Definition gw_named (hash : string) : RateLimitPolicySpec := if bool_decide (hash = "h1") then gw_spec else gw_broken.

Lemma gw_reading_hashed hash g : hash <> "" -> reading_hashed gw_named (gw_reading hash g (gw_named hash)).
Proof.
  intros Hh d e He. unfold gw_reading in He. cbn in He. apply lookup_singleton_Some in He as [<- <-]. cbn. split; [done|].
  unfold spec_at. cbn. by rewrite lookup_singleton_eq.
Qed.

Lemma applier_last_good_witness :
  exists a, apply_all no_version "ns" [(gw_reading "h1" 3 gw_spec, (1, 2)); (gw_reading "h2" 4 gw_broken, (3, 4))] NewApplier = Some a /\
    exists sd, Domain_of (ap_Store a) "gw" = Some sd /\ sd_Generation sd = 3 /\ sd_Snapshot sd = compiled "ns" "gw" gw_spec.
Proof.
  destruct (applier_last_good (PL := demo_mgmt_platform) (WI := gw_wire) no_version "ns" gw_named
    [(gw_reading "h1" 3 gw_spec, (1, 2)); (gw_reading "h2" 4 gw_broken, (3, 4))]) as (a & E & _ & H).
  - apply Forall_cons. split; [exact (gw_reading_hashed "h1" 3 ltac:(done))|].
    apply Forall_cons. split; [exact (gw_reading_hashed "h2" 4 ltac:(done))|constructor].
  - exists a. split; [exact E|]. specialize (H "gw").
    assert (last_good "ns" "gw" [gw_reading "h1" 3 gw_spec; gw_reading "h2" 4 gw_broken] = Some (Good gw_spec 3 "u1")) as El
      by (vm_compute; reflexivity).
    cbn [fmap list_fmap fst] in H. rewrite El in H. destruct (Domain_of (ap_Store a) "gw") as [sd|]; [|destruct H].
    exists sd. destruct H as (_ & H1 & H2 & _). split; [reflexivity|]. split; [exact H2|exact H1].
Defined.

Lemma empty_manifest_unreported_witness :
  exists w a, run_reads (PL := demo_mgmt_platform) (WI := gw_wire) no_version no_reason "ns"
      ((fun t => ((fun _ => FileBytes ""), t)) <$> [(1, 2); (3, 4)]) NewWatcher NewApplier = Some (w, a) /\
    re_Refusal (report a) = None.
Proof.
  destruct (empty_manifest_unreported (PL := demo_mgmt_platform) (WI := gw_wire) no_version no_reason "ns" (fun _ => FileBytes "")
    [(1, 2); (3, 4)]) as (_ & w & a & H1 & H2 & _); [reflexivity|reflexivity|].
  exists w, a. split; [exact H1|exact H2].
Defined.
