(* ===== verification/MgmtCalls.v ===== *)
(** * Handlers of the management API against shared stores

    A handler is a program over the counters and the command records: a small
    state monad whose every store call finds whatever the other callers did
    meanwhile, reads the clock once, and may fail, either before the store ran
    it or after, with the reply lost. The history keeps every operation that
    reached the stores, the handler's own ones marked, so a theorem can speak
    of what a handler did between any interleaving of other operations. The
    stores are the ones in process: their scan returns a key at most once a
    step, and the Redis stores answer as they do call by call (Differential,
    RedisRecordsClaims) but for the steps of a scan, where SCAN may repeat a
    key. *)
From S2P Require Import Prelude GoStrings Algo StoreApi Memory Records.

(** ** Definitions *)

Inductive fault := NotRun | ReplyLost.

(** Readings and calls are numbered together: the [i]-th finds the instant
    [wd_clock i], after the operations [wd_others i] of other callers. *)
Record world := mkWorld {
  wd_clock : nat -> Z;
  wd_others : nat -> list (Z * rop);
  wd_fault : nat -> option fault }.

(** One operation that reached the stores. *)
Record event := mkEvent { ev_own : bool; ev_time : Z; ev_op : rop }.

Record hstate := mkHState { h_calls : nat; h_mem : MemoryRecords; h_history : list event }.

Definition handler (A : Type) : Type := world -> hstate -> A * hstate.

Definition hret {A} (a : A) : handler A := fun _ h => (a, h).

Definition hbind {A B} (c : handler A) (k : A -> handler B) : handler B :=
  fun w h => let '(a, h) := c w h in k a w h.

Notation "'let!' x ':=' c 'in' k" := (hbind c (fun x => k))
  (at level 10, x pattern, c at level 200, k at level 200) : go_scope.

(** The early return of a handler: an error ends it. *)
Definition hbind_ok {E A B} (c : handler (result E A)) (k : A -> handler (result E B)) : handler (result E B) :=
  let! r := c in match r with Ok a => k a | Err e => hret (Err e) end.

Notation "'let!?' x ':=' c 'in' k" := (hbind_ok c (fun x => k))
  (at level 10, x pattern, c at level 200, k at level 200) : go_scope.

Definition lift {E A} (r : result E A) : handler (result E A) := hret r.

(** [a.now()] *)
Definition clock_now : handler Z :=
  fun w h => (wd_clock w (h_calls h), mkHState (S (h_calls h)) (h_mem h) (h_history h)).

(** One store call: the operation and its answer; [None] is an error of the
    store, [NotRun] one before the operation ran. *)
Definition perform {A} (op : Z -> rop) (answer : Z -> MemoryRecords -> A) : handler (option A) :=
  fun w h =>
    let i := h_calls h in
    let t := wd_clock w i in
    let m := rrun (wd_others w i) (h_mem h) in
    let others := (fun o : Z * rop => mkEvent false o.1 o.2) <$> wd_others w i in
    match wd_fault w i with
    | Some NotRun => (None, mkHState (S i) m (h_history h ++ others))
    | Some ReplyLost => (None, mkHState (S i) (rstep t (op t) m) (h_history h ++ others ++ [mkEvent true t (op t)]))
    | None => (Some (answer t m), mkHState (S i) (rstep t (op t) m) (h_history h ++ others ++ [mkEvent true t (op t)]))
    end.

Definition do_Lookup (keys : Keys) : handler (option Record_) :=
  perform (fun _ => OLookup keys) (fun t m => (Lookup t keys m).2).
Definition do_Accept (a : Acceptance) : handler (option Accepted) :=
  perform (fun _ => OAccept a) (fun t m => (Accept t a m).2).
Definition do_Batch (b : BatchArg) : handler (option (option RecordsError)) :=
  perform (fun _ => OBatch b) (fun t m => (Batch t b m).2).
Definition do_Commit (c : CommitArg) : handler (option (option RecordsError)) :=
  perform (fun _ => OCommit c) (fun t m => (Commit t c m).2).
Definition do_Finalize (f : FinalizeArg) : handler (option Record_) :=
  perform (fun _ => OFinalize f) (fun t m => (Finalize t f m).2).
Definition do_Reset (a : Addressed) : handler (option (result RecordsError AddressedOutcome)) :=
  perform (fun _ => OReset a) (fun t m => (Reset t a m).2).
Definition do_Put (key value : string) (ttl : Z) : handler (option unit) :=
  perform (fun _ => OPut key value ttl) (fun _ _ => tt).
Definition do_Get (key : string) : handler (option (option string)) :=
  perform (fun _ => OGet key) (fun t m => Get t key m).

(** The counter store's own calls, on its microsecond clock. *)
Definition do_Peek (bs : list Bucket) : handler (option (result StoreError (list Verdict))) :=
  perform (fun t => OCounters (fun c => (Peek (t / 1000) bs c).1))
    (fun t m => (Peek (t / 1000) bs (mm_counters m)).2).
Definition do_Scan (prefix cursor : string) (limit : Z) : handler (option (result StoreError (list string * string))) :=
  perform (fun t => OCounters (fun c => (Scan (t / 1000) prefix cursor limit c).1))
    (fun t m => (Scan (t / 1000) prefix cursor limit (mm_counters m)).2).

(** What the handler itself did. *)
Definition own (h : list event) : list (Z * rop) :=
  (fun e => (ev_time e, ev_op e)) <$> filter (fun e => ev_own e = true) h.

Definition start (m : MemoryRecords) : hstate := mkHState 0 m [].

(** The operations of a history in order. *)
Definition ops_of (h : list event) : list (Z * rop) := (fun e => (ev_time e, ev_op e)) <$> h.
