(* ===== verification/AddrReset.v ===== *)
(** * service/internal/management/reset.go: the addressed reset

    One whole block/rule id and one value for every axis the rule declares name
    a finite set of counter keys, computed from the enforced set and never
    scanned. The command is one atomic step of the record store: bind the
    idempotency key, delete the live ones of the computed keys, record the
    answer. The log and the audit line are left out, and an answer that cannot
    be written to the connection. *)
From S2P Require Import Sanitize.
From S2P Require Import Prelude GoStrings Algo Key StoreApi Memory MemoryScan Model Compile CompileFacts Match MatchFacts MatchKeys MatchSpec Identity.
From S2P Require Import Records RecordsClaims MgmtKeys RuleView MgmtErrors Selector Listing ListingFacts Manifest ConfigStore SvcConfig.
From S2P Require Import MgmtCalls.

(** ** Definitions *)

Record ResetResponse := mkResetResponse {
  rp_Domain : string;
  rp_RuleID : string;
  rp_RuleSetVersion : string;
  rp_Axes : gmap string string;
  rp_Keys : list string;
  rp_DryRun : bool;
  rp_MatchedCount : option Z;
  rp_ResetCount : option Z }.

#[export] Instance ResetResponse_eq_dec : EqDecision ResetResponse.
Proof. solve_decision. Defined.

(** What [encoding/json] writes as it is; it replaces any other byte. *)
Definition utf8 (s : string) : Prop := valid_utf8 (String.list_ascii_of_string s).

Definition response_utf8 (r : ResetResponse) : Prop :=
  utf8 (rp_Domain r) /\ utf8 (rp_RuleID r) /\ utf8 (rp_RuleSetVersion r) /\
  map_Forall (fun axis value => utf8 axis /\ utf8 value) (rp_Axes r) /\ Forall utf8 (rp_Keys r).

(** The JSON codec of the recorded body; what a record keeps decodes to what
    was encoded, where that is valid UTF-8. *)
Class ResetText := {
  MarshalReset : ResetResponse -> string;
  UnmarshalReset : string -> option ResetResponse }.

Class ResetTextLaws `{ResetText} := {
  reset_text_roundtrip : forall r, response_utf8 r -> UnmarshalReset (MarshalReset r) = Some r;
  reset_text_nonempty : forall r, MarshalReset r <> "" }.

Record resetCommand := mkResetCommand {
  rc_Selector : selector;
  rc_DryRun : bool;
  rc_ExpectedVersion : string;
  rc_AxesByName : gmap string string;
  rc_Ordered : list string;
  rc_block : Block;
  rc_rule : Rule }.

(** [requestIDPattern] *)
Definition id_char (c : ascii) : bool :=
  is_lower c || is_upper c || is_digit c ||
  bool_decide (c ∈ ["."; "_"; ":"; "-"]%char).

Definition requestIDPattern (s : string) : bool :=
  match String.list_ascii_of_string s with
  | [] => false
  | c :: rest =>
      (is_lower c || is_upper c || is_digit c) &&
      (length rest <=? 127)%nat && forallb id_char rest
  end.

Definition headerIdempotencyKey : string := "Idempotency-Key".
Definition endpointCounters : string := "counters".

(** The header's value; an absent header is the empty string. *)
Definition idempotencyKeyOf (header : string) : result apiError string :=
  if bool_decide (header = "") then Err (invalid [headerIdempotencyKey])
  else if negb (requestIDPattern header) then Err (invalid [headerIdempotencyKey])
  else Ok header.

(** [snapshot]: the enforced set of the path's domain and its version. *)
Definition api_snapshot (rules : RuleSet) (domain : string) : result apiError (Snapshot * string) :=
  match Snapshot_of rules domain with
  | None => Err notFound
  | Some snapshot => Ok (snapshot, Version_of rules domain)
  end.

Definition splitFullID (id : string) : option (string * string) :=
  match Split "/" id with
  | [block; rule] =>
      if bool_decide (block = "") || bool_decide (rule = "") then None else Some (block, rule)
  | _ => None
  end.

Fixpoint find_rule (rules : list Rule) (rule : string) : option Rule :=
  match rules with
  | [] => None
  | r :: rules => if bool_decide (ru_Name r = rule) then Some r else find_rule rules rule
  end.

Fixpoint find_loop (blocks : list Block) (block rule : string) : option (Block * Rule) :=
  match blocks with
  | [] => None
  | b :: blocks =>
      if negb (bool_decide (bl_Name b = block)) then find_loop blocks block rule
      else match find_rule (bl_Rules b) rule with
           | Some r => Some (b, r)
           | None => find_loop blocks block rule
           end
  end.

Definition findRule (snapshot : Snapshot) (block rule : string) : option (Block * Rule) :=
  find_loop (s_Blocks snapshot) block rule.

(** The addressed identity in the rule's axis order. *)
Fixpoint axes_in_order (declared : list string) (axes : gmap string (list string))
    : result apiError (gmap string string * list string) :=
  match declared with
  | [] => Ok (∅, [])
  | name :: declared =>
      match default [] (axes !! name) with
      | [value] =>
          let? rest := axes_in_order declared axes in
          Ok (<[name := value]> rest.1, value :: rest.2)
      | _ => Err (invalid [axisPrefix +:+ name])
      end
  end.

Definition resolveAxes (declared : list string) (axes : gmap string (list string))
    : result apiError (gmap string string * list string) :=
  match filter (fun name => name ∉ declared) (map_to_list axes).*1 with
  | name :: _ => Err (invalid [axisPrefix +:+ name])
  | [] =>
      if negb (size axes =? length declared)%nat then Err (invalid ["axis"])
      else axes_in_order declared axes
  end.

Section platform.
Context {PL : Platform} {GT : GoText} {RT : ResetText}.

Definition windowSelected (sel : selector) (rate : Rate) : bool :=
  if negb (bool_decide (se_Algorithm sel = "")) && negb (bool_decide (ToLower (Name (ra_Algorithm rate)) = se_Algorithm sel))
  then false
  else if negb (se_PeriodSeconds sel =? 0) && negb (Period (ra_Window rate) /i Second =? se_PeriodSeconds sel)
  then false
  else true.

Definition keys (c : resetCommand) : list string :=
  sort_strings (unique_loop ∅
    ((fun rate => Key.Bucket (ra_Prefix rate) (rc_Ordered c)) <$>
       filter (fun rate => windowSelected (rc_Selector c) rate = true) (ru_Rates (rc_rule c)))).

(** The hash of the canonical command: what the query alone determines. *)
Definition command_hash (sel : selector) (dryRun : bool) (expected : string) : string :=
  hex_encode (Sum256 (MarshalJSON (JObject (
    [("selector", JObject (selector_fields sel))] ++
    (if dryRun then [("dryRun", JBool true)] else []) ++
    (if bool_decide (expected = "") then [] else [("expectedRuleSetVersion", JString expected)]))))).

Definition command (c : resetCommand) : string := command_hash (rc_Selector c) (rc_DryRun c) (rc_ExpectedVersion c).

Definition parseReset (snapshot : Snapshot) (q : Values) : result apiError resetCommand :=
  let? _ := checkQueryNames q (selectorParams ["dryRun"; "expectedRuleSetVersion"]) in
  let? sel := parseSelector q in
  match se_RuleIDs sel with
  | [id] =>
      match splitFullID id with
      | None => Err (invalid ["ruleId"])
      | Some (block, rule) =>
          let? dryRun := parseEnumTrue q "dryRun" in
          match findRule snapshot block rule with
          | None => Err notFound
          | Some (b, r) =>
              let? ax := resolveAxes (ru_Counters r) (se_Axes sel) in
              Ok (mkResetCommand sel dryRun (query_get q "expectedRuleSetVersion") ax.1 ax.2 b r)
          end
      end
  | _ => Err (invalid ["ruleId"])
  end.

Definition resetBinding (q : Values) : result apiError string :=
  let? sel := parseSelector q in
  let? dryRun := parseEnumTrue q "dryRun" in
  Ok (command_hash sel dryRun (query_get q "expectedRuleSetVersion")).

(** [None] is the panic of the key package on an empty namespace or domain. *)
Definition recordTag (namespace domain : string) : option string :=
  tag ← DomainTag namespace domain; Some ("rlm:v1:" +:+ tag +:+ ":").

Definition recordKey (namespace domain endpoint subject idempotencyKey : string) : option string :=
  tag ← recordTag namespace domain;
  Some (tag +:+ "idem:" +:+ endpoint +:+ ":" +:+
        take_str 32 (hex_encode (Sum256 (subject +:+ String (ascii_of_nat 0) idempotencyKey)))).

Definition recorded (r : ResetResponse) : string :=
  MarshalReset (mkResetResponse (rp_Domain r) (rp_RuleID r) (rp_RuleSetVersion r) (rp_Axes r) (rp_Keys r)
                  (rp_DryRun r) None None).

(** The count of a preview or of an execution. *)
Definition counted_response (r : ResetResponse) (count : Z) : ResetResponse :=
  mkResetResponse (rp_Domain r) (rp_RuleID r) (rp_RuleSetVersion r) (rp_Axes r) (rp_Keys r) (rp_DryRun r)
    (if rp_DryRun r then Some count else rp_MatchedCount r)
    (if rp_DryRun r then rp_ResetCount r else Some count).

(** [byPrefix]: the last rate of a key. *)
Definition by_prefix (c : resetCommand) : gmap string Rate :=
  foldl (fun m rate => <[Key.Bucket (ra_Prefix rate) (rc_Ordered c) := rate]> m) ∅ (ru_Rates (rc_rule c)).

Definition reset_buckets (c : resetCommand) (computed : list string) : list Bucket :=
  omap (fun k => (fun rate => mkBucket k (ID (ra_Algorithm rate)) (ra_Window rate)
                                (bool_decide (ru_Behavior (rc_rule c) = BehaviorShadow)) 1)
                 <$> by_prefix c !! k) computed.

(** The keys whose windows would refuse the next request of cost one. *)
Definition refused_keys (buckets : list Bucket) (verdicts : list Verdict) : list string :=
  omap (fun bv : Bucket * Verdict => if v_Allowed bv.2 then None else Some (b_Key bv.1)) (zip buckets verdicts).

Definition refusing (c : resetCommand) (computed : list string) : handler (result apiError (list string)) :=
  let buckets := reset_buckets c computed in
  let! answer := do_Peek buckets in
  hret (match answer with
        | None | Some (Err _) => Err storeDown
        | Some (Ok verdicts) =>
            if negb (length verdicts =? length buckets)%nat then Err (errorf CodeInternal [])
            else Ok (refused_keys buckets verdicts)
        end).

Definition runReset (snapshot : Snapshot) (version : string) (c : resetCommand) (name : string)
    : handler (result apiError ResetResponse) :=
  let computed := keys c in
  match computed with
  | [] => hret (Err notFound)
  | _ =>
      let!? drop := (if se_LimitedOnly (rc_Selector c) then refusing c computed else hret (Ok computed)) in
      let answer := mkResetResponse (s_Domain snapshot) (default "" (head (se_RuleIDs (rc_Selector c)))) version
                      (rc_AxesByName c) computed (rc_DryRun c) None None in
      let! outcome := do_Reset (mkAddressed name (command c) drop (rc_DryRun c) (recorded answer)) in
      hret (match outcome with
            | None | Some (Err _) => Err storeDown
            | Some (Ok outcome) =>
                if ao_Replayed outcome && negb (bool_decide (ao_Command outcome = command c))
                then Err (conflict ConflictCommandMismatch)
                else Ok (counted_response answer (ao_Count outcome))
            end)
  end.

(** [None] when the call is not answered from a record. *)
Definition replayReset (q : Values) (name : string) : handler (result apiError (option ResetResponse)) :=
  match resetBinding q with
  | Err _ => hret (Ok None)
  | Ok binding =>
      let! record := do_Lookup (mkKeys name "" "") in
      hret (match record with
            | None => Err storeDown
            | Some record =>
                if negb (r_Found record) || negb (r_Terminal record) || bool_decide (r_Answer record = "") then Ok None
                else if negb (bool_decide (r_Command record = binding)) then Err (conflict ConflictCommandMismatch)
                else match UnmarshalReset (r_Answer record) with
                     | None => Err (errorf CodeInternal [])
                     | Some response => Ok (Some (counted_response response (pg_Reset (r_Progress record))))
                     end
            end)
  end.

(** [None] is the panic on an empty namespace or domain. *)
Definition handleReset (namespace : string) (rules : RuleSet) (domain header subject : string) (q : Values)
    : handler (option (result apiError ResetResponse)) :=
  match api_snapshot rules domain with
  | Err e => hret (Some (Err e))
  | Ok (snapshot, version) =>
      match idempotencyKeyOf header with
      | Err e => hret (Some (Err e))
      | Ok key =>
          match checkQueryNames q (selectorParams ["dryRun"; "expectedRuleSetVersion"]) with
          | Err e => hret (Some (Err e))
          | Ok _ =>
              match recordKey namespace (s_Domain snapshot) endpointCounters subject key with
              | None => hret None
              | Some name =>
                  let! replayed := replayReset q name in
                  match replayed with
                  | Err e => hret (Some (Err e))
                  | Ok (Some response) => hret (Some (Ok response))
                  | Ok None =>
                      match parseReset snapshot q with
                      | Err e => hret (Some (Err e))
                      | Ok c =>
                          match unnormalized snapshot (singleValues (rc_AxesByName c))
                                  (capturedKeys snapshot [bl_Name (rc_block c)]) axisField with
                          | Err e => hret (Some (Err e))
                          | Ok _ =>
                              if negb (bool_decide (rc_ExpectedVersion c = "")) &&
                                 negb (bool_decide (rc_ExpectedVersion c = version))
                              then hret (Some (Err (conflict ConflictStaleRuleSet)))
                              else let! response := runReset snapshot version c name in hret (Some response)
                          end
                      end
                  end
              end
          end
      end
  end.

End platform.

(** * Facts about the addressed reset

    What a run of the handler performs, what the computed keys are among the
    buckets of the enforced set, and the addressed identity. *)

(** ** Text *)

Definition ascii_only (s : string) : bool := forallb (byte_in 0 127) (String.list_ascii_of_string s).

Lemma utf8_ascii s : ascii_only s = true -> utf8 s.
Proof.
  unfold ascii_only, utf8. rewrite forallb_forall. set (l := String.list_ascii_of_string s). intros H.
  replace l with (concat ((fun c => [c]) <$> l)); [|clear H; induction l as [|c l IH]; [done|]; cbn; by f_equal].
  apply valid_concat, Forall_fmap, Forall_forall. intros c Hc%list_elem_of_In%H. split; [|done]. unfold rune_width. by rewrite Hc.
Qed.

Lemma hex_lower_ascii n : (n < 16)%nat -> byte_in 0 127 (hex_lower n) = true.
Proof. intros Hn. do 16 (destruct n as [|n]; [done|]). lia. Qed.

Lemma hex_encode_ascii s : ascii_only (hex_encode s) = true.
Proof.
  induction s as [|c s IH]; [done|]. cbn [hex_encode]. unfold ascii_only in *. cbn [String.list_ascii_of_string forallb].
  pose proof (Ascii.nat_ascii_bounded c). rewrite IH, !hex_lower_ascii; [done|by apply Nat.mod_upper_bound|].
  apply Nat.Div0.div_lt_upper_bound. lia.
Qed.

Lemma take_str_ascii n s : ascii_only s = true -> ascii_only (take_str n s) = true.
Proof.
  unfold take_str, ascii_only. revert n. induction s as [|c s IH]; intros [|n]; cbn; [done..|].
  intros [-> Hs]%andb_true_iff. by apply IH.
Qed.

(** ** Histories *)

Lemma rrun_app ops1 ops2 m : rrun (ops1 ++ ops2) m = rrun ops2 (rrun ops1 m).
Proof. revert m. induction ops1 as [|[t op] ops1 IH]; intros m; [done|]. apply IH. Qed.

Lemma ops_of_app h1 h2 : ops_of (h1 ++ h2) = ops_of h1 ++ ops_of h2.
Proof. apply fmap_app. Qed.

Lemma own_app h1 h2 : own (h1 ++ h2) = own h1 ++ own h2.
Proof. unfold own. by rewrite filter_app, fmap_app. Qed.

Lemma ops_of_others (ops : list (Z * rop)) : ops_of ((fun o : Z * rop => mkEvent false o.1 o.2) <$> ops) = ops.
Proof. unfold ops_of. induction ops as [|[t op] ops IH]; [done|]. rewrite !fmap_cons. by f_equal. Qed.

Lemma own_others (ops : list (Z * rop)) : own ((fun o : Z * rop => mkEvent false o.1 o.2) <$> ops) = [].
Proof. unfold own. induction ops as [|[t op] ops IH]; [done|]. by rewrite fmap_cons, filter_cons_False. Qed.

(** A handler's history explains its state and only grows. *)
Definition grows {A} (c : handler A) : Prop :=
  forall w h, exists more, h_history (c w h).2 = h_history h ++ more /\
    h_mem (c w h).2 = rrun (ops_of more) (h_mem h).

Lemma hret_grows {A} (a : A) : grows (hret a).
Proof. intros w h. exists []. by rewrite app_nil_r. Qed.

Lemma hbind_grows {A B} (c : handler A) (k : A -> handler B) :
  grows c -> (forall a, grows (k a)) -> grows (hbind c k).
Proof.
  intros Hc Hk w h. unfold hbind. destruct (Hc w h) as (m1 & Hh1 & Hm1). destruct (c w h) as [a h1]. simpl in *.
  destruct (Hk a w h1) as (m2 & Hh2 & Hm2). exists (m1 ++ m2).
  by rewrite Hh2, Hh1, app_assoc, Hm2, Hm1, ops_of_app, rrun_app.
Qed.

Lemma hbind_ok_grows {E A B} (c : handler (result E A)) (k : A -> handler (result E B)) :
  grows c -> (forall a, grows (k a)) -> grows (hbind_ok c k).
Proof. intros Hc Hk. apply hbind_grows; [done|]. intros []; [done|apply hret_grows]. Qed.

Lemma clock_grows : grows clock_now.
Proof. intros w h. exists []. by rewrite app_nil_r. Qed.

Lemma perform_grows {A} (op : Z -> rop) (answer : Z -> MemoryRecords -> A) : grows (perform op answer).
Proof.
  intros w h. unfold perform.
  destruct (wd_fault w (h_calls h)) as [[]|]; eexists; (split; [reflexivity|]); simpl;
    rewrite ?ops_of_app, ?rrun_app, ops_of_others; done.
Qed.

Create HintDb handlers.
#[export] Hint Resolve hret_grows hbind_grows hbind_ok_grows clock_grows perform_grows : handlers.

(** ** The limited filter *)

(** What one bucket of a call is judged by is its own counter. *)
Lemma evalAll_alone now bs : forall m m1 os i b o,
  NoDup (b_Key <$> bs) -> Memory.evalAll now bs m = (m1, Ok os) -> bs !! i = Some b -> os !! i = Some o ->
  (Memory.evalAll now [b] m).2 = Ok [o].
Proof.
  induction bs as [|b0 bs IH]; intros m m1 os i b o Hnd He Hb Ho; [done|].
  rewrite fmap_cons in Hnd. apply NoDup_cons in Hnd as [Hni Hnd]. cbn [Memory.evalAll] in He.
  destruct (touch now b0 m) as [[m2 e] ok] eqn:Et.
  destruct (if b_Algorithm b0 =? GCRAID then _ else _) as [o0|] eqn:E0; [|done].
  destruct (Memory.evalAll now bs m2) as [m3 [os'|]] eqn:E2; [|done]. injection He as <- <-.
  destruct i as [|i]; cbn in Hb, Ho.
  - injection Hb as <-. injection Ho as <-. cbn [Memory.evalAll]. by rewrite Et, E0.
  - rewrite <- (IH m2 m3 os' i b o Hnd E2 Hb Ho). cbn [Memory.evalAll].
    assert (m2 !! b_Key b = m !! b_Key b) as Hsame.
    { assert (b_Key b0 <> b_Key b) as Hne.
      { intros E. apply Hni. rewrite E. apply list_elem_of_fmap_2. by eapply list_elem_of_lookup_2. }
      unfold touch in Et. destruct (m !! b_Key b0); [destruct (_ || _)|]; simplify_eq; [by rewrite lookup_delete_ne|done..]. }
    unfold touch. rewrite Hsame. destruct (m !! b_Key b); [destruct (_ || _)|];
      destruct (b_Algorithm b =? GCRAID); try done; destruct (b_Algorithm b =? FixedWindowID); done.
Qed.

(** So a peek over many counters tells of each what a decision of cost one on
    it alone would be. *)
Lemma peek_tells now bs m vs i k ref v :
  (Peek now bs m).2 = Ok vs -> bs !! i = Some (peek_bucket k ref) -> vs !! i = Some v ->
  refused_now (H := memory_store key_kind) now m k ref = negb (v_Allowed v).
Proof.
  unfold Peek. destruct (GuardBuckets bs) as [[]|] eqn:Hg; [|done]. apply GuardBuckets_ok in Hg as [Hnd Hall].
  destruct (Memory.evalAll now bs m) as [m1 [os|]] eqn:He; [|done]. cbn [snd]. intros [= <-] Hb Hv.
  apply list_lookup_fmap_Some in Hv as (o & -> & Ho).
  pose proof (evalAll_alone now bs m m1 os i _ o Hnd He Hb Ho) as Ha.
  assert (GuardBuckets [peek_bucket k ref] = Ok tt) as Hg.
  { apply GuardBuckets_ok. split; [apply NoDup_singleton|]. apply Forall_singleton.
    rewrite Forall_forall in Hall. apply Hall. by eapply list_elem_of_lookup_2. }
  unfold refused_now. change (store_decide now [peek_bucket k ref] m) with (Decide now [peek_bucket k ref] m).
  unfold Decide. rewrite Hg. destruct (Memory.evalAll now [peek_bucket k ref] m) as [m2 r]. cbn [snd] in Ha. subst r.
  cbn [commit_loop]. destruct (all_admitted _ _) eqn:Ead, (o_allowed o) eqn:Eo; cbn [andb snd currentVerdict v_Allowed];
    rewrite ?Eo; done.
Qed.

(** A peek over well-formed buckets of the two algorithms answers. *)
Lemma peek_answers now bs m :
  GuardBuckets bs = Ok tt -> Forall (fun b => b_Algorithm b = GCRAID \/ b_Algorithm b = FixedWindowID) bs ->
  exists vs, (Peek now bs m).2 = Ok vs /\ length vs = length bs.
Proof.
  intros Hg Ha. unfold Peek. rewrite Hg. clear Hg.
  assert (exists m1 os, Memory.evalAll now bs m = (m1, Ok os) /\ length os = length bs) as (m1 & os & -> & Hl).
  { revert m. induction Ha as [|b bs Hb _ IH]; intros m; [by exists m, []|]. cbn [Memory.evalAll].
    destruct (touch now b m) as [[m1 e] ok]. destruct (IH m1) as (m2 & os & -> & Hl).
    destruct Hb as [-> | ->]; (eexists _, _; split; [reflexivity|cbn; lia]). }
  exists (map currentVerdict os). split; [done|]. by rewrite length_map.
Qed.

Lemma refused_keys_sub bs : forall vs, refused_keys bs vs `sublist_of` b_Key <$> bs.
Proof.
  induction bs as [|b bs IH]; intros [|v vs]; [constructor..| |]; [apply sublist_nil_l|].
  rewrite fmap_cons. unfold refused_keys. cbn [zip zip_with omap list_omap].
  destruct (v_Allowed _); [apply sublist_cons, IH|apply sublist_skip, IH].
Qed.

Lemma elem_of_refused bs vs k :
  k ∈ refused_keys bs vs <-> exists i b v, bs !! i = Some b /\ vs !! i = Some v /\ b_Key b = k /\ v_Allowed v = false.
Proof.
  unfold refused_keys. rewrite list_elem_of_omap. split.
  - intros ([b v] & [i Hi]%list_elem_of_lookup & Hk). apply lookup_zip_Some in Hi as [Hb Hv]. cbn in Hk.
    destruct (v_Allowed v) eqn:E; [done|]. injection Hk as <-. by exists i, b, v.
  - intros (i & b & v & Hb & Hv & <- & Hal). exists (b, v). split.
    + apply list_elem_of_lookup. exists i. by apply lookup_zip_Some.
    + cbn. by rewrite Hal.
Qed.

(** ** The identity addressed *)

Lemma axes_in_order_spec declared axes by_name ordered :
  axes_in_order declared axes = Ok (by_name, ordered) ->
  Forall2 (fun name v => axes !! name = Some [v] /\ by_name !! name = Some v) declared ordered.
Proof.
  revert by_name ordered. induction declared as [|name declared IH]; intros by_name ordered H; simpl in H.
  { injection H as _ <-. constructor. }
  destruct (axes !! name) as [[|v [|v' l]]|] eqn:Ha; simpl in H; try done.
  destruct (axes_in_order declared axes) as [[bn ord]|] eqn:E; simplify_eq/=.
  specialize (IH _ _ eq_refl). constructor; [split; [done|apply lookup_insert_eq]|].
  clear E. induction IH as [|n w ns ws [H1 H2] HF IHF]; constructor; [|done]. split; [done|].
  destruct (decide (n = name)) as [->|]; [|by rewrite lookup_insert_ne].
  rewrite lookup_insert_eq. congruence.
Qed.

Lemma resolveAxes_spec declared axes by_name ordered :
  resolveAxes declared axes = Ok (by_name, ordered) ->
  Forall2 (fun name v => axes !! name = Some [v] /\ by_name !! name = Some v) declared ordered.
Proof.
  unfold resolveAxes. destruct (filter _ _); [|done]. destruct (negb _); [done|]. apply axes_in_order_spec.
Qed.

Lemma find_rule_Some rules rule r : find_rule rules rule = Some r -> r ∈ rules /\ ru_Name r = rule.
Proof.
  induction rules as [|x rules IH]; [done|]. simpl. case_bool_decide as E.
  - intros [= <-]. split; [left|done].
  - intros [? ?]%IH. split; [by right|done].
Qed.

Lemma findRule_Some snapshot block rule b r :
  findRule snapshot block rule = Some (b, r) ->
  b ∈ s_Blocks snapshot /\ r ∈ bl_Rules b /\ bl_Name b = block /\ ru_Name r = rule.
Proof.
  unfold findRule. induction (s_Blocks snapshot) as [|x blocks IH]; [done|]. simpl.
  case_bool_decide as E; simpl; [|by intros (? & ? & ? & ?)%IH; split_and!; [right|..]].
  destruct (find_rule (bl_Rules x) rule) as [r'|] eqn:Ef; [|by intros (? & ? & ? & ?)%IH; split_and!; [right|..]].
  intros [= <- <-]. apply find_rule_Some in Ef as [? ?]. split_and!; [left|done..].
Qed.

Section platform.
Context {PL : Platform} {GT : GoText} {RT : ResetText}.

Lemma parseReset_spec snapshot q c :
  parseReset snapshot q = Ok c ->
  rc_block c ∈ s_Blocks snapshot /\ rc_rule c ∈ bl_Rules (rc_block c) /\
  se_RuleIDs (rc_Selector c) = [ruleID (bl_Name (rc_block c)) (ru_Name (rc_rule c))] /\
  Forall2 (fun name v => se_Axes (rc_Selector c) !! name = Some [v] /\ rc_AxesByName c !! name = Some v)
    (ru_Counters (rc_rule c)) (rc_Ordered c) /\
  checkQueryNames q (selectorParams ["dryRun"; "expectedRuleSetVersion"]) = Ok tt /\
  resetBinding q = Ok (command c).
Proof.
  unfold parseReset, resetBinding, command.
  destruct (checkQueryNames _ _) as [[]|] eqn:Eq; [|done].
  destruct (parseSelector q) as [sel|]; [|done].
  destruct (se_RuleIDs sel) as [|id [|]] eqn:Ei; try done.
  unfold splitFullID. destruct (Split "/" id) as [|block [|rule [|]]] eqn:Es; try done.
  destruct (bool_decide (block = "") || bool_decide (rule = "")); [done|].
  destruct (parseEnumTrue q "dryRun") as [dry|]; [|done].
  destruct (findRule snapshot block rule) as [[b r]|] eqn:Ef; [|done].
  destruct (resolveAxes (ru_Counters r) (se_Axes sel)) as [[bn ord]|] eqn:Er; [|done].
  intros [= <-]. simpl. apply findRule_Some in Ef as (? & ? & <- & <-). apply resolveAxes_spec in Er.
  rewrite Ei. split_and!; try done. f_equal. by rewrite <- (Join_Split "/"%char id), Es.
Qed.

(** ** The computed keys *)

Lemma elem_of_keys c k :
  k ∈ keys c <-> exists rate, rate ∈ ru_Rates (rc_rule c) /\ windowSelected (rc_Selector c) rate = true /\
    k = Key.Bucket (ra_Prefix rate) (rc_Ordered c).
Proof.
  unfold keys. rewrite sort_strings_Permutation, (proj2 (unique_loop_spec ∅ _)), list_elem_of_fmap.
  setoid_rewrite list_elem_of_filter. set_solver.
Qed.

(** Among the buckets of the enforced set the computed keys are those of the
    rule, for the identity, in the selected windows. *)
Lemma keys_are_buckets cap ns snapshot c block rule ctx b :
  snapshot_ok cap ns snapshot -> rc_block c ∈ s_Blocks snapshot -> rc_rule c ∈ bl_Rules (rc_block c) ->
  block ∈ s_Blocks snapshot -> rule ∈ bl_Rules block -> b ∈ m_Buckets (matchedRule block rule ctx) ->
  b_Key b ∈ keys c <->
  block = rc_block c /\ rule = rc_rule c /\ rule_axes rule ctx = rc_Ordered c /\
  exists rate, rate ∈ ru_Rates rule /\ b_Key b = Key.Bucket (ra_Prefix rate) (rule_axes rule ctx) /\
    windowSelected (rc_Selector c) rate = true.
Proof.
  intros Hok Hcb Hcr Hb Hr Hin. rewrite elem_of_keys. split.
  - intros (rate & Hrate & Hw & Hk).
    destruct (matchedRule_bucket cap ns snapshot block rule ctx b Hok Hb Hr Hin) as (x & Ho & _).
    assert (bucket_of cap ns snapshot (rc_block c) (rc_rule c) rate (rc_Ordered c)
              (mkBucket (b_Key b) (ID (ra_Algorithm rate)) (ra_Window rate) false 1)) as Ho2.
    { split_and!; try done. eapply (ref_rate_ok cap ns snapshot (mkRateRef (rc_block c) (rc_rule c) rate)); [done|].
      by apply elem_of_rate_refs. }
    destruct (bucket_of_inj _ _ _ _ _ _ _ _ _ _ _ _ _ Ho Ho2 eq_refl) as (Ebn & Ern & _ & _ & Ea).
    pose proof Hok as (Hnb & Hbs & _). assert (block = rc_block c) as -> by (by eapply NoDup_fmap_eq).
    rewrite Forall_forall in Hbs. destruct (Hbs _ Hb) as (Hnr & _).
    assert (rule = rc_rule c) as -> by (by eapply NoDup_fmap_eq).
    split_and!; try done. exists rate. split_and!; try done. by rewrite Ea.
  - intros (-> & -> & Ea & rate & Hrate & Hk & Hw). exists rate. split_and!; try done. by rewrite Hk, Ea.
Qed.

(** *** The keys that refuse *)

Lemma keys_nodup c : NoDup (keys c).
Proof. unfold keys. rewrite sort_strings_Permutation. apply unique_loop_spec. Qed.

Lemma foldl_insert_lookup {A} (f : A -> string) (l : list A) acc x :
  x ∈ l -> exists y, foldl (fun (m : gmap string A) r => <[f r := r]> m) acc l !! f x = Some y /\ y ∈ l /\ f y = f x.
Proof.
  induction l as [|r l IH] using rev_ind; intros Hin; [by apply elem_of_nil in Hin|]. rewrite foldl_app. cbn [foldl].
  destruct (decide (f r = f x)) as [E|Hne].
  - exists r. rewrite E, lookup_insert_eq. split_and!; [done| |done]. apply elem_of_app. right. by left.
  - rewrite lookup_insert_ne by done. apply elem_of_app in Hin as [Hin|Hin]; [|by apply list_elem_of_singleton in Hin as ->].
    destruct (IH Hin) as (y & Hy & Hyl & Ey). exists y. split_and!; [done| |done]. apply elem_of_app. by left.
Qed.

(** The bucket a computed key is judged under. *)
Lemma reset_bucket c k :
  k ∈ keys c -> exists rate, rate ∈ ru_Rates (rc_rule c) /\ k = Key.Bucket (ra_Prefix rate) (rc_Ordered c) /\
    by_prefix c !! k = Some rate.
Proof.
  intros (rate & Hr & _ & ->)%elem_of_keys.
  destruct (foldl_insert_lookup (fun r => Key.Bucket (ra_Prefix r) (rc_Ordered c)) (ru_Rates (rc_rule c)) ∅ rate Hr)
    as (y & Hy & Hyl & Ey). by exists y.
Qed.

Lemma reset_buckets_lookup c ks i b :
  (forall k, k ∈ ks -> k ∈ keys c) -> reset_buckets c ks !! i = Some b ->
  exists k rate, ks !! i = Some k /\ rate ∈ ru_Rates (rc_rule c) /\ k = Key.Bucket (ra_Prefix rate) (rc_Ordered c) /\
    b = peek_bucket k (mkRateRef (rc_block c) (rc_rule c) rate).
Proof.
  revert i. induction ks as [|k ks IH]; intros i Hks Hb; [done|]. unfold reset_buckets in Hb. cbn [omap list_omap] in Hb.
  destruct (reset_bucket c k (Hks k (list_elem_of_here _ _))) as (rate & Hr & Hk & Hp). rewrite Hp in Hb. cbn in Hb.
  destruct i as [|i].
  - injection Hb as <-. by exists k, rate.
  - destruct (IH i) as (k' & rate' & ?); [intros; apply Hks; by right|exact Hb|]. by exists k', rate'.
Qed.

Lemma reset_buckets_keys c ks : (forall k, k ∈ ks -> k ∈ keys c) -> b_Key <$> reset_buckets c ks = ks.
Proof.
  induction ks as [|k ks IH]; intros Hks; [done|]. unfold reset_buckets. cbn [omap list_omap].
  destruct (reset_bucket c k (Hks k (list_elem_of_here _ _))) as (rate & _ & _ & Hp). rewrite Hp. cbn [fmap option_fmap option_map].
  rewrite fmap_cons. cbn [b_Key]. f_equal. apply IH. intros. apply Hks. by right.
Qed.

(** The keys the limited filter keeps: those of the computed ones on which a
    decision of cost one would be refused. *)
Lemma refusing_keys cap ns snapshot c now m :
  snapshot_ok cap ns snapshot -> rc_block c ∈ s_Blocks snapshot -> rc_rule c ∈ bl_Rules (rc_block c) ->
  exists vs, (Peek now (reset_buckets c (keys c)) m).2 = Ok vs /\ length vs = length (reset_buckets c (keys c)) /\
    NoDup (refused_keys (reset_buckets c (keys c)) vs) /\
    forall k, k ∈ refused_keys (reset_buckets c (keys c)) vs <->
      k ∈ keys c /\ exists rate, rate ∈ ru_Rates (rc_rule c) /\ k = Key.Bucket (ra_Prefix rate) (rc_Ordered c) /\
        refused_now (H := memory_store key_kind) now m k (mkRateRef (rc_block c) (rc_rule c) rate) = true.
Proof.
  intros Hok Hb Hr. set (bs := reset_buckets c (keys c)).
  assert (b_Key <$> bs = keys c) as Hkeys by (by apply reset_buckets_keys).
  assert (forall i b, bs !! i = Some b -> exists k rate, keys c !! i = Some k /\ rate ∈ ru_Rates (rc_rule c) /\
            k = Key.Bucket (ra_Prefix rate) (rc_Ordered c) /\ b = peek_bucket k (mkRateRef (rc_block c) (rc_rule c) rate)) as Hbs
    by (intros; by apply reset_buckets_lookup).
  assert (forall rate, rate ∈ ru_Rates (rc_rule c) -> mkRateRef (rc_block c) (rc_rule c) rate ∈ rate_refs snapshot) as Href
    by (intros; by apply elem_of_rate_refs).
  assert (Forall (bucket_ok cap key_kind) bs) as Hbok.
  { apply Forall_forall. intros b [i Hi]%list_elem_of_lookup. destruct (Hbs i b Hi) as (k & rate & _ & Hrate & -> & ->).
    eapply candidate_bucket_ok; [done|by apply Href|]. by apply (ref_bucket_kind cap ns snapshot (mkRateRef _ _ rate)), Href. }
  assert (GuardBuckets bs = Ok tt) as Hg.
  { apply GuardBuckets_ok. rewrite Hkeys. split; [apply keys_nodup|]. eapply Forall_impl; [exact Hbok|]. apply bucket_ok_guard. }
  destruct (peek_answers now bs m Hg) as (vs & Hvs & Hlen).
  { eapply Forall_impl; [exact Hbok|]. intros b (_ & -> & _). destruct (k_alg _); auto. }
  exists vs. split_and!; [done|done| |].
  - eapply sublist_NoDup; [|apply refused_keys_sub]. rewrite Hkeys. apply keys_nodup.
  - intros k. rewrite elem_of_refused. split.
    + intros (i & b & v & Hi & Hv & <- & Hal). destruct (Hbs i b Hi) as (k & rate & Hk & Hrate & Ek & ->). cbn [peek_bucket b_Key].
      split; [by eapply list_elem_of_lookup_2|]. exists rate. split_and!; [done..|].
      by rewrite (peek_tells now bs m vs i k _ v Hvs Hi Hv), Hal.
    + intros (Hin & rate & Hrate & Hk & Href1). pose proof Hin as [i Hi]%list_elem_of_lookup. rewrite <- Hkeys in Hi.
      apply list_lookup_fmap_Some in Hi as (b & Ekb & Hi). destruct (Hbs i b Hi) as (k' & rate' & Hk' & Hrate' & Ek' & ->).
      cbn in Ekb. subst k'. destruct (lookup_lt_is_Some_2 vs i) as [v Hv].
      { rewrite Hlen. by eapply lookup_lt_Some. }
      assert (rate' = rate) as ->.
      { assert (mkRateRef (rc_block c) (rc_rule c) rate' = mkRateRef (rc_block c) (rc_rule c) rate) as E; [|by injection E].
        apply (rate_ref_unique cap ns snapshot); [done|by apply Href|by apply Href|]. cbn.
        rewrite Ek' in Hk. unfold Key.Bucket in Hk. by eapply app_str_inj_r. }
      exists i, (peek_bucket k (mkRateRef (rc_block c) (rc_rule c) rate)), v. split_and!; [done..|].
      rewrite (peek_tells now bs m vs i k _ v Hvs Hi Hv) in Href1. by apply negb_true_iff.
Qed.

Lemma key_nonempty cap ns snapshot c :
  snapshot_ok cap ns snapshot -> rc_block c ∈ s_Blocks snapshot -> rc_rule c ∈ bl_Rules (rc_block c) ->
  "" ∉ keys c.
Proof.
  intros Hok Hb Hr (rate & Hrate & _ & Hk)%elem_of_keys.
  destruct (ref_rate_ok cap ns snapshot (mkRateRef (rc_block c) (rc_rule c) rate) Hok) as (_ & Hp & _).
  { by apply elem_of_rate_refs. }
  unfold RatePrefix, RulePrefix, DomainPrefix in Hp.
  destruct (DomainTag _ _); [|done]. simpl in Hp. injection Hp as Hp. rewrite <- Hp in Hk. done.
Qed.

End platform.
