(* ===== verification/AddrResetClaims.v ===== *)
(** * What the addressed reset promises

    It removes exactly the live counters of one rule, one identity and the
    selected windows; its answer is bound to its idempotency key; a retry is
    answered from the record whatever is enforced by then. *)
From S2P Require Import Prelude GoStrings Algo Key StoreApi Memory MemoryScan Model Compile CompileFacts Match MatchFacts MatchKeys Identity.
From S2P Require Import Records RecordsClaims MgmtKeys RuleView MgmtErrors Selector Listing ListingFacts Manifest ConfigStore SvcConfig.
From S2P Require Import MgmtCalls AddrReset.

Section platform.
Context {PL : Platform} {GT : GoText} {RT : ResetText}.

(** ** What a run performs *)

(** The guards a new command passes before anything is bound. *)
Definition admissible (snapshot : Snapshot) (version : string) (q : Values) (c : resetCommand) : Prop :=
  parseReset snapshot q = Ok c /\
  unnormalized snapshot (singleValues (rc_AxesByName c)) (capturedKeys snapshot [bl_Name (rc_block c)]) axisField = Ok tt /\
  (rc_ExpectedVersion c = "" \/ rc_ExpectedVersion c = version) /\ keys c <> [].

(** The answer of a command but for its count. *)
Definition answer_of (snapshot : Snapshot) (version : string) (c : resetCommand) : ResetResponse :=
  mkResetResponse (s_Domain snapshot) (ruleID (bl_Name (rc_block c)) (ru_Name (rc_rule c))) version
    (rc_AxesByName c) (keys c) (rc_DryRun c) None None.

(** A call past its guards is the replay, or the run. *)
Lemma handleReset_eq ns rules domain header subject q snapshot version key name c :
  api_snapshot rules domain = Ok (snapshot, version) -> idempotencyKeyOf header = Ok key ->
  recordKey ns (s_Domain snapshot) endpointCounters subject key = Some name -> admissible snapshot version q c ->
  handleReset ns rules domain header subject q =
  (let! replayed := replayReset q name in
   match replayed with
   | Err e => hret (Some (Err e))
   | Ok (Some response) => hret (Some (Ok response))
   | Ok None => let! response := runReset snapshot version c name in hret (Some response)
   end).
Proof.
  intros Hs Hk Hn (Hp & Hu & Hv & _). unfold handleReset. rewrite Hs, Hk, Hn.
  destruct (parseReset_spec _ _ _ Hp) as (_ & _ & _ & _ & -> & _). rewrite Hp, Hu.
  replace (negb (bool_decide (rc_ExpectedVersion c = "")) && negb (bool_decide (rc_ExpectedVersion c = version)))
    with false; [done|]. destruct Hv as [->| ->]; [done|].
  rewrite (bool_decide_true (version = version)) by done. by rewrite andb_false_r.
Qed.

Lemma replayReset_unbound q name w h binding :
  resetBinding q = Ok binding -> wd_fault w (h_calls h) = None ->
  (record (wd_clock w (h_calls h)) name (rrun (wd_others w (h_calls h)) (h_mem h))).2 = None ->
  (replayReset q name w h).1 = Ok None.
Proof.
  intros Hb Hf Hr. unfold replayReset. rewrite Hb. unfold hbind, do_Lookup, perform. rewrite Hf.
  cbn [fst]. unfold hret, Lookup, Records.read. cbn [k_Record fst]. destruct (record _ _ _) as [m [e|]]; [done|reflexivity].
Qed.

Lemma runReset_eq snapshot version c name q :
  parseReset snapshot q = Ok c -> keys c <> [] ->
  runReset snapshot version c name =
  (let!? drop := (if se_LimitedOnly (rc_Selector c) then refusing c (keys c) else hret (Ok (keys c))) in
   let! outcome := do_Reset (mkAddressed name (command c) drop (rc_DryRun c) (recorded (answer_of snapshot version c))) in
   hret (match outcome with
         | None | Some (Err _) => Err storeDown
         | Some (Ok outcome) =>
             if ao_Replayed outcome && negb (bool_decide (ao_Command outcome = command c))
             then Err (conflict ConflictCommandMismatch)
             else Ok (counted_response (answer_of snapshot version c) (ao_Count outcome))
         end)).
Proof.
  intros Hp Hk. unfold runReset, answer_of. destruct (parseReset_spec _ _ _ Hp) as (_ & _ & Hi & _). rewrite Hi.
  destruct (keys c) as [|k l]; done.
Qed.

(** Which of the handler's calls the reset is: a limited one peeks first. *)
Definition reset_call (c : resetCommand) : nat := if se_LimitedOnly (rc_Selector c) then 2 else 1.

(** What reached the stores before the judgement of a limited reset, and
    before the reset itself. *)
Definition judge_ops (w : world) (name : string) : list (Z * rop) :=
  wd_others w 0 ++ (wd_clock w 0, OLookup (mkKeys name "" "")) :: wd_others w 1.

Definition reset_ops (w : world) (name : string) (c : resetCommand) : list (Z * rop) :=
  judge_ops w name ++
  (if se_LimitedOnly (rc_Selector c)
   then (wd_clock w 1, OCounters (fun cs => (Peek (wd_clock w 1 / 1000) (reset_buckets c (keys c)) cs).1)) :: wd_others w 2
   else []).

Definition at_reset (w : world) (name : string) (c : resetCommand) (m : MemoryRecords) : MemoryRecords :=
  rrun (reset_ops w name c) m.

(** The counter of a key refuses, as the judgement finds it: a decision of cost
    one on it alone would not be allowed. *)
Definition judged_refusing (w : world) (name : string) (c : resetCommand) (m : MemoryRecords) (k : string) : Prop :=
  exists rate, rate ∈ ru_Rates (rc_rule c) /\ k = Key.Bucket (ra_Prefix rate) (rc_Ordered c) /\
    refused_now (H := memory_store key_kind) (wd_clock w 1 / 1000) (mm_counters (rrun (judge_ops w name) m)) k
      (mkRateRef (rc_block c) (rc_rule c) rate) = true.

(** What a reset is to delete: the computed keys, under the limited filter
    those that refuse. *)
Definition to_drop (w : world) (name : string) (c : resetCommand) (m : MemoryRecords) (drop : list string) : Prop :=
  NoDup drop /\
  forall k, k ∈ drop <-> k ∈ keys c /\ (se_LimitedOnly (rc_Selector c) = true -> judged_refusing w name c m k).

Lemma handleReset_run cap ns rules domain header subject q snapshot version key name c w m :
  snapshot_ok cap ns snapshot ->
  api_snapshot rules domain = Ok (snapshot, version) -> idempotencyKeyOf header = Ok key ->
  recordKey ns (s_Domain snapshot) endpointCounters subject key = Some name -> admissible snapshot version q c ->
  wd_fault w 0 = None -> wd_fault w 1 = None -> wd_fault w (reset_call c) = None ->
  (record (wd_clock w 0) name (rrun (wd_others w 0) m)).2 = None ->
  exists drop, to_drop w name c m drop /\
  let a := mkAddressed name (command c) drop (rc_DryRun c) (recorded (answer_of snapshot version c)) in
  let t := wd_clock w (reset_call c) in
  exists h, handleReset ns rules domain header subject q w (start m) =
    (Some (match (Reset t a (at_reset w name c m)).2 with
           | Err _ => Err storeDown
           | Ok outcome =>
               if ao_Replayed outcome && negb (bool_decide (ao_Command outcome = command c))
               then Err (conflict ConflictCommandMismatch)
               else Ok (counted_response (answer_of snapshot version c) (ao_Count outcome))
           end), h) /\
    h_mem h = (Reset t a (at_reset w name c m)).1.
Proof.
  intros Hok Hs Hk Hn Ha Hf0 Hf1 Hf2 Hr. rewrite (handleReset_eq _ _ _ _ _ _ _ _ _ _ _ Hs Hk Hn Ha).
  destruct Ha as (Hp & _ & _ & Hne). destruct (parseReset_spec _ _ _ Hp) as (Hblk & Hrl & _ & _ & _ & Hb).
  unfold hbind at 1. pose proof (replayReset_unbound q name w (start m) _ Hb Hf0 Hr) as Hrep.
  destruct (replayReset q name w (start m)) as [x h0] eqn:E. simpl in Hrep. subst x.
  unfold replayReset in E. rewrite Hb in E. unfold hbind, do_Lookup, perform in E. simpl in E. rewrite Hf0 in E.
  injection E as _ <-. unfold hbind at 1. rewrite (runReset_eq _ _ _ _ _ Hp Hne).
  unfold at_reset, reset_ops, to_drop, reset_call in *. destruct (se_LimitedOnly (rc_Selector c)) eqn:El.
  - destruct (refusing_keys cap ns snapshot c (wd_clock w 1 / 1000) (mm_counters (rrun (judge_ops w name) m)) Hok Hblk Hrl)
      as (vs & Hvs & Hlen & Hnd & Hin).
    exists (refused_keys (reset_buckets c (keys c)) vs). split.
    { split; [done|]. intros k. rewrite Hin. unfold judged_refusing. split; [by intros [? ?]|intros [? Hj]; split; [done|by apply Hj]]. }
    unfold judge_ops in *. rewrite !rrun_app in *. cbn [rrun rstep] in *. cbn zeta.
    unfold hbind_ok, hbind, refusing, hbind, hret, do_Peek, do_Reset, perform. cbn [h_calls h_mem]. rewrite Hf1.
    rewrite Hvs, Hlen, Nat.eqb_refl. cbn [negb h_calls h_mem]. rewrite Hf2.
    eexists. split; [reflexivity|]. reflexivity.
  - exists (keys c). split; [split; [apply keys_nodup|intros k; naive_solver]|].
    unfold judge_ops. rewrite app_nil_r, rrun_app. cbn [rrun]. cbn zeta.
    unfold hbind_ok, hbind, hret, do_Reset, perform. cbn [h_calls h_mem]. rewrite Hf1. eexists. split; reflexivity.
Qed.

Lemma drop_nonempty cap ns snapshot c w name m drop :
  snapshot_ok cap ns snapshot -> rc_block c ∈ s_Blocks snapshot -> rc_rule c ∈ bl_Rules (rc_block c) ->
  to_drop w name c m drop -> "" ∉ drop.
Proof. intros Hok Hb Hr [_ Hin] [Hk _]%Hin. by eapply key_nonempty. Qed.

(** ** Retries *)

(** A call whose record is terminal and answered is a replay, whatever else
    the domain enforces by then. *)
Lemma handleReset_replay ns rules domain header subject q snapshot version key name w h e binding :
  api_snapshot rules domain = Ok (snapshot, version) -> idempotencyKeyOf header = Ok key ->
  recordKey ns (s_Domain snapshot) endpointCounters subject key = Some name ->
  checkQueryNames q (selectorParams ["dryRun"; "expectedRuleSetVersion"]) = Ok tt ->
  resetBinding q = Ok binding -> wd_fault w (h_calls h) = None ->
  mm_records (rrun (wd_others w (h_calls h)) (h_mem h)) !! name = Some e ->
  wd_clock w (h_calls h) < re_expiresAt e -> re_terminal e = true -> re_answer e <> "" ->
  exists h', handleReset ns rules domain header subject q w h =
    (Some (if bool_decide (re_command e = binding)
           then match UnmarshalReset (re_answer e) with
                | Some r => Ok (counted_response r (pg_Reset (re_progress e)))
                | None => Err (errorf CodeInternal [])
                end
           else Err (conflict ConflictCommandMismatch)), h') /\
    own (h_history h') = own (h_history h) ++ [(wd_clock w (h_calls h), OLookup (mkKeys name "" ""))].
Proof.
  intros Hs Hk Hn Hq Hb Hf He Ht Hte Han. unfold handleReset. rewrite Hs, Hk, Hq, Hn.
  unfold replayReset. rewrite Hb. unfold hbind, do_Lookup, perform, hret. rewrite Hf. cbn beta iota zeta.
  assert ((Lookup (wd_clock w (h_calls h)) (mkKeys name "" "") (rrun (wd_others w (h_calls h)) (h_mem h))).2 =
    mkRecord true (re_command e) true (re_outcome e) (re_progress e) (re_answer e) (re_fencing e)
      (match lease_of (wd_clock w (h_calls h)) "" (rrun (wd_others w (h_calls h)) (h_mem h)) with
       | Some l => l_value l | None => "" end)
      (match lease_of (wd_clock w (h_calls h)) "" (rrun (wd_others w (h_calls h)) (h_mem h)) with
       | Some l => l_expiresAt l - wd_clock w (h_calls h) | None => 0 end)) as ->.
  { unfold Lookup, Records.read. cbn [k_Record k_Lease]. rewrite (record_found _ _ _ e He Ht), Hte.
    by destruct (lease_of _ _ _). }
  cbn [r_Found r_Terminal r_Answer r_Command r_Progress negb orb]. rewrite (bool_decide_false (re_answer e = "")) by done.
  destruct (bool_decide (re_command e = binding)); cbn [negb]; [destruct (UnmarshalReset (re_answer e))|];
    (eexists; split; [reflexivity|]); cbn [h_history]; rewrite !own_app, own_others; done.
Qed.

End platform.

(** ** Claims *)

(** C23: An addressed reset that finds its key unbound, and whose store calls do
    not fail, succeeds. It removes
    exactly the live ones of the keys to drop, and a preview none: the keys to
    drop are the computed keys, and under the limited filter those of them whose
    counter, when the handler judged it, would have refused a decision of cost
    one. The computed keys are exactly the buckets the engine charges the
    addressed rule for the addressed identity in the selected windows. The
    answer lists the computed keys and counts the live ones among those to drop,
    and every axis the rule counts by was given exactly one value. Other
    operations may run between its store calls. *)
Theorem addressed_reset_exact : forall {PL : Platform} {GT : GoText} {RT : ResetText} cap ns rules domain header subject q snapshot version key name c w m,
  snapshot_ok cap ns snapshot ->
  api_snapshot rules domain = Ok (snapshot, version) -> idempotencyKeyOf header = Ok key ->
  recordKey ns (s_Domain snapshot) endpointCounters subject key = Some name -> admissible snapshot version q c ->
  wd_fault w 0 = None -> wd_fault w 1 = None -> wd_fault w (reset_call c) = None ->
  (record (wd_clock w 0) name (rrun (wd_others w 0) m)).2 = None ->
  let t := wd_clock w (reset_call c) in
  (record t name (at_reset w name c m)).2 = None ->
  let live k := counted t (mm_counters (at_reset w name c m)) k in
  exists drop h, to_drop w name c m drop /\
    handleReset ns rules domain header subject q w (start m) =
    (Some (Ok (counted_response (answer_of snapshot version c)
       (Z.of_nat (length (filter (fun k => live k = true) drop))))), h) /\
    (forall k, counted t (mm_counters (h_mem h)) k =
       live k && (rc_DryRun c || negb (bool_decide (k ∈ drop)))) /\
    (forall block rule ctx b,
       block ∈ s_Blocks snapshot -> rule ∈ bl_Rules block -> b ∈ m_Buckets (matchedRule block rule ctx) ->
       b_Key b ∈ keys c <->
       block = rc_block c /\ rule = rc_rule c /\ rule_axes rule ctx = rc_Ordered c /\
       exists rate, rate ∈ ru_Rates rule /\ b_Key b = Key.Bucket (ra_Prefix rate) (rule_axes rule ctx) /\
         windowSelected (rc_Selector c) rate = true) /\
    Forall2 (fun name v => se_Axes (rc_Selector c) !! name = Some [v]) (ru_Counters (rc_rule c)) (rc_Ordered c).
Proof.
  intros PL GT RT cap ns rules domain header subject q snapshot version key name c w m Hok Hs Hk Hn Ha Hf0 Hf1 Hf2 Hr0 t Hr1 live.
  destruct (handleReset_run cap ns rules domain header subject q snapshot version key name c w m Hok Hs Hk Hn Ha Hf0 Hf1 Hf2 Hr0)
    as (drop & Hdrop & h & Hrun & Hm).
  destruct Ha as (Hp & _ & _ & Hne). destruct (parseReset_spec _ _ _ Hp) as (Hb & Hr & _ & Hax & _).
  destruct (Reset_unbound t
    (mkAddressed name (command c) drop (rc_DryRun c) (recorded (answer_of snapshot version c))) (at_reset w name c m))
    as (m' & HR & _ & Hc); [done|by eapply drop_nonempty|].
  fold t in Hrun, Hm. rewrite HR in Hrun, Hm. cbn [fst snd ao_Replayed ao_Count a_Delete a_DryRun andb] in *. exists drop, h. split_and!.
  - exact Hdrop.
  - exact Hrun.
  - intros k. rewrite Hm. apply Hc.
  - intros block rule ctx b. by eapply keys_are_buckets.
  - eapply Forall2_impl; [exact Hax|]. naive_solver.
Qed.

(** The answer of an addressed reset is bound to its idempotency key: a later
    call within the retention under the same key, query, subject and domain is
    given the same answer, and one with another command a conflict; either way
    it only looks the record up and runs nothing, whatever rules the domain
    enforces by then and whatever other operations ran in between. *)
Theorem reset_retry_replays : forall {PL : Platform} {GT : GoText} {RT : ResetText} `{!ResetTextLaws}
    cap dom_lease minted_for ns rules rules' domain header subject q q' snapshot snapshot' version version' key name c binding'
    ops0 ops t0 w w' c0 h i,
  snapshot_ok cap ns snapshot -> response_utf8 (answer_of snapshot version c) ->
  api_snapshot rules domain = Ok (snapshot, version) -> api_snapshot rules' domain = Ok (snapshot', version') ->
  s_Domain snapshot' = s_Domain snapshot -> idempotencyKeyOf header = Ok key ->
  recordKey ns (s_Domain snapshot) endpointCounters subject key = Some name -> admissible snapshot version q c ->
  let m := rrun ops0 (NewMemory c0) in
  let t := wd_clock w (reset_call c) in
  wd_fault w 0 = None -> wd_fault w 1 = None -> wd_fault w (reset_call c) = None -> wd_fault w' i = None ->
  (record (wd_clock w 0) name (rrun (wd_others w 0) m)).2 = None -> (record t name (at_reset w name c m)).2 = None ->
  Forall (fun x => follows dom_lease minted_for x.2) (ops0 ++ reset_ops w name c ++ ops ++ wd_others w' i) ->
  timed t0 t (ops0 ++ reset_ops w name c) -> t0 <= t ->
  timed t (t + Retention) (ops ++ wd_others w' i) -> t <= wd_clock w' i < t + Retention ->
  checkQueryNames q' (selectorParams ["dryRun"; "expectedRuleSetVersion"]) = Ok tt -> resetBinding q' = Ok binding' ->
  handleReset ns rules domain header subject q w (start m) = h ->
  exists response h', h.1 = Some (Ok response) /\
    handleReset ns rules' domain header subject q' w' (mkHState i (rrun ops (h_mem h.2)) []) =
      (Some (if bool_decide (command c = binding') then Ok response else Err (conflict ConflictCommandMismatch)), h') /\
    own (h_history h') = [(wd_clock w' i, OLookup (mkKeys name "" ""))].
Proof.
  intros PL GT RT RTL cap dom_lease minted_for ns rules rules' domain header subject q q' snapshot snapshot' version version' key name c binding' ops0 ops t0 w w' c0 h i
    Hok Hutf Hs Hs' Hd Hk Hn Ha m t Hf0 Hf1 Hf2 Hf' Hr0 Hr1 Hfol Htm0 Ht0 Htm Ht' Hq' Hb' Hh.
  destruct (handleReset_run cap ns rules domain header subject q snapshot version key name c w m Hok Hs Hk Hn Ha Hf0 Hf1 Hf2 Hr0)
    as (drop & Hdrop & h1 & Hrun & Hm).
  rewrite Hrun in Hh. subst h. cbn [fst snd]. pose proof Ha as (Hp & _ & _ & Hne).
  destruct (parseReset_spec _ _ _ Hp) as (Hb & Hr & _).
  set (a := mkAddressed name (command c) drop (rc_DryRun c) (recorded (answer_of snapshot version c))) in *.
  destruct (Reset_unbound t a (at_reset w name c m)) as (m' & HR & Hrec & _); [done|by eapply drop_nonempty|].
  assert (m' = rstep t (OReset a) (at_reset w name c m)) as Em' by (cbn [rstep]; by rewrite HR).
  clear Hrun. fold t in Hm |- *. rewrite HR in Hm |- *. cbn [fst] in Hm.
  cbn [snd ao_Replayed ao_Count andb]. eexists.
  assert (lease_backed dom_lease minted_for t m') as Hback.
  { rewrite Em'. apply rstep_backed; [done|]. rewrite app_assoc in Hfol. apply Forall_app in Hfol as [Hf1' _].
    unfold at_reset, m. rewrite <- rrun_app. by eapply (rrun_backed dom_lease minted_for _ t0); [done| |done|apply lease_backed_New]. }
  set (n := Z.of_nat _) in *.
  pose proof (rrun_terminal dom_lease minted_for (ops ++ wd_others w' i) t m' name
    (mkREntry (command c) "" true (mkProgress 0 0 n ∅ [] false) no_outcome (a_Answer a) (t + Retention))
    ltac:(rewrite app_assoc in Hfol; by apply Forall_app in Hfol as [_ Hfol]) Htm Hback Hrec eq_refl) as He.
  rewrite rrun_app in He. rewrite <- Hm in He.
  destruct (handleReset_replay ns rules' domain header subject q' snapshot' version' key name w'
    (mkHState i (rrun ops (h_mem h1)) []) _ binding' Hs' Hk ltac:(by rewrite Hd) Hq' Hb' Hf' He)
    as (h' & Hrun' & Hown); [cbn [re_expiresAt h_calls]; lia|done|apply reset_text_nonempty|].
  exists h'. split; [reflexivity|]. split; [|done].
  rewrite Hrun'. cbn [re_command re_answer re_progress pg_Reset a_Command a a_Answer]. unfold recorded at 1.
  by rewrite reset_text_roundtrip.
Qed.

(** ** Witnesses *)

#[export] Instance ResetResponse_countable : Countable ResetResponse.
Proof.
  refine (inj_countable'
    (fun r => (rp_Domain r, rp_RuleID r, rp_RuleSetVersion r, rp_Axes r, rp_Keys r, rp_DryRun r, rp_MatchedCount r, rp_ResetCount r))
    (fun '(d, i, v, a, k, y, m, c) => mkResetResponse d i v a k y m c) _).
  by intros [].
Defined.

(** The digits of a code, with a mark in front. *)
Fixpoint digits (p : positive) : string :=
  match p with
  | xH => ""
  | xO p => String "0" (digits p)
  | xI p => String "1" (digits p)
  end.

Fixpoint code (s : string) : positive :=
  match s with
  | EmptyString => xH
  | String c s => if bool_decide (c = "0"%char) then xO (code s) else xI (code s)
  end.

Lemma code_digits p : code (digits p) = p.
Proof. induction p as [p IH|p IH|]; simpl; [| |done]; by rewrite IH. Qed.

Definition demo_reset_text : ResetText := {|
  MarshalReset r := String "#" (digits (encode r));
  UnmarshalReset s := match s with String _ s => decode (code s) | EmptyString => None end |}.

#[local] Instance demo_reset_text_laws : ResetTextLaws (H := demo_reset_text).
Proof. split; [|done]. intros r _. change (decode (code (digits (encode r))) = Some r). rewrite code_digits. apply countable.decode_encode. Qed.

Definition demo_rules (version : string) : RuleSet :=
  NewRuleSet {["gateway.public" := mkSvcDomain 0 demo_snap version 1 "u1" 0]}.
Definition demo_query : Values :=
  list_to_map [("ruleId", ["api/per-user"]); ("axis.sub", ["bob"]); ("axis.id", ["7"])].
Definition demo_caller : string := "system:serviceaccount:ops:console".
Definition demo_name : string :=
  default "" (recordKey (PL := demo_mgmt_platform) "core" "gateway.public" endpointCounters demo_caller "key-1").

(** A store nobody else uses, whose every call answers. *)
Definition quiet (t : Z) : world := mkWorld (fun i => t + Z.of_nat i) (fun _ => []) (fun _ => None).

Definition demo_reset_command : resetCommand :=
  default (mkResetCommand no_selector false "" ∅ [] zero_block zero_rule)
    (match parseReset (PL := demo_mgmt_platform) (GT := demo_text) demo_snap demo_query with Ok c => Some c | Err _ => None end).

Lemma demo_admissible :
  admissible (PL := demo_mgmt_platform) (GT := demo_text) demo_snap "v1" demo_query demo_reset_command.
Proof. split_and!; [by vm_compute..|left; by vm_compute|by vm_compute]. Qed.

(** The same limited to refusing counters, which the addressed one is. *)
Definition demo_limited_query : Values := <["limited" := ["true"]]> demo_query.

Definition demo_limited_command : resetCommand :=
  default (mkResetCommand no_selector false "" ∅ [] zero_block zero_rule)
    (match parseReset (PL := demo_mgmt_platform) (GT := demo_text) demo_snap demo_limited_query with Ok c => Some c | Err _ => None end).

Lemma demo_limited_admissible :
  admissible (PL := demo_mgmt_platform) (GT := demo_text) demo_snap "v1" demo_limited_query demo_limited_command /\
  se_LimitedOnly (rc_Selector demo_limited_command) = true.
Proof. split; [|by vm_compute]. split_and!; [by vm_compute..|left; by vm_compute|by vm_compute]. Qed.

Lemma demo_judged :
  judged_refusing (quiet 1000) demo_name demo_limited_command (NewMemory ListingFacts.demo_counters) demo_bob /\
  demo_bob ∈ keys (PL := demo_mgmt_platform) demo_limited_command /\ demo_alice ∉ keys (PL := demo_mgmt_platform) demo_limited_command.
Proof.
  split; [|by vm_compute; split; [left|intros H; apply list_elem_of_singleton in H]].
  exists (rr_rate demo_ref). split; [vm_compute; left|]. split; [vm_compute; reflexivity|]. vm_compute. reflexivity.
Qed.

Lemma addressed_reset_exact_witness : exists response h,
  handleReset (PL := demo_mgmt_platform) (GT := demo_text) (RT := demo_reset_text) "core" (demo_rules "v1")
    "gateway.public" "key-1" demo_caller demo_limited_query (quiet 1000) (start (NewMemory ListingFacts.demo_counters)) =
    (Some (Ok response), h) /\
  counted 1002 (mm_counters (h_mem h)) demo_bob = false /\ counted 1002 (mm_counters (h_mem h)) demo_alice = true.
Proof.
  destruct (@addressed_reset_exact demo_mgmt_platform demo_text demo_reset_text max_i64 "core" (demo_rules "v1") "gateway.public" "key-1"
    demo_caller demo_limited_query demo_snap "v1" "key-1" demo_name demo_limited_command (quiet 1000) (NewMemory ListingFacts.demo_counters))
    as (drop & h & [_ Hin] & Hrun & Hc & _).
  - exact demo_snap_ok.
  - vm_compute; reflexivity.
  - vm_compute; reflexivity.
  - vm_compute; reflexivity.
  - apply demo_limited_admissible.
  - reflexivity.
  - reflexivity.
  - reflexivity.
  - reflexivity.
  - vm_compute; reflexivity.
  - destruct demo_judged as (Hj & Hb & Ha). eexists _, h. split; [exact Hrun|]. split.
    + etransitivity; [exact (Hc demo_bob)|]. rewrite (bool_decide_true (demo_bob ∈ drop)); [vm_compute; reflexivity|].
      apply Hin. split; [exact Hb|intros _; exact Hj].
    + etransitivity; [exact (Hc demo_alice)|]. rewrite (bool_decide_false (demo_alice ∈ drop)); [vm_compute; reflexivity|].
      intros Hd. apply Hin in Hd as [Hd _]. exact (Ha Hd).
Defined.

Lemma demo_unlimited : se_LimitedOnly (rc_Selector demo_reset_command) = false.
Proof. by vm_compute. Qed.

Lemma demo_answer_utf8 : response_utf8 (answer_of (PL := demo_mgmt_platform) demo_snap "v1" demo_reset_command).
Proof.
  split_and!; [by apply utf8_ascii..| |].
  - intros axis value Hv. assert (map_Forall (fun k v => ascii_only k && ascii_only v = true) (rc_AxesByName demo_reset_command)) as H.
    { apply (bool_decide_eq_true_1 _). by vm_compute. }
    apply H in Hv as [? ?]%andb_true_iff. split; by apply utf8_ascii.
  - apply (Forall_impl (fun k => ascii_only k = true)); [|apply utf8_ascii]. apply (bool_decide_eq_true_1 _). by vm_compute.
Qed.

Lemma reset_retry_replays_witness : exists response h',
  handleReset (PL := demo_mgmt_platform) (GT := demo_text) (RT := demo_reset_text) "core" (demo_rules "v2")
    "gateway.public" "key-1" demo_caller demo_query (quiet 5000)
    (mkHState 0 (h_mem (handleReset (PL := demo_mgmt_platform) (GT := demo_text) (RT := demo_reset_text) "core" (demo_rules "v1")
       "gateway.public" "key-1" demo_caller demo_query (quiet 1000) (start (NewMemory ListingFacts.demo_counters))).2) []) =
    (Some (Ok response), h') /\ own (h_history h') = [(5000, OLookup (mkKeys demo_name "" ""))].
Proof.
  destruct (@reset_retry_replays demo_mgmt_platform demo_text demo_reset_text demo_reset_text_laws max_i64 (fun _ => "") (fun _ => "")
    "core" (demo_rules "v1") (demo_rules "v2") "gateway.public" "key-1" demo_caller demo_query demo_query demo_snap demo_snap
    "v1" "v2" "key-1" demo_name demo_reset_command (command (PL := demo_mgmt_platform) (GT := demo_text) demo_reset_command)
    [] [] 0 (quiet 1000) (quiet 5000) ListingFacts.demo_counters
    (handleReset (PL := demo_mgmt_platform) (GT := demo_text) (RT := demo_reset_text) "core" (demo_rules "v1")
       "gateway.public" "key-1" demo_caller demo_query (quiet 1000) (start (NewMemory ListingFacts.demo_counters))) 0%nat)
    as (response & h' & _ & Hrun & Hown).
  - exact demo_snap_ok.
  - exact demo_answer_utf8.
  - vm_compute; reflexivity.
  - vm_compute; reflexivity.
  - reflexivity.
  - vm_compute; reflexivity.
  - vm_compute; reflexivity.
  - exact demo_admissible.
  - vm_compute; reflexivity.
  - reflexivity.
  - reflexivity.
  - reflexivity.
  - reflexivity.
  - reflexivity.
  - unfold reset_ops. rewrite demo_unlimited. repeat constructor.
  - unfold reset_ops, reset_call. rewrite demo_unlimited. split; [cbn; lia|exact I].
  - unfold reset_call. rewrite demo_unlimited. cbn; lia.
  - exact I.
  - unfold reset_call. rewrite demo_unlimited. unfold Retention, Second. cbn. lia.
  - vm_compute; reflexivity.
  - vm_compute; reflexivity.
  - reflexivity.
  - exists response, h'. split; [|exact Hown]. cbn [rrun] in Hrun. rewrite Hrun.
    rewrite bool_decide_true by reflexivity. reflexivity.
Defined.

(** ** Two calls at once *)

(** What a call does to the record store. *)
Definition first_call : hstate :=
  (handleReset (PL := demo_mgmt_platform) (GT := demo_text) (RT := demo_reset_text) "core" (demo_rules "v1")
     "gateway.public" "key-1" demo_caller demo_query (quiet 1000) (start (NewMemory ListingFacts.demo_counters))).2.

(** The first call's reset lands between the second call's two. *)
Definition racing : world :=
  mkWorld (fun i => 2000 + Z.of_nat i)
    (fun i => if (i =? 1)%nat then drop 1 (own (h_history first_call)) else []) (fun _ => None).

Definition second_call (w : world) (m : MemoryRecords) : option (result apiError ResetResponse) * hstate :=
  handleReset (PL := demo_mgmt_platform) (GT := demo_text) (RT := demo_reset_text) "core" (demo_rules "v2")
    "gateway.public" "key-1" demo_caller demo_query w (start m).

Definition version_of (r : option (result apiError ResetResponse)) : option string :=
  match r with Some (Ok r) => Some (rp_RuleSetVersion r) | _ => None end.

(** Two calls of one command under one idempotency key can be answered
    differently: the second finds no record, the first binds the key, and the
    second's reset replays the first's count but rebuilds the body from its
    own snapshot, so it names a rule set version the command never acted on;
    the retry after it names the recorded one. *)
Theorem reset_race_rebuilds_body :
  version_of (second_call racing (NewMemory ListingFacts.demo_counters)).1 = Some "v2" /\
  version_of (second_call (quiet 5000)
    (h_mem (second_call racing (NewMemory ListingFacts.demo_counters)).2)).1 = Some "v1".
Proof. split; vm_compute; reflexivity. Qed.
