(* ===== verification/Bulk.v ===== *)
(** * service/internal/management/bulk.go: bulk reset commands

    The body of the counter-resets action, its validation into a command, what
    identifies the command and its selection, the confirmation token, the
    storage keys a command touches and the disclosure of a failed one. *)
From S2P Require Import Prelude GoStrings Algo Key StoreApi Memory Model Compile MatchKeys Identity Records MgmtKeys RuleView MgmtErrors.
From S2P Require Import Selector Listing MgmtCalls AddrReset.

(** ** Definitions *)

Definition confirmationTTL : Z := 10 * 60 * Second.
Definition sweepDeadline : Z := 60 * Second.
Definition leaseTTL : Z := sweepDeadline + 15 * Second.
Definition pollInterval : Z := 5 * Second.
Definition keySampleLimit : nat := 100.
Definition fieldSelectorAxes : string := "selector.axes".

Record SelectorBody := mkSelectorBody {
  sb_RuleIDs : list string;
  sb_Algorithm : string;
  sb_Period : string;
  sb_Axes : gmap string (list string);
  sb_Limited : option bool }.

Record BulkResetRequest := mkBulkResetRequest {
  bq_Selector : option SelectorBody;
  bq_ConfirmDomain : string;
  bq_DryRun : option bool;
  bq_ConfirmationToken : string }.

Record BulkResult := mkBulkResult {
  bs_Domain : string;
  bs_DryRun : bool;
  bs_Scanned : Z;
  bs_Keys : list string;
  bs_Truncated : bool;
  bs_Rules : list BulkRuleCount;
  bs_MatchedCount : option Z;
  bs_ResetCount : option Z;
  bs_ConfirmationToken : string;
  bs_ConfirmationExpiresAt : option Z }.

Record bulkCommand := mkBulkCommand {
  bc_Selector : selector;
  bc_DomainWide : bool;
  bc_DryRun : bool;
  bc_ConfirmationToken : string }.

#[export] Instance bulkCommand_eq_dec : EqDecision bulkCommand.
Proof. solve_decision. Defined.

Definition kind (c : bulkCommand) : string :=
  (if bc_DryRun c then "preview" else "execute") +:+ "-" +:+ (if bc_DomainWide c then "domain" else "selector").

(** [confirmationTokenPattern] *)
Definition confirmationTokenPattern (s : string) : bool :=
  match CutPrefix s "ct-" with
  | None => false
  | Some rest =>
      (String.length rest =? 12)%nat &&
      all_chars (fun c => is_digit c || char_between "a"%char "f"%char c) rest
  end.

(** The axes of a body one by one; the map is read in some order. *)
Fixpoint body_axes_loop (axes : list (string * list string)) (out : gmap string (list string))
    : result apiError (gmap string (list string)) :=
  match axes with
  | [] => Ok out
  | (name, values) :: axes =>
      if bool_decide (name = "") then Err (invalid [fieldSelectorAxes])
      else if bool_decide (values = []) then Err (invalid [fieldSelectorAxes])
      else if bool_decide ("" ∈ values) then Err (invalid [fieldSelectorAxes])
      else body_axes_loop axes (<[name := sortedUnique values]> out)
  end.

Definition parse_limited (limited : option bool) : result apiError bool :=
  match limited with
  | None => Ok false
  | Some true => Ok true
  | Some false => Err (invalid ["selector.limited"])
  end.

(** What a confirmation token stands for. *)
Record tokenDocument := mkTokenDocument {
  td_Selection : string;
  td_Domain : string;
  td_Subject : string;
  td_RuleSetVersion : string;
  td_ExpiresAt : Z }.

(** The JSON codec of the document, which keeps strings that are valid UTF-8. *)
Class TokenText := {
  MarshalToken : tokenDocument -> string;
  UnmarshalToken : string -> option tokenDocument }.

Class TokenTextLaws `{TokenText} := {
  token_text_roundtrip : forall d,
    utf8 (td_Selection d) -> utf8 (td_Domain d) -> utf8 (td_Subject d) -> utf8 (td_RuleSetVersion d) ->
    UnmarshalToken (MarshalToken d) = Some d }.

Section platform.
Context {PL : Platform} {GT : GoText}.

Definition selection (c : bulkCommand) : string :=
  if bc_DomainWide c then "domain" else fingerprint (bc_Selector c).

Definition bulk_command (c : bulkCommand) (domain : string) : string :=
  hex_encode (Sum256 (MarshalJSON (JObject (
    [("kind", JString (kind c)); ("domain", JString domain); ("selector", JObject (selector_fields (bc_Selector c)))] ++
    (if bc_DomainWide c && negb (bool_decide (domain = "")) then [("confirmDomain", JString domain)] else []) ++
    (if bc_DryRun c then [("dryRun", JBool true)] else []) ++
    (if bool_decide (bc_ConfirmationToken c = "") then [] else [("confirmationToken", JString (bc_ConfirmationToken c))]))))).

(** [SelectorBody.parse] *)
Definition parse_body (s : SelectorBody) : result apiError selector :=
  let? _ := check_ids (sb_RuleIDs s) "selector.ruleIds" in
  let? seconds := parse_period_opt (sb_Period s) "selector.period" in
  let? limited := parse_limited (sb_Limited s) in
  let? axes := body_axes_loop (map_to_list (sb_Axes s)) ∅ in
  let out := mkSelector (sortedUnique (sb_RuleIDs s)) (parse_algorithm (sb_Algorithm s)) seconds axes limited in
  if bool_decide (out = no_selector) then Err (invalid ["selector"]) else Ok out.

Definition parse_dryRun (d : option bool) : result apiError bool :=
  match d with
  | None => Ok false
  | Some true => Ok true
  | Some false => Err (invalid ["dryRun"])
  end.

Definition check_token_form (dryRun : bool) (token : string) : result apiError unit :=
  if dryRun then (if bool_decide (token = "") then Ok tt else Err (invalid ["confirmationToken"]))
  else if bool_decide (token = "") then Err (invalid ["confirmationToken"])
  else if confirmationTokenPattern token then Ok tt else Err (invalid ["confirmationToken"]).

Definition parseBulk (domain : string) (q : BulkResetRequest) : result apiError bulkCommand :=
  let? dryRun := parse_dryRun (bq_DryRun q) in
  let? _ := check_token_form dryRun (bq_ConfirmationToken q) in
  match bq_Selector q with
  | Some s =>
      if negb (bool_decide (bq_ConfirmDomain q = "")) then Err (invalid ["confirmDomain"])
      else
        let? sel := parse_body s in
        Ok (mkBulkCommand sel false dryRun (bq_ConfirmationToken q))
  | None =>
      if bool_decide (bq_ConfirmDomain q = "") then Err (invalid [])
      else if negb (bool_decide (bq_ConfirmDomain q = domain)) then Err (invalid ["confirmDomain"])
      else Ok (mkBulkCommand no_selector true dryRun (bq_ConfirmationToken q))
  end.

End platform.

(** *** Storage keys; [None] is a panic of the key package *)

Definition tokenKey (namespace domain token : string) : option string :=
  tag ← recordTag namespace domain; Some (tag +:+ "ct:" +:+ token).

Definition leaseKey (namespace domain : string) : option string :=
  tag ← recordTag namespace domain; Some (tag +:+ "sweep").

Definition commandKeys (namespace domain record : string) (c : bulkCommand) : option Keys :=
  lease ← leaseKey namespace domain;
  if bc_DryRun c then Some (mkKeys record lease "")
  else token ← tokenKey namespace domain (bc_ConfirmationToken c); Some (mkKeys record lease token).

(** *** Disclosures *)

Definition ruleCounts (rules : gmap string Z) (dryRun : bool) : list BulkRuleCount :=
  (fun id => let count := default 0 (rules !! id) in
             mkBulkRuleCount id (if dryRun then Some count else None) (if dryRun then None else Some count))
  <$> sort_strings (elements (dom rules)).

Definition partialOf (p : Progress) (dryRun : bool) : PartialReset :=
  mkPartialReset dryRun (pg_Scanned p)
    (if dryRun then Some (pg_Matched p) else None) (if dryRun then None else Some (pg_Reset p))
    (ruleCounts (pg_Rules p) dryRun) (pg_Keys p) (pg_Truncated p).

(** [resultOf] of a recorded outcome; the zero time is 0. *)
Definition resultOf (o : COutcome) (domain : string) (c : bulkCommand) : BulkResult :=
  let p := co_Progress o in
  mkBulkResult domain (bc_DryRun c) (pg_Scanned p) (pg_Keys p) (pg_Truncated p) (ruleCounts (pg_Rules p) (bc_DryRun c))
    (if bc_DryRun c then Some (pg_Matched p) else None) (if bc_DryRun c then None else Some (pg_Reset p))
    (if bc_DryRun c then co_Token o else "")
    (if bc_DryRun c && negb (co_TokenExpiresAt o =? 0) then Some (co_TokenExpiresAt o) else None).

(** * service/internal/management/sweep.go: the walk of a bulk command

    One walk of a domain's counter keys along the store's cursors: each key is
    filtered, the candidates are judged and deleted in batches, and every batch
    is one atomic step of the record store that checks the fencing token,
    deletes, and records the progress. Log lines are left out. *)

(** ** Definitions *)

Definition sweepBatch : nat := 256.
Definition sweepScanStep : Z := 512.

(** [errDeadline], and every other failure of a walk: of a store call, or of
    the lease. *)
Inductive sweep_error := errDeadline | ErrWalk.

(** What one walk is of. *)
Record sweep_of := mkSweepOf {
  so_namespace : string;
  so_snapshot : Snapshot;
  so_keys : Keys;
  so_fencing : string;
  so_sel : selector;
  so_domainWide : bool;
  so_execute : bool }.

(** The state of a walk; [sw_progress] without its rules until it is recorded. *)
Record sweeper := mkSweeper {
  sw_progress : Progress;
  sw_rules : gmap string Z;
  sw_batch : list counterCandidate }.

Definition newSweeper : sweeper := mkSweeper no_progress ∅ [].

Definition sweep_of_command (namespace : string) (snapshot : Snapshot) (c : bulkCommand) (keys : Keys) (fencing : string)
    : sweep_of :=
  mkSweepOf namespace snapshot keys fencing (bc_Selector c) (bc_DomainWide c) (negb (bc_DryRun c)).

Definition with_batch (batch : list counterCandidate) (s : sweeper) : sweeper :=
  mkSweeper (sw_progress s) (sw_rules s) batch.

Definition scanned_one (s : sweeper) : sweeper :=
  let p := sw_progress s in
  mkSweeper (mkProgress (pg_Scanned p + 1) (pg_Matched p) (pg_Reset p) (pg_Rules p) (pg_Keys p) (pg_Truncated p))
    (sw_rules s) (sw_batch s).

Section walk.
Context (o : sweep_of).

(** [count] *)
Definition count (k ruleID : string) (s : sweeper) : sweeper :=
  let p := sw_progress s in
  let room := (length (pg_Keys p) <? keySampleLimit)%nat in
  mkSweeper
    (mkProgress (pg_Scanned p) (pg_Matched p + 1) (if so_execute o then pg_Reset p + 1 else pg_Reset p) (pg_Rules p)
       (if room then pg_Keys p ++ [k] else pg_Keys p) (if room then pg_Truncated p else true))
    (<[ruleID := default 0 (sw_rules s !! ruleID) + 1]> (sw_rules s)) (sw_batch s).

Definition snapshotProgress (s : sweeper) : Progress :=
  let p := sw_progress s in
  mkProgress (pg_Scanned p) (pg_Matched p) (pg_Reset p) (sw_rules s) (pg_Keys p) (pg_Truncated p).

Definition consider (k : string) : option counterCandidate :=
  match parseCounterKey (so_namespace o) (s_Domain (so_snapshot o)) k with
  | Err _ => None
  | Ok parsed =>
      if negb (so_domainWide o) && negb (matches (so_sel o) parsed) then None
      else match newRateIndex (so_snapshot o) !! ck_RatePrefix parsed with
           | None =>
               if (0 <? size (se_Axes (so_sel o)))%nat || se_LimitedOnly (so_sel o) then None
               else Some (mkCandidate k None (ck_RuleID parsed) ∅)
           | Some ref =>
               match namedAxes parsed (ru_Counters (rr_rule ref)) with
               | Err _ => None
               | Ok axes =>
                   if negb (so_domainWide o) && negb (matchesAxes (so_sel o) axes) then None
                   else Some (mkCandidate k (Some ref) (ck_RuleID parsed) axes)
               end
           end
  end.

(** The candidates that would refuse the next request of cost one. A selection
    with the limited filter keeps no candidate without its rule; one there
    would be a nil rule in the source, and is [None]. *)
Definition candidate_buckets (batch : list counterCandidate) : option (list Bucket) :=
  mapM (fun c => peek_bucket (cc_key c) <$> cc_ref c) batch.

Definition sweep_refusing (batch : list counterCandidate) : handler (option (result sweep_error (list counterCandidate))) :=
  match candidate_buckets batch with
  | None => hret None
  | Some buckets =>
      let! answer := do_Peek buckets in
      hret (Some (match answer with
            | None | Some (Err _) => Err ErrWalk
            | Some (Ok verdicts) =>
                if negb (length verdicts =? length buckets)%nat then Err ErrWalk
                else Ok (omap (fun cv : counterCandidate * Verdict => if v_Allowed cv.2 then None else Some cv.1)
                           (zip batch verdicts))
            end))
  end.

(** One step: the batch's keys, counted into the walk, deleted and recorded. *)
Definition record_batch (kept : list counterCandidate) (s : sweeper) : handler (sweeper * result sweep_error unit) :=
  let s := foldl (fun s c => count (cc_key c) (cc_ruleID c) s) s kept in
  match kept with
  | [] => hret (s, Ok tt)
  | _ =>
      let drop := if so_execute o then cc_key <$> kept else [] in
      let! answer := do_Batch (mkBatchArg (so_keys o) (so_fencing o) drop (snapshotProgress s)) in
      hret (s, match answer with Some None => Ok tt | _ => Err ErrWalk end)
  end.

(** [None] is the nil rule above. *)
Definition commitBatch (batch : list counterCandidate) (s : sweeper)
    : handler (option (sweeper * result sweep_error unit)) :=
  match batch with
  | [] => hret (Some (s, Ok tt))
  | _ =>
      let! kept := (if se_LimitedOnly (so_sel o) then sweep_refusing batch else hret (Some (Ok batch))) in
      match kept with
      | None => hret None
      | Some (Err e) => hret (Some (s, Err e))
      | Some (Ok kept) => let! r := record_batch kept s in hret (Some r)
      end
  end.

(** [walk] over the keys of one step. *)
Fixpoint walk (keys : list string) (deadline : Z) (s : sweeper) : handler (option (sweeper * result sweep_error unit)) :=
  match keys with
  | [] => hret (Some (s, Ok tt))
  | k :: keys =>
      let! now := clock_now in
      if deadline <? now then hret (Some (s, Err errDeadline))
      else
        let s := scanned_one s in
        match consider k with
        | None => walk keys deadline s
        | Some c =>
            let s := with_batch (sw_batch s ++ [c]) s in
            if (length (sw_batch s) <? sweepBatch)%nat then walk keys deadline s
            else
              let! r := commitBatch (sw_batch s) s in
              match r with
              | None => hret None
              | Some (s, Err e) => hret (Some (s, Err e))
              | Some (s, Ok _) => walk keys deadline (with_batch [] s)
              end
        end
  end.

(** The loop of [run]; [None] is also the end of the fuel. *)
Fixpoint run_loop (fuel : nat) (prefix cursor : string) (deadline : Z) (s : sweeper)
    : handler (option (sweeper * result sweep_error unit)) :=
  match fuel with
  | O => hret None
  | S fuel =>
      let! now := clock_now in
      if deadline <? now then hret (Some (s, Err errDeadline))
      else
        let! answer := do_Scan prefix cursor sweepScanStep in
        match answer with
        | None | Some (Err _) => hret (Some (s, Err ErrWalk))
        | Some (Ok (keys, next)) =>
            let! r := walk keys deadline s in
            match r with
            | Some (s, Ok _) =>
                if bool_decide (next = "") then commitBatch (sw_batch s) s
                else run_loop fuel prefix next deadline s
            | r => hret r
            end
        end
  end.

(** The prefix of the walk; [None] is the panic on an empty namespace or
    domain. *)
Definition sweep_prefix : option string :=
  if so_domainWide o then DomainPrefix (so_namespace o) (s_Domain (so_snapshot o))
  else scanPrefix (so_namespace o) (s_Domain (so_snapshot o)) (so_sel o).

Definition run (fuel : nat) (deadline : Z) : handler (option (sweeper * result sweep_error unit)) :=
  match sweep_prefix with
  | None => hret None
  | Some prefix => run_loop fuel prefix "" deadline newSweeper
  end.

Definition sweep_result (s : sweeper) : BulkResult :=
  let p := snapshotProgress s in
  mkBulkResult (s_Domain (so_snapshot o)) (negb (so_execute o)) (pg_Scanned p) (pg_Keys p) (pg_Truncated p)
    (ruleCounts (pg_Rules p) (negb (so_execute o)))
    (if so_execute o then None else Some (pg_Matched p)) (if so_execute o then Some (pg_Reset p) else None) "" None.

End walk.
