(* ===== verification/Resets.v ===== *)
(** * service/internal/management/resets.go: the bulk reset command

    The counter-resets action: look the command up, validate its confirmation
    token, accept it in one write, walk the selection and record the outcome;
    or answer a retry by the state of the record. A response's body, its 202
    and its error are the constructors of a reply; log and audit lines are left
    out, and an answer that cannot be written to the connection. *)
From S2P Require Import Prelude GoStrings Algo Key StoreApi Memory Model Compile MatchKeys Identity Records MgmtKeys RuleView MgmtErrors.
From S2P Require Import Selector Listing Manifest ConfigStore SvcConfig MgmtCalls AddrReset Bulk.

(** ** Definitions *)

Definition endpointResets : string := "counter-resets".

Inductive reply :=
| Body (r : BulkResult)
| Accepted202 (retryAfter : Z)
| Failed (e : apiError).

(** What a call draws from the random source. *)
Record minted := mkMinted { mi_fencing : string; mi_token : string; mi_errorID : string }.

(** [retryAfterSeconds] *)
Definition retryAfterSeconds (wait : Z) : Z := Z.max (wait /i Second) 1.

(** The id of an error instance, which its record keeps. *)
Definition with_id (id : string) (e : apiError) : apiError :=
  mkApiError (ae_Code e) (Some id) (ae_Fields e) (ae_ConflictType e) (ae_PartialReset e) (ae_RetryAfter e).

Section platform.
Context {PL : Platform} {GT : GoText} {TT : TokenText}.
Context (namespace : string).

(** [replay]: the recorded body, or the recorded error. *)
Definition replay (domain : string) (record : Record_) (c : bulkCommand) : reply :=
  let o := r_Outcome record in
  if negb (co_Failed o) then Body (resultOf o domain c)
  else Failed (replayOf (if bool_decide (co_Code o = CodeWorkLimit) then CodeWorkLimit else CodeInterrupted)
                 (co_ErrorID o) (partialOf (co_Progress o) (bc_DryRun c))).

Definition replayFrom (domain : string) (keys : Keys) (c : bulkCommand) : handler reply :=
  let! record := do_Lookup keys in
  hret (match record with
        | Some record => if r_Found record && r_Terminal record then replay domain record c else Failed storeDown
        | None => Failed storeDown
        end).

(** [standing]: a retry, answered by the record's state. *)
Definition standing (mi : minted) (domain : string) (keys : Keys) (record : Record_) (c : bulkCommand) : handler reply :=
  if negb (bool_decide (r_Command record = bulk_command c domain)) then hret (Failed (conflict ConflictCommandMismatch))
  else if r_Terminal record then hret (replay domain record c)
  else if Alive record then hret (Accepted202 (retryAfterSeconds (Z.min pollInterval (r_LeaseTTL record))))
  else
    let! finalized := do_Finalize (mkFinalizeArg keys
                        (mkCOutcome true CodeInterrupted (mi_errorID mi) "" no_progress "" 0)) in
    hret (match finalized with
          | None => Failed storeDown
          | Some finalized =>
              if negb (r_Found finalized) then Failed (errorf CodeInternal [])
              else if negb (r_Terminal finalized) then Accepted202 (retryAfterSeconds (r_LeaseTTL finalized))
              else replay domain finalized c
          end).

(** [checkToken]; [None] is a panic of the key package. *)
Definition checkToken (snapshot : Snapshot) (version subject : string) (c : bulkCommand)
    : handler (option (result apiError unit)) :=
  match tokenKey namespace (s_Domain snapshot) (bc_ConfirmationToken c) with
  | None => hret None
  | Some key =>
      let! answer := do_Get key in
      hret (Some (match answer with
            | None => Err storeDown
            | Some None => Err (errorf CodeGone [])
            | Some (Some raw) =>
                match UnmarshalToken raw with
                | None => Err (errorf CodeInternal [])
                | Some token =>
                    if negb (bool_decide (td_Domain token = s_Domain snapshot)) ||
                       negb (bool_decide (td_Subject token = subject))
                    then Err (conflict ConflictStaleConfirmation)
                    else if negb (bool_decide (td_Selection token = selection c))
                    then Err (conflict ConflictStaleConfirmation)
                    else if negb (bool_decide (td_RuleSetVersion token = version))
                    then Err (conflict ConflictStaleRuleSet)
                    else Ok tt
                end
            end))
  end.

(** [mintToken]: the token and its expiry. *)
Definition mintToken (mi : minted) (domain version subject : string) (c : bulkCommand)
    : handler (option (result apiError (string * Z))) :=
  match tokenKey namespace domain (mi_token mi) with
  | None => hret None
  | Some key =>
      let! now := clock_now in
      let expires := now + confirmationTTL in
      let! answer := do_Put key (MarshalToken (mkTokenDocument (selection c) domain subject version expires)) confirmationTTL in
      hret (Some (match answer with None => Err storeDown | Some _ => Ok (mi_token mi, expires) end))
  end.

(** The progress a failure discloses: the walk's own when its clock ran out
    between two steps, the record's when a store call failed. *)
Definition failure_progress (keys : Keys) (s : sweeper) (cause : sweep_error) : handler (option Progress) :=
  match cause with
  | errDeadline => hret (Some (snapshotProgress s))
  | ErrWalk =>
      let! record := do_Lookup keys in
      hret (match record with
            | Some record => if r_Found record then Some (r_Progress record) else None
            | None => None
            end)
  end.

(** [recordFailure]: the failure of an accepted command, recorded and
    answered. *)
Definition recordFailure (mi : minted) (domain : string) (keys : Keys) (fencing : string) (s : sweeper) (c : bulkCommand)
    (cause : sweep_error) : handler reply :=
  let! progress := failure_progress keys s cause in
  match progress with
  | None => hret (Failed storeDown)
  | Some progress =>
      let partial := partialOf progress (bc_DryRun c) in
      let failure := with_id (mi_errorID mi)
                       (match cause with errDeadline => workLimit partial | ErrWalk => interrupted partial end) in
      let! committed := do_Commit (mkCommitArg keys fencing
                          (mkCOutcome true (ae_Code failure) (mi_errorID mi) "" progress "" 0)) in
      match committed with
      | Some None => hret (Failed failure)
      | Some (Some ErrLeaseLost) => replayFrom domain keys c
      | _ => hret (Failed storeDown)
      end
  end.

(** [sweep] *)
Definition sweep (fuel : nat) (mi : minted) (snapshot : Snapshot) (version domain subject : string) (c : bulkCommand)
    (keys : Keys) (fencing : string) : handler (option reply) :=
  let o := sweep_of_command namespace snapshot c keys fencing in
  let! now := clock_now in
  let! walked := run o fuel (now + sweepDeadline) in
  match walked with
  | None => hret None
  | Some (s, Err e) => let! r := recordFailure mi domain keys fencing s c e in hret (Some r)
  | Some (s, Ok _) =>
      let finish (token : string) (expires : Z) :=
        let! committed := do_Commit (mkCommitArg keys fencing
                            (mkCOutcome false "" "" "" (snapshotProgress s) token expires)) in
        match committed with
        | Some None =>
            let r := sweep_result o s in
            hret (Some (Body (mkBulkResult (bs_Domain r) (bs_DryRun r) (bs_Scanned r) (bs_Keys r) (bs_Truncated r) (bs_Rules r)
                         (bs_MatchedCount r) (bs_ResetCount r) token (if bc_DryRun c then Some expires else None))))
        | Some (Some ErrLeaseLost) => let! r := replayFrom domain keys c in hret (Some r)
        | _ => hret (Some (Failed storeDown))
        end in
      if bc_DryRun c then
        let! token := mintToken mi (s_Domain snapshot) version subject c in
        match token with
        | None => hret None
        | Some (Err _) => let! r := recordFailure mi domain keys fencing s c ErrWalk in hret (Some r)
        | Some (Ok (token, expires)) => finish token expires
        end
      else finish "" 0
  end.

(** [accept] *)
Definition accept (fuel : nat) (mi : minted) (snapshot : Snapshot) (version domain subject : string) (c : bulkCommand) (keys : Keys)
    : handler (option reply) :=
  let fencing := mi_fencing mi in
  let! answer := do_Accept (mkAcceptance keys (bulk_command c (s_Domain snapshot)) fencing leaseTTL) in
  match answer with
  | None => hret (Some (Failed storeDown))
  | Some a =>
      if ad_SweepBusy a then hret (Some (Failed (withRetryAfter (ad_LeaseTTL a) (conflict ConflictSweepInFlight))))
      else if ad_TokenMissing a then hret (Some (Failed (errorf CodeGone [])))
      else if ad_OK a || (r_Found (ad_Existing a) && bool_decide (r_Fencing (ad_Existing a) = fencing))
      then sweep fuel mi snapshot version domain subject c keys fencing
      else let! r := standing mi domain keys (ad_Existing a) c in hret (Some r)
  end.

(** [handleBulkReset] after the body is decoded; [domain] is the path's. [None]
    is a panic of the key package or the end of the fuel. *)
Definition handleBulkReset (fuel : nat) (mi : minted) (rules : RuleSet) (domain header subject : string)
    (body : result apiError BulkResetRequest) : handler (option reply) :=
  match api_snapshot rules domain with
  | Err e => hret (Some (Failed e))
  | Ok (snapshot, version) =>
      match idempotencyKeyOf header with
      | Err e => hret (Some (Failed e))
      | Ok key =>
          match (let? request := body in parseBulk (s_Domain snapshot) request) with
          | Err e => hret (Some (Failed e))
          | Ok c =>
              match unnormalized snapshot (se_Axes (bc_Selector c)) (capturedKeys snapshot (se_RuleIDs (bc_Selector c)))
                      (fun _ => fieldSelectorAxes) with
              | Err e => hret (Some (Failed e))
              | Ok _ =>
                  match (name ← recordKey namespace (s_Domain snapshot) endpointResets subject key;
                         commandKeys namespace (s_Domain snapshot) name c) with
                  | None => hret None
                  | Some keys =>
                      let! record := do_Lookup keys in
                      match record with
                      | None => hret (Some (Failed storeDown))
                      | Some record =>
                          if r_Found record then let! r := standing mi domain keys record c in hret (Some r)
                          else if bc_DryRun c then accept fuel mi snapshot version domain subject c keys
                          else
                            let! checked := checkToken snapshot version subject c in
                            match checked with
                            | None => hret None
                            | Some (Err e) => hret (Some (Failed e))
                            | Some (Ok _) => accept fuel mi snapshot version domain subject c keys
                            end
                      end
                  end
              end
          end
      end
  end.

End platform.
