(* ===== verification/ResetsFacts.v ===== *)
(** * Facts about bulk reset commands

    A small logic of handlers: what a program may do to the stores and what it
    returns, in every world. With it: what a sweep deletes, and what a retry
    does. *)
From S2P Require Import Prelude GoStrings Algo Key StoreApi Memory MemoryScan Model Compile CompileFacts Match MatchFacts MatchKeys Identity.
From S2P Require Import Records RecordsClaims MgmtKeys RuleView MgmtErrors Selector Listing ListingFacts Manifest ConfigStore SvcConfig.
From S2P Require Import MgmtCalls AddrReset Bulk Resets.

(** ** What a handler may do *)

Lemma hbind_run {A B} (c : handler A) (k : A -> handler B) w h : hbind c k w h = k (c w h).1 w (c w h).2.
Proof. unfold hbind. by destruct (c w h). Qed.

(** Whatever the world, every operation of the handler is one of [P] and its
    result one of [Q]. *)
Definition yields {A} (P : rop -> Prop) (Q : A -> Prop) (c : handler A) : Prop :=
  forall w h, Q (c w h).1 /\
    exists more, h_history (c w h).2 = h_history h ++ more /\ Forall (fun x => P x.2) (own more).

Lemma yields_ret {A} P (Q : A -> Prop) a : Q a -> yields P Q (hret a).
Proof. intros Ha w h. split; [done|]. exists []. by rewrite app_nil_r. Qed.

Lemma yields_bind {A B} P (Q : A -> Prop) (R : B -> Prop) c k :
  yields P Q c -> (forall a, Q a -> yields P R (k a)) -> yields P R (hbind c k).
Proof.
  intros Hc Hk w h. unfold hbind. destruct (Hc w h) as (Ha & m1 & Hh1 & Hm1). destruct (c w h) as [a h1]. simpl in *.
  destruct (Hk a Ha w h1) as (Hb & m2 & Hh2 & Hm2). split; [done|]. exists (m1 ++ m2).
  rewrite Hh2, Hh1, app_assoc, own_app, Forall_app. done.
Qed.

Lemma yields_clock P : yields P (fun _ => True) clock_now.
Proof. intros w h. split; [done|]. exists []. by rewrite app_nil_r. Qed.

Lemma yields_perform {A} P (op : Z -> rop) (answer : Z -> MemoryRecords -> A) :
  (forall t, P (op t)) -> yields P (fun _ => True) (perform op answer).
Proof.
  intros HP w h. split; [done|]. unfold perform.
  destruct (wd_fault w (h_calls h)) as [[]|]; eexists; (split; [reflexivity|]);
    rewrite ?own_app, own_others; cbn; repeat constructor; apply HP.
Qed.

Lemma yields_weaken {A} (P P' : rop -> Prop) (Q Q' : A -> Prop) c :
  (forall op, P op -> P' op) -> (forall a, Q a -> Q' a) -> yields P Q c -> yields P' Q' c.
Proof.
  intros HP HQ Hc w h. destruct (Hc w h) as (Ha & m & Hh & Hm). split; [by apply HQ|]. exists m. split; [done|].
  eapply Forall_impl; [exact Hm|]. naive_solver.
Qed.

(** Binding a program whose result is not used by the argument. *)
Lemma yields_then {A B} P (R : B -> Prop) (c : handler A) k :
  yields P (fun _ => True) c -> (forall a, yields P R (k a)) -> yields P R (hbind c k).
Proof. intros Hc Hk. eapply yields_bind; eauto. Qed.

Ltac yield :=
  lazymatch goal with
  | |- yields _ _ (hret _) => apply yields_ret
  | |- yields _ _ (hbind clock_now _) => apply yields_then; [apply yields_clock|intro]
  | |- yields _ _ (hbind (perform _ _) _) => apply yields_then; [apply yields_perform; intro|intro]
  | |- yields _ _ (if ?b then _ else _) => destruct b eqn:?
  | |- yields _ _ (match ?x with _ => _ end) => destruct x eqn:?
  end.

(** A call that was answered: where it stands in the history, and what it
    found. *)
Lemma perform_answered {A} (op : Z -> rop) (answer : Z -> MemoryRecords -> A) w h x :
  (perform op answer w h).1 = Some x ->
  exists pre, own pre = [] /\
    h_history (perform op answer w h).2 = h_history h ++ pre ++ [mkEvent true (wd_clock w (h_calls h)) (op (wd_clock w (h_calls h)))] /\
    x = answer (wd_clock w (h_calls h)) (rrun (ops_of pre) (h_mem h)) /\
    h_mem (perform op answer w h).2 = rstep (wd_clock w (h_calls h)) (op (wd_clock w (h_calls h))) (rrun (ops_of pre) (h_mem h)).
Proof.
  unfold perform. destruct (wd_fault w (h_calls h)) as [[]|]; try done. intros [= <-].
  eexists. split; [apply own_others|]. split; [reflexivity|]. by rewrite ops_of_others.
Qed.

(** ** Selected keys *)

(** A counter key of the domain that a selection names by its rule, algorithm
    and identity. A filter on an identity only reaches counters of enforced
    rules. The limited filter asks for the state of a counter at an instant:
    it is [refused_before] below. *)
Definition selected (ns : string) (snapshot : Snapshot) (sel : selector) (domainWide : bool) (k : string) : Prop :=
  exists parsed, parseCounterKey ns (s_Domain snapshot) k = Ok parsed /\
    (domainWide = false -> matches sel parsed = true /\
       (se_Axes sel <> ∅ -> exists ref axes, ref ∈ rate_refs snapshot /\ ra_Prefix (rr_rate ref) = ck_RatePrefix parsed /\
          namedAxes parsed (ru_Counters (rr_rule ref)) = Ok axes /\ matchesAxes sel axes = true)).

Lemma matchesAxes_none sel axes : se_Axes sel = ∅ -> matchesAxes sel axes = true.
Proof. intros E. unfold matchesAxes. by rewrite E, map_to_list_empty. Qed.

Lemma consider_selected o k c :
  consider o k = Some c -> cc_key c = k /\ selected (so_namespace o) (so_snapshot o) (so_sel o) (so_domainWide o) k /\
    (se_LimitedOnly (so_sel o) = true -> is_Some (cc_ref c)).
Proof.
  unfold consider, selected. destruct (parseCounterKey _ _ k) as [parsed|]; [|done].
  destruct (negb (so_domainWide o) && negb (matches (so_sel o) parsed)) eqn:Em; [done|].
  assert (so_domainWide o = false -> matches (so_sel o) parsed = true) as Hm.
  { intros E. rewrite E in Em. simpl in Em. by apply negb_false_iff in Em. }
  destruct (newRateIndex (so_snapshot o) !! ck_RatePrefix parsed) as [ref|] eqn:Ei.
  - apply index_lookup_in in Ei as [Hin Hp].
    destruct (namedAxes parsed (ru_Counters (rr_rule ref))) as [axes|] eqn:En; [|done].
    destruct (negb (so_domainWide o) && negb (matchesAxes (so_sel o) axes)) eqn:Ea; [done|].
    intros [= <-]. split; [done|]. split; [|done]. exists parsed. split; [done|]. intros Ed.
    split; [by apply Hm|]. intros _. exists ref, axes. split_and!; try done.
    rewrite Ed in Ea. simpl in Ea. by apply negb_false_iff in Ea.
  - destruct ((0 <? size (se_Axes (so_sel o)))%nat || se_LimitedOnly (so_sel o)) eqn:Ef; [done|].
    apply orb_false_iff in Ef as [Ef El]. intros [= <-]. split; [done|]. split; [|congruence].
    exists parsed. split; [done|]. intros Ed. split; [by apply Hm|]. intros Hne. exfalso. apply Hne.
    apply Nat.ltb_ge in Ef. apply map_size_empty_inv. lia.
Qed.

(** ** What a sweep does *)

(** The operations of a walk: reading the counters, and batches of its own
    token whose keys are selected; a preview deletes none. *)
Definition sweep_op (o : sweep_of) (op : rop) : Prop :=
  match op with
  | OCounters _ => True
  | OBatch b =>
      ba_Keys b = so_keys o /\ ba_Fencing b = so_fencing o /\ (ba_Delete b <> [] -> so_execute o = true) /\
      Forall (selected (so_namespace o) (so_snapshot o) (so_sel o) (so_domainWide o)) (ba_Delete b)
  | _ => False
  end.

Definition considered (o : sweep_of) (cs : list counterCandidate) : Prop :=
  Forall (fun c => consider o (cc_key c) = Some c) cs.

Definition batch_ok (o : sweep_of) (r : option (sweeper * result sweep_error unit)) : Prop :=
  match r with Some (s, _) => considered o (sw_batch s) | None => False end.

(** A judged candidate has its rule. *)
Lemma candidate_buckets_defined o batch :
  se_LimitedOnly (so_sel o) = true -> considered o batch -> is_Some (candidate_buckets batch).
Proof.
  intros Hl H. apply mapM_is_Some_2. eapply Forall_impl; [exact H|]. intros c Hc.
  destruct (consider_selected _ _ _ Hc) as (_ & _ & Hr). destruct (Hr Hl) as [ref E]. simpl. rewrite E. by eexists.
Qed.

Lemma count_batch o cs s : sw_batch (foldl (fun s c => count o (cc_key c) (cc_ruleID c) s) s cs) = sw_batch s.
Proof. revert s. induction cs as [|c cs IH]; intros s; [done|]. simpl. by rewrite IH. Qed.

Lemma considered_keys o cs :
  considered o cs -> Forall (selected (so_namespace o) (so_snapshot o) (so_sel o) (so_domainWide o)) (cc_key <$> cs).
Proof.
  intros H. apply Forall_fmap. eapply Forall_impl; [exact H|]. intros c Hc. by apply consider_selected in Hc as (_ & Hs & _).
Qed.

Lemma zip_kept_considered o batch verdicts :
  considered o batch ->
  considered o (omap (fun cv : counterCandidate * Verdict => if v_Allowed cv.2 then None else Some cv.1) (zip batch verdicts)).
Proof.
  revert verdicts. induction batch as [|c batch IH]; intros [|v vs] H; try apply Forall_nil; try done.
  apply Forall_cons in H as [Hc H]. simpl. destruct (v_Allowed v); [by apply IH|]. constructor; [done|by apply IH].
Qed.

Lemma record_batch_yields o kept s :
  considered o kept -> considered o (sw_batch s) ->
  yields (sweep_op o) (fun r => considered o (sw_batch r.1)) (record_batch o kept s).
Proof.
  intros Hk Hs. unfold record_batch.
  assert (considered o (sw_batch (foldl (fun s c => count o (cc_key c) (cc_ruleID c) s) s kept))) as Hb by by rewrite count_batch.
  revert Hb. generalize (foldl (fun s c => count o (cc_key c) (cc_ruleID c) s) s kept). intros s' Hb.
  destruct kept as [|c kept]; [by apply yields_ret|]. unfold do_Batch. yield.
  - pose proof (considered_keys o _ Hk) as Hsel. cbn [sweep_op ba_Keys ba_Fencing ba_Delete].
    destruct (so_execute o); split_and!; try done; apply Forall_nil.
  - by apply yields_ret.
Qed.

Lemma commitBatch_yields o batch s :
  considered o batch -> considered o (sw_batch s) -> yields (sweep_op o) (batch_ok o) (commitBatch o batch s).
Proof.
  intros Hb Hs. unfold commitBatch. destruct batch as [|c batch]; [by apply yields_ret|].
  apply yields_bind with (Q := fun r => match r with Some (Ok kept) => considered o kept | Some (Err _) => True | None => False end).
  - destruct (se_LimitedOnly (so_sel o)) eqn:El; [|by apply yields_ret]. unfold sweep_refusing.
    destruct (candidate_buckets_defined o _ El Hb) as [bs ->]. unfold do_Peek. yield; [done|].
    apply yields_ret. destruct a as [[vs|]|]; try done. destruct (negb _); [done|]. by apply zip_kept_considered.
  - intros [[kept|e]|] Hkept; try by apply yields_ret. eapply yields_bind; [by apply record_batch_yields|].
    intros [s' r] H. by apply yields_ret.
Qed.

Lemma walk_yields o keys deadline : forall s,
  considered o (sw_batch s) -> yields (sweep_op o) (batch_ok o) (walk o keys deadline s).
Proof.
  induction keys as [|k keys IH]; intros s Hs; cbn [walk]; [by apply yields_ret|]. yield.
  destruct (deadline <? a); [by apply yields_ret|]. destruct (consider o k) as [c|] eqn:Ec; [|by apply IH].
  assert (considered o (sw_batch (scanned_one s) ++ [c])) as Hc.
  { apply Forall_app. split; [done|]. constructor; [|done]. by rewrite (proj1 (consider_selected _ _ _ Ec)). }
  cbn [with_batch sw_batch]. destruct (_ <? _)%nat; [by apply IH|].
  eapply yields_bind; [by apply commitBatch_yields|].
  intros [[s' [u|e]]|] H; [|by apply yields_ret|destruct H]. apply IH. constructor.
Qed.

Lemma run_yields o fuel deadline : yields (sweep_op o) (fun _ => True) (run o fuel deadline).
Proof.
  unfold run. destruct (sweep_prefix o) as [prefix|]; [|by apply yields_ret].
  eapply yields_weaken with (Q := fun r => r = None \/ batch_ok o r); [done|done|].
  assert (considered o (sw_batch newSweeper)) as Hs by constructor. revert Hs. generalize newSweeper "".
  induction fuel as [|fuel IH]; intros s cursor Hs; cbn [run_loop]; [apply yields_ret; by left|]. yield.
  destruct (deadline <? a); [apply yields_ret; by right|]. unfold do_Scan. yield; [done|].
  destruct a0 as [[[keys next]|]|]; try (apply yields_ret; by right).
  eapply yields_bind; [by apply walk_yields|].
  intros [[s' [u|e]]|] H; [|apply yields_ret; by right|destruct H]. case_bool_decide; [|by apply IH].
  eapply yields_weaken; [| |by apply commitBatch_yields]; [done|]. intros r Hr. by right.
Qed.

(** ** What a retry and an accepted command do *)

Definition retry_op (op : rop) : Prop := match op with OLookup _ | OFinalize _ => True | _ => False end.

Definition accepted_op (o : sweep_of) (op : rop) : Prop :=
  match op with
  | OLookup _ => True
  | OCommit c => cm_Keys c = so_keys o /\ cm_Fencing c = so_fencing o
  | OPut _ _ _ => so_execute o = false
  | op => sweep_op o op
  end.

Section platform.
Context {PL : Platform} {GT : GoText} {TT : TokenText}.
Context (namespace : string).

Lemma standing_yields mi domain keys record c : yields retry_op (fun _ => True) (standing mi domain keys record c).
Proof. unfold standing, do_Finalize. repeat first [yield|done]. Qed.

Lemma replayFrom_yields (P : rop -> Prop) domain keys c :
  (forall k, P (OLookup k)) -> yields P (fun _ => True) (replayFrom domain keys c).
Proof. intros HP. unfold replayFrom, do_Lookup. yield; [done|by apply yields_ret]. Qed.

Lemma recordFailure_yields o mi domain keys fencing s c cause :
  keys = so_keys o -> fencing = so_fencing o ->
  yields (accepted_op o) (fun _ => True) (recordFailure mi domain keys fencing s c cause).
Proof.
  intros Hk Hf. unfold recordFailure. apply yields_then.
  { unfold failure_progress, do_Lookup. destruct cause; [by apply yields_ret|]. yield; [done|by apply yields_ret]. }
  intros [p|]; [|by apply yields_ret]. unfold do_Commit. yield; [done|].
  destruct a as [[[]|]|]; try by apply yields_ret. by apply replayFrom_yields.
Qed.

Lemma sweep_yields fuel mi snapshot version domain subject c keys fencing :
  yields (accepted_op (sweep_of_command namespace snapshot c keys fencing)) (fun _ => True)
    (sweep namespace fuel mi snapshot version domain subject c keys fencing).
Proof.
  unfold sweep. set (o := sweep_of_command namespace snapshot c keys fencing). yield.
  apply yields_then.
  { eapply yields_weaken; [|intros ? _; exact I|apply run_yields]. by intros []. }
  intros [[s [u|e]]|]; [| |by apply yields_ret].
  2: { apply yields_then; [by apply recordFailure_yields|]. intros. by apply yields_ret. }
  assert (forall token expires (k : handler (option reply)), yields (accepted_op o) (fun _ => True) k ->
    yields (accepted_op o) (fun _ => True)
      (let! committed := do_Commit (mkCommitArg keys fencing (mkCOutcome false "" "" "" (snapshotProgress s) token expires)) in
       match committed with
       | Some None => k
       | Some (Some ErrLeaseLost) => let! r := replayFrom domain keys c in hret (Some r)
       | _ => hret (Some (Failed storeDown))
       end)) as Hfin.
  { intros token expires k Hk. unfold do_Commit. yield; [done|].
    destruct a0 as [[[]|]|]; try done; try by apply yields_ret.
    apply yields_then; [by apply replayFrom_yields|intros; by apply yields_ret]. }
  destruct (bc_DryRun c) eqn:Ed; [|apply Hfin; by apply yields_ret].
  apply yields_then.
  { unfold mintToken, do_Put. destruct (tokenKey _ _ _); [|by apply yields_ret]. yield. yield; [|by apply yields_ret].
    cbn. by rewrite Ed. }
  intros [[[token expires]|e]|]; [apply Hfin; by apply yields_ret| |by apply yields_ret].
  apply yields_then; [by apply recordFailure_yields|intros; by apply yields_ret].
Qed.

End platform.

(** ** What the limited filter lets a sweep delete *)

(** The counter of a key refused when the handler judged it: the history has a
    reading of the counters by the handler itself, at which a decision of cost
    one on the counter alone, under the window of the enforced rate the key
    belongs to, would not have been allowed. The history starts in [m]. *)
Definition refused_before (ns : string) (snapshot : Snapshot) (m : MemoryRecords) (past : list event) (k : string) : Prop :=
  exists p1 t f p2 parsed ref,
    past = p1 ++ mkEvent true t (OCounters f) :: p2 /\
    parseCounterKey ns (s_Domain snapshot) k = Ok parsed /\ ref ∈ rate_refs snapshot /\
    ra_Prefix (rr_rate ref) = ck_RatePrefix parsed /\
    refused_now (H := memory_store key_kind) (t / 1000) (mm_counters (rrun (ops_of p1) m)) k ref = true.

Lemma refused_before_app ns snapshot m p0 p k :
  refused_before ns snapshot (rrun (ops_of p0) m) p k -> refused_before ns snapshot m (p0 ++ p) k.
Proof.
  intros (p1 & t & f & p2 & parsed & ref & -> & Hp & Hr & Hx & Hn). exists (p0 ++ p1), t, f, p2, parsed, ref.
  rewrite ops_of_app, rrun_app, <- app_assoc. done.
Qed.

Section judged.
Context (ns : string) (snapshot : Snapshot).

(** Every key a handler's batches delete was judged by it before. *)
Definition judged {A} (c : handler A) : Prop :=
  forall w h, exists more, h_history (c w h).2 = h_history h ++ more /\ h_mem (c w h).2 = rrun (ops_of more) (h_mem h) /\
    forall p t b q, more = p ++ mkEvent true t (OBatch b) :: q ->
      Forall (refused_before ns snapshot (h_mem h) p) (ba_Delete b).

Lemma judged_bind {A B} (c : handler A) (k : A -> handler B) P (Q : A -> Prop) :
  yields P Q c -> judged c -> (forall a, Q a -> judged (k a)) -> judged (hbind c k).
Proof.
  intros Hy Hc Hk w h. unfold hbind. destruct (Hy w h) as [Ha _]. destruct (Hc w h) as (m1 & Hh1 & Hm1 & Hj1).
  destruct (c w h) as [a h1]. simpl in *. destruct (Hk a Ha w h1) as (m2 & Hh2 & Hm2 & Hj2). exists (m1 ++ m2).
  rewrite Hh2, Hh1, app_assoc, Hm2, Hm1, ops_of_app, rrun_app. split_and!; [done..|].
  intros p t b q E.
  assert (forall p', m2 = p' ++ mkEvent true t (OBatch b) :: q -> p = m1 ++ p' ->
    Forall (refused_before ns snapshot (h_mem h) p) (ba_Delete b)) as Hlater.
  { intros p' E2 ->. eapply Forall_impl; [by eapply Hj2|]. intros x Hx. apply refused_before_app. by rewrite <- Hm1. }
  apply app_eq_inv in E as [(l & -> & E)|(l & -> & E)]; [|by eapply Hlater].
  destruct l as [|e l]; cbn in E; [apply (Hlater []); [by symmetry|by rewrite !app_nil_r]|].
  injection E as <- ->. by eapply Hj1.
Qed.

Lemma judged_then {A B} (c : handler A) (k : A -> handler B) :
  judged c -> (forall a, judged (k a)) -> judged (hbind c k).
Proof.
  intros Hc Hk. apply (judged_bind c k (fun _ => True) (fun _ => True)); [|done|done]. intros w h. split; [done|].
  destruct (Hc w h) as (more & Hm & _). exists more. split; [done|]. by apply Forall_true.
Qed.

Lemma judged_ret {A} (a : A) : judged (hret a).
Proof. intros w h. exists []. rewrite app_nil_r. split_and!; [done..|]. intros p t b q E. by destruct p. Qed.

Lemma judged_clock : judged clock_now.
Proof. intros w h. exists []. rewrite app_nil_r. split_and!; [done..|]. intros p t b q E. by destruct p. Qed.

(** What one call adds: the others' operations, then perhaps its own. *)
Lemma others_no_batch (ops : list (Z * rop)) p t b q :
  (fun o : Z * rop => mkEvent false o.1 o.2) <$> ops <> p ++ mkEvent true t (OBatch b) :: q.
Proof.
  intros E. assert (mkEvent true t (OBatch b) ∈ (fun o : Z * rop => mkEvent false o.1 o.2) <$> ops) as H.
  { rewrite E. apply elem_of_app. right. by left. }
  by apply list_elem_of_fmap in H as (? & [=] & _).
Qed.

Lemma judged_perform {A} (op : Z -> rop) (answer : Z -> MemoryRecords -> A) :
  (forall t b, op t <> OBatch b) -> judged (perform op answer).
Proof.
  intros Hop w h. unfold perform. set (others := (fun o : Z * rop => mkEvent false o.1 o.2) <$> wd_others w (h_calls h)).
  assert (forall p t b q, others ++ [mkEvent true (wd_clock w (h_calls h)) (op (wd_clock w (h_calls h)))] <>
            p ++ mkEvent true t (OBatch b) :: q) as Hno.
  { intros p t b q E. apply app_eq_inv in E as [(l & E1 & E)|(l & -> & E)].
    - destruct l as [|e l]; cbn in E; [injection E as _ E _; symmetry in E; by apply Hop in E|]. injection E as <- _.
      by apply others_no_batch in E1.
    - destruct l as [|e l]; cbn in E; [injection E as _ E _; by apply Hop in E|]. by destruct l. }
  destruct (wd_fault w (h_calls h)) as [[]|]; cbn [h_history h_mem snd]; eexists; (split; [reflexivity|]);
    unfold others; rewrite ?ops_of_app, ?rrun_app, ?ops_of_others; (split; [done|]); intros p t b q E.
  - by apply others_no_batch in E.
  - by apply Hno in E.
  - by apply Hno in E.
Qed.

End judged.

Ltac judge :=
  lazymatch goal with
  | |- judged _ _ (hret _) => apply judged_ret
  | |- judged _ _ (hbind clock_now _) => apply judged_then; [apply judged_clock|intro]
  | |- judged _ _ (hbind (perform _ _) _) => apply judged_then; [by apply judged_perform|intro]
  | |- judged _ _ (if ?b then _ else _) => destruct b eqn:?
  | |- judged _ _ (match ?x with _ => _ end) => destruct x eqn:?
  end.

Section limited.
Context (o : sweep_of) (Hl : se_LimitedOnly (so_sel o) = true).
Abbreviation judged_ := (judged (so_namespace o) (so_snapshot o)).

(** The rate a considered candidate is judged under. *)
Lemma considered_rate k c : consider o k = Some c ->
  exists parsed ref, cc_ref c = Some ref /\ parseCounterKey (so_namespace o) (s_Domain (so_snapshot o)) k = Ok parsed /\
    ref ∈ rate_refs (so_snapshot o) /\ ra_Prefix (rr_rate ref) = ck_RatePrefix parsed.
Proof.
  unfold consider. destruct (parseCounterKey _ _ k) as [parsed|]; [|done]. destruct (_ && _); [done|].
  destruct (newRateIndex (so_snapshot o) !! ck_RatePrefix parsed) as [ref|] eqn:Ei.
  - apply index_lookup_in in Ei as [Hin Hp]. destruct (namedAxes _ _); [|done]. destruct (_ && _); [done|].
    intros [= <-]. by exists parsed, ref.
  - rewrite Hl, orb_true_r. done.
Qed.

(** The buckets a batch is judged with, in its order. *)
Lemma candidate_buckets_lookup batch bs i c :
  candidate_buckets batch = Some bs -> batch !! i = Some c ->
  exists ref, cc_ref c = Some ref /\ bs !! i = Some (peek_bucket (cc_key c) ref).
Proof.
  intros Hb Hc. apply mapM_Some in Hb. destruct (Forall2_lookup_l _ _ _ _ _ Hb Hc) as (b & Hi & Hb').
  destruct (cc_ref c) as [ref|]; [|done]. injection Hb' as <-. by exists ref.
Qed.

(** What refused in a judged batch. *)
Lemma kept_refused batch bs vs now m k :
  candidate_buckets batch = Some bs -> considered o batch -> (Peek now bs m).2 = Ok vs ->
  k ∈ cc_key <$> omap (fun cv : counterCandidate * Verdict => if v_Allowed cv.2 then None else Some cv.1) (zip batch vs) ->
  exists parsed ref, parseCounterKey (so_namespace o) (s_Domain (so_snapshot o)) k = Ok parsed /\
    ref ∈ rate_refs (so_snapshot o) /\ ra_Prefix (rr_rate ref) = ck_RatePrefix parsed /\
    refused_now (H := memory_store key_kind) now m k ref = true.
Proof.
  intros Hbs Hc Hp (c & -> & ([c' v] & [i Hi]%list_elem_of_lookup & Hk)%list_elem_of_omap)%list_elem_of_fmap.
  apply lookup_zip_Some in Hi as [Hi Hv]. cbn in Hk, Hi, Hv. destruct (v_Allowed v) eqn:Ev; [done|]. injection Hk as ->.
  destruct (candidate_buckets_lookup batch bs i c Hbs Hi) as (ref & Hr & Hb).
  pose proof (Forall_lookup_1 _ _ _ _ Hc Hi) as Hcons. destruct (considered_rate _ _ Hcons) as (parsed & ref' & Hr' & Hpar & Hin & Hpre).
  rewrite Hr in Hr'. injection Hr' as <-. exists parsed, ref. split_and!; [done..|].
  by rewrite (peek_tells now bs m vs i (cc_key c) ref v Hp Hb Hv), Ev.
Qed.

Lemma record_batch_history kept s w h :
  exists more, h_history (record_batch o kept s w h).2 = h_history h ++ more /\
    h_mem (record_batch o kept s w h).2 = rrun (ops_of more) (h_mem h) /\
    forall t b, mkEvent true t (OBatch b) ∈ more -> forall k, k ∈ ba_Delete b -> k ∈ cc_key <$> kept.
Proof.
  unfold record_batch. destruct kept as [|c kept].
  { exists []. rewrite app_nil_r. split_and!; [done..|]. intros t b H. by apply elem_of_nil in H. }
  rewrite hbind_run. cbn [hret snd]. unfold do_Batch, perform.
  assert (forall (ops : list (Z * rop)) t b, mkEvent true t (OBatch b) ∉ (fun x : Z * rop => mkEvent false x.1 x.2) <$> ops) as Hno.
  { intros ops t b H. by apply list_elem_of_fmap in H as (? & [=] & _). }
  destruct (wd_fault w (h_calls h)) as [[]|]; cbn [h_history h_mem snd]; eexists; (split; [reflexivity|]);
    rewrite ?ops_of_app, ?rrun_app, ?ops_of_others; (split; [done|]); intros t b H; [by apply Hno in H|..].
  all: apply elem_of_app in H as [H|H]; [by apply Hno in H|]; apply list_elem_of_singleton in H; injection H as _ ->;
    intros k; cbn [ba_Delete]; destruct (so_execute o); [done|]; intros Hk; by apply elem_of_nil in Hk.
Qed.

(** The step that commits: the peek, then the batch of what refused. *)
Lemma commitBatch_judged batch s : considered o batch -> judged_ (commitBatch o batch s).
Proof.
  intros Hb. unfold commitBatch. destruct batch as [|c0 batch0]; [apply judged_ret|]. set (batch := c0 :: batch0) in *.
  rewrite Hl. unfold sweep_refusing. destruct (candidate_buckets_defined o _ Hl Hb) as [bs Hbs]. rewrite Hbs.
  unfold do_Peek. intros w h. rewrite !hbind_run.
  set (op := fun t => OCounters (fun c => (Peek (t / 1000) bs c).1)).
  set (answer := fun t m => (Peek (t / 1000) bs (mm_counters m)).2).
  destruct (judged_perform (so_namespace o) (so_snapshot o) op answer ltac:(done) w h) as (m1 & Hh1 & Hm1 & Hj1).
  pose proof (perform_answered op answer w h) as Hans.
  destruct (perform op answer w h) as [r h1]. cbn [fst snd hret] in *.
  assert (forall (A : Type) (x : A), exists more, h_history (hret x w h1).2 = h_history h ++ more /\
    h_mem (hret x w h1).2 = rrun (ops_of more) (h_mem h) /\
    forall p t b q, more = p ++ mkEvent true t (OBatch b) :: q ->
      Forall (refused_before (so_namespace o) (so_snapshot o) (h_mem h) p) (ba_Delete b)) as Hret by (intros A x; by exists m1).
  destruct r as [[vs|e]|]; try (by apply Hret). destruct (negb (length vs =? length bs)%nat); [by apply Hret|].
  destruct (Hans _ eq_refl) as (pre & _ & Hh1' & Hvs & _). rewrite Hh1 in Hh1'. apply app_inv_head in Hh1'.
  rewrite hbind_run. cbn [hret snd].
  set (kept := omap _ (zip batch vs)). destruct (record_batch_history kept s w h1) as (m2 & Hh2 & Hm2 & Hb2).
  exists (m1 ++ m2). rewrite Hh2, Hh1, app_assoc, Hm2, Hm1, ops_of_app, rrun_app. split_and!; [done..|].
  intros p t b q E.
  assert (forall p', m2 = p' ++ mkEvent true t (OBatch b) :: q -> p = m1 ++ p' ->
    Forall (refused_before (so_namespace o) (so_snapshot o) (h_mem h) p) (ba_Delete b)) as Hlater.
  { intros p' E2 ->. apply Forall_forall. intros k Hk.
    destruct (kept_refused batch bs vs _ _ k Hbs Hb (eq_sym Hvs)) as (parsed & ref & ? & ? & ? & ?).
    { apply (Hb2 t b); [|done]. rewrite E2. apply elem_of_app. right. by left. }
    exists pre, (wd_clock w (h_calls h)), (fun c => (Peek (wd_clock w (h_calls h) / 1000) bs c).1), p', parsed, ref.
    split_and!; [|done..]. by rewrite Hh1', <- app_assoc. }
  apply app_eq_inv in E as [(l & E1 & E)|(l & E1 & E)]; [|by eapply Hlater].
  destruct l as [|e l]; cbn in E; [apply (Hlater []); [by symmetry|by rewrite E1, !app_nil_r]|].
  injection E as <- ->. by eapply Hj1.
Qed.

Lemma walk_judged keys deadline : forall s, considered o (sw_batch s) -> judged_ (walk o keys deadline s).
Proof.
  induction keys as [|k keys IH]; intros s Hs; cbn [walk]; [apply judged_ret|]. judge.
  destruct (deadline <? a); [apply judged_ret|]. destruct (consider o k) as [c|] eqn:Ec; [|by apply IH].
  assert (considered o (sw_batch (scanned_one s) ++ [c])) as Hc.
  { apply Forall_app. split; [done|]. constructor; [|done]. by rewrite (proj1 (consider_selected _ _ _ Ec)). }
  cbn [with_batch sw_batch]. destruct (_ <? _)%nat; [by apply IH|].
  eapply judged_bind; [by apply commitBatch_yields|by apply commitBatch_judged|].
  intros [[s' [u|e]]|] H; [|by apply judged_ret|destruct H]. apply IH. constructor.
Qed.

Lemma run_judged fuel deadline : judged_ (run o fuel deadline).
Proof.
  unfold run. destruct (sweep_prefix o) as [prefix|]; [|apply judged_ret].
  assert (considered o (sw_batch newSweeper)) as Hs by constructor. revert Hs. generalize newSweeper "".
  induction fuel as [|fuel IH]; intros s cursor Hs; cbn [run_loop]; [apply judged_ret|]. judge.
  destruct (deadline <? a); [apply judged_ret|]. unfold do_Scan. judge.
  destruct a0 as [[[keys next]|]|]; try apply judged_ret.
  eapply judged_bind; [by apply walk_yields|by apply walk_judged|].
  intros [[s' [u|e]]|] H; [|apply judged_ret|destruct H]. case_bool_decide; [|by apply IH]. by apply commitBatch_judged.
Qed.

End limited.

Section limited_sweep.
Context {PL : Platform} {GT : GoText} {TT : TokenText} (namespace : string).

Lemma replayFrom_judged snapshot domain keys c : judged namespace snapshot (replayFrom domain keys c).
Proof. unfold replayFrom, do_Lookup. judge. apply judged_ret. Qed.

Lemma recordFailure_judged snapshot mi domain keys fencing s c cause :
  judged namespace snapshot (recordFailure mi domain keys fencing s c cause).
Proof.
  unfold recordFailure. apply judged_then.
  { unfold failure_progress, do_Lookup. destruct cause; [apply judged_ret|]. judge. apply judged_ret. }
  intros [p|]; [|apply judged_ret]. unfold do_Commit. judge.
  destruct a as [[[]|]|]; try apply judged_ret. apply replayFrom_judged.
Qed.

Lemma sweep_judged fuel mi snapshot version domain subject c keys fencing :
  se_LimitedOnly (bc_Selector c) = true ->
  judged namespace snapshot (sweep namespace fuel mi snapshot version domain subject c keys fencing).
Proof.
  intros Hl. unfold sweep. set (o := sweep_of_command namespace snapshot c keys fencing). judge.
  apply judged_then; [apply (run_judged o Hl)|].
  intros [[s [u|e]]|]; [| |apply judged_ret].
  2: { apply judged_then; [apply recordFailure_judged|]. intros. apply judged_ret. }
  assert (forall token expires (k : handler (option reply)), judged namespace snapshot k ->
    judged namespace snapshot
      (let! committed := do_Commit (mkCommitArg keys fencing (mkCOutcome false "" "" "" (snapshotProgress s) token expires)) in
       match committed with
       | Some None => k
       | Some (Some ErrLeaseLost) => let! r := replayFrom domain keys c in hret (Some r)
       | _ => hret (Some (Failed storeDown))
       end)) as Hfin.
  { intros token expires k Hk. unfold do_Commit. judge.
    destruct a0 as [[[]|]|]; try done; try apply judged_ret.
    apply judged_then; [apply replayFrom_judged|intros; apply judged_ret]. }
  destruct (bc_DryRun c) eqn:Ed; [|apply Hfin; apply judged_ret].
  apply judged_then.
  { unfold mintToken, do_Put. destruct (tokenKey _ _ _); [|apply judged_ret]. judge. judge. apply judged_ret. }
  intros [[[token expires]|e]|]; [apply Hfin; apply judged_ret| |apply judged_ret].
  apply judged_then; [apply recordFailure_judged|intros; apply judged_ret].
Qed.
End limited_sweep.

(** ** Bindings last *)

(** A binding outlives every operation of its retention, and keeps its
    command. *)
Lemma record_bound now key rk m e X :
  mm_records m !! rk = Some e -> now < X -> X <= re_expiresAt e ->
  mm_records (record now key m).1 !! rk = Some e.
Proof. intros He Hn HX. apply record_keeps; [done|lia]. Qed.

Definition bound (X : Z) (command : string) (rk : string) (m : MemoryRecords) : Prop :=
  exists e, mm_records m !! rk = Some e /\ X <= re_expiresAt e /\ re_command e = command.

Lemma bound_insert X cmd rk k e m :
  bound X cmd rk m -> (k = rk -> X <= re_expiresAt e /\ re_command e = cmd) -> bound X cmd rk (set_record k e m).
Proof.
  intros (e0 & H0 & HX & Hc) He. destruct (decide (k = rk)) as [->|Hne].
  - exists e. destruct (He eq_refl). split_and!; [apply lookup_insert_eq|done|done].
  - exists e0. split_and!; [|done|done]. unfold set_record. cbn [mm_records]. by rewrite lookup_insert_ne.
Qed.

Lemma bound_records X cmd rk m m' : mm_records m' = mm_records m -> bound X cmd rk m -> bound X cmd rk m'.
Proof. intros E (e & H & ? & ?). exists e. by rewrite E. Qed.

Lemma record_keeps_bound X cmd rk now key m :
  now < X -> bound X cmd rk m -> bound X cmd rk (record now key m).1.
Proof. intros Hn (e & H & HX & Hc). exists e. split_and!; [by eapply record_bound|done|done]. Qed.

(** What a lookup of the record under [key] finds when [rk] is bound. *)
Lemma record_of_bound X cmd rk now m m' e :
  now < X -> bound X cmd rk m -> record now rk m = (m', e) ->
  m' = m /\ exists e0, e = Some e0 /\ X <= re_expiresAt e0 /\ re_command e0 = cmd.
Proof.
  intros Hn (e0 & H & HX & Hc) Hr. rewrite (record_found now rk m e0 H) in Hr by lia. simplify_eq. eauto.
Qed.

Lemma read_keeps_bound X cmd rk now keys m :
  now < X -> bound X cmd rk m -> bound X cmd rk (Records.read now keys m).1.
Proof.
  intros Hn Hb. unfold Records.read. pose proof (record_keeps_bound X cmd rk now (k_Record keys) m Hn Hb) as H.
  destruct (record now (k_Record keys) m) as [m1 [e|]]; [|done]. by destruct (lease_of _ _ _).
Qed.

Lemma rstep_bound X cmd rk now op m :
  now < X -> X <= now + Retention -> bound X cmd rk m -> bound X cmd rk (rstep now op m).
Proof.
  intros Hn HR Hb.
  pose proof (fun key => record_keeps_bound X cmd rk now key m Hn Hb) as Hk.
  assert (forall key m1 e, record now key m = (m1, Some e) -> key = rk -> re_command e = cmd /\ X <= re_expiresAt e) as Hrk.
  { intros key m1 e Hr ->. destruct (record_of_bound X cmd rk now m m1 (Some e) Hn Hb Hr) as (_ & e0 & [= ->] & ? & ?). done. }
  destruct op as [keys|a|b|c|f|a|k v ttl|k|f]; cbn [rstep].
  - by apply read_keeps_bound.
  - unfold Accept. specialize (Hk (k_Record (ac_Keys a))). pose proof (record_of_bound X cmd rk now m) as Hof.
    destruct (record now (k_Record (ac_Keys a)) m) as [m1 [e|]] eqn:Er; simpl in Hk.
    { pose proof (read_keeps_bound X cmd rk now (ac_Keys a) m1 Hn Hk) as Hr.
      destruct (Records.read now (ac_Keys a) m1). done. }
    destruct (lease_of _ _ _); [done|].
    assert (k_Record (ac_Keys a) <> rk) as Hne.
    { intros E. rewrite E in Er. destruct (Hof m1 None Hn Hb Er) as (_ & e0 & [=] & _). }
    assert (forall m2, mm_records m2 = mm_records m1 -> bound X cmd rk
      (set_lease (k_Lease (ac_Keys a)) (mkLease (ac_Fencing a) (now + ac_LeaseTTL a))
        (set_record (k_Record (ac_Keys a)) (mkREntry (ac_Command a) (ac_Fencing a) false no_progress no_outcome "" (now + Retention)) m2)))
      as Hset.
    { intros m2 E. eapply bound_records; [|apply bound_insert; [by eapply bound_records|done]]. done. }
    destruct (negb _); [destruct (document_of _ _ _)|]; simpl; [by apply Hset|done|by apply Hset].
  - unfold Batch. destruct (negb _); [done|]. specialize (Hk (k_Record (ba_Keys b))). specialize (Hrk (k_Record (ba_Keys b))).
    destruct (record now (k_Record (ba_Keys b)) m) as [m1 [e|]]; [|done]. simpl in Hk. cbn [fst].
    apply bound_insert; [destruct (_ <? _)%nat; by eapply bound_records|]. intros E.
    destruct (Hrk m1 e eq_refl E). done.
  - unfold Commit. destruct (negb _); [done|]. specialize (Hk (k_Record (cm_Keys c))). specialize (Hrk (k_Record (cm_Keys c))).
    destruct (record now (k_Record (cm_Keys c)) m) as [m1 [e|]]; [|done]. simpl in Hk. cbn [fst].
    eapply bound_records; [|apply (bound_insert _ _ _ (k_Record (cm_Keys c))); [exact Hk|]]; [done|].
    intros E. destruct (Hrk m1 e eq_refl E). cbn. done.
  - unfold Finalize. specialize (Hk (k_Record (fi_Keys f))). specialize (Hrk (k_Record (fi_Keys f))).
    destruct (record now (k_Record (fi_Keys f)) m) as [m1 [e|]]; [|done]. simpl in Hk.
    destruct (re_terminal e); [by apply read_keeps_bound|]. destruct (lease_of _ _ _); [by apply read_keeps_bound|].
    apply read_keeps_bound; [done|]. apply bound_insert; [done|]. intros E. destruct (Hrk m1 e eq_refl E). cbn. done.
  - unfold Reset. specialize (Hk (a_Record a)). pose proof (record_of_bound X cmd rk now m) as Hof.
    destruct (record now (a_Record a) m) as [m1 [e|]] eqn:Er; [done|]. simpl in Hk.
    assert (a_Record a <> rk) as Hne.
    { intros E. rewrite E in Er. destruct (Hof m1 None Hn Hb Er) as (_ & e0 & [=] & _). }
    destruct (live_keys _ _ _) as [c [live|e]]; [|by eapply bound_records].
    cbn [fst]. apply bound_insert; [by eapply bound_records|done].
  - by eapply bound_records.
  - done.
  - by eapply bound_records.
Qed.

Lemma rrun_bound ops : forall X cmd rk t0 m,
  timed t0 X ops -> X <= t0 + Retention -> bound X cmd rk m -> bound X cmd rk (rrun ops m).
Proof.
  induction ops as [|[t op] ops IH]; intros X cmd rk t0 m Ht HX Hb; [done|]. destruct Ht as [Ht0 Ht]. cbn [rrun].
  eapply IH; [exact Ht|lia|]. apply rstep_bound; [lia|lia|done].
Qed.

(** An acceptance that took effect binds its key. *)
Lemma Accept_binds t a m :
  ad_OK (Accept t a m).2 = true -> bound (t + Retention) (ac_Command a) (k_Record (ac_Keys a)) (Accept t a m).1.
Proof.
  unfold Accept. destruct (record t (k_Record (ac_Keys a)) m) as [m1 [e|]].
  { destruct (Records.read t (ac_Keys a) m1). done. }
  destruct (lease_of _ _ _); [done|]. destruct (negb _); [destruct (document_of _ _ _)|]; try done; intros _;
    (eexists; split_and!; [apply lookup_insert_eq|cbn; lia|done]).
Qed.

(** ** A walk ends *)

(** Readings and calls are numbered upwards. *)
Definition advances {A} (c : handler A) : Prop := forall w h, (h_calls h <= h_calls (c w h).2)%nat.

Lemma advances_ret {A} (a : A) : advances (hret a).
Proof. intros w h. done. Qed.

Lemma advances_bind {A B} (c : handler A) (k : A -> handler B) :
  advances c -> (forall a, advances (k a)) -> advances (hbind c k).
Proof. intros Hc Hk w h. rewrite hbind_run. etransitivity; [apply Hc|apply Hk]. Qed.

Lemma advances_clock : advances clock_now.
Proof. intros w h. simpl. lia. Qed.

Lemma advances_perform {A} (op : Z -> rop) (answer : Z -> MemoryRecords -> A) : advances (perform op answer).
Proof. intros w h. unfold perform. destruct (wd_fault _ _) as [[]|]; simpl; lia. Qed.

#[export] Hint Resolve advances_ret advances_bind advances_clock advances_perform : handlers.

Lemma commitBatch_advances o batch s : advances (commitBatch o batch s).
Proof.
  unfold commitBatch. destruct batch; [auto with handlers|]. apply advances_bind.
  { unfold sweep_refusing, do_Peek. destruct (se_LimitedOnly _); [|auto with handlers].
    destruct (candidate_buckets _); auto with handlers. }
  intros [[kept|]|]; auto with handlers. apply advances_bind; [|auto with handlers].
  unfold record_batch, do_Batch. destruct kept; auto with handlers.
Qed.

Lemma walk_advances o keys deadline : forall s, advances (walk o keys deadline s).
Proof.
  induction keys as [|k keys IH]; intros s; cbn [walk]; [auto with handlers|].
  apply advances_bind; [auto with handlers|]. intros now. destruct (deadline <? now); [auto with handlers|].
  destruct (consider o k); [|auto]. destruct (_ <? _)%nat; [auto|].
  apply advances_bind; [apply commitBatch_advances|]. intros [[s' [u|e]]|]; auto with handlers.
Qed.

(** When every reading from the [N]-th on is past the deadline, the walk ends
    within [N] turns. *)
Lemma run_loop_ends o w deadline N :
  (forall i, (N <= i)%nat -> deadline < wd_clock w i) ->
  forall fuel prefix cursor s h, considered o (sw_batch s) -> (N - h_calls h < fuel)%nat ->
  (run_loop o fuel prefix cursor deadline s w h).1 <> None.
Proof.
  intros HN. induction fuel as [|fuel IH]; intros prefix cursor s h Hs Hf; [lia|]. cbn [run_loop].
  rewrite hbind_run. cbn [clock_now fst snd]. destruct (Z.ltb_spec deadline (wd_clock w (h_calls h))) as [|Hd]; [done|].
  assert (h_calls h < N)%nat as Hlt. { destruct (Nat.lt_ge_cases (h_calls h) N); [done|]. specialize (HN (h_calls h)). lia. }
  rewrite hbind_run. unfold do_Scan.
  pose proof (advances_perform (fun t => OCounters (fun c => (Scan (t / 1000) prefix cursor sweepScanStep c).1))
    (fun t m => (Scan (t / 1000) prefix cursor sweepScanStep (mm_counters m)).2) w
    (mkHState (S (h_calls h)) (h_mem h) (h_history h))) as Ha1.
  destruct (perform _ _ w _) as [[[[keys next]|]|] h1]; cbn [fst snd] in *; try done. rewrite hbind_run.
  destruct (walk_yields o keys deadline s Hs w h1) as [Hq _]. pose proof (walk_advances o keys deadline s w h1) as Ha2.
  destruct (walk o keys deadline s w h1) as [[[s' [u|e]]|] h2]; cbn [fst snd] in *; try done.
  case_bool_decide.
  - destruct (commitBatch_yields o (sw_batch s') s' Hq Hq w h2) as [Hc _].
    by destruct (commitBatch o (sw_batch s') s' w h2) as [[[]|] ?].
  - apply IH; [done|]. cbn [h_calls] in *. lia.
Qed.

Lemma DomainTag_defined ns d : ns <> "" -> d <> "" -> is_Some (DomainTag ns d).
Proof. intros Hn Hd. unfold DomainTag. rewrite !bool_decide_false by done. by eexists. Qed.

Lemma sweep_prefix_defined o : so_namespace o <> "" -> s_Domain (so_snapshot o) <> "" -> is_Some (sweep_prefix o).
Proof.
  intros Hn Hd. destruct (DomainTag_defined _ _ Hn Hd) as [tag Ht]. unfold sweep_prefix, scanPrefix, RulePrefix, BlockPrefix, DomainPrefix.
  cbn [IdNamespace IdDomain].
  destruct (so_domainWide o); [rewrite Ht; by eexists|].
  destruct (se_RuleIDs (so_sel o)) as [|id [|]]; try (rewrite Ht; by eexists).
  destruct (ruleview.SplitID id) as [[]|]; cbn [IdNamespace IdDomain]; [rewrite Ht; by eexists|].
  destruct (_ && _); rewrite Ht; by eexists.
Qed.
