(* ===== verification/ResetsClaims.v ===== *)
(** * What a bulk reset promises

    What it may delete and on whose confirmation, that one idempotency key
    runs one sweep, that a walk ends, and what a command does when nothing
    interferes. *)
From S2P Require Import Prelude GoStrings Algo Key StoreApi Memory MemoryScan Model Compile CompileFacts Match MatchFacts MatchKeys Identity.
From S2P Require Import Records RecordsClaims MgmtKeys RuleView MgmtErrors Selector Listing ListingFacts Manifest ConfigStore SvcConfig.
From S2P Require Import MgmtCalls AddrReset Bulk Resets ResetsFacts.

(** ** Calls in a history *)

(** A call whose answer is an error left at most itself. *)
Lemma perform_history {A} (op : Z -> rop) (answer : Z -> MemoryRecords -> A) w h :
  exists pre, h_history (perform op answer w h).2 = h_history h ++ pre /\
    Forall (fun x => exists t, x.2 = op t) (own pre).
Proof. apply (yields_perform (fun o => exists t, o = op t) op answer). by eexists. Qed.

(** A step that is not among the first ones stands after them. *)
Lemma stands_after {A} (e : A) pre m p q : e ∉ pre -> pre ++ m = p ++ e :: q -> exists p', p = pre ++ p' /\ m = p' ++ e :: q.
Proof.
  revert p. induction pre as [|x pre IH]; intros p Hn E; [by exists p|]. apply not_elem_of_cons in Hn as [Hx Hn].
  destruct p as [|y p]; cbn in E; injection E as Ex E; [by destruct Hx|]. destruct (IH p Hn E) as (p' & -> & ->).
  exists p'. by rewrite Ex.
Qed.

Lemma elem_own m t op : mkEvent true t op ∈ m -> (t, op) ∈ own m.
Proof. intros H. apply list_elem_of_fmap. exists (mkEvent true t op). split; [done|]. by apply list_elem_of_filter. Qed.

(** Steps that are no batches hold none. *)
Lemma no_batch (P : rop -> Prop) m t b :
  Forall (fun x => P x.2) (own m) -> ~ P (OBatch b) -> mkEvent true t (OBatch b) ∉ m.
Proof. intros Hf Hn H%elem_own. rewrite Forall_forall in Hf. by apply Hf in H. Qed.

(** ** Authority *)

Section platform.
Context {PL : Platform} {GT : GoText} {TT : TokenText}.
Context (namespace : string).

(** An acceptance that lets its call sweep. *)
Definition admits (fencing : string) (a : Accepted) : Prop :=
  ad_OK a = true \/ (r_Found (ad_Existing a) = true /\ r_Fencing (ad_Existing a) = fencing).

(** What precedes a deletion of an accepted command, read from state [m]: its
    own acceptance, and with the limited filter a reading that refused. *)
Definition accepted_before (mi : minted) (snapshot : Snapshot) (c : bulkCommand) (keys : Keys) (m : MemoryRecords)
    (b : BatchArg) (p : list event) : Prop :=
  exists pre t1 a rest, p = pre ++ mkEvent true t1 (OAccept a) :: rest /\
    ac_Keys a = keys /\ ac_Fencing a = mi_fencing mi /\ admits (mi_fencing mi) (Accept t1 a (rrun (ops_of pre) m)).2 /\
    (se_LimitedOnly (bc_Selector c) = true ->
     Forall (refused_before namespace snapshot (rrun (ops_of (pre ++ [mkEvent true t1 (OAccept a)])) m) rest) (ba_Delete b)).

Lemma accept_deletes fuel mi snapshot version domain subject c keys w h :
  exists more, h_history (accept namespace fuel mi snapshot version domain subject c keys w h).2 = h_history h ++ more /\
  forall p t b q, more = p ++ mkEvent true t (OBatch b) :: q ->
    sweep_op (sweep_of_command namespace snapshot c keys (mi_fencing mi)) (OBatch b) /\
    accepted_before mi snapshot c keys (h_mem h) b p.
Proof.
  unfold accept. set (a := mkAcceptance _ _ _ _). unfold hbind at 1, do_Accept.
  pose proof (perform_answered (fun _ => OAccept a) (fun t m => (Accept t a m).2) w h) as Hans.
  pose proof (perform_history (fun _ => OAccept a) (fun t m => (Accept t a m).2) w h) as (pre0 & Hh0 & Hp0).
  assert (forall (k : handler (option reply)) h1, h_history h1 = h_history h ++ pre0 -> yields retry_op (fun _ => True) k ->
    exists more, h_history (k w h1).2 = h_history h ++ more /\
    forall p t b q, more = p ++ mkEvent true t (OBatch b) :: q ->
      sweep_op (sweep_of_command namespace snapshot c keys (mi_fencing mi)) (OBatch b) /\
      accepted_before mi snapshot c keys (h_mem h) b p) as Hquiet.
  { intros k h1 E Hk. destruct (Hk w h1) as (_ & m & Hm & Hf). exists (pre0 ++ m). rewrite Hm, E, app_assoc.
    split; [done|]. intros p t b q Hb. assert (mkEvent true t (OBatch b) ∈ pre0 ++ m) as Hin.
    { rewrite Hb. apply elem_of_app. right. by left. }
    apply elem_of_app in Hin as [Hin|Hin]; exfalso; revert Hin; [|apply (no_batch retry_op _ _ _ Hf); by intros []].
    apply (no_batch (fun o => exists t : Z, o = OAccept a)); [done|]. by intros []. }
  destruct (perform (fun _ => OAccept a) (fun t m => (Accept t a m).2) w h) as [[acc|] h1]; simpl in Hh0, Hans.
  2: { apply Hquiet; [done|by apply yields_ret]. }
  destruct (Hans acc eq_refl) as (pre & Hown & Hh1 & Hacc & Hm1).
  destruct (ad_SweepBusy acc); [apply Hquiet; [done|by apply yields_ret]|].
  destruct (ad_TokenMissing acc); [apply Hquiet; [done|by apply yields_ret]|].
  destruct (ad_OK acc || _) eqn:Ead.
  2: { apply Hquiet; [done|]. apply yields_then; [apply standing_yields|intros; by apply yields_ret]. }
  destruct (sweep_yields namespace fuel mi snapshot version domain subject c keys (mi_fencing mi) w h1) as (_ & m & Hm & Hf).
  pose proof (fun Hl => sweep_judged namespace fuel mi snapshot version domain subject c keys (mi_fencing mi) Hl w h1) as Hj.
  set (t1 := wd_clock w (h_calls h)) in *.
  exists ((pre ++ [mkEvent true t1 (OAccept a)]) ++ m). split; [by rewrite Hm, Hh1, <- !app_assoc|].
  intros p t b q Hb. apply stands_after in Hb as (rest & -> & ->).
  2: { intros [Hin%elem_own|Hin]%elem_of_app; [rewrite Hown in Hin; by apply elem_of_nil in Hin|].
       by apply list_elem_of_singleton in Hin. }
  rewrite own_app in Hf. apply Forall_app in Hf as [_ Hf]. apply Forall_cons in Hf as [Hop _]. split; [exact Hop|].
  exists pre, t1, a, rest. rewrite <- app_assoc. split_and!; [done..| |].
  - rewrite <- Hacc. apply orb_true_iff in Ead as [?|Ead]; [by left|right]. apply andb_true_iff in Ead as [? Ead].
    by apply bool_decide_eq_true in Ead.
  - intros Hl. destruct (Hj Hl) as (m' & Hm' & _ & Hrest). rewrite Hm in Hm'. apply app_inv_head in Hm'.
    rewrite ops_of_app, rrun_app. cbn. rewrite <- Hm1. by eapply Hrest.
Qed.

(** The guards of a call before the stores are touched. *)
Definition call_of (rules : RuleSet) (domain header subject : string) (body : result apiError BulkResetRequest)
    (snapshot : Snapshot) (version : string) (c : bulkCommand) (keys : Keys) : Prop :=
  exists key request name, api_snapshot rules domain = Ok (snapshot, version) /\ idempotencyKeyOf header = Ok key /\
    body = Ok request /\ parseBulk (s_Domain snapshot) request = Ok c /\
    unnormalized snapshot (se_Axes (bc_Selector c)) (capturedKeys snapshot (se_RuleIDs (bc_Selector c)))
      (fun _ => fieldSelectorAxes) = Ok tt /\
    recordKey namespace (s_Domain snapshot) endpointResets subject key = Some name /\
    commandKeys namespace (s_Domain snapshot) name c = Some keys.

(** The handler past its guards. *)
Definition bulk_body (fuel : nat) (mi : minted) (snapshot : Snapshot) (version domain subject : string) (c : bulkCommand)
    (keys : Keys) : handler (option reply) :=
  let! record := do_Lookup keys in
  match record with
  | None => hret (Some (Failed storeDown))
  | Some record =>
      if r_Found record then let! r := standing mi domain keys record c in hret (Some r)
      else if bc_DryRun c then accept namespace fuel mi snapshot version domain subject c keys
      else
        let! checked := checkToken namespace snapshot version subject c in
        match checked with
        | None => hret None
        | Some (Err e) => hret (Some (Failed e))
        | Some (Ok _) => accept namespace fuel mi snapshot version domain subject c keys
        end
  end.

Lemma handleBulkReset_guarded fuel mi rules domain header subject body :
  (exists r, handleBulkReset namespace fuel mi rules domain header subject body = hret r) \/
  exists snapshot version c keys, call_of rules domain header subject body snapshot version c keys /\
    handleBulkReset namespace fuel mi rules domain header subject body =
    bulk_body fuel mi snapshot version domain subject c keys.
Proof.
  unfold handleBulkReset, call_of.
  destruct (api_snapshot rules domain) as [[snapshot version]|]; [|left; by eexists].
  destruct (idempotencyKeyOf header) as [key|]; [|left; by eexists].
  destruct body as [request|]; [|left; by eexists].
  destruct (parseBulk (s_Domain snapshot) request) as [c|] eqn:Ep; [|left; by eexists].
  destruct (unnormalized _ _ _ _) as [[]|] eqn:Eu; [|left; by eexists].
  destruct (recordKey _ _ _ _ _) as [name|] eqn:En; [|left; by eexists]. cbn [mbind option_bind].
  destruct (commandKeys _ _ _ _) as [keys|] eqn:Ek; [|left; by eexists].
  right. exists snapshot, version, c, keys. split; [|done]. by exists key, request, name.
Qed.

Lemma commandKeys_fields domain name c keys :
  commandKeys namespace domain name c = Some keys ->
  k_Record keys = name /\ leaseKey namespace domain = Some (k_Lease keys) /\
  (bc_DryRun c = false -> tokenKey namespace domain (bc_ConfirmationToken c) = Some (k_Token keys)) /\
  (bc_DryRun c = true -> k_Token keys = "").
Proof.
  unfold commandKeys. destruct (leaseKey namespace domain) as [l|]; [|done]. cbn [mbind option_bind].
  destruct (bc_DryRun c); [by intros [= <-]|].
  destruct (tokenKey _ _ _) as [t|]; [|done]. cbn [mbind option_bind]. by intros [= <-].
Qed.

(** A token that passes was minted for this very command. *)
Lemma checkToken_passes snapshot version subject c key w h :
  tokenKey namespace (s_Domain snapshot) (bc_ConfirmationToken c) = Some key ->
  (checkToken namespace snapshot version subject c w h).1 = Some (Ok tt) ->
  exists pre raw token, own pre = [] /\
    h_history (checkToken namespace snapshot version subject c w h).2 =
      h_history h ++ pre ++ [mkEvent true (wd_clock w (h_calls h)) (OGet key)] /\
    h_mem (checkToken namespace snapshot version subject c w h).2 = rrun (ops_of pre) (h_mem h) /\
    Get (wd_clock w (h_calls h)) key (rrun (ops_of pre) (h_mem h)) = Some raw /\ UnmarshalToken raw = Some token /\
    td_Selection token = selection c /\ td_Domain token = s_Domain snapshot /\ td_Subject token = subject /\
    td_RuleSetVersion token = version.
Proof.
  intros Hk. unfold checkToken. rewrite Hk. unfold hbind, do_Get.
  pose proof (perform_answered (fun _ => OGet key) (fun t m => Get t key m) w h) as Hans.
  destruct (perform _ _ w h) as [[x|] h1]; [|done]. destruct (Hans x eq_refl) as (pre & Ho & Hh & Hx & Hm).
  cbn [fst snd hret] in *. destruct x as [raw|]; [|done]. destruct (UnmarshalToken raw) as [token|] eqn:Et; [|done].
  destruct (_ || _) eqn:E1; [done|]. apply orb_false_iff in E1 as [E1 E2].
  destruct (negb (bool_decide (td_Selection token = selection c))) eqn:E3; [done|].
  destruct (negb (bool_decide (td_RuleSetVersion token = version))) eqn:E4; [done|].
  apply negb_false_iff, bool_decide_eq_true in E1, E2, E3, E4. intros _. exists pre, raw, token.
  split_and!; try done.
Qed.

(** The operations of a call that deletes nothing. *)
Definition harmless (op : rop) : Prop := match op with OLookup _ | OFinalize _ | OGet _ => True | _ => False end.

Lemma checkToken_yields snapshot version subject c :
  yields harmless (fun _ => True) (checkToken namespace snapshot version subject c).
Proof.
  unfold checkToken, do_Get. destruct (tokenKey _ _ _); [|by apply yields_ret]. yield; [done|by apply yields_ret].
Qed.

(** Where the deletions of a call stand in its history. *)
Lemma bulk_body_deletes fuel mi snapshot version domain subject c keys w h :
  (bc_DryRun c = false -> tokenKey namespace (s_Domain snapshot) (bc_ConfirmationToken c) = Some (k_Token keys)) ->
  exists more, h_history (bulk_body fuel mi snapshot version domain subject c keys w h).2 = h_history h ++ more /\
  forall p t b q, more = p ++ mkEvent true t (OBatch b) :: q -> ba_Delete b <> [] ->
  exists raw token before t0 between, bc_DryRun c = false /\
    sweep_op (sweep_of_command namespace snapshot c keys (mi_fencing mi)) (OBatch b) /\
    p = before ++ mkEvent true t0 (OGet (k_Token keys)) :: between /\
    Get t0 (k_Token keys) (rrun (ops_of before) (h_mem h)) = Some raw /\ UnmarshalToken raw = Some token /\
    td_Selection token = selection c /\ td_Domain token = s_Domain snapshot /\ td_Subject token = subject /\
    td_RuleSetVersion token = version /\
    accepted_before mi snapshot c keys (rrun (ops_of (before ++ [mkEvent true t0 (OGet (k_Token keys))])) (h_mem h)) b between.
Proof.
  intros Hkey. unfold bulk_body. unfold hbind at 1, do_Lookup.
  destruct (perform_grows (fun _ => OLookup keys) (fun t m => (Lookup t keys m).2) w h) as (pre0 & Hh0 & Hm0).
  pose proof (perform_history (fun _ => OLookup keys) (fun t m => (Lookup t keys m).2) w h) as (pre1 & Hh1 & Hp0).
  assert (pre1 = pre0) as -> by (rewrite Hh0 in Hh1; by apply app_inv_head in Hh1). clear Hh1.
  destruct (perform (fun _ => OLookup keys) (fun t m => (Lookup t keys m).2) w h) as [record h1]. simpl in Hh0, Hm0.
  assert (forall t b, mkEvent true t (OBatch b) ∉ pre0) as Hno0.
  { intros t b. apply (no_batch (fun o => exists t : Z, o = OLookup keys)); [done|]. by intros []. }
  assert (forall (k : handler (option reply)) (R : list event -> Z -> BatchArg -> Prop), yields harmless (fun _ => True) k ->
    exists more, h_history (k w h1).2 = h_history h ++ more /\
      forall p t b q, more = p ++ mkEvent true t (OBatch b) :: q -> ba_Delete b <> [] -> R p t b) as Hno.
  { intros k R Hk. destruct (Hk w h1) as (_ & m & Hm & Hf). exists (pre0 ++ m). rewrite Hm, Hh0, app_assoc.
    split; [done|]. intros p t b q E _. apply stands_after in E as (p' & -> & ->); [|done].
    rewrite own_app in Hf. apply Forall_app in Hf as [_ [[] _]%Forall_cons]. }
  destruct record as [record|]; [|apply (Hno _ (fun p t b => _)); by apply yields_ret].
  destruct (r_Found record).
  { apply (Hno _ (fun p t b => _)). apply yields_then; [|intros; by apply yields_ret].
    eapply yields_weaken; [| |apply standing_yields]; [by intros []|done]. }
  destruct (bc_DryRun c) eqn:Ed.
  { destruct (accept_deletes fuel mi snapshot version domain subject c keys w h1) as (m & Hm & Hf).
    exists (pre0 ++ m). split; [by rewrite Hm, Hh0, app_assoc|]. intros p t b q E Hne.
    apply stands_after in E as (p' & -> & E); [|done]. destruct (Hf _ _ _ _ E) as [(_ & _ & Hx & _) _].
    specialize (Hx Hne). simpl in Hx. by rewrite Ed in Hx. }
  unfold hbind at 1.
  pose proof (checkToken_passes snapshot version subject c (k_Token keys) w h1 (Hkey eq_refl)) as Hpass.
  pose proof (Hno (let! checked := checkToken namespace snapshot version subject c in hret None)) as Hno2.
  pose proof (checkToken_yields snapshot version subject c) as Hck.
  specialize (Hno2 (fun p t b => False) ltac:(apply yields_then; [done|intros; by apply yields_ret])).
  rewrite hbind_run in Hno2. cbn [snd hret] in Hno2.
  destruct (checkToken namespace snapshot version subject c w h1) as [[[[]|e]|] h2]; cbn [fst snd hret] in *.
  2, 3: destruct Hno2 as (more & Hm & Hf); exists more; (split; [done|]); intros p t b q E Hne; by destruct (Hf p t b q E Hne).
  destruct (Hpass eq_refl) as (pre & raw & token & Ho & Hh & Hm2 & Hg & Hu & Hd).
  destruct (accept_deletes fuel mi snapshot version domain subject c keys w h2) as (m & Hm & Hf).
  set (get := mkEvent true (wd_clock w (h_calls h1)) (OGet (k_Token keys))) in *.
  exists (((pre0 ++ pre) ++ [get]) ++ m). split; [by rewrite Hm, Hh, Hh0, <- !app_assoc|]. intros p t b q E Hne.
  apply stands_after in E as (between & -> & E).
  2: { intros [[Hin|Hin%elem_own]%elem_of_app|Hin]%elem_of_app; [by apply Hno0 in Hin| |by apply list_elem_of_singleton in Hin].
       rewrite Ho in Hin. by apply elem_of_nil in Hin. }
  destruct (Hf _ _ _ _ E) as [Hop Hacc].
  exists raw, token, (pre0 ++ pre), (wd_clock w (h_calls h1)), between. rewrite Hm0 in Hg, Hm2.
  destruct Hd as (? & ? & ? & ?). split_and!; try done.
  - by rewrite <- app_assoc.
  - by rewrite ops_of_app, rrun_app.
  - rewrite !ops_of_app, !rrun_app. cbn. rewrite Hm2 in Hacc. exact Hacc.
Qed.

(** ** Ends *)

Lemma tokenKey_defined domain token : namespace <> "" -> domain <> "" -> is_Some (tokenKey namespace domain token).
Proof.
  intros Hn Hd. unfold tokenKey, recordTag. destruct (DomainTag_defined _ _ Hn Hd) as [tag ->]. by eexists.
Qed.

Lemma sweep_ends fuel mi snapshot version domain subject c keys fencing w h N :
  namespace <> "" -> s_Domain snapshot <> "" -> (N < fuel)%nat ->
  (forall i, (N <= i)%nat -> wd_clock w (h_calls h) + sweepDeadline < wd_clock w i) ->
  is_Some (sweep namespace fuel mi snapshot version domain subject c keys fencing w h).1.
Proof.
  intros Hns Hd Hf HN. unfold sweep. set (o := sweep_of_command namespace snapshot c keys fencing). rewrite hbind_run.
  cbn [clock_now fst snd]. rewrite hbind_run. set (h1 := mkHState (S (h_calls h)) (h_mem h) (h_history h)).
  assert ((run o fuel (wd_clock w (h_calls h) + sweepDeadline) w h1).1 <> None) as Hrun.
  { unfold run. destruct (sweep_prefix_defined o Hns Hd) as [prefix ->].
    apply (run_loop_ends o w _ N HN); [constructor|]. lia. }
  destruct (run o fuel _ w h1) as [[[s [u|e]]|] h2]; cbn [fst snd] in *; [| |done].
  2: { rewrite hbind_run. by eexists. }
  assert (forall token expires r h3, is_Some
      ((let! committed := do_Commit (mkCommitArg keys fencing (mkCOutcome false "" "" "" (snapshotProgress s) token expires)) in
       match committed with
       | Some None => hret (Some r)
       | Some (Some ErrLeaseLost) => let! r := replayFrom domain keys c in hret (Some r)
       | _ => hret (Some (Failed storeDown))
       end) w h3).1) as Hfin.
  { intros token expires r h3. rewrite hbind_run. destruct (do_Commit _ w h3) as [[[[]|]|] h4]; cbn [fst snd]; try by eexists.
    rewrite hbind_run. by eexists. }
  destruct (bc_DryRun c); [|apply Hfin]. rewrite hbind_run. unfold mintToken.
  destruct (tokenKey_defined (s_Domain snapshot) (mi_token mi) Hns Hd) as [key ->]. rewrite !hbind_run.
  destruct (do_Put _ _ _ w _) as [[[]|] h4]; cbn [fst snd hret]; [apply Hfin|]. rewrite hbind_run. by eexists.
Qed.

Lemma accept_ends fuel mi snapshot version domain subject c keys w h N :
  namespace <> "" -> s_Domain snapshot <> "" -> (N < fuel)%nat ->
  (forall i, (N <= i)%nat -> wd_clock w (S (h_calls h)) + sweepDeadline < wd_clock w i) ->
  is_Some (accept namespace fuel mi snapshot version domain subject c keys w h).1.
Proof.
  intros Hns Hd Hf HN. unfold accept. rewrite hbind_run. unfold do_Accept.
  assert (h_calls (perform (fun _ => OAccept (mkAcceptance keys (bulk_command c (s_Domain snapshot)) (mi_fencing mi) leaseTTL))
    (fun t m => (Accept t (mkAcceptance keys (bulk_command c (s_Domain snapshot)) (mi_fencing mi) leaseTTL) m).2) w h).2 = S (h_calls h)) as Hc.
  { unfold perform. by destruct (wd_fault w (h_calls h)) as [[]|]. }
  destruct (perform _ _ w h) as [[a|] h1]; cbn [fst snd] in *; [|by eexists].
  destruct (ad_SweepBusy a); [by eexists|]. destruct (ad_TokenMissing a); [by eexists|].
  destruct (_ || _); [|rewrite hbind_run; by eexists]. apply (sweep_ends _ _ _ _ _ _ _ _ _ _ _ N); try done. by rewrite Hc.
Qed.

End platform.

(** ** Claims *)

(** C13: Whatever the other callers of the stores do and whatever calls fail, a bulk
    reset deletes counters only of its own domain and its own selection, only
    as an execution, only after a token that was minted for this selection,
    domain, subject and rule set version was found live, and only after its
    own acceptance, which consumed that token under its own fencing. When the
    selection asks for limited counters, every counter it deletes belongs to
    an enforced rate and would have refused a request of cost one at a reading
    the same call made between its acceptance and the deletion. *)
Theorem bulk_deletions_authorized : forall {PL : Platform} {GT : GoText} {TT : TokenText} ns fuel mi rules domain header subject body w h,
  exists more, h_history (handleBulkReset ns fuel mi rules domain header subject body w h).2 = h_history h ++ more /\
  forall p t b q, more = p ++ mkEvent true t (OBatch b) :: q -> ba_Delete b <> [] ->
  exists snapshot version c keys raw token before t0 between t1 a after,
    let get := mkEvent true t0 (OGet (k_Token keys)) in
    let taken := mkEvent true t1 (OAccept a) in
    call_of ns rules domain header subject body snapshot version c keys /\ bc_DryRun c = false /\
    Forall (selected ns snapshot (bc_Selector c) (bc_DomainWide c)) (ba_Delete b) /\
    ba_Keys b = keys /\ ba_Fencing b = mi_fencing mi /\
    p = before ++ get :: between ++ taken :: after /\
    Get t0 (k_Token keys) (rrun (ops_of before) (h_mem h)) = Some raw /\ UnmarshalToken raw = Some token /\
    td_Selection token = selection c /\ td_Domain token = s_Domain snapshot /\ td_Subject token = subject /\
    td_RuleSetVersion token = version /\
    ac_Keys a = keys /\ ac_Fencing a = mi_fencing mi /\
    admits (mi_fencing mi) (Accept t1 a (rrun (ops_of (before ++ get :: between)) (h_mem h))).2 /\
    (se_LimitedOnly (bc_Selector c) = true ->
     Forall (refused_before ns snapshot (rrun (ops_of (before ++ get :: between ++ [taken])) (h_mem h)) after) (ba_Delete b)).
Proof.
  intros PL GT TT ns fuel mi rules domain header subject body w h.
  destruct (handleBulkReset_guarded ns fuel mi rules domain header subject body)
    as [[r ->]|(snapshot & version & c & keys & Hcall & ->)].
  { exists []. rewrite app_nil_r. split; [done|]. intros p t b q E. by destruct p. }
  pose proof Hcall as (key & request & name & _ & _ & _ & _ & _ & _ & Hkeys).
  destruct (commandKeys_fields _ _ _ _ _ Hkeys) as (_ & _ & Htk & _).
  destruct (bulk_body_deletes ns fuel mi snapshot version domain subject c keys w h Htk) as (more & Hm & Hf).
  exists more. split; [done|]. intros p t b q E Hne.
  destruct (Hf p t b q E Hne) as (raw & token & before & t0 & rest & Hd & (Hk & Hfe & _ & Hsel) & -> & H).
  destruct H as (Hg & Hu & Hs & Hdo & Hsu & Hv & between & t1 & a & after & -> & Hak & Haf & Had & Hl).
  exists snapshot, version, c, keys, raw, token, before, t0, between, t1, a, after.
  rewrite <- rrun_app, <- ops_of_app, <- app_assoc in Had, Hl. by split_and!.
Qed.

(** C14: One idempotency key runs one sweep: once an acceptance took effect, even
    one whose reply was lost, every later call that arrives under its key
    within the retention only looks the record up or finalizes it; it accepts
    nothing, deletes nothing and mints nothing, and another command under the
    key is refused as a conflict. *)
Theorem bulk_runs_once : forall {PL : Platform} {GT : GoText} {TT : TokenText} ns fuel mi rules domain header subject body
    snapshot version c keys a m t ops w h,
  ad_OK (Accept t a m).2 = true -> h_mem h = rrun ops (Accept t a m).1 ->
  timed t (t + Retention) (ops ++ wd_others w (h_calls h)) -> t <= wd_clock w (h_calls h) < t + Retention ->
  call_of ns rules domain header subject body snapshot version c keys -> k_Record keys = k_Record (ac_Keys a) ->
  let r := handleBulkReset ns fuel mi rules domain header subject body w h in
  (exists more, h_history r.2 = h_history h ++ more /\ Forall (fun x => retry_op x.2) (own more)) /\
  (wd_fault w (h_calls h) = None -> ac_Command a <> bulk_command c domain ->
   r.1 = Some (Failed (conflict ConflictCommandMismatch))).
Proof.
  intros PL GT TT ns fuel mi rules domain header subject body snapshot version c keys a m t ops w h Hok Hm Ht Hnow Hcall Hk r.
  assert (bound (t + Retention) (ac_Command a) (k_Record keys) (rrun (wd_others w (h_calls h)) (h_mem h))) as Hb.
  { rewrite Hm, <- rrun_app, Hk. eapply rrun_bound; [exact Ht|lia|]. by apply Accept_binds. }
  assert (r_Found (Lookup (wd_clock w (h_calls h)) keys (rrun (wd_others w (h_calls h)) (h_mem h))).2 = true /\
    r_Command (Lookup (wd_clock w (h_calls h)) keys (rrun (wd_others w (h_calls h)) (h_mem h))).2 = ac_Command a) as [Hfound Hcmd].
  { unfold Lookup, Records.read. destruct (record _ (k_Record keys) _) as [m1 e] eqn:Er.
    destruct (record_of_bound _ _ _ _ _ _ _ (proj2 Hnow) Hb Er) as (_ & e0 & -> & _ & He). by destruct (lease_of _ _ _). }
  assert (handleBulkReset ns fuel mi rules domain header subject body = bulk_body ns fuel mi snapshot version domain subject c keys) as E.
  { destruct Hcall as (key & request & name & H1 & H2 & -> & H3 & H4 & H5 & H6). unfold handleBulkReset.
    rewrite H1, H2, H3, H4, H5. cbn [mbind option_bind]. by rewrite H6. }
  unfold r. rewrite E. unfold bulk_body. rewrite !hbind_run. unfold do_Lookup.
  pose proof (perform_history (fun _ => OLookup keys) (fun t m => (Lookup t keys m).2) w h) as (pre & Hh & Hp).
  assert (forall k : handler (option reply), yields retry_op (fun _ => True) k ->
    exists more, h_history (k w (perform (fun _ => OLookup keys) (fun t m => (Lookup t keys m).2) w h).2).2 = h_history h ++ more /\
      Forall (fun x => retry_op x.2) (own more)) as Hk2.
  { intros k Hy. destruct (Hy w (perform (fun _ => OLookup keys) (fun t m => (Lookup t keys m).2) w h).2) as (_ & m2 & Hm2 & Hf).
    exists (pre ++ m2). rewrite Hm2, Hh, app_assoc, own_app, Forall_app. split; [done|]. split; [|done].
    eapply Forall_impl; [exact Hp|]. by intros x [? ->]. }
  assert (forall rec h1, perform (fun _ => OLookup keys) (fun t m => (Lookup t keys m).2) w h = (Some rec, h1) ->
    rec = (Lookup (wd_clock w (h_calls h)) keys (rrun (wd_others w (h_calls h)) (h_mem h))).2) as Hrec.
  { intros rec h1. unfold perform. destruct (wd_fault w (h_calls h)) as [[]|]; try done. by intros [= <- _]. }
  assert (wd_fault w (h_calls h) = None ->
    (perform (fun _ => OLookup keys) (fun t m => (Lookup t keys m).2) w h).1 <> None) as Hnf.
  { intros Hf. unfold perform. by rewrite Hf. }
  destruct (perform (fun _ => OLookup keys) (fun t m => (Lookup t keys m).2) w h) as [[rec|] h1]; cbn [fst snd] in *.
  2: { split; [apply (Hk2 (hret _)); by apply yields_ret|]. intros Hf. by destruct (Hnf Hf). }
  rewrite (Hrec rec h1 eq_refl), Hfound. split.
  - apply Hk2. apply yields_then; [apply standing_yields|intros; by apply yields_ret].
  - intros _ Hne. unfold hbind, standing. rewrite Hcmd, bool_decide_false by done. done.
Qed.

(** C34: An accepted command always ends in an answer, whatever the stores hold and
    however often they fail or change: once the clock runs, some number of
    turns is enough for every call. *)
Theorem bulk_ends : forall {PL : Platform} {GT : GoText} {TT : TokenText} ns mi rules domain header subject body w h,
  ns <> "" -> (forall snapshot version, api_snapshot rules domain = Ok (snapshot, version) -> s_Domain snapshot <> "") ->
  (forall t, exists N, forall i, (N <= i)%nat -> t < wd_clock w i) ->
  exists turns, forall fuel, (turns < fuel)%nat ->
    is_Some (handleBulkReset ns fuel mi rules domain header subject body w h).1.
Proof.
  intros PL GT TT ns mi rules domain header subject body w h Hns Hd Hclock.
  destruct (Hclock (wd_clock w (S (S (h_calls h))) + sweepDeadline)) as [N1 H1].
  destruct (Hclock (wd_clock w (S (S (S (h_calls h)))) + sweepDeadline)) as [N2 H2].
  exists (N1 + N2)%nat. intros fuel Hf. unfold handleBulkReset.
  destruct (api_snapshot rules domain) as [[snapshot version]|] eqn:Es; [|by eexists]. specialize (Hd _ _ eq_refl).
  destruct (idempotencyKeyOf header) as [key|]; [|by eexists].
  destruct (match body with Ok request => _ | Err e => _ end) as [c|]; [|by eexists].
  destruct (unnormalized _ _ _ _) as [[]|]; [|by eexists].
  assert (exists keys, (name ← recordKey ns (s_Domain snapshot) endpointResets subject key;
    commandKeys ns (s_Domain snapshot) name c) = Some keys) as [keys ->].
  { unfold recordKey, commandKeys, leaseKey, tokenKey, recordTag. destruct (DomainTag_defined _ _ Hns Hd) as [tag ->].
    cbn [mbind option_bind]. destruct (bc_DryRun c); by eexists. }
  rewrite hbind_run. unfold do_Lookup.
  assert (h_calls (perform (fun _ => OLookup keys) (fun t m => (Lookup t keys m).2) w h).2 = S (h_calls h)) as Hc.
  { unfold perform. by destruct (wd_fault w (h_calls h)) as [[]|]. }
  destruct (perform _ _ w h) as [[record|] h1]; cbn [fst snd] in *; [|by eexists].
  destruct (r_Found record); [rewrite hbind_run; by eexists|].
  destruct (bc_DryRun c); [apply (accept_ends _ _ _ _ _ _ _ _ _ _ _ N1); try done; [lia|by rewrite Hc]|].
  rewrite hbind_run. unfold checkToken.
  destruct (tokenKey_defined ns (s_Domain snapshot) (bc_ConfirmationToken c) Hns Hd) as [tk ->]. rewrite hbind_run. unfold do_Get.
  assert (h_calls (perform (fun _ => OGet tk) (fun t m => Get t tk m) w h1).2 = S (S (h_calls h))) as Hc2.
  { rewrite <- Hc. unfold perform. by destruct (wd_fault w (h_calls h1)) as [[]|]. }
  destruct (perform _ _ w h1) as [ans h2]; cbn [fst snd hret] in *.
  match goal with |- is_Some (fst ((match ?x with Ok _ => _ | Err _ => _ end) _ _)) => destruct x as [[]|] end; [|by eexists].
  apply (accept_ends _ _ _ _ _ _ _ _ _ _ _ N2); try done; [lia|by rewrite Hc2].
Qed.
