(* ===== verification/ResetsQuiet.v ===== *)
(** * A bulk command nobody disturbs

    A walk over a store no one else uses while it runs, every call answered
    and the deadline not reached: it examines every live key of the prefix
    once, in order, and the counters it removes, its counts, its breakdown by
    rule and its sample are those of the selected ones. *)
From S2P Require Import Prelude GoStrings Algo Key StoreApi Memory MemoryScan Model Compile MatchKeys Identity Records RecordsClaims MgmtKeys.
From S2P Require Import RuleView MgmtErrors Selector Listing ListingFacts Manifest ConfigStore SvcConfig MgmtCalls AddrReset Bulk Resets.
From S2P Require Import ResetsFacts.

(** ** Definitions *)

(** No other caller, no failure, every reading of the clock in an interval. *)
Definition undisturbed (w : world) (t0 t1 : Z) : Prop :=
  (forall i, wd_others w i = []) /\ (forall i, wd_fault w i = None) /\ (forall i, t0 <= wd_clock w i <= t1).

(** No counter expires within an interval. *)
Definition steady (t0 t1 : Z) (c : gmap string entry) : Prop :=
  forall k e, c !! k = Some e -> e_deadline e <= t0 / 1000 \/ t1 / 1000 < e_deadline e.

(** The live keys above a cursor, in order. *)
Definition above (prefix cursor : string) (c : gmap string entry) : list string :=
  sort_strings (filter (fun k => str_ltb cursor k && HasPrefix k prefix = true) (map_to_list c).*1).

(** The breakdown by rule. *)
Definition rules_of (cs : list counterCandidate) : gmap string Z :=
  foldl (fun m c => <[cc_ruleID c := default 0 (m !! cc_ruleID c) + 1]> m) ∅ cs.

(** The state of a walk that examined [n] keys and counted [cs]. *)
Definition sweeper_at (execute : bool) (n : nat) (cs batch : list counterCandidate) : sweeper :=
  mkSweeper
    (mkProgress (Z.of_nat n) (Z.of_nat (length cs)) (if execute then Z.of_nat (length cs) else 0) ∅
       (firstn keySampleLimit (cc_key <$> cs)) (keySampleLimit <? length cs)%nat)
    (rules_of cs) batch.

(** ** Counting *)

Lemma count_at o n cs batch c :
  count o (cc_key c) (cc_ruleID c) (sweeper_at (so_execute o) n cs batch) = sweeper_at (so_execute o) n (cs ++ [c]) batch.
Proof.
  unfold count, sweeper_at. cbn [sw_progress sw_rules sw_batch pg_Scanned pg_Matched pg_Reset pg_Rules pg_Keys pg_Truncated].
  rewrite length_app, fmap_app, length_firstn, length_fmap. cbn [length]. unfold rules_of at 3. rewrite foldl_app.
  cbn [foldl]. fold (rules_of cs). f_equal. f_equal; [lia|destruct (so_execute o); lia|..].
  - destruct (Nat.ltb_spec (Nat.min keySampleLimit (length cs)) keySampleLimit) as [H|H].
    + rewrite (firstn_all2 (cc_key <$> cs)) by (rewrite length_fmap; lia).
      rewrite firstn_all2; [done|]. rewrite length_app, length_fmap. cbn. lia.
    + rewrite firstn_app, length_fmap. replace (keySampleLimit - length cs)%nat with 0%nat by lia. by rewrite firstn_O, app_nil_r.
  - destruct (Nat.ltb_spec (Nat.min keySampleLimit (length cs)) keySampleLimit), (Nat.ltb_spec keySampleLimit (length cs)),
      (Nat.ltb_spec keySampleLimit (length cs + 1)); done || lia.
Qed.

Lemma count_all_at o n kept : forall cs batch,
  foldl (fun s c => count o (cc_key c) (cc_ruleID c) s) (sweeper_at (so_execute o) n cs batch) kept =
  sweeper_at (so_execute o) n (cs ++ kept) batch.
Proof.
  induction kept as [|c kept IH]; intros cs batch; [by rewrite app_nil_r|]. cbn [foldl]. rewrite count_at, IH.
  by rewrite <- app_assoc.
Qed.

Lemma scanned_at execute n cs batch : scanned_one (sweeper_at execute n cs batch) = sweeper_at execute (S n) cs batch.
Proof. unfold scanned_one, sweeper_at. cbn. f_equal. f_equal. lia. Qed.

(** ** The store *)

Lemma Reset_app ks ls (c : gmap string entry) : Memory.Reset (ks ++ ls) c = Memory.Reset ls (Memory.Reset ks c).
Proof. apply foldl_app. Qed.

Lemma Reset_swept us ks (c : gmap string entry) : swept us (Memory.Reset ks c) = Memory.Reset ks (swept us c).
Proof.
  apply map_eq. intros k. rewrite Reset_lookup. unfold swept. apply option_eq. intros e. case_bool_decide as Hk.
  - rewrite map_lookup_filter_Some, Reset_lookup, bool_decide_true by done. naive_solver.
  - by rewrite !map_lookup_filter_Some, Reset_lookup, bool_decide_false.
Qed.

Lemma swept_steady t0 t1 t c : steady t0 t1 c -> t0 <= t <= t1 -> swept (t / 1000) c = swept (t0 / 1000) c.
Proof.
  intros Hs Ht. apply map_filter_ext. intros k e He. destruct (Hs k e He) as [H|H].
  - pose proof (Z.div_le_mono t0 t 1000 ltac:(lia) ltac:(lia)). simpl. lia.
  - pose proof (Z.div_le_mono t t1 1000 ltac:(lia) ltac:(lia)). pose proof (Z.div_le_mono t0 t 1000 ltac:(lia) ltac:(lia)).
    simpl. lia.
Qed.

(** ** Steps of the enumeration *)

Lemma elem_of_above prefix cursor c k :
  k ∈ above prefix cursor c <-> is_Some (c !! k) /\ str_lt cursor k /\ HasPrefix k prefix = true.
Proof.
  unfold above. rewrite sort_strings_Permutation, list_elem_of_filter, andb_true_iff, list_elem_of_fmap. unfold str_lt. split.
  - intros [[? ?] ([x e] & -> & Hx%elem_of_map_to_list)]. split; [by eexists|done].
  - intros [[e He] [? ?]]. split; [done|]. exists (k, e). split; [done|]. by apply elem_of_map_to_list.
Qed.

Lemma above_NoDup prefix cursor c : NoDup (above prefix cursor c).
Proof. unfold above. rewrite sort_strings_Permutation. apply NoDup_filter, NoDup_fst_map_to_list. Qed.

Lemma above_ascending prefix cursor c : StronglySorted str_lt (above prefix cursor c).
Proof. apply sort_ascending, NoDup_filter, NoDup_fst_map_to_list. Qed.

Lemma above_eq prefix cursor c l :
  Sorted String.le l -> NoDup l -> (forall k, k ∈ l <-> is_Some (c !! k) /\ str_lt cursor k /\ HasPrefix k prefix = true) ->
  above prefix cursor c = l.
Proof.
  intros Hs Hn Hl. apply (Sorted_unique String.le); [apply sort_strings_Sorted|done|].
  apply NoDup_Permutation; [apply above_NoDup|done|]. intros k. by rewrite elem_of_above, Hl.
Qed.

(** One step of the in-memory enumeration. *)
Lemma Scan_above us prefix cursor limit c :
  1 <= limit ->
  let A := above prefix cursor (swept us c) in
  Scan us prefix cursor limit c =
    (swept us c, Ok (if Z.of_nat (length A) <=? limit then (A, "")
                     else (firstn (Z.to_nat limit) A, default "" (last (firstn (Z.to_nat limit) A))))).
Proof.
  intros Hl A. unfold Scan. rewrite (proj2 (Z.ltb_ge limit 1)) by lia. unfold A, above, swept. by destruct (_ <=? limit).
Qed.

(** Deletions up to the cursor change nothing above it. *)
Lemma above_Reset prefix cursor ks c :
  Forall (fun k => str_ltb cursor k = false) ks -> above prefix cursor (Memory.Reset ks c) = above prefix cursor c.
Proof.
  intros Hk. rewrite Forall_forall in Hk.
  apply above_eq; [apply sort_strings_Sorted|apply above_NoDup|]. intros k. rewrite elem_of_above, Reset_lookup.
  case_bool_decide as Hin; [|done]. specialize (Hk k Hin). unfold str_lt. split; intros (H1 & H2 & H3).
  - congruence.
  - by destruct H1.
Qed.

(** The keys of a step, and those above its last one. *)
Lemma above_step prefix cursor c n last_ :
  (n < length (above prefix cursor c))%nat -> last (firstn n (above prefix cursor c)) = Some last_ ->
  above prefix last_ c = drop n (above prefix cursor c) /\
  Forall (fun k => str_ltb last_ k = false) (firstn n (above prefix cursor c)) /\ last_ <> "".
Proof.
  intros Hn Hl. pose proof (above_ascending prefix cursor c) as Ha. pose proof (above_NoDup prefix cursor c) as Hd.
  pose proof (sort_strings_Sorted (filter (fun k => str_ltb cursor k && HasPrefix k prefix = true) (map_to_list c).*1)) as Hs.
  fold (above prefix cursor c) in Hs.
  assert (forall k, k ∈ above prefix cursor c <-> k ∈ firstn n (above prefix cursor c) \/ k ∈ drop n (above prefix cursor c)) as Hsp.
  { intros k. rewrite <- elem_of_app. by rewrite take_drop. }
  assert (last_ ∈ firstn n (above prefix cursor c)) as Hin.
  { apply last_Some in Hl as [l' ->]. apply elem_of_app. right. left. }
  rewrite <- (take_drop n (above prefix cursor c)) in Ha, Hd, Hs. apply ascending_split in Ha as [Ha1 Ha2].
  assert (forall k, k ∈ firstn n (above prefix cursor c) -> str_ltb last_ k = false) as Hlast.
  { apply last_Some in Hl as [l' El]. rewrite El in Ha1 |- *. apply ascending_split in Ha1 as [_ Hx].
    intros k [Hk|Hk%list_elem_of_singleton]%elem_of_app; [|subst; apply str_ltb_irrefl].
    assert (str_lt k last_) as Hkl by (apply Hx; [done|left]). destruct (str_ltb last_ k) eqn:E; [|done].
    pose proof (str_ltb_trans _ _ _ Hkl E) as Hc. by rewrite str_ltb_irrefl in Hc. }
  split_and!.
  - apply above_eq.
    + apply StronglySorted_Sorted. apply Sorted_StronglySorted in Hs; [|apply _].
      by apply StronglySorted_app in Hs as (_ & _ & Hs).
    + by apply NoDup_app in Hd as (_ & _ & Hd).
    + intros k. split.
      * intros Hk. assert (k ∈ above prefix cursor c) as Hk' by (apply Hsp; by right).
        apply elem_of_above in Hk' as (? & ? & ?). split_and!; try done. by apply Ha2.
      * intros (H1 & H2 & H3). assert (k ∈ above prefix cursor c) as Hk.
        { apply elem_of_above. split_and!; try done. assert (last_ ∈ above prefix cursor c) as Hla by (apply Hsp; by left).
          apply elem_of_above in Hla as (_ & Hla & _). by eapply str_ltb_trans. }
        apply Hsp in Hk as [Hk|Hk]; [|done]. apply Hlast in Hk. unfold str_lt in H2. congruence.
  - apply Forall_forall. exact Hlast.
  - intros ->. assert ("" ∈ above prefix cursor c) as H by (apply Hsp; by left).
    apply elem_of_above in H as (_ & H & _). by destruct cursor.
Qed.

(** ** The walk *)

Definition with_rprogress (p : Progress) (e : rentry) : rentry :=
  mkREntry (re_command e) (re_fencing e) (re_terminal e) p (re_outcome e) (re_answer e) (re_expiresAt e).

Section quiet.
Context (o : sweep_of) (w : world) (t0 t1 T : Z) (Hq : undisturbed w t0 t1) (HT : t1 <= T) (Hlim : se_LimitedOnly (so_sel o) = false).
Context (m0 : MemoryRecords) (e0 : rentry) (l0 : lease).
Context (Hlease : mm_leases m0 !! k_Lease (so_keys o) = Some l0) (Hfence : l_value l0 = so_fencing o) (Hlx : t1 < l_expiresAt l0).
Context (Hrec : mm_records m0 !! k_Record (so_keys o) = Some e0) (Hrx : t1 < re_expiresAt e0).
Context (L : gmap string entry).

(** The keys a walk that counted [cs] has removed. *)
Definition removed (cs : list counterCandidate) : list string := if so_execute o then cc_key <$> cs else [].

(** The stores under a walk that counted [cs]: everything but the command's
    own progress and the removed counters is as it was. *)
Definition walk_inv (cs : list counterCandidate) (m : MemoryRecords) : Prop :=
  mm_leases m = mm_leases m0 /\ mm_documents m = mm_documents m0 /\
  (exists p, mm_records m = <[k_Record (so_keys o) := with_rprogress p e0]> (mm_records m0)) /\
  (forall t, t0 <= t <= T -> swept (t / 1000) (mm_counters m) = Memory.Reset (removed cs) L).

Lemma removed_app cs kept : removed (cs ++ kept) = removed cs ++ removed kept.
Proof. unfold removed. destruct (so_execute o); [apply fmap_app|done]. Qed.

Lemma perform_quiet {A} (op : Z -> rop) (answer : Z -> MemoryRecords -> A) h :
  exists h', perform op answer w h = (Some (answer (wd_clock w (h_calls h)) (h_mem h)), h') /\
    h_mem h' = rstep (wd_clock w (h_calls h)) (op (wd_clock w (h_calls h))) (h_mem h).
Proof.
  destruct Hq as (Ho & Hf & _). unfold perform. rewrite Hf, Ho. cbn [rrun]. by eexists.
Qed.

Lemma Batch_quiet t cs kept p m :
  t0 <= t <= t1 -> walk_inv cs m ->
  (Batch t (mkBatchArg (so_keys o) (so_fencing o) (removed kept) p) m).2 = None /\
  walk_inv (cs ++ kept) (Batch t (mkBatchArg (so_keys o) (so_fencing o) (removed kept) p) m).1.
Proof.
  intros Ht (Hl & Hd & (p0 & Hr) & Hc). unfold Batch. cbn [ba_Keys ba_Fencing ba_Delete ba_Progress].
  assert (owns t (k_Lease (so_keys o)) (so_fencing o) m = true) as ->.
  { unfold owns, lease_of. rewrite Hl, Hlease, (proj2 (Z.ltb_lt _ _)) by lia. cbn [negb]. by apply bool_decide_eq_true. }
  cbn [negb]. rewrite (record_found t _ m (with_rprogress p0 e0)); [|by rewrite Hr, lookup_insert_eq|cbn; lia].
  assert (forall c, mm_counters (if (0 <? length (removed kept))%nat then with_counters (Memory.Reset (removed kept) c) m else m) =
     (if (0 <? length (removed kept))%nat then Memory.Reset (removed kept) c else mm_counters m)) as Hcc.
  { intros c. by destruct (_ <? _)%nat. }
  split; [done|]. split_and!.
  - by destruct (_ <? _)%nat.
  - by destruct (_ <? _)%nat.
  - exists p. cbn [fst set_record mm_records]. destruct (_ <? _)%nat; cbn [with_counters mm_records]; rewrite Hr, insert_insert_eq; done.
  - intros t' Ht'. cbn [fst set_record mm_counters]. rewrite Hcc, removed_app, Reset_app, <- (Hc t' Ht').
    destruct (removed kept) as [|k ks] eqn:E; [done|]. cbn [length]. change (0 <? S (length ks))%nat with true. cbn iota.
    apply Reset_swept.
Qed.

Lemma commitBatch_quiet n cs batch h :
  walk_inv cs (h_mem h) ->
  exists h', commitBatch o batch (sweeper_at (so_execute o) n cs batch) w h =
    (Some (sweeper_at (so_execute o) n (cs ++ batch) batch, Ok tt), h') /\ walk_inv (cs ++ batch) (h_mem h').
Proof.
  intros Hi. unfold commitBatch. destruct batch as [|c batch].
  { exists h. by rewrite app_nil_r. }
  rewrite Hlim, hbind_run. cbn [hret fst snd]. rewrite hbind_run. unfold record_batch.
  set (b := c :: batch). rewrite count_all_at. change (match b with [] => ?x | _ => ?y end) with y. rewrite hbind_run. unfold do_Batch.
  change (if so_execute o then cc_key <$> b else []) with (removed b).
  destruct (perform_quiet (fun _ => OBatch (mkBatchArg (so_keys o) (so_fencing o) (removed b)
      (snapshotProgress (sweeper_at (so_execute o) n (cs ++ b) b))))
    (fun t m => (Batch t (mkBatchArg (so_keys o) (so_fencing o) (removed b)
      (snapshotProgress (sweeper_at (so_execute o) n (cs ++ b) b))) m).2) h) as (h' & -> & Hm).
  destruct (Batch_quiet (wd_clock w (h_calls h)) cs b (snapshotProgress (sweeper_at (so_execute o) n (cs ++ b) b)) (h_mem h))
    as [Hok Hinv]; [apply Hq|done|].
  cbn [fst snd hret]. rewrite Hok. exists h'. split; [done|]. rewrite Hm. exact Hinv.
Qed.

Lemma walk_quiet deadline keys : t1 <= deadline -> forall n cs batch h,
  (length batch < sweepBatch)%nat -> walk_inv cs (h_mem h) ->
  exists cs' batch' h', walk o keys deadline (sweeper_at (so_execute o) n cs batch) w h =
    (Some (sweeper_at (so_execute o) (n + length keys) cs' batch', Ok tt), h') /\
    cs' ++ batch' = (cs ++ batch) ++ omap (consider o) keys /\ (length batch' < sweepBatch)%nat /\ walk_inv cs' (h_mem h').
Proof.
  intros Hd. induction keys as [|k keys IH]; intros n cs batch h Hb Hi; cbn [walk].
  { exists cs, batch, h. rewrite Nat.add_0_r, app_nil_r. done. }
  rewrite hbind_run. cbn [clock_now fst snd].
  rewrite (proj2 (Z.ltb_ge deadline (wd_clock w (h_calls h)))) by (pose proof (proj2 (proj2 Hq) (h_calls h)); lia).
  set (h1 := mkHState (S (h_calls h)) (h_mem h) (h_history h)). rewrite scanned_at. cbn [length omap list_omap].
  replace (n + S (length keys))%nat with (S n + length keys)%nat by lia.
  destruct (consider o k) as [c|]; [|by apply IH].
  cbn [with_batch sw_batch sweeper_at]. fold (sweeper_at (so_execute o) (S n) cs batch).
  change (with_batch (batch ++ [c]) (sweeper_at (so_execute o) (S n) cs batch)) with (sweeper_at (so_execute o) (S n) cs (batch ++ [c])).
  destruct (Nat.ltb_spec (length (batch ++ [c])) sweepBatch) as [Hlt|Hge].
  - destruct (IH (S n) cs (batch ++ [c]) h1 Hlt Hi) as (cs' & b' & h' & Hw & He & Hb' & Hi').
    exists cs', b', h'. split_and!; try done. rewrite He. by rewrite <- !app_assoc.
  - rewrite hbind_run. destruct (commitBatch_quiet (S n) cs (batch ++ [c]) h1 Hi) as (h2 & -> & Hi2). cbn [fst snd].
    change (with_batch [] (sweeper_at (so_execute o) (S n) (cs ++ batch ++ [c]) (batch ++ [c])))
      with (sweeper_at (so_execute o) (S n) (cs ++ batch ++ [c]) []).
    destruct (IH (S n) (cs ++ batch ++ [c]) [] h2) as (cs' & b' & h' & Hw & He & Hb' & Hi'); [unfold sweepBatch; cbn; lia|done|].
    exists cs', b', h'. split_and!; try done. rewrite He. by rewrite app_nil_r, <- !app_assoc.
Qed.

Lemma Scan_quiet prefix cursor cs h :
  walk_inv cs (h_mem h) -> Forall (fun k => str_ltb cursor k = false) (removed cs) ->
  let A := above prefix cursor L in
  exists h', do_Scan prefix cursor sweepScanStep w h =
    (Some (Ok (if Z.of_nat (length A) <=? sweepScanStep then (A, "")
               else (firstn (Z.to_nat sweepScanStep) A, default "" (last (firstn (Z.to_nat sweepScanStep) A))))), h') /\
    walk_inv cs (h_mem h').
Proof.
  intros Hi Hr A. unfold do_Scan.
  destruct (perform_quiet (fun t => OCounters (fun c => (Scan (t / 1000) prefix cursor sweepScanStep c).1))
    (fun t m => (Scan (t / 1000) prefix cursor sweepScanStep (mm_counters m)).2) h) as (h' & -> & Hm).
  exists h'. assert (t0 <= wd_clock w (h_calls h) <= T) as Ht by (pose proof (proj2 (proj2 Hq) (h_calls h)); lia).
  destruct Hi as (Hl & Hd & Hp & Hc).
  rewrite Scan_above in * by (unfold sweepScanStep; lia). cbn [snd].
  rewrite (Hc _ Ht), (above_Reset prefix cursor _ L Hr). fold A. split; [done|].
  rewrite Hm. cbn [rstep]. split_and!; try done. cbn [with_counters mm_counters]. intros t Ht'.
  rewrite Scan_above by (unfold sweepScanStep; lia). cbn [fst].
  rewrite (Hc _ Ht), <- (Hc t Ht'). apply swept_idem.
Qed.

Lemma considered_key k c : consider o k = Some c -> cc_key c = k.
Proof. intros H. by apply consider_selected in H as (? & _). Qed.

Lemma omap_consider_keys (P : string -> Prop) keys :
  Forall P keys -> Forall (fun c => P (cc_key c)) (omap (consider o) keys).
Proof.
  induction 1 as [|k keys Hk H IH]; [constructor|]. cbn. destruct (consider o k) as [c|] eqn:E; [|done].
  constructor; [|done]. by rewrite (considered_key _ _ E).
Qed.

Lemma removed_Forall (P : string -> Prop) cs : Forall (fun c => P (cc_key c)) cs -> Forall P (removed cs).
Proof. intros H. unfold removed. destruct (so_execute o); [|constructor]. by apply Forall_fmap. Qed.

Lemma run_loop_quiet deadline prefix : t1 <= deadline -> forall fuel cursor n cs batch h,
  (length (above prefix cursor L) < fuel)%nat -> (length batch < sweepBatch)%nat -> walk_inv cs (h_mem h) ->
  Forall (fun c => str_ltb cursor (cc_key c) = false) (cs ++ batch) ->
  exists batch' h', run_loop o fuel prefix cursor deadline (sweeper_at (so_execute o) n cs batch) w h =
    (Some (sweeper_at (so_execute o) (n + length (above prefix cursor L))
             ((cs ++ batch) ++ omap (consider o) (above prefix cursor L)) batch', Ok tt), h') /\
    walk_inv ((cs ++ batch) ++ omap (consider o) (above prefix cursor L)) (h_mem h').
Proof.
  intros Hd. induction fuel as [|fuel IH]; intros cursor n cs batch h Hf Hb Hi Hk; [lia|]. cbn [run_loop].
  rewrite hbind_run. cbn [clock_now fst snd].
  rewrite (proj2 (Z.ltb_ge deadline (wd_clock w (h_calls h)))) by (pose proof (proj2 (proj2 Hq) (h_calls h)); lia).
  rewrite hbind_run. set (h1 := mkHState (S (h_calls h)) (h_mem h) (h_history h)).
  apply Forall_app in Hk as [Hkc Hkb].
  destruct (Scan_quiet prefix cursor cs h1 Hi (removed_Forall _ _ Hkc)) as (h2 & -> & Hi2). cbn [fst snd].
  set (A := above prefix cursor L) in *.
  destruct (Z.leb_spec (Z.of_nat (length A)) sweepScanStep) as [Hle|Hgt]; rewrite hbind_run.
  - destruct (walk_quiet deadline A Hd n cs batch h2 Hb Hi2) as (cs' & b' & h3 & -> & He & Hb' & Hi3). cbn [fst snd].
    rewrite bool_decide_true by done. cbn [sweeper_at sw_batch]. fold (sweeper_at (so_execute o) (n + length A) cs' b').
    destruct (commitBatch_quiet (n + length A) cs' b' h3 Hi3) as (h4 & -> & Hi4). rewrite He in *. eauto.
  - assert (0 < sweepScanStep) as Hstep by done. set (K := firstn (Z.to_nat sweepScanStep) A) in *.
    assert (exists x, last K = Some x) as [x Hx].
    { destruct (last K) as [x|] eqn:E; [by exists x|]. apply last_None in E. apply (f_equal length) in E.
      unfold K in E. rewrite length_firstn in E. change (length (@nil string)) with 0%nat in E. lia. }
    destruct (above_step prefix cursor L (Z.to_nat sweepScanStep) x) as (Hdrop & Hfx & Hne); [fold A; lia|done|].
    fold A in Hdrop. fold A K in Hfx. rewrite Hx. change (default "" (Some x)) with x.
    destruct (walk_quiet deadline K Hd n cs batch h2 Hb Hi2) as (cs' & b' & h3 & -> & He & Hb' & Hi3). cbn [fst snd].
    rewrite bool_decide_false by done.
    assert (length K = Z.to_nat sweepScanStep) as HlK by (unfold K; rewrite length_firstn; lia).
    assert (length A = length K + length (above prefix x L))%nat as HlA.
    { rewrite Hdrop, length_drop. lia. }
    assert (0 < length K)%nat as HK0 by lia.
    destruct (IH x (n + length K)%nat cs' b' h3) as (b'' & h4 & -> & Hi4); [lia|done|done| |].
    { rewrite He. apply Forall_app. split; [|by apply (omap_consider_keys (fun k => str_ltb x k = false))].
      assert (str_lt cursor x) as Hcx.
      { assert (x ∈ A) as Hxa. { rewrite <- (take_drop (Z.to_nat sweepScanStep) A). apply elem_of_app. left. fold K.
          apply last_Some in Hx as [l ->]. apply elem_of_app. right. left. }
        by apply elem_of_above in Hxa as (_ & ? & _). }
      apply Forall_app. split; (eapply Forall_impl; [eassumption|]); intros c Hc; cbn in Hc |- *;
        (destruct (str_ltb x (cc_key c)) eqn:E; [|done]); pose proof (str_ltb_trans _ _ _ Hcx E); congruence. }
    rewrite He in *. exists b'', h4. rewrite HlA, Nat.add_assoc.
    assert (omap (consider o) A = omap (consider o) K ++ omap (consider o) (above prefix x L)) as ->.
    { rewrite Hdrop, <- omap_app. unfold K. by rewrite take_drop. }
    rewrite app_assoc. done.
Qed.

Lemma walk_inv_start : (forall t, t0 <= t <= T -> swept (t / 1000) (mm_counters m0) = L) -> walk_inv [] m0.
Proof.
  intros Hs. split_and!; try done.
  - exists (re_progress e0). symmetry. apply insert_id. rewrite Hrec. by destruct e0.
  - intros t Ht. unfold removed. destruct (so_execute o); cbn; by apply Hs.
Qed.

End quiet.

(** ** The whole command *)

(** The keys a selection reaches among the live ones, in order. *)
Definition reached (o : sweep_of) (prefix : string) (L : gmap string entry) : list counterCandidate :=
  omap (consider o) (above prefix "" L).

(** What a completed walk answers. *)
Definition complete_result (domain : string) (dryRun : bool) (examined : nat) (cs : list counterCandidate)
    (token : string) (expires : option Z) : BulkResult :=
  mkBulkResult domain dryRun (Z.of_nat examined) (firstn keySampleLimit (cc_key <$> cs)) (keySampleLimit <? length cs)%nat
    (ruleCounts (rules_of cs) dryRun) (if dryRun then Some (Z.of_nat (length cs)) else None)
    (if dryRun then None else Some (Z.of_nat (length cs))) token expires.

Lemma above_length prefix cursor c : (length (above prefix cursor c) <= size c)%nat.
Proof.
  unfold above. rewrite sort_strings_Permutation. etransitivity; [apply length_filter|].
  by rewrite length_fmap, length_map_to_list.
Qed.

Section command.
Context {PL : Platform} {GT : GoText} {TT : TokenText}.
Context (ns : string) (w : world) (t0 t1 T : Z) (Hq : undisturbed w t0 t1) (HT : t1 <= T) (Hdl : t1 <= t0 + sweepDeadline).

(** The stores where a command can be accepted: its key unbound, its lease
    free, and for an execution its token live. *)
Definition acceptable (c : bulkCommand) (keys : Keys) (m : MemoryRecords) : Prop :=
  mm_records m !! k_Record keys = None /\ mm_leases m !! k_Lease keys = None /\
  if bc_DryRun c then k_Token keys = ""
  else k_Token keys <> "" /\ exists d, mm_documents m !! k_Token keys = Some d /\ t1 < d_expiresAt d.

Lemma Accept_quiet t a c m :
  t0 <= t <= t1 -> acceptable c (ac_Keys a) m ->
  let r := Accept t a m in
  ad_OK r.2 = true /\ ad_SweepBusy r.2 = false /\ ad_TokenMissing r.2 = false /\
  mm_counters r.1 = mm_counters m /\
  mm_records r.1 = <[k_Record (ac_Keys a) :=
    mkREntry (ac_Command a) (ac_Fencing a) false no_progress no_outcome "" (t + Retention)]> (mm_records m) /\
  mm_leases r.1 = <[k_Lease (ac_Keys a) := mkLease (ac_Fencing a) (t + ac_LeaseTTL a)]> (mm_leases m) /\
  mm_documents r.1 = if bc_DryRun c then mm_documents m else delete (k_Token (ac_Keys a)) (mm_documents m).
Proof.
  intros Ht (Hr & Hl & Hk). cbv zeta. unfold Accept, record. rewrite Hr. unfold lease_of. rewrite Hl.
  destruct (bc_DryRun c).
  - rewrite Hk, (bool_decide_true ("" = "")) by done. cbn. done.
  - destruct Hk as [Hne (d & Hd & Hx)]. rewrite (bool_decide_false (k_Token (ac_Keys a) = "")) by done. cbn [negb].
    unfold document_of. rewrite Hd, (proj2 (Z.ltb_lt _ _)) by lia. cbn. done.
Qed.

Lemma run_quiet o m0 e0 l0 L fuel deadline prefix h :
  se_LimitedOnly (so_sel o) = false -> mm_leases m0 !! k_Lease (so_keys o) = Some l0 -> l_value l0 = so_fencing o ->
  t1 < l_expiresAt l0 -> mm_records m0 !! k_Record (so_keys o) = Some e0 -> t1 < re_expiresAt e0 ->
  (forall t, t0 <= t <= T -> swept (t / 1000) (mm_counters m0) = L) -> t1 <= deadline ->
  sweep_prefix o = Some prefix -> (size L < fuel)%nat -> h_mem h = m0 ->
  exists batch h', run o fuel deadline w h =
    (Some (sweeper_at (so_execute o) (length (above prefix "" L)) (reached o prefix L) batch, Ok tt), h') /\
    walk_inv o t0 T m0 e0 L (reached o prefix L) (h_mem h').
Proof.
  intros Hlim Hl Hf Hlx Hr Hrx HL Hd Hp Hfuel Hm. unfold run. rewrite Hp.
  assert (newSweeper = sweeper_at (so_execute o) 0 [] []) as -> by (unfold newSweeper, sweeper_at; by destruct (so_execute o)).
  destruct (run_loop_quiet o w t0 t1 T Hq HT Hlim m0 e0 l0 Hl Hf Hlx Hrx L deadline prefix Hd fuel "" 0 [] [] h)
    as (b & h' & Hrun & Hi).
  - pose proof (above_length prefix "" L). lia.
  - unfold sweepBatch. cbn. lia.
  - rewrite Hm. eapply walk_inv_start; eassumption.
  - constructor.
  - exists b, h'. done.
Qed.

Lemma Commit_quiet t keys fencing outcome m e l :
  t0 <= t <= t1 -> mm_leases m !! k_Lease keys = Some l -> l_value l = fencing -> t1 < l_expiresAt l ->
  mm_records m !! k_Record keys = Some e -> t1 < re_expiresAt e ->
  let r := Commit t (mkCommitArg keys fencing outcome) m in
  r.2 = None /\ mm_counters r.1 = mm_counters m /\ mm_documents r.1 = mm_documents m /\
  mm_leases r.1 !! k_Lease keys = None /\
  (forall k, k <> k_Record keys -> mm_records r.1 !! k = mm_records m !! k).
Proof.
  intros Ht Hl Hf Hlx Hr Hrx. cbv zeta. unfold Commit. cbn [cm_Keys cm_Fencing cm_Outcome].
  assert (owns t (k_Lease keys) fencing m = true) as ->.
  { unfold owns, lease_of. rewrite Hl, (proj2 (Z.ltb_lt _ _)) by lia. cbn [negb]. by apply bool_decide_eq_true. }
  cbn [negb]. rewrite (record_found t _ m e Hr) by lia. cbn. split_and!; try done; [apply lookup_delete_eq|].
  intros k Hk. by rewrite lookup_insert_ne.
Qed.

(** The commit of a walker that still holds its lease, as a call of the
    handler. *)
Lemma do_Commit_quiet keys fencing outcome e l h :
  mm_leases (h_mem h) !! k_Lease keys = Some l -> l_value l = fencing -> t1 < l_expiresAt l ->
  mm_records (h_mem h) !! k_Record keys = Some e -> t1 < re_expiresAt e ->
  exists h', do_Commit (mkCommitArg keys fencing outcome) w h = (Some None, h') /\
    mm_counters (h_mem h') = mm_counters (h_mem h) /\ mm_documents (h_mem h') = mm_documents (h_mem h) /\
    mm_leases (h_mem h') !! k_Lease keys = None /\
    (forall k, k <> k_Record keys -> mm_records (h_mem h') !! k = mm_records (h_mem h) !! k).
Proof.
  intros Hl Hf Hlx Hr Hrx. unfold do_Commit. set (ca := mkCommitArg keys fencing outcome).
  destruct (perform_quiet w t0 t1 Hq (fun _ => OCommit ca) (fun t m => (Commit t ca m).2) h) as (h' & -> & Hm).
  destruct (Commit_quiet (wd_clock w (h_calls h)) keys fencing outcome (h_mem h) e l) as (Hn & Hrest); [apply Hq|done..|].
  exists h'. subst ca. rewrite Hn, Hm. cbn [rstep]. done.
Qed.

(** The command from its acceptance on. *)
Lemma accept_completes fuel mi snapshot version domain subject c keys h prefix tk :
  let o := sweep_of_command ns snapshot c keys (mi_fencing mi) in
  let L := swept (t0 / 1000) (mm_counters (h_mem h)) in
  let cs := reached o prefix L in
  se_LimitedOnly (bc_Selector c) = false -> acceptable c keys (h_mem h) -> steady t0 T (mm_counters (h_mem h)) ->
  sweep_prefix o = Some prefix -> (size L < fuel)%nat -> tokenKey ns (s_Domain snapshot) (mi_token mi) = Some tk ->
  exists h' expires dx, t0 + confirmationTTL <= dx /\
    accept ns fuel mi snapshot version domain subject c keys w h =
      (Some (Body (complete_result (s_Domain snapshot) (bc_DryRun c) (length (above prefix "" L)) cs
         (if bc_DryRun c then mi_token mi else "") (if bc_DryRun c then Some expires else None))), h') /\
    (forall t, t0 <= t <= T ->
       swept (t / 1000) (mm_counters (h_mem h')) = Memory.Reset (if bc_DryRun c then [] else cc_key <$> cs) L) /\
    mm_leases (h_mem h') !! k_Lease keys = None /\
    (forall k, k <> k_Record keys -> mm_records (h_mem h') !! k = mm_records (h_mem h) !! k) /\
    (bc_DryRun c = true -> mm_documents (h_mem h') !! tk =
       Some (mkDocument (MarshalToken (mkTokenDocument (selection c) (s_Domain snapshot) subject version expires)) dx)).
Proof.
  intros o L cs Hlim Ha Hst Hp Hfuel Htk. unfold accept. rewrite hbind_run. unfold do_Accept.
  set (a := mkAcceptance keys (bulk_command c (s_Domain snapshot)) (mi_fencing mi) leaseTTL).
  destruct (perform_quiet w t0 t1 Hq (fun _ => OAccept a) (fun t m => (Accept t a m).2) h) as (h1 & -> & Hm1).
  pose proof (proj2 (proj2 Hq) (h_calls h)) as Ht. set (t := wd_clock w (h_calls h)) in *.
  destruct (Accept_quiet t a c (h_mem h) Ht Ha) as (Hok & Hbusy & Hmiss & Hc & Hr & Hl & Hdoc).
  cbn [fst snd]. rewrite Hbusy, Hmiss, Hok. cbn [orb rstep] in *. unfold sweep. fold o. rewrite hbind_run. cbn [clock_now fst snd].
  set (h2 := mkHState (S (h_calls h1)) (h_mem h1) (h_history h1)). rewrite hbind_run.
  pose proof (proj2 (proj2 Hq) (h_calls h1)) as Ht1.
  set (l0 := mkLease (mi_fencing mi) (t + leaseTTL)). set (e0 := mkREntry (bulk_command c (s_Domain snapshot)) (mi_fencing mi) false no_progress no_outcome "" (t + Retention)).
  assert (t1 < t + leaseTTL) as Hlx by (unfold leaseTTL; unfold sweepDeadline, Second in *; lia).
  assert (t1 < t + Retention) as Hrx by (unfold Retention; unfold sweepDeadline, Second in *; lia).
  assert (mm_leases (h_mem h1) !! k_Lease keys = Some l0) as Hl0 by (rewrite Hm1, Hl; apply lookup_insert_eq).
  assert (mm_records (h_mem h1) !! k_Record keys = Some e0) as He0 by (rewrite Hm1, Hr; apply lookup_insert_eq).
  destruct (run_quiet o (h_mem h1) e0 l0 L fuel (wd_clock w (h_calls h1) + sweepDeadline) prefix h2) as (batch & h3 & -> & Hi);
    [exact Hlim|exact Hl0|done|done|exact He0|done| |lia|done|done|done|].
  { intros t' Ht'. rewrite Hm1, Hc. apply swept_steady with T; done. }
  fold cs in Hi |- *. destruct Hi as (Hwl & Hwd & (p & Hwr) & Hwc). cbn [fst snd].
  assert (removed o cs = if bc_DryRun c then [] else cc_key <$> cs) as Hrem by (unfold removed; cbn; by destruct (bc_DryRun c)).
  assert (forall k, k <> k_Record keys -> mm_records (h_mem h3) !! k = mm_records (h_mem h) !! k) as Hrk.
  { intros k Hk. rewrite Hwr. change (k_Record (so_keys o)) with (k_Record keys). by rewrite Hm1, Hr, !lookup_insert_ne. }
  assert (forall token expires h4, mm_leases (h_mem h4) = mm_leases (h_mem h3) -> mm_records (h_mem h4) = mm_records (h_mem h3) ->
    mm_counters (h_mem h4) = mm_counters (h_mem h3) ->
    exists h5, do_Commit (mkCommitArg keys (mi_fencing mi)
        (mkCOutcome false "" "" "" (snapshotProgress (sweeper_at (so_execute o) (length (above prefix "" L)) cs batch)) token expires)) w h4 =
      (Some None, h5) /\
      (forall t, t0 <= t <= T ->
        swept (t / 1000) (mm_counters (h_mem h5)) = Memory.Reset (if bc_DryRun c then [] else cc_key <$> cs) L) /\
      mm_leases (h_mem h5) !! k_Lease keys = None /\
      (forall k, k <> k_Record keys -> mm_records (h_mem h5) !! k = mm_records (h_mem h) !! k) /\
      mm_documents (h_mem h5) = mm_documents (h_mem h4)) as Hcommit.
  { intros token expires h4 H4l H4r H4c. edestruct (do_Commit_quiet keys (mi_fencing mi)) as (h5 & -> & Hcc & Hcd & Hcl & Hcr);
      [by rewrite H4l, Hwl|done|done|rewrite H4r, Hwr; apply lookup_insert_eq|done|]. exists h5. split_and!; try done.
    - intros t' Ht'. by rewrite Hcc, H4c, (Hwc t' Ht'), Hrem.
    - intros k Hk. rewrite (Hcr k Hk), H4r. by apply Hrk. }
  destruct (bc_DryRun c) eqn:Edry.
  - rewrite hbind_run. unfold mintToken. rewrite Htk. rewrite !hbind_run. cbn [clock_now fst snd].
    set (ex := wd_clock w (h_calls h3) + confirmationTTL). set (h3' := mkHState (S (h_calls h3)) (h_mem h3) (h_history h3)).
    unfold do_Put. set (doc := MarshalToken _).
    destruct (perform_quiet w t0 t1 Hq (fun _ => OPut tk doc confirmationTTL) (fun _ _ => tt) h3') as (h4 & -> & Hm4).
    cbn [fst snd hret]. rewrite hbind_run.
    destruct (Hcommit (mi_token mi) ex h4) as (h5 & -> & H5c & H5l & H5r & H5d); [by rewrite Hm4..|].
    cbn [fst snd hret]. exists h5, ex, (wd_clock w (h_calls h3') + confirmationTTL).
    pose proof (proj2 (proj2 Hq) (h_calls h3')). split; [lia|]. split_and!; try done.
    + f_equal. f_equal. f_equal. unfold sweep_result, complete_result, sweeper_at. cbn. by rewrite Edry.
    + intros _. rewrite H5d, Hm4. apply lookup_insert_eq.
  - rewrite hbind_run. destruct (Hcommit "" 0 h3) as (h5 & -> & H5c & H5l & H5r & H5d); [done..|].
    cbn [fst snd hret]. exists h5, 0, (t0 + confirmationTTL). split; [lia|]. split_and!; try done.
    f_equal. f_equal. f_equal. unfold sweep_result, complete_result, sweeper_at. cbn. by rewrite Edry.
Qed.

End command.
