(* ===== verification/ResetsCommand.v ===== *)
(** * Preview and execution of a bulk reset

    The two steps of the action end to end over a store no one else uses while
    they run: the preview mints the token of what it looked at, the execution
    that presents it removes exactly that. *)
From S2P Require Import Prelude GoStrings Algo Key StoreApi Memory MemoryScan Model Compile CompileFacts Match MatchFacts MatchKeys Identity.
From S2P Require Import Records RecordsClaims MgmtKeys RuleView MgmtErrors Selector Listing ListingFacts Manifest ConfigStore SvcConfig.
From S2P Require Import MgmtCalls AddrReset AddrResetClaims Bulk Resets ResetsFacts ResetsClaims ResetsQuiet.

(** ** The counters a command reaches *)

(** A sweep considers a counter of the enforced set exactly when its selection
    selects it. *)
Lemma consider_ref cap o ref values :
  snapshot_ok cap (so_namespace o) (so_snapshot o) ->
  ref ∈ rate_refs (so_snapshot o) -> plain_name (bl_Name (rr_block ref)) -> plain_name (ru_Name (rr_rule ref)) ->
  NoDup (ru_Counters (rr_rule ref)) -> length values = length (ru_Counters (rr_rule ref)) ->
  is_Some (consider o (Key.Bucket (ra_Prefix (rr_rate ref)) values)) <->
  so_domainWide o = true \/ selects (so_sel o) ref values.
Proof.
  intros Hok Hr Hb Hu Hnd Hl.
  destruct (admit_ref cap _ _ Hok (so_sel o) ref values Hr Hb Hu Hnd Hl) as (axes & _ & Hyes & Hno). cbn zeta in Hyes, Hno.
  destruct (namedAxes_lookup (ref_key ref values) (ru_Counters (rr_rule ref)) Hnd Hl) as (axes' & Ha & _ & _).
  unfold admit_key_of in Hyes, Hno. unfold consider. rewrite (parse_ref_key cap) in * by done.
  cbn [ref_key ck_RatePrefix ck_RuleID] in *. fold (ref_key ref values) in *. rewrite (index_lookup cap (so_namespace o)) in * by done.
  rewrite Ha in *. destruct (so_domainWide o); cbn [negb andb].
  - split; [by left|by eexists].
  - destruct (matches (so_sel o) (ref_key ref values)); cbn [negb] in *.
    + destruct (matchesAxes (so_sel o) axes'); cbn [negb] in *.
      * split; [|by eexists]. intros _. right. by eapply Hno.
      * split; [by intros []|]. intros [|Hs]; [done|]. by apply Hyes in Hs.
    + split; [by intros []|]. intros [|Hs]; [done|]. by apply Hyes in Hs.
Qed.

Lemma sweep_prefix_covers cap o ref values prefix :
  snapshot_ok cap (so_namespace o) (so_snapshot o) ->
  ref ∈ rate_refs (so_snapshot o) -> plain_name (bl_Name (rr_block ref)) -> plain_name (ru_Name (rr_rule ref)) ->
  so_domainWide o = true \/ selects (so_sel o) ref values -> sweep_prefix o = Some prefix ->
  HasPrefix (Key.Bucket (ra_Prefix (rr_rate ref)) values) prefix = true.
Proof.
  intros Hok Hr Hb Hu Hs Hp. unfold sweep_prefix in Hp. destruct (so_domainWide o) eqn:Ed.
  - destruct (DomainPrefix_of cap _ _ Hok ref Hr) as (dp & Hd & Hpre). rewrite Hd in Hp. injection Hp as <-.
    unfold Key.Bucket. rewrite Hpre, !app_str_assoc. apply prefix_app.
  - destruct Hs as [|Hs]; [done|].
    destruct (scanPrefix_covers cap _ _ Hok (so_sel o) ref values Hr Hb Hu Hs) as (pre & Hpre & Hh). rewrite Hpre in Hp. by injection Hp as <-.
Qed.

(** The keys a command removes: live ones, and selected ones. *)
Lemma elem_of_reached o prefix L k :
  k ∈ cc_key <$> reached o prefix L <->
  is_Some (L !! k) /\ k <> "" /\ HasPrefix k prefix = true /\ is_Some (consider o k).
Proof.
  unfold reached. rewrite list_elem_of_fmap. setoid_rewrite list_elem_of_omap. setoid_rewrite elem_of_above. split.
  - intros (c & -> & x & (Hl & Hx & Hp) & Hc). rewrite (considered_key _ _ _ Hc). split_and!; [done| |done|by eexists].
    intros ->. by vm_compute in Hx.
  - intros (Hl & Hne & Hp & [c Hc]). exists c. split; [by rewrite (considered_key _ _ _ Hc)|]. exists k. split_and!; try done.
    by destruct k.
Qed.

Lemma counted_swept_at t c k : counted t c k = bool_decide (is_Some (swept (t / 1000) c !! k)).
Proof.
  unfold counted, swept. destruct (c !! k) as [e|] eqn:E.
  - destruct (Z.ltb_spec (t / 1000) (e_deadline e)) as [H|H]; symmetry.
    + apply bool_decide_eq_true. exists e. by apply map_lookup_filter_Some.
    + apply bool_decide_eq_false. intros [e' H']. apply map_lookup_filter_Some in H' as [H1 H2].
      rewrite E in H1. injection H1 as <-. simpl in H2. lia.
  - symmetry. apply bool_decide_eq_false. intros [e' H']. apply map_lookup_filter_Some in H' as [H1 _]. congruence.
Qed.

(** The counters alive after a removal, at any instant of a steady interval. *)
Lemma counted_after t c ks L k :
  swept (t / 1000) c = Memory.Reset ks L -> counted t c k = bool_decide (is_Some (L !! k)) && negb (bool_decide (k ∈ ks)).
Proof.
  intros E. rewrite counted_swept_at, E, Reset_lookup. destruct (bool_decide (k ∈ ks)); cbn [negb].
  - rewrite andb_false_r. by apply bool_decide_eq_false; intros [].
  - by rewrite andb_true_r.
Qed.

Lemma steady_of_swept t0 t1 c : swept (t0 / 1000) c = swept (t1 / 1000) c -> steady t0 t1 c.
Proof.
  intros E k e He. destruct (Z.le_gt_cases (e_deadline e) (t0 / 1000)) as [H|H]; [by left|right].
  assert (swept (t1 / 1000) c !! k = Some e) as H1 by (rewrite <- E; by apply map_lookup_filter_Some).
  by apply map_lookup_filter_Some in H1 as [_ H1].
Qed.

Lemma tokenKey_nonempty ns domain token token' k :
  tokenKey ns domain token = Some k -> k <> "" /\ exists k', tokenKey ns domain token' = Some k'.
Proof.
  unfold tokenKey, recordTag. destruct (DomainTag ns domain); [|done]. cbn [mbind option_bind]. intros [= <-].
  split; [done|by eexists].
Qed.

Section command.
Context {PL : Platform} {GT : GoText} {TT : TokenText}.

(** A command that may run, from its first lookup on. *)
Lemma bulk_body_completes ns w t0 t1 T fuel mi snapshot version domain subject c keys h prefix tk token :
  let o := sweep_of_command ns snapshot c keys (mi_fencing mi) in
  let L := swept (t0 / 1000) (mm_counters (h_mem h)) in
  let cs := reached o prefix L in
  undisturbed w t0 t1 -> t1 <= T -> t1 <= t0 + sweepDeadline -> se_LimitedOnly (bc_Selector c) = false ->
  acceptable t1 c keys (h_mem h) -> steady t0 T (mm_counters (h_mem h)) ->
  sweep_prefix o = Some prefix -> (size L < fuel)%nat -> tokenKey ns (s_Domain snapshot) (mi_token mi) = Some tk ->
  (bc_DryRun c = false -> tokenKey ns (s_Domain snapshot) (bc_ConfirmationToken c) = Some (k_Token keys) /\
     (forall d, mm_documents (h_mem h) !! k_Token keys = Some d -> UnmarshalToken (d_value d) = Some token) /\
     td_Domain token = s_Domain snapshot /\ td_Subject token = subject /\ td_Selection token = selection c /\
     td_RuleSetVersion token = version) ->
  exists h' expires dx, t0 + confirmationTTL <= dx /\
    bulk_body ns fuel mi snapshot version domain subject c keys w h =
      (Some (Body (complete_result (s_Domain snapshot) (bc_DryRun c) (length (above prefix "" L)) cs
         (if bc_DryRun c then mi_token mi else "") (if bc_DryRun c then Some expires else None))), h') /\
    (forall t, t0 <= t <= T ->
       swept (t / 1000) (mm_counters (h_mem h')) = Memory.Reset (if bc_DryRun c then [] else cc_key <$> cs) L) /\
    mm_leases (h_mem h') !! k_Lease keys = None /\
    (forall k, k <> k_Record keys -> mm_records (h_mem h') !! k = mm_records (h_mem h) !! k) /\
    (bc_DryRun c = true -> mm_documents (h_mem h') !! tk =
       Some (mkDocument (MarshalToken (mkTokenDocument (selection c) (s_Domain snapshot) subject version expires)) dx)).
Proof.
  intros o L cs Hq HT Hdl Hlim Ha Hst Hp Hf Htk Htoken. unfold bulk_body. rewrite hbind_run. unfold do_Lookup.
  destruct (perform_quiet w t0 t1 Hq (fun _ => OLookup keys) (fun t m => (Lookup t keys m).2) h) as (h1 & -> & Hm1).
  assert (Lookup (wd_clock w (h_calls h)) keys (h_mem h) = (h_mem h, no_record)) as Hlk.
  { unfold Lookup, Records.read, record. by rewrite (proj1 Ha). }
  cbn [rstep] in Hm1. rewrite Hlk in *. cbn [fst snd r_Found no_record] in *.
  destruct (bc_DryRun c) eqn:Ed.
  - pose proof (accept_completes ns w t0 t1 T Hq HT Hdl fuel mi snapshot version domain subject c keys h1 prefix tk) as H.
    cbn zeta in H. rewrite Hm1, Ed in H. apply H; try done.
  - destruct (Htoken eq_refl) as (Hkey & Hdoc & H1 & H2 & H3 & H4).
    pose proof Ha as (_ & _ & Hk). rewrite Ed in Hk. destruct Hk as (Hne & d & Hd & Hx).
    rewrite hbind_run. unfold checkToken. rewrite Hkey. rewrite hbind_run. unfold do_Get.
    destruct (perform_quiet w t0 t1 Hq (fun _ => OGet (k_Token keys)) (fun t m => Get t (k_Token keys) m) h1) as (h2 & -> & Hm2).
    cbn [rstep] in Hm2. cbn [fst snd hret].
    assert (Get (wd_clock w (h_calls h1)) (k_Token keys) (h_mem h1) = Some (d_value d)) as ->.
    { pose proof (proj2 (proj2 Hq) (h_calls h1)). unfold Get, document_of. rewrite Hm1, Hd, (proj2 (Z.ltb_lt _ _)) by lia. done. }
    rewrite (Hdoc d Hd), H1, H2, H3, H4, !bool_decide_true by done. cbn [negb orb].
    pose proof (accept_completes ns w t0 t1 T Hq HT Hdl fuel mi snapshot version domain subject c keys h2 prefix tk) as H.
    cbn zeta in H. rewrite Hm2, Hm1, Ed in H. apply H; try done.
Qed.

Lemma handleBulkReset_body ns fuel mi rules domain header subject body snapshot version c keys :
  call_of ns rules domain header subject body snapshot version c keys ->
  handleBulkReset ns fuel mi rules domain header subject body = bulk_body ns fuel mi snapshot version domain subject c keys.
Proof.
  intros (key & request & name & H1 & H2 & -> & H3 & H4 & H5 & H6). unfold handleBulkReset.
  rewrite H1, H2, H3, H4, H5. cbn [mbind option_bind]. by rewrite H6.
Qed.

Lemma reached_keys_eq ns snapshot c c' keys keys' f f' prefix L :
  bc_Selector c' = bc_Selector c -> bc_DomainWide c' = bc_DomainWide c ->
  reached (sweep_of_command ns snapshot c' keys' f') prefix L = reached (sweep_of_command ns snapshot c keys f) prefix L.
Proof.
  intros E1 E2. unfold reached. induction (above prefix "" L) as [|k l IH]; [done|]. cbn [omap list_omap].
  rewrite IH. unfold consider, sweep_of_command. cbn. by rewrite E1, E2.
Qed.

Lemma selection_utf8 c : utf8 (selection c).
Proof.
  apply utf8_ascii. unfold selection. destruct (bc_DomainWide c); [done|]. apply take_str_ascii, hex_encode_ascii.
Qed.

End command.

(** ** Claims *)

(** C12: A preview answers the selected live counters and their breakdown, removes
    nothing and mints a token; an execution that presents this token for the
    same selection within its lifetime is accepted and answers the same
    counters, and afterwards exactly those are gone. A counter of the enforced
    set is among them exactly when it is live and the selection selects it,
    and anything else among them is a live counter key of the domain that the
    selection names. This is stated for a selection without the limited
    filter: a limited counter may recover between the two commands, and then
    the execution reports fewer keys than the preview. The stores are used by
    no one else meanwhile, no counter expires and no call fails; the domain,
    the subject and the version, which the token carries as JSON, are valid
    UTF-8. *)
Theorem bulk_preview_then_execute : forall {PL : Platform} {GT : GoText} {TT : TokenText} `{!TokenTextLaws}
    cap ns mi mi' rules domain header header' subject body body' snapshot version c c' keys keys' prefix w w' t0 t1 t2 t3 m fuel fuel',
  snapshot_ok cap ns snapshot -> utf8 (s_Domain snapshot) -> utf8 subject -> utf8 version ->
  call_of ns rules domain header subject body snapshot version c keys ->
  call_of ns rules domain header' subject body' snapshot version c' keys' ->
  bc_DryRun c = true -> bc_DryRun c' = false -> bc_Selector c' = bc_Selector c -> bc_DomainWide c' = bc_DomainWide c ->
  bc_ConfirmationToken c' = mi_token mi -> se_LimitedOnly (bc_Selector c) = false -> k_Record keys' <> k_Record keys ->
  undisturbed w t0 t1 -> t1 <= t0 + sweepDeadline -> undisturbed w' t2 t3 -> t1 <= t2 -> t3 <= t2 + sweepDeadline ->
  t3 < t0 + confirmationTTL -> steady t0 t3 (mm_counters m) ->
  mm_records m !! k_Record keys = None -> mm_records m !! k_Record keys' = None -> mm_leases m !! k_Lease keys = None ->
  sweep_prefix (sweep_of_command ns snapshot c keys "") = Some prefix ->
  (size (mm_counters m) < fuel)%nat -> (size (mm_counters m) < fuel')%nat ->
  let L := swept (t0 / 1000) (mm_counters m) in
  let examined := length (above prefix "" L) in
  let cs := reached (sweep_of_command ns snapshot c keys "") prefix L in
  exists h h' expires,
    handleBulkReset ns fuel mi rules domain header subject body w (start m) =
      (Some (Body (complete_result (s_Domain snapshot) true examined cs (mi_token mi) (Some expires))), h) /\
    (forall k, counted t1 (mm_counters (h_mem h)) k = counted t0 (mm_counters m) k) /\
    handleBulkReset ns fuel' mi' rules domain header' subject body' w' (start (h_mem h)) =
      (Some (Body (complete_result (s_Domain snapshot) false examined cs "" None)), h') /\
    (forall k, counted t3 (mm_counters (h_mem h')) k =
       counted t0 (mm_counters m) k && negb (bool_decide (k ∈ cc_key <$> cs))) /\
    (forall k, k ∈ cc_key <$> cs -> counted t0 (mm_counters m) k = true /\
       selected ns snapshot (bc_Selector c) (bc_DomainWide c) k) /\
    (forall ref values,
       ref ∈ rate_refs snapshot -> plain_name (bl_Name (rr_block ref)) -> plain_name (ru_Name (rr_rule ref)) ->
       NoDup (ru_Counters (rr_rule ref)) -> length values = length (ru_Counters (rr_rule ref)) ->
       let k := Key.Bucket (ra_Prefix (rr_rate ref)) values in
       counted t0 (mm_counters m) k = true ->
       (k ∈ cc_key <$> cs <-> bc_DomainWide c = true \/ selects (bc_Selector c) ref values)).
Proof.
  intros PL GT TT TTL cap ns mi mi' rules domain header header' subject body body' snapshot version c c' keys keys' prefix w w' t0 t1 t2 t3 m fuel fuel'
    Hok Hud Hus Huv Hcall Hcall' Hd Hd' Es Ew Et Hlim Hkk Hq Hdl Hq' Ht12 Hdl' Ht3 Hst Hr Hr' Hl Hp Hf Hf' L examined cs.
  assert (t0 <= t1) as H01 by (pose proof (proj2 (proj2 Hq) 0%nat); lia).
  assert (t2 <= t3) as H23 by (pose proof (proj2 (proj2 Hq') 0%nat); lia).
  destruct (commandKeys_fields ns (s_Domain snapshot) (k_Record keys) c keys) as (_ & Hlk & _ & Htok).
  { destruct Hcall as (? & ? & name & _ & _ & _ & _ & _ & _ & H). destruct (commandKeys_fields _ _ _ _ _ H) as (-> & _). done. }
  destruct (commandKeys_fields ns (s_Domain snapshot) (k_Record keys') c' keys') as (_ & Hlk' & Htok' & _).
  { destruct Hcall' as (? & ? & name & _ & _ & _ & _ & _ & _ & H). destruct (commandKeys_fields _ _ _ _ _ H) as (-> & _). done. }
  assert (k_Lease keys' = k_Lease keys) as Elease by congruence. specialize (Htok Hd). specialize (Htok' Hd'). rewrite Et in Htok'.
  assert (size L <= size (mm_counters m))%nat as HLs by apply map_size_filter.
  destruct (bulk_body_completes ns w t0 t1 t3 fuel mi snapshot version domain subject c keys (start m) prefix (k_Token keys')
    (mkTokenDocument "" "" "" "" 0)) as (h & expires & dx & Hdx & Hrun & Hc & Hle & Hre & Hdo); try done; [lia| |cbn [h_mem start]; fold L; lia|congruence|].
  { split_and!; try done. by rewrite Hd. }
  rewrite Hd in Hrun, Hc. cbn [h_mem start] in Hrun, Hc, Hre. fold L in Hrun, Hc.
  rewrite (reached_keys_eq ns snapshot c c keys keys "" (mi_fencing mi)) in Hrun by done. fold cs in Hrun.
  specialize (Hdo Hd). set (doc := mkTokenDocument _ _ _ _ expires) in Hdo.
  assert (swept (t2 / 1000) (mm_counters (h_mem h)) = L) as EL by (rewrite (Hc t2) by lia; done).
  assert (swept (t3 / 1000) (mm_counters (h_mem h)) = L) as EL3 by (rewrite (Hc t3) by lia; done).
  destruct (tokenKey_nonempty ns (s_Domain snapshot) (mi_token mi) (mi_token mi') _ Htok') as (Htne & tk' & Htk').
  destruct (bulk_body_completes ns w' t2 t3 t3 fuel' mi' snapshot version domain subject c' keys' (start (h_mem h)) prefix tk' doc)
    as (h' & expires' & dx' & _ & Hrun' & Hc' & _); cbn [h_mem start]; try done; [by rewrite Es| | | | | |].
  { split_and!; [by rewrite Hre|by rewrite Elease|]. rewrite Hd'. split; [done|]. eexists. split; [exact Hdo|]. cbn. lia. }
  { apply steady_of_swept. by rewrite EL, EL3. }
  { unfold sweep_prefix, sweep_of_command in *. cbn in *. by rewrite Es, Ew. }
  { rewrite EL. lia. }
  { intros _. rewrite Et. split; [done|]. split; [|unfold doc; cbn; unfold selection; by rewrite Es, Ew].
    intros d. rewrite Hdo. intros [= <-]. apply token_text_roundtrip; [|done..]. apply selection_utf8. }
  rewrite Hd' in Hrun', Hc'. cbn [h_mem start] in Hrun', Hc'. rewrite EL in Hrun', Hc'.
  rewrite (reached_keys_eq ns snapshot c c' keys keys' "" (mi_fencing mi') prefix L Es Ew) in Hrun', Hc'. fold cs in Hrun', Hc'.
  exists h, h', expires. rewrite (handleBulkReset_body _ _ _ _ _ _ _ _ _ _ _ _ Hcall), (handleBulkReset_body _ _ _ _ _ _ _ _ _ _ _ _ Hcall').
  assert (forall k, counted t0 (mm_counters m) k = bool_decide (is_Some (L !! k))) as Hcm by (intros; apply counted_swept_at).
  split_and!.
  - exact Hrun.
  - intros k. rewrite counted_swept_at, Hcm, (Hc t1) by lia. done.
  - exact Hrun'.
  - intros k. rewrite Hcm. apply counted_after. apply Hc'. lia.
  - intros k (Hlive & _ & _ & [x Hx])%elem_of_reached. split; [rewrite Hcm; by apply bool_decide_eq_true|].
    by apply consider_selected in Hx as (_ & Hx & _).
  - intros ref values H1 H2 H3 H4 H5 Hk. rewrite Hcm in Hk. apply bool_decide_eq_true in Hk.
    set (o := sweep_of_command ns snapshot c keys "") in *.
    pose proof (consider_ref cap o ref values Hok H1 H2 H3 H4 H5) as Hcr. unfold cs. rewrite elem_of_reached. split.
    + intros (_ & _ & _ & Hx). by apply Hcr in Hx.
    + intros Hs. split_and!; [done|by eapply ref_bucket_nonempty| |by apply Hcr].
      by eapply (sweep_prefix_covers cap o).
Qed.

(** ** Witnesses *)

#[export] Instance tokenDocument_eq_dec : EqDecision tokenDocument.
Proof. solve_decision. Defined.

#[export] Instance tokenDocument_countable : Countable tokenDocument.
Proof.
  refine (inj_countable' (fun d => (td_Selection d, td_Domain d, td_Subject d, td_RuleSetVersion d, td_ExpiresAt d))
    (fun '(s, d, u, v, e) => mkTokenDocument s d u v e) _).
  by intros [].
Defined.

Definition demo_token_text : TokenText := {|
  MarshalToken d := digits (encode d);
  UnmarshalToken s := decode (code s) |}.

#[local] Instance demo_token_text_laws : TokenTextLaws (H := demo_token_text).
Proof.
  split. intros d _ _ _ _. change (decode (code (digits (encode d))) = Some d). rewrite code_digits. apply countable.decode_encode.
Qed.

(** A digest that keeps the end of what it reads. *)
Definition demo_digest : Platform := {|
  Unmarshal _ := None;
  ToLower := ToLowerASCII;
  Sum256 s := String.rev s |}.

(** Nobody else, one instant. *)
Definition calm (t : Z) : world := mkWorld (fun _ => t) (fun _ => []) (fun _ => None).

Lemma calm_undisturbed t : undisturbed (calm t) t t.
Proof. by split_and!. Qed.

Definition demo_body : SelectorBody := mkSelectorBody ["api"] "" "" ({["sub" := ["bob"]]} : gmap string (list string)) None.
Definition demo_token : string := "ct-0123456789ab".
Definition demo_minted : minted := mkMinted "f1" demo_token "e1".
Definition demo_preview : BulkResetRequest := mkBulkResetRequest (Some demo_body) "" (Some true) "".
Definition demo_execution : BulkResetRequest := mkBulkResetRequest (Some demo_body) "" None demo_token.

Definition demo_header (dry : bool) : string := if dry then "key-1" else "key-2".
Definition demo_request (dry : bool) : BulkResetRequest := if dry then demo_preview else demo_execution.

Definition demo_command (dry : bool) : bulkCommand :=
  mkBulkCommand (mkSelector ["api"] "" 0 ({["sub" := ["bob"]]} : gmap string (list string)) false) false dry (if dry then "" else demo_token).
Definition demo_keys (dry : bool) : Keys :=
  let name := default "" (recordKey (PL := demo_digest) "core" "gateway.public" endpointResets demo_caller
                            (demo_header dry)) in
  default (mkKeys "" "" "") (commandKeys "core" "gateway.public" name (demo_command dry)).

Lemma demo_call dry :
  call_of (PL := demo_digest) (GT := demo_text) "core" (demo_rules "v1") "gateway.public" (demo_header dry)
    demo_caller (Ok (demo_request dry)) demo_snap "v1" (demo_command dry) (demo_keys dry).
Proof.
  exists (demo_header dry), (demo_request dry), (k_Record (demo_keys dry)).
  destruct dry; split_and!; vm_compute; reflexivity.
Qed.

Lemma demo_sweep_prefix dry f :
  sweep_prefix (sweep_of_command "core" demo_snap (demo_command dry) (demo_keys dry) f) = Some (default "" (BlockPrefix "core" "gateway.public" "api")).
Proof. destruct dry; vm_compute; reflexivity. Qed.

Lemma demo_steady : steady 1000 2000 ListingFacts.demo_counters.
Proof. intros k e [_ ->]%demo_counter_keys. right. reflexivity. Qed.

Lemma bulk_preview_then_execute_witness : exists h h',
  (handleBulkReset (PL := demo_digest) (GT := demo_text) (TT := demo_token_text) "core" 9 demo_minted (demo_rules "v1")
    "gateway.public" "key-1" demo_caller (Ok demo_preview) (calm 1000) (start (NewMemory ListingFacts.demo_counters))).2 = h /\
  (handleBulkReset (PL := demo_digest) (GT := demo_text) (TT := demo_token_text) "core" 9 demo_minted (demo_rules "v1")
    "gateway.public" "key-2" demo_caller (Ok demo_execution) (calm 2000) (start (h_mem h))) =
    (Some (Body (mkBulkResult "gateway.public" false 2 [demo_bob] false [mkBulkRuleCount "api/per-user" None (Some 1)] None (Some 1) "" None)), h') /\
  counted 2000 (mm_counters (h_mem h')) demo_bob = false /\ counted 2000 (mm_counters (h_mem h')) demo_alice = true.
Proof.
  destruct (@bulk_preview_then_execute demo_digest demo_text demo_token_text demo_token_text_laws max_i64 "core" demo_minted demo_minted
    (demo_rules "v1") "gateway.public" "key-1" "key-2" demo_caller (Ok demo_preview) (Ok demo_execution) demo_snap "v1"
    (demo_command true) (demo_command false) (demo_keys true) (demo_keys false) (default "" (BlockPrefix "core" "gateway.public" "api"))
    (calm 1000) (calm 2000) 1000 1000 2000 2000 (NewMemory ListingFacts.demo_counters) 9 9)
    as (h & h' & expires & Hrun & _ & Hrun' & Hc & _).
  - exact demo_snap_ok.
  - apply utf8_ascii. reflexivity.
  - apply utf8_ascii. reflexivity.
  - apply utf8_ascii. reflexivity.
  - exact (demo_call true).
  - exact (demo_call false).
  - reflexivity.
  - reflexivity.
  - reflexivity.
  - reflexivity.
  - reflexivity.
  - reflexivity.
  - vm_compute. intros E. discriminate E.
  - apply calm_undisturbed.
  - vm_compute. intros E. discriminate E.
  - apply calm_undisturbed.
  - lia.
  - vm_compute. intros E. discriminate E.
  - vm_compute. reflexivity.
  - exact demo_steady.
  - reflexivity.
  - reflexivity.
  - reflexivity.
  - exact (demo_sweep_prefix true "").
  - apply Nat.ltb_lt. vm_compute. reflexivity.
  - apply Nat.ltb_lt. vm_compute. reflexivity.
  - exists h, h'. split; [rewrite Hrun; reflexivity|]. split; [rewrite Hrun'; vm_compute; reflexivity|].
    split.
    + etransitivity; [exact (Hc demo_bob)|]. vm_compute. reflexivity.
    + etransitivity; [exact (Hc demo_alice)|]. vm_compute. reflexivity.
Defined.

(** ** Witnesses of the claims on a command's history *)

Definition demo_acceptance : Acceptance :=
  mkAcceptance (demo_keys true) (bulk_command (PL := demo_digest) (GT := demo_text) (demo_command true) "gateway.public") "f0" leaseTTL.

Definition demo_reused_keys : Keys :=
  default (mkKeys "" "" "") (commandKeys "core" "gateway.public" (k_Record (demo_keys true)) (demo_command false)).

Lemma demo_reused_call :
  call_of (PL := demo_digest) (GT := demo_text) "core" (demo_rules "v1") "gateway.public" "key-1" demo_caller
    (Ok demo_execution) demo_snap "v1" (demo_command false) demo_reused_keys.
Proof. exists "key-1", demo_execution, (k_Record (demo_keys true)). split_and!; vm_compute; reflexivity. Qed.

(** A preview was accepted under a key; the key is used again, for the
    execution. *)
Lemma bulk_runs_once_witness :
  (handleBulkReset (PL := demo_digest) (GT := demo_text) (TT := demo_token_text) "core" 9 demo_minted (demo_rules "v1")
    "gateway.public" "key-1" demo_caller (Ok demo_execution) (calm 2000)
    (start (Accept 1000 demo_acceptance (NewMemory ListingFacts.demo_counters)).1)).1 =
  Some (Failed (conflict ConflictCommandMismatch)).
Proof.
  apply (@bulk_runs_once demo_digest demo_text demo_token_text "core" 9 demo_minted (demo_rules "v1") "gateway.public" "key-1"
    demo_caller (Ok demo_execution) demo_snap "v1" (demo_command false) demo_reused_keys demo_acceptance
    (NewMemory ListingFacts.demo_counters) 1000 [] (calm 2000)).
  - vm_compute. reflexivity.
  - reflexivity.
  - constructor.
  - vm_compute. split; [intros E; discriminate E|reflexivity].
  - exact demo_reused_call.
  - vm_compute. reflexivity.
  - reflexivity.
  - vm_compute. intros E. discriminate E.
Defined.

(** A clock that runs: a second between two calls. *)
Definition ticking : world := mkWorld (fun i => Z.of_nat i * Second) (fun _ => []) (fun _ => None).

Lemma bulk_ends_witness : exists turns, forall fuel, (turns < fuel)%nat ->
  is_Some (handleBulkReset (PL := demo_digest) (GT := demo_text) (TT := demo_token_text) "core" fuel demo_minted (demo_rules "v1")
    "gateway.public" "key-1" demo_caller (Ok demo_preview) ticking (start (NewMemory ListingFacts.demo_counters))).1.
Proof.
  apply (@bulk_ends demo_digest demo_text demo_token_text "core" demo_minted (demo_rules "v1") "gateway.public" "key-1"
    demo_caller (Ok demo_preview) ticking (start (NewMemory ListingFacts.demo_counters))).
  - discriminate.
  - intros snapshot version E. vm_compute in E. injection E as <- _. discriminate.
  - intros t. exists (Z.to_nat (t + 1)). intros i Hi. unfold ticking, Second. cbn. lia.
Defined.
