(* ===== verification/Fleet.v ===== *)
(** * operator/internal/controller/replicas.go: what the leader sees of the fleet

    The ready endpoints of the Service, one round of asking each of them what
    it enforces, and the reuse of a round while it is fresh. The lock is the
    atomicity of an observation; the goroutines of a round each write their own
    slot of the answers, so a round is its list of replies. What the network
    and the API server answer is an argument. Instants are nanoseconds. *)
From S2P Require Import Prelude GoStrings Algo Compile Identity Convert OpPolicy Selector Manifest ConfigStore SvcConfig.

(** ** Definitions *)

(** *** Two's complement of 32 bits *)

Definition i32 (z : Z) : Z := (z + 2 ^ 31) mod 2 ^ 32 - 2 ^ 31.

(** *** The EndpointSlices of the Service *)

Definition MetricsPortName : string := "metrics".

Record SlicePort := mkSlicePort { po_Name : option string; po_Port : option Z }.

(** [ep_TargetName] is the name of the target reference, when there is one. *)
Record SliceEndpoint := mkSliceEndpoint {
  ep_Ready : option bool;
  ep_Terminating : option bool;
  ep_Addresses : list string;
  ep_TargetName : option string }.

Record EndpointSlice := mkEndpointSlice { sl_Ports : list SlicePort; sl_Endpoints : list SliceEndpoint }.

Record endpoint := mkEndpoint { en_name : string; en_address : string; en_port : Z }.

#[export] Instance endpoint_eq_dec : EqDecision endpoint.
Proof. solve_decision. Defined.
#[export] Instance endpoint_countable : Countable endpoint.
Proof.
  refine (inj_countable' (fun e => (en_name e, en_address e, en_port e)) (fun '(n, a, p) => mkEndpoint n a p) _).
  by intros [].
Defined.

Fixpoint port_loop (ports : list SlicePort) : option Z :=
  match ports with
  | [] => None
  | p :: ports =>
      match po_Name p, po_Port p with
      | Some n, Some port => if bool_decide (n = MetricsPortName) then Some port else port_loop ports
      | _, _ => port_loop ports
      end
  end.

Definition portOf (s : EndpointSlice) : option Z := port_loop (sl_Ports s).

(** One address of a slice; [None] is one that is skipped. *)
Definition ready_endpoint (port : Z) (e : SliceEndpoint) : option endpoint :=
  if bool_decide (ep_Ready e = Some false) then None
  else if bool_decide (ep_Terminating e = Some true) then None
  else match ep_Addresses e with
       | [] => None
       | address :: _ =>
           let name := match ep_TargetName e with
                       | Some n => if bool_decide (n = "") then address else n
                       | None => address
                       end in
           Some (mkEndpoint name address port)
       end.

Fixpoint endpoints_loop (items : list EndpointSlice) : list endpoint :=
  match items with
  | [] => []
  | s :: items =>
      match portOf s with
      | None => endpoints_loop items
      | Some port => omap (ready_endpoint port) (sl_Endpoints s) ++ endpoints_loop items
      end
  end.

Definition name_le (a b : endpoint) : Prop := String.leb (en_name a) (en_name b) = true.
#[export] Instance name_le_dec : RelDecision name_le.
Proof. unfold RelDecision, name_le. intros; apply _. Defined.

(** [endpoints] of a list that was read. Go's sort leaves the order of two
    endpoints of one name open; here it is the slices'. *)
Definition endpoints (items : list EndpointSlice) : list endpoint := merge_sort name_le (endpoints_loop items).

(** *** One round *)

(** What came back from one replica: nothing, a status whose body broke off,
    or a whole reply. *)
Inductive http_reply := HttpFailed | HttpBroken (status : Z) | HttpReply (status : Z) (body : string).

(** The errors of an observation. *)
Inductive probe_error := ErrList | ErrNoReplicaAnswered | ErrNoProbe.

Record fleetRound := mkFleetRound {
  fr_taken : Z;
  fr_completed : Z;
  fr_endpoints : list endpoint;
  fr_answers : gmap endpoint Report;
  fr_silent : list string;
  fr_err : option probe_error }.

(** A zero time is [None]. *)
Record FleetView := mkFleetView {
  fv_At : option Z;
  fv_RefreshAt : option Z;
  fv_Total : Z;
  fv_Applied : Z;
  fv_Behind : list string;
  fv_Silent : list string;
  fv_Refusing : list string }.

(** The zero value an error is returned with. *)
Definition no_view : FleetView := mkFleetView None None 0 0 [] [] [].

Definition ProbeInterval : Z := 10 * Second.

Section probe.
(** [json.Unmarshal] into a report. *)
Context (unmarshal_report : string -> option Report).

Definition report_limit : nat := Z.to_nat (2 ^ 20).

Definition ask (r : http_reply) : option Report :=
  match r with
  | HttpReply 200 body => unmarshal_report (take_str report_limit body)
  | _ => None
  end.

(** The loop over the endpoints and their answers. *)
Fixpoint round_loop (es : list endpoint) (replies : list http_reply) (answers : gmap endpoint Report) (silent : list string)
    : gmap endpoint Report * list string :=
  match es, replies with
  | e :: es, r :: replies =>
      match ask r with
      | None => round_loop es replies answers (silent ++ [en_name e])
      | Some report => round_loop es replies (<[e := report]> answers) silent
      end
  | e :: es, [] => round_loop es [] answers (silent ++ [en_name e])
  | [], _ => (answers, silent)
  end.

Definition takeRound (now completed : Z) (es : list endpoint) (replies : list http_reply) : fleetRound :=
  let '(answers, silent) := round_loop es replies ∅ [] in
  let err := if (0 <? length es)%nat && (length silent =? length es)%nat then Some ErrNoReplicaAnswered else None in
  mkFleetRound now completed es answers (sort_strings silent) err.

(** [currentRound], and the round the probe holds afterwards, which is the one
    it answers from. [listed] is the list of the slices, [None] when it could
    not be read. *)
Definition currentRound (freshness now completed : Z) (listed : option (list EndpointSlice)) (replies : list http_reply)
    (fresh : bool) (held : option fleetRound) : fleetRound :=
  match listed with
  | None => mkFleetRound now now [] ∅ [] (Some ErrList)
  | Some items =>
      let es := endpoints items in
      match held with
      | Some round =>
          if negb fresh && (now - fr_completed round <? freshness) && bool_decide (es = fr_endpoints round) then round
          else takeRound now completed es replies
      | None => takeRound now completed es replies
      end
  end.

(** The loop of [view]. *)
Fixpoint view_loop (domain : string) (generation : Z) (uid : string) (answers : gmap endpoint Report) (es : list endpoint)
    (applied : Z) (behind refusing : list string) : Z * list string * list string :=
  match es with
  | [] => (applied, behind, refusing)
  | e :: es =>
      match answers !! e with
      | None => view_loop domain generation uid answers es applied behind refusing
      | Some report =>
          let refusing := match re_Refusal report with Some _ => refusing ++ [en_name e] | None => refusing end in
          if match re_Domains report !! domain with
             | Some d => (ad_Generation d =? generation) && bool_decide (ad_UID d = uid)
             | None => false
             end
          then view_loop domain generation uid answers es (i32 (applied + 1)) behind refusing
          else view_loop domain generation uid answers es applied (behind ++ [en_name e]) refusing
      end
  end.

Definition view (r : fleetRound) (domain : string) (generation : Z) (uid : string) (freshness : Z) : FleetView :=
  let refreshAt := if freshness >? 0 then fr_completed r + freshness else fr_taken r + ProbeInterval in
  let '(applied, behind, refusing) := view_loop domain generation uid (fr_answers r) (fr_endpoints r) 0 [] [] in
  mkFleetView (Some (fr_taken r)) (Some refreshAt) (i32 (Z.of_nat (length (fr_endpoints r)))) applied
    (sort_strings behind) (fr_silent r) (sort_strings refusing).

Definition Observe (freshness now completed : Z) (listed : option (list EndpointSlice)) (replies : list http_reply)
    (domain : string) (generation : Z) (uid : string) (fresh : bool) (held : option fleetRound)
    : result probe_error FleetView * option fleetRound :=
  let round := currentRound freshness now completed listed replies fresh held in
  (match fr_err round with
   | Some e => Err e
   | None => Ok (view round domain generation uid freshness)
   end, Some round).

End probe.
