(* ===== verification/Status.v ===== *)
(** * operator/internal/controller/status.go: the conditions of a policy

    What a compilation and a look at the fleet say about a policy object. The
    helpers of apimachinery that find and set a condition are an interface with
    their documented behaviour; [fmt.Sprintf] of a compiler's message, which
    quotes, is a parameter too, and [%d] and [%s] are written out. Instants and
    durations are nanoseconds. *)
From S2P Require Import Prelude GoStrings Algo Compile Identity Convert OpPolicy Selector Manifest ConfigStore SvcConfig Sanitize Fleet.

(** ** Definitions *)

(** *** Names of api/v1 *)

Definition ConditionAccepted : string := "Accepted".
Definition ConditionReady : string := "Ready".
Definition ConditionStalled : string := "Stalled".

Definition ConditionTrue : string := "True".
Definition ConditionFalse : string := "False".
Definition ConditionUnknown : string := "Unknown".

Definition ReasonRulesCompiled : string := "RulesCompiled".
Definition ReasonCompilationFailed : string := "CompilationFailed".
Definition ReasonAllReplicas : string := "AllReplicas".
Definition ReasonReconciling : string := "Reconciling".
Definition ReasonPropagating : string := "Propagating".
Definition ReasonNoReplicas : string := "NoReplicas".
Definition ReasonReplicaStale : string := "ReplicaStale".
Definition ReasonNotCompiled : string := "NotCompiled".
Definition ReasonProbeFailed : string := "ProbeFailed".
Definition ReasonConfigMapTooLarge : string := "ConfigMapTooLarge".
Definition ReasonReplicaFormatUnsupported : string := "ReplicaFormatUnsupported".
Definition ReasonProgressing : string := "Progressing".

Definition BlockingProblem (reason : string) : bool :=
  negb (bool_decide (reason = "CaptureShadowsMappedKey")) && negb (bool_decide (reason = "CostExceedsCapacity")).

Definition MaxRuleProblems : nat := 64.
Definition MaxRuleProblemMessage : nat := 1024.

(** *** The status of an object *)

Record Condition := mkCondition {
  cd_Type : string;
  cd_Status : string;
  cd_Reason : string;
  cd_Message : string;
  cd_ObservedGeneration : Z;
  cd_LastTransitionTime : Z }.

#[export] Instance Condition_eq_dec : EqDecision Condition.
Proof. solve_decision. Defined.

(** A problem with its message rendered. *)
Record StatusProblem := mkStatusProblem { sp_Block : string; sp_Rule : string; sp_Reason : string; sp_Message : string }.
#[export] Instance StatusProblem_eq_dec : EqDecision StatusProblem.
Proof. solve_decision. Defined.

Record ReplicaStatus := mkReplicaStatus {
  rp_Total : Z;
  rp_Applied : Z;
  rp_Summary : string;
  rp_LastCheckTime : option Z }.
#[export] Instance ReplicaStatus_eq_dec : EqDecision ReplicaStatus.
Proof. solve_decision. Defined.

Record PolicyStatus := mkPolicyStatus {
  st_ObservedGeneration : Z;
  st_ActiveGeneration : Z;
  st_EffectiveKeys : list string;
  st_Replicas : ReplicaStatus;
  st_Conditions : list Condition;
  st_Rules : Z;
  st_Problems : Z;
  st_RuleProblems : list StatusProblem }.
#[export] Instance PolicyStatus_eq_dec : EqDecision PolicyStatus.
Proof. solve_decision. Defined.

Definition no_status : PolicyStatus := mkPolicyStatus 0 0 [] (mkReplicaStatus 0 0 "" None) [] 0 0 [].

(** *** The condition helpers of apimachinery *)

Definition with_time (t : Z) (c : Condition) : Condition :=
  mkCondition (cd_Type c) (cd_Status c) (cd_Reason c) (cd_Message c) (cd_ObservedGeneration c) t.

(** [meta.FindStatusCondition], a write of the time through the pointer it
    returns, and [meta.SetStatusCondition] at an instant of the wall clock, of
    a condition that carries no time of its own. *)
Class ConditionList := {
  FindStatusCondition : list Condition -> string -> option Condition;
  stamp : string -> Z -> list Condition -> list Condition;
  SetStatusCondition : Z -> Condition -> list Condition -> list Condition
}.

Class ConditionListLaws `{ConditionList} := {
  find_type : forall cs t c, FindStatusCondition cs t = Some c -> cd_Type c = t;
  find_none : forall t, FindStatusCondition [] t = None;
  find_stamp : forall cs t t' now,
    FindStatusCondition (stamp t now cs) t' =
      if bool_decide (t = t') then with_time now <$> FindStatusCondition cs t else FindStatusCondition cs t';
  (** every field is the new one's; the time moves with the status *)
  find_set : forall cs c wall,
    FindStatusCondition (SetStatusCondition wall c cs) (cd_Type c) =
      Some (with_time (match FindStatusCondition cs (cd_Type c) with
                       | Some e => if bool_decide (cd_Status e = cd_Status c) then cd_LastTransitionTime e else wall
                       | None => wall
                       end) c);
  find_set_other : forall cs c wall t, t <> cd_Type c ->
    FindStatusCondition (SetStatusCondition wall c cs) t = FindStatusCondition cs t;
  (** setting what is there changes nothing *)
  set_same : forall cs c wall, FindStatusCondition cs (cd_Type c) = Some c -> SetStatusCondition wall c cs = cs;
  set_time_ignored : forall cs c wall t, SetStatusCondition wall (with_time t c) cs = SetStatusCondition wall c cs;
  (** times play no part in finding *)
  find_retimed : forall (f : Z -> Z) cs t,
    FindStatusCondition ((fun c => with_time (f (cd_LastTransitionTime c)) c) <$> cs) t =
      (fun c => with_time (f (cd_LastTransitionTime c)) c) <$> FindStatusCondition cs t
}.

(** *** Messages *)

(** [fmt.Sprintf] of a message with its arguments, and the text of a probe's
    error. *)
Class Texts := {
  Sprintf : Message -> string;
  probe_text : probe_error -> string
}.

Definition d_ (n : Z) : string := pretty n.
Definition plural (n : Z) (word : string) : string := if n =? 1 then word else word +:+ "s".

(** [strings.Join(l, ", ")] *)
Fixpoint join_comma (l : list string) : string :=
  match l with
  | [] => ""
  | [x] => x
  | x :: l => x +:+ ", " +:+ join_comma l
  end.

Definition maxMessageLength : nat := 32768.

Definition truncateMessage (message : string) : string :=
  if (String.length message <=? maxMessageLength)%nat then message
  else take_str (maxMessageLength - 3) message +:+ "...".

Definition truncateRunes (message : string) (limit : nat) : string :=
  let rs := runes (String.list_ascii_of_string message) in
  if (length rs <=? limit)%nat then message
  else String.string_of_list_ascii (concat (rune_bytes <$> firstn (limit - 3) rs)) +:+ "...".

Section messages.
Context {TX : Texts}.

(** The texts of operator/internal/policy/compile.go. *)
Definition err_text (e : PolicyError) : string :=
  match e with
  | ErrNameMismatch name domain =>
      Sprintf (mkMsg "metadata.name %q does not equal spec.domain %q" [AStr name; AStr domain])
  | ErrSkew n =>
      d_ (Z.of_nat n) +:+ " " +:+ plural (Z.of_nat n) "field" +:+ " this schema does not define (" +:+ ProblemInvalidSpec +:+ ")"
  | ErrBlocking n reasons =>
      d_ (Z.of_nat n) +:+ " blocking " +:+ plural (Z.of_nat n) "problem" +:+ " (" +:+ join_comma reasons +:+ ")"
  end.

Definition lost_text (l : Lost) : string :=
  match l with
  | LostPruned g => "last-good generation " +:+ d_ g +:+ " was saved from a read that did not carry every field"
  | LostNotCompiling g e =>
      "last-good generation " +:+ d_ g +:+ " does not compile with this operator build: " +:+ err_text e
  end.

Definition too_large_text (t : TooLargeReason) : string :=
  "the namespace's configuration would be " +:+ d_ t.1 +:+ " bytes compressed, over the limit of " +:+ d_ t.2.

Definition ErrNoGeneration : string := "no generation is enforced: domain is unprotected".

Definition unprotectedMessage (message : string) (o : Outcome) : string :=
  match oc_LastGoodLost o with
  | None => message
  | Some l => message +:+ "; " +:+ lost_text l
  end.

Definition notCompiledMessage (o : Outcome) : string :=
  if oc_ActiveGeneration o =? 0 then unprotectedMessage ErrNoGeneration o
  else "generation " +:+ d_ (oc_Generation o) +:+ " does not compile; generation " +:+ d_ (oc_ActiveGeneration o)
       +:+ " remains enforced".

Definition tooLargeMessage (o : Outcome) (t : TooLargeReason) : string :=
  if oc_ActiveGeneration o =? 0 then
    unprotectedMessage ("generation " +:+ d_ (oc_Generation o)
      +:+ " does not fit the namespace's ConfigMap and nothing is enforced: " +:+ too_large_text t) o
  else "generation " +:+ d_ (oc_Generation o) +:+ " does not fit the namespace's ConfigMap; generation "
       +:+ d_ (oc_ActiveGeneration o) +:+ " keeps serving: " +:+ too_large_text t.

Definition someOf (names : list string) : string :=
  match names with
  | [] => ""
  | _ => if (length names <=? 3)%nat then join_comma names
         else join_comma (firstn 3 names) +:+ " and " +:+ d_ (Z.of_nat (length names) - 3) +:+ " more"
  end.

Definition refusingMessage (o : Outcome) (v : FleetView) : string :=
  d_ (fv_Applied v) +:+ " of " +:+ d_ (fv_Total v) +:+ " ready replicas enforce generation " +:+ d_ (oc_ActiveGeneration o)
  +:+ "; " +:+ someOf (fv_Refusing v)
  +:+ " refused the manifest's format and keep an earlier snapshot: upgrade the service before the operator".

Definition behindMessage (o : Outcome) (v : FleetView) : string :=
  let message := d_ (fv_Applied v) +:+ " of " +:+ d_ (fv_Total v) +:+ " replicas enforce generation "
                 +:+ d_ (oc_ActiveGeneration o) in
  let message := if bool_decide (someOf (fv_Behind v) = "") then message
                 else message +:+ "; " +:+ someOf (fv_Behind v) +:+ " report another" in
  if bool_decide (someOf (fv_Silent v) = "") then message
  else message +:+ "; " +:+ someOf (fv_Silent v) +:+ " did not answer".

(** *** The judgement *)

Definition DefaultPropagationDeadline : Z := 90 * Second.

Record fleetStatus := mkFleetStatus {
  fs_ready : string;
  fs_readyReason : string;
  fs_readyMessage : string;
  fs_stalled : string;
  fs_stalledReason : string }.

Definition stuck (reason message : string) : fleetStatus := mkFleetStatus ConditionFalse reason message ConditionTrue reason.
Definition progressing (ready reason message : string) : fleetStatus :=
  mkFleetStatus ready reason message ConditionFalse ReasonProgressing.

(** A probe's error leaves the view at its zero. *)
Definition judge (o : Outcome) (v : FleetView) (probeErr : option probe_error) (since deadline : Z) : fleetStatus :=
  let deadline := if deadline <=? 0 then DefaultPropagationDeadline else deadline in
  if negb (Compiled o) then stuck ReasonNotCompiled (notCompiledMessage o)
  else match oc_TooLarge o with
  | Some t => stuck ReasonConfigMapTooLarge (tooLargeMessage o t)
  | None =>
      match probeErr with
      | Some e =>
          mkFleetStatus ConditionUnknown ReasonProbeFailed ("the replicas could not be observed: " +:+ probe_text e)
            ConditionUnknown ReasonProbeFailed
      | None =>
          if fv_Total v =? 0 then
            progressing ConditionFalse ReasonNoReplicas "the service has no ready endpoint: nothing is enforcing this policy"
          else if fv_Applied v =? fv_Total v then
            progressing ConditionTrue ReasonAllReplicas
              ("all " +:+ d_ (fv_Total v) +:+ " ready replicas enforce generation " +:+ d_ (oc_ActiveGeneration o))
          else if (0 <? length (fv_Refusing v))%nat then stuck ReasonReplicaFormatUnsupported (refusingMessage o v)
          else if deadline <? since then stuck ReasonReplicaStale (behindMessage o v)
          else if fv_Applied v =? 0 then progressing ConditionFalse ReasonReconciling (behindMessage o v)
          else progressing ConditionFalse ReasonPropagating (behindMessage o v)
      end
  end.

(** *** The propagation clock *)

Definition propagationReasons (reason : string) : bool :=
  bool_decide (reason = ReasonReconciling) || bool_decide (reason = ReasonPropagating)
  || bool_decide (reason = ReasonReplicaStale).

Context {CL : ConditionList}.

Definition readyAge (conditions : list Condition) (generation now : Z) : Z :=
  match FindStatusCondition conditions ConditionReady with
  | None => 0
  | Some c =>
      if negb (cd_ObservedGeneration c =? generation) then 0
      else if negb (propagationReasons (cd_Reason c)) then 0
      else now - cd_LastTransitionTime c
  end.

Definition restartsPropagationClock (existing : Condition) (reason : string) (generation : Z) : bool :=
  negb (cd_ObservedGeneration existing =? generation)
  || negb (propagationReasons (cd_Reason existing)) && propagationReasons reason.

Definition setCondition (wall : Z) (type status reason message : string) (generation : Z) (conditions : list Condition)
    : list Condition :=
  SetStatusCondition wall (mkCondition type status reason (truncateMessage message) generation 0) conditions.

Definition setReadyCondition (wall now : Z) (status reason message : string) (generation : Z) (conditions : list Condition)
    : list Condition :=
  let conditions :=
    match FindStatusCondition conditions ConditionReady with
    | Some existing => if restartsPropagationClock existing reason generation then stamp ConditionReady now conditions
                       else conditions
    | None => conditions
    end in
  setCondition wall ConditionReady status reason message generation conditions.

(** *** Accepted *)

Definition setAccepted (wall : Z) (o : Outcome) (generation : Z) (conditions : list Condition) : list Condition :=
  match oc_Err o with
  | None =>
      setCondition wall ConditionAccepted ConditionTrue ReasonRulesCompiled
        ("generation " +:+ d_ (oc_Generation o) +:+ " compiles: " +:+ d_ (Z.of_nat (oc_Blocks o)) +:+ " blocks, "
         +:+ d_ (Z.of_nat (oc_Rules o)) +:+ " rules") generation conditions
  | Some e =>
      setCondition wall ConditionAccepted ConditionFalse ReasonCompilationFailed
        ("generation " +:+ d_ (oc_Generation o) +:+ " does not compile: " +:+ err_text e) generation conditions
  end.

Definition turnedNotCompiled (before : list Condition) (generation : Z) : bool :=
  match FindStatusCondition before ConditionAccepted with
  | None => true
  | Some previous =>
      negb (bool_decide (cd_Status previous = ConditionFalse)) || negb (cd_ObservedGeneration previous =? generation)
  end.

(** *** Problems *)

Definition rendered (p : RuleProblem) : StatusProblem :=
  mkStatusProblem (rp_Block p) (OpPolicy.rp_Rule p) (rp_Reason p) (Sprintf (rp_Message p)).

Definition truncated (p : StatusProblem) : StatusProblem :=
  mkStatusProblem (sp_Block p) (sp_Rule p) (sp_Reason p) (truncateRunes (sp_Message p) MaxRuleProblemMessage).

Definition boundedProblems (problems : list StatusProblem) : list StatusProblem :=
  let out :=
    if (MaxRuleProblems <? length problems)%nat then
      firstn MaxRuleProblems (filter (fun p => BlockingProblem (sp_Reason p) = true) problems
                              ++ filter (fun p => BlockingProblem (sp_Reason p) = false) problems)
    else problems in
  truncated <$> out.

End messages.

(** *** compile *)

(** The compilation of the namespace against its last-good state, as the
    configuration writer's. [policies] is what the objects could be read as,
    [state] the persisted bundles when there is a state to read: [None] without
    one. The outer [None] is a panic. *)
Definition compile_namespace `{Codec} (policies : option Input) (state : option (string * (list string -> option (gmap string Bundle))))
    (limit : Z) : option (option Result) :=
  match policies with
  | None => Some None
  | Some inp =>
      let loaded :=
        match state with
        | None => Some inp
        | Some (version, load) =>
            (fun bundles => mkInput (in_Namespace inp) (in_Policies inp) (in_Skew inp) bundles version)
              <$> load (Domains inp)
        end in
      match loaded with
      | None => Some None
      | Some inp => r ← policy_Compile inp; Some <$> Fit inp r limit
      end
  end.
