(* ===== verification/Metrics.v ===== *)
(** * internal/metrics: the series of a scrape

    What the operator and the applier publish, what a scrape renders of it,
    and the pruning of series whose labels left the rule set. A vector is the
    set of its live series by their labels; their values play no part in
    pruning. The mutexes are the atomicity of each call. Of the publishing
    functions the maps and pointers are the state, passed along. *)
From S2P Require Import Prelude GoStrings Algo Key StoreApi Model Compile CompileFacts Match Identity Convert OpPolicy RuleView Manifest ConfigStore.
From S2P Require Import SvcConfig TokenCache Engine Sanitize Sampler Rls.

(** ** Definitions *)

(** *** fleet.go *)

Record FleetSample := mkFleetSample {
  sm_Applied : Z;
  sm_Total : Z;
  sm_Stalled : bool;
  sm_Reason : string;
  sm_Observed : bool }.

Definition fleet_samples : Type := gmap string FleetSample.

Definition PublishFleet (domain : string) (s : FleetSample) (m : fleet_samples) : fleet_samples := <[domain := s]> m.
Definition PublishedFleet (domain : string) (m : fleet_samples) : option FleetSample := m !! domain.
Definition DropFleet (domain : string) (m : fleet_samples) : fleet_samples := delete domain m.

Definition ReplicasApplied : string := "applied".
Definition ReplicasTotal : string := "total".

(** A series of a scrape: its name, its label values and its value. *)
Definition series : Type := string * list string * Z.
Definition boolValue (b : bool) : Z := if b then 1 else 0.

Definition fleet_series (domain : string) (s : FleetSample) : list series :=
  ("ratelimit_policy_stalled", [domain; sm_Reason s], boolValue (sm_Stalled s)) ::
  if negb (sm_Observed s) then []
  else [("ratelimit_policy_replicas", [domain; ReplicasApplied], sm_Applied s);
        ("ratelimit_policy_replicas", [domain; ReplicasTotal], sm_Total s)].

(** [fleetCollector.Collect]; Go visits the map in no fixed order. *)
Definition collect_fleet (leader : bool) (m : fleet_samples) : list series :=
  ("ratelimit_leader", [], boolValue leader) :: flat_map (fun ds => fleet_series ds.1 ds.2) (map_to_list m).

(** *** state.go *)

Record DomainView := mkDomainView {
  dv_Domain : string;
  dv_Blocks : Z;
  dv_Rules : Z;
  dv_DecisionBuckets : Z;
  dv_AppliedGeneration : Z }.

Record PolicyView := mkPolicyView {
  pv_Domain : string;
  pv_Ready : bool;
  pv_Reason : string;
  pv_Enforced : bool;
  pv_GenerationLag : Z;
  pv_BlockingProblems : Z;
  pv_InfoProblems : Z }.

Definition SeverityBlocking : string := "blocking".
Definition SeverityInfo : string := "info".

Definition policy_views : Type := gmap string PolicyView.

Definition PublishPolicy (v : PolicyView) (m : policy_views) : policy_views := <[pv_Domain v := v]> m.
Definition DropPolicy (domain : string) (m : policy_views) : policy_views := delete domain m.
Definition publishedPolicies (m : policy_views) : list PolicyView := (map_to_list m).*2.

Definition domain_series (d : DomainView) : list series :=
  [("ratelimit_domain_blocks", [dv_Domain d], dv_Blocks d);
   ("ratelimit_domain_rules", [dv_Domain d], dv_Rules d);
   ("ratelimit_domain_decision_buckets", [dv_Domain d], dv_DecisionBuckets d);
   ("ratelimit_policy_applied_generation", [dv_Domain d], dv_AppliedGeneration d)].

Definition policy_series (p : PolicyView) : list series :=
  [("ratelimit_policy_ready", [pv_Domain p; pv_Reason p], boolValue (pv_Ready p));
   ("ratelimit_policy_enforced", [pv_Domain p], boolValue (pv_Enforced p));
   ("ratelimit_policy_generation_lag", [pv_Domain p], pv_GenerationLag p);
   ("ratelimit_policy_rule_problems", [pv_Domain p; SeverityBlocking], pv_BlockingProblems p);
   ("ratelimit_policy_rule_problems", [pv_Domain p; SeverityInfo], pv_InfoProblems p)].

(** [stateCollector.Collect]; the view is absent until the first apply. *)
Definition collect_state (view : option (list DomainView)) (m : policy_views) : list series :=
  flat_map domain_series (default [] view) ++ flat_map policy_series (publishedPolicies m).

(** *** snapshot.go *)

Record ActiveSet := mkActiveSet {
  as_Domains : gset string;
  as_Rules : gset string;
  as_Keys : gmap string (gset string) }.

Definition snapshot_rules (s : Snapshot) : list string :=
  flat_map (fun b => (fun r => RuleID (bl_Name b) (ru_Name r)) <$> bl_Rules b) (s_Blocks s).

Definition ActiveSetOf (snapshots : gmap string Snapshot) : ActiveSet :=
  mkActiveSet (dom snapshots)
    (list_to_set (flat_map (fun ds => snapshot_rules ds.2) (map_to_list snapshots)))
    ((fun s => list_to_set (s_EffectiveKeys s)) <$> snapshots).

Definition ExtractionKeysOf (snapshots : gmap string Snapshot) : gmap string (list string) :=
  (fun s => ke_Key <$> s_Extraction s) <$> snapshots.

(** *** prune.go *)

(** A vector of series, by their label values in order. *)
Definition vec : Type := gset (list string).

(** The vectors the pruner sweeps: those by domain alone or with labels that
    play no part, those by domain and rule, and those by domain and key. *)
Record vectors := mkVectors { vs_domain : vec; vs_rule : vec; vs_key : vec }.

Definition label (i : nat) (labels : list string) : string := default "" (labels !! i).

Definition domainAlive (active : ActiveSet) (labels : list string) : bool :=
  let domain := label 0 labels in
  bool_decide (domain = UnknownDomain) || bool_decide (domain ∈ as_Domains active).

Definition ruleAlive (active : ActiveSet) (labels : list string) : bool :=
  if negb (domainAlive active labels) then false else bool_decide (label 1 labels ∈ as_Rules active).

Definition keyAlive (active : ActiveSet) (labels : list string) : bool :=
  match as_Keys active !! label 0 labels with
  | None => false
  | Some keys => bool_decide (label 1 labels ∈ keys)
  end.

(** [pruneVec]: the series the predicate rejects, deleted one by one. *)
Definition pruneVec (keep : list string -> bool) (v : vec) : vec :=
  foldr (fun labels v => v ∖ {[labels]}) v (filter (fun labels => keep labels = false) (elements v)).

Definition sweep_vectors (active : option ActiveSet) (v : vectors) : vectors :=
  match active with
  | None => v
  | Some a => mkVectors (pruneVec (domainAlive a) (vs_domain v)) (pruneVec (ruleAlive a) (vs_rule v))
                (pruneVec (keyAlive a) (vs_key v))
  end.

(** The published set and the vectors. *)
Record pruner := mkPruner { pr_active : option ActiveSet; pr_vectors : vectors }.

Definition PruneStale (active : ActiveSet) (p : pruner) : pruner :=
  mkPruner (Some active) (sweep_vectors (Some active) (pr_vectors p)).

(** The delayed pass. *)
Definition pruneOnce (p : pruner) : pruner := mkPruner (pr_active p) (sweep_vectors (pr_active p) (pr_vectors p)).

(** *** store.go *)

(** What the library says of a store error: the sentinels in its chain and
    whether it is a network timeout or an error the server answered. *)
Record StoreFailure := mkStoreFailure {
  fl_DeadlineExceeded : bool;
  fl_Canceled : bool;
  fl_NetTimeout : bool;
  fl_PoolTimeout : bool;
  fl_Answered : bool }.

Definition storeErrorReason (e : StoreFailure) : string :=
  if fl_DeadlineExceeded e || fl_Canceled e || fl_NetTimeout e || fl_PoolTimeout e then "timeout"
  else if fl_Answered e then "server" else "other".

(** The observations of one domain: how many roundtrips, and the errors by
    their reason. *)
Record store_series := mkStoreSeries { ss_Roundtrips : nat; ss_Errors : gmap string nat }.

(** [instrumentedStore.Decide] around the Decide of the store it wraps. *)
Definition instrumented_Decide {S} (next : list Bucket -> S -> S * result StoreFailure (list Verdict))
    (bs : list Bucket) (s : S * store_series) : (S * store_series) * result StoreFailure (list Verdict) :=
  let '(store, r) := next bs s.1 in
  let errors :=
    match r with
    | Ok _ => ss_Errors s.2
    | Err e => <[storeErrorReason e := Datatypes.S (default 0%nat (ss_Errors s.2 !! storeErrorReason e))]> (ss_Errors s.2)
    end in
  ((store, mkStoreSeries (Datatypes.S (ss_Roundtrips s.2)) errors), r).

(** * What pruning leaves of the series *)

(** ** Lemmas *)

Lemma pruneVec_spec keep v labels : labels ∈ pruneVec keep v <-> labels ∈ v /\ keep labels = true.
Proof.
  unfold pruneVec. assert (forall dead, labels ∈ foldr (fun l v => v ∖ {[l]}) v dead <-> labels ∈ v /\ labels ∉ dead) as H.
  { induction dead as [|l dead IH]; cbn [foldr]; set_solver. }
  rewrite H, list_elem_of_filter, elem_of_elements. destruct (keep labels); naive_solver.
Qed.

Lemma elem_of_snapshot_rules snapshots rule :
  rule ∈ as_Rules (ActiveSetOf snapshots) <-> exists d s, snapshots !! d = Some s /\ rule ∈ snapshot_rules s.
Proof.
  unfold ActiveSetOf. cbn [as_Rules]. rewrite elem_of_list_to_set, list_elem_of_In, in_flat_map. split.
  - intros ([d s] & Hin & Hr). apply list_elem_of_In, elem_of_map_to_list in Hin. apply list_elem_of_In in Hr. by exists d, s.
  - intros (d & s & Hd & Hr). exists (d, s). split; apply list_elem_of_In; [by apply elem_of_map_to_list|done].
Qed.

(** ** Claims *)

(** Series created by checks of the retiring engine between the two passes are
    gone after the second, and nothing else is: a series by domain stays iff
    its domain is served (or the placeholder of domains never served), one by
    domain and key iff the domain's own snapshot reports the key, and one by
    domain and rule iff its domain is served and some served domain has the
    rule. *)
Theorem prune_exact (snapshots : gmap string Snapshot) (p : pruner) (late : vectors) :
  let p1 := PruneStale (ActiveSetOf snapshots) p in
  let add f := f (pr_vectors p1) ∪ f late in
  let p2 := pruneOnce (mkPruner (pr_active p1) (mkVectors (add vs_domain) (add vs_rule) (add vs_key))) in
  let seen f labels := labels ∈ f (pr_vectors p) \/ labels ∈ f late in
  let served d := d = UnknownDomain \/ is_Some (snapshots !! d) in
  (forall ls, ls ∈ vs_domain (pr_vectors p2) <-> seen vs_domain ls /\ served (label 0 ls)) /\
  (forall ls, ls ∈ vs_rule (pr_vectors p2) <->
     seen vs_rule ls /\ served (label 0 ls) /\ exists d s, snapshots !! d = Some s /\ label 1 ls ∈ snapshot_rules s) /\
  (forall ls, ls ∈ vs_key (pr_vectors p2) <->
     seen vs_key ls /\ exists s, snapshots !! label 0 ls = Some s /\ label 1 ls ∈ s_EffectiveKeys s).
Proof.
  assert (forall ls, domainAlive (ActiveSetOf snapshots) ls = true <-> label 0 ls = UnknownDomain \/ is_Some (snapshots !! label 0 ls)) as Hd.
  { intros ls. unfold domainAlive. rewrite orb_true_iff, !bool_decide_eq_true. unfold ActiveSetOf. cbn [as_Domains]. by rewrite elem_of_dom. }
  cbn [PruneStale pruneOnce sweep_vectors pr_vectors pr_active vs_domain vs_rule vs_key]. split_and!; intros ls;
    rewrite pruneVec_spec, elem_of_union, pruneVec_spec.
  - rewrite Hd. tauto.
  - assert (ruleAlive (ActiveSetOf snapshots) ls = true <-> (label 0 ls = UnknownDomain \/ is_Some (snapshots !! label 0 ls)) /\
      exists d s, snapshots !! d = Some s /\ label 1 ls ∈ snapshot_rules s) as Hr.
    { unfold ruleAlive. rewrite <- Hd, <- elem_of_snapshot_rules. destruct (domainAlive _ _); cbn [negb]; [|naive_solver].
      rewrite bool_decide_eq_true. tauto. }
    rewrite Hr. tauto.
  - assert (keyAlive (ActiveSetOf snapshots) ls = true <->
      exists s, snapshots !! label 0 ls = Some s /\ label 1 ls ∈ s_EffectiveKeys s) as Hk.
    { unfold keyAlive, ActiveSetOf. cbn [as_Keys]. rewrite lookup_fmap. destruct (snapshots !! _) as [s|]; cbn [fmap option_fmap option_map].
      - rewrite bool_decide_eq_true, elem_of_list_to_set. naive_solver.
      - naive_solver. }
    rewrite Hk. tauto.
Qed.

(** A snapshot of one block with the rules named. *)
Definition rules_snapshot (domain : string) (rules : list string) : Snapshot :=
  mkSnapshot domain [] [mkBlock "b" "" [] [] ((fun n => mkRule n "" [] [] [] []) <$> rules)] [] 0.

(** A rule dropped from one domain keeps its series there as long as another
    domain has a rule of the same block and name, which the set of keys is
    kept per domain to avoid: both passes leave the series of domain [a]'s
    removed rule. *)
Theorem dropped_rule_outlives_prune :
  let snapshots := <["a" := rules_snapshot "a" ["kept"]]> {["b" := rules_snapshot "b" ["kept"; "dropped"]]} in
  let p := mkPruner None (mkVectors ∅ {[["a"; "b/dropped"]]} ∅) in
  "b/dropped" ∉ snapshot_rules (rules_snapshot "a" ["kept"]) /\
  ["a"; "b/dropped"] ∈ vs_rule (pr_vectors (pruneOnce (PruneStale (ActiveSetOf snapshots) p))).
Proof. split; [by vm_compute; set_solver|]. apply (bool_decide_eq_true_1 _). by vm_compute. Qed.

(** ** The instrumented store *)

(** Calls of a store in order, and what they answer. *)
Fixpoint decide_all {S} (decide : list Bucket -> S -> S * result StoreFailure (list Verdict)) (calls : list (list Bucket)) (s : S)
    : S * list (result StoreFailure (list Verdict)) :=
  match calls with
  | [] => (s, [])
  | bs :: calls => let '(s, r) := decide bs s in let '(s, rs) := decide_all decide calls s in (s, r :: rs)
  end.

(** The failures of the answers with a reason. *)
Definition failures (reason : string) (rs : list (result StoreFailure (list Verdict))) : nat :=
  length (filter (fun r => (match r with Err e => Some (storeErrorReason e) | Ok _ => None end) = Some reason) rs).

(** The metrics change nothing the engine sees and count everything it does:
    over any calls the wrapped store answers and ends as the bare one, every
    call is observed once, and every failure is counted once, under its
    reason. *)
Theorem instrumented_store_transparent {S} (next : list Bucket -> S -> S * result StoreFailure (list Verdict)) calls s m :
  let '((s', m'), rs) := decide_all (instrumented_Decide next) calls (s, m) in
  (s', rs) = decide_all next calls s /\ ss_Roundtrips m' = (ss_Roundtrips m + length calls)%nat /\
  forall reason, default 0%nat (ss_Errors m' !! reason) = (default 0%nat (ss_Errors m !! reason) + failures reason rs)%nat.
Proof.
  revert s m. induction calls as [|bs calls IH]; intros s m; cbn [decide_all].
  { split_and!; [done|cbn; lia|]. intros reason. unfold failures. cbn. lia. }
  unfold instrumented_Decide at 1. cbn [fst snd]. destruct (next bs s) as [s1 r]. set (m1 := mkStoreSeries _ _).
  specialize (IH s1 m1). destruct (decide_all (instrumented_Decide next) calls (s1, m1)) as [[s' m'] rs].
  destruct IH as (He & Hr & Hf). destruct (decide_all next calls s1) as [s2 rs2]. injection He as -> ->.
  split_and!; [done|rewrite Hr; cbn; lia|]. intros reason. rewrite Hf. unfold failures, m1. cbn [ss_Errors]. rewrite filter_cons.
  destruct r as [vs|e]; [by rewrite decide_False|].
  destruct (decide (storeErrorReason e = reason)) as [<-|Hne].
  - rewrite lookup_insert_eq, decide_True by done. cbn. lia.
  - rewrite lookup_insert_ne, decide_False by congruence. done.
Qed.

(** * The series of the configuration

    metrics.go: what the writer of the ConfigMap and the applier record, the
    registration of collectors and the seeding of the extraction series. *)

(** ** Definitions *)

(** *** The writer's series *)

Definition ConfigErrorSize : string := "size".
Definition ConfigErrorAPI : string := "api".
Definition ConfigErrorRead : string := "read".
Definition ConfigErrorOther : string := "other".
Definition configErrorReasons : list string := [ConfigErrorSize; ConfigErrorAPI; ConfigErrorRead; ConfigErrorOther].

(** ConfigWriteErrors and ConfigWriteFailing by their reason. *)
Record config_series := mkConfigSeries { cw_errors : gmap string nat; cw_failing : gmap string Z }.

Definition RecordConfigWrite (reason : string) (w : config_series) : config_series :=
  if bool_decide (reason = "")
  then foldl (fun w r => mkConfigSeries (cw_errors w) (<[r := 0]> (cw_failing w))) w configErrorReasons
  else mkConfigSeries (<[reason := S (default 0%nat (cw_errors w !! reason))]> (cw_errors w)) (<[reason := 1]> (cw_failing w)).

(** The series [RegisterOperator] creates. *)
Definition RegisterOperator_series (w : config_series) : config_series :=
  foldl (fun w r => mkConfigSeries (<[r := default 0%nat (cw_errors w !! r)]> (cw_errors w)) (<[r := 0]> (cw_failing w)))
    w configErrorReasons.

(** reconciler.go: the reason of a failed write; [answered] is whether the
    error is an answer of the API server. *)
Definition writeErrorReason (answered : bool) (e : ConfigStore.StoreFailure) : string :=
  match e with
  | FailTooLarge _ _ => ConfigErrorSize
  | FailEncode => ConfigErrorOther
  | FailRead | FailCreate | FailUpdate => if answered then ConfigErrorAPI else ConfigErrorOther
  end.

(** What a pass of the reconciler records. *)
Definition Reconcile_recorded `{Platform, Wire} (s : ConfigStore) (Limit : Z) (policies : option Input) (load_fails : bool) (f : faults)
    (answered : bool) (object : option ConfigMap) : option string :=
  match policies with
  | None => Some ConfigErrorRead
  | Some inp =>
      match Load load_fails object (Domains inp) with
      | Err _ => Some ConfigErrorRead
      | Ok state =>
          let inp := mkInput (in_Namespace inp) (in_Policies inp) (in_Skew inp) state (cs_version s) in
          result ← policy_Compile inp;
          result ← Fit inp result (limit_of Limit);
          '(_, r) ← Save s (rs_State result) (limit_of Limit) f object;
          Some (match r with Err e => writeErrorReason answered e | Ok _ => "" end)
      end
  end.

(** *** Registration *)

(** [prometheus.Registerer]: what a registry answers to a collector. *)
Inductive register_error := AlreadyRegistered | RegisterFailed (reason : string).

Class Registerer (R C : Type) := { Register : C -> R -> R * option register_error; registered : C -> R -> bool }.

(** Its documentation: a collector that was registered is known, and stays
    so; registering a known one changes nothing. *)
Class RegistererLaws (R C : Type) `{Registerer R C} := {
  register_known c r : registered c r = true -> Register c r = (r, Some AlreadyRegistered);
  register_new c r r' : Register c r = (r', None) -> registered c r' = true /\ forall d, registered d r = true -> registered d r' = true;
  register_already c r r' : Register c r = (r', Some AlreadyRegistered) -> registered c r = true }.

(** [register]: [None] is the panic. *)
Fixpoint register {R C} `{Registerer R C} (collectors : list C) (r : R) : option R :=
  match collectors with
  | [] => Some r
  | c :: collectors =>
      let '(r, err) := Register c r in
      match err with
      | Some (RegisterFailed _) => None
      | _ => register collectors r
      end
  end.

(** *** The applier's series *)

(** [SeedExtractions] on the series by domain and key. *)
Definition SeedExtractions (keys : gmap string (list string)) (v : vec) : vec :=
  v ∪ list_to_set (flat_map (fun dn => (fun key => [dn.1; key]) <$> dn.2) (map_to_list keys)).

(** What a replica publishes: the rebuilds by result, the time the rules last
    changed while it ran, the view, the vectors with the pruner's set, and the
    absence of the configuration. *)
Record replica_series := mkReplicaSeries {
  rp_rebuilds : gmap string nat;
  rp_timestamp : Z;
  rp_view : option (list DomainView);
  rp_pruner : pruner;
  rp_absent : Z }.

Definition count_rebuild (result : string) (m : gmap string nat) : gmap string nat :=
  <[result := S (default 0%nat (m !! result))]> m.

Definition applied_view (domain : string) (d : SvcDomain) : DomainView :=
  mkDomainView domain (Z.of_nat (length (s_Blocks (sd_Snapshot d)))) (ruleview.ds_Rules (ruleview.Summary (sd_Snapshot d) (sd_Version d)))
    (Z.of_nat (s_DecisionBuckets (sd_Snapshot d))) (sd_Generation d).

(** What [Apply] publishes of the applier it leaves, [before] the one it
    found; [unix] is the clock. *)
Definition Apply_series (before after : Applier) (unix : Z) (s : replica_series) : replica_series :=
  let snapshots := sd_Snapshot <$> ap_domains after in
  let changed := ap_ready before && negb (bool_decide (ap_hashes after = ap_hashes before)) in
  let p := PruneStale (ActiveSetOf snapshots) (rp_pruner s) in
  let v := pr_vectors p in
  mkReplicaSeries (count_rebuild "ok" (rp_rebuilds s)) (if changed then unix else rp_timestamp s)
    (Some (omap (fun d => applied_view d <$> ap_domains after !! d) (sort_strings (elements (dom (ap_domains after))))))
    (mkPruner (pr_active p) (mkVectors (vs_domain v) (vs_rule v) (SeedExtractions (ExtractionKeysOf snapshots) (vs_key v))))
    (rp_absent s).

Definition Refuse_series (s : replica_series) : replica_series :=
  mkReplicaSeries (count_rebuild "refused" (rp_rebuilds s)) (rp_timestamp s) (rp_view s) (rp_pruner s) (rp_absent s).

Definition SetAbsent_series (absent : bool) (s : replica_series) : replica_series :=
  mkReplicaSeries (rp_rebuilds s) (rp_timestamp s) (rp_view s) (rp_pruner s) (if absent then 1 else 0).

(** ** Lemmas *)

Lemma RecordConfigWrite_ok reason w r : r ∈ configErrorReasons ->
  cw_failing (RecordConfigWrite reason w) !! r =
    (if bool_decide (reason = "") then Some 0 else if bool_decide (reason = r) then Some 1 else cw_failing w !! r) /\
  cw_errors (RecordConfigWrite reason w) !! r =
    (if bool_decide (reason = r) then Some (S (default 0%nat (cw_errors w !! r))) else cw_errors w !! r).
Proof.
  intros Hr. unfold RecordConfigWrite. case_bool_decide as He.
  - subst reason. rewrite (bool_decide_false ("" = r)) by (intros <-; set_solver). split; [|done]. cbn.
    repeat (apply elem_of_cons in Hr as [->|Hr]; [by simplify_map_eq|]). set_solver.
  - cbn. case_bool_decide as Er; [subst; by rewrite !lookup_insert_eq|]. by rewrite !lookup_insert_ne.
Qed.

Lemma writeErrorReason_reason answered e : writeErrorReason answered e ∈ configErrorReasons /\ writeErrorReason answered e <> "".
Proof. destruct e, answered; split; cbn; (done || set_solver). Qed.

(** A pass records a success exactly when it returns without an error. *)
Lemma Reconcile_recorded_ok `{Platform, Wire} s Limit policies load_fails f answered object :
  match Reconcile s Limit policies load_fails f object with
  | None => Reconcile_recorded s Limit policies load_fails f answered object = None
  | Some (_, Ok _) => Reconcile_recorded s Limit policies load_fails f answered object = Some ""
  | Some (_, Err _) => exists reason, Reconcile_recorded s Limit policies load_fails f answered object = Some reason /\
      reason ∈ configErrorReasons /\ reason <> ""
  end.
Proof.
  unfold Reconcile, Reconcile_recorded. destruct policies as [inp|]; [|exists ConfigErrorRead; split; [done|split; [set_solver|done]]].
  destruct (Load _ _ _) as [state|]; [|exists ConfigErrorRead; split; [done|split; [set_solver|done]]].
  cbn zeta. destruct (policy_Compile _) as [result|]; [|done]. cbn [mbind option_bind].
  destruct (Fit _ _ _) as [result'|]; [|done]. cbn [mbind option_bind]. destruct (Save _ _ _ _ _) as [[object' [[]|e]]|]; [done| |done].
  cbn. eexists. split; [done|]. apply writeErrorReason_reason.
Qed.

(** Every key a compiled domain extracts is among its keys. *)
Lemma compileMapping_declared st km :
  (forall ex, ex ∈ ms_extraction st -> is_Some (ms_keys st !! ke_Key ex)) -> is_Some (ms_keys st !! KeySub) ->
  (forall ex, ex ∈ ms_extraction (compileMapping st km) -> is_Some (ms_keys (compileMapping st km) !! ke_Key ex)) /\
  is_Some (ms_keys (compileMapping st km) !! KeySub).
Proof.
  intros Hex Hsub. unfold compileMapping. case_bool_decide; [done|]. destruct (compileKeyMapping km) as [ex|] eqn:E; [|done].
  cbn [ms_extraction ms_keys]. assert (ke_Key ex = km_Key km) as Hk.
  { unfold compileKeyMapping in E. repeat case_match; simplify_eq; done. }
  split.
  - intros ex' [Hin| ->%list_elem_of_singleton]%elem_of_app; apply lookup_insert_is_Some'; [right; by apply Hex|by left].
  - apply lookup_insert_is_Some'. by right.
Qed.

Lemma compiled_extraction_keys ns d p snap ps ex :
  Compile ns d p = Some (snap, ps) -> ex ∈ s_Extraction snap -> ke_Key ex ∈ s_EffectiveKeys snap.
Proof.
  intros Hc Hex. assert (forall e prs, compileEnvironment d p = (e, prs) -> ex ∈ env_extraction e -> ke_Key ex ∈ effectiveKeys e) as Henv.
  { intros e prs He Hin. unfold effectiveKeys. rewrite sort_strings_Permutation. apply list_elem_of_fmap.
    assert (is_Some (env_keys e !! ke_Key ex)) as [b Hb].
    { unfold compileEnvironment in He. destruct p as [pol|].
      - set (st0 := mkMS _ _ _ _ _) in He. set (st := foldl _ st0 _) in He.
        assert ((forall ex, ex ∈ ms_extraction st -> is_Some (ms_keys st !! ke_Key ex)) /\ is_Some (ms_keys st !! KeySub)) as [H1 H2].
        { unfold st. assert ((forall ex, ex ∈ ms_extraction st0 -> is_Some (ms_keys st0 !! ke_Key ex)) /\ is_Some (ms_keys st0 !! KeySub)) as H0.
          { split; [intros ? Hi; cbn in Hi; set_solver|by exists false]. }
          clearbody st0. clear He st Hin Hc Hex. revert st0 H0. induction (p_Mappings pol) as [|km kms IH]; intros st0 [H1 H2]; [done|].
          apply IH. by apply compileMapping_declared. }
        destruct (compileGroups _ _). injection He as <- _. cbn in *. destruct (ms_subOverridden st); [by apply H1|].
        apply elem_of_cons in Hin as [->|Hin]; [done|by apply H1].
      - injection He as <- _. cbn in *. apply list_elem_of_singleton in Hin as ->. by exists false. }
    exists (ke_Key ex, b). split; [done|]. by apply elem_of_map_to_list. }
  unfold Compile in Hc. case_bool_decide; [by injection Hc as <- _; cbn in Hex; set_solver|].
  destruct (_ || _); [by injection Hc as <- _; cbn in Hex; set_solver|]. destruct (compileEnvironment d p) as [e prs] eqn:Ee.
  destruct p as [pol|]; [|injection Hc as <- _; by eapply Henv].
  destruct (compileBlocks _ _ _ _) as [|blocks bps]; [done|]. destruct (blocking _); injection Hc as <- _; by eapply Henv.
Qed.

Lemma seeded_elem keys v ls :
  ls ∈ SeedExtractions keys v <-> ls ∈ v \/ exists d names key, keys !! d = Some names /\ key ∈ names /\ ls = [d; key].
Proof.
  unfold SeedExtractions. rewrite elem_of_union, elem_of_list_to_set, list_elem_of_In, in_flat_map. split.
  - intros [Hv|([d names] & Hin & Hls)]; [by left|right]. apply list_elem_of_In, elem_of_map_to_list in Hin.
    apply list_elem_of_In, list_elem_of_fmap in Hls as (key & -> & Hkey). by exists d, names, key.
  - intros [Hv|(d & names & key & Hd & Hkey & ->)]; [by left|right]. exists (d, names).
    split; apply list_elem_of_In; [by apply elem_of_map_to_list|]. apply list_elem_of_fmap. by exists key.
Qed.

(** ** Claims *)

(** The attempts since the last one that succeeded. *)
Definition since_success (reasons : list string) : list string :=
  foldl (fun l r => if bool_decide (r = "") then [] else l ++ [r]) [] reasons.

Lemma since_success_snoc reasons r :
  since_success (reasons ++ [r]) = if bool_decide (r = "") then [] else since_success reasons ++ [r].
Proof. unfold since_success. by rewrite foldl_app. Qed.

(** The series after some attempts. *)
Lemma recorded_series reasons r : r ∈ configErrorReasons ->
  let w := foldl (fun w r => RecordConfigWrite r w) (RegisterOperator_series (mkConfigSeries ∅ ∅)) reasons in
  cw_errors w !! r = Some (length (filter (fun x => x = r) reasons)) /\
  cw_failing w !! r = Some (if bool_decide (r ∈ since_success reasons) then 1 else 0).
Proof.
  intros Hr w. unfold w. clear w. induction reasons as [|x reasons IH] using rev_ind.
  { cbn. repeat (apply elem_of_cons in Hr as [->|Hr]; [by simplify_map_eq|]). set_solver. }
  rewrite foldl_app. cbn [foldl]. destruct IH as [IHe IHf]. destruct (RecordConfigWrite_ok x
    (foldl (fun w r => RecordConfigWrite r w) (RegisterOperator_series (mkConfigSeries ∅ ∅)) reasons) r Hr) as [-> ->].
  rewrite IHe, IHf, filter_app, length_app, since_success_snoc. split.
  - rewrite filter_cons, filter_nil. destruct (decide (x = r)) as [Er|Er];
      [rewrite bool_decide_true by exact Er|rewrite bool_decide_false by exact Er]; cbn; f_equal; lia.
  - destruct (decide (x = "")) as [->|Hx]; [rewrite !(bool_decide_true ("" = "")) by done; by rewrite bool_decide_false by apply not_elem_of_nil|].
    rewrite !(bool_decide_false (x = "")) by done. destruct (decide (x = r)) as [->|Hxr].
    + rewrite (bool_decide_true (r = r)), (bool_decide_true (r ∈ _)); [done|apply elem_of_app; right; by left|done].
    + rewrite (bool_decide_false (x = r)) by done. f_equal.
      rewrite (bool_decide_ext (r ∈ since_success reasons) (r ∈ since_success reasons ++ [x])); [done|]. rewrite elem_of_app, list_elem_of_singleton. naive_solver.
Qed.

(** The alert on the writer says what happened. After any passes of the
    reconciler the counter of a reason is the number of passes that failed
    with it, and its gauge is 1 exactly when one failed with it since the last
    that succeeded; so every gauge is 0 exactly when the last pass returned
    without an error, or none ran. *)
Theorem config_write_series_exact `{Platform, Wire} (s : ConfigStore) (Limit : Z)
    (passes : list (option Input * bool * faults * bool * option ConfigMap)) (reasons : list string) :
  Forall2 (fun '(policies, load_fails, f, answered, object) reason =>
    Reconcile_recorded s Limit policies load_fails f answered object = Some reason) passes reasons ->
  let w := foldl (fun w r => RecordConfigWrite r w) (RegisterOperator_series (mkConfigSeries ∅ ∅)) reasons in
  (forall r, r ∈ configErrorReasons ->
     cw_errors w !! r = Some (length (filter (fun x => x = r) reasons)) /\
     cw_failing w !! r = Some (if bool_decide (r ∈ since_success reasons) then 1 else 0)) /\
  ((forall r, r ∈ configErrorReasons -> cw_failing w !! r = Some 0) <->
   match last passes with
   | None => True
   | Some (policies, load_fails, f, _, object) =>
       exists lost object', Reconcile s Limit policies load_fails f object = Some (object', Ok lost)
   end).
Proof.
  intros Hm w. pose proof (recorded_series reasons) as Hall. fold w in Hall.
  split; [done|].
  assert ((forall r, r ∈ configErrorReasons -> cw_failing w !! r = Some 0) <->
    forall r, r ∈ configErrorReasons -> r ∉ since_success reasons) as ->.
  { split; intros Hz r Hr; destruct (Hall r Hr) as [_ Hf]; specialize (Hz r Hr).
    - rewrite Hf in Hz. intros Hin. by rewrite bool_decide_true in Hz.
    - by rewrite Hf, bool_decide_false. }
  clear Hall w. destruct passes as [|pass passes _] using rev_ind.
  { apply Forall2_nil_inv_l in Hm as ->. split; [done|]. intros _ r _. apply not_elem_of_nil. }
  rewrite last_snoc. apply Forall2_app_inv_l in Hm as (rs & rs' & _ & Hm & ->).
  apply Forall2_cons_inv_l in Hm as (reason & rs0 & Hrec & Hnil & ->). apply Forall2_nil_inv_l in Hnil as ->.
  destruct pass as [[[[policies load_fails] f] answered] object]. rewrite since_success_snoc.
  pose proof (Reconcile_recorded_ok s Limit policies load_fails f answered object) as Hr. rewrite Hrec in Hr.
  destruct (Reconcile s Limit policies load_fails f object) as [[object' [lost|e]]|]; [| |done].
  - injection Hr as ->. rewrite bool_decide_true by done. split; [by eauto|]. intros _ r _. apply not_elem_of_nil.
  - destruct Hr as (reason' & [= <-] & Hin & Hne). rewrite bool_decide_false by done. split; [|by intros (? & ? & ?)].
    intros Hno. destruct (Hno reason Hin). set_solver.
Qed.

(** A key that is declared has a series to alert on. Whatever a replica
    applied, after the last apply and the delayed pass of the pruner the
    extraction series of every key every served domain extracts exists, also
    of those no token ever carried. *)
Theorem declared_keys_seeded `{Platform, Wire} (SnapshotVersion : Snapshot -> string) (ns : string)
    (spec_of : string -> RateLimitPolicySpec) (cfgs : list (Configuration * (Z * Z))) (a before : Applier) (unix : Z) (s : replica_series)
    (d : string) (sd : SvcDomain) (ex : KeyExtraction) :
  Forall (fun c => reading_hashed spec_of c.1) cfgs -> apply_all SnapshotVersion ns cfgs NewApplier = Some a ->
  ap_domains a !! d = Some sd -> ex ∈ s_Extraction (sd_Snapshot sd) ->
  [d; ke_Key ex] ∈ vs_key (pr_vectors (pruneOnce (rp_pruner (Apply_series before a unix s)))).
Proof.
  intros Hf Ha Hd Hex.
  destruct (apply_all_spec SnapshotVersion ns spec_of cfgs NewApplier (fun _ => None) Hf) as (a' & E & Hc & _ & Henf); [done..|].
  rewrite Ha in E. injection E as <-. specialize (Henf d). unfold previous_of in Henf. rewrite Hd in Henf. cbn in Henf.
  assert (exists p ps, Compile ns d p = Some (sd_Snapshot sd, ps)) as (p & ps & Hcomp).
  { destruct (foldl _ None cfgs.*1) as [[sp g u|u]|]; [| |done]; destruct Henf as [-> _];
      [destruct (compile_cases ns d sp) as (ps & ? & _)|destruct (compile_cases ns d (bare_spec d)) as (ps & ? & _)]; by do 2 eexists. }
  pose proof (compiled_extraction_keys _ _ _ _ _ _ Hcomp Hex) as Hkey.
  unfold Apply_series, pruneOnce, PruneStale. cbn [rp_pruner pr_vectors pr_active sweep_vectors vs_key].
  rewrite pruneVec_spec, seeded_elem. split.
  - right. exists d, (ke_Key <$> s_Extraction (sd_Snapshot sd)), (ke_Key ex). split_and!; [|by apply list_elem_of_fmap_2|done].
    unfold ExtractionKeysOf. by rewrite !lookup_fmap, Hd.
  - unfold keyAlive, ActiveSetOf. cbn [as_Keys]. rewrite !lookup_fmap. cbn [label]. unfold label. cbn. rewrite Hd. cbn.
    apply bool_decide_eq_true. by apply elem_of_list_to_set.
Qed.

(** Registering twice is registering once: a second call on a registry
    changes nothing and does not panic. *)
Theorem register_idempotent {R C} `{RegistererLaws R C} (collectors : list C) (r r' : R) :
  register collectors r = Some r' -> register collectors r' = Some r'.
Proof.
  assert (forall cs r r' d, register cs r = Some r' -> registered d r = true -> registered d r' = true) as Hkeep.
  { induction cs as [|c cs IH]; intros r1 r2 d; cbn; [by intros [= ->]|]. destruct (Register c r1) as [r3 [[]|]] eqn:E; [|done|].
    - intros H1 H2. eapply IH; [done|]. pose proof (register_already _ _ _ E) as Hk. rewrite (register_known _ _ Hk) in E. by injection E as <-.
    - intros H1 H2. eapply IH; [done|]. by apply (register_new _ _ _ E). }
  assert (forall cs r r' d, register cs r = Some r' -> d ∈ cs -> registered d r' = true) as Hin.
  { induction cs as [|c cs IH]; intros r1 r2 d; cbn; [set_solver|]. destruct (Register c r1) as [r3 [[]|]] eqn:E; [|done|].
    - intros H1 [->|Hd]%elem_of_cons; [|by eapply IH]. eapply Hkeep; [done|]. pose proof (register_already _ _ _ E) as Hk.
      rewrite (register_known _ _ Hk) in E. by injection E as <-.
    - intros H1 [->|Hd]%elem_of_cons; [|by eapply IH]. eapply Hkeep; [done|]. exact (proj1 (register_new _ _ _ E)). }
  intros Hr. pose proof (fun d => Hin collectors r r' d Hr) as Hall. clear Hr. induction collectors as [|c cs IH]; cbn; [done|].
  rewrite register_known by (apply Hall; by left). apply IH. intros d Hd. apply Hall. by right.
Qed.
