(* ===== verification/Controller.v ===== *)
(** * operator/internal/controller: one reconcile of a policy's status

    [Reconcile] of ratelimitpolicy_controller.go: compile the namespace, ask the
    fleet, derive the status, publish the series, write the status if it moved
    and time the next look. The fleet observer is the interface the reconciler
    is given; the API server's answers are arguments. The readings of the wall
    clock by the condition helper inside one reconcile are one instant. Log
    lines are left out, and the registration of watches. *)
From S2P Require Import Prelude GoStrings Algo Compile Identity Convert OpPolicy Selector Manifest ConfigStore SvcConfig Sanitize Fleet Status Metrics.

(** ** Definitions *)

Definition lastCheckMaxAge : Z := 5 * 60 * Second.

(** The settings of a reconciler that its decisions read; [rc_State] is the
    state reader: the operator's version and the bundles it loads. *)
Record RateLimitPolicyReconciler := mkReconciler {
  rc_State : option (string * (list string -> option (gmap string Bundle)));
  rc_Service : string;
  rc_Probe : bool;
  rc_Events : bool;
  rc_PropagationDeadline : Z;
  rc_ConfigMapLimit : Z }.

Definition policy_limit (r : RateLimitPolicyReconciler) : Z :=
  if rc_ConfigMapLimit r >? 0 then rc_ConfigMapLimit r else ConfigMapLimit.

(** What reading the object gave. *)
Inductive get_result :=
| GetNotFound
| GetFailed
| GetUndecodable
| Got (object : RateLimitPolicy) (status : PolicyStatus).

Record metrics_state := mkMetricsState { me_fleet : fleet_samples; me_policies : policy_views }.

(** What one call did: what it returned ([Err] an error, [Ok] the wait until
    the next look, none for a deleted object), the status it wrote, whether it
    raised the Warning, and the series and the probe afterwards. *)
Record reconciled (PS : Type) := mkReconciled {
  ro_return : result unit (option Z);
  ro_written : option PolicyStatus;
  ro_event : bool;
  ro_metrics : metrics_state;
  ro_probe : PS }.
Arguments mkReconciled {PS}.
Arguments ro_return {PS}.
Arguments ro_written {PS}.
Arguments ro_event {PS}.
Arguments ro_metrics {PS}.
Arguments ro_probe {PS}.

Definition nextProbe (v : FleetView) (probeErr : option probe_error) (now : Z) : Z :=
  match probeErr with
  | Some _ => ProbeInterval
  | None => Z.max (default 0 (fv_RefreshAt v) - now) Second
  end.

Definition staleCheckTime (last : option Z) (now : Z) : bool :=
  match last with None => true | Some t => lastCheckMaxAge <=? now - t end.

(** The zero outcome a Go map answers an absent key with. *)
Definition no_policy_outcome : Outcome := mkOutcome "" 0 0 None [] None None [] 0 0.

(** A view without times gets them from the reconcile's clock. *)
Definition dated (now : Z) (v : FleetView) : FleetView :=
  let at_ := default now (fv_At v) in
  mkFleetView (Some at_) (Some (default (at_ + ProbeInterval) (fv_RefreshAt v)))
    (fv_Total v) (fv_Applied v) (fv_Behind v) (fv_Silent v) (fv_Refusing v).

Definition policyView (object : RateLimitPolicy) (o : Outcome) (j : fleetStatus) : PolicyView :=
  let lag := if oc_ActiveGeneration o >? 0 then o_Generation object -i oc_ActiveGeneration o else o_Generation object in
  let count b := Z.of_nat (length (filter (fun p => BlockingProblem (rp_Reason p) = b) (oc_Problems o))) in
  let ready := bool_decide (fs_ready j = ConditionTrue) in
  mkPolicyView (sp_Domain (o_Spec object)) ready (if ready then "" else fs_readyReason j)
    (negb (oc_ActiveGeneration o =? 0)) lag (count true) (count false).

(** The requests a change of the fleet's EndpointSlice turns into; [listed] is
    the names of the namespace's policies, [None] when they could not be
    read. *)
Definition policiesBehind (r : RateLimitPolicyReconciler) (service : string) (listed : option (list ObjectKey)) : list ObjectKey :=
  if bool_decide (rc_Service r = "") || negb (bool_decide (service = rc_Service r)) then []
  else default [] listed.

Section reconcile.
Context {TX : Texts} {CL : ConditionList} {CO : Codec}.

(** The judgement of one reconcile. *)
Definition judged (r : RateLimitPolicyReconciler) (generation : Z) (before : PolicyStatus) (o : Outcome) (v : FleetView)
    (probeErr : option probe_error) (now wall : Z) : fleetStatus :=
  judge o v probeErr (readyAge (setAccepted wall o generation (st_Conditions before)) generation now)
    (rc_PropagationDeadline r).

(** The status of one reconcile, but for the time of the last check. *)
Definition derived (r : RateLimitPolicyReconciler) (generation : Z) (before : PolicyStatus) (o : Outcome) (v : FleetView)
    (probeErr : option probe_error) (now wall : Z) : PolicyStatus :=
  let j := judged r generation before o v probeErr now wall in
  let cs := setAccepted wall o generation (st_Conditions before) in
  let cs := setReadyCondition wall now (fs_ready j) (fs_readyReason j) (fs_readyMessage j) generation cs in
  let cs := setCondition wall ConditionStalled (fs_stalled j) (fs_stalledReason j) "" generation cs in
  let replicas :=
    match probeErr with
    | Some _ => st_Replicas before
    | None => mkReplicaStatus (fv_Total v) (fv_Applied v) (d_ (fv_Applied v) +:+ "/" +:+ d_ (fv_Total v))
                (rp_LastCheckTime (st_Replicas before))
    end in
  mkPolicyStatus generation (oc_ActiveGeneration o) (oc_EffectiveKeys o) replicas cs (i32 (Z.of_nat (oc_Rules o)))
    (i32 (Z.of_nat (length (oc_Problems o)))) (boundedProblems (rendered <$> oc_Problems o)).

Definition with_check_time (t : Z) (s : PolicyStatus) : PolicyStatus :=
  let p := st_Replicas s in
  mkPolicyStatus (st_ObservedGeneration s) (st_ActiveGeneration s) (st_EffectiveKeys s)
    (mkReplicaStatus (rp_Total p) (rp_Applied p) (rp_Summary p) (Some t)) (st_Conditions s) (st_Rules s) (st_Problems s)
    (st_RuleProblems s).

(** With the time of the last check: stamped when the status moved or the
    stamp has stood long enough. *)
Definition next_status (r : RateLimitPolicyReconciler) (generation : Z) (before : PolicyStatus) (o : Outcome) (v : FleetView)
    (probeErr : option probe_error) (now wall : Z) : PolicyStatus :=
  let s := derived r generation before o v probeErr now wall in
  match probeErr with
  | Some _ => s
  | None =>
      if negb (bool_decide (before = s)) || staleCheckTime (rp_LastCheckTime (st_Replicas before)) now
      then with_check_time (default 0 (fv_At v)) s else s
  end.

Definition fleet_sample (domain : string) (s : PolicyStatus) (j : fleetStatus) (m : fleet_samples) : FleetSample :=
  let p := st_Replicas s in
  let observed := bool_decide (is_Some (rp_LastCheckTime p)) in
  if bool_decide (fs_stalled j = ConditionUnknown) then
    match PublishedFleet domain m with
    | Some last => mkFleetSample (rp_Applied p) (rp_Total p) (sm_Stalled last) (sm_Reason last) observed
    | None => mkFleetSample (rp_Applied p) (rp_Total p) false ReasonProgressing observed
    end
  else mkFleetSample (rp_Applied p) (rp_Total p) (bool_decide (fs_stalled j = ConditionTrue)) (fs_stalledReason j) observed.

Definition writeStatus (before after : PolicyStatus) (update_fails : bool) : result unit bool :=
  if bool_decide (before = after) then Ok false else if update_fails then Err tt else Ok true.

(** The fleet observer: domain, generation and object asked about, and whether
    a fresh round is wanted. *)
Context {PS : Type} (observer : string -> Z -> string -> bool -> PS -> result probe_error FleetView * PS).

Definition observe (r : RateLimitPolicyReconciler) (object : RateLimitPolicy) (o : Outcome) (fresh : bool) (ps : PS)
    : result probe_error FleetView * PS :=
  if negb (rc_Probe r) then (Err ErrNoProbe, ps)
  else observer (sp_Domain (o_Spec object)) (oc_ActiveGeneration o) (oc_UID o) fresh ps.

(** [now] and [probed] are the reconciler's clock before and after the probe.
    [None] is a panic. *)
Definition Reconcile_policy (r : RateLimitPolicyReconciler) (key : ObjectKey) (get : get_result) (policies : option Input)
    (now probed wall : Z) (update_fails : bool) (ps : PS) (m : metrics_state) : option (reconciled PS) :=
  match get with
  | GetNotFound =>
      Some (mkReconciled (Ok None) None false
              (mkMetricsState (DropFleet key.2 (me_fleet m)) (DropPolicy key.2 (me_policies m))) ps)
  | GetFailed | GetUndecodable => Some (mkReconciled (Err tt) None false m ps)
  | Got object before =>
      compiled ← compile_namespace policies (rc_State r) (policy_limit r);
      match compiled with
      | None => Some (mkReconciled (Err tt) None false m ps)
      | Some result =>
          let o := default no_policy_outcome (rs_Policies result !! key) in
          let generation := o_Generation object in
          let fresh := negb (generation =? st_ObservedGeneration before) in
          let '(observed, ps) := observe r object o fresh ps in
          let '(v, probeErr) := match observed with Ok v => (v, None) | Err e => (no_view, Some e) end in
          let v := dated now v in
          let newlyBroken := negb (Compiled o) && turnedNotCompiled (st_Conditions before) generation in
          let j := judged r generation before o v probeErr now wall in
          let after := next_status r generation before o v probeErr now wall in
          let domain := sp_Domain (o_Spec object) in
          let m := mkMetricsState (PublishFleet domain (fleet_sample domain after j (me_fleet m)) (me_fleet m))
                     (PublishPolicy (policyView object o j) (me_policies m)) in
          Some (match writeStatus before after update_fails with
                | Err _ => mkReconciled (Err tt) None false m ps
                | Ok written =>
                    mkReconciled (Ok (Some (nextProbe v probeErr probed))) (if written then Some after else None)
                      (newlyBroken && rc_Events r) m ps
                end)
      end
  end.

End reconcile.
