(* ===== verification/FleetFacts.v ===== *)
(** * The fleet as the leader sees it: facts

    What the counts and lists of a view are, by the replies of the round, and
    when a round is reused. *)
From S2P Require Import Prelude GoStrings Algo Compile Identity Convert OpPolicy Selector Sanitize Manifest ConfigStore SvcConfig Fleet.
From S2P Require Import Status Metrics Controller.

(** ** Counting *)

Lemma i32_small z : 0 <= z < 2 ^ 31 -> i32 z = z.
Proof. intros H. unfold i32. rewrite Z.mod_small by lia. lia. Qed.

(** The answers a view counts as enforcing what it was asked about. *)
Definition reports (domain : string) (generation : Z) (uid : string) (r : Report) : bool :=
  match re_Domains r !! domain with
  | Some d => (ad_Generation d =? generation) && bool_decide (ad_UID d = uid)
  | None => false
  end.

Section view.
Context (domain : string) (generation : Z) (uid : string) (answers : gmap endpoint Report).

Definition applied_at (e : endpoint) : Prop := exists r, answers !! e = Some r /\ reports domain generation uid r = true.
Definition behind_at (e : endpoint) : Prop := exists r, answers !! e = Some r /\ reports domain generation uid r = false.
Definition refusing_at (e : endpoint) : Prop := exists r, answers !! e = Some r /\ re_Refusal r <> None.

#[export] Instance applied_at_dec e : Decision (applied_at e).
Proof.
  unfold applied_at. destruct (answers !! e) as [r|]; [destruct (reports domain generation uid r) eqn:E|].
  - left. by exists r.
  - right. intros (r' & [= <-] & ?). congruence.
  - right. by intros (? & ? & _).
Defined.
#[export] Instance behind_at_dec e : Decision (behind_at e).
Proof.
  unfold behind_at. destruct (answers !! e) as [r|]; [destruct (reports domain generation uid r) eqn:E|].
  - right. intros (r' & [= <-] & ?). congruence.
  - left. by exists r.
  - right. by intros (? & ? & _).
Defined.
#[export] Instance refusing_at_dec e : Decision (refusing_at e).
Proof.
  unfold refusing_at. destruct (answers !! e) as [r|]; [destruct (re_Refusal r) eqn:E|].
  - left. exists r. by rewrite E.
  - right. intros (r' & [= <-] & ?). congruence.
  - right. by intros (? & ? & _).
Defined.

Lemma view_loop_spec es applied behind refusing :
  0 <= applied -> applied + Z.of_nat (length es) < 2 ^ 31 ->
  view_loop domain generation uid answers es applied behind refusing =
    (applied + Z.of_nat (length (filter applied_at es)),
     behind ++ (en_name <$> filter behind_at es), refusing ++ (en_name <$> filter refusing_at es)).
Proof.
  revert applied behind refusing. induction es as [|e es IH]; intros applied behind refusing H0 Hlt.
  { cbn. by rewrite Z.add_0_r, !app_nil_r. }
  cbn [view_loop length] in *. rewrite !filter_cons. destruct (answers !! e) as [r|] eqn:E.
  2: { rewrite !decide_False by (intros (? & ? & _); congruence). apply IH; lia. }
  change (match re_Domains r !! domain with Some d => _ | None => false end) with (reports domain generation uid r).
  assert (forall rf : list string,
    match re_Refusal r with Some _ => rf ++ [en_name e] | None => rf end ++ (en_name <$> filter refusing_at es) =
    rf ++ (en_name <$> (if decide (refusing_at e) then e :: filter refusing_at es else filter refusing_at es))) as Hrf.
  { intros rf. destruct (re_Refusal r) eqn:Er.
    - rewrite decide_True by (exists r; by rewrite Er). by rewrite <- app_assoc.
    - rewrite decide_False; [done|]. intros (r' & [= <-]%(eq_trans (eq_sym E)) & ?). congruence. }
  destruct (reports domain generation uid r) eqn:Er.
  - rewrite (decide_True (P := applied_at e)) by (by exists r).
    rewrite (decide_False (P := behind_at e)) by (intros (r' & [= <-]%(eq_trans (eq_sym E)) & ?); congruence).
    rewrite i32_small, IH, Hrf by lia. cbn [length]. do 2 f_equal. lia.
  - rewrite (decide_False (P := applied_at e)) by (intros (r' & [= <-]%(eq_trans (eq_sym E)) & ?); congruence).
    rewrite (decide_True (P := behind_at e)) by (by exists r).
    rewrite IH, Hrf by lia. by rewrite <- app_assoc.
Qed.

(** Every endpoint is counted once: it enforces, it lags or it was silent. *)
Lemma fleet_partition es :
  Z.of_nat (length es) = Z.of_nat (length (filter applied_at es)) + Z.of_nat (length (filter behind_at es))
    + Z.of_nat (length (filter (fun e => answers !! e = None) es)).
Proof.
  induction es as [|e es IH]; [done|]. rewrite !filter_cons. destruct (answers !! e) as [r|] eqn:E.
  - rewrite (decide_False (P := Some r = None)) by done. destruct (reports domain generation uid r) eqn:Er.
    + rewrite (decide_True (P := applied_at e)) by (by exists r).
      rewrite (decide_False (P := behind_at e)) by (intros (r' & [= <-]%(eq_trans (eq_sym E)) & ?); congruence).
      cbn [length]. lia.
    + rewrite (decide_False (P := applied_at e)) by (intros (r' & [= <-]%(eq_trans (eq_sym E)) & ?); congruence).
      rewrite (decide_True (P := behind_at e)) by (by exists r). cbn [length]. lia.
  - rewrite (decide_True (P := None = None)) by done.
    rewrite (decide_False (P := applied_at e)) by (intros (? & ? & _); congruence).
    rewrite (decide_False (P := behind_at e)) by (intros (? & ? & _); congruence). cbn [length]. lia.
Qed.

End view.

(** A view, by the answers of its round. *)
Lemma view_spec r domain generation uid freshness :
  Z.of_nat (length (fr_endpoints r)) < 2 ^ 31 ->
  let v := view r domain generation uid freshness in
  fv_Total v = Z.of_nat (length (fr_endpoints r)) /\
  fv_Applied v = Z.of_nat (length (filter (applied_at domain generation uid (fr_answers r)) (fr_endpoints r))) /\
  fv_Behind v = sort_strings (en_name <$> filter (behind_at domain generation uid (fr_answers r)) (fr_endpoints r)) /\
  fv_Refusing v = sort_strings (en_name <$> filter (refusing_at (fr_answers r)) (fr_endpoints r)) /\
  fv_Silent v = fr_silent r /\
  fv_RefreshAt v = Some (if freshness >? 0 then fr_completed r + freshness else fr_taken r + ProbeInterval).
Proof.
  intros H. unfold view. rewrite view_loop_spec by lia. cbn. rewrite i32_small by lia. by split_and!.
Qed.

Lemma length_filter_all {A} (P : A -> Prop) `{!forall x, Decision (P x)} (l : list A) :
  length (filter P l) = length l -> Forall P l.
Proof.
  induction l as [|x l IH]; [done|]. rewrite filter_cons. pose proof (length_filter P l).
  case_decide; cbn [length]; intros E; [constructor; [done|apply IH; lia]|lia].
Qed.

(** All replicas enforce what was asked about exactly when each endpoint's
    report says so. *)
Lemma view_all_applied r domain generation uid freshness :
  Z.of_nat (length (fr_endpoints r)) < 2 ^ 31 ->
  let v := view r domain generation uid freshness in
  fv_Applied v = fv_Total v <-> Forall (applied_at domain generation uid (fr_answers r)) (fr_endpoints r).
Proof.
  intros H v. destruct (view_spec r domain generation uid freshness H) as (H1 & H2 & _). fold v in H1, H2. rewrite H1, H2. split.
  - intros E%Nat2Z.inj. by apply length_filter_all in E.
  - intros Hall. by rewrite filter_all.
Qed.

(** ** The round *)

Section round.
Context (unmarshal_report : string -> option Report).

(** The answers of a round of distinct endpoints, each by its own reply. *)
Lemma round_loop_spec es : forall replies answers silent,
  NoDup es ->
  let '(answers', silent') := round_loop unmarshal_report es replies answers silent in
  (forall i e, es !! i = Some e ->
     answers' !! e = match replies !! i ≫= ask unmarshal_report with Some rep => Some rep | None => answers !! e end) /\
  (forall e, e ∉ es -> answers' !! e = answers !! e) /\
  exists missed, silent' = silent ++ (en_name <$> missed) /\ missed `sublist_of` es /\
    forall e, e ∈ missed <-> exists i, es !! i = Some e /\ replies !! i ≫= ask unmarshal_report = None.
Proof.
  induction es as [|e0 es IH]; intros replies answers silent Hnd.
  { destruct replies; cbn [round_loop]; (split_and!; [done|done|]); exists []; rewrite app_nil_r;
      (split_and!; [done|constructor|]); intros e; (split; [by intros ?%elem_of_nil|by intros (? & ? & _)]). }
  apply NoDup_cons in Hnd as [Hn Hnd].
  assert (forall (P : nat -> Prop) e missed,
    (e ∈ missed <-> exists i, es !! i = Some e /\ P (S i)) -> P 0%nat ->
    e ∈ e0 :: missed <-> exists i, (e0 :: es) !! i = Some e /\ P i) as Hmiss.
  { intros P e missed Hm H0. rewrite elem_of_cons, Hm. split.
    - intros [->|(i & ? & ?)]; [by exists 0%nat|by exists (S i)].
    - intros ([|i] & [= ?] & ?); [by left|right; by exists i]. }
  set (rs := replies). destruct replies as [|rp replies]; subst rs; cbn [round_loop].
  - specialize (IH [] answers (silent ++ [en_name e0]) Hnd). destruct (round_loop _ es [] _ _) as [a' s'].
    destruct IH as (IH1 & IH2 & missed & -> & Hsub & Hm). split_and!.
    + intros [|i] e [= He]; [subst e; by apply IH2|by apply IH1 in He].
    + intros e [? ?]%not_elem_of_cons. by apply IH2.
    + exists (e0 :: missed). rewrite <- app_assoc. split_and!; [done|by constructor|]. intros e.
      apply (Hmiss (fun i => [] !! i ≫= ask unmarshal_report = None)); [apply Hm|done].
  - destruct (ask unmarshal_report rp) as [rep|] eqn:Ea.
    + specialize (IH replies (<[e0 := rep]> answers) silent Hnd). destruct (round_loop _ es replies _ _) as [a' s'].
      destruct IH as (IH1 & IH2 & missed & -> & Hsub & Hm). split_and!.
      * intros [|i] e [= He]; cbn.
        -- subst e. by rewrite Ea, IH2, lookup_insert_eq.
        -- rewrite (IH1 i e He). rewrite lookup_insert_ne; [done|]. intros ->. apply Hn. by eapply list_elem_of_lookup_2.
      * intros e [? ?]%not_elem_of_cons. rewrite IH2 by done. by rewrite lookup_insert_ne.
      * exists missed. split_and!; [done|by constructor|]. intros e. rewrite Hm. split.
        -- intros (i & ? & ?). by exists (S i).
        -- intros ([|i] & [= ?] & Hr); [cbn in Hr; congruence|by exists i].
    + specialize (IH replies answers (silent ++ [en_name e0]) Hnd). destruct (round_loop _ es replies _ _) as [a' s'].
      destruct IH as (IH1 & IH2 & missed & -> & Hsub & Hm). split_and!.
      * intros [|i] e [= He]; cbn; [subst e; rewrite Ea; by apply IH2|by apply IH1].
      * intros e [? ?]%not_elem_of_cons. by apply IH2.
      * exists (e0 :: missed). rewrite <- app_assoc. split_and!; [done|by constructor|]. intros e.
        apply (Hmiss (fun i => (rp :: replies) !! i ≫= ask unmarshal_report = None)); [apply Hm|done].
Qed.

(** A new round, seen: an endpoint's answer is its own reply's. *)
Lemma takeRound_answers now completed es replies i e :
  NoDup es -> es !! i = Some e ->
  fr_answers (takeRound unmarshal_report now completed es replies) !! e = replies !! i ≫= ask unmarshal_report.
Proof.
  intros Hnd He. unfold takeRound. pose proof (round_loop_spec es replies ∅ [] Hnd) as H.
  destruct (round_loop _ _ _ _ _) as [answers silent]. destruct H as (H & _). cbn. rewrite (H i e He).
  destruct (replies !! i ≫= _); [done|]. apply lookup_empty.
Qed.

Lemma takeRound_silent now completed es replies :
  NoDup es ->
  exists missed, fr_silent (takeRound unmarshal_report now completed es replies) = sort_strings (en_name <$> missed) /\
    (forall e, e ∈ missed <-> e ∈ es /\ fr_answers (takeRound unmarshal_report now completed es replies) !! e = None) /\
    NoDup missed.
Proof.
  intros Hnd. pose proof (fun i e => takeRound_answers now completed es replies i e Hnd) as Ha.
  unfold takeRound in *. pose proof (round_loop_spec es replies ∅ [] Hnd) as H.
  destruct (round_loop _ _ _ _ _) as [answers silent]. destruct H as (_ & _ & missed & -> & Hsub & Hm). cbn in *.
  exists missed. split_and!; [done| |].
  - intros e. rewrite Hm. split.
    + intros (i & He & Hr). rewrite (Ha i e He). split; [by eapply list_elem_of_lookup_2|done].
    + intros [(i & He)%list_elem_of_lookup_1 Hr]. exists i. rewrite (Ha i e He) in Hr. done.
  - by eapply sublist_NoDup.
Qed.

(** A round is never empty of answers unless the fleet is empty or the round
    failed. *)
Lemma takeRound_fields now completed es replies :
  let r := takeRound unmarshal_report now completed es replies in
  fr_taken r = now /\ fr_completed r = completed /\ fr_endpoints r = es.
Proof. cbn. unfold takeRound. by destruct (round_loop _ _ _ _ _). Qed.

End round.

(** ** Observations *)

Section observe.
Context (unmarshal_report : string -> option Report).

(** What an observation that succeeds is answered from: a round over the ready
    endpoints of now, taken during the call or completed less than the
    freshness ago. *)
Lemma Observe_ok freshness now completed listed replies domain generation uid fresh held v held' :
  Observe unmarshal_report freshness now completed listed replies domain generation uid fresh held = (Ok v, held') ->
  exists items round, listed = Some items /\ held' = Some round /\ fr_err round = None /\
    fr_endpoints round = endpoints items /\ v = view round domain generation uid freshness /\
    (round = takeRound unmarshal_report now completed (endpoints items) replies \/
     fresh = false /\ held = Some round /\ now - fr_completed round < freshness).
Proof.
  unfold Observe. set (round := currentRound _ _ _ _ _ _ _ _).
  destruct (fr_err round) eqn:Ee; [done|]. intros [= <- <-]. unfold round, currentRound in *. clear round.
  destruct listed as [items|]; [|done]. destruct held as [r|].
  - destruct (negb fresh && _ && _) eqn:E.
    + bools. exists items, r. split_and!; try done. right. destruct fresh; [done|]. split_and!; [done|done|lia].
    + exists items, (takeRound unmarshal_report now completed (endpoints items) replies).
      destruct (takeRound_fields unmarshal_report now completed (endpoints items) replies) as (_ & _ & ->).
      split_and!; try done. by left.
  - exists items, (takeRound unmarshal_report now completed (endpoints items) replies).
    destruct (takeRound_fields unmarshal_report now completed (endpoints items) replies) as (_ & _ & ->).
    split_and!; try done. by left.
Qed.

(** An expired round is not answered from again. *)
Lemma currentRound_expired freshness now completed listed replies fresh round items :
  listed = Some items -> freshness <= now - fr_completed round ->
  currentRound unmarshal_report freshness now completed listed replies fresh (Some round) =
    takeRound unmarshal_report now completed (endpoints items) replies.
Proof.
  intros -> H. unfold currentRound. destruct (Z.ltb_spec (now - fr_completed round) freshness); [lia|].
  by rewrite andb_false_r.
Qed.

End observe.

(** * What an observation of the fleet says *)

(** ** Claims *)

(** An observation counts every ready endpoint once, by its own reply, and the
    next look is a new one. When a round is taken during the call over distinct
    endpoints, the total is their number; applied counts those whose report
    names the generation and object asked about, behind and silent name the
    others, answering or not, and refusing those whose report carries a
    refusal; the three counts add up. And a look at the fleet after the wait
    the reconciler asks for is answered from a round of its own, whichever
    domain it is for. *)
Theorem fleet_observation_exact (unmarshal_report : string -> option Report) (freshness now completed : Z)
    (items : list EndpointSlice) (replies : list http_reply) (domain : string) (generation : Z) (uid : string) (fresh : bool)
    (held held' : option fleetRound) (v : FleetView) :
  let es := endpoints items in
  let answer i := replies !! i ≫= ask unmarshal_report in
  NoDup es -> Z.of_nat (length es) < 2 ^ 31 -> 0 < freshness ->
  Observe unmarshal_report freshness now completed (Some items) replies domain generation uid fresh held = (Ok v, held') ->
  (forall r, held = Some r -> fr_endpoints r = es -> fresh = true \/ freshness <= now - fr_completed r) ->
  exists applied behind silent refusing,
    (forall i e, es !! i = Some e ->
       (e ∈ applied <-> exists rep, answer i = Some rep /\ reports domain generation uid rep = true) /\
       (e ∈ behind <-> exists rep, answer i = Some rep /\ reports domain generation uid rep = false) /\
       (e ∈ silent <-> answer i = None) /\
       (e ∈ refusing <-> exists rep, answer i = Some rep /\ re_Refusal rep <> None)) /\
    fv_Total v = Z.of_nat (length es) /\ fv_Applied v = Z.of_nat (length applied) /\
    fv_Behind v = sort_strings (en_name <$> behind) /\ fv_Silent v = sort_strings (en_name <$> silent) /\
    fv_Refusing v = sort_strings (en_name <$> refusing) /\
    fv_Total v = fv_Applied v + Z.of_nat (length (fv_Behind v)) + Z.of_nat (length (fv_Silent v)) /\
    forall probed now' completed' items' replies' fresh' domain' generation' uid',
      probed + nextProbe (dated now v) None probed <= now' ->
      (Observe unmarshal_report freshness now' completed' (Some items') replies' domain' generation' uid' fresh' held').2 =
        Some (takeRound unmarshal_report now' completed' (endpoints items') replies').
Proof.
  intros es answer Hnd Hlen Hfr Hobs Hnew.
  apply Observe_ok in Hobs as (items0 & round & [= <-] & -> & _ & Hends & -> & Hround). fold es in Hends.
  assert (round = takeRound unmarshal_report now completed es replies) as Hr.
  { destruct Hround as [-> |(Hf & Hh & Hlt)]; [done|]. destruct (Hnew round Hh Hends) as [?|?]; [congruence|lia]. }
  rewrite <- Hends in Hlen. destruct (view_spec round domain generation uid freshness Hlen) as (Ht & Ha & Hb & Hre & Hs & Hra).
  destruct (takeRound_silent unmarshal_report now completed es replies Hnd) as (missed & Hm1 & Hm2 & Hm3). rewrite <- Hr in Hm1, Hm2.
  exists (filter (applied_at domain generation uid (fr_answers round)) es), (filter (behind_at domain generation uid (fr_answers round)) es),
    missed, (filter (refusing_at (fr_answers round)) es).
  split_and!; rewrite ?Hends in *; try done.
  - intros i e He. assert (e ∈ es) as Hin by (by eapply list_elem_of_lookup_2).
    assert (fr_answers round !! e = answer i) as Ha' by (rewrite Hr; by apply takeRound_answers).
    rewrite Hm2, !list_elem_of_filter. unfold applied_at, behind_at, refusing_at. rewrite Ha'. by split_and!; split; naive_solver.
  - by rewrite Hs.
  - rewrite Ht, Ha, Hb, Hs, Hm1. rewrite (fleet_partition domain generation uid (fr_answers round) es).
    rewrite !(Permutation_length (sort_strings_Permutation _)), !length_fmap. f_equal. f_equal.
    apply Permutation_length, NoDup_Permutation; [by apply NoDup_filter|done|]. intros e. rewrite list_elem_of_filter, Hm2. tauto.
  - intros probed now' completed' items' replies' fresh' domain' generation' uid' Hw. unfold Observe. cbn [snd]. f_equal.
    apply currentRound_expired; [done|]. unfold nextProbe, dated in Hw. cbn [fv_RefreshAt] in Hw. rewrite Hra in Hw.
    rewrite Z.gtb_ltb, (proj2 (Z.ltb_lt 0 freshness)) in Hw by done. cbn [from_option id] in Hw. lia.
Qed.

(** One pod behind two slices of the Service is two replicas: the endpoints of
    the slices are not told apart by the pod, so on a dual-stack Service, or
    while an endpoint moves between slices, the total is not the number of
    pods. *)
Theorem fleet_counts_pod_twice :
  let slice address := mkEndpointSlice [mkSlicePort (Some "metrics") (Some 9090)]
                         [mkSliceEndpoint (Some true) None [address] (Some "pod-a")] in
  en_name <$> endpoints [slice "10.0.0.1"; slice "fd00::1"] = ["pod-a"; "pod-a"] /\
  endpoints [slice "10.0.0.1"; slice "10.0.0.1"] = [mkEndpoint "pod-a" "10.0.0.1" 9090; mkEndpoint "pod-a" "10.0.0.1" 9090].
Proof. by vm_compute. Qed.

(** * The conditions of a policy: facts

    What the three conditions are after one reconcile, what a judgement says,
    and the propagation clock. *)

(** ** The judgement *)

Section judge.
Context {TX : Texts}.

Definition deadline_of (d : Z) : Z := if d <=? 0 then DefaultPropagationDeadline else d.

Lemma deadline_of_pos d : 0 < deadline_of d.
Proof. unfold deadline_of, DefaultPropagationDeadline, Second. destruct (Z.leb_spec d 0); lia. Qed.

(** A generation that the fleet is asked about: it compiles and it fits. *)
Definition servable (o : Outcome) : Prop := oc_Err o = None /\ oc_TooLarge o = None.

Lemma servable_compiled o : servable o -> Compiled o = true.
Proof. intros [H _]. unfold Compiled. by rewrite H, bool_decide_true. Qed.

Lemma judge_ready o v e since deadline :
  fs_ready (judge o v e since deadline) = ConditionTrue <->
  servable o /\ e = None /\ fv_Total v <> 0 /\ fv_Applied v = fv_Total v.
Proof.
  unfold servable, judge. unfold Compiled. case_bool_decide as Hc; cbn [negb]; [|split; [done|]; by intros [[? _] _]].
  destruct (oc_TooLarge o) eqn:Et; [split; [done|]; by intros [[_ ?] _]|].
  destruct e; [split; [done|]; by intros (_ & ? & _)|].
  destruct (Z.eqb_spec (fv_Total v) 0); [split; [done|]; by intros (_ & _ & ? & _)|].
  destruct (Z.eqb_spec (fv_Applied v) (fv_Total v)); [by split|].
  split; [|by intros (_ & _ & _ & ?)]. destruct (0 <? length (fv_Refusing v))%nat; [done|].
  destruct (_ <? since); [done|]. by destruct (_ =? 0).
Qed.

(** Stalled is a breakage, and each kind of it. *)
Lemma judge_stalled o v e since deadline :
  fs_stalled (judge o v e since deadline) = ConditionTrue <->
  oc_Err o <> None \/ oc_Err o = None /\ oc_TooLarge o <> None \/
  servable o /\ e = None /\ fv_Total v <> 0 /\ fv_Applied v <> fv_Total v /\
    (fv_Refusing v <> [] \/ deadline_of deadline < since).
Proof.
  unfold servable, judge, Compiled. case_bool_decide as Hc; cbn [negb].
  2: { split; [intros _; by left|done]. }
  destruct (oc_TooLarge o) eqn:Et; [split; [intros _; right; left; split; done|done]|].
  destruct e; [split; [done|]; intros [?|[[_ ?]|(_ & ? & _)]]; done|].
  destruct (Z.eqb_spec (fv_Total v) 0); [split; [done|]; intros [?|[[_ ?]|(_ & _ & ? & _)]]; done|].
  destruct (Z.eqb_spec (fv_Applied v) (fv_Total v)); [split; [done|]; intros [?|[[_ ?]|(_ & _ & _ & ? & _)]]; done|].
  change (if deadline <=? 0 then DefaultPropagationDeadline else deadline) with (deadline_of deadline).
  destruct (fv_Refusing v) as [|x l] eqn:Er; cbn [length Nat.ltb Nat.leb].
  - destruct (Z.ltb_spec (deadline_of deadline) since).
    + split; [|done]. intros _. right; right. split_and!; try done. by right.
    + split; [by destruct (_ =? 0)|]. intros [?|[[_ ?]|(_ & _ & _ & _ & [?|?])]]; try done. lia.
  - split; [|done]. intros _. right; right. split_and!; try done. by left.
Qed.

Lemma judge_stale o v e since deadline :
  fs_readyReason (judge o v e since deadline) = ReasonReplicaStale ->
  deadline_of deadline < since /\ servable o /\ e = None.
Proof.
  unfold servable, judge, Compiled. case_bool_decide; cbn [negb]; [|done]. destruct (oc_TooLarge o); [done|].
  destruct e; [done|]. destruct (_ =? _); [done|]. destruct (_ =? _); [done|].
  destruct (0 <? length _)%nat; [done|].
  change (if deadline <=? 0 then DefaultPropagationDeadline else deadline) with (deadline_of deadline).
  destruct (Z.ltb_spec (deadline_of deadline) since); [done|]. by destruct (_ =? 0).
Qed.

(** A lagging fleet that has had its time is stale. *)
Lemma judge_lagging o v since deadline :
  servable o -> fv_Total v <> 0 -> fv_Applied v <> fv_Total v -> fv_Refusing v = [] -> deadline_of deadline < since ->
  let j := judge o v None since deadline in
  fs_readyReason j = ReasonReplicaStale /\ fs_stalled j = ConditionTrue /\ fs_ready j = ConditionFalse.
Proof.
  intros [H1 H2] Ht Ha Hr Hs. unfold judge, Compiled. rewrite H1, bool_decide_true, H2 by done. cbn [negb].
  rewrite (proj2 (Z.eqb_neq _ _) Ht), (proj2 (Z.eqb_neq _ _) Ha), Hr. cbn [length Nat.ltb Nat.leb].
  change (if deadline <=? 0 then DefaultPropagationDeadline else deadline) with (deadline_of deadline).
  by rewrite (proj2 (Z.ltb_lt _ _) Hs).
Qed.

(** A judgement in the propagation set is of a lagging fleet, and not ready. *)
Lemma judge_propagating o v e since deadline :
  propagationReasons (fs_readyReason (judge o v e since deadline)) = true ->
  servable o /\ e = None /\ fs_ready (judge o v e since deadline) = ConditionFalse.
Proof.
  unfold servable, judge, Compiled. case_bool_decide; cbn [negb]; [|done]. destruct (oc_TooLarge o); [done|].
  destruct e; [done|]. destruct (_ =? _); [done|]. destruct (_ =? _); [done|].
  destruct (0 <? length _)%nat; [done|]. destruct (_ <? since); [done|]. by destruct (_ =? 0).
Qed.

End judge.

(** ** The conditions after a reconcile *)

Section conditions.
Context {TX : Texts} {CL : ConditionList} {CLL : ConditionListLaws}.

Lemma find_setCondition cs wall type status reason message generation t :
  FindStatusCondition (setCondition wall type status reason message generation cs) t =
    if bool_decide (t = type) then
      Some (mkCondition type status reason (truncateMessage message) generation
        (match FindStatusCondition cs type with
         | Some e => if bool_decide (cd_Status e = status) then cd_LastTransitionTime e else wall
         | None => wall end))
    else FindStatusCondition cs t.
Proof.
  unfold setCondition. set (c := mkCondition _ _ _ _ _ 0). case_bool_decide as E.
  - subst t. exact (find_set cs c wall).
  - by apply find_set_other.
Qed.

Lemma setCondition_same cs wall type status reason message generation t :
  FindStatusCondition cs type = Some (mkCondition type status reason (truncateMessage message) generation t) ->
  setCondition wall type status reason message generation cs = cs.
Proof.
  intros H. unfold setCondition. rewrite <- (set_time_ignored cs _ wall t). by apply set_same.
Qed.

(** What [setAccepted] sets. *)
Definition accepted_status (o : Outcome) : string := match oc_Err o with None => ConditionTrue | Some _ => ConditionFalse end.

Lemma setAccepted_set wall o generation cs :
  exists reason message, setAccepted wall o generation cs =
    setCondition wall ConditionAccepted (accepted_status o) reason message generation cs /\
    forall wall' cs', setAccepted wall' o generation cs' =
      setCondition wall' ConditionAccepted (accepted_status o) reason message generation cs'.
Proof. unfold setAccepted, accepted_status. destruct (oc_Err o); by do 2 eexists. Qed.

Context (r : RateLimitPolicyReconciler) (generation : Z) (before : PolicyStatus) (o : Outcome) (v : FleetView)
  (probeErr : option probe_error) (now wall : Z).

Abbreviation j := (judged r generation before o v probeErr now wall).
Abbreviation after := (next_status r generation before o v probeErr now wall).

Lemma next_conditions : st_Conditions after = st_Conditions (derived r generation before o v probeErr now wall).
Proof. unfold next_status. destruct probeErr; [done|]. by destruct (_ || _). Qed.

Lemma readyAge_before :
  readyAge (setAccepted wall o generation (st_Conditions before)) generation now =
  readyAge (st_Conditions before) generation now.
Proof.
  unfold readyAge. destruct (setAccepted_set wall o generation (st_Conditions before)) as (? & ? & -> & _).
  by rewrite find_setCondition, bool_decide_false.
Qed.

Lemma judged_eq : j = judge o v probeErr (readyAge (st_Conditions before) generation now) (rc_PropagationDeadline r).
Proof. unfold judged. by rewrite readyAge_before. Qed.

(** The time the Ready condition carries. *)
Definition ready_time : Z :=
  match FindStatusCondition (st_Conditions before) ConditionReady with
  | None => wall
  | Some e =>
      if bool_decide (cd_Status e = fs_ready j)
      then (if restartsPropagationClock e (fs_readyReason j) generation then now else cd_LastTransitionTime e)
      else wall
  end.

Lemma find_ready :
  FindStatusCondition (st_Conditions after) ConditionReady =
    Some (mkCondition ConditionReady (fs_ready j) (fs_readyReason j) (truncateMessage (fs_readyMessage j)) generation ready_time).
Proof.
  rewrite next_conditions. cbn [derived st_Conditions]. unfold derived. cbn [st_Conditions].
  rewrite find_setCondition, bool_decide_false by done. unfold setReadyCondition.
  rewrite find_setCondition, bool_decide_true by done. do 2 f_equal. unfold ready_time.
  destruct (setAccepted_set wall o generation (st_Conditions before)) as (? & ? & -> & _).
  rewrite find_setCondition, bool_decide_false by done.
  destruct (FindStatusCondition (st_Conditions before) ConditionReady) as [e|] eqn:E.
  - destruct (restartsPropagationClock e _ _).
    + rewrite find_stamp, bool_decide_true, find_setCondition, bool_decide_false, E by done. cbn. by case_bool_decide.
    + by rewrite find_setCondition, bool_decide_false, E by done.
  - by rewrite find_setCondition, bool_decide_false, E by done.
Qed.

Lemma find_stalled :
  exists t, FindStatusCondition (st_Conditions after) ConditionStalled =
    Some (mkCondition ConditionStalled (fs_stalled j) (fs_stalledReason j) "" generation t).
Proof.
  rewrite next_conditions. unfold derived. cbn [st_Conditions].
  rewrite find_setCondition, bool_decide_true by done. by eexists.
Qed.

Lemma find_accepted :
  exists reason message t,
    (forall wall' cs', setAccepted wall' o generation cs' =
       setCondition wall' ConditionAccepted (accepted_status o) reason message generation cs') /\
    FindStatusCondition (st_Conditions after) ConditionAccepted =
      Some (mkCondition ConditionAccepted (accepted_status o) reason (truncateMessage message) generation t).
Proof.
  destruct (setAccepted_set wall o generation (st_Conditions before)) as (reason & message & Ha & Hall).
  exists reason, message. rewrite next_conditions. unfold derived. cbn [st_Conditions].
  rewrite find_setCondition, bool_decide_false by done. unfold setReadyCondition.
  rewrite find_setCondition, bool_decide_false by done. rewrite Ha.
  rewrite find_setCondition, bool_decide_false by done.
  set (base := setCondition wall ConditionAccepted _ _ _ _ _).
  assert (exists t, FindStatusCondition base ConditionAccepted =
    Some (mkCondition ConditionAccepted (accepted_status o) reason (truncateMessage message) generation t)) as [t Hb].
  { unfold base. rewrite find_setCondition, bool_decide_true by done. by eexists. }
  exists t. split; [done|].
  destruct (FindStatusCondition (st_Conditions before) ConditionReady) as [e|]; [|done].
  destruct (restartsPropagationClock e _ _); [|done]. by rewrite find_stamp, bool_decide_false.
Qed.

End conditions.

(** ** A status that says what a reconcile found *)

Section settled.
Context {TX : Texts} {CL : ConditionList} {CLL : ConditionListLaws}.

(** The parts of a view a status is derived from. *)
Definition same_fleet (v v' : FleetView) : Prop :=
  fv_Total v = fv_Total v' /\ fv_Applied v = fv_Applied v' /\ fv_Behind v = fv_Behind v' /\ fv_Silent v = fv_Silent v' /\
  fv_Refusing v = fv_Refusing v'.

(** The same finding under the same reason is the same judgement. *)
Lemma judge_same o v v' e since since' deadline :
  same_fleet v v' ->
  fs_readyReason (judge o v e since deadline) = fs_readyReason (judge o v' e since' deadline) ->
  judge o v e since deadline = judge o v' e since' deadline.
Proof.
  intros (Ht & Ha & Hb & Hs & Hr). unfold judge. destruct (negb (Compiled o)); [done|]. destruct (oc_TooLarge o); [done|].
  destruct e; [done|]. rewrite Ht. destruct (fv_Total v' =? 0); [done|]. rewrite Ha. destruct (_ =? fv_Total v'); [done|].
  rewrite Hr. unfold refusingMessage, behindMessage. rewrite Ht, Ha, Hb, Hs, Hr. destruct (0 <? length _)%nat; [done|].
  destruct (_ <? since), (_ <? since'); try done; by destruct (_ =? 0).
Qed.

Record reflects (s : PolicyStatus) (generation : Z) (o : Outcome) (v : FleetView) (e : option probe_error) (j : fleetStatus)
    : Prop := {
  rf_observed : st_ObservedGeneration s = generation;
  rf_active : st_ActiveGeneration s = oc_ActiveGeneration o;
  rf_keys : st_EffectiveKeys s = oc_EffectiveKeys o;
  rf_rules : st_Rules s = i32 (Z.of_nat (oc_Rules o));
  rf_problems : st_Problems s = i32 (Z.of_nat (length (oc_Problems o)));
  rf_list : st_RuleProblems s = boundedProblems (rendered <$> oc_Problems o);
  rf_replicas : e = None -> rp_Total (st_Replicas s) = fv_Total v /\ rp_Applied (st_Replicas s) = fv_Applied v /\
    rp_Summary (st_Replicas s) = d_ (fv_Applied v) +:+ "/" +:+ d_ (fv_Total v);
  rf_accepted : exists reason message t,
    (forall wall cs, setAccepted wall o generation cs =
       setCondition wall ConditionAccepted (accepted_status o) reason message generation cs) /\
    FindStatusCondition (st_Conditions s) ConditionAccepted =
      Some (mkCondition ConditionAccepted (accepted_status o) reason (truncateMessage message) generation t);
  rf_ready : exists t, FindStatusCondition (st_Conditions s) ConditionReady =
    Some (mkCondition ConditionReady (fs_ready j) (fs_readyReason j) (truncateMessage (fs_readyMessage j)) generation t);
  rf_stalled : exists t, FindStatusCondition (st_Conditions s) ConditionStalled =
    Some (mkCondition ConditionStalled (fs_stalled j) (fs_stalledReason j) "" generation t) }.

Lemma next_status_reflects r generation before o v e now wall :
  reflects (next_status r generation before o v e now wall) generation o v e (judged r generation before o v e now wall).
Proof.
  split; try (unfold next_status; destruct e; [done|]; by destruct (_ || _)).
  - apply find_accepted.
  - eexists. apply find_ready.
  - apply find_stalled.
Qed.

(** A reconcile that finds what the status says leaves it as it is. *)
Lemma reflects_settled r s generation o v v' e j now wall :
  reflects s generation o v e j -> same_fleet v v' ->
  fs_readyReason (judged r generation s o v' e now wall) = fs_readyReason j ->
  judged r generation s o v' e now wall = j ->
  (e = None -> staleCheckTime (rp_LastCheckTime (st_Replicas s)) now = false) ->
  next_status r generation s o v' e now wall = s.
Proof.
  intros [H1 H2 H3 H4 H5 H6 H7 (reason & message & ta & Hset & Ha) (tr & Hr) (ts & Hs)] (Ht & Hap & _) _ Hj Hc.
  assert (derived r generation s o v' e now wall = s) as Hd.
  { unfold derived. rewrite Hj, Hset. rewrite (setCondition_same _ _ _ _ _ _ _ _ Ha).
    unfold setReadyCondition. rewrite Hr. unfold restartsPropagationClock. cbn [cd_ObservedGeneration cd_Reason].
    rewrite Z.eqb_refl. cbn [negb orb]. rewrite andb_comm, andb_negb_r.
    rewrite (setCondition_same _ _ _ _ _ _ _ _ Hr), (setCondition_same _ wall _ _ _ "" _ _ Hs).
    destruct s as [og ag ks [rt ra rs lc] cs rl pr ps]. cbn [st_ObservedGeneration st_ActiveGeneration st_EffectiveKeys st_Replicas
      st_Conditions st_Rules st_Problems st_RuleProblems rp_Total rp_Applied rp_Summary rp_LastCheckTime] in *. subst.
    f_equal. destruct e; [done|]. destruct (H7 eq_refl) as (-> & -> & ->). by rewrite Ht, Hap. }
  unfold next_status. rewrite Hd. destruct e; [done|]. rewrite bool_decide_true by done. cbn [negb orb]. by rewrite Hc.
Qed.

End settled.
