(* ===== verification/ControllerClaims.v ===== *)
(** * What the status of a policy says

    A run of reconciles of one object: the propagation clock, the one Warning
    per broken generation, a status that settles, and what Ready means. *)
From S2P Require Import Prelude GoStrings Algo Compile CompileFacts Identity Convert OpPolicy Selector Sanitize Manifest ConfigStore SvcConfig.
From S2P Require Import Fleet Status Metrics Controller FleetFacts.

(** ** A run of reconciles *)

(** A time as the API server stores it: whole seconds. *)
Definition to_second (t : Z) : Z := t / Second * Second.

Lemma to_second_bounds t : t - Second < to_second t <= t.
Proof. unfold to_second, Second. pose proof (Z.mod_pos_bound t 1000000000). pose proof (Z.div_mod t 1000000000). lia. Qed.

Lemma to_second_mono a b : a <= b -> to_second a <= to_second b.
Proof. intros H. unfold to_second. apply Z.mul_le_mono_nonneg_r; [done|]. by apply Z.div_le_mono. Qed.

Lemma to_second_idem t : to_second (to_second t) = to_second t.
Proof. unfold to_second, Second. by rewrite Z.div_mul. Qed.

Definition stored_condition (c : Condition) : Condition := with_time (to_second (cd_LastTransitionTime c)) c.

(** A status as it is read back. *)
Definition stored (s : PolicyStatus) : PolicyStatus :=
  let p := st_Replicas s in
  mkPolicyStatus (st_ObservedGeneration s) (st_ActiveGeneration s) (st_EffectiveKeys s)
    (mkReplicaStatus (rp_Total p) (rp_Applied p) (rp_Summary p) (to_second <$> rp_LastCheckTime p))
    (stored_condition <$> st_Conditions s) (st_Rules s) (st_Problems s) (st_RuleProblems s).

(** What one reconcile finds: the object, the policies of the namespace, what
    the fleet observer answers, the clocks, and whether its update fails. *)
Record turn := mkTurn {
  tu_object : RateLimitPolicy;
  tu_policies : option Input;
  tu_observe : string -> Z -> string -> bool -> result probe_error FleetView;
  tu_now : Z;
  tu_probed : Z;
  tu_wall : Z;
  tu_update_fails : bool }.

Section run.
Context {TX : Texts} {CL : ConditionList} {CO : Codec} {CLL : ConditionListLaws}.
Context (r : RateLimitPolicyReconciler) (key : ObjectKey).

Definition reconcile_turn (t : turn) (s : PolicyStatus) (m : metrics_state) : option (reconciled unit) :=
  Reconcile_policy (fun d g u fresh ps => (tu_observe t d g u fresh, ps)) r key (Got (tu_object t) s) (tu_policies t)
    (tu_now t) (tu_probed t) (tu_wall t) (tu_update_fails t) tt m.

(** The status of the object after a turn. *)
Definition after_turn (t : turn) (s : PolicyStatus) : PolicyStatus :=
  match reconcile_turn t s (mkMetricsState ∅ ∅) with
  | Some out => match ro_written out with Some s' => stored s' | None => s end
  | None => s
  end.

Definition run_turns (ts : list turn) (s : PolicyStatus) : PolicyStatus := foldl (fun s t => after_turn t s) s ts.

(** What a turn works with, when the namespace could be compiled: the outcome
    of its policy, the view and the error of the probe. *)
Definition seen (t : turn) (s : PolicyStatus) : option (Outcome * FleetView * option probe_error) :=
  match compile_namespace (tu_policies t) (rc_State r) (policy_limit r) with
  | Some (Some result) =>
      let o := default no_policy_outcome (rs_Policies result !! key) in
      let fresh := negb (o_Generation (tu_object t) =? st_ObservedGeneration s) in
      let observed := if rc_Probe r
                      then tu_observe t (sp_Domain (o_Spec (tu_object t))) (oc_ActiveGeneration o) (oc_UID o) fresh
                      else Err ErrNoProbe in
      let '(v, e) := match observed with Ok v => (v, None) | Err e => (no_view, Some e) end in
      Some (o, dated (tu_now t) v, e)
  | _ => None
  end.

Abbreviation judged_at t s o v e := (judged r (o_Generation (tu_object t)) s o v e (tu_now t) (tu_wall t)).
Abbreviation status_at t s o v e := (next_status r (o_Generation (tu_object t)) s o v e (tu_now t) (tu_wall t)).

(** A turn, by what it worked with. *)
Lemma reconcile_turn_seen t s m o v e :
  seen t s = Some (o, v, e) ->
  let generation := o_Generation (tu_object t) in
  let domain := sp_Domain (o_Spec (tu_object t)) in
  let j := judged_at t s o v e in
  let after := status_at t s o v e in
  let m' := mkMetricsState (PublishFleet domain (fleet_sample domain after j (me_fleet m)) (me_fleet m))
              (PublishPolicy (policyView (tu_object t) o j) (me_policies m)) in
  reconcile_turn t s m = Some
    (match writeStatus s after (tu_update_fails t) with
     | Err _ => mkReconciled (Err tt) None false m' tt
     | Ok written =>
         mkReconciled (Ok (Some (nextProbe v e (tu_probed t)))) (if written then Some after else None)
           (negb (Compiled o) && turnedNotCompiled (st_Conditions s) generation && rc_Events r) m' tt
     end).
Proof.
  unfold seen, reconcile_turn, Reconcile_policy, observe. destruct (compile_namespace _ _ _) as [[result|]|]; [|done..].
  cbn [mbind option_bind]. set (o' := default _ _). destruct (rc_Probe r); cbn [negb].
  - destruct (tu_observe t _ _ _ _) as [v'|e'] eqn:Eo; by intros [= <- <- <-].
  - by intros [= <- <- <-].
Qed.

Lemma reconcile_turn_blind t s m : seen t s = None ->
  reconcile_turn t s m = None \/ reconcile_turn t s m = Some (mkReconciled (Err tt) None false m tt).
Proof.
  unfold seen, reconcile_turn, Reconcile_policy. destruct (compile_namespace _ _ _) as [[result|]|]; [|by right|by left].
  by destruct (if rc_Probe r then _ else _).
Qed.

(** The turn landed: its status is the object's, written or already there. *)
Definition landed (t : turn) (s : PolicyStatus) : Prop :=
  exists out w, reconcile_turn t s (mkMetricsState ∅ ∅) = Some out /\ ro_return out = Ok w.

Lemma after_turn_cases t s :
  (exists o v e, seen t s = Some (o, v, e) /\ landed t s /\
     (after_turn t s = stored (status_at t s o v e) \/ after_turn t s = s /\ status_at t s o v e = s)) \/
  ~ landed t s /\ after_turn t s = s.
Proof.
  unfold after_turn, landed. destruct (seen t s) as [[[o v] e]|] eqn:E.
  - rewrite (reconcile_turn_seen _ _ (mkMetricsState ∅ ∅) _ _ _ E). unfold writeStatus.
    case_bool_decide as Hs; [|destruct (tu_update_fails t)].
    + left. exists o, v, e. split; [done|]. split; [by do 2 eexists|]. by right.
    + right. split; [by intros (? & ? & [= <-] & ?)|done].
    + left. exists o, v, e. split; [done|]. split; [by do 2 eexists|]. by left.
  - right. destruct (reconcile_turn_blind t s (mkMetricsState ∅ ∅) E) as [-> | ->].
    + split; [by intros (? & ? & ? & _)|done].
    + split; [by intros (? & ? & [= <-] & ?)|done].
Qed.

Lemma find_stored s t : FindStatusCondition (st_Conditions (stored s)) t = stored_condition <$> FindStatusCondition (st_Conditions s) t.
Proof. exact (find_retimed to_second (st_Conditions s) t). Qed.

Lemma stored_reflects s g o v e j : reflects s g o v e j -> reflects (stored s) g o v e j.
Proof.
  intros [H1 H2 H3 H4 H5 H6 H7 (reason & message & ta & Hset & Ha) (tr & Hr) (ts & Hs)]. split; try done.
  - exists reason, message. eexists. split; [done|]. by rewrite find_stored, Ha.
  - eexists. by rewrite find_stored, Hr.
  - eexists. by rewrite find_stored, Hs.
Qed.

(** ** The propagation clock *)

(** When the current stretch of propagation began: the generation and the
    instant of the first landed turn of it. A turn that does not land leaves
    the status, and so the stretch, as they were. *)
Definition began_turn (t : turn) (s : PolicyStatus) (b : option (Z * Z)) : option (Z * Z) :=
  match reconcile_turn t s (mkMetricsState ∅ ∅), seen t s with
  | Some out, Some (o, v, e) =>
      if is_ok (ro_return out) then
        if propagationReasons (fs_readyReason (judged_at t s o v e)) then
          match b with
          | Some (g, _) => if g =? o_Generation (tu_object t) then b else Some (o_Generation (tu_object t), tu_now t)
          | None => Some (o_Generation (tu_object t), tu_now t)
          end
        else None
      else b
  | _, _ => b
  end.

Fixpoint began (ts : list turn) (s : PolicyStatus) (b : option (Z * Z)) : option (Z * Z) :=
  match ts with
  | [] => b
  | t :: ts => began ts (after_turn t s) (began_turn t s b)
  end.

(** The Ready condition of a status keeps the clock of the stretch. *)
Definition keeps_clock (lag : Z) (s : PolicyStatus) (b : option (Z * Z)) : Prop :=
  match b with
  | Some (g, t0) => exists c, FindStatusCondition (st_Conditions s) ConditionReady = Some c /\
      cd_ObservedGeneration c = g /\ propagationReasons (cd_Reason c) = true /\ cd_Status c = ConditionFalse /\
      to_second t0 <= cd_LastTransitionTime c <= t0 + lag
  | None => forall c, FindStatusCondition (st_Conditions s) ConditionReady = Some c -> propagationReasons (cd_Reason c) = false
  end.

Definition timely (lag : Z) (t : turn) : Prop := tu_now t <= tu_wall t <= tu_now t + lag.

Lemma stored_keeps_clock lag s b : keeps_clock lag s b -> keeps_clock lag (stored s) b.
Proof.
  unfold keeps_clock. rewrite find_stored. destruct b as [[g t0]|].
  - intros (c & -> & H1 & H2 & H3 & H4 & H5). exists (stored_condition c). split_and!; try done; unfold stored_condition; cbn [with_time cd_LastTransitionTime].
    + rewrite <- (to_second_idem t0). by apply to_second_mono.
    + pose proof (to_second_bounds (cd_LastTransitionTime c)). lia.
  - intros H c Hc. destruct (FindStatusCondition (st_Conditions s) ConditionReady) as [c'|]; [|done].
    injection Hc as <-. exact (H c' eq_refl).
Qed.

(** One turn: the status it computes keeps the clock of the stretch it is
    in. *)
Lemma status_keeps_clock lag t s b o v e :
  timely lag t -> keeps_clock lag s b ->
  let j := judged_at t s o v e in
  let g := o_Generation (tu_object t) in
  keeps_clock lag (status_at t s o v e)
    (if propagationReasons (fs_readyReason j) then
       match b with Some (g', _) => if g' =? g then b else Some (g, tu_now t) | None => Some (g, tu_now t) end
     else None).
Proof.
  intros Ht Hk j g. unfold j. unfold g. clear g. set (g := o_Generation (tu_object t)) in *. pose proof (find_ready r g s o v e (tu_now t) (tu_wall t)) as Hf. fold j in Hf. fold j.
  pose proof (to_second_bounds (tu_now t)). pose proof (to_second_bounds (tu_wall t)). unfold timely in Ht.
  destruct (propagationReasons (fs_readyReason j)) eqn:Ep.
  2: { intros c Hc. rewrite Hf in Hc. injection Hc as <-. exact Ep. }
  assert (fs_ready j = ConditionFalse) as Hj.
  { unfold j in *. rewrite judged_eq in *. by apply judge_propagating in Ep as (_ & _ & ?). }
  assert (forall t0, to_second t0 <= ready_time r g s o v e (tu_now t) (tu_wall t) <= t0 + lag ->
    keeps_clock lag (status_at t s o v e) (Some (g, t0))) as Hnew.
  { intros t0 Hb. eexists. split; [exact Hf|]. split; [reflexivity|]. split; [exact Ep|]. split; [exact Hj|exact Hb]. }
  assert ((forall c, FindStatusCondition (st_Conditions s) ConditionReady = Some c ->
      restartsPropagationClock c (fs_readyReason j) g = true) ->
    keeps_clock lag (status_at t s o v e) (Some (g, tu_now t))) as Hrestart.
  { intros Hr. apply Hnew. unfold ready_time. fold j.
    destruct (FindStatusCondition (st_Conditions s) ConditionReady) as [c|]; [|lia].
    rewrite (Hr c eq_refl). case_bool_decide; lia. }
  destruct b as [[g' t0]|]; [destruct (Z.eqb_spec g' g) as [->|Hg]|].
  - destruct Hk as (c & Hc & H1 & H2 & H3 & H4). apply Hnew. unfold ready_time. fold j.
    rewrite Hc, H3, Hj, bool_decide_true by done. unfold restartsPropagationClock. by rewrite H1, H2, Z.eqb_refl.
  - apply Hrestart. intros c Hc. destruct Hk as (c' & Hc' & H1 & _). rewrite Hc in Hc'. injection Hc' as <-.
    unfold restartsPropagationClock. by rewrite H1, (proj2 (Z.eqb_neq _ _) Hg).
  - apply Hrestart. intros c Hc. unfold restartsPropagationClock. rewrite (Hk c Hc), Ep. by rewrite orb_true_r.
Qed.

Lemma turn_keeps_clock lag t s b : timely lag t -> keeps_clock lag s b -> keeps_clock lag (after_turn t s) (began_turn t s b).
Proof.
  intros Ht Hk. destruct (after_turn_cases t s) as [(o & v & e & Hs & (out & w & Hr & Ho) & Ha)|[Hn ->]].
  - unfold began_turn. rewrite Hr, Hs, Ho. cbn [is_ok]. pose proof (status_keeps_clock lag t s b o v e Ht Hk) as H.
    destruct Ha as [-> |[-> E]]; [by apply stored_keeps_clock|by rewrite E in H].
  - unfold began_turn. destruct (reconcile_turn t s _) as [out|] eqn:E; [|done]. destruct (seen t s) as [[[o v] e]|]; [|done].
    destruct (ro_return out) eqn:Eo; [|done]. destruct Hn. by do 2 eexists.
Qed.

Lemma run_keeps_clock lag ts : forall s b,
  Forall (timely lag) ts -> keeps_clock lag s b -> keeps_clock lag (run_turns ts s) (began ts s b).
Proof.
  induction ts as [|t ts IH]; intros s b Hts Hk; [done|]. apply Forall_cons in Hts as [Ht Hts]. cbn [began].
  apply (IH (after_turn t s)); [done|]. by apply turn_keeps_clock.
Qed.

End run.

(** ** One Warning *)

Section warnings.
Context {TX : Texts} {CL : ConditionList} {CO : Codec} {CLL : ConditionListLaws}.
Context (r : RateLimitPolicyReconciler) (key : ObjectKey).

(** The Warnings a run raises. *)
Definition warned (t : turn) (s : PolicyStatus) : bool :=
  match reconcile_turn r key t s (mkMetricsState ∅ ∅) with Some out => ro_event out | None => false end.

Fixpoint warnings (ts : list turn) (s : PolicyStatus) : nat :=
  match ts with
  | [] => 0
  | t :: ts => ((if warned t s then 1 else 0) + warnings ts (after_turn r key t s))%nat
  end.

(** A turn of a generation that does not compile. *)
Definition broken_turn (generation : Z) (t : turn) : Prop :=
  o_Generation (tu_object t) = generation /\ forall s o v e, seen r key t s = Some (o, v, e) -> Compiled o = false.

(** The status says the generation does not compile. *)
Definition told (generation : Z) (s : PolicyStatus) : Prop := turnedNotCompiled (st_Conditions s) generation = false.

Lemma told_iff generation s :
  told generation s <-> exists c, FindStatusCondition (st_Conditions s) ConditionAccepted = Some c /\
    cd_Status c = ConditionFalse /\ cd_ObservedGeneration c = generation.
Proof.
  unfold told, turnedNotCompiled. destruct (FindStatusCondition _ _) as [c|]; [|split; [done|by intros (? & ? & _)]]. split.
  - intros [Hs Hg]%orb_false_iff. exists c. split_and!; [done| |].
    + by apply negb_false_iff, bool_decide_eq_true in Hs.
    + by apply negb_false_iff, Z.eqb_eq in Hg.
  - intros (c' & [= <-] & -> & ->). by rewrite bool_decide_true, Z.eqb_refl.
Qed.

Lemma landed_told generation t s : broken_turn generation t -> landed r key t s -> told generation (after_turn r key t s).
Proof.
  intros [<- Hb] Hl. destruct (after_turn_cases r key t s) as [(o & v & e & Hs & _ & Ha)|[Hn _]]; [|done].
  pose proof (next_status_reflects r (o_Generation (tu_object t)) s o v e (tu_now t) (tu_wall t)) as Hrf.
  assert (reflects (after_turn r key t s) (o_Generation (tu_object t)) o v e
    (judged r (o_Generation (tu_object t)) s o v e (tu_now t) (tu_wall t))) as [_ _ _ _ _ _ _ (? & ? & ? & _ & Hacc) _ _].
  { destruct Ha as [-> |[-> E]]; [by apply stored_reflects|by rewrite E in Hrf]. }
  apply told_iff. eexists. split; [exact Hacc|]. split; [|done]. cbn. unfold accepted_status.
  specialize (Hb s o v e Hs). unfold Compiled in Hb. destruct (oc_Err o); [done|]. by rewrite bool_decide_true in Hb.
Qed.

Lemma warned_landed t s : warned t s = true -> landed r key t s.
Proof.
  unfold warned, landed. destruct (reconcile_turn r key t s _) as [out|] eqn:E; [|done]. intros Hw. exists out.
  destruct (seen r key t s) as [[[o v] e]|] eqn:Es.
  - rewrite (reconcile_turn_seen _ _ _ _ _ _ _ _ Es) in E. injection E as <-. destruct (writeStatus _ _ _); [by eexists|done].
  - destruct (reconcile_turn_blind r key t s (mkMetricsState ∅ ∅) Es) as [E' | E']; rewrite E in E'; [done|]. by injection E' as ->.
Qed.

Lemma told_silent generation t s : broken_turn generation t -> told generation s -> warned t s = false.
Proof.
  intros [<- _] Ht. destruct (warned t s) eqn:Hw; [|done]. exfalso. unfold warned in Hw.
  destruct (seen r key t s) as [[[o v] e]|] eqn:Es.
  - rewrite (reconcile_turn_seen _ _ _ _ _ _ _ _ Es) in Hw. unfold told in Ht. rewrite Ht in Hw.
    destruct (writeStatus _ _ _); cbn in Hw; [|done]. by rewrite andb_false_r in Hw.
  - by destruct (reconcile_turn_blind r key t s (mkMetricsState ∅ ∅) Es) as [E' | E']; rewrite E' in Hw.
Qed.

Lemma told_kept generation t s : broken_turn generation t -> told generation s -> told generation (after_turn r key t s).
Proof.
  intros Hb Ht. destruct (after_turn_cases r key t s) as [(o & v & e & Hs & Hl & _)|[_ ->]]; [|done]. by apply landed_told.
Qed.

Lemma told_no_warnings generation ts : forall s, Forall (broken_turn generation) ts -> told generation s -> warnings ts s = 0%nat.
Proof.
  induction ts as [|t ts IH]; intros s Hf Ht; [done|]. apply Forall_cons in Hf as [Hb Hf]. cbn [warnings].
  rewrite (told_silent _ _ _ Hb Ht). apply IH; [done|]. by apply told_kept.
Qed.

(** The first turn that lands raises it. *)
Lemma landed_warned generation t s :
  broken_turn generation t -> rc_Events r = true -> landed r key t s -> ~ told generation s -> warned t s = true.
Proof.
  intros [<- Hb] He (out & w & E & Hw) Hn. unfold warned. rewrite E. destruct (seen r key t s) as [[[o v] e]|] eqn:Es.
  - rewrite (reconcile_turn_seen _ _ _ _ _ _ _ _ Es) in E. injection E as <-. destruct (writeStatus _ _ _); [|done].
    cbn [ro_event]. rewrite (Hb s o v e Es), He. cbn [negb andb]. unfold told in Hn.
    by destruct (turnedNotCompiled _ _).
  - destruct (reconcile_turn_blind r key t s (mkMetricsState ∅ ∅) Es) as [E' | E']; rewrite E in E'; [done|]. injection E' as ->. done.
Qed.

Lemma warnings_le generation ts : forall s, Forall (broken_turn generation) ts -> (warnings ts s <= 1)%nat.
Proof.
  induction ts as [|t ts IH]; intros s Hf; cbn [warnings]; [lia|]. apply Forall_cons in Hf as [Hb Hf].
  destruct (warned t s) eqn:Hw; [|by apply IH]. rewrite (told_no_warnings generation); [lia|done|].
  by apply landed_told, warned_landed.
Qed.

End warnings.

(** ** Claims *)


(** C28: A status that says what is the case is left alone. When a reconcile has
    landed and the next finds the same generation with the same outcome and
    the same counts and names of the fleet, under the same reason, and the time
    of the last check is not yet five minutes old, it writes nothing, raises
    no Warning and the object stays as it is, to the stored second of every
    time in it: no reconcile feeds itself. *)
Theorem status_settles {TX : Texts} {CL : ConditionList} {CO : Codec} `{!ConditionListLaws}
    (r : RateLimitPolicyReconciler) (key : ObjectKey) (t t' : turn) (s : PolicyStatus) (m : metrics_state)
    (o : Outcome) (v v' : FleetView) (e : option probe_error) :
  landed r key t s -> seen r key t s = Some (o, v, e) ->
  let s' := after_turn r key t s in
  let g := o_Generation (tu_object t) in
  o_Generation (tu_object t') = g -> seen r key t' s' = Some (o, v', e) -> same_fleet v v' ->
  fs_readyReason (judged r g s' o v' e (tu_now t') (tu_wall t')) = fs_readyReason (judged r g s o v e (tu_now t) (tu_wall t)) ->
  (e = None -> staleCheckTime (rp_LastCheckTime (st_Replicas s')) (tu_now t') = false) ->
  exists out, reconcile_turn r key t' s' m = Some out /\ ro_written out = None /\ ro_event out = false /\
    ro_return out = Ok (Some (nextProbe v' e (tu_probed t'))) /\ after_turn r key t' s' = s'.
Proof.
  intros Hl Hs s' g Hg Hs' Hv Hreason Hc.
  assert (reflects s' g o v e (judged r g s o v e (tu_now t) (tu_wall t))) as Hrf.
  { pose proof (next_status_reflects r g s o v e (tu_now t) (tu_wall t)) as Hn. unfold s'.
    destruct (after_turn_cases r key t s) as [(o1 & v1 & e1 & E & _ & Ha)|[Hnl _]]; [|done].
    rewrite Hs in E. injection E as <- <- <-. destruct Ha as [-> |[-> E]]; [by apply stored_reflects|].
    fold g in E. by rewrite E in Hn. }
  assert (next_status r g s' o v' e (tu_now t') (tu_wall t') = s') as Hfix.
  { eapply reflects_settled; try done. rewrite !judged_eq in *. symmetry. apply judge_same; [done|by symmetry]. }
  pose proof (reconcile_turn_seen r key t' s' m o v' e Hs') as Hr.
  pose proof (reconcile_turn_seen r key t' s' (mkMetricsState ∅ ∅) o v' e Hs') as Hr0.
  cbn zeta in Hr, Hr0. rewrite Hg, Hfix in Hr, Hr0. unfold writeStatus in Hr, Hr0. rewrite bool_decide_true in Hr, Hr0 by done.
  eexists. split; [exact Hr|]. split_and!; [done| |done|].
  - cbn [ro_event]. destruct Hrf as [_ _ _ _ _ _ _ (? & ? & ? & _ & Ha) _ _]. unfold turnedNotCompiled. rewrite Ha.
    unfold accepted_status, Compiled. destruct (oc_Err o) as [err|]; [|by rewrite (bool_decide_true (None = None))].
    rewrite (bool_decide_false (Some err = None)) by done.
    cbn [cd_Status cd_ObservedGeneration]. by rewrite bool_decide_true, Z.eqb_refl, andb_false_r.
  - unfold after_turn. by rewrite Hr0.
Qed.

(** A generation that does not compile is reported once. Over any run of
    reconciles of one such generation, failed updates and unreadable fleets
    among them, at most one Warning is raised; and when the object does not
    say so yet, exactly one as soon as a reconcile of it lands. *)
Theorem one_warning_per_generation {TX : Texts} {CL : ConditionList} {CO : Codec} `{!ConditionListLaws}
    (r : RateLimitPolicyReconciler) (key : ObjectKey) (generation : Z) (ts us : list turn) (t : turn) (s : PolicyStatus) :
  Forall (broken_turn r key generation) (ts ++ t :: us) ->
  (warnings r key (ts ++ t :: us) s <= 1)%nat /\
  (rc_Events r = true -> ~ told generation s -> landed r key t (run_turns r key ts s) ->
   warnings r key (ts ++ t :: us) s = 1%nat).
Proof.
  intros Hf. split; [by eapply warnings_le|]. intros He. revert s. induction ts as [|t0 ts IH]; intros s Hn Hl; cbn [app warnings] in *.
  - apply Forall_cons in Hf as [Hb Hf]. rewrite (landed_warned r key generation) by done.
    by rewrite (told_no_warnings r key generation us) by (try done; by apply landed_told).
  - apply Forall_cons in Hf as [Hb Hf]. destruct (after_turn_cases r key t0 s) as [(o & v & e & _ & Hl0 & _)|[Hn0 E]].
    + rewrite (landed_warned r key generation) by done.
      by rewrite (told_no_warnings r key generation) by (try done; by apply landed_told).
    + destruct (warned r key t0 s) eqn:Hw; [by destruct Hn0; apply warned_landed|]. unfold run_turns in Hl. cbn [foldl] in Hl.
      rewrite E in *. by apply IH.
Qed.
