(* ===== verification/ReadyClaims.v ===== *)
(** * What Ready means

    From the condition on the object back to the engines of the replicas: the
    status, the round it rests on, the reports of the replicas and the
    configuration they applied. *)
From S2P Require Import Prelude GoStrings Algo Compile CompileFacts MatchSpec Identity Convert OpPolicy OpPolicyClaims Selector Sanitize.
From S2P Require Import Manifest ConfigStore SvcConfig SvcConfigClaims Fleet Status Metrics Controller FleetFacts ControllerClaims.

(** ** Lemmas *)

(** A generation that compiles and fits is the one in effect. *)
Lemma outcome_servable ns o prev skew tl oc s b :
  compileDomainFitting ns o prev skew tl = Some (oc, s, b) -> servable oc ->
  oc_ActiveGeneration oc = o_Generation o /\ oc_UID oc = o_UID o /\ compiles ns (sp_Domain (o_Spec o)) (o_Spec o) = true.
Proof.
  intros Hc [He Ht]. unfold compileDomainFitting in Hc.
  assert (forall lg, latestGeneration ns o skew = Some lg ->
    oc_UID lg.2 = o_UID o /\ oc_TooLarge lg.2 = None /\
    (Compiled lg.2 = true -> compiles ns (sp_Domain (o_Spec o)) (o_Spec o) = true)) as Hlg.
  { intros lg. unfold latestGeneration, compiles. destruct (0 <? length skew)%nat.
    - destruct (Compile ns _ (Some (convert_Policy (bare_spec _)))) as [[? ?]|]; [|done]. by intros [= <-].
    - destruct (Compile ns _ (Some (convert_Policy (o_Spec o)))) as [[? ps]|]; [|done]. intros [= <-]. split_and!; try done.
      unfold Compiled. cbn [snd oc_Err]. by rewrite blockingError_None. }
  destruct (latestGeneration ns o skew) as [[snap oc0]|]; [|done]. destruct (Hlg _ eq_refl) as (Hu & Htl & Hcomp).
  cbn [mbind option_bind fst snd] in *. destruct (Compiled oc0) eqn:Ec.
  - destruct tl as [tl|].
    + exfalso. rewrite bool_decide_false in Hc by done. cbn [andb] in Hc.
      destruct (Compile ns _ (Some (convert_Policy (bare_spec _)))) as [[? ?]|]; [|done]. cbn [mbind option_bind] in Hc.
      destruct (good prev (o_UID o)) as [b0|]; [|by injection Hc as <- _ _].
      destruct (_ && _); [by injection Hc as <- _ _|]. destruct (Compile ns _ _) as [[? ps]|]; [|done].
      cbn [mbind option_bind] in Hc. destruct (blockingError ps); by injection Hc as <- _ _.
    + rewrite bool_decide_true in Hc by done. cbn [andb] in Hc. injection Hc as <- _ _. by split_and!; [| |apply Hcomp].
  - exfalso. cbn [andb] in Hc.
    assert (oc_Err oc0 <> None) as Hne by (intros E; unfold Compiled in Ec; by rewrite E, bool_decide_true in Ec).
    assert (forall sn, match good prev (o_UID o) with
      | None => Some (oc0, sn, no_bundle)
      | Some b => if (0 <? length skew)%nat && (bu_GoodGeneration b =? o_Generation o)
          then Some (set_lost (LostPruned (bu_GoodGeneration b)) oc0, sn, no_bundle)
          else '(fallback, problems) ← Compile ns (sp_Domain (o_Spec o)) (Some (convert_Policy (bu_GoodSpec b)));
               match blockingError problems with
               | Some err => Some (set_lost (LostNotCompiling (bu_GoodGeneration b) err) oc0, sn, no_bundle)
               | None => Some (withContribution (set_active (bu_GoodGeneration b) oc0) fallback, fallback, b)
               end
      end = Some (oc, s, b) -> False) as Hno.
    { intros sn H. destruct (good prev (o_UID o)) as [b0|]; [|by injection H as <- _ _].
      destruct (_ && _); [by injection H as <- _ _|]. destruct (Compile ns _ _) as [[? ps]|]; [|done].
      cbn [mbind option_bind] in H. destruct (blockingError ps); by injection H as <- _ _. }
    destruct tl; by apply Hno in Hc.
Qed.

(** What the latest good spec of a domain was applied from. *)
Lemma last_good_source ns d cfgs : forall ref s g u,
  foldl (last_good_step ns d) ref cfgs = Some (Good s g u) ->
  ref = Some (Good s g u) \/
  exists cfg e, cfg ∈ cfgs /\ mf_Domains (co_Manifest cfg) !! d = Some e /\ md_Generation e = g /\ md_UID e = u /\
    spec_at cfg d = s.
Proof.
  induction cfgs as [|cfg cfgs IH]; intros ref s g u; [by left|]. cbn [foldl]. intros [H|(c & e & Hin & H)]%IH.
  - unfold last_good_step in H. destruct (mf_Domains (co_Manifest cfg) !! d) as [e|] eqn:E; [|done].
    destruct (compiles ns d (spec_at cfg d)).
    + injection H as <- <- <-. right. exists cfg, e. by split_and!; [left|..].
    + destruct ref as [[s' g' u'|u']|]; [injection H as -> -> ->; by left|done..].
  - right. exists c, e. split; [by right|done].
Qed.

(** A replica that reports a generation enforces its spec. *)
Lemma report_enforced `{Platform, Wire} SnapshotVersion ns spec_of cfgs a domain spec generation uid d :
  Forall (fun c => reading_hashed spec_of c.1) cfgs -> apply_all SnapshotVersion ns cfgs NewApplier = Some a ->
  (forall cfg e, cfg ∈ cfgs.*1 -> mf_Domains (co_Manifest cfg) !! domain = Some e -> md_Generation e = generation ->
     md_UID e = uid -> spec_at cfg domain = spec) ->
  0 < generation ->
  re_Domains (report a) !! domain = Some d -> ad_Generation d = generation -> ad_UID d = uid ->
  Snapshot_of (ap_Store a) domain = Some (compiled ns domain spec).
Proof.
  intros Hf Ha Hgen Hpos Hd Hg Hu.
  destruct (apply_all_spec SnapshotVersion ns spec_of cfgs NewApplier (fun _ => None) Hf) as (a' & E & Hc & _ & Henf); [done..|].
  rewrite Ha in E. injection E as <-. specialize (Henf domain).
  unfold report, ReportOf in Hd. cbn [re_Domains] in Hd. rewrite lookup_fmap in Hd. unfold Snapshot_of.
  pose proof (held_coherent a domain Hc) as Hh. rewrite Hh in *. destruct (previous_of a domain) as [[sd h]|]; [|done].
  cbn in *. injection Hd as <-. cbn in Hg, Hu.
  destruct (foldl _ None cfgs.*1) as [[s g u|u]|] eqn:Efold; [| |done].
  - destruct Henf as (-> & _ & H3 & H4 & _). subst g u.
    destruct (last_good_source _ _ _ _ _ _ _ Efold) as [?|(cfg & e & Hin & He & Hge & Hue & <-)]; [done|].
    do 2 f_equal. eapply Hgen; [done|done| |]; congruence.
  - destruct Henf as (_ & _ & H3 & _). lia.
Qed.

(** The namespace's compilation has an entry for each of its objects. *)
Lemma compile_namespace_entry {CO : Codec} inp state limit result o :
  NoDup (o_Name <$> in_Policies inp) -> Forall (fun o => o_Name o = domain_of o) (in_Policies inp) -> 0 < limit ->
  compile_namespace (Some inp) state limit = Some (Some result) -> o ∈ in_Policies inp ->
  exists prev skew tl oc s b, compileDomainFitting (in_Namespace inp) o prev skew tl = Some (oc, s, b) /\
    rs_Policies result !! ObjectKeyFromObject o = Some oc.
Proof.
  intros Hn Hd Hl Hc Ho. unfold compile_namespace in Hc.
  destruct (match state with Some _ => _ | None => _ end) as [inp'|] eqn:E; [|done].
  assert (in_Policies inp' = in_Policies inp /\ in_Namespace inp' = in_Namespace inp) as [E1 E2].
  { destruct state as [[version load]|]; [|by injection E as <-]. destruct (load (Domains inp)); [|done]. by injection E as <-. }
  rewrite <- E1 in *. destruct (compile_fit_known inp' limit Hn Hd Hl) as (r & r' & Hr & Hf & [Hk _] & _).
  rewrite Hr in Hc. cbn [mbind option_bind] in Hc. rewrite Hf in Hc. cbn in Hc. injection Hc as <-.
  destruct (Hk o Ho) as (tl & oc & s & b & Hcd & _ & _ & Hp). rewrite E2 in Hcd. do 6 eexists. by split.
Qed.

Section reconcile.
Context {TX : Texts} {CL : ConditionList} {CO : Codec} {CLL : ConditionListLaws} {PS : Type}.
Context (observer : string -> Z -> string -> bool -> PS -> result probe_error FleetView * PS).

(** A reconcile that returned left the conditions of its judgement on the
    object. *)
Lemma Reconcile_conditions r key object before policies now probed wall fails ps m out w :
  Reconcile_policy observer r key (Got object before) policies now probed wall fails ps m = Some out -> ro_return out = Ok w ->
  exists result observed v e,
    compile_namespace policies (rc_State r) (policy_limit r) = Some (Some result) /\
    let o := default no_policy_outcome (rs_Policies result !! key) in
    observe observer r object o (negb (o_Generation object =? st_ObservedGeneration before)) ps = (observed, ro_probe out) /\
    (v, e) = match observed with Ok v => (dated now v, None) | Err e => (dated now no_view, Some e) end /\
    let j := judged r (o_Generation object) before o v e now wall in
    default before (ro_written out) = next_status r (o_Generation object) before o v e now wall /\
    me_policies (ro_metrics out) !! sp_Domain (o_Spec object) = Some (policyView object o j).
Proof.
  unfold Reconcile_policy. destruct (compile_namespace _ _ _) as [[result|]|]; [|by intros [= <-]|done]. cbn [mbind option_bind].
  set (o := default _ _). destruct (observe _ _ _ _ _ _) as [observed ps'] eqn:Eo.
  intros H Hw. exists result, observed, (dated now (match observed with Ok v => v | Err _ => no_view end)),
    (match observed with Ok _ => None | Err e => Some e end). split; [done|]. fold o. rewrite Eo.
  destruct observed as [v|e]; injection H as <-; unfold writeStatus in *; case_bool_decide as Hb; try (destruct fails; [done|]);
    cbn [ro_probe ro_written ro_metrics me_policies default] in *; split_and!; try done; apply lookup_insert_eq.
Qed.

End reconcile.

(** ** Claims *)

(** C11: Ready is true only when the rules on the object are the rules enforced.
    When a reconcile leaves Ready true, the latest generation compiles and is
    the one in effect, the Service has a ready endpoint, and every endpoint of
    the Service as it is now reported that generation of that object in the
    round the status rests on, which was taken during the call, or completed
    less than the freshness ago for a generation already observed. And a
    replica whose report it was serves exactly the snapshot of the object's
    spec, whatever readings it applied, as long as one generation of an object
    is one spec. *)
Theorem ready_means_enforced {PL : Platform} {WI : Wire} {TX : Texts} {CL : ConditionList} {CO : Codec} `{!ConditionListLaws}
    (unmarshal_report : string -> option Report) (freshness completed : Z) (listed : option (list EndpointSlice))
    (replies : list http_reply) (r : RateLimitPolicyReconciler) (object : RateLimitPolicy) (before : PolicyStatus)
    (inp : Input) (now probed wall : Z) (fails : bool) (held : option fleetRound) (m : metrics_state)
    (out : reconciled (option fleetRound)) (w : option Z) (c : Condition) :
  let domain := sp_Domain (o_Spec object) in
  let observer d g u fresh held := Observe unmarshal_report freshness now completed listed replies d g u fresh held in
  object ∈ in_Policies inp -> NoDup (o_Name <$> in_Policies inp) ->
  Forall (fun o => o_Name o = domain_of o) (in_Policies inp) -> 0 < o_Generation object ->
  (forall items, listed = Some items -> Z.of_nat (length (endpoints items)) < 2 ^ 31) ->
  Reconcile_policy observer r (ObjectKeyFromObject object) (Got object before) (Some inp) now probed wall fails held m = Some out ->
  ro_return out = Ok w -> FindStatusCondition (st_Conditions (default before (ro_written out))) ConditionReady = Some c ->
  cd_Status c = ConditionTrue ->
  compiles (in_Namespace inp) domain (o_Spec object) = true /\
  exists items round, listed = Some items /\ ro_probe out = Some round /\ endpoints items <> [] /\
    (round = takeRound unmarshal_report now completed (endpoints items) replies \/
     o_Generation object = st_ObservedGeneration before /\ held = Some round /\ now - fr_completed round < freshness) /\
    forall e, e ∈ endpoints items -> exists report d, fr_answers round !! e = Some report /\
      re_Domains report !! domain = Some d /\ ad_Generation d = o_Generation object /\ ad_UID d = o_UID object /\
      forall SnapshotVersion spec_of cfgs a,
        report = SvcConfig.report a -> apply_all SnapshotVersion (in_Namespace inp) cfgs NewApplier = Some a ->
        Forall (fun cfg => reading_hashed spec_of cfg.1) cfgs ->
        (forall cfg entry, cfg ∈ cfgs.*1 -> mf_Domains (co_Manifest cfg) !! domain = Some entry ->
           md_Generation entry = o_Generation object -> md_UID entry = o_UID object -> spec_at cfg domain = o_Spec object) ->
        Snapshot_of (ap_Store a) domain = Some (compiled (in_Namespace inp) domain (o_Spec object)).
Proof.
  intros domain observer Ho Hn Hd Hpos Hsmall Hrec Hret Hfind Htrue.
  destruct (Reconcile_conditions observer _ _ _ _ _ _ _ _ _ _ _ _ _ Hrec Hret) as (result & observed & v & e & Hc & Hobs & Hv & Hst & _).
  set (o := default no_policy_outcome _) in *. rewrite Hst, find_ready in Hfind. injection Hfind as <-. cbn [cd_Status] in Htrue.
  rewrite judged_eq in Htrue. apply judge_ready in Htrue as (Hserv & -> & Htot & Happ).
  assert (0 < policy_limit r) as Hl.
  { unfold policy_limit. rewrite Z.gtb_ltb. destruct (Z.ltb_spec 0 (rc_ConfigMapLimit r)); [done|]. by vm_compute. }
  destruct (compile_namespace_entry _ _ _ _ _ Hn Hd Hl Hc Ho) as (prev & skew & tl & oc & s & b & Hcd & Hp).
  assert (o = oc) as Eoc by (unfold o; by rewrite Hp). rewrite Eoc in *.
  destruct (outcome_servable _ _ _ _ _ _ _ _ Hcd Hserv) as (Hact & Huid & Hcomp). split; [done|].
  destruct observed as [v0|]; [injection Hv as ->|done]. unfold observe in Hobs. destruct (rc_Probe r); [|done]. cbn [negb] in Hobs.
  apply Observe_ok in Hobs as (items & round & Hli & Hpr & _ & Hends & -> & Hround).
  exists items, round. specialize (Hsmall items Hli). rewrite <- Hends in Hsmall.
  unfold dated in Htot, Happ. cbn [fv_Total fv_Applied] in Htot, Happ.
  split_and!; [done|done| | |].
  - intros E. destruct (view_spec round (sp_Domain (o_Spec object)) (oc_ActiveGeneration oc) (oc_UID oc) freshness Hsmall) as (Ht & _).
    rewrite Hends, E in Ht. done.
  - destruct Hround as [->|(Hf & Hh & Hfr)]; [by left|right]. split_and!; [|done|done].
    apply negb_false_iff in Hf. by apply Z.eqb_eq in Hf.
  - apply view_all_applied in Happ; [|done]. rewrite Forall_forall, Hends in Happ. intros e He.
    destruct (Happ e He) as (rep & Hrep & Hr). unfold reports in Hr. rewrite Hact, Huid in Hr.
    destruct (re_Domains rep !! sp_Domain (o_Spec object)) as [d|] eqn:Ed; [|done].
    apply andb_true_iff in Hr as [Hg%Z.eqb_eq Hu%bool_decide_eq_true].
    exists rep, d. split_and!; try done. intros SV spec_of cfgs a -> Ha Hf Hgen. by eapply report_enforced.
Qed.

(** ** Witnesses *)

(** The condition helpers over a list, the first condition of a type first. *)
Fixpoint list_find_condition (cs : list Condition) (t : string) : option Condition :=
  match cs with
  | [] => None
  | c :: cs => if bool_decide (cd_Type c = t) then Some c else list_find_condition cs t
  end.

Fixpoint list_stamp (t : string) (now : Z) (cs : list Condition) : list Condition :=
  match cs with
  | [] => []
  | c :: cs => if bool_decide (cd_Type c = t) then with_time now c :: cs else c :: list_stamp t now cs
  end.

Fixpoint list_set_condition (wall : Z) (c : Condition) (cs : list Condition) : list Condition :=
  match cs with
  | [] => [with_time wall c]
  | e :: cs =>
      if bool_decide (cd_Type e = cd_Type c)
      then with_time (if bool_decide (cd_Status e = cd_Status c) then cd_LastTransitionTime e else wall) c :: cs
      else e :: list_set_condition wall c cs
  end.

Definition listed_conditions : ConditionList := {|
  FindStatusCondition := list_find_condition;
  stamp := list_stamp;
  SetStatusCondition := list_set_condition |}.

#[local] Instance listed_conditions_laws : ConditionListLaws (H := listed_conditions).
Proof.
  split; cbn [listed_conditions FindStatusCondition stamp SetStatusCondition].
  - induction cs as [|x cs IH]; [done|]. intros t c. cbn [list_find_condition]. case_bool_decide; [by intros [= <-]|apply IH].
  - done.
  - induction cs as [|x cs IH]; intros t t' now; [by case_bool_decide|]. cbn [list_stamp list_find_condition].
    destruct (decide (cd_Type x = t)) as [Hx|Hx].
    + rewrite (bool_decide_true _ Hx). cbn [list_find_condition with_time cd_Type]. subst t. by case_bool_decide.
    + rewrite (bool_decide_false _ Hx). cbn [list_find_condition]. rewrite IH.
      destruct (decide (t = t')) as [->|Ht]; [by rewrite (bool_decide_false _ Hx), bool_decide_true|].
      by rewrite (bool_decide_false _ Ht).
  - induction cs as [|x cs IH]; intros c wall; cbn [list_set_condition list_find_condition with_time cd_Type].
    { by rewrite bool_decide_true. }
    destruct (decide (cd_Type x = cd_Type c)) as [Hx|Hx].
    + rewrite (bool_decide_true _ Hx). cbn [list_find_condition with_time cd_Type]. by rewrite bool_decide_true.
    + rewrite (bool_decide_false _ Hx). cbn [list_find_condition]. by rewrite (bool_decide_false _ Hx), IH.
  - induction cs as [|x cs IH]; intros c wall t Hne; cbn [list_set_condition list_find_condition with_time cd_Type].
    { by rewrite bool_decide_false by congruence. }
    destruct (decide (cd_Type x = cd_Type c)) as [Hx|Hx].
    + rewrite (bool_decide_true _ Hx). cbn [list_find_condition with_time cd_Type]. by rewrite !bool_decide_false by congruence.
    + rewrite (bool_decide_false _ Hx). cbn [list_find_condition]. by rewrite IH.
  - induction cs as [|x cs IH]; intros c wall; cbn [list_set_condition list_find_condition]; [done|].
    case_bool_decide as Hx; [|by intros H; rewrite IH]. intros [= ->]. rewrite bool_decide_true by done. by destruct c.
  - induction cs as [|x cs IH]; intros c wall t; cbn [list_set_condition with_time cd_Type cd_Status]; [done|].
    case_bool_decide; [done|]. by rewrite IH.
  - intros f. induction cs as [|x cs IH]; intros t; [done|]. rewrite fmap_cons. cbn [list_find_condition with_time cd_Type].
    case_bool_decide; [done|]. apply IH.
Qed.

Definition plain_texts : Texts := {| Sprintf m := msg_format m; probe_text _ := "unreachable" |}.

Definition demo_reconciler : RateLimitPolicyReconciler := mkReconciler None "ratelimit" true true 0 0.
Definition demo_policy : RateLimitPolicy := demo_object "ua" 2 (demo_rates 5).
Definition demo_namespace : Input := demo_input [demo_policy].

(** Two ready pods and one that is going away. *)
Definition demo_slices : list EndpointSlice :=
  [mkEndpointSlice [mkSlicePort (Some "grpc") (Some 9000); mkSlicePort (Some "metrics") (Some 9090)]
     [mkSliceEndpoint (Some true) None ["10.0.0.2"] (Some "pod-b"); mkSliceEndpoint None None ["10.0.0.1"] (Some "pod-a");
      mkSliceEndpoint (Some true) (Some true) ["10.0.0.3"] (Some "pod-c")]].
Definition demo_report : Report := mkReport {["gw" := mkAppliedDomain 2 "ua" 7]} [1] None false.
Definition demo_unmarshal (s : string) : option Report := if bool_decide (s = "{}") then Some demo_report else None.
Definition demo_replies : list http_reply := [HttpReply 200 "{}"; HttpReply 200 "{}"].

Definition demo_reconciled : option (reconciled (option fleetRound)) :=
  Reconcile_policy (TX := plain_texts) (CL := listed_conditions) (CO := demo_codec)
    (fun d g u fresh held => Observe demo_unmarshal ProbeInterval (100 * Second) (101 * Second) (Some demo_slices) demo_replies d g u fresh held)
    demo_reconciler ("ns", "gw") (Got demo_policy no_status) (Some demo_namespace) (100 * Second) (101 * Second) (101 * Second)
    false None (mkMetricsState ∅ ∅).

Lemma ready_means_enforced_witness :
  exists out c, demo_reconciled = Some out /\
    FindStatusCondition (ConditionList := listed_conditions) (st_Conditions (default no_status (ro_written out))) ConditionReady = Some c /\
    cd_Status c = ConditionTrue /\ compiles "ns" "gw" (demo_rates 5) = true.
Proof.
  assert (exists out w c, demo_reconciled = Some out /\ ro_return out = Ok w /\
    FindStatusCondition (ConditionList := listed_conditions) (st_Conditions (default no_status (ro_written out))) ConditionReady = Some c /\
    cd_Status c = ConditionTrue) as (out & w & c & E & Hr & Hf & Hc).
  { eexists _, _, _. split; [vm_compute; reflexivity|]. split; [vm_compute; reflexivity|]. split; vm_compute; reflexivity. }
  exists out, c. split; [exact E|]. split; [exact Hf|]. split; [exact Hc|].
  apply (@ready_means_enforced demo_mgmt_platform gw_wire plain_texts listed_conditions demo_codec listed_conditions_laws demo_unmarshal
    ProbeInterval (101 * Second) (Some demo_slices) demo_replies demo_reconciler demo_policy no_status demo_namespace
    (100 * Second) (101 * Second) (101 * Second) false None (mkMetricsState ∅ ∅) out w c); try assumption.
  - left.
  - by_decide.
  - by repeat constructor.
  - reflexivity.
  - intros items [= <-]. vm_compute. reflexivity.
Defined.

(** * Runs of the operator's reconciler on concrete objects

    The claims of ControllerClaims and FleetFacts applied to a namespace of
    one policy with a fleet of two replicas. *)

#[local] Existing Instances plain_texts listed_conditions listed_conditions_laws.

(** A fleet of two, one of them behind. *)
Definition lagging_view : FleetView := mkFleetView None None 2 1 ["pod-b"] [] [].
Definition demo_turn (object : RateLimitPolicy) (at_ : Z) : turn :=
  mkTurn object (Some (demo_input [object])) (fun _ _ _ _ => Ok lagging_view) (at_ * Second) (at_ * Second) (at_ * Second) false.
Definition spread_turn (at_ : Z) : turn := demo_turn demo_policy at_.
Definition demo_key : ObjectKey := ("ns", "gw").

Lemma timely_demo object at_ : timely 0 (demo_turn object at_).
Proof. unfold timely. cbn. lia. Qed.


Lemma status_settles_witness :
  exists out, let s := after_turn demo_reconciler demo_key (spread_turn 100) no_status in
    reconcile_turn demo_reconciler demo_key (spread_turn 130) s (mkMetricsState ∅ ∅) = Some out /\ ro_written out = None.
Proof.
  assert (exists o v v', seen demo_reconciler demo_key (spread_turn 100) no_status = Some (o, v, None) /\
    seen demo_reconciler demo_key (spread_turn 130) (after_turn demo_reconciler demo_key (spread_turn 100) no_status) = Some (o, v', None) /\
    same_fleet v v' /\
    fs_readyReason (judged demo_reconciler 2 (after_turn demo_reconciler demo_key (spread_turn 100) no_status) o v' None (130 * Second) (130 * Second)) =
      fs_readyReason (judged demo_reconciler 2 no_status o v None (100 * Second) (100 * Second))) as (o & v & v' & Hs & Hs' & Hv & Hr).
  { eexists _, _, _. split; [vm_compute; reflexivity|]. split; [vm_compute; reflexivity|].
    split; [by repeat split|vm_compute; reflexivity]. }
  destruct (status_settles demo_reconciler demo_key (spread_turn 100) (spread_turn 130) no_status (mkMetricsState ∅ ∅) o v v' None)
    as (out & Ho & Hw & _).
  - eexists _, _. split; vm_compute; reflexivity.
  - exact Hs.
  - reflexivity.
  - exact Hs'.
  - exact Hv.
  - exact Hr.
  - intros _. vm_compute. reflexivity.
  - exists out. split; [exact Ho|exact Hw].
Defined.

(** A generation with a limit by a key no mapping declares. *)
Definition broken_demo_turn (at_ : Z) : turn := demo_turn (demo_object "ua" 3 demo_broken) at_.

Lemma broken_demo at_ : broken_turn demo_reconciler demo_key 3 (broken_demo_turn at_).
Proof.
  split; [done|]. intros s o v e. unfold seen.
  assert (exists result o', compile_namespace (tu_policies (broken_demo_turn at_)) (rc_State demo_reconciler) (policy_limit demo_reconciler)
    = Some (Some result) /\ rs_Policies result !! demo_key = Some o' /\ Compiled o' = false) as (result & o' & -> & Hr & Hc).
  { eexists _, _. split; [vm_compute; reflexivity|]. split; vm_compute; reflexivity. }
  rewrite Hr. by intros [= <- <- <-].
Qed.

Lemma one_warning_per_generation_witness :
  warnings demo_reconciler demo_key [broken_demo_turn 100; broken_demo_turn 130; broken_demo_turn 160] no_status = 1%nat.
Proof.
  apply (one_warning_per_generation demo_reconciler demo_key 3 [broken_demo_turn 100] [broken_demo_turn 160] (broken_demo_turn 130) no_status).
  - repeat constructor; try apply broken_demo; reflexivity.
  - reflexivity.
  - by vm_compute.
  - eexists _, _. split; vm_compute; reflexivity.
Defined.

Lemma fleet_observation_exact_witness :
  exists v held, Observe demo_unmarshal ProbeInterval (100 * Second) (101 * Second) (Some demo_slices) [HttpReply 200 "{}"; HttpReply 503 ""] "gw" 2 "ua"
    true None = (Ok v, held) /\ fv_Total v = 2 /\ fv_Total v = fv_Applied v + Z.of_nat (length (fv_Behind v)) + Z.of_nat (length (fv_Silent v)).
Proof.
  assert (exists v held, Observe demo_unmarshal ProbeInterval (100 * Second) (101 * Second) (Some demo_slices)
    [HttpReply 200 "{}"; HttpReply 503 ""] "gw" 2 "ua" true None = (Ok v, held)) as (v & held & Ho)
    by (eexists _, _; vm_compute; reflexivity).
  exists v, held. split; [exact Ho|].
  destruct (fleet_observation_exact demo_unmarshal ProbeInterval (100 * Second) (101 * Second) demo_slices
    [HttpReply 200 "{}"; HttpReply 503 ""] "gw" 2 "ua" true None held v) as (applied & behind & silent & refusing & _ & Ht & _ & _ & _ & _ & Hsum & _).
  - by_decide.
  - vm_compute. reflexivity.
  - reflexivity.
  - exact Ho.
  - intros r [=].
  - split; [rewrite Ht; vm_compute; reflexivity|exact Hsum].
Defined.
