(* ===== verification/WatchLoop.v ===== *)
(** * service/internal/config/watch.go: the loop of the watcher

    [Watcher.Run] as an automaton with a clock. An event is what one turn of
    the select receives, a change of the mounted directory, or time passing.
    The file watcher is the environment: whether it can be created, whether the
    directory can be added, and when it notifies are parts of the events, so
    every notification may be late or lost. Time passes only up to the next
    instant at which a timer of the loop is due; a read takes no time. *)
From S2P Require Import Prelude GoStrings Algo Compile Identity Convert OpPolicy Selector Manifest ConfigStore SvcConfig SvcConfigClaims.

(** ** Definitions *)

Definition DefaultResync : Z := 10 * Second.
Definition DefaultSettle : Z := 100 * 1000000.

(** The periods [Run] uses of the fields. *)
Definition resync_of (resync : Z) : Z := if resync <=? 0 then DefaultResync else resync.
Definition settle_of (settle : Z) : Z := if settle <=? 0 then DefaultSettle else settle.

(** [watch]: whether [notify.Add] took the directory. *)
Definition watch (added : result string unit) : bool := match added with Ok _ => true | Err _ => false end.

(** Where [Run] is: before its first statement, in the select, or returned,
    with the error of the file watcher if that ended it. *)
Inductive run_pc := Starting | Selecting | Exited (err : option string).

#[export] Instance run_pc_eq_dec : EqDecision run_pc.
Proof. solve_decision. Defined.

(** [lp_pending] and [lp_next] are the instants the settle timer and the
    ticker fire; a nil [pending] channel is [None]. The last four fields are
    not the code's: the directory, when it changed, whether it was read since,
    and when the loop first received a notification since. *)
Record loop := mkLoop {
  lp_pc : run_pc;
  lp_now : Z;
  lp_watching : bool;
  lp_pending : option Z;
  lp_next : Z;
  lp_watcher : Watcher;
  lp_applier : Applier;
  lp_dir : directory;
  lp_changed : Z;
  lp_read : bool;
  lp_noticed : option Z }.

(** The instants of an event that reads are those [read] stamps the rule set
    with. *)
Inductive event :=
| EvCreate (created : result string unit) (added : result string unit) (at_ : Z * Z)
| EvCancelled
| EvNotified
| EvNotifyError
| EvSettled (at_ : Z * Z)
| EvTick (added : result string unit) (at_ : Z * Z)
| EvChange (dir : directory)
| EvWait (d : Z).

Section run.
Context {PL : Platform} {WI : Wire}.
Context (SnapshotVersion : Snapshot -> string) (reason_text : refusal_reason -> string) (ns : string).
Context (Resync Settle : Z).

(** [w.read()] on the directory as it is. *)
Definition loop_read (at_ : Z * Z) (l : loop) : option loop :=
  '(w, a) ← read SnapshotVersion reason_text ns (lp_dir l) at_.1 at_.2 (lp_watcher l) (lp_applier l);
  Some (mkLoop (lp_pc l) (lp_now l) (lp_watching l) (lp_pending l) (lp_next l) w a (lp_dir l) (lp_changed l) true None).

(** The loop with its channels set. *)
Definition with_channels (pc : run_pc) (watching : bool) (pending : option Z) (next : Z) (l : loop) : loop :=
  mkLoop pc (lp_now l) watching pending next (lp_watcher l) (lp_applier l) (lp_dir l) (lp_changed l) (lp_read l) (lp_noticed l).

(** What [Run] does up to the select: the watch is set before the first read,
    the ticker after it. *)
Definition run_start (created added : result string unit) (at_ : Z * Z) (l : loop) : option loop :=
  match created with
  | Err e => Some (with_channels (Exited (Some e)) (lp_watching l) (lp_pending l) (lp_next l) l)
  | Ok _ =>
      l ← loop_read at_ (with_channels Starting (watch added) None (lp_next l) l);
      Some (with_channels Selecting (lp_watching l) None (lp_now l + resync_of Resync) l)
  end.

(** One turn of the select. A case whose channel has nothing cannot be taken,
    so it is [None]. The settle timer is armed by the first event of a burst
    only. *)
Definition run_select (e : event) (l : loop) : option loop :=
  match e with
  | EvCancelled => Some (with_channels (Exited None) (lp_watching l) (lp_pending l) (lp_next l) l)
  | EvNotified =>
      let pending := match lp_pending l with None => lp_now l + settle_of Settle | Some t => t end in
      Some (mkLoop (lp_pc l) (lp_now l) (lp_watching l) (Some pending) (lp_next l) (lp_watcher l) (lp_applier l) (lp_dir l)
              (lp_changed l) (lp_read l) (if lp_read l then None else Some (default (lp_now l) (lp_noticed l))))
  | EvNotifyError => Some l
  | EvSettled at_ =>
      if bool_decide (lp_pending l = Some (lp_now l))
      then loop_read at_ (with_channels Selecting (lp_watching l) None (lp_next l) l) else None
  | EvTick added at_ =>
      if lp_next l =? lp_now l
      then loop_read at_ (with_channels Selecting (if negb (lp_watching l) then watch added else lp_watching l)
                            (lp_pending l) (lp_now l + resync_of Resync) l)
      else None
  | _ => None
  end.

(** The directory changes at any time; the clock stops at the next timer. *)
Definition environment (e : event) (l : loop) : option loop :=
  match e with
  | EvChange dir =>
      Some (mkLoop (lp_pc l) (lp_now l) (lp_watching l) (lp_pending l) (lp_next l) (lp_watcher l) (lp_applier l) dir
              (lp_now l) false None)
  | EvWait d =>
      if (0 <=? d) && (bool_decide (lp_pc l <> Selecting) ||
           (lp_now l + d <=? lp_next l) && (lp_now l + d <=? default (lp_next l) (lp_pending l)))
      then Some (mkLoop (lp_pc l) (lp_now l + d) (lp_watching l) (lp_pending l) (lp_next l) (lp_watcher l) (lp_applier l) (lp_dir l)
                   (lp_changed l) (lp_read l) (lp_noticed l))
      else None
  | _ => None
  end.

Definition loop_step (e : event) (l : loop) : option loop :=
  match e, lp_pc l with
  | EvChange _, _ | EvWait _, _ => environment e l
  | EvCreate created added at_, Starting => run_start created added at_ l
  | _, Selecting => run_select e l
  | _, _ => None
  end.

Fixpoint loop_run (es : list event) (l : loop) : option loop :=
  match es with
  | [] => Some l
  | e :: es => l ← loop_step e l; loop_run es l
  end.

(** A watcher that was not run yet, over a directory. *)
Definition new_loop (now : Z) (dir : directory) : loop :=
  mkLoop Starting now false None now NewWatcher NewApplier dir now false None.

End run.

(** ** Lemmas *)

(** What an applier shows that follows a directory. *)
Definition follows {PL : Platform} {WI : Wire} (ns : string) (dir : directory) (a : Applier) : Prop :=
  match Read dir with
  | Ok cfg =>
      Ready a = true /\ re_Refusal (report a) = None /\ re_ConfigAbsent (report a) = false /\
      (forall d, is_Some (re_Domains (report a) !! d) <-> is_Some (mf_Domains (co_Manifest cfg) !! d)) /\
      forall d e, mf_Domains (co_Manifest cfg) !! d = Some e -> compiles ns d (spec_at cfg d) = true ->
        serves ns a d e (spec_at cfg d)
  | Err ErrAbsent => re_ConfigAbsent (report a) = true
  | Err _ => re_ConfigAbsent (report a) = false
  end.

(** The directories an event brings. *)
Definition event_dirs (es : list event) : list directory :=
  omap (fun e => match e with EvChange dir => Some dir | _ => None end) es.

Lemma resync_pos r : 0 < resync_of r.
Proof. unfold resync_of. destruct (Z.leb_spec r 0); [by vm_compute|lia]. Qed.

Lemma settle_pos s : 0 < settle_of s.
Proof. unfold settle_of. destruct (Z.leb_spec s 0); [by vm_compute|lia]. Qed.

Section facts.
Context {PL : Platform} {WI : Wire}.
Context (SnapshotVersion : Snapshot -> string) (reason_text : refusal_reason -> string) (ns : string).
Context (Resync Settle : Z) (spec_of : string -> RateLimitPolicySpec).
Context (Hempty : unmarshal_version "" = None).

Abbreviation resync := (resync_of Resync).
Abbreviation settle := (settle_of Settle).
Abbreviation winv := (watch_inv SnapshotVersion ns spec_of).
Abbreviation lread := (loop_read SnapshotVersion reason_text ns).
Abbreviation lstep := (loop_step SnapshotVersion reason_text ns Resync Settle).

Record loop_ok (l : loop) : Prop := {
  ok_watch : winv (lp_watcher l) (lp_applier l);
  ok_hashed : directory_hashed spec_of (lp_dir l);
  ok_fresh : lp_read l = true -> follows ns (lp_dir l) (lp_applier l);
  ok_next : lp_pc l = Selecting -> lp_now l <= lp_next l <= lp_now l + resync;
  ok_unread : lp_pc l = Selecting -> lp_read l = false -> lp_next l <= lp_changed l + resync;
  ok_pending t : lp_pc l = Selecting -> lp_pending l = Some t -> lp_now l <= t <= lp_now l + settle;
  ok_noticed n : lp_pc l = Selecting -> lp_read l = false -> lp_noticed l = Some n ->
    exists t, lp_pending l = Some t /\ t <= n + settle }.

Lemma loop_read_follows dir at_ w a : directory_hashed spec_of dir -> winv w a ->
  exists w' a', read SnapshotVersion reason_text ns dir at_.1 at_.2 w a = Some (w', a') /\ winv w' a' /\ follows ns dir a'.
Proof.
  intros Hd Hw. destruct (read_inv SnapshotVersion reason_text ns spec_of dir at_.1 at_.2 w a Hd Hw) as (w' & a' & E & Hi).
  destruct (read_follows SnapshotVersion reason_text ns spec_of w a dir at_.1 at_.2 Hempty Hd Hw) as (w2 & a2 & E2 & Hf).
  rewrite E in E2. injection E2 as <- <-. exists w', a'. split_and!; [done..|]. unfold follows. destruct Hi as (_ & Hab & _).
  unfold read in E. destruct (Read dir) as [cfg|[| |refusal]]; [done| | |].
  - unfold report, ReportOf. cbn. rewrite Hab. destruct (wt_absent w) eqn:Ea; injection E as <- _; done.
  - unfold report, ReportOf. cbn. rewrite Hab. unfold present in E. by injection E as <- _.
  - unfold report, ReportOf. cbn. rewrite Hab. unfold present in E. destruct (bytes_Equal _ _); by injection E as <- _.
Qed.

(** A read is total and leaves the loop following its directory. *)
Lemma loop_read_ok at_ l : winv (lp_watcher l) (lp_applier l) -> directory_hashed spec_of (lp_dir l) ->
  exists w a, lread at_ l =
      Some (mkLoop (lp_pc l) (lp_now l) (lp_watching l) (lp_pending l) (lp_next l) w a (lp_dir l) (lp_changed l) true None) /\
    winv w a /\ follows ns (lp_dir l) a.
Proof.
  intros Hw Hd. unfold loop_read. destruct (loop_read_follows (lp_dir l) at_ _ _ Hd Hw) as (w & a & E & Hi & Hf).
  rewrite E. cbn. by exists w, a.
Qed.

Ltac loop_fields := cbn [with_channels lp_pc lp_now lp_watching lp_pending lp_next lp_watcher lp_applier lp_dir lp_changed lp_read lp_noticed] in *.

(** The loop right after a read in which its timers are in order. *)
Lemma after_read at_ l : loop_ok l -> forall pc watching pending next l',
  (pc = Selecting -> lp_now l <= next <= lp_now l + resync) ->
  (forall t, pending = Some t -> lp_now l <= t <= lp_now l + settle) ->
  lread at_ (with_channels pc watching pending next l) = Some l' -> loop_ok l' /\ lp_now l' = lp_now l /\ lp_watching l' = watching /\
    lp_pending l' = pending /\ lp_pc l' = pc /\ lp_read l' = true.
Proof.
  intros [] pc watching pending next l' Hn Hp E.
  destruct (loop_read_ok at_ (with_channels pc watching pending next l)) as (w & a & E' & Hi & Hf); [done..|].
  rewrite E in E'. injection E' as ->. split; [|done]. constructor; loop_fields; try done. intros t _. apply Hp.
Qed.

Lemma run_start_ok created added at_ l l' : loop_ok l ->
  run_start SnapshotVersion reason_text ns Resync created added at_ l = Some l' -> loop_ok l'.
Proof.
  intros Hok. unfold run_start. destruct created as [|e].
  - destruct (lread at_ _) as [l1|] eqn:E; [|done]. cbn [mbind option_bind]. intros [= <-].
    apply after_read in E as ([] & Hnow & _ & Hp & _ & Hr); [|done..]. pose proof (resync_pos Resync).
    constructor; loop_fields; try done; intros; [lia|congruence..].
  - intros [= <-]. destruct Hok. by constructor; loop_fields.
Qed.

Lemma run_select_ok e l l' : loop_ok l -> lp_pc l = Selecting ->
  run_select SnapshotVersion reason_text ns Resync Settle e l = Some l' -> loop_ok l'.
Proof.
  intros Hok Hpc. pose proof (resync_pos Resync). pose proof (settle_pos Settle).
  pose proof (ok_next l Hok Hpc) as Hn. pose proof (fun t => ok_pending l Hok t Hpc) as Hp.
  destruct e as [| | | |at_|added at_| |]; cbn [run_select]; try done.
  - intros [= <-]. destruct Hok. by constructor; loop_fields.
  - intros [= <-]. destruct Hok as [? ? ? ? ? _ Hnt]. constructor; loop_fields; try done.
    + intros t _ [= <-]. destruct (lp_pending l) as [u|]; [by apply Hp|lia].
    + intros n _ Hr. rewrite Hr. intros [= <-]. eexists. split; [done|]. destruct (lp_noticed l) as [n|]; cbn.
      * destruct (Hnt n Hpc Hr eq_refl) as (t & -> & ?). done.
      * destruct (lp_pending l) as [u|]; [by apply Hp|lia].
  - by intros [= <-].
  - destruct (bool_decide _); [|done]. intros E. by apply after_read in E as [? _].
  - destruct (Z.eqb_spec (lp_next l) (lp_now l)); [|done]. intros E. apply after_read in E as [? _]; [done|done|lia|done].
Qed.

Lemma environment_ok e l l' : loop_ok l -> Forall (directory_hashed spec_of) (event_dirs [e]) ->
  environment e l = Some l' -> loop_ok l'.
Proof.
  intros Hok Hd. destruct e as [| | | | | |dir|d]; cbn [environment]; try done.
  - intros [= <-]. destruct (proj1 (Forall_cons _ _ _) Hd) as [Hdir _]. destruct Hok as [? ? ? Hn ? Hp ?].
    constructor; loop_fields; try done. intros Hpc _. specialize (Hn Hpc). lia.
  - destruct (Z.leb_spec 0 d); [|done]. cbn [andb]. intros E.
    destruct (_ || _) eqn:Eg; [|done]. injection E as <-. destruct Hok as [? ? ? Hn Hu Hp Hnt].
    assert (lp_pc l = Selecting -> lp_now l + d <= lp_next l /\ lp_now l + d <= default (lp_next l) (lp_pending l)) as Hg.
    { intros Hpc. rewrite bool_decide_false in Eg by tauto. apply andb_true_iff in Eg as [?%Z.leb_le ?%Z.leb_le]. done. }
    constructor; loop_fields; try done; intros.
    + specialize (Hn ltac:(done)). destruct (Hg ltac:(done)). lia.
    + destruct (Hg ltac:(done)) as [_ Hg']. specialize (Hp t ltac:(done) ltac:(done)).
      match goal with H : lp_pending l = _ |- _ => rewrite H in Hg' end. cbn in Hg'. lia.
Qed.

Lemma loop_step_ok e l l' : loop_ok l -> Forall (directory_hashed spec_of) (event_dirs [e]) ->
  lstep e l = Some l' -> loop_ok l'.
Proof.
  intros Hok Hd. unfold loop_step. destruct e; try (by apply environment_ok); destruct (lp_pc l) eqn:Epc; try done;
    (eapply run_start_ok || eapply run_select_ok); done.
Qed.

Lemma loop_run_ok es l l' : loop_ok l -> Forall (directory_hashed spec_of) (event_dirs es) ->
  loop_run SnapshotVersion reason_text ns Resync Settle es l = Some l' -> loop_ok l'.
Proof.
  revert l. induction es as [|e es IH]; intros l Hok Hd; cbn [loop_run]; [by intros [= <-]|].
  destruct (lstep e l) as [l1|] eqn:E; [|done]. cbn [mbind option_bind].
  change (e :: es) with ([e] ++ es) in Hd. unfold event_dirs in Hd. rewrite omap_app in Hd. apply Forall_app in Hd as [Hd1 Hd2].
  apply IH; [|done]. by eapply loop_step_ok.
Qed.

Lemma new_loop_ok now dir : directory_hashed spec_of dir -> loop_ok (new_loop now dir).
Proof. intros Hd. constructor; try done. apply fresh_inv. Qed.

End facts.
(** ** Claims *)

(** C19: A change of the mounted directory reaches the rule set in bounded time,
    whatever notifications are lost. In every state the loop can be in, either
    its last read was of the directory as it is now, and the replica follows
    it: ready, serving exactly the domains of the manifest, or reporting its
    absence; or the change is at most one resync period old and no
    notification of it was received more than the settle time ago. A tick that
    is due can always be taken and reads, so the bound is met, and a cancelled
    context ends the loop without an error and without a change to what the
    replica serves. *)
Theorem watcher_prompt {PL : Platform} {WI : Wire} (SnapshotVersion : Snapshot -> string) (reason_text : refusal_reason -> string)
    (ns : string) (Resync Settle : Z) (spec_of : string -> RateLimitPolicySpec) (t0 : Z) (dir0 : directory) (es : list event) (l : loop) :
  unmarshal_version "" = None -> directory_hashed spec_of dir0 -> Forall (directory_hashed spec_of) (event_dirs es) ->
  loop_run SnapshotVersion reason_text ns Resync Settle es (new_loop t0 dir0) = Some l -> lp_pc l = Selecting ->
  let step := loop_step SnapshotVersion reason_text ns Resync Settle in
  (if lp_read l then follows ns (lp_dir l) (lp_applier l)
   else lp_now l <= lp_changed l + resync_of Resync /\ forall n, lp_noticed l = Some n -> lp_now l <= n + settle_of Settle) /\
  (forall added at_, lp_next l = lp_now l ->
     exists l', step (EvTick added at_) l = Some l' /\ lp_read l' = true /\ follows ns (lp_dir l) (lp_applier l')) /\
  exists l', step EvCancelled l = Some l' /\ lp_pc l' = Exited None /\ lp_applier l' = lp_applier l.
Proof.
  intros Hempty Hd0 Hds Hrun Hpc step. subst step.
  pose proof (loop_run_ok SnapshotVersion reason_text ns Resync Settle spec_of Hempty es _ _
    (new_loop_ok SnapshotVersion ns Resync Settle spec_of t0 dir0 Hd0) Hds Hrun) as [Hw Hh Hf Hn Hu Hp Hnt].
  split_and!.
  - destruct (lp_read l) eqn:Er; [by apply Hf|]. specialize (Hn Hpc). specialize (Hu Hpc eq_refl). split; [lia|].
    intros n En. destruct (Hnt n Hpc eq_refl En) as (t & Et & ?). specialize (Hp t Hpc Et). lia.
  - intros added at_ Edue. unfold loop_step, run_select. rewrite Hpc, Edue, Z.eqb_refl.
    set (l1 := with_channels _ _ _ _ l).
    destruct (loop_read_ok SnapshotVersion reason_text ns spec_of Hempty at_ l1) as (w & a & E & _ & Hfo); [done..|].
    rewrite E. eexists. split; [done|]. split; [done|exact Hfo].
  - unfold loop_step. rewrite Hpc. by eexists.
Qed.

(** ** Witnesses *)

(** The volume is mounted while the replica runs, and its notification is
    received. *)
Definition demo_events : list event :=
  [EvCreate (Ok tt) (Err "no such directory") (1, 2); EvWait (3 * Second); EvChange (mounted gw_cm); EvNotified;
   EvWait (100 * 1000000); EvSettled (3, 4)].

Lemma demo_loop_hashed : directory_hashed (PL := demo_mgmt_platform) (WI := gw_wire) gw_spec_of (fun _ => FileAbsent).
Proof. by intros d c spec h Hc. Qed.

Lemma watcher_prompt_witness :
  exists l, loop_run (PL := demo_mgmt_platform) (WI := gw_wire) no_version no_reason "ns" 0 0 demo_events
      (new_loop 0 (fun _ => FileAbsent)) = Some l /\
    lp_pc l = Selecting /\ Ready (lp_applier l) = true.
Proof.
  destruct (loop_run (PL := demo_mgmt_platform) (WI := gw_wire) no_version no_reason "ns" 0 0 demo_events
      (new_loop 0 (fun _ => FileAbsent))) as [l|] eqn:E.
  2:{ exfalso. assert (is_Some (loop_run (PL := demo_mgmt_platform) (WI := gw_wire) no_version no_reason "ns" 0 0 demo_events
        (new_loop 0 (fun _ => FileAbsent)))) as [? H] by (eexists; vm_compute; reflexivity). rewrite E in H. discriminate H. }
  exists l. split; [reflexivity|].
  assert ((fun o => from_option (fun l => (lp_pc l, lp_read l)) (Starting, false) o) (loop_run (PL := demo_mgmt_platform) (WI := gw_wire)
    no_version no_reason "ns" 0 0 demo_events (new_loop 0 (fun _ => FileAbsent))) = (Selecting, true)) as Hpc by (vm_compute; reflexivity).
  rewrite E in Hpc. cbn in Hpc. injection Hpc as Hpc Hr. split; [exact Hpc|].
  destruct (watcher_prompt (PL := demo_mgmt_platform) (WI := gw_wire) no_version no_reason "ns" 0 0 gw_spec_of 0 (fun _ => FileAbsent)
    demo_events l) as (H & _); [reflexivity|exact demo_loop_hashed|repeat constructor; exact gw_hashed|exact E|exact Hpc|].
  rewrite Hr in H. assert (lp_dir l = mounted gw_cm) as Hdir.
  { assert (from_option lp_dir (fun _ => FileAbsent) (loop_run (PL := demo_mgmt_platform) (WI := gw_wire)
      no_version no_reason "ns" 0 0 demo_events (new_loop 0 (fun _ => FileAbsent))) = mounted gw_cm) as Hd by (vm_compute; reflexivity).
    rewrite E in Hd. exact Hd. }
  rewrite Hdir in H. unfold follows in H.
  assert (exists cfg, Read (PL := demo_mgmt_platform) (WI := gw_wire) (mounted gw_cm) = Ok cfg) as [cfg Ec]
    by (eexists; vm_compute; reflexivity).
  rewrite Ec in H. exact (proj1 H).
Defined.
