(* ===== verification/Runners.v ===== *)
(** * The runners of the listeners

    The three programs of the service that listen, serve in a goroutine and
    drain when their context ends: rls/runner.go (gRPC), management/server.go
    (the management API) and [serve] of app/app.go (metrics and probes). The
    server each of them drives is third-party code and a class: calls are made
    on it, and it moves on its own. A runner is a function from what its next
    statement receives to its next state; the step relation adds the moves of
    the server and the passing of time. *)
From stdpp Require Import relations.
From S2P Require Import Prelude GoStrings Algo.

(** ** The servers *)

(** [CServe] is [Serve] or [App.Listener], run in a goroutine of its own;
    [CShutdown] is [GracefulStop], [ShutdownWithTimeout] or [Shutdown];
    [CClose] is [Stop], or closing the listener. *)
Inductive server_call := CServe | CShutdown | CClose.

#[export] Instance server_call_eq_dec : EqDecision server_call.
Proof. solve_decision. Defined.

(** What Serve returns when it does not fail on its own: nil, or the sentinel
    that says the server was stopped ([grpc.ErrServerStopped],
    [net.ErrClosed]). *)
Inductive serve_end := ServeNil | ServeStopped | ServeFailed (reason : string).

#[export] Instance serve_end_eq_dec : EqDecision serve_end.
Proof. solve_decision. Defined.

Class NetServer := {
  server : Type;
  fresh_server : server;
  invoke : server_call -> server -> server;
  moves : relation server;
  called : server_call -> server -> bool;
  served : server -> option serve_end;
  shut : server -> option (option string);
  in_flight : server -> nat;
  cut_off : server -> nat }.

(** What their documentation says. A return is final. A shutdown that returned
    without an error has waited for the requests in flight and takes no new
    ones; only closing cuts requests off; a server that serves and is closed
    ends its Serve and the shutdown that waits. *)
Class NetServerLaws `{NetServer} := {
  fresh_idle : served fresh_server = None /\ shut fresh_server = None /\ cut_off fresh_server = 0%nat /\
    forall c, called c fresh_server = false;
  invoke_called c c' s : called c' (invoke c s) = bool_decide (c = c') || called c' s;
  moves_called c s s' : moves s s' -> called c s' = called c s;
  invoke_served c s r : served s = Some r -> served (invoke c s) = Some r;
  moves_served s s' r : moves s s' -> served s = Some r -> served s' = Some r;
  invoke_shut c s r : shut s = Some r -> shut (invoke c s) = Some r;
  moves_shut s s' r : moves s s' -> shut s = Some r -> shut s' = Some r;
  shut_idle s : shut s = Some None -> in_flight s = 0%nat;
  invoke_cut c s : c <> CClose -> cut_off (invoke c s) = cut_off s;
  moves_cut s s' : moves s s' -> called CClose s = false -> cut_off s' = cut_off s;
  close_ends s : called CServe s = true -> called CClose s = true ->
    exists s', rtc moves s s' /\ is_Some (served s') /\ (called CShutdown s = true -> is_Some (shut s')) }.

(** A shutdown that takes a timeout returns. *)
Class BoundedShutdown `{NetServer} := {
  shutdown_returns s : called CServe s = true -> called CShutdown s = true -> exists s', rtc moves s s' /\ is_Some (shut s') }.

(** [GracefulStop] of gRPC returns nothing, and Serve returns once it did. *)
Class GracefulShutdown `{NetServer} := {
  graceful_nil s e : shut s <> Some (Some e);
  graceful_ends s : called CServe s = true -> is_Some (shut s) -> exists s', rtc moves s s' /\ is_Some (served s') }.

(** Why a runner ends. *)
Inductive run_error :=
| ListenOn (addr reason : string)
| ListenFor (name addr reason : string)
| ServeRls (reason : string)
| ServeManagement (reason : string)
| ServeHttp (name : string) (e : serve_end)
| ShutdownHttp (reason : string)
| CreateWatcher (reason : string)
| StoreMoved (from to : string).

#[export] Instance run_error_eq_dec : EqDecision run_error.
Proof. solve_decision. Defined.

(** What a runner's next statement receives: the answer of [net.Listen], which
    is the bound address; a channel of a select; nothing. *)
Inductive turn := TListen (r : result string string) | TNext | TServed | TDone | TShut | TTimeout.

(** ** rls/runner.go *)

Definition rls_DefaultDrainTimeout : Z := 10 * Second.
Definition maxCheckBytes : Z := Z.shiftl 128 10.
Definition healthNames (service : string) : list string := [""; service].

(** Where [Start] is: the next statement, or the receive it waits at. *)
Inductive rls_pc :=
| RListen
| RRegister
| RMark
| RSelect
| RServed (e : serve_end)
| RUnmark
| RUnhealthy
| RDrain
| RStop
| RDrained
| RAwait
| RReturned (err : option run_error).

Section runners.
Context `{NetServer}.

(** What the health service answers for a name: serving or not. *)
Definition health : Type := string -> option bool.

Record rls_runner := mkRlsRunner {
  rr_pc : rls_pc;
  rr_serving : bool;
  rr_health : health;
  rr_server : server;
  rr_now : Z;
  rr_deadline : Z }.

Definition rls_new (now : Z) : rls_runner := mkRlsRunner RListen false (fun _ => None) fresh_server now now.

Definition Serving (r : rls_runner) : bool := rr_serving r.
Definition Healthz (r : rls_runner) : result string unit :=
  if negb (Serving r) then Err "rls gRPC server is not serving" else Ok tt.

Definition SetServingStatus (names : list string) (status : bool) (h : health) : health :=
  foldl (fun h n => fun name => if bool_decide (name = n) then Some status else h name) h names.

Definition rls_at (pc : rls_pc) (r : rls_runner) : rls_runner :=
  mkRlsRunner pc (rr_serving r) (rr_health r) (rr_server r) (rr_now r) (rr_deadline r).
Definition rls_serving (serving : bool) (r : rls_runner) : rls_runner :=
  mkRlsRunner (rr_pc r) serving (rr_health r) (rr_server r) (rr_now r) (rr_deadline r).
Definition rls_invoke (c : server_call) (r : rls_runner) : rls_runner :=
  mkRlsRunner (rr_pc r) (rr_serving r) (rr_health r) (invoke c (rr_server r)) (rr_now r) (rr_deadline r).
Definition rls_health (names : list string) (status : bool) (r : rls_runner) : rls_runner :=
  mkRlsRunner (rr_pc r) (rr_serving r) (SetServingStatus names status (rr_health r)) (rr_server r) (rr_now r) (rr_deadline r).

Definition drain_timeout (timeout default : Z) : Z := if timeout <=? 0 then default else timeout.

(** [Start]: [done] is whether the context has ended. *)
Definition rls_Start (addr service : string) (DrainTimeout : Z) (done : bool) (t : turn) (r : rls_runner) : option rls_runner :=
  match rr_pc r, t with
  | RListen, TListen (Err e) => Some (rls_at (RReturned (Some (ListenOn addr e))) r)
  | RListen, TListen (Ok _) => Some (rls_at RRegister r)
  | RRegister, TNext => Some (rls_at RMark (rls_invoke CServe (rls_health (healthNames service) true r)))
  | RMark, TNext => Some (rls_at RSelect (rls_serving true r))
  | RSelect, TServed => (fun e => rls_at (RServed e) r) <$> served (rr_server r)
  | RSelect, TDone => if done then Some (rls_at RUnmark r) else None
  | RServed e, TNext =>
      Some (rls_at (RReturned (match e with ServeFailed reason => Some (ServeRls reason) | _ => None end)) (rls_serving false r))
  | RUnmark, TNext => Some (rls_at RUnhealthy (rls_serving false r))
  | RUnhealthy, TNext =>
      let r := rls_invoke CShutdown (rls_health (healthNames service) false r) in
      Some (mkRlsRunner RDrain (rr_serving r) (rr_health r) (rr_server r) (rr_now r)
              (rr_now r + drain_timeout DrainTimeout rls_DefaultDrainTimeout))
  | RDrain, TShut => if bool_decide (is_Some (shut (rr_server r))) then Some (rls_at RAwait r) else None
  | RDrain, TTimeout => if rr_deadline r <=? rr_now r then Some (rls_at RStop r) else None
  | RStop, TNext => Some (rls_at RDrained (rls_invoke CClose r))
  | RDrained, TShut => if bool_decide (is_Some (shut (rr_server r))) then Some (rls_at RAwait r) else None
  | RAwait, TServed => (fun _ => rls_at (RReturned None) r) <$> served (rr_server r)
  | _, _ => None
  end.

Definition rls_result (r : rls_runner) : option (option run_error) :=
  match rr_pc r with RReturned err => Some err | _ => None end.

(** A statement of [Start], a move of the server, or time passing. *)
Inductive rls_step (addr service : string) (DrainTimeout : Z) (done : bool) : rls_runner -> rls_runner -> Prop :=
| rls_turns t r r' : rls_Start addr service DrainTimeout done t r = Some r' -> rls_step addr service DrainTimeout done r r'
| rls_moves r s : moves (rr_server r) s ->
    rls_step addr service DrainTimeout done r (mkRlsRunner (rr_pc r) (rr_serving r) (rr_health r) s (rr_now r) (rr_deadline r))
| rls_waits r d : 0 <= d ->
    rls_step addr service DrainTimeout done r
      (mkRlsRunner (rr_pc r) (rr_serving r) (rr_health r) (rr_server r) (rr_now r + d) (rr_deadline r)).

(** ** management/server.go *)

Definition mgmt_DefaultReadTimeout : Z := 10 * Second.
Definition mgmt_DefaultWriteTimeout : Z := 60 * Second.
Definition mgmt_DefaultIdleTimeout : Z := 120 * Second.
Definition mgmt_DefaultDrainTimeout : Z := 10 * Second.

Inductive mgmt_pc :=
| GListen
| GSetup (addr : string)
| GSelect
| GShutdown
| GDraining
| GClose
| GAwait
| GReturned (err : option run_error).

(** [mg_tls] is how the listener was opened; [mg_background] whether the API
    has the context an accepted sweep runs under; [mg_timeout] the timeout the
    shutdown was called with. *)
Record mgmt_runner := mkMgmtRunner {
  mg_pc : mgmt_pc;
  mg_tls : bool;
  mg_background : bool;
  mg_bound : option string;
  mg_timeout : option Z;
  mg_server : server }.

Definition mgmt_new : mgmt_runner := mkMgmtRunner GListen false false None None fresh_server.

Definition boundAddr (g : mgmt_runner) : string := default "" (mg_bound g).

(** [listen]: the listener, wrapped when TLS is on. *)
Definition mgmt_listen (addr : string) (IsTlsEnabled : bool) (r : result string string) : result run_error (bool * string) :=
  match r with
  | Err e => Err (ListenOn addr e)
  | Ok bound => Ok (IsTlsEnabled, bound)
  end.

Definition mgmt_at (pc : mgmt_pc) (g : mgmt_runner) : mgmt_runner :=
  mkMgmtRunner pc (mg_tls g) (mg_background g) (mg_bound g) (mg_timeout g) (mg_server g).
Definition mgmt_invoke (c : server_call) (g : mgmt_runner) : mgmt_runner :=
  mkMgmtRunner (mg_pc g) (mg_tls g) (mg_background g) (mg_bound g) (mg_timeout g) (invoke c (mg_server g)).

(** [Start]; [api] is whether the runner has one. The timeout of a shutdown is
    the server's to keep. *)
Definition mgmt_Start (addr : string) (IsTlsEnabled api : bool) (DrainTimeout : Z) (done : bool) (t : turn) (g : mgmt_runner)
    : option mgmt_runner :=
  match mg_pc g, t with
  | GListen, TListen r =>
      match mgmt_listen addr IsTlsEnabled r with
      | Err e => Some (mgmt_at (GReturned (Some e)) g)
      | Ok (tls, bound) => Some (mkMgmtRunner (GSetup bound) tls (mg_background g) (mg_bound g) (mg_timeout g) (mg_server g))
      end
  | GSetup bound, TNext =>
      Some (mgmt_invoke CServe (mkMgmtRunner GSelect (mg_tls g) api (Some bound) (mg_timeout g) (mg_server g)))
  | GSelect, TServed =>
      (fun e => mgmt_at (GReturned (match e with ServeFailed reason => Some (ServeManagement reason) | _ => None end)) g)
        <$> served (mg_server g)
  | GSelect, TDone => if done then Some (mgmt_at GShutdown g) else None
  | GShutdown, TNext =>
      Some (mgmt_invoke CShutdown (mkMgmtRunner GDraining (mg_tls g) (mg_background g) (mg_bound g)
              (Some (drain_timeout DrainTimeout mgmt_DefaultDrainTimeout)) (mg_server g)))
  | GDraining, TShut => if bool_decide (is_Some (shut (mg_server g))) then Some (mgmt_at GClose g) else None
  | GClose, TNext => Some (mgmt_at GAwait (mgmt_invoke CClose g))
  | GAwait, TServed => (fun _ => mgmt_at (GReturned None) g) <$> served (mg_server g)
  | _, _ => None
  end.

Definition mgmt_result (g : mgmt_runner) : option (option run_error) :=
  match mg_pc g with GReturned err => Some err | _ => None end.

Inductive mgmt_step (addr : string) (IsTlsEnabled api : bool) (DrainTimeout : Z) (done : bool) : mgmt_runner -> mgmt_runner -> Prop :=
| mgmt_turns t g g' : mgmt_Start addr IsTlsEnabled api DrainTimeout done t g = Some g' ->
    mgmt_step addr IsTlsEnabled api DrainTimeout done g g'
| mgmt_moves g s : moves (mg_server g) s ->
    mgmt_step addr IsTlsEnabled api DrainTimeout done g
      (mkMgmtRunner (mg_pc g) (mg_tls g) (mg_background g) (mg_bound g) (mg_timeout g) s).

(** ** serve of app/app.go *)

Inductive http_pc := HListen | HSelect | HShutdown | HReturned (err : option run_error).

Record http_runner := mkHttpRunner { hs_pc : http_pc; hs_server : server }.

Definition http_new : http_runner := mkHttpRunner HListen fresh_server.

(** Serve that returns on its own is an error, whatever it returned. *)
Definition serve (name addr : string) (done : bool) (t : turn) (h : http_runner) : option http_runner :=
  match hs_pc h, t with
  | HListen, TListen (Err e) => Some (mkHttpRunner (HReturned (Some (ListenFor name addr e))) (hs_server h))
  | HListen, TListen (Ok _) => Some (mkHttpRunner HSelect (invoke CServe (hs_server h)))
  | HSelect, TServed => (fun e => mkHttpRunner (HReturned (Some (ServeHttp name e))) (hs_server h)) <$> served (hs_server h)
  | HSelect, TDone => if done then Some (mkHttpRunner HShutdown (invoke CShutdown (hs_server h))) else None
  | HShutdown, TShut => (fun err => mkHttpRunner (HReturned (ShutdownHttp <$> err)) (hs_server h)) <$> shut (hs_server h)
  | _, _ => None
  end.

Definition http_result (h : http_runner) : option (option run_error) :=
  match hs_pc h with HReturned err => Some err | _ => None end.

Inductive http_step (name addr : string) (done : bool) : http_runner -> http_runner -> Prop :=
| http_turns t h h' : serve name addr done t h = Some h' -> http_step name addr done h h'
| http_moves h s : moves (hs_server h) s -> http_step name addr done h (mkHttpRunner (hs_pc h) s).

End runners.

#[export] Hint Constructors rls_step mgmt_step http_step : core.

(** ** Lemmas *)

Section facts.
Context `{NetServerLaws}.

(** The steps of a relation with a flag, whatever the flag. *)
Definition any {A} (step : bool -> relation A) : relation A := fun x y => exists done, step done x y.

Lemma rtc_keeps {A} (P : A -> Prop) (R : relation A) x y : (forall x y, R x y -> P x -> P y) -> rtc R x y -> P x -> P y.
Proof. intros HR. induction 1; eauto. Qed.

Lemma rtc_moves_called c s s' : rtc moves s s' -> called c s' = called c s.
Proof. induction 1 as [|s s1 s2 Hm _ IH]; [done|]. rewrite IH. by apply moves_called. Qed.

(** What the runner of the checks has done at each statement. *)
Definition rls_calls (r : rls_runner) : Prop :=
  let made c := called c (rr_server r) in
  match rr_pc r with
  | RListen | RRegister | RReturned (Some (ListenOn _ _)) => made CServe = false /\ made CShutdown = false /\ made CClose = false
  | RMark | RSelect | RServed _ | RUnmark | RUnhealthy => made CServe = true /\ made CShutdown = false /\ made CClose = false
  | RDrain | RStop => made CServe = true /\ made CShutdown = true /\ made CClose = false
  | RDrained => made CServe = true /\ made CShutdown = true /\ made CClose = true
  | RAwait => made CServe = true /\ made CShutdown = true /\ is_Some (shut (rr_server r))
  | RReturned (Some e) => made CShutdown = false /\ exists reason, e = ServeRls reason /\ served (rr_server r) = Some (ServeFailed reason)
  | RReturned None => is_Some (served (rr_server r)) /\ (made CShutdown = true -> is_Some (shut (rr_server r)))
  end.

Definition rls_marked (pc : rls_pc) : bool := match pc with RSelect | RServed _ | RUnmark => true | _ => false end.

Definition says (service : string) (status : bool) (r : rls_runner) : Prop :=
  Forall (fun n => rr_health r n = Some status) (healthNames service).

Record rls_ok (service : string) (r : rls_runner) : Prop := {
  rls_ok_calls : rls_calls r;
  rls_ok_ended e : rr_pc r = RServed e -> served (rr_server r) = Some e;
  rls_ok_serving : rr_serving r = rls_marked (rr_pc r);
  rls_ok_up : called CServe (rr_server r) = true -> called CShutdown (rr_server r) = false -> says service true r;
  rls_ok_down : called CShutdown (rr_server r) = true -> says service false r;
  rls_ok_close : called CClose (rr_server r) = true -> rr_deadline r <= rr_now r;
  rls_ok_stop : rr_pc r = RStop -> rr_deadline r <= rr_now r;
  rls_ok_cut : called CClose (rr_server r) = false -> cut_off (rr_server r) = 0%nat }.

Ltac rls_fields := cbn [rls_at rls_serving rls_invoke rls_health rr_pc rr_serving rr_health rr_server rr_now rr_deadline rls_marked] in *.

Lemma set_says service status r r' :
  rr_health r' = SetServingStatus (healthNames service) status (rr_health r) -> says service status r'.
Proof.
  intros E. unfold says, healthNames, SetServingStatus in *. rewrite E. cbn [foldl]. apply Forall_cons. split.
  - by case_bool_decide; [|rewrite bool_decide_true].
  - apply Forall_singleton. by rewrite bool_decide_true.
Qed.

(** A statement that calls nothing on the server. *)
Lemma rls_quiet_ok service r r' :
  rls_ok service r -> rr_server r' = rr_server r -> rr_health r' = rr_health r -> rr_now r' = rr_now r ->
  rr_deadline r' = rr_deadline r -> rls_calls r' -> rr_serving r' = rls_marked (rr_pc r') ->
  (forall e, rr_pc r' = RServed e -> served (rr_server r) = Some e) -> (rr_pc r' = RStop -> rr_deadline r <= rr_now r) ->
  rls_ok service r'.
Proof.
  intros [] Es Eh En Ed Hc Hm He Hs. assert (forall st, says service st r -> says service st r') as Hsay.
  { intros st. unfold says. by rewrite Eh. }
  constructor; rewrite ?Es, ?En, ?Ed; auto.
Qed.

(** A statement that calls the server. *)
Lemma rls_call_ok service status c r r' :
  rls_ok service r -> c <> CClose -> rr_server r' = invoke c (rr_server r) ->
  rr_health r' = SetServingStatus (healthNames service) status (rr_health r) ->
  rls_calls r' -> rr_serving r' = rls_marked (rr_pc r') -> rls_marked (rr_pc r') = false -> rr_pc r' <> RStop ->
  called CClose (rr_server r') = false -> called CShutdown (rr_server r') = negb status -> rls_ok service r'.
Proof.
  intros [] Hc Es Eh Hcalls Hm Hmk Hst Hcl Hsh. pose proof (set_says _ _ _ _ Eh) as Hsay.
  constructor; try done; rewrite ?Hcl, ?Hsh; try done.
  - intros e Ee. by rewrite Ee in Hmk.
  - by destruct status.
  - by destruct status.
  - intros _. rewrite Es, invoke_cut by done. apply rls_ok_cut0. rewrite Es, invoke_called in Hcl. by apply orb_false_iff in Hcl as [_ ?].
Qed.

Lemma rls_turn_ok addr service timeout done t r r' :
  rls_ok service r -> rls_Start addr service timeout done t r = Some r' -> rls_ok service r'.
Proof.
  intros Hok. pose proof Hok as [Hc He Hs Hup Hdown Hcl Hst Hcut]. unfold rls_calls in Hc. unfold rls_Start.
  destruct (rr_pc r) as [| | | |e| | | | | | |err] eqn:Epc, t as [[b|e']| | | | |]; try done; cbn [rls_marked] in Hs.
  - intros [= <-]. by eapply rls_quiet_ok.
  - intros [= <-]. by eapply rls_quiet_ok.
  - intros [= <-]. destruct Hc as (Hc1 & Hc2 & Hc3). eapply (rls_call_ok service true CServe r); rls_fields; try done;
      unfold rls_calls; rls_fields; by rewrite ?invoke_called, ?Hc2, ?Hc3.
  - intros [= <-]. by eapply rls_quiet_ok.
  - destruct (served (rr_server r)) as [e|] eqn:Ese; [|done]. intros [= <-]. eapply rls_quiet_ok; try done. by intros e1 [= <-].
  - destruct done; [|done]. intros [= <-]. by eapply rls_quiet_ok.
  - intros [= <-]. eapply rls_quiet_ok; try done. unfold rls_calls. rls_fields. specialize (He e eq_refl). destruct Hc as (_ & Hc2 & _).
    destruct e as [| |reason]; rewrite ?He; [by split; [eexists|congruence]..|]. split; [done|]. by exists reason.
  - intros [= <-]. by eapply rls_quiet_ok.
  - intros [= <-]. destruct Hc as (Hc1 & Hc2 & Hc3). eapply (rls_call_ok service false CShutdown r); rls_fields; try done;
      unfold rls_calls; rls_fields; by rewrite ?invoke_called, ?Hc1, ?Hc3.
  - case_bool_decide; [|done]. intros [= <-]. destruct Hc as (? & ? & ?). by eapply rls_quiet_ok.
  - destruct (Z.leb_spec (rr_deadline r) (rr_now r)); [|done]. intros [= <-]. by eapply rls_quiet_ok.
  - intros [= <-]. destruct Hc as (Hc1 & Hc2 & Hc3). specialize (Hdown Hc2). specialize (Hst eq_refl).
    constructor; rls_fields; rewrite ?invoke_called, ?Hc1, ?Hc2; try done.
    unfold rls_calls. rls_fields. by rewrite !invoke_called, Hc1, Hc2.
  - case_bool_decide; [|done]. intros [= <-]. destruct Hc as (? & ? & ?). by eapply rls_quiet_ok.
  - destruct (served (rr_server r)) as [e|] eqn:Ese; [|done]. intros [= <-]. destruct Hc as (? & ? & ?). eapply rls_quiet_ok; try done.
Qed.

Lemma rls_step_ok addr service timeout done r r' :
  rls_ok service r -> rls_step addr service timeout done r r' -> rls_ok service r'.
Proof.
  intros Hok Hst. destruct Hst as [t r r' Ht|r s Hm|r d Hd]; [by eapply rls_turn_ok| |].
  - destruct Hok as [Hc He Hs Hup Hdown Hcl Hstop Hcut]. pose proof (fun c => moves_called c _ _ Hm) as Hk.
    assert (forall P, is_Some (shut (rr_server r)) -> (is_Some (shut s) -> P) -> P) as Hsh.
    { intros P [x Hx] HP. apply HP. eexists. by eapply moves_shut. }
    assert (forall e, served (rr_server r) = Some e -> served s = Some e) as Hse by (intros e; by apply moves_served).
    constructor; rls_fields; rewrite ?Hk; try done.
    + unfold rls_calls in *. rls_fields. rewrite !Hk. destruct (rr_pc r) as [| | | |e| | | | | | |[[]|]]; try done.
      all: try (destruct Hc as (? & rs & ? & ?); split; [done|]; exists rs; split; [done|by apply Hse]).
      * destruct Hc as (? & ? & Hx). split_and!; try done. by apply (Hsh _ Hx).
      * destruct Hc as ([x Hx] & Hsx). split; [by eexists; apply Hse|]. intros Hcs. by apply (Hsh _ (Hsx Hcs)).
    + intros e Ee. by apply Hse, He.
    + intros Hcc. rewrite (moves_cut _ _ Hm) by done. by apply Hcut.
  - destruct Hok. constructor; rls_fields; try done; intros; [etrans; [by eauto|lia]..].
Qed.

Lemma rls_new_ok service now : rls_ok service (rls_new now).
Proof.
  destruct fresh_idle as (H1 & H2 & H3 & H4). constructor; cbn; rewrite ?H4; try done.
Qed.

Lemma rls_reach_ok addr service timeout r r' :
  rtc (any (rls_step addr service timeout)) r r' -> rls_ok service r -> rls_ok service r'.
Proof. apply rtc_keeps. intros x y [dn Hs] Hok. by eapply rls_step_ok. Qed.

(** Readiness of the runner: it has called Serve and not the drain and has not
    returned, its health service says so, and a Serve that has ended is taken
    up at once: readiness falls within the next two statements. *)
Lemma rls_ready_serves service r :
  rls_ok service r -> Serving r = true ->
  called CServe (rr_server r) = true /\ called CShutdown (rr_server r) = false /\ says service true r /\
  rls_result r = None /\
  (is_Some (served (rr_server r)) -> forall addr timeout done,
     exists t r', rls_Start addr service timeout done t r = Some r' /\
       (Serving r' = false \/ exists r'', rls_Start addr service timeout done TNext r' = Some r'' /\ Serving r'' = false)).
Proof.
  intros [Hc _ Hserving Hup _ _ _ _] E. unfold Serving in E. rewrite E in Hserving. unfold rls_calls in Hc. unfold rls_result.
  destruct (rr_pc r) as [| | | |e| | | | | | |] eqn:Epc; try done; destruct Hc as (Hs & Hd & _);
    (split_and!; [done..|by apply Hup|done|]); intros [x Hx] addr timeout done.
  - exists TServed. unfold rls_Start. rewrite Epc, Hx. eexists. split; [done|]. right. by eexists.
  - exists TNext. unfold rls_Start. rewrite Epc. eexists. split; [done|]. by left.
  - exists TNext. unfold rls_Start. rewrite Epc. eexists. split; [done|]. by left.
Qed.

(** The address of a failed listen is the runner's. *)
Lemma rls_reach_listen addr service timeout now r :
  rtc (any (rls_step addr service timeout)) (rls_new now) r ->
  forall a e, rr_pc r = RReturned (Some (ListenOn a e)) -> a = addr.
Proof.
  intros Hr. eapply (rtc_keeps (fun r => forall a e, rr_pc r = RReturned (Some (ListenOn a e)) -> a = addr)); [|exact Hr|done].
  clear r Hr. intros r0 r' [dn Hs] IH. destruct Hs as [t r r' Ht|r s Hm|r d Hd]; [|done..].
  intros a e1. unfold rls_Start in Ht. destruct (served (rr_server r)), (rr_pc r), t as [[]| | | | |]; try done;
    repeat case_match; try done; injection Ht as <-; cbn; intros E1; repeat case_match; congruence.
Qed.

(** A run of the server under a runner. *)
Lemma rls_rtc_moves addr service timeout done r s :
  rtc moves (rr_server r) s ->
  rtc (rls_step addr service timeout done) r (mkRlsRunner (rr_pc r) (rr_serving r) (rr_health r) s (rr_now r) (rr_deadline r)).
Proof.
  intros Hm. remember (rr_server r) as s0 eqn:Es. revert r Es. induction Hm as [s|s s1 s2 Hm _ IH]; intros r ->.
  - by destruct r.
  - eapply rtc_l; [by apply rls_moves|].
    exact (IH (mkRlsRunner (rr_pc r) (rr_serving r) (rr_health r) s1 (rr_now r) (rr_deadline r)) eq_refl).
Qed.

Definition ends {A} (step : relation A) (out : A -> option (option run_error)) (x : A) : Prop :=
  exists y, rtc step x y /\ is_Some (out y).

Lemma ends_rtc {A} (step : relation A) out x y : rtc step x y -> ends step out y -> ends step out x.
Proof. intros Hxy (z & Hyz & Hz). exists z. split; [by etrans|done]. Qed.

Section rls_end.
Context `{GS : !GracefulShutdown} (addr service : string) (timeout : Z).

Abbreviation rends := (ends (rls_step addr service timeout true) rls_result).

Lemma rls_go t r r' : rls_Start addr service timeout true t r = Some r' -> rends r' -> rends r.
Proof. intros Ht. apply ends_rtc, rtc_once. by eapply rls_turns. Qed.

Ltac go t := eapply (rls_go t); [unfold rls_Start; rls_fields; repeat match goal with H : _ = _ |- _ => rewrite H end; reflexivity|].

Lemma rls_returned_ends r err : rr_pc r = RReturned err -> rends r.
Proof. intros Hpc. exists r. split; [done|]. exists err. unfold rls_result. by rewrite Hpc. Qed.

Lemma rls_await_served r : rr_pc r = RAwait -> is_Some (served (rr_server r)) -> rends r.
Proof. intros Hpc [e He]. go TServed. by eapply rls_returned_ends. Qed.

Lemma rls_await_ends r : rr_pc r = RAwait -> called CServe (rr_server r) = true -> is_Some (shut (rr_server r)) -> rends r.
Proof.
  intros Hpc Hs Hsh. destruct (graceful_ends _ Hs Hsh) as (s' & Hm & He).
  eapply ends_rtc; [by apply rls_rtc_moves|]. by apply rls_await_served.
Qed.

Lemma rls_drained_ends r : rr_pc r = RDrained -> called CServe (rr_server r) = true -> called CShutdown (rr_server r) = true ->
  called CClose (rr_server r) = true -> rends r.
Proof.
  intros Hpc H1 H2 H3. destruct (close_ends _ H1 H3) as (s' & Hm & He & Hsh). specialize (Hsh H2).
  eapply ends_rtc; [by apply rls_rtc_moves|].
  eapply (rls_go TShut); [unfold rls_Start; rls_fields; rewrite Hpc, bool_decide_true by done; reflexivity|]. by apply rls_await_served.
Qed.

Lemma rls_stop_ends r : rr_pc r = RStop -> called CServe (rr_server r) = true -> called CShutdown (rr_server r) = true -> rends r.
Proof. intros Hpc H1 H2. go TNext. apply rls_drained_ends; rls_fields; rewrite ?invoke_called, ?H1, ?H2; done. Qed.

(** The timer fires, whatever the requests in flight do. *)
Lemma rls_drain_ends r : rr_pc r = RDrain -> called CServe (rr_server r) = true -> called CShutdown (rr_server r) = true -> rends r.
Proof.
  intros Hpc H1 H2. eapply ends_rtc; [apply rtc_once, (rls_waits _ _ _ _ _ (Z.max 0 (rr_deadline r - rr_now r))); lia|].
  eapply (rls_go TTimeout); [unfold rls_Start; rls_fields; rewrite Hpc, (proj2 (Z.leb_le _ _)) by lia; reflexivity|]. by apply rls_stop_ends.
Qed.

Lemma rls_unhealthy_ends r : rr_pc r = RUnhealthy -> called CServe (rr_server r) = true -> rends r.
Proof. intros Hpc H1. go TNext. apply rls_drain_ends; rls_fields; rewrite ?invoke_called, ?H1; done. Qed.

Lemma rls_select_ends r : rr_pc r = RSelect -> called CServe (rr_server r) = true -> rends r.
Proof. intros Hpc H1. go TDone. go TNext. by apply rls_unhealthy_ends. Qed.

Lemma rls_register_ends r : rr_pc r = RRegister -> rends r.
Proof. intros Hpc. go TNext. go TNext. apply rls_select_ends; rls_fields; rewrite ?invoke_called; done. Qed.

(** From wherever [Start] is when the context has ended, it can return. *)
Lemma rls_ends r : rls_ok service r -> rends r.
Proof.
  intros [Hc _ _ _ _ _ _ _]. unfold rls_calls in Hc. destruct (rr_pc r) as [| | | |e| | | | | | |err] eqn:Epc.
  - go (TListen (Ok "")). by apply rls_register_ends.
  - by apply rls_register_ends.
  - go TNext. by apply rls_select_ends; [|apply Hc].
  - by apply rls_select_ends; [|apply Hc].
  - go TNext. by eapply rls_returned_ends.
  - go TNext. by apply rls_unhealthy_ends; [|apply Hc].
  - by apply rls_unhealthy_ends; [|apply Hc].
  - by apply rls_drain_ends; [|apply Hc..].
  - by apply rls_stop_ends; [|apply Hc..].
  - by apply rls_drained_ends; [|apply Hc..].
  - by apply rls_await_ends; [|apply Hc..].
  - by eapply rls_returned_ends.
Qed.

End rls_end.

(** *** The management runner *)

Definition mgmt_calls (addr : string) (tls api : bool) (timeout : Z) (g : mgmt_runner) : Prop :=
  let made c := called c (mg_server g) in
  let up := made CServe = true /\ mg_tls g = tls /\ mg_background g = api /\ is_Some (mg_bound g) in
  let drained := up /\ made CShutdown = true /\ mg_timeout g = Some (drain_timeout timeout mgmt_DefaultDrainTimeout) in
  match mg_pc g with
  | GListen => made CServe = false /\ made CShutdown = false
  | GSetup _ => made CServe = false /\ made CShutdown = false /\ mg_tls g = tls
  | GSelect | GShutdown => up /\ made CShutdown = false
  | GDraining => drained
  | GClose => drained /\ is_Some (shut (mg_server g))
  | GAwait => drained /\ is_Some (shut (mg_server g)) /\ made CClose = true
  | GReturned (Some e) =>
      (exists reason, e = ListenOn addr reason /\ made CServe = false) \/
      (up /\ exists reason, e = ServeManagement reason /\ served (mg_server g) = Some (ServeFailed reason))
  | GReturned None =>
      up /\ is_Some (served (mg_server g)) /\ (made CShutdown = true -> drained /\ is_Some (shut (mg_server g)) /\ made CClose = true)
  end.

Ltac mgmt_fields := cbn [mgmt_at mgmt_invoke mg_pc mg_tls mg_background mg_bound mg_timeout mg_server] in *.

Lemma mgmt_turn_ok addr tls api timeout done t g g' :
  mgmt_calls addr tls api timeout g -> mgmt_Start addr tls api timeout done t g = Some g' -> mgmt_calls addr tls api timeout g'.
Proof.
  unfold mgmt_calls, mgmt_Start. destruct (mg_pc g) as [|b| | | | | |err], t as [r| | | | |]; try done; intros Hc.
  - destruct r as [b|e]; cbn [mgmt_listen]; intros [= <-]; mgmt_fields; [naive_solver|]. left. exists e. naive_solver.
  - intros [= <-]. mgmt_fields. rewrite !invoke_called. naive_solver.
  - destruct (served _) as [e|] eqn:E; [|done]. intros [= <-]. mgmt_fields. destruct e as [| |reason].
    + rewrite E. destruct Hc as [Hup Hsh]. split; [exact Hup|]. split; [by eexists|]. congruence.
    + rewrite E. destruct Hc as [Hup Hsh]. split; [exact Hup|]. split; [by eexists|]. congruence.
    + right. split; [apply Hc|]. by exists reason.
  - destruct done; [|done]. by intros [= <-].
  - intros [= <-]. mgmt_fields. rewrite !invoke_called. naive_solver.
  - case_bool_decide; [|done]. by intros [= <-].
  - intros [= <-]. mgmt_fields. rewrite !invoke_called. destruct Hc as (Hc & x & Hs). split_and!; try apply Hc; [|done].
    exists x. by apply invoke_shut.
  - destruct (served _) as [e|] eqn:E; [|done]. intros [= <-]. mgmt_fields. rewrite E. destruct Hc as (Hc & Hs & Hcl).
    split; [apply Hc|]. split; [by eexists|]. intros _. by split_and!; try apply Hc.
Qed.

Lemma mgmt_step_ok addr tls api timeout done g g' :
  mgmt_calls addr tls api timeout g -> mgmt_step addr tls api timeout done g g' -> mgmt_calls addr tls api timeout g'.
Proof.
  intros Hc Hst. destruct Hst as [t g g' Ht|g s Hm]; [by eapply mgmt_turn_ok|].
  pose proof (fun c => moves_called c _ _ Hm) as Hk.
  assert (is_Some (shut (mg_server g)) -> is_Some (shut s)) as Hsh by (intros [x Hx]; eexists; by eapply moves_shut).
  assert (forall e, served (mg_server g) = Some e -> served s = Some e) as Hse by (intros e; by apply moves_served).
  assert (is_Some (served (mg_server g)) -> is_Some (served s)) as Hss by (intros [x Hx]; eexists; by eapply Hse).
  unfold mgmt_calls in *. mgmt_fields. rewrite !Hk. destruct (mg_pc g) as [|b| | | | | |[e|]]; naive_solver.
Qed.

Lemma mgmt_new_ok addr tls api timeout : mgmt_calls addr tls api timeout mgmt_new.
Proof. destruct fresh_idle as (_ & _ & _ & Hf). unfold mgmt_calls. cbn. by rewrite !Hf. Qed.

Lemma mgmt_rtc_moves addr tls api timeout done g s :
  rtc moves (mg_server g) s ->
  rtc (mgmt_step addr tls api timeout done) g (mkMgmtRunner (mg_pc g) (mg_tls g) (mg_background g) (mg_bound g) (mg_timeout g) s).
Proof.
  intros Hm. remember (mg_server g) as s0 eqn:Es. revert g Es. induction Hm as [s|s s1 s2 Hm _ IH]; intros g ->.
  - by destruct g.
  - eapply rtc_l; [by apply mgmt_moves|].
    exact (IH (mkMgmtRunner (mg_pc g) (mg_tls g) (mg_background g) (mg_bound g) (mg_timeout g) s1) eq_refl).
Qed.

Section mgmt_end.
Context `{BS : !BoundedShutdown} (addr : string) (tls api : bool) (timeout : Z).

Abbreviation gends := (ends (mgmt_step addr tls api timeout true) mgmt_result).

Lemma mgmt_go t g g' : mgmt_Start addr tls api timeout true t g = Some g' -> gends g' -> gends g.
Proof. intros Ht. apply ends_rtc, rtc_once. by eapply mgmt_turns. Qed.

Ltac go t := eapply (mgmt_go t); [unfold mgmt_Start; mgmt_fields; repeat match goal with H : _ = _ |- _ => rewrite H end; reflexivity|].

Lemma mgmt_returned_ends g err : mg_pc g = GReturned err -> gends g.
Proof. intros Hpc. exists g. split; [done|]. exists err. unfold mgmt_result. by rewrite Hpc. Qed.

(** Closing the listener ends the Serve that a shutdown did not reach. *)
Lemma mgmt_await_ends g : mg_pc g = GAwait -> called CServe (mg_server g) = true -> called CClose (mg_server g) = true -> gends g.
Proof.
  intros Hpc Hs Hcl. destruct (close_ends _ Hs Hcl) as (s' & Hm & [e He] & _). eapply ends_rtc; [by apply mgmt_rtc_moves|].
  go TServed. by eapply mgmt_returned_ends.
Qed.

Lemma mgmt_close_ends g : mg_pc g = GClose -> called CServe (mg_server g) = true -> gends g.
Proof. intros Hpc Hs. go TNext. apply mgmt_await_ends; mgmt_fields; rewrite ?invoke_called, ?Hs; done. Qed.

Lemma mgmt_draining_ends g : mg_pc g = GDraining -> called CServe (mg_server g) = true -> called CShutdown (mg_server g) = true -> gends g.
Proof.
  intros Hpc Hs Hsh. destruct (shutdown_returns _ Hs Hsh) as (s' & Hm & He). eapply ends_rtc; [by apply mgmt_rtc_moves|].
  eapply (mgmt_go TShut); [unfold mgmt_Start; mgmt_fields; rewrite Hpc, bool_decide_true by done; reflexivity|].
  apply mgmt_close_ends; mgmt_fields; [done|]. by rewrite (rtc_moves_called _ _ _ Hm).
Qed.

Lemma mgmt_shutdown_ends g : mg_pc g = GShutdown -> called CServe (mg_server g) = true -> gends g.
Proof. intros Hpc Hs. go TNext. apply mgmt_draining_ends; mgmt_fields; rewrite ?invoke_called, ?Hs; done. Qed.

Lemma mgmt_select_ends g : mg_pc g = GSelect -> called CServe (mg_server g) = true -> gends g.
Proof. intros Hpc Hs. go TDone. by apply mgmt_shutdown_ends. Qed.

Lemma mgmt_setup_ends g b : mg_pc g = GSetup b -> gends g.
Proof. intros Hpc. go TNext. apply mgmt_select_ends; mgmt_fields; rewrite ?invoke_called; done. Qed.

Lemma mgmt_ends g : mgmt_calls addr tls api timeout g -> gends g.
Proof.
  unfold mgmt_calls. intros Hc. destruct (mg_pc g) as [|b| | | | | |err] eqn:Epc.
  - go (TListen (Ok "")). by eapply mgmt_setup_ends.
  - by eapply mgmt_setup_ends.
  - by apply mgmt_select_ends; [|apply Hc].
  - by apply mgmt_shutdown_ends; [|apply Hc].
  - by apply mgmt_draining_ends; [|apply Hc..].
  - by apply mgmt_close_ends; [|apply Hc..].
  - by apply mgmt_await_ends; [|apply Hc..].
  - by eapply mgmt_returned_ends.
Qed.

End mgmt_end.

(** *** The metrics and probe listeners *)

Definition http_calls (h : http_runner) : Prop :=
  let made c := called c (hs_server h) in
  match hs_pc h with
  | HListen => True
  | HSelect => made CServe = true
  | HShutdown => made CServe = true /\ made CShutdown = true
  | HReturned (Some _) => True
  | HReturned None => shut (hs_server h) = Some None
  end.

Lemma http_step_ok name addr done h h' : http_calls h -> http_step name addr done h h' -> http_calls h'.
Proof.
  intros Hc Hst. destruct Hst as [t h h' Ht|h s Hm].
  - unfold http_calls, serve in *. destruct (hs_pc h), t as [[]| | | | |]; try done.
    + injection Ht as <-. cbn. by rewrite invoke_called.
    + by injection Ht as <-.
    + destruct (served _); [|done]. by injection Ht as <-.
    + destruct done; [|done]. injection Ht as <-. cbn. rewrite !invoke_called, Hc. done.
    + destruct (shut _) as [[e|]|] eqn:E; [by injection Ht as <-| |done]. injection Ht as <-. done.
  - unfold http_calls in *. cbn. rewrite !(fun c => moves_called c _ _ Hm). destruct (hs_pc h) as [| | |[e|]]; try done.
    by eapply moves_shut.
Qed.

Lemma http_rtc_moves name addr done h s :
  rtc moves (hs_server h) s -> rtc (http_step name addr done) h (mkHttpRunner (hs_pc h) s).
Proof.
  intros Hm. remember (hs_server h) as s0 eqn:Es. revert h Es. induction Hm as [s|s s1 s2 Hm _ IH]; intros h ->.
  - by destruct h.
  - eapply rtc_l; [by apply http_moves|]. exact (IH (mkHttpRunner (hs_pc h) s1) eq_refl).
Qed.

Lemma http_ends `{!BoundedShutdown} name addr h : http_calls h -> ends (http_step name addr true) http_result h.
Proof.
  assert (forall t h h', serve name addr true t h = Some h' -> ends (http_step name addr true) http_result h' ->
    ends (http_step name addr true) http_result h) as Hgo.
  { intros t h1 h2 Ht. apply ends_rtc, rtc_once. by eapply http_turns. }
  assert (forall h, hs_pc h = HShutdown -> called CServe (hs_server h) = true -> called CShutdown (hs_server h) = true ->
    ends (http_step name addr true) http_result h) as Hshut.
  { intros h1 Hpc Hs Hsh. destruct (shutdown_returns _ Hs Hsh) as (s' & Hm & x & Hx). eapply ends_rtc; [by apply http_rtc_moves|].
    eapply (Hgo TShut); [unfold serve; cbn [hs_pc hs_server]; rewrite Hpc, Hx; reflexivity|]. eexists. split; [done|by eexists]. }
  assert (forall h, hs_pc h = HSelect -> called CServe (hs_server h) = true -> ends (http_step name addr true) http_result h) as Hsel.
  { intros h1 Hpc Hs. eapply (Hgo TDone); [unfold serve; rewrite Hpc; reflexivity|].
    apply Hshut; cbn; rewrite ?invoke_called, ?Hs; done. }
  unfold http_calls. intros Hc. destruct (hs_pc h) as [| | |err] eqn:Epc.
  - eapply (Hgo (TListen (Ok ""))); [unfold serve; rewrite Epc; reflexivity|]. apply Hsel; cbn; by rewrite ?invoke_called.
  - by apply Hsel.
  - by apply Hshut; [|apply Hc..].
  - exists h. split; [done|]. exists err. unfold http_result. by rewrite Epc.
Qed.

End facts.

(** ** Claims *)


(** The management listener serves as it was configured and leaves in order.
    In every state [Start] can be in: while it serves, the listener is wrapped
    in TLS exactly when the platform turned it on, and the API has the context
    an accepted sweep runs under; when it returns after a drain, the shutdown
    was given the configured timeout and has returned, the listener is closed
    and Serve has returned. It returns an error only when it could not listen
    or Serve failed on its own, and once the context has ended it can always
    return, whether or not the shutdown reached the listener. *)
Theorem mgmt_runner_drains `{NetServerLaws} `{!BoundedShutdown} (addr : string) (tls api : bool) (timeout : Z) (g : mgmt_runner) :
  rtc (any (mgmt_step addr tls api timeout)) mgmt_new g ->
  let made c := called c (mg_server g) in
  (made CServe = true -> mg_tls g = tls /\ mg_background g = api /\ is_Some (mg_bound g)) /\
  (mgmt_result g = Some None -> made CShutdown = true ->
     mg_timeout g = Some (drain_timeout timeout mgmt_DefaultDrainTimeout) /\
     is_Some (shut (mg_server g)) /\ made CClose = true /\ is_Some (served (mg_server g))) /\
  (forall e, mgmt_result g = Some (Some e) ->
     (exists reason, e = ListenOn addr reason) \/
     exists reason, e = ServeManagement reason /\ served (mg_server g) = Some (ServeFailed reason)) /\
  ends (mgmt_step addr tls api timeout true) mgmt_result g.
Proof.
  intros Hr. assert (mgmt_calls addr tls api timeout g) as Hok.
  { pose proof (mgmt_new_ok addr tls api timeout) as Hn. revert Hr Hn. apply rtc_keeps. intros x y [dn Hs] Hx. by eapply mgmt_step_ok. }
  split; [|split; [|split; [|by apply mgmt_ends]]]; unfold mgmt_calls, mgmt_result in *.
  - intros Hm. destruct (mg_pc g) as [|b| | | | | |[e|]].
    1,2: destruct Hok; congruence.
    6: destruct Hok as [(reason & _ & Hf)|[Hup _]]; [congruence|apply Hup].
    all: tauto.
  - destruct (mg_pc g) as [|b| | | | | |[e|]]; try done. intros _ Hm. destruct Hok as (_ & Hs & Hd).
    by destruct (Hd Hm) as ((_ & _ & ?) & ? & ?).
  - destruct (mg_pc g) as [|b| | | | | |[e|]]; try done. intros e' [= <-].
    destruct Hok as [(reason & ? & _)|(_ & reason & ?)]; [left|right]; by exists reason.
Qed.

(** ** Witnesses *)

(** A server that takes requests while it serves and is not shut down, waits
    for them when it is, and cuts them off when it is closed. *)
Module demo_server.

Record state := mkState {
  d_serve : bool;
  d_shutdown : bool;
  d_close : bool;
  d_pending : nat;
  d_cut : nat;
  d_served : option serve_end;
  d_shut : bool }.

Definition set (c : server_call) (s : state) : state :=
  match c with
  | CServe => mkState true (d_shutdown s) (d_close s) (d_pending s) (d_cut s) (d_served s) (d_shut s)
  | CShutdown => mkState (d_serve s) true (d_close s) (d_pending s) (d_cut s) (d_served s) (d_shut s)
  | CClose => mkState (d_serve s) (d_shutdown s) true (d_pending s) (d_cut s) (d_served s) (d_shut s)
  end.

Definition has (c : server_call) (s : state) : bool :=
  match c with CServe => d_serve s | CShutdown => d_shutdown s | CClose => d_close s end.

Definition with_pending (n : nat) (s : state) : state :=
  mkState (d_serve s) (d_shutdown s) (d_close s) n (d_cut s) (d_served s) (d_shut s).
Definition cut_all (s : state) : state :=
  mkState (d_serve s) (d_shutdown s) (d_close s) 0 (d_cut s + d_pending s) (d_served s) (d_shut s).
Definition serve_returns (e : serve_end) (s : state) : state :=
  mkState (d_serve s) (d_shutdown s) (d_close s) (d_pending s) (d_cut s) (Some e) (d_shut s).
Definition shut_down (s : state) : state :=
  mkState (d_serve s) (d_shutdown s) (d_close s) (d_pending s) (d_cut s) (d_served s) true.

Inductive step : state -> state -> Prop :=
| accepts s : d_serve s = true -> d_shutdown s = false -> d_served s = None -> step s (with_pending (S (d_pending s)) s)
| answers s n : d_pending s = S n -> step s (with_pending n s)
| cuts s : d_close s = true -> step s (cut_all s)
| returns e s : d_serve s = true -> d_served s = None -> step s (serve_returns e s)
| drained s : d_shutdown s = true -> d_pending s = 0%nat -> step s (shut_down s).

#[export] Instance demo_server : NetServer := {|
  server := state;
  fresh_server := mkState false false false 0 0 None false;
  invoke := set;
  moves := step;
  called := has;
  served := d_served;
  shut := fun s => if d_shut s then Some None else None;
  in_flight := fun s => if d_shut s then 0%nat else d_pending s;
  cut_off := d_cut |}.

Lemma finishes (s : state) : rtc step s (with_pending 0 s).
Proof.
  destruct s as [a b c n k e f]. cbn. induction n as [|n IH]; [done|].
  eapply rtc_l; [by apply answers|]. exact IH.
Qed.

Lemma can_shut (s : state) : d_shutdown s = true -> exists s', rtc step s s' /\ d_shut s' = true /\ d_serve s' = d_serve s.
Proof.
  intros Hs. exists (shut_down (with_pending 0 s)). split; [|done]. eapply rtc_r; [apply finishes|]. by apply drained.
Qed.

Lemma can_return (s : state) : d_serve s = true -> exists s', rtc step s s' /\ is_Some (d_served s') /\ d_shut s' = d_shut s.
Proof.
  intros Hs. destruct (d_served s) eqn:E; [exists s; by rewrite E|]. exists (serve_returns ServeNil s). split; [|done].
  apply rtc_once. by apply returns.
Qed.

#[export] Instance demo_laws : NetServerLaws.
Proof.
  split; cbn.
  - split_and!; try done. by intros [].
  - by intros [] [] [].
  - by intros [] s s' [].
  - by intros [] s r.
  - intros s s' r [] Hr; cbn in *; congruence.
  - by intros [] s r.
  - intros s s' r [] Hr; cbn in *; try done. by destruct (d_shut _).
  - intros s. by destruct (d_shut s).
  - by intros [] s Hne.
  - intros s s' [] Hc; cbn in *; congruence.
  - intros s Hs Hc. destruct (d_shutdown s) eqn:Esh.
    + destruct (can_shut s Esh) as (s1 & H1 & E1 & F1). destruct (can_return s1) as (s2 & H2 & E2 & F2); [congruence|].
      exists s2. split_and!; [by etrans|done|]. intros _. by rewrite F2, E1.
    + destruct (can_return s Hs) as (s2 & H2 & E2 & F2). exists s2. split_and!; done.
Qed.

#[export] Instance demo_bounded : BoundedShutdown.
Proof. split. intros s _ Hs. destruct (can_shut s Hs) as (s1 & H1 & E1 & _). exists s1. split; [done|]. cbn. by rewrite E1. Qed.

#[export] Instance demo_graceful : GracefulShutdown.
Proof.
  split; cbn; [intros s e; by destruct (d_shut s)|]. intros s Hs _. destruct (can_return s Hs) as (s2 & H2 & E2 & _). by exists s2.
Qed.

End demo_server.
Import demo_server.


Lemma mgmt_runner_drains_witness :
  exists g : mgmt_runner (H := demo_server.demo_server),
    rtc (any (mgmt_step ":8080" true true 0)) mgmt_new g /\ boundAddr g = "10.0.0.1:8080" /\ mg_tls g = true.
Proof.
  assert (exists g : mgmt_runner (H := demo_server.demo_server), rtc (any (mgmt_step ":8080" true true 0)) mgmt_new g /\
    called CServe (mg_server g) = true /\ boundAddr g = "10.0.0.1:8080") as (g & Hr & H1 & H2).
  { eexists. split.
    - eapply rtc_l; [exists false; eapply (mgmt_turns _ _ _ _ _ (TListen (Ok "10.0.0.1:8080"))); vm_compute; reflexivity|].
      eapply rtc_l; [exists false; eapply (mgmt_turns _ _ _ _ _ TNext); vm_compute; reflexivity|]. apply rtc_refl.
    - split; reflexivity. }
  exists g. split; [exact Hr|]. split; [exact H2|].
  destruct (mgmt_runner_drains ":8080" true true 0 g Hr) as (Hup & _). apply (Hup H1).
Defined.
