(* ===== verification/RedisRecords.v ===== *)
(** * service/internal/records/redis.go: the records in the shared store

    The scripts and the Go side around them. The server is an interface with
    the documented behaviour of the commands used; a script runs atomically at
    one reading of the server's clock, and so does a whole call here: the
    commands of a pipeline, or the lookups and the script of [Finalize], with
    no other client's between them (RedisRecordsClaims takes [Finalize] apart).
    A server that cannot be reached is left out; a command that is refused is
    the error of its call. *)
From S2P Require Import Prelude GoStrings Algo StoreApi Memory MemoryScan Compile MatchKeys Lua Records.

(** ** Definitions *)

Definition Millisecond : Z := 1000000.

(** *** The server *)

(** What a key holds and the millisecond it is last readable at, if any. *)
Inductive rdata := DString (s : string) | DHash (h : gmap string string).
Record rvalue := mkRvalue { rv_data : rdata; rv_expires : option Z }.

Definition readable (t : Z) (v : rvalue) : bool := match rv_expires v with None => true | Some w => t <=? w end.
Definition at_time (t : Z) (o : option rvalue) : option rvalue :=
  match o with Some v => if readable t v then Some v else None | None => None end.

Inductive redis_error := WrongType | InvalidExpire.

(** A step of a script: the store afterwards and what it answered. *)
Definition script (DB A : Type) : Type := DB -> DB * result redis_error A.
#[export] Instance script_ret {DB} : MRet (script DB) := fun _ a db => (db, Ok a).
#[export] Instance script_bind {DB} : MBind (script DB) := fun _ _ f m db =>
  match m db with (db, Ok a) => f a db | (db, Err e) => (db, Err e) end.

(** The commands used, by the server's clock in milliseconds. *)
Class RecordServer (DB : Type) := {
  look : Z -> string -> DB -> option rvalue;
  GET : Z -> string -> script DB (option string);
  PTTL : Z -> string -> script DB Z;
  EXISTS : Z -> string -> script DB Z;
  HGET : Z -> string -> string -> script DB (option string);
  HGETALL : Z -> string -> script DB (gmap string string);
  SET : Z -> string -> string -> option Z -> script DB unit;
  DEL : Z -> string -> script DB Z;
  UNLINK : Z -> string -> script DB Z;
  HSET : Z -> string -> list (string * string) -> script DB unit;
  PEXPIRE : Z -> string -> Z -> script DB unit }.

Definition exists_ (o : option rvalue) : Z := match o with Some _ => 1 | None => 0 end.
Definition hash_set (fields : list (string * string)) (h : gmap string string) : gmap string string :=
  foldl (fun h fv => <[fv.1 := fv.2]> h) h fields.

(** Their documented behaviour, by what the keys hold. *)
Class RecordServerLaws (DB : Type) `{RecordServer DB} := {
  look_later t t' k db : t <= t' -> look t' k db = at_time t' (look t k db);
  GET_law t k db : GET t k db =
    (db, match look t k db with
         | None => Ok None
         | Some (mkRvalue (DString s) _) => Ok (Some s)
         | Some _ => Err WrongType
         end);
  PTTL_law t k db : PTTL t k db =
    (db, Ok match look t k db with
            | None => -2
            | Some v => match rv_expires v with None => -1 | Some w => w - t end
            end);
  EXISTS_law t k db : EXISTS t k db = (db, Ok (exists_ (look t k db)));
  HGET_law t k f db : HGET t k f db =
    (db, match look t k db with
         | None => Ok None
         | Some (mkRvalue (DHash h) _) => Ok (h !! f)
         | Some _ => Err WrongType
         end);
  HGETALL_law t k db : HGETALL t k db =
    (db, match look t k db with
         | None => Ok ∅
         | Some (mkRvalue (DHash h) _) => Ok h
         | Some _ => Err WrongType
         end);
  SET_law t k v px db : (forall n, px = Some n -> 1 <= n) ->
    (SET t k v px db).2 = Ok tt /\
    forall t' k', t <= t' -> look t' k' (SET t k v px db).1 =
      if bool_decide (k = k') then at_time t' (Some (mkRvalue (DString v) (Z.add t <$> px))) else look t' k' db;
  DEL_law t k db :
    (DEL t k db).2 = Ok (exists_ (look t k db)) /\
    forall t' k', t <= t' -> look t' k' (DEL t k db).1 = if bool_decide (k = k') then None else look t' k' db;
  UNLINK_law t k db :
    (UNLINK t k db).2 = Ok (exists_ (look t k db)) /\
    forall t' k', t <= t' -> look t' k' (UNLINK t k db).1 = if bool_decide (k = k') then None else look t' k' db;
  HSET_law t k fields db :
    match look t k db with
    | Some (mkRvalue (DString _) _) => HSET t k fields db = (db, Err WrongType)
    | held =>
        let '(h, w) := match held with Some (mkRvalue (DHash h) w) => (h, w) | _ => (∅, None) end in
        (HSET t k fields db).2 = Ok tt /\
        forall t' k', t <= t' -> look t' k' (HSET t k fields db).1 =
          if bool_decide (k = k') then at_time t' (Some (mkRvalue (DHash (hash_set fields h)) w)) else look t' k' db
    end;
  PEXPIRE_law t k px db : 1 <= px ->
    (PEXPIRE t k px db).2 = Ok tt /\
    forall t' k', t <= t' -> look t' k' (PEXPIRE t k px db).1 =
      if bool_decide (k = k') then at_time t' ((fun v => mkRvalue (rv_data v) (Some (t + px))) <$> look t k db)
      else look t' k' db }.

(** The documents of a record: encoding/json over the two structs. *)
Class RecordJSON := {
  marshal_Progress : Progress -> option string;
  unmarshal_Progress : string -> option Progress;
  marshal_Outcome : COutcome -> option string;
  unmarshal_Outcome : string -> option COutcome }.

(** The structs encode, and what they encode to decodes back. *)
Class RecordJSONLaws `{RecordJSON} := {
  progress_round p : exists s, marshal_Progress p = Some s /\ s <> "" /\ unmarshal_Progress s = Some p;
  outcome_round o : exists s, marshal_Outcome o = Some s /\ s <> "" /\ unmarshal_Outcome s = Some o }.

(** *** Lua *)

(** The digits of a numeral without its trailing zeros. *)
Fixpoint strip_zeros (s : string) : string :=
  match s with
  | EmptyString => EmptyString
  | String c r => match strip_zeros r with
                  | EmptyString => if Ascii.eqb c "0" then EmptyString else String c EmptyString
                  | r => String c r
                  end
  end.

(** [tostring] of an integral number, as "%.14g": all digits below a hundred
    million million, else fourteen of them and an exponent. *)
Definition tostring (z : Z) : string :=
  if Z.abs z <? 10 ^ 14 then pretty z
  else
    let a := Z.abs (dbl z) in
    let e := Z.of_nat (String.length (pretty a)) - 1 in
    let q := rne a (10 ^ (e - 13)) in
    let '(q, e) := if q =? 10 ^ 14 then (10 ^ 13, e + 1) else (q, e) in
    let digits := pretty q in
    let frac := strip_zeros (drop_str 1 digits) in
    (if z <? 0 then "-" else "") +:+ String.substring 0 1 digits +:+ (if bool_decide (frac = "") then "" else "." +:+ frac)
      +:+ "e+" +:+ pretty e.

(** What a script answers, as the client hands it on. *)
Inductive sreply := SString (s : string) | SNil | SArray (l : list sreply).

(** A value that may be nil inside an answer; false is answered as nil. *)
Definition or_nil (o : option string) : sreply := match o with Some s => SString s | None => SNil end.

Section scripts.
Context {DB : Type} `{RecordServer DB}.

(** The writes of an acceptance, the end of [acceptScript]. *)
Definition claim (t : Z) (record lease command fencing : string) (retention leaseTTL : Z) (token : option string) : script DB sreply :=
  _ ← HSET t record [("command", command); ("fencing", fencing)];
  _ ← PEXPIRE t record retention;
  _ ← SET t lease fencing (Some leaseTTL);
  mret (SArray (SString "accepted" :: match token with Some token => [SString token] | None => [] end)).

(** [tokens] are the declared keys after the first two. *)
Definition acceptScript (t : Z) (record lease : string) (tokens : list string) (command fencing : string)
    (retention leaseTTL : Z) : script DB sreply :=
  existing ← HGET t record "command";
  match existing with
  | Some _ => mret (SArray [SString "existing"])
  | None =>
      held ← GET t lease;
      match held with
      | Some _ => ttl ← PTTL t lease; mret (SArray [SString "busy"; SString (tostring ttl)])
      | None =>
          match tokens with
          | [] => claim t record lease command fencing retention leaseTTL None
          | key :: _ =>
              token ← GET t key;
              match token with
              | None => mret (SArray [SString "no_token"])
              | Some token => _ ← DEL t key; claim t record lease command fencing retention leaseTTL (Some token)
              end
          end
      end
  end.

(** The loop over the counters of [batchScript]. *)
Fixpoint unlink_all (t : Z) (keys : list string) : script DB unit :=
  match keys with
  | [] => mret tt
  | k :: keys => _ ← UNLINK t k; unlink_all t keys
  end.

Definition batchScript (t : Z) (record lease : string) (counters : list string) (fencing progress : string) : script DB sreply :=
  held ← GET t lease;
  if negb (bool_decide (held = Some fencing)) then mret (SString "lost")
  else _ ← unlink_all t counters;
       _ ← HSET t record [("progress", progress)];
       mret (SString "ok").

Definition commitScript (t : Z) (record lease fencing outcome : string) (retention : Z) : script DB sreply :=
  held ← GET t lease;
  if negb (bool_decide (held = Some fencing)) then mret (SString "lost")
  else _ ← HSET t record [("outcome", outcome); ("terminal", "1")];
       _ ← PEXPIRE t record retention;
       _ ← DEL t lease;
       mret (SString "ok").

Definition finalizeScript (t : Z) (record lease outcome : string) (retention : Z) : script DB sreply :=
  n ← EXISTS t record;
  if n =? 0 then mret (SString "gone")
  else
    terminal ← HGET t record "terminal";
    match terminal with
    | Some _ => mret (SString "already")
    | None =>
        held ← GET t lease;
        match held with
        | Some _ => mret (SString "alive")
        | None =>
            _ ← HSET t record [("outcome", outcome); ("terminal", "1")];
            _ ← PEXPIRE t record retention;
            mret (SString "ok")
        end
    end.

(** The counting loop of [resetScript]. *)
Fixpoint count_keys (t : Z) (dryRun : string) (keys : list string) (count : Z) : script DB Z :=
  match keys with
  | [] => mret count
  | k :: keys =>
      n ← (if bool_decide (dryRun = "1") then EXISTS t k else UNLINK t k);
      count_keys t dryRun keys (count + n)
  end.

Definition resetScript (t : Z) (record : string) (counters : list string) (command : string) (retention : Z)
    (dryRun answer : string) : script DB sreply :=
  existing ← HGET t record "command";
  match existing with
  | Some existing =>
      count ← HGET t record "count";
      held ← HGET t record "answer";
      mret (SArray [SString "replayed"; SString existing; or_nil count; or_nil held])
  | None =>
      count ← count_keys t dryRun counters 0;
      _ ← HSET t record [("command", command); ("terminal", "1"); ("count", tostring count); ("answer", answer)];
      _ ← PEXPIRE t record retention;
      mret (SArray [SString "done"; SString command; SString (tostring count); SString answer])
  end.

End scripts.

(** *** The client *)

Inductive records_error :=
| RServer (e : redis_error)
| RDecode
| REncode
| RNotVerdict
| RUnknownVerdict (verdict : string)
| RShortReply (n : nat)
| RCount (count : string)
| RLeaseLost.

Definition field (fields : gmap string string) (name : string) : string := default "" (fields !! name).

Definition recordOf `{RecordJSON} (fields : gmap string string) : result records_error Record_ :=
  if bool_decide (fields = ∅) then Ok no_record
  else
    let? progress := if bool_decide (field fields "progress" = "") then Ok no_progress
                     else match unmarshal_Progress (field fields "progress") with Some p => Ok p | None => Err RDecode end in
    let? (outcome, progress) :=
      if bool_decide (field fields "outcome" = "") then Ok (no_outcome, progress)
      else match unmarshal_Outcome (field fields "outcome") with Some o => Ok (o, co_Progress o) | None => Err RDecode end in
    let? progress :=
      if bool_decide (field fields "count" = "") then Ok progress
      else match ParseInt (field fields "count") with
           | Some n => Ok (mkProgress (pg_Scanned progress) (pg_Matched progress) n (pg_Rules progress) (pg_Keys progress)
                             (pg_Truncated progress))
           | None => Err RDecode
           end in
    Ok (mkRecord true (field fields "command") (bool_decide (field fields "terminal" = "1")) outcome progress
          (field fields "answer") (field fields "fencing") "" 0).

(** A string inside an answer, empty when it is none. *)
Definition as_string (v : option sreply) : string := match v with Some (SString s) => s | _ => "" end.

Definition verdictOf (res : sreply) : result records_error (list sreply * string) :=
  match res with
  | SArray (v :: rest) => Ok (v :: rest, as_string (Some v))
  | _ => Err RNotVerdict
  end.

Definition millis (raw : string) : Z :=
  match ParseInt raw with
  | Some value => if value <? 0 then 0 else value *i Millisecond
  | None => 0
  end.

(** The remaining time as the client reads a PTTL reply. *)
Definition pttl_duration (n : Z) : Z := if n <? 0 then n else n *i Millisecond.

(** A call: the store afterwards and what it returned. *)
Definition call (DB A : Type) : Type := DB -> DB * result records_error A.
Definition run_script {DB A B} (s : script DB A) (k : A -> call DB B) : call DB B := fun db =>
  match s db with (db, Ok a) => k a db | (db, Err e) => (db, Err (RServer e)) end.
Definition return_ {DB A} (r : result records_error A) : call DB A := fun db => (db, r).

Section client.
Context {DB : Type} `{RecordServer DB} `{RecordJSON}.

Definition redis_Lookup (t : Z) (keys : Keys) : call DB Record_ :=
  run_script (HGETALL t (k_Record keys)) (fun fields =>
  run_script (GET t (k_Lease keys)) (fun holder =>
  run_script (PTTL t (k_Lease keys)) (fun ttl =>
  return_ (
    let? record := recordOf fields in
    if negb (r_Found record) then Ok record
    else match holder with
         | Some held => Ok (mkRecord (r_Found record) (r_Command record) (r_Terminal record) (r_Outcome record)
                              (r_Progress record) (r_Answer record) (r_Fencing record) held (pttl_duration ttl))
         | None => Ok record
         end)))).

(** [Retention.Milliseconds()] and the like. *)
Definition Milliseconds (d : Z) : Z := d /i Millisecond.

(** What [Accept] makes of the script's answer. *)
Definition accept_reply (t : Z) (keys : Keys) (res : sreply) : call DB Accepted :=
  match verdictOf res with
  | Err e => return_ (Err e)
  | Ok (reply, verdict) =>
      if bool_decide (verdict = "existing") then fun db =>
        match redis_Lookup t keys db with
        | (db, Ok existing) => (db, Ok (mkAccepted false existing false false 0 ""))
        | (db, Err e) => (db, Err e)
        end
      else if bool_decide (verdict = "busy") then
        return_ (Ok (mkAccepted false no_record false true (millis (as_string (reply !! 1%nat))) ""))
      else if bool_decide (verdict = "no_token") then return_ (Ok (mkAccepted false no_record true false 0 ""))
      else if bool_decide (verdict = "accepted") then
        return_ (Ok (mkAccepted true no_record false false 0
                       (if (1 <? length reply)%nat then as_string (reply !! 1%nat) else "")))
      else return_ (Err (RUnknownVerdict verdict))
  end.

Definition redis_Accept (t : Z) (a : Acceptance) : call DB Accepted :=
  let keys := ac_Keys a in
  run_script (acceptScript t (k_Record keys) (k_Lease keys) (if bool_decide (k_Token keys = "") then [] else [k_Token keys])
                (ac_Command a) (ac_Fencing a) (Milliseconds Retention) (Milliseconds (ac_LeaseTTL a)))
    (accept_reply t keys).

Definition redis_Batch (t : Z) (b : BatchArg) : call DB unit :=
  match marshal_Progress (ba_Progress b) with
  | None => return_ (Err REncode)
  | Some progress =>
      run_script (batchScript t (k_Record (ba_Keys b)) (k_Lease (ba_Keys b)) (ba_Delete b) (ba_Fencing b) progress) (fun res =>
      match res with SString "lost" => return_ (Err RLeaseLost) | _ => return_ (Ok tt) end)
  end.

Definition redis_Commit (t : Z) (c : CommitArg) : call DB unit :=
  match marshal_Outcome (cm_Outcome c) with
  | None => return_ (Err REncode)
  | Some outcome =>
      run_script (commitScript t (k_Record (cm_Keys c)) (k_Lease (cm_Keys c)) (cm_Fencing c) outcome (Milliseconds Retention)) (fun res =>
      match res with SString "lost" => return_ (Err RLeaseLost) | _ => return_ (Ok tt) end)
  end.

(** What [Finalize] does after its first look. *)
Definition finalize_found (t : Z) (f : FinalizeArg) (current : Record_) : call DB Record_ :=
  match marshal_Outcome (with_progress (r_Progress current) (fi_Outcome f)) with
  | None => return_ (Err REncode)
  | Some encoded =>
      run_script (finalizeScript t (k_Record (fi_Keys f)) (k_Lease (fi_Keys f)) encoded (Milliseconds Retention)) (fun _ =>
      redis_Lookup t (fi_Keys f))
  end.

Definition redis_Finalize (t : Z) (f : FinalizeArg) : call DB Record_ := fun db =>
  match redis_Lookup t (fi_Keys f) db with
  | (db, Err e) => (db, Err e)
  | (db, Ok current) =>
      if negb (r_Found current) || r_Terminal current then (db, Ok current) else finalize_found t f current db
  end.

Definition redis_Reset (t : Z) (a : Addressed) : call DB AddressedOutcome :=
  run_script (resetScript t (a_Record a) (a_Delete a) (a_Command a) (Milliseconds Retention)
                (if a_DryRun a then "1" else "0") (a_Answer a)) (fun res =>
  return_ (
    let? (reply, verdict) := verdictOf res in
    if (length reply <? 4)%nat then Err (RShortReply (length reply))
    else
      let count := as_string (reply !! 2%nat) in
      match ParseInt count with
      | None => Err (RCount count)
      | Some parsed => Ok (mkAddressedOutcome (bool_decide (verdict = "replayed")) (as_string (reply !! 1%nat)) parsed
                             (as_string (reply !! 3%nat)))
      end)).

(** The client sends no expiry for a time to live that is not positive, and at
    least a millisecond. *)
Definition redis_Put (t : Z) (key value : string) (ttl : Z) : call DB unit :=
  run_script (SET t key value (if 0 <? ttl then Some (Z.max 1 (ttl / Millisecond)) else None)) (fun _ => return_ (Ok tt)).

Definition redis_Get (t : Z) (key : string) : call DB (option string) :=
  run_script (GET t key) (fun raw => return_ (Ok raw)).

End client.
