(* ===== verification/RedisRecordsFacts.v ===== *)
(** * The records in the shared store against the ones in memory

    A relation between the two stores at an instant, and that every call keeps
    it and gives the same answer. *)
From S2P Require Import Prelude GoStrings Algo StoreApi Memory MemoryScan Compile MatchKeys Lua Records RecordsClaims RedisRecords.

(** ** Definitions *)

Definition ms (t : Z) : Z := t / Millisecond.
Definition whole (t : Z) : Prop := ms t * Millisecond = t.

(** What a key of the domain's slot is for. *)
Inductive key_kind := KBulk | KAddressed | KLease | KToken | KCounter.

(** A call: its instant, what is called, and for a change of the counters what
    it does to the server. *)
Record rcall (DB : Type) := mkRcall { rc_at : Z; rc_op : rop; rc_counters : DB -> DB }.
Arguments mkRcall {DB}.
Arguments rc_at {DB}.
Arguments rc_op {DB}.
Arguments rc_counters {DB}.

Inductive ranswer :=
| AnRecord (r : Record_)
| AnAccepted (a : Accepted)
| AnHeld (held : bool)
| AnAddressed (a : AddressedOutcome)
| AnDocument (d : option string)
| AnDone
| AnFailed.

Definition memory_answer (t : Z) (op : rop) (m : MemoryRecords) : ranswer :=
  match op with
  | OLookup keys => AnRecord (Lookup t keys m).2
  | OAccept a => AnAccepted (Accept t a m).2
  | OBatch b => match (Batch t b m).2 with None => AnHeld true | Some ErrLeaseLost => AnHeld false | _ => AnFailed end
  | OCommit c => match (Commit t c m).2 with None => AnHeld true | Some ErrLeaseLost => AnHeld false | _ => AnFailed end
  | OFinalize f => AnRecord (Finalize t f m).2
  | OReset a => match (Reset t a m).2 with Ok o => AnAddressed o | Err _ => AnFailed end
  | OPut _ _ _ => AnDone
  | OGet k => AnDocument (Get t k m)
  | OCounters _ => AnDone
  end.

Fixpoint memory_answers {DB} (calls : list (rcall DB)) (m : MemoryRecords) : list ranswer :=
  match calls with
  | [] => []
  | c :: calls => memory_answer (rc_at c) (rc_op c) m :: memory_answers calls (rstep (rc_at c) (rc_op c) m)
  end.

Definition answered {A} (f : A -> ranswer) (r : result records_error A) : ranswer :=
  match r with Ok a => f a | Err _ => AnFailed end.
Definition answered_held (r : result records_error unit) : ranswer :=
  match r with Ok _ => AnHeld true | Err RLeaseLost => AnHeld false | Err _ => AnFailed end.

Section redis.
Context {DB : Type} `{RecordServer DB} `{RecordJSON}.

(** The same call on the server. *)
Definition redis_step (c : rcall DB) (db : DB) : DB * ranswer :=
  let t := ms (rc_at c) in
  match rc_op c with
  | OLookup keys => let '(db, r) := redis_Lookup t keys db in (db, answered AnRecord r)
  | OAccept a => let '(db, r) := redis_Accept t a db in (db, answered AnAccepted r)
  | OBatch b => let '(db, r) := redis_Batch t b db in (db, answered_held r)
  | OCommit c => let '(db, r) := redis_Commit t c db in (db, answered_held r)
  | OFinalize f => let '(db, r) := redis_Finalize t f db in (db, answered AnRecord r)
  | OReset a => let '(db, r) := redis_Reset t a db in (db, answered AnAddressed r)
  | OPut k v ttl => let '(db, r) := redis_Put t k v ttl db in (db, answered (fun _ => AnDone) r)
  | OGet k => let '(db, r) := redis_Get t k db in (db, answered AnDocument r)
  | OCounters _ => (rc_counters c db, AnDone)
  end.

Fixpoint redis_answers (calls : list (rcall DB)) (db : DB) : list ranswer :=
  match calls with
  | [] => []
  | c :: calls => let '(db, a) := redis_step c db in a :: redis_answers calls db
  end.

End redis.

(** ** Lemmas *)

Lemma whole_add t d : whole t -> whole d -> ms (t + d) = ms t + ms d /\ whole (t + d).
Proof.
  unfold whole, ms, Millisecond. intros Ht Hd. rewrite <- Ht, <- Hd at 1.
  rewrite <- Z.mul_add_distr_r, Z.div_mul by done. split; [done|]. rewrite <- Ht, <- Hd.
  by rewrite <- Z.mul_add_distr_r, !Z.div_mul.
Qed.

(** Off the edge, the two clocks agree on what is alive. *)
Lemma alive_edge t w x : whole t -> w * Millisecond = x -> t <> x -> (ms t <=? w) = (t <? x).
Proof.
  unfold whole, Millisecond. intros Ht Hw Hne.
  destruct (Z.leb_spec (ms t) w), (Z.ltb_spec t x); lia.
Qed.

Lemma ms_mono t t' : t <= t' -> ms t <= ms t'.
Proof. intros. unfold ms, Millisecond. apply Z.div_le_mono; lia. Qed.

Lemma Milliseconds_ms d : 0 <= d <= max_i64 -> Milliseconds d = ms d.
Proof.
  intros Hd. unfold Milliseconds, div64, ms, Millisecond, max_i64 in *. rewrite Z.quot_div_nonneg by lia.
  apply i64_id. unfold is_i64, min_i64, max_i64.
  assert (0 <= d / 1000000 <= d) by (split; [apply Z.div_pos; lia|apply Z.div_le_upper_bound; lia]). lia.
Qed.

Lemma Retention_ms : Milliseconds Retention = 86400000 /\ ms Retention = 86400000 /\ whole Retention.
Proof. by vm_compute. Qed.

Lemma tostring_small n : 0 <= n < 10 ^ 14 -> tostring n = pretty n /\ ParseInt (tostring n) = Some n.
Proof.
  intros Hn. unfold tostring. rewrite (proj2 (Z.ltb_lt _ _)) by lia. split; [done|]. apply ParseInt_pretty.
  unfold is_i64, min_i64, max_i64. lia.
Qed.

Lemma pretty_nonempty n : 0 <= n -> pretty n <> "".
Proof. intros Hn. by destruct (pretty_digits n Hn). Qed.

(** *** Views of the memory store *)

Definition live_record (t : Z) (k : string) (m : MemoryRecords) : option rentry := (record t k m).2.

Lemma live_record_alt t k m :
  live_record t k m = match mm_records m !! k with Some e => if t <? re_expiresAt e then Some e else None | None => None end.
Proof. unfold live_record, record. destruct (mm_records m !! k) as [e|]; [|done]. by destruct (_ <? _). Qed.

(** The state after a look at a record differs in nothing readable. *)
Lemma record_views t t' key k m : t <= t' ->
  let m' := (record t key m).1 in
  live_record t' k m' = live_record t' k m /\ mm_leases m' = mm_leases m /\ mm_documents m' = mm_documents m /\
  mm_counters m' = mm_counters m.
Proof.
  intros Ht. cbn zeta. rewrite !live_record_alt. unfold record. destruct (mm_records m !! key) as [e|] eqn:E; [|done].
  destruct (Z.ltb_spec t (re_expiresAt e)); [done|]. cbn [negb fst mm_leases mm_documents mm_counters mm_records].
  split_and!; try done. destruct (decide (k = key)) as [->|]; [|by rewrite lookup_delete_ne].
  rewrite lookup_delete_eq, E. by rewrite (proj2 (Z.ltb_ge _ _)) by lia.
Qed.

Lemma read_alt t keys m :
  read t keys m = ((record t (k_Record keys) m).1,
    match live_record t (k_Record keys) m with
    | None => no_record
    | Some e =>
        let '(holder, ttl) := match lease_of t (k_Lease keys) m with
                              | Some held => (l_value held, l_expiresAt held - t)
                              | None => ("", 0)
                              end in
        mkRecord true (re_command e) (re_terminal e) (re_outcome e) (re_progress e) (re_answer e) (re_fencing e) holder ttl
    end).
Proof.
  unfold read, live_record, record. destruct (mm_records m !! k_Record keys) as [e|]; [|done].
  destruct (t <? re_expiresAt e); cbn [negb]; [|done]. by destruct (lease_of _ _ _).
Qed.

(** ** The relation *)

Section agree.
Context {DB : Type} {RS : RecordServer DB} {RL : RecordServerLaws DB} {RJ : RecordJSON} {JL : RecordJSONLaws}.
Context (kind : string -> key_kind).

(** The hash of a bulk command's record. *)
Definition bulk_rep (e : rentry) (h : gmap string string) : Prop :=
  h !! "command" = Some (re_command e) /\ h !! "fencing" = Some (re_fencing e) /\ h !! "count" = None /\
  h !! "answer" = None /\ re_answer e = "" /\ h !! "terminal" = (if re_terminal e then Some "1" else None) /\
  (if re_terminal e then
     (exists s, h !! "outcome" = Some s /\ s <> "" /\ unmarshal_Outcome s = Some (re_outcome e)) /\
     re_progress e = co_Progress (re_outcome e)
   else h !! "outcome" = None /\ re_outcome e = no_outcome) /\
  match h !! "progress" with
  | None => re_terminal e = false -> re_progress e = no_progress
  | Some s => s <> "" /\ exists p, unmarshal_Progress s = Some p /\ (re_terminal e = false -> re_progress e = p)
  end.

(** The hash of an addressed reset's record. *)
Definition addressed_rep (e : rentry) (h : gmap string string) : Prop :=
  exists n, 0 <= n < 10 ^ 14 /\
    h = hash_set [("command", re_command e); ("terminal", "1"); ("count", tostring n); ("answer", re_answer e)] ∅ /\
    e = mkREntry (re_command e) "" true (mkProgress 0 0 n ∅ [] false) no_outcome (re_answer e) (re_expiresAt e).

Definition rel_record (rep : rentry -> gmap string string -> Prop) (o : option rentry) (v : option rvalue) : Prop :=
  match o, v with
  | None, None => True
  | Some e, Some (mkRvalue (DHash h) (Some w)) => rep e h /\ w * Millisecond = re_expiresAt e
  | _, _ => False
  end.

Definition rel_text (o : option (string * Z)) (v : option rvalue) : Prop :=
  match o, v with
  | None, None => True
  | Some (s, x), Some (mkRvalue (DString s') (Some w)) => s' = s /\ w * Millisecond = x
  | _, _ => False
  end.

Definition lease_view (t : Z) (k : string) (m : MemoryRecords) := (fun l => (l_value l, l_expiresAt l)) <$> lease_of t k m.
Definition document_view (t : Z) (k : string) (m : MemoryRecords) := (fun d => (d_value d, d_expiresAt d)) <$> document_of t k m.

Definition rel_key (t : Z) (k : string) (m : MemoryRecords) (db : DB) : Prop :=
  let v := look (ms t) k db in
  match kind k with
  | KBulk => rel_record bulk_rep (live_record t k m) v
  | KAddressed => rel_record addressed_rep (live_record t k m) v
  | KLease => rel_text (lease_view t k m) v /\ forall l, lease_of t k m = Some l -> l_expiresAt l <= t + Retention
  | KToken => rel_text (document_view t k m) v
  | KCounter => counted t (mm_counters m) k = bool_decide (is_Some v)
  end.

(** The stores agree on every key at every instant still to come. *)
Definition agrees (ts : list Z) (m : MemoryRecords) (db : DB) : Prop := forall t k, t ∈ ts -> rel_key t k m db.

Definition same_view (t : Z) (k : string) (m m' : MemoryRecords) : Prop :=
  match kind k with
  | KBulk | KAddressed => live_record t k m' = live_record t k m
  | KLease => lease_of t k m' = lease_of t k m
  | KToken => document_of t k m' = document_of t k m
  | KCounter => counted t (mm_counters m') k = counted t (mm_counters m) k
  end.

(** What is touched on neither side still agrees. *)
Lemma rel_key_frame t k m m' db db' :
  same_view t k m m' -> look (ms t) k db' = look (ms t) k db -> rel_key t k m db -> rel_key t k m' db'.
Proof.
  unfold rel_key, same_view, lease_view, document_view. intros Hv Hl. rewrite Hl. by destruct (kind k); rewrite Hv.
Qed.

Lemma rel_text_fresh t s x w : whole t -> w * Millisecond = x -> t <> x ->
  rel_text (if t <? x then Some (s, x) else None) (at_time (ms t) (Some (mkRvalue (DString s) (Some w)))).
Proof.
  intros Ht Hw Hne. unfold at_time, readable. cbn [rv_expires]. rewrite (alive_edge t w x) by done. by destruct (t <? x).
Qed.

Lemma rel_record_fresh rep t e h w : whole t -> w * Millisecond = re_expiresAt e -> t <> re_expiresAt e -> rep e h ->
  rel_record rep (if t <? re_expiresAt e then Some e else None) (at_time (ms t) (Some (mkRvalue (DHash h) (Some w)))).
Proof.
  intros Ht Hw Hne Hr. unfold at_time, readable. cbn [rv_expires]. rewrite (alive_edge t w (re_expiresAt e)) by done.
  by destruct (t <? re_expiresAt e).
Qed.

(** A record that stays under its expiry. *)
Lemma rel_record_kept rep t t' k m db e h w e' h' :
  t <= t' -> live_record t k m = Some e -> look (ms t) k db = Some (mkRvalue (DHash h) (Some w)) ->
  rel_record rep (live_record t' k m) (look (ms t') k db) -> re_expiresAt e' = re_expiresAt e ->
  w * Millisecond = re_expiresAt e -> rep e' h' ->
  rel_record rep (if t' <? re_expiresAt e' then Some e' else None) (at_time (ms t') (Some (mkRvalue (DHash h') (Some w)))).
Proof.
  intros Ht He Hl Hrel Hx Hw Hr. rewrite (look_later (ms t) (ms t')), Hl in Hrel by (by apply ms_mono).
  rewrite live_record_alt in He, Hrel. destruct (mm_records m !! k) as [e0|]; [|done].
  destruct (t <? re_expiresAt e0); [injection He as ->|done]. rewrite Hx.
  unfold at_time, readable in *. cbn [rv_expires] in *. destruct (ms t' <=? w), (t' <? re_expiresAt e); try done. split; [done|congruence].
Qed.

(** *** Reading a record back *)

Lemma field_Some h f s : h !! f = Some s -> field h f = s.
Proof. intros E. unfold field. by rewrite E. Qed.
Lemma field_None h f : h !! f = None -> field h f = "".
Proof. intros E. unfold field. by rewrite E. Qed.

Definition record_view (e : rentry) (holder : string) (ttl : Z) : Record_ :=
  mkRecord true (re_command e) (re_terminal e) (re_outcome e) (re_progress e) (re_answer e) (re_fencing e) holder ttl.

Lemma recordOf_bulk e h : bulk_rep e h -> recordOf h = Ok (record_view e "" 0).
Proof.
  intros (Hc & Hf & Hn & Ha & Hae & Ht & Ho & Hp). unfold recordOf, record_view.
  rewrite bool_decide_false by (intros ->; by rewrite lookup_empty in Hc).
  rewrite (field_Some _ _ _ Hc), (field_Some _ _ _ Hf), (field_None _ _ Hn), (field_None _ _ Ha), Hae.
  rewrite (bool_decide_true ("" = "")) by done.
  assert (bool_decide (field h "terminal" = "1") = re_terminal e) as ->.
  { unfold field. rewrite Ht. by destruct (re_terminal e). }
  assert ((if bool_decide (field h "progress" = "") then Ok no_progress
           else match unmarshal_Progress (field h "progress") with Some p => Ok p | None => Err RDecode end) =
    Ok (match h !! "progress" with None => no_progress | Some s => default no_progress (unmarshal_Progress s) end)
    :> result records_error Progress) as ->.
  { unfold field. destruct (h !! "progress") as [s|]; cbn [default from_option id]; [|by rewrite bool_decide_true].
    destruct Hp as (Hs & p & -> & _). by rewrite bool_decide_false. }
  destruct (re_terminal e) eqn:Et.
  - destruct Ho as ((s & Hs & Hne & Hu) & ->). rewrite (field_Some _ _ _ Hs), bool_decide_false, Hu by done. done.
  - destruct Ho as (Ho & ->). rewrite (field_None _ _ Ho), bool_decide_true by done. do 2 f_equal.
    destruct (h !! "progress") as [s|]; [|by rewrite Hp]. destruct Hp as (_ & p & -> & Hp). by rewrite Hp.
Qed.

Lemma recordOf_addressed e h : addressed_rep e h -> recordOf h = Ok (record_view e "" 0).
Proof.
  intros (n & Hn & -> & ->). unfold hash_set. cbn [foldl fst snd re_command re_answer re_expiresAt]. unfold recordOf.
  rewrite bool_decide_false by apply insert_non_empty.
  destruct (tostring_small n Hn) as [Hs Hp].
  rewrite !(field_None _ "progress"), !(field_None _ "outcome"), !(field_None _ "fencing"), (field_Some _ "count" (tostring n)),
    (field_Some _ "command" (re_command e)), (field_Some _ "terminal" "1"), (field_Some _ "answer" (re_answer e)) by (by simplify_map_eq).
  rewrite !(bool_decide_true ("" = "")), (bool_decide_false (tostring n = "")), Hp by (done || (rewrite Hs; apply pretty_nonempty; lia)).
  done.
Qed.

End agree.

(** * Every call of the record store answers alike on both stores *)

Section calls.
Context {DB : Type} {RS : RecordServer DB} {RL : RecordServerLaws DB} {RJ : RecordJSON} {JL : RecordJSONLaws}.
Context (kind : string -> key_kind).

Definition is_record (k : string) : Prop := kind k = KBulk \/ kind k = KAddressed.

(** ** What the server holds of the memory store *)

Lemma record_look t k m (db : DB) : is_record k -> rel_key kind t k m db ->
  match live_record t k m with
  | None => look (ms t) k db = None
  | Some e => exists h w, look (ms t) k db = Some (mkRvalue (DHash h) (Some w)) /\ recordOf h = Ok (record_view e "" 0) /\
      h !! "command" = Some (re_command e) /\ w * Millisecond = re_expiresAt e /\
      (kind k = KBulk -> bulk_rep e h) /\ (kind k = KAddressed -> addressed_rep e h)
  end.
Proof.
  intros Hk Hr. unfold rel_key in Hr. destruct Hk as [Hk|Hk]; rewrite Hk in Hr; unfold rel_record in Hr;
    (destruct (live_record t k m) as [e|], (look (ms t) k db) as [[[s|h] [w|]]|]; try done); destruct Hr as [Hr Hw];
    exists h, w; (split_and!; [done| | |done|by rewrite Hk|by rewrite Hk]).
  - by apply recordOf_bulk.
  - by destruct Hr.
  - by apply recordOf_addressed.
  - destruct Hr as (n & _ & -> & _). unfold hash_set. cbn [foldl fst snd]. by simplify_map_eq.
Qed.

Lemma lease_look t k m (db : DB) : kind k = KLease -> rel_key kind t k m db ->
  match lease_of t k m with
  | None => look (ms t) k db = None
  | Some l => exists w, look (ms t) k db = Some (mkRvalue (DString (l_value l)) (Some w)) /\ w * Millisecond = l_expiresAt l /\
      t < l_expiresAt l <= t + Retention
  end.
Proof.
  intros Hk Hr. unfold rel_key in Hr. rewrite Hk in Hr. destruct Hr as [Hr Hb]. unfold rel_text, lease_view in Hr.
  destruct (lease_of t k m) as [l|] eqn:E; cbn [fmap option_fmap option_map] in Hr; [|by destruct (look _ _ _)].
  destruct (look (ms t) k db) as [[[s|h] [w|]]|]; try done. destruct Hr as [-> Hw]. exists w. split_and!; [done|done| |by apply Hb].
  unfold lease_of in E. destruct (mm_leases m !! k) as [l'|]; [|done].
  destruct (Z.ltb_spec t (l_expiresAt l')); [|done]. by injection E as <-.
Qed.

Lemma token_look t k m (db : DB) : kind k = KToken -> rel_key kind t k m db ->
  match document_of t k m with
  | None => look (ms t) k db = None
  | Some d => exists w, look (ms t) k db = Some (mkRvalue (DString (d_value d)) (Some w))
  end.
Proof.
  intros Hk Hr. unfold rel_key in Hr. rewrite Hk in Hr. unfold rel_text, document_view in Hr.
  destruct (document_of t k m) as [d|]; cbn [fmap option_fmap option_map] in Hr; [|by destruct (look _ _ _)].
  destruct (look (ms t) k db) as [[[s|h] [w|]]|]; try done. destruct Hr as [-> Hw]. by exists w.
Qed.

(** The remaining time of a lease, in both clocks. *)
Lemma lease_left t w x : whole t -> w * Millisecond = x -> t < x <= t + Retention ->
  0 <= w - ms t <= 86400000 /\ pttl_duration (w - ms t) = x - t /\ millis (tostring (w - ms t)) = x - t.
Proof.
  intros Ht Hw Hx. assert (0 <= w - ms t <= 86400000) as Hr by (unfold whole, Millisecond, Retention, Second in *; lia).
  split; [done|]. assert (is_i64 ((w - ms t) * Millisecond)) as Hi.
  { unfold is_i64, min_i64, max_i64, Millisecond. lia. }
  unfold pttl_duration, millis. destruct (tostring_small (w - ms t)) as [_ ->]; [lia|].
  rewrite !(proj2 (Z.ltb_ge _ _)) by lia. unfold mul64. rewrite i64_id by done. unfold whole, Millisecond in *. lia.
Qed.

(** ** Lookup *)

Lemma redis_Lookup_agrees t keys m (db : DB) :
  whole t -> is_record (k_Record keys) -> kind (k_Lease keys) = KLease ->
  rel_key kind t (k_Record keys) m db -> rel_key kind t (k_Lease keys) m db ->
  redis_Lookup (ms t) keys db = (db, Ok (read t keys m).2).
Proof.
  intros Ht Hr Hl Rr Rl. unfold redis_Lookup, run_script, return_. rewrite HGETALL_law, GET_law, PTTL_law, read_alt. cbn [snd].
  pose proof (record_look t _ m db Hr Rr) as Hrec. pose proof (lease_look t _ m db Hl Rl) as Hlea.
  destruct (lease_of t (k_Lease keys) m) as [l|].
  - destruct Hlea as (w & -> & Hw & Hx). destruct (lease_left t w _ Ht Hw Hx) as (_ & Hd & _).
    destruct (live_record t (k_Record keys) m) as [e|]; [|by rewrite Hrec].
    destruct Hrec as (h & w' & -> & -> & _). cbn [rv_expires]. by rewrite Hd.
  - rewrite Hlea. destruct (live_record t (k_Record keys) m) as [e|]; [|by rewrite Hrec].
    by destruct Hrec as (h & w' & -> & -> & _).
Qed.

(** ** Writes, with their effect *)

Lemma SET_run t k v n (db : DB) : 1 <= n ->
  exists db', SET t k v (Some n) db = (db', Ok tt) /\ forall t' k', t <= t' ->
    look t' k' db' = if bool_decide (k = k') then at_time t' (Some (mkRvalue (DString v) (Some (t + n)))) else look t' k' db.
Proof.
  intros Hn. destruct (SET_law t k v (Some n) db) as [H1 H2]; [by intros ? [= <-]|].
  destruct (SET t k v (Some n) db) as [db' r]. cbn in *. subst r. by exists db'.
Qed.

Lemma DEL_run t k (db : DB) : exists db', DEL t k db = (db', Ok (exists_ (look t k db))) /\
  forall t' k', t <= t' -> look t' k' db' = if bool_decide (k = k') then None else look t' k' db.
Proof. destruct (DEL_law t k db) as [H1 H2]. destruct (DEL t k db) as [db' r]. cbn in *. subst r. by exists db'. Qed.

Lemma UNLINK_run t k (db : DB) : exists db', UNLINK t k db = (db', Ok (exists_ (look t k db))) /\
  forall t' k', t <= t' -> look t' k' db' = if bool_decide (k = k') then None else look t' k' db.
Proof. destruct (UNLINK_law t k db) as [H1 H2]. destruct (UNLINK t k db) as [db' r]. cbn in *. subst r. by exists db'. Qed.

(** Writing fields of a hash, or of a key that holds nothing. *)
Lemma HSET_run t k fields h w (db : DB) :
  look t k db = Some (mkRvalue (DHash h) w) \/ look t k db = None /\ h = ∅ /\ w = None ->
  exists db', HSET t k fields db = (db', Ok tt) /\ forall t' k', t <= t' ->
    look t' k' db' = if bool_decide (k = k') then at_time t' (Some (mkRvalue (DHash (hash_set fields h)) w)) else look t' k' db.
Proof.
  intros Hl. pose proof (HSET_law t k fields db) as Hs.
  assert ((HSET t k fields db).2 = Ok tt /\ forall t' k', t <= t' -> look t' k' (HSET t k fields db).1 =
    if bool_decide (k = k') then at_time t' (Some (mkRvalue (DHash (hash_set fields h)) w)) else look t' k' db) as [H1 H2].
  { destruct Hl as [E|(E & -> & ->)]; by rewrite E in Hs. }
  destruct (HSET t k fields db) as [db' r]. cbn in *. subst r. by exists db'.
Qed.

(** Fields written and the expiry set: how a record is bound or ended. *)
Lemma write_record t k fields h w n (db : DB) : 1 <= n ->
  look t k db = Some (mkRvalue (DHash h) (Some w)) /\ t <= w \/ look t k db = None /\ h = ∅ ->
  exists db1 db2, HSET t k fields db = (db1, Ok tt) /\ PEXPIRE t k n db1 = (db2, Ok tt) /\ forall t' k', t <= t' ->
    look t' k' db2 = if bool_decide (k = k') then at_time t' (Some (mkRvalue (DHash (hash_set fields h)) (Some (t + n))))
                     else look t' k' db.
Proof.
  intros Hn Hl.
  assert (exists w0, (look t k db = Some (mkRvalue (DHash h) w0) \/ look t k db = None /\ h = ∅ /\ w0 = None) /\
    at_time t (Some (mkRvalue (DHash (hash_set fields h)) w0)) = Some (mkRvalue (DHash (hash_set fields h)) w0)) as (w0 & Hl0 & Ha).
  { destruct Hl as [[E Hw]|[E Eh]].
    - exists (Some w). split; [by left|]. unfold at_time, readable. cbn. by rewrite (proj2 (Z.leb_le _ _)).
    - exists None. split; [by right|]. done. }
  destruct (HSET_run t k fields h w0 db Hl0) as (db1 & E1 & L1). exists db1.
  destruct (PEXPIRE_law t k n db1 Hn) as [H1 H2]. destruct (PEXPIRE t k n db1) as [db2 r]. cbn in H1, H2. subst r. exists db2.
  split_and!; [done|done|]. intros t' k' Ht. rewrite H2, L1, L1 by (done || lia). rewrite (bool_decide_true (k = k)), Ha by done.
  cbn. by case_bool_decide.
Qed.

Lemma unlink_all_run t keys : forall (db : DB), exists db', unlink_all t keys db = (db', Ok tt) /\
  forall t' k', t <= t' -> look t' k' db' = if bool_decide (k' ∈ keys) then None else look t' k' db.
Proof.
  induction keys as [|k keys IH]; intros db.
  - exists db. split; [done|]. intros. by rewrite bool_decide_false by apply not_elem_of_nil.
  - cbn [unlink_all]. unfold mbind, script_bind. destruct (UNLINK_run t k db) as (db1 & -> & L1).
    destruct (IH db1) as (db' & E & L'). exists db'. split; [done|]. intros t' k' Ht. rewrite L', L1 by done.
    destruct (decide (k' ∈ keys)) as [Hin|Hin].
    + by rewrite !bool_decide_true by set_solver.
    + rewrite (bool_decide_false _ Hin). destruct (decide (k = k')) as [->|Hne]; [by rewrite !bool_decide_true by set_solver|].
      by rewrite !bool_decide_false by set_solver.
Qed.

(** The counts of an addressed reset: distinct keys, each once. *)
Lemma count_keys_run t dry keys : forall (db : DB) n, NoDup keys ->
  exists db', count_keys t (if dry : bool then "1" else "0") keys n db =
      (db', Ok (n + Z.of_nat (length (filter (fun k => is_Some (look t k db)) keys)))) /\
    forall t' k', t <= t' -> look t' k' db' = if negb dry && bool_decide (k' ∈ keys) then None else look t' k' db.
Proof.
  induction keys as [|k keys IH]; intros db n Hnd.
  - exists db. split; [cbn; unfold mret, script_ret; do 2 f_equal; lia|]. intros.
    by rewrite bool_decide_false, andb_false_r by apply not_elem_of_nil.
  - apply NoDup_cons in Hnd as [Hni Hnd]. cbn [count_keys]. unfold mbind, script_bind.
    assert (exists db1, (if bool_decide ((if dry then "1" else "0") = "1") then EXISTS t k else UNLINK t k) db
        = (db1, Ok (exists_ (look t k db))) /\
      forall t' k', t <= t' -> look t' k' db1 = if negb dry && bool_decide (k = k') then None else look t' k' db) as (db1 & -> & L1).
    { destruct dry; cbn [negb andb].
      - exists db. rewrite bool_decide_true by done. by rewrite EXISTS_law.
      - rewrite bool_decide_false by done. apply UNLINK_run. }
    destruct (IH db1 (n + exists_ (look t k db)) Hnd) as (db' & -> & L'). exists db'. split.
    + do 2 f_equal. rewrite filter_cons.
      assert (filter (fun x => is_Some (look t x db1)) keys = filter (fun x => is_Some (look t x db)) keys) as ->.
      { clear - L1 Hni. induction keys as [|x keys IH]; [done|]. apply not_elem_of_cons in Hni as [Hx Hni].
        rewrite !filter_cons, (IH Hni). rewrite L1 by lia. by rewrite (bool_decide_false (k = x)), andb_false_r by done. }
      unfold exists_. destruct (look t k db); [rewrite decide_True by done|rewrite decide_False by (by intros [? ?])]; cbn [length]; lia.
    + intros t' k' Ht. rewrite L', L1 by done. destruct dry; cbn [negb andb]; [done|].
      destruct (decide (k' ∈ keys)); [by rewrite !bool_decide_true by set_solver|].
      rewrite (bool_decide_false (k' ∈ keys)) by done. destruct (decide (k = k')) as [->|]; [by rewrite !bool_decide_true by set_solver|].
      by rewrite !bool_decide_false by set_solver.
Qed.

End calls.
