(* ===== verification/RedisRecordsOps.v ===== *)
(** * Every call of the record store keeps the two stores in agreement *)
From S2P Require Import Prelude GoStrings Algo StoreApi Memory MemoryScan Compile MatchKeys Lua Records RecordsClaims RedisRecords RedisRecordsFacts.

Section ops.
Context {DB : Type} {RS : RecordServer DB} {RL : RecordServerLaws DB} {RJ : RecordJSON} {JL : RecordJSONLaws}.
Context (kind : string -> key_kind).

Abbreviation same_view := (same_view kind).
Abbreviation rel_key := (rel_key kind).
Abbreviation agrees := (agrees kind).

(** ** Frames *)

Lemma sv_refl t k m : same_view t k m m.
Proof. unfold RedisRecordsFacts.same_view. by destruct (kind k). Qed.

Lemma sv_trans t k m1 m2 m3 : same_view t k m1 m2 -> same_view t k m2 m3 -> same_view t k m1 m3.
Proof. unfold RedisRecordsFacts.same_view. destruct (kind k); congruence. Qed.

Lemma sv_record t t' key k m : t <= t' -> same_view t' k m (record t key m).1.
Proof.
  intros Ht. destruct (record_views t t' key k m Ht) as (H1 & H2 & H3 & H4).
  unfold RedisRecordsFacts.same_view, lease_of, document_of. rewrite H2, H3, H4. by destruct (kind k).
Qed.

Lemma sv_set_record t k key e m : k <> key -> same_view t k m (set_record key e m).
Proof.
  intros Hne. unfold RedisRecordsFacts.same_view. rewrite !live_record_alt. cbn [set_record mm_records mm_counters].
  rewrite lookup_insert_ne by done. by destruct (kind k).
Qed.

Lemma sv_set_lease t k key l m : k <> key -> same_view t k m (set_lease key l m).
Proof.
  intros Hne. unfold RedisRecordsFacts.same_view, lease_of. rewrite !live_record_alt. cbn [set_lease mm_leases mm_records mm_counters].
  rewrite lookup_insert_ne by done. by destruct (kind k).
Qed.

Lemma sv_drop_lease t k key m : k <> key -> same_view t k m (drop_lease key m).
Proof.
  intros Hne. unfold RedisRecordsFacts.same_view, lease_of. rewrite !live_record_alt. cbn [drop_lease mm_leases mm_records mm_counters].
  rewrite lookup_delete_ne by done. by destruct (kind k).
Qed.

Lemma sv_drop_document t k key m : k <> key -> same_view t k m (drop_document key m).
Proof.
  intros Hne. unfold RedisRecordsFacts.same_view, document_of. rewrite !live_record_alt. cbn [drop_document mm_documents mm_records mm_counters].
  rewrite lookup_delete_ne by done. by destruct (kind k).
Qed.

Lemma sv_put t t0 k key v ttl m : k <> key -> same_view t k m (Put t0 key v ttl m).
Proof.
  intros Hne. unfold RedisRecordsFacts.same_view, document_of. rewrite !live_record_alt. cbn [Put mm_documents mm_records mm_counters].
  rewrite lookup_insert_ne by done. by destruct (kind k).
Qed.

Lemma sv_counters t k c m :
  (kind k = KCounter -> counted t c k = counted t (mm_counters m) k) -> same_view t k m (with_counters c m).
Proof. intros Hc. unfold RedisRecordsFacts.same_view. rewrite !live_record_alt. destruct (kind k); try done. by apply Hc. Qed.

(** The instants to come. *)
Definition upcoming (t : Z) (ts : list Z) : Prop := forall t', t' ∈ ts -> t <= t' /\ whole t'.

Lemma agrees_record t key ts m (db : DB) : upcoming t ts -> agrees ts m db -> agrees ts (record t key m).1 db.
Proof.
  intros Hu Ha t' k Ht. eapply rel_key_frame; [|reflexivity|by apply Ha]. apply sv_record. by apply Hu.
Qed.

(** ** Binding a command *)

Definition claimed (t : Z) (a : Acceptance) (m : MemoryRecords) : MemoryRecords :=
  set_lease (k_Lease (ac_Keys a)) (mkLease (ac_Fencing a) (t + ac_LeaseTTL a))
    (set_record (k_Record (ac_Keys a)) (mkREntry (ac_Command a) (ac_Fencing a) false no_progress no_outcome "" (t + Retention)) m).

Lemma claim_agrees t a ts m (db : DB) token :
  whole t -> upcoming t ts -> whole (ac_LeaseTTL a) -> Millisecond <= ac_LeaseTTL a <= Retention ->
  (t + Retention) ∉ ts -> (t + ac_LeaseTTL a) ∉ ts ->
  kind (k_Record (ac_Keys a)) = KBulk -> kind (k_Lease (ac_Keys a)) = KLease ->
  look (ms t) (k_Record (ac_Keys a)) db = None -> agrees ts m db ->
  exists db', claim (ms t) (k_Record (ac_Keys a)) (k_Lease (ac_Keys a)) (ac_Command a) (ac_Fencing a) (Milliseconds Retention)
      (Milliseconds (ac_LeaseTTL a)) token db =
      (db', Ok (SArray (SString "accepted" :: match token with Some token => [SString token] | None => [] end))) /\
    agrees ts (claimed t a m) db'.
Proof.
  intros Ht Hu Hw Hl Hr1 Hr2 Kr Kl Hnone Ha. destruct Retention_ms as (Rm & Rm' & Rw).
  assert (Milliseconds (ac_LeaseTTL a) = ms (ac_LeaseTTL a)) as El
    by (apply Milliseconds_ms; unfold Millisecond, Retention, Second, max_i64 in *; lia).
  assert (1 <= ms (ac_LeaseTTL a)) as Hpos by (unfold whole, Millisecond in *; lia).
  unfold claim. rewrite El, Rm. unfold mbind, script_bind, mret, script_ret.
  destruct (write_record (ms t) (k_Record (ac_Keys a)) [("command", ac_Command a); ("fencing", ac_Fencing a)] ∅ 0 86400000 db)
    as (db1 & db2 & -> & -> & L2); [done|by right|].
  destruct (SET_run (ms t) (k_Lease (ac_Keys a)) (ac_Fencing a) (ms (ac_LeaseTTL a)) db2 Hpos) as (db3 & -> & L3).
  exists db3. split; [done|]. intros t' k Hin. destruct (Hu t' Hin) as [Hle Hw']. pose proof (ms_mono t t' Hle) as Hms.
  assert (k_Lease (ac_Keys a) <> k_Record (ac_Keys a)) as Hne by (intros E; rewrite E in Kl; congruence).
  destruct (decide (k = k_Lease (ac_Keys a))) as [->|Hkl]; [|destruct (decide (k = k_Record (ac_Keys a))) as [->|Hkr]].
  - unfold RedisRecordsFacts.rel_key. rewrite Kl, L3, bool_decide_true by done. unfold lease_view, lease_of, claimed.
    cbn [set_lease mm_leases]. rewrite lookup_insert_eq. cbn [l_expiresAt]. split.
    + pose proof (rel_text_fresh t' (ac_Fencing a) (t + ac_LeaseTTL a) (ms t + ms (ac_LeaseTTL a)) Hw') as Hf.
      unfold whole, Millisecond in *. destruct (t' <? t + ac_LeaseTTL a); apply Hf; lia || (intros ->; done).
    + intros l. destruct (t' <? _); [|done]. intros [= <-]. cbn. lia.
  - unfold RedisRecordsFacts.rel_key. rewrite Kr, L3, bool_decide_false, L2, bool_decide_true by done.
    rewrite live_record_alt. unfold claimed. cbn [set_lease set_record mm_records]. rewrite lookup_insert_eq. cbn [re_expiresAt].
    apply (rel_record_fresh bulk_rep t' (mkREntry (ac_Command a) (ac_Fencing a) false no_progress no_outcome "" (t + Retention))); cbn [re_expiresAt].
    + done.
    + unfold whole, Millisecond in *. lia.
    + by intros ->.
    + unfold bulk_rep. cbn [re_command re_fencing re_terminal re_progress re_outcome re_answer]. split_and!; try reflexivity. by vm_compute.
  - eapply rel_key_frame; [| |by apply Ha].
    + eapply sv_trans; [by apply sv_set_record|by apply sv_set_lease].
    + rewrite L3, bool_decide_false, L2, bool_decide_false by done. done.
Qed.

Lemma record_idem t k m : (record t k (record t k m).1).1 = (record t k m).1.
Proof.
  unfold record. destruct (mm_records m !! k) as [e|] eqn:E; [|cbn [fst]; by rewrite E].
  destruct (negb (t <? re_expiresAt e)) eqn:En; cbn [fst mm_records]; [by rewrite lookup_delete_eq|by rewrite E, En].
Qed.

Lemma Accept_alt t a m :
  let keys := ac_Keys a in
  let m1 := (record t (k_Record keys) m).1 in
  Accept t a m =
    match live_record t (k_Record keys) m with
    | Some _ => (m1, mkAccepted false (read t keys m).2 false false 0 "")
    | None =>
        match lease_of t (k_Lease keys) m with
        | Some l => (m1, mkAccepted false no_record false true (l_expiresAt l - t) "")
        | None =>
            if bool_decide (k_Token keys = "") then (claimed t a m1, mkAccepted true no_record false false 0 "")
            else match document_of t (k_Token keys) m with
                 | None => (m1, mkAccepted false no_record true false 0 "")
                 | Some d => (claimed t a (drop_document (k_Token keys) m1), mkAccepted true no_record false false 0 (d_value d))
                 end
        end
    end.
Proof.
  cbn zeta. unfold Accept.
  destruct (record_views t t (k_Record (ac_Keys a)) (k_Record (ac_Keys a)) m ltac:(lia)) as (H1 & H2 & H3 & _).
  assert (forall k, lease_of t k m = lease_of t k (record t (k_Record (ac_Keys a)) m).1) as Hl by (intros; unfold lease_of; by rewrite H2).
  assert (forall k, document_of t k m = document_of t k (record t (k_Record (ac_Keys a)) m).1) as Hd
    by (intros; unfold document_of; by rewrite H3).
  assert ((read t (ac_Keys a) (record t (k_Record (ac_Keys a)) m).1) = ((record t (k_Record (ac_Keys a)) m).1, (read t (ac_Keys a) m).2)) as Hr.
  { rewrite !read_alt, H1, <- Hl. cbn [snd]. f_equal. apply record_idem. }
  rewrite Hl, Hd. unfold live_record. destruct (record t (k_Record (ac_Keys a)) m) as [m1 [e|]]; cbn [fst snd] in *.
  - by rewrite Hr.
  - destruct (lease_of _ _ m1); [done|]. case_bool_decide; cbn [negb]; [done|]. by destruct (document_of _ _ m1).
Qed.

(** ** The calls *)

Abbreviation is_record := (is_record kind).

Lemma agrees_tail t ts m (db : DB) : agrees (t :: ts) m db -> agrees ts m db.
Proof. intros Ha t' k Hin. apply Ha. by right. Qed.

Lemma agrees_now t ts m (db : DB) k : agrees (t :: ts) m db -> rel_key t k m db.
Proof. intros Ha. apply Ha. left. Qed.

Definition accept_proper (t : Z) (ts : list Z) (a : Acceptance) : Prop :=
  kind (k_Record (ac_Keys a)) = KBulk /\ kind (k_Lease (ac_Keys a)) = KLease /\
  (k_Token (ac_Keys a) <> "" -> kind (k_Token (ac_Keys a)) = KToken) /\
  whole (ac_LeaseTTL a) /\ Millisecond <= ac_LeaseTTL a <= Retention /\
  (t + Retention) ∉ ts /\ (t + ac_LeaseTTL a) ∉ ts.

Lemma accept_step t ts a m (db : DB) :
  whole t -> upcoming t ts -> accept_proper t ts a -> agrees (t :: ts) m db ->
  exists db', redis_Accept (ms t) a db = (db', Ok (Accept t a m).2) /\ agrees ts (Accept t a m).1 db'.
Proof.
  intros Ht Hu (Kr & Kl & Kt & Hw & Httl & He1 & He2) Ha. pose proof (agrees_tail _ _ _ _ Ha) as Ha'.
  rewrite Accept_alt. cbn zeta. unfold redis_Accept, run_script, acceptScript, mbind, script_bind.
  pose proof (record_look kind t _ m db (or_introl Kr) (agrees_now _ _ _ _ _ Ha)) as Hrec.
  pose proof (lease_look kind t _ m db Kl (agrees_now _ _ _ _ _ Ha)) as Hlea.
  pose proof (agrees_record t (k_Record (ac_Keys a)) ts m db Hu Ha') as Ha1.
  rewrite HGET_law. destruct (live_record t (k_Record (ac_Keys a)) m) as [e|] eqn:Er.
  { destruct Hrec as (h & w & -> & _ & -> & _). exists db. split; [|done].
    change (accept_reply (ms t) (ac_Keys a) (SArray [SString "existing"]) db = (db, Ok (mkAccepted false (read t (ac_Keys a) m).2 false false 0 ""))).
    change (match redis_Lookup (ms t) (ac_Keys a) db with
            | (db, Ok existing) => (db, Ok (mkAccepted false existing false false 0 ""))
            | (db, Err e) => (db, Err e) end = (db, Ok (mkAccepted false (read t (ac_Keys a) m).2 false false 0 ""))).
    by rewrite (redis_Lookup_agrees kind t (ac_Keys a) m db Ht (or_introl Kr) Kl (agrees_now _ _ _ _ _ Ha) (agrees_now _ _ _ _ _ Ha)). }
  rewrite Hrec, GET_law. destruct (lease_of t (k_Lease (ac_Keys a)) m) as [l|].
  { destruct Hlea as (w & El & Hw' & Hx). rewrite El, PTTL_law, El. exists db. split; [|done]. cbn [rv_expires].
    by destruct (lease_left t w _ Ht Hw' Hx) as (_ & _ & <-). }
  rewrite Hlea. case_bool_decide as Htok.
  { destruct (claim_agrees t a ts (record t (k_Record (ac_Keys a)) m).1 db None) as (db' & E & Hc); try done.
    unfold mbind, script_bind. rewrite E. by exists db'. }
  rewrite GET_law. pose proof (token_look kind t _ m db (Kt Htok) (agrees_now _ _ _ _ _ Ha)) as Hdoc.
  destruct (document_of t (k_Token (ac_Keys a)) m) as [d|]; [|rewrite Hdoc; by exists db].
  destruct Hdoc as (w & ->). destruct (DEL_run (ms t) (k_Token (ac_Keys a)) db) as (db1 & -> & L1).
  assert (k_Token (ac_Keys a) <> k_Record (ac_Keys a)) as Hne by (intros E; specialize (Kt Htok); rewrite E in Kt; congruence).
  destruct (claim_agrees t a ts (drop_document (k_Token (ac_Keys a)) (record t (k_Record (ac_Keys a)) m).1) db1 (Some (d_value d)))
    as (db' & E & Hc); try done.
  - by rewrite L1, bool_decide_false by (done || lia).
  - intros t' k Hin. destruct (Hu t' Hin) as [Hle _]. pose proof (ms_mono t t' Hle).
    destruct (decide (k = k_Token (ac_Keys a))) as [->|Hk].
    + unfold RedisRecordsFacts.rel_key. rewrite (Kt Htok), L1, bool_decide_true by done.
      unfold document_view, document_of. cbn [drop_document mm_documents]. by rewrite lookup_delete_eq.
    + eapply rel_key_frame; [by apply sv_drop_document| |by apply Ha1]. by rewrite L1, bool_decide_false by done.
  - rewrite E. by exists db'.
Qed.

(** A walker that owns the domain has its record, unfinished. *)
Lemma owned_record dom_lease minted_for t rk f m :
  lease_backed dom_lease minted_for t m -> minted_for f = rk -> owns t (dom_lease rk) f m = true ->
  exists e, live_record t rk m = Some e /\ record t rk m = (m, Some e) /\ re_terminal e = false.
Proof.
  intros Hb Hm Ho. apply owns_lease in Ho as (l & Hl & Hf & Hx). destruct (Hb _ _ Hl) as [_ He].
  destruct (He Hx) as (e & Hr & _ & Ht & Hle). rewrite Hf, Hm in Hr. exists e.
  unfold live_record, record. rewrite Hr. by rewrite (proj2 (Z.ltb_lt t (re_expiresAt e))) by lia.
Qed.

Lemma owns_look t k f m (db : DB) : kind k = KLease -> rel_key t k m db ->
  exists v, GET (ms t) k db = (db, Ok v) /\ bool_decide (v = Some f) = owns t k f m.
Proof.
  intros Hk Hr. pose proof (lease_look kind t k m db Hk Hr) as Hl. rewrite GET_law. unfold owns.
  destruct (lease_of t k m) as [l|]; [|rewrite Hl; by exists None].
  destruct Hl as (w & -> & _). eexists. split; [done|]. apply bool_decide_ext. split; [by intros [= ->]|by intros ->].
Qed.

Definition walk_proper (keys : Keys) : Prop := kind (k_Record keys) = KBulk /\ kind (k_Lease keys) = KLease.

Lemma counted_reset t dels c k : counted t (Memory.Reset dels c) k = counted t c k && negb (bool_decide (k ∈ dels)).
Proof. unfold counted. rewrite Reset_lookup. case_bool_decide; [by rewrite andb_false_r|by rewrite andb_true_r]. Qed.

Section owned.
Context (dom_lease minted_for : string -> string).

Lemma batch_step t ts b m (db : DB) :
  whole t -> upcoming t ts -> walk_proper (ba_Keys b) -> Forall (fun k => kind k = KCounter) (ba_Delete b) ->
  follows dom_lease minted_for (OBatch b) -> lease_backed dom_lease minted_for t m -> agrees (t :: ts) m db ->
  exists db', (let '(db', r) := redis_Batch (ms t) b db in (db', answered_held r)) = (db', memory_answer t (OBatch b) m) /\
    agrees ts (Batch t b m).1 db'.
Proof.
  intros Ht Hu (Kr & Kl) Hdel (Hlk & Hmi) Hb Ha. pose proof (agrees_tail _ _ _ _ Ha) as Ha'. cbn [memory_answer].
  unfold redis_Batch. destruct (progress_round (ba_Progress b)) as (s & -> & Hs & Hus). unfold run_script, batchScript, mbind, script_bind.
  destruct (owns_look t (k_Lease (ba_Keys b)) (ba_Fencing b) m db Kl (agrees_now _ _ _ _ _ Ha)) as (v & -> & ->). unfold Batch.
  destruct (owns t (k_Lease (ba_Keys b)) (ba_Fencing b) m) eqn:Eo; cbn [negb]; [|by exists db].
  rewrite Hlk in Eo. destruct (owned_record _ _ _ _ _ _ Hb Hmi Eo) as (e & He & -> & Hte).
  set (rk := k_Record (ba_Keys b)) in *.
  destruct (unlink_all_run kind (ms t) (ba_Delete b) db) as (db1 & -> & L1).
  assert (rk ∉ ba_Delete b) as Hni by (intros Hin; rewrite Forall_forall in Hdel; specialize (Hdel rk Hin); congruence).
  pose proof (record_look kind t rk m db (or_introl Kr) (agrees_now _ _ _ _ _ Ha)) as Hrec. rewrite He in Hrec.
  destruct Hrec as (h & w & El & _ & _ & Hw & Hrep & _).
  destruct (HSET_run (ms t) rk [("progress", s)] h (Some w) db1) as (db2 & -> & L2).
  { left. by rewrite L1, bool_decide_false by (done || lia). }
  exists db2. split; [done|]. intros t' k Hin. destruct (Hu t' Hin) as [Hle Hw']. pose proof (ms_mono t t' Hle).
  destruct (decide (k = rk)) as [->|Hk].
  - unfold RedisRecordsFacts.rel_key. rewrite Kr, L2, bool_decide_true by done. rewrite live_record_alt.
    cbn [fst set_record mm_records]. rewrite lookup_insert_eq.
    eapply (rel_record_kept bulk_rep t t' rk m db e h w); [done|done|done| |done|done|].
    + specialize (Ha' t' rk Hin). unfold RedisRecordsFacts.rel_key in Ha'. by rewrite Kr in Ha'.
    + destruct (Hrep Kr) as (H1 & H2 & H3 & H4 & H5 & H6 & H7 & H8). rewrite Hte in *.
      unfold bulk_rep, hash_set. cbn [foldl fst snd re_command re_fencing re_answer re_terminal re_outcome re_progress].
      rewrite lookup_insert_eq, !lookup_insert_ne by done. split_and!; try done; [by destruct H7..|by exists (ba_Progress b)].
  - eapply rel_key_frame; [|rewrite L2, bool_decide_false by done; reflexivity|].
    { eapply sv_set_record. done. }
    destruct (decide (k ∈ ba_Delete b)) as [Hd|Hd].
    + rewrite Forall_forall in Hdel. unfold RedisRecordsFacts.rel_key. rewrite (Hdel k Hd), L1, (bool_decide_true _ Hd) by done.
      rewrite bool_decide_false by (by intros [? ?]). destruct (Nat.ltb_spec 0 (length (ba_Delete b))) as [_|Hz].
      * cbn [with_counters mm_counters]. by rewrite counted_reset, bool_decide_true, andb_false_r by done.
      * destruct (ba_Delete b); [by apply not_elem_of_nil in Hd|simpl in Hz; lia].
    + eapply rel_key_frame; [|by rewrite L1, bool_decide_false by done|by apply Ha'].
      destruct (_ <? _)%nat; [|apply sv_refl]. apply sv_counters. intros _. by rewrite counted_reset, bool_decide_false, andb_true_r by done.
Qed.

(** A record ended with an outcome, on both sides. *)
Definition ended (t : Z) (outcome : COutcome) (e : rentry) : rentry :=
  mkREntry (re_command e) (re_fencing e) true (co_Progress outcome) outcome (re_answer e) (t + Retention).

Lemma ended_agrees t ts rk e h w outcome s m (db : DB) :
  whole t -> upcoming t ts -> kind rk = KBulk -> (t + Retention) ∉ ts -> look (ms t) rk db = Some (mkRvalue (DHash h) (Some w)) ->
  bulk_rep e h -> s <> "" -> unmarshal_Outcome s = Some outcome -> t < re_expiresAt e -> w * Millisecond = re_expiresAt e ->
  agrees ts m db ->
  exists db1 db2, HSET (ms t) rk [("outcome", s); ("terminal", "1")] db = (db1, Ok tt) /\
    PEXPIRE (ms t) rk (Milliseconds Retention) db1 = (db2, Ok tt) /\
    agrees ts (set_record rk (ended t outcome e) m) db2 /\
    forall t' k, ms t <= t' -> k <> rk -> look t' k db2 = look t' k db.
Proof.
  intros Ht Hu Kr He El Hrep Hs Hus Hx Hw Ha. destruct Retention_ms as (-> & Rm & Rw).
  destruct (write_record (ms t) rk [("outcome", s); ("terminal", "1")] h w 86400000 db) as (db1 & db2 & E1 & E2 & L2); [done| |].
  { left. split; [done|]. unfold whole, Millisecond in *. lia. }
  exists db1, db2. split_and!; [done|done| |intros t' k Hle Hne; by rewrite L2, bool_decide_false by done].
  intros t' k Hin. destruct (Hu t' Hin) as [Hle Hw']. pose proof (ms_mono t t' Hle).
  destruct (decide (k = rk)) as [->|Hk].
  - unfold RedisRecordsFacts.rel_key. rewrite Kr, L2, bool_decide_true by done. rewrite live_record_alt. cbn [set_record mm_records].
    rewrite lookup_insert_eq. apply (rel_record_fresh bulk_rep t' (ended t outcome e)); cbn [ended re_expiresAt]; [done| |by intros ->|].
    + unfold whole, Millisecond in *. lia.
    + destruct Hrep as (H1 & H2 & H3 & H4 & H5 & H6 & H7 & H8).
      unfold bulk_rep, hash_set. cbn [foldl fst snd ended re_command re_fencing re_answer re_terminal re_outcome re_progress].
      rewrite lookup_insert_eq, !(lookup_insert_ne _ "terminal"), lookup_insert_eq, !lookup_insert_ne by done.
      split_and!; try done; [by exists s|]. destruct (h !! "progress") as [p|]; [|done].
      destruct H8 as (Hp & x & Hx' & _). split; [done|]. by exists x.
  - eapply rel_key_frame; [by apply sv_set_record|by rewrite L2, bool_decide_false by done|by apply Ha].
Qed.

Lemma commit_step t ts c m (db : DB) :
  whole t -> upcoming t ts -> walk_proper (cm_Keys c) -> (t + Retention) ∉ ts ->
  follows dom_lease minted_for (OCommit c) -> lease_backed dom_lease minted_for t m -> agrees (t :: ts) m db ->
  exists db', (let '(db', r) := redis_Commit (ms t) c db in (db', answered_held r)) = (db', memory_answer t (OCommit c) m) /\
    agrees ts (Commit t c m).1 db'.
Proof.
  intros Ht Hu (Kr & Kl) Hedge (Hlk & Hmi) Hb Ha. pose proof (agrees_tail _ _ _ _ Ha) as Ha'. cbn [memory_answer].
  unfold redis_Commit. destruct (outcome_round (cm_Outcome c)) as (s & -> & Hs & Hus). unfold run_script, commitScript, mbind, script_bind.
  destruct (owns_look t (k_Lease (cm_Keys c)) (cm_Fencing c) m db Kl (agrees_now _ _ _ _ _ Ha)) as (v & -> & ->). unfold Commit.
  destruct (owns t (k_Lease (cm_Keys c)) (cm_Fencing c) m) eqn:Eo; cbn [negb]; [|by exists db].
  rewrite Hlk in Eo. destruct (owned_record _ _ _ _ _ _ Hb Hmi Eo) as (e & He & -> & Hte).
  pose proof (record_look kind t _ m db (or_introl Kr) (agrees_now _ _ _ _ _ Ha)) as Hrec. rewrite He in Hrec.
  destruct Hrec as (h & w & El & _ & _ & Hw & Hrep & _).
  assert (t < re_expiresAt e) as Hx.
  { rewrite live_record_alt in He. destruct (mm_records m !! _) as [e0|]; [|done].
    destruct (Z.ltb_spec t (re_expiresAt e0)); [|done]. by injection He as <-. }
  destruct (ended_agrees t ts (k_Record (cm_Keys c)) e h w (cm_Outcome c) s m db) as (db1 & db2 & -> & -> & Ha2 & _); try done; [by apply Hrep|].
  destruct (DEL_run (ms t) (k_Lease (cm_Keys c)) db2) as (db3 & -> & L3). exists db3. split; [done|]. cbn [fst].
  intros t' k Hin. destruct (Hu t' Hin) as [Hle _]. pose proof (ms_mono t t' Hle).
  destruct (decide (k = k_Lease (cm_Keys c))) as [->|Hk].
  - unfold RedisRecordsFacts.rel_key. rewrite Kl, L3, bool_decide_true by done. unfold lease_view, lease_of.
    cbn [drop_lease mm_leases]. by rewrite lookup_delete_eq.
  - eapply rel_key_frame; [by apply sv_drop_lease|by rewrite L3, bool_decide_false by done|by apply Ha2].
Qed.

End owned.

Lemma live_record_bounds t k m e : live_record t k m = Some e -> t < re_expiresAt e.
Proof.
  rewrite live_record_alt. destruct (mm_records m !! k) as [e0|]; [|done]. destruct (Z.ltb_spec t (re_expiresAt e0)); [|done].
  by intros [= <-].
Qed.

Lemma live_record_record t k m : record t k m = ((record t k m).1, live_record t k m).
Proof. unfold live_record. by destruct (record t k m). Qed.

Lemma finalize_step t ts f m (db : DB) :
  whole t -> upcoming t ts -> walk_proper (fi_Keys f) -> (t + Retention) ∉ ts -> agrees (t :: ts) m db ->
  exists db', redis_Finalize (ms t) f db = (db', Ok (Finalize t f m).2) /\ agrees ts (Finalize t f m).1 db'.
Proof.
  intros Ht Hu (Kr & Kl) Hedge Ha. pose proof (agrees_tail _ _ _ _ Ha) as Ha'. unfold redis_Finalize, Finalize.
  rewrite (redis_Lookup_agrees kind t (fi_Keys f) m db Ht (or_introl Kr) Kl (agrees_now _ _ _ _ _ Ha) (agrees_now _ _ _ _ _ Ha)).
  pose proof (record_look kind t _ m db (or_introl Kr) (agrees_now _ _ _ _ _ Ha)) as Hrec.
  pose proof (lease_look kind t _ m db Kl (agrees_now _ _ _ _ _ Ha)) as Hlea.
  pose proof (agrees_record t (k_Record (fi_Keys f)) ts m db Hu Ha') as Ha1.
  rewrite read_alt. cbn [snd]. rewrite live_record_record. destruct (live_record t (k_Record (fi_Keys f)) m) as [e|] eqn:Er; [|by exists db].
  destruct (record_cases t (k_Record (fi_Keys f)) m) as [(e0 & _ & Hx & E0)|(_ & rs & E0 & _)].
  2: { unfold live_record in Er. by rewrite E0 in Er. }
  assert (e0 = e) as -> by (unfold live_record in Er; rewrite E0 in Er; by injection Er). rewrite E0. cbn [fst].
  destruct (re_terminal e) eqn:Et.
  { exists db. rewrite read_alt, Er, E0. cbn [fst snd]. by destruct (lease_of t (k_Lease (fi_Keys f)) m) as [l|]; rewrite Et. }
  set (current := (let '(_, _) := _ in _)). assert (r_Found current = true /\ r_Terminal current = false /\ r_Progress current = re_progress e)
    as (Hc1 & Hc2 & Hc3) by (unfold current; by destruct (lease_of _ _ _)).
  rewrite Hc1, Hc2. cbn [negb orb]. unfold finalize_found. rewrite Hc3.
  destruct (outcome_round (with_progress (re_progress e) (fi_Outcome f))) as (s & -> & Hs & Hus).
  unfold run_script, finalizeScript, mbind, script_bind. destruct Hrec as (h & w & El & _ & _ & Hw & Hrep & _). specialize (Hrep Kr).
  rewrite EXISTS_law, El. cbn [exists_ Z.eqb]. rewrite HGET_law, El.
  assert (h !! "terminal" = None) as -> by (destruct Hrep as (_ & _ & _ & _ & _ & Hterm & _); by rewrite Et in Hterm).
  rewrite GET_law. destruct (lease_of t (k_Lease (fi_Keys f)) m) as [l|] eqn:El2.
  { destruct Hlea as (wl & -> & _). cbn [mret script_ret]. unfold mret, script_ret.
    rewrite (redis_Lookup_agrees kind t (fi_Keys f) m db Ht (or_introl Kr) Kl (agrees_now _ _ _ _ _ Ha) (agrees_now _ _ _ _ _ Ha)).
    exists db. split; [done|]. by rewrite read_alt, E0. }
  rewrite Hlea.
  destruct (ended_agrees t (t :: ts) (k_Record (fi_Keys f)) e h w (with_progress (re_progress e) (fi_Outcome f)) s m db)
    as (db1 & db2 & -> & -> & Ha2 & _); try done.
  { intros t' [-> |Hin]%elem_of_cons; [done|by apply Hu]. }
  { apply not_elem_of_cons. split; [unfold Retention, Second; lia|done]. }
  unfold mret, script_ret.
  rewrite (redis_Lookup_agrees kind t (fi_Keys f) _ db2 Ht (or_introl Kr) Kl (agrees_now _ _ _ _ _ Ha2) (agrees_now _ _ _ _ _ Ha2)).
  exists db2. split; [done|]. rewrite read_alt. cbn [fst]. apply agrees_record; [done|]. by eapply agrees_tail.
Qed.

Lemma put_step t ts k v ttl m (db : DB) :
  whole t -> upcoming t ts -> kind k = KToken -> whole ttl -> Millisecond <= ttl -> (t + ttl) ∉ ts -> agrees ts m db ->
  exists db', redis_Put (ms t) k v ttl db = (db', Ok tt) /\ agrees ts (Put t k v ttl m) db'.
Proof.
  intros Ht Hu Kk Hw Hpos Hedge Ha. unfold redis_Put, run_script. rewrite (proj2 (Z.ltb_lt 0 ttl)) by (unfold Millisecond in *; lia).
  change (ttl / Millisecond) with (ms ttl).
  assert (1 <= ms ttl) as Hp by (unfold whole, Millisecond in *; lia). rewrite Z.max_r by done.
  destruct (SET_run (ms t) k v (ms ttl) db Hp) as (db' & -> & L). exists db'. split; [done|].
  intros t' k' Hin. destruct (Hu t' Hin) as [Hle Hw']. pose proof (ms_mono t t' Hle).
  destruct (decide (k' = k)) as [->|Hk].
  - unfold RedisRecordsFacts.rel_key. rewrite Kk, L, bool_decide_true by done. unfold document_view, document_of. cbn [Put mm_documents].
    rewrite lookup_insert_eq. cbn [d_expiresAt].
    pose proof (rel_text_fresh t' v (t + ttl) (ms t + ms ttl) Hw') as Hf.
    unfold whole, Millisecond in *. destruct (t' <? t + ttl); apply Hf; lia || (intros ->; done).
  - eapply rel_key_frame; [by apply sv_put|by rewrite L, bool_decide_false by done|by apply Ha].
Qed.

Lemma get_step t k m (db : DB) : kind k = KToken -> rel_key t k m db -> redis_Get (ms t) k db = (db, Ok (Get t k m)).
Proof.
  intros Kk Hr. unfold redis_Get, run_script, Get. rewrite GET_law. pose proof (token_look kind t k m db Kk Hr) as Hd.
  destruct (document_of t k m) as [d|]; [|by rewrite Hd]. by destruct Hd as (w & ->).
Qed.

Definition reset_proper (a : Addressed) : Prop :=
  kind (a_Record a) = KAddressed /\ Forall (fun k => kind k = KCounter) (a_Delete a) /\ NoDup (a_Delete a) /\ "" ∉ a_Delete a /\
  Z.of_nat (length (a_Delete a)) < 10 ^ 14.

(** The keys the script counts are those the store in memory counts. *)
Lemma counted_look t ts l m (db : DB) : Forall (fun k => kind k = KCounter) l -> agrees (t :: ts) m db ->
  length (filter (fun k => is_Some (look (ms t) k db)) l) = length (filter (fun k => counted t (mm_counters m) k = true) l).
Proof.
  intros Hdel Ha. f_equal. rewrite Forall_forall in Hdel. induction l as [|x l IH]; [done|].
  rewrite !filter_cons, IH by (intros; apply Hdel; by right).
  pose proof (agrees_now _ _ _ _ x Ha) as Hr. unfold RedisRecordsFacts.rel_key in Hr. rewrite (Hdel x) in Hr by left.
  rewrite Hr. destruct (decide (is_Some (look (ms t) x db))) as [Hs|Hs].
  - by rewrite (bool_decide_true _ Hs), decide_True.
  - by rewrite (bool_decide_false _ Hs), decide_False.
Qed.

(** A bound key is answered from its record. *)
Lemma reset_replay t ts a m (db : DB) e :
  upcoming t ts -> kind (a_Record a) = KAddressed -> agrees (t :: ts) m db -> live_record t (a_Record a) m = Some e ->
  exists db' o, redis_Reset (ms t) a db = (db', Ok o) /\ (Reset t a m).2 = Ok o /\ agrees ts (Reset t a m).1 db'.
Proof.
  intros Hu Kr Ha Er. unfold redis_Reset, run_script, resetScript, mbind, script_bind.
  pose proof (record_look kind t _ m db (or_intror Kr) (agrees_now _ _ _ _ _ Ha)) as Hrec. rewrite Er in Hrec.
  pose proof (agrees_record t (a_Record a) ts m db Hu (agrees_tail _ _ _ _ Ha)) as Ha1.
  destruct Hrec as (h & w & El & _ & Hcmd & _ & _ & Hrep). destruct (Hrep Kr) as (n & Hn & Hh & Hee).
  rewrite HGET_law, El, Hcmd, HGET_law, El, HGET_law, El. destruct (tostring_small n Hn) as [_ Hpi].
  assert (h !! "count" = Some (tostring n) /\ h !! "answer" = Some (re_answer e)) as [-> ->]
    by (rewrite Hh; unfold hash_set; cbn [foldl fst snd]; by simplify_map_eq).
  exists db, (mkAddressedOutcome true (re_command e) n (re_answer e)). unfold Reset. rewrite live_record_record, Er.
  split_and!; [|by rewrite Hee|done].
  change ((db, match ParseInt (tostring n) with None => Err (RCount (tostring n))
    | Some parsed => Ok (mkAddressedOutcome true (re_command e) parsed (re_answer e)) end) =
    (db, Ok (mkAddressedOutcome true (re_command e) n (re_answer e)) : result records_error AddressedOutcome)). by rewrite Hpi.
Qed.

Lemma reset_step t ts a m (db : DB) :
  whole t -> upcoming t ts -> reset_proper a -> (t + Retention) ∉ ts -> agrees (t :: ts) m db ->
  exists db' o, redis_Reset (ms t) a db = (db', Ok o) /\ (Reset t a m).2 = Ok o /\ agrees ts (Reset t a m).1 db'.
Proof.
  intros Ht Hu (Kr & Hdel & Hnd & Hne & Hlen) Hedge Ha. pose proof (agrees_tail _ _ _ _ Ha) as Ha'.
  unfold redis_Reset, run_script, resetScript, mbind, script_bind.
  pose proof (record_look kind t _ m db (or_intror Kr) (agrees_now _ _ _ _ _ Ha)) as Hrec.
  pose proof (agrees_record t (a_Record a) ts m db Hu Ha') as Ha1.
  rewrite HGET_law. destruct (live_record t (a_Record a) m) as [e|] eqn:Er.
  { pose proof (reset_replay t ts a m db e Hu Kr Ha Er) as Hre. unfold redis_Reset, run_script, resetScript, mbind, script_bind in Hre.
    by rewrite HGET_law in Hre. }
  rewrite Hrec. destruct (Reset_unbound_state t a m Er Hne) as (c & -> & Hc). set (n := length (filter (fun k => counted t (mm_counters m) k = true) (a_Delete a))) in *.
  destruct (count_keys_run kind (ms t) (a_DryRun a) (a_Delete a) db 0 Hnd) as (db1 & -> & L1).
  rewrite (counted_look t ts _ m db Hdel Ha). fold n.
  assert (0 <= 0 + Z.of_nat n < 10 ^ 14) as Hn.
  { pose proof (length_filter (fun k => counted t (mm_counters m) k = true) (a_Delete a)). lia. }
  destruct (tostring_small _ Hn) as [_ Hpi]. destruct Retention_ms as (-> & Rm & Rw).
  assert (a_Record a ∉ a_Delete a) as Hni by (intros Hin; rewrite Forall_forall in Hdel; specialize (Hdel _ Hin); congruence).
  destruct (write_record (ms t) (a_Record a) [("command", a_Command a); ("terminal", "1"); ("count", tostring (0 + Z.of_nat n)); ("answer", a_Answer a)]
    ∅ 0 86400000 db1) as (db2 & db3 & -> & -> & L3); [done| |].
  { right. split; [|done]. by rewrite L1, (bool_decide_false _ Hni), andb_false_r by lia. }
  exists db3, (mkAddressedOutcome false (a_Command a) (Z.of_nat n) (a_Answer a)). split_and!; [|done|].
  { change ((db3, match ParseInt (tostring (0 + Z.of_nat n)) with None => Err (RCount (tostring (0 + Z.of_nat n)))
      | Some parsed => Ok (mkAddressedOutcome false (a_Command a) parsed (a_Answer a)) end) =
      (db3, Ok (mkAddressedOutcome false (a_Command a) (Z.of_nat n) (a_Answer a)) : result records_error AddressedOutcome)). by rewrite Hpi. }
  cbn [fst]. intros t' k Hin. destruct (Hu t' Hin) as [Hle Hw']. pose proof (ms_mono t t' Hle).
  destruct (decide (k = a_Record a)) as [->|Hk].
  - unfold RedisRecordsFacts.rel_key. rewrite Kr, L3, bool_decide_true by done. rewrite live_record_alt. cbn [set_record mm_records].
    rewrite lookup_insert_eq. eapply (rel_record_fresh addressed_rep t'); cbn [re_expiresAt]; [done| |by intros ->|].
    + unfold whole, Millisecond in *. lia.
    + exists (Z.of_nat n). by split_and!; [lia|lia|..].
  - eapply rel_key_frame; [by apply sv_set_record|by rewrite L3, bool_decide_false by done|].
    destruct (kind k) eqn:Kk; try (eapply rel_key_frame; [apply sv_counters; by rewrite Kk| |by apply Ha1];
      rewrite L1, bool_decide_false, andb_false_r by (done || (intros Hd; rewrite Forall_forall in Hdel; specialize (Hdel _ Hd); congruence)); done).
    specialize (Ha1 t' k Hin). unfold RedisRecordsFacts.rel_key in *. rewrite Kk in *. cbn [with_counters mm_counters]. rewrite Hc by done.
    destruct (record_views t t' (a_Record a) k m Hle) as (_ & _ & _ & Hcm). rewrite Hcm in Ha1. rewrite L1, Ha1 by done.
    destruct (a_DryRun a); cbn [negb andb orb]; [by rewrite andb_true_r|].
    destruct (bool_decide (k ∈ a_Delete a)); cbn [negb]; [|by rewrite andb_true_r].
    by rewrite andb_false_r, bool_decide_false by (by intros [? ?]).
Qed.

End ops.
