(* ===== verification/RedisRecordsClaims.v ===== *)
(** * The records in the shared store: claims

    The two implementations of the record store are one: any run of calls gives
    the same answers on both. *)
From S2P Require Import Prelude GoStrings Algo StoreApi Memory MemoryScan Compile MatchKeys Lua Records RecordsClaims RedisRecords RedisRecordsFacts.
From S2P Require Import RedisRecordsOps.

(** ** Runs *)

Section runs.
Context {DB : Type} {RS : RecordServer DB} {RL : RecordServerLaws DB} {RJ : RecordJSON} {JL : RecordJSONLaws}.
Context (kind : string -> key_kind) (dom_lease minted_for : string -> string).

Definition counters_agree (ts : list Z) (c : gmap string entry) (db : DB) : Prop :=
  forall t k, t ∈ ts -> kind k = KCounter -> counted t c k = bool_decide (is_Some (look (ms t) k db)).

(** What a call has to be, with the instants [ts] still to come: its keys of
    their kinds, its times in whole milliseconds and no later call on the very
    instant something it writes expires, and for a change of the counters, that
    it is the same change on both sides and touches nothing else. *)
Definition proper (c : rcall DB) (ts : list Z) : Prop :=
  let t := rc_at c in
  match rc_op c with
  | OLookup keys => is_record kind (k_Record keys) /\ kind (k_Lease keys) = KLease
  | OAccept a => accept_proper kind t ts a
  | OBatch b => walk_proper kind (ba_Keys b) /\ Forall (fun k => kind k = KCounter) (ba_Delete b)
  | OCommit cm => walk_proper kind (cm_Keys cm) /\ (t + Retention) ∉ ts
  | OFinalize f => walk_proper kind (fi_Keys f) /\ (t + Retention) ∉ ts
  | OReset a => reset_proper kind a /\ (t + Retention) ∉ ts
  | OPut k _ ttl => kind k = KToken /\ whole ttl /\ Millisecond <= ttl /\ (t + ttl) ∉ ts
  | OGet k => kind k = KToken
  | OCounters f =>
      (forall cs db, counters_agree ts cs db -> counters_agree ts (f cs) (rc_counters c db)) /\
      forall t' k db, t' ∈ ts -> kind k <> KCounter -> look (ms t') k (rc_counters c db) = look (ms t') k db
  end.

Fixpoint proper_calls (calls : list (rcall DB)) : Prop :=
  match calls with
  | [] => True
  | c :: calls =>
      whole (rc_at c) /\ Forall (fun c' => rc_at c <= rc_at c') calls /\ proper c (rc_at <$> calls) /\
      follows dom_lease minted_for (rc_op c) /\ proper_calls calls
  end.

Lemma counters_step c f ts m (db : DB) : rc_op c = OCounters f -> proper c ts -> agrees kind ts m db ->
  agrees kind ts (with_counters (f (mm_counters m)) m) (rc_counters c db).
Proof.
  unfold proper. intros -> [Hf Hk] Ha t' k Hin. destruct (kind k) eqn:Kk;
    try (eapply rel_key_frame; [apply sv_counters; by rewrite Kk|by rewrite Hk by (done || congruence)|by apply Ha]).
  unfold rel_key. rewrite Kk. cbn [with_counters mm_counters]. apply Hf; [|done|done].
  intros t k' Hin' Kk'. specialize (Ha t k' Hin'). unfold rel_key in Ha. by rewrite Kk' in Ha.
Qed.

(** One call. *)
Lemma record_call_agrees c ts m (db : DB) :
  whole (rc_at c) -> upcoming (rc_at c) ts -> proper c ts -> follows dom_lease minted_for (rc_op c) ->
  lease_backed dom_lease minted_for (rc_at c) m -> agrees kind (rc_at c :: ts) m db ->
  exists db', redis_step c db = (db', memory_answer (rc_at c) (rc_op c) m) /\ memory_answer (rc_at c) (rc_op c) m <> AnFailed /\
    agrees kind ts (rstep (rc_at c) (rc_op c) m) db'.
Proof.
  intros Hw Hu Hp Hf Hb Ha. pose proof (agrees_tail kind _ _ _ _ Ha) as Ha'. unfold redis_step.
  destruct c as [t op g]. cbn [rc_at rc_op] in *. destruct op as [keys|a|b|cm|f|a|k v ttl|k|f]; unfold proper in Hp; cbn [rc_at rc_op rstep] in *.
  - destruct Hp as [Hr Hl]. rewrite (redis_Lookup_agrees kind t keys m db) by (done || by eapply agrees_now).
    exists db. split_and!; [done|done|]. unfold Lookup. rewrite read_alt. by apply agrees_record.
  - destruct (accept_step kind t ts a m db Hw Hu Hp Ha) as (db' & -> & Hs). by exists db'.
  - destruct Hp as [Hk Hd]. destruct (batch_step kind dom_lease minted_for t ts b m db) as (db' & -> & Hs); try done.
    exists db'. split_and!; [done| |done]. cbn [memory_answer]. unfold Batch. destruct (negb _); [done|].
    by destruct (record _ _ _) as [? [?|]].
  - destruct Hp as [Hk He]. destruct (commit_step kind dom_lease minted_for t ts cm m db) as (db' & -> & Hs); try done.
    exists db'. split_and!; [done| |done]. cbn [memory_answer]. unfold Commit. destruct (negb _); [done|].
    by destruct (record _ _ _) as [? [?|]].
  - destruct Hp as [Hk He]. destruct (finalize_step kind t ts f m db) as (db' & -> & Hs); try done. by exists db'.
  - destruct Hp as [Hk He]. destruct (reset_step kind t ts a m db) as (db' & o & -> & Eo & Hs); try done.
    exists db'. cbn [memory_answer]. by rewrite Eo.
  - destruct Hp as (Kk & Httl & Hpos & He). destruct (put_step kind t ts k v ttl m db) as (db' & -> & Hs); try done. by exists db'.
  - rewrite (get_step kind t k m db) by (done || by eapply agrees_now). by exists db.
  - eexists. split_and!; [done|done|]. by apply (counters_step (mkRcall t (OCounters f) g)).
Qed.

Lemma runs_agree calls : forall m (db : DB) t0,
  proper_calls calls -> Forall (fun c => t0 <= rc_at c) calls -> lease_backed dom_lease minted_for t0 m ->
  agrees kind (rc_at <$> calls) m db ->
  redis_answers calls db = memory_answers calls m /\ AnFailed ∉ redis_answers calls db.
Proof.
  induction calls as [|c calls IH]; intros m db t0 Hp Ht Hb Ha; [by split; [|apply not_elem_of_nil]|].
  destruct Hp as (Hw & Hle & Hpc & Hfo & Hp). apply Forall_cons in Ht as [Ht _].
  assert (upcoming (rc_at c) (rc_at <$> calls)) as Hu.
  { intros t' (c' & -> & Hin)%list_elem_of_fmap. rewrite Forall_forall in Hle. split; [by apply Hle|].
    clear - Hp Hin. induction calls as [|x l IH]; [by apply not_elem_of_nil in Hin|]. destruct Hp as (Hx & _ & _ & _ & Hl).
    apply elem_of_cons in Hin as [->|Hin]; [done|by apply IH]. }
  apply (lease_backed_later _ _ t0 (rc_at c)) in Hb; [|done].
  destruct (record_call_agrees c (rc_at <$> calls) m db) as (db' & Hr & Hnf & Ha'); try done.
  cbn [redis_answers memory_answers]. rewrite Hr. destruct (IH (rstep (rc_at c) (rc_op c) m) db' (rc_at c)) as [IHe IHn]; try done.
  { by apply rstep_backed. }
  rewrite IHe in *. split; [done|]. apply not_elem_of_cons. by split.
Qed.

End runs.

(** ** Claims *)

(** C7: The record store in Redis and the one in memory are one store. From a slot
    with no record, lease or token and the same counters, any run of calls the
    commands make, at whole milliseconds and never on the very millisecond
    something expires, gives the same answers on both: every lookup,
    acceptance, batch, commit, finalization, addressed reset and token read,
    the remaining time of a lease included, and no call fails. *)
Theorem redis_records_agree {DB : Type} {RS : RecordServer DB} {RL : RecordServerLaws DB} {RJ : RecordJSON} {JL : RecordJSONLaws}
    (kind : string -> key_kind) (dom_lease minted_for : string -> string) (calls : list (rcall DB)) (c : gmap string entry) (db : DB) :
  proper_calls kind dom_lease minted_for calls ->
  (forall t k, t ∈ rc_at <$> calls -> kind k <> KCounter -> look (ms t) k db = None) ->
  counters_agree kind (rc_at <$> calls) c db ->
  redis_answers calls db = memory_answers calls (NewMemory c) /\ AnFailed ∉ redis_answers calls db.
Proof.
  intros Hp Hnone Hc. eapply (runs_agree kind dom_lease minted_for calls (NewMemory c) db (match calls with [] => 0 | x :: _ => rc_at x end)); [done| | |].
  - destruct calls as [|x l]; [by constructor|]. constructor; [done|]. by destruct Hp as (_ & ? & _).
  - apply lease_backed_New.
  - intros t k Hin. unfold rel_key. destruct (kind k) eqn:Kk; try (rewrite (Hnone t k Hin) by congruence; done). by apply Hc.
Qed.

(** ** A server and a codec *)

(** A keyspace with expiry, as a map. *)
#[export] Instance map_server : RecordServer (gmap string rvalue) := {
  look t k db := at_time t (db !! k);
  GET t k db := (db, match at_time t (db !! k) with
                     | None => Ok None | Some (mkRvalue (DString s) _) => Ok (Some s) | Some _ => Err WrongType end);
  PTTL t k db := (db, Ok match at_time t (db !! k) with
                         | None => -2 | Some v => match rv_expires v with None => -1 | Some w => w - t end end);
  EXISTS t k db := (db, Ok (exists_ (at_time t (db !! k))));
  HGET t k f db := (db, match at_time t (db !! k) with
                        | None => Ok None | Some (mkRvalue (DHash h) _) => Ok (h !! f) | Some _ => Err WrongType end);
  HGETALL t k db := (db, match at_time t (db !! k) with
                         | None => Ok ∅ | Some (mkRvalue (DHash h) _) => Ok h | Some _ => Err WrongType end);
  SET t k v px db := (<[k := mkRvalue (DString v) (Z.add t <$> px)]> db, Ok tt);
  DEL t k db := (delete k db, Ok (exists_ (at_time t (db !! k))));
  UNLINK t k db := (delete k db, Ok (exists_ (at_time t (db !! k))));
  HSET t k fields db :=
    match at_time t (db !! k) with
    | Some (mkRvalue (DString _) _) => (db, Err WrongType)
    | Some (mkRvalue (DHash h) w) => (<[k := mkRvalue (DHash (hash_set fields h)) w]> db, Ok tt)
    | None => (<[k := mkRvalue (DHash (hash_set fields ∅)) None]> db, Ok tt)
    end;
  PEXPIRE t k px db :=
    (match at_time t (db !! k) with Some v => <[k := mkRvalue (rv_data v) (Some (t + px))]> db | None => delete k db end, Ok tt) }.

Lemma at_time_later t t' o : t <= t' -> at_time t' (at_time t o) = at_time t' o.
Proof.
  intros Ht. destruct o as [[d [w|]]|]; [|done..]. unfold at_time at 2. unfold readable at 1. cbn [rv_expires].
  destruct (Z.leb_spec t w); [done|]. unfold at_time, readable. cbn [rv_expires]. by rewrite (proj2 (Z.leb_gt t' w)) by lia.
Qed.

Lemma at_insert t' k k' v (db : gmap string rvalue) :
  at_time t' (<[k := v]> db !! k') = if bool_decide (k = k') then at_time t' (Some v) else at_time t' (db !! k').
Proof. case_bool_decide as E; [subst; by rewrite lookup_insert_eq|by rewrite lookup_insert_ne]. Qed.

Lemma at_delete t' k k' (db : gmap string rvalue) :
  at_time t' (delete k db !! k') = if bool_decide (k = k') then None else at_time t' (db !! k').
Proof. case_bool_decide as E; [subst; by rewrite lookup_delete_eq|by rewrite lookup_delete_ne]. Qed.

#[export] Instance map_server_laws : RecordServerLaws (gmap string rvalue).
Proof.
  split; cbn [look GET PTTL EXISTS HGET HGETALL SET DEL UNLINK HSET PEXPIRE map_server]; try done.
  - intros. by rewrite at_time_later.
  - intros t k v px db _. split; [done|]. intros. apply at_insert.
  - intros t k db. split; [done|]. intros. apply at_delete.
  - intros t k db. split; [done|]. intros. apply at_delete.
  - intros t k fields db. destruct (at_time t (db !! k)) as [[[s|h] w]|]; [done|..]; (split; [done|]; intros; apply at_insert).
  - intros t k px db _. split; [done|]. intros t' k' Ht. cbn [fst]. destruct (at_time t (db !! k)) as [v|]; [apply at_insert|apply at_delete].
Qed.

(** An encoding of the documents. *)
Fixpoint of_bits (p : positive) : string :=
  match p with xH => "" | xO p => String "0" (of_bits p) | xI p => String "1" (of_bits p) end.
Fixpoint to_bits (s : string) : option positive :=
  match s with
  | EmptyString => Some xH
  | String c s => (if Ascii.eqb c "0" then xO else xI) <$> to_bits s
  end.
Lemma bits_round p : to_bits (of_bits p) = Some p.
Proof. induction p as [p IH|p IH|]; cbn; [by rewrite IH..|done]. Qed.

Definition progress_tuple (p : Progress) := (pg_Scanned p, pg_Matched p, pg_Reset p, pg_Rules p, pg_Keys p, pg_Truncated p).
Definition tuple_progress '(a, b, c, r, k, t) : Progress := mkProgress a b c r k t.
Definition outcome_tuple (o : COutcome) :=
  (co_Failed o, co_Code o, co_ErrorID o, co_Message o, progress_tuple (co_Progress o), co_Token o, co_TokenExpiresAt o).
Definition tuple_outcome '(f, c, i, m, p, t, x) : COutcome := mkCOutcome f c i m (tuple_progress p) t x.

#[export] Instance bits_json : RecordJSON := {
  marshal_Progress p := Some ("p" +:+ of_bits (encode (progress_tuple p)));
  unmarshal_Progress s := tuple_progress <$> (to_bits (drop_str 1 s) ≫= decode);
  marshal_Outcome o := Some ("o" +:+ of_bits (encode (outcome_tuple o)));
  unmarshal_Outcome s := tuple_outcome <$> (to_bits (drop_str 1 s) ≫= decode) }.

#[export] Instance bits_json_laws : RecordJSONLaws.
Proof.
  split.
  - intros p. eexists. split_and!; [done|done|]. cbn [unmarshal_Progress bits_json]. rewrite (drop_str_app "p").
    rewrite bits_round. cbn [mbind option_bind]. rewrite decode_encode. by destruct p.
  - intros o. eexists. split_and!; [done|done|]. cbn [unmarshal_Outcome bits_json]. rewrite (drop_str_app "o").
    rewrite bits_round. cbn [mbind option_bind]. rewrite decode_encode. by destruct o as [? ? ? ? []].
Qed.

(** ** Witnesses

    The token is stored, a sweep is accepted with it, deletes a counter and
    commits, its key is looked up and finalized in vain, a reset is addressed
    and retried. *)

Definition demo_kind (k : string) : key_kind :=
  if bool_decide (k = "k1") then KBulk else if bool_decide (k = "k2") then KAddressed
  else if bool_decide (k = "lease") then KLease else if bool_decide (k = "tok") then KToken else KCounter.
Definition demo_db : gmap string rvalue :=
  {["a" := mkRvalue (DString "9") (Some 1000000); "b" := mkRvalue (DString "9") (Some 1000000)]}.
Definition at_ms (n : Z) (op : rop) : rcall (gmap string rvalue) := mkRcall (n * Millisecond) op id.
Definition demo_calls : list (rcall (gmap string rvalue)) :=
  [at_ms 1 (OPut "tok" "doc" (60 * Millisecond));
   at_ms 2 (OAccept (mkAcceptance demo_keys1 "cmd" "f1" (1000 * Millisecond)));
   at_ms 3 (OBatch (demo_batch "f1"));
   at_ms 4 (OCommit (mkCommitArg demo_keys1 "f1" demo_outcome));
   at_ms 5 (OLookup demo_keys1);
   at_ms 6 (OFinalize (mkFinalizeArg demo_keys1 no_outcome));
   at_ms 7 (OReset (demo_reset ["a"; "b"]));
   at_ms 8 (OReset (demo_reset ["b"]))].

Lemma demo_proper : proper_calls demo_kind demo_lease demo_minted demo_calls.
Proof.
  repeat split; try done; try (apply (bool_decide_eq_true_1 _); vm_compute; reflexivity); try (repeat constructor; vm_compute; done).
Qed.

Lemma demo_db_bare t k : demo_kind k <> KCounter -> look t k demo_db = None.
Proof.
  intros Hk. cbn [look map_server]. unfold demo_db. unfold demo_kind in Hk.
  by rewrite lookup_insert_ne, lookup_singleton_ne by (intros <-; by apply Hk).
Qed.

Lemma demo_db_counters t k : t < 1000 * Second -> demo_kind k = KCounter ->
  counted t demo_counters k = bool_decide (is_Some (look (ms t) k demo_db)).
Proof.
  intros Ht _. unfold counted. cbn [look map_server]. unfold demo_counters, demo_db.
  assert (t / 1000 <? 1000000000 = true) as Hd by (apply Z.ltb_lt, Z.div_lt_upper_bound; unfold Second in Ht; lia).
  assert (ms t <=? 1000000 = true) as Hm by (apply Z.leb_le; unfold ms, Millisecond; apply Z.lt_le_incl, Z.div_lt_upper_bound; unfold Second in Ht; lia).
  destruct (decide (k = "a")) as [->|Ha]; [|destruct (decide (k = "b")) as [->|Hb]].
  - rewrite !lookup_insert_eq. cbn [e_deadline at_time readable rv_expires]. by rewrite Hd, Hm.
  - rewrite !(lookup_insert_ne _ "a"), !lookup_singleton_eq by done. cbn [e_deadline at_time readable rv_expires]. by rewrite Hd, Hm.
  - by rewrite !lookup_insert_ne, !lookup_singleton_ne by done.
Qed.

Lemma redis_records_agree_witness :
  redis_answers demo_calls demo_db = memory_answers demo_calls (NewMemory demo_counters) /\
  redis_answers demo_calls demo_db !! 6%nat = Some (AnAddressed (mkAddressedOutcome false "reset" 1 "answer")) /\
  redis_answers demo_calls demo_db !! 7%nat = Some (AnAddressed (mkAddressedOutcome true "reset" 1 "answer")).
Proof.
  split; [|split; vm_compute; reflexivity].
  apply (redis_records_agree demo_kind demo_lease demo_minted demo_calls demo_counters demo_db).
  - exact demo_proper.
  - intros t k _ Hk. by apply demo_db_bare.
  - intros t k Hin Hk. apply demo_db_counters; [|exact Hk].
    repeat (apply elem_of_cons in Hin as [->|Hin]; [reflexivity|]). by apply not_elem_of_nil in Hin.
Defined.

(** * Finalize taken apart

    [Finalize] on the server is a look, a script and another look, with other
    clients' calls between. The outcome it writes carries the progress of the
    first look, so it has to be what stands when the script runs. *)

(** ** Records nobody walks for *)

Section quiet.
Context (dom_lease minted_for : string -> string) (rk f : string) (P : Progress) (t1 : Z).

(** The record, when it is still the one of token [f], has its progress or an
    outcome, and the token holds the domain no longer. *)
Definition quiet (m : MemoryRecords) : Prop :=
  (forall e, mm_records m !! rk = Some e -> re_fencing e = f -> re_terminal e = true \/ re_progress e = P) /\
  (forall l, mm_leases m !! dom_lease rk = Some l -> l_value l = f -> l_expiresAt l <= t1).

Definition no_claim (op : rop) : Prop := match op with OAccept a => ac_Fencing a <> f | _ => True end.

Lemma record_subset t k m k' e : mm_records (record t k m).1 !! k' = Some e -> mm_records m !! k' = Some e.
Proof.
  unfold record. destruct (mm_records m !! k) as [e0|]; [|done]. destruct (negb _); [|done]. cbn [fst mm_records].
  by intros [_ ?]%lookup_delete_Some.
Qed.

Lemma read_subset t keys m k' e : mm_records (read t keys m).1 !! k' = Some e -> mm_records m !! k' = Some e.
Proof. rewrite read_alt. apply record_subset. Qed.

Lemma set_record_cases k e m k' e' :
  mm_records (set_record k e m) !! k' = Some e' -> k' = k /\ e' = e \/ mm_records m !! k' = Some e'.
Proof. cbn. intros [[-> ->]|[_ ?]]%lookup_insert_Some; [by left|by right]. Qed.

(** Where the record of a step comes from. *)
Lemma rstep_record t op m e : t1 <= t -> follows dom_lease minted_for op -> lease_backed dom_lease minted_for t m -> no_claim op -> quiet m ->
  mm_records (rstep t op m) !! rk = Some e -> re_fencing e = f -> re_terminal e = true \/ re_progress e = P.
Proof.
  intros Ht Hf Hb Hn [Hq Hql] He Hef.
  assert (mm_records m !! rk = Some e -> re_terminal e = true \/ re_progress e = P) as Hold by (intros E; by apply Hq).
  destruct op as [keys|a|b|cm|fi|a|k v ttl|k|g]; cbn [rstep follows no_claim] in *; try (by apply Hold).
  - apply Hold. by eapply read_subset.
  - rewrite Accept_alt in He. cbn zeta in He.
    assert (forall m2, (forall k e, mm_records m2 !! k = Some e -> mm_records m !! k = Some e) ->
      mm_records (claimed t a m2) !! rk = Some e -> re_terminal e = true \/ re_progress e = P) as Hc.
    { intros m2 H2 [[_ ->]|E]%set_record_cases; [by destruct Hn|]. by apply Hold, H2. }
    destruct (live_record _ _ _); [by eapply Hold, record_subset|]. destruct (lease_of _ _ _); [by eapply Hold, record_subset|].
    destruct (bool_decide _).
    + eapply Hc; [|exact He]. intros k e'. apply record_subset.
    + destruct (document_of _ _ _); [|by eapply Hold, record_subset]. eapply Hc; [|exact He]. intros k e'. apply record_subset.
  - destruct Hf as [Hlk Hmi]. unfold Batch in He. destruct (owns _ _ _ _) eqn:Eo; cbn [negb] in He; [|by apply Hold].
    rewrite Hlk in Eo. destruct (owned_record _ _ _ _ _ _ Hb Hmi Eo) as (e0 & _ & E0 & _). rewrite E0 in He.
    assert (mm_records (if (0 <? length (ba_Delete b))%nat then with_counters (Memory.Reset (ba_Delete b) (mm_counters m)) m else m) = mm_records m) as Er
      by (by destruct (_ <? _)%nat).
    cbn [fst] in He. apply set_record_cases in He as [[Hk ->]|E]; [|rewrite Er in E; by apply Hold]. exfalso. cbn [re_fencing] in Hef.
    apply owns_lease in Eo as (l & Hl & Hv & Hx). destruct (Hb _ _ Hl) as [_ Hbl]. destruct (Hbl Hx) as (e1 & He1 & Hf1 & _).
    rewrite Hv, Hmi in He1. destruct (record_cases t (k_Record (ba_Keys b)) m) as [(e2 & He2 & _ & E2)|(_ & rs & E2 & _)]; rewrite E2 in E0; [|done].
    injection E0 as ->. rewrite He2 in He1. injection He1 as <-. rewrite <- Hk in Hl. specialize (Hql l Hl). rewrite <- Hf1 in Hql. specialize (Hql Hef). lia.
  - unfold Commit in He. destruct (owns _ _ _ _); cbn [negb] in He; [|by apply Hold].
    destruct (record t (k_Record (cm_Keys cm)) m) as [m1 [e0|]] eqn:E0; [|apply Hold; eapply record_subset; by rewrite E0].
    cbn [fst drop_lease mm_records] in He. apply set_record_cases in He as [[_ ->]|E]; [by left|]. apply Hold. eapply record_subset. by rewrite E0.
  - unfold Finalize in He. destruct (record t (k_Record (fi_Keys fi)) m) as [m1 [e0|]] eqn:E0; [|apply Hold; eapply record_subset; by rewrite E0].
    assert (forall k e, mm_records m1 !! k = Some e -> mm_records m !! k = Some e) as H1.
    { intros k e' E. eapply record_subset. by rewrite E0. }
    destruct (re_terminal e0); [by eapply Hold, H1, read_subset|]. destruct (lease_of _ _ _); [by eapply Hold, H1, read_subset|].
    apply read_subset, set_record_cases in He as [[_ ->]|E]; [by left|by apply Hold, H1].
  - unfold Reset in He. destruct (record t (a_Record a) m) as [m1 [e0|]] eqn:E0; [apply Hold; eapply record_subset; by rewrite E0|].
    destruct (live_keys _ _ _) as [c [live|]]; [|apply Hold; eapply record_subset; by rewrite E0].
    cbn [fst] in He. apply set_record_cases in He as [[_ ->]|E]; [by left|]. apply Hold. eapply record_subset. by rewrite E0.
Qed.

Lemma quiet_step t op m : t1 <= t -> follows dom_lease minted_for op -> lease_backed dom_lease minted_for t m -> no_claim op ->
  quiet m -> quiet (rstep t op m).
Proof.
  intros Ht Hf Hb Hn Hq. split; [intros e He Hef; by eapply rstep_record|].
  intros l [Hl|(a & -> & Ha)]%rstep_leases Hv; [by eapply Hq|]. cbn in Hn. congruence.
Qed.

End quiet.

(** ** Runs *)

Section runs.
Context {DB : Type} {RS : RecordServer DB} {RL : RecordServerLaws DB} {RJ : RecordJSON} {JL : RecordJSONLaws}.
Context (kind : string -> key_kind) (dom_lease minted_for : string -> string).

Definition redis_run (calls : list (rcall DB)) (db : DB) : DB := foldl (fun db c => (redis_step c db).1) db calls.
Definition memory_run (calls : list (rcall DB)) (m : MemoryRecords) : MemoryRecords :=
  foldl (fun m c => rstep (rc_at c) (rc_op c) m) m calls.

(** Both states after the first part of a run. *)
Lemma runs_state calls rest : forall m (db : DB) t0 (Q : MemoryRecords -> Prop),
  proper_calls kind dom_lease minted_for (calls ++ rest) -> Forall (fun c => t0 <= rc_at c) (calls ++ rest) ->
  lease_backed dom_lease minted_for t0 m -> agrees kind (rc_at <$> calls ++ rest) m db ->
  Q m -> (forall c m, c ∈ calls -> t0 <= rc_at c -> follows dom_lease minted_for (rc_op c) -> lease_backed dom_lease minted_for (rc_at c) m ->
    Q m -> Q (rstep (rc_at c) (rc_op c) m)) ->
  agrees kind (rc_at <$> rest) (memory_run calls m) (redis_run calls db) /\ proper_calls kind dom_lease minted_for rest /\
  Q (memory_run calls m) /\ exists t, t0 <= t /\ lease_backed dom_lease minted_for t (memory_run calls m) /\ Forall (fun c => t <= rc_at c) rest.
Proof.
  induction calls as [|c calls IH]; intros m db t0 Q Hp Ht Hb Ha HQ Hstep; [split_and!; try done; by exists t0|].
  destruct Hp as (Hw & Hle & Hpc & Hfo & Hp). apply Forall_cons in Ht as [Ht _].
  assert (upcoming (rc_at c) (rc_at <$> calls ++ rest)) as Hu.
  { intros t' (c' & -> & Hin)%list_elem_of_fmap. rewrite Forall_forall in Hle. split; [by apply Hle|].
    clear - Hp Hin. revert Hp Hin. generalize (calls ++ rest). induction l as [|x l IH]; intros Hp Hin; [by apply not_elem_of_nil in Hin|].
    destruct Hp as (Hx & _ & _ & _ & Hl). apply elem_of_cons in Hin as [->|Hin]; [done|by apply IH]. }
  apply (lease_backed_later _ _ t0 (rc_at c)) in Hb; [|done].
  destruct (record_call_agrees kind dom_lease minted_for c (rc_at <$> calls ++ rest) m db) as (db' & Hr & _ & Ha'); try done.
  destruct (IH (rstep (rc_at c) (rc_op c) m) db' (rc_at c) Q) as (H1 & H2 & H3 & t & Hle' & H4 & H5); try done.
  - by apply rstep_backed.
  - apply Hstep; [left|done..].
  - intros c' m' Hin Ht'. apply Hstep; [by right|lia].
  - unfold redis_run, memory_run in *. cbn [foldl]. rewrite Hr. split_and!; try done. exists t. split_and!; [lia|done|done].
Qed.

(** When the progress handed on is what stands, the script is the whole
    [Finalize]. *)
Lemma finalize_known t f current m (db : DB) :
  whole t -> kind (k_Record (fi_Keys f)) = KBulk -> kind (k_Lease (fi_Keys f)) = KLease ->
  rel_key kind t (k_Record (fi_Keys f)) m db -> rel_key kind t (k_Lease (fi_Keys f)) m db ->
  (forall e, live_record t (k_Record (fi_Keys f)) m = Some e -> re_terminal e = false -> re_progress e = r_Progress current) ->
  finalize_found (ms t) f current db = redis_Finalize (ms t) f db.
Proof.
  intros Hw Kr Kl R L Hp.
  pose proof (redis_Lookup_agrees kind t (fi_Keys f) m db Hw (or_introl Kr) Kl R L) as El.
  pose proof (record_look kind t _ m db (or_introl Kr) R) as Hrec. unfold redis_Finalize. rewrite El.
  unfold finalize_found. destruct (outcome_round (with_progress (r_Progress current) (fi_Outcome f))) as (s & Hm & _).
  destruct (live_record t (k_Record (fi_Keys f)) m) as [e|] eqn:Er.
  2: { rewrite Hm. rewrite read_alt, Er in El |- *. cbn [snd no_record r_Found negb orb] in *.
       unfold run_script, finalizeScript, mbind, script_bind. rewrite EXISTS_law, Hrec. cbn [exists_ Z.eqb]. unfold mret, script_ret. exact El. }
  destruct Hrec as (h & w & Elk & _ & _ & _ & Hrep & _). specialize (Hrep Kr).
  assert (r_Found (read t (fi_Keys f) m).2 = true /\ r_Terminal (read t (fi_Keys f) m).2 = re_terminal e /\
    r_Progress (read t (fi_Keys f) m).2 = re_progress e) as (S1 & S2 & S3)
    by (rewrite read_alt, Er; cbn [snd]; by destruct (lease_of t (k_Lease (fi_Keys f)) m); split_and!).
  rewrite S1, S2, S3. cbn [negb orb]. destruct (re_terminal e) eqn:Et.
  - rewrite Hm. unfold run_script, finalizeScript, mbind, script_bind. rewrite EXISTS_law, Elk. cbn [exists_ Z.eqb]. rewrite HGET_law, Elk.
    assert (h !! "terminal" = Some "1") as -> by (destruct Hrep as (_ & _ & _ & _ & _ & Hh & _); by rewrite Et in Hh).
    unfold mret, script_ret. exact El.
  - by rewrite (Hp e eq_refl Et).
Qed.

End runs.

(** ** Claims *)

(** [Finalize] is the atomic one at the instant of its script. Other clients'
    calls run between its first look and its script; when the first look found
    the command unfinished and its walker gone, and none of those calls mints
    the walker's token again or finds the key bound to another command, the
    script and the look after it do and return what a [Finalize] made whole at
    that instant would: the outcome recorded carries all the progress the
    command made, and an outcome recorded meanwhile is left alone. *)
Theorem finalize_atomic {DB : Type} {RS : RecordServer DB} {RL : RecordServerLaws DB} {RJ : RecordJSON} {JL : RecordJSONLaws}
    (kind : string -> key_kind) (dom_lease minted_for : string -> string) (before between : list (rcall DB)) (c : gmap string entry)
    (db : DB) (t1 t2 : Z) (f : FinalizeArg) (current seen : Record_) :
  let look_at t := mkRcall t (OLookup (fi_Keys f)) id in
  let calls := before ++ look_at t1 :: between ++ [look_at t2] in
  let db1 := redis_run before db in
  let db2 := redis_run between db1 in
  k_Lease (fi_Keys f) = dom_lease (k_Record (fi_Keys f)) -> kind (k_Record (fi_Keys f)) = KBulk ->
  proper_calls kind dom_lease minted_for calls ->
  (forall t k, t ∈ rc_at <$> calls -> kind k <> KCounter -> look (ms t) k db = None) ->
  counters_agree kind (rc_at <$> calls) c db ->
  (redis_Lookup (ms t1) (fi_Keys f) db1).2 = Ok current ->
  r_Found current = true -> r_Terminal current = false -> r_Fencing current <> "" -> Alive current = false ->
  Forall (fun c => no_claim (r_Fencing current) (rc_op c)) between ->
  (redis_Lookup (ms t2) (fi_Keys f) db2).2 = Ok seen -> (r_Found seen = true -> r_Fencing seen = r_Fencing current) ->
  finalize_found (ms t2) f current db2 = redis_Finalize (ms t2) f db2.
Proof.
  intros look_at calls db1 db2 Hlk Kr Hp Hnone Hc Hcur Hfound Hterm Hfne Hdead Hbet Hseen Hsame.
  destruct (runs_state kind dom_lease minted_for before (look_at t1 :: between ++ [look_at t2]) (NewMemory c) db
    (match calls with [] => 0 | x :: _ => rc_at x end) (fun _ => True)) as (Ha1 & Hp1 & _ & t0 & _ & Hb1 & Ht1); try done.
  { unfold calls in *. destruct before as [|x l]; cbn [app] in *; (constructor; [done|]); by destruct Hp as (_ & ? & _). }
  { intros t k Hin. unfold rel_key. destruct (kind k) eqn:Kk; try (rewrite (Hnone t k Hin) by congruence; done). by apply Hc. }
  set (m1 := memory_run before (NewMemory c)) in *. fold db1 in Ha1.
  destruct Hp1 as (Hw1 & Hle1 & [_ Kl] & _ & Hp2). apply Forall_cons in Ht1 as [Ht1 _]. cbn [look_at rc_at rc_op] in *.
  pose proof (redis_Lookup_agrees kind t1 (fi_Keys f) m1 db1 Hw1 (or_introl Kr) Kl (agrees_now kind _ _ _ _ _ Ha1) (agrees_now kind _ _ _ _ _ Ha1)) as El.
  rewrite El in Hcur. cbn [snd] in Hcur. injection Hcur as Ecur. rewrite read_alt in Ecur. cbn [snd] in Ecur.
  destruct (live_record t1 (k_Record (fi_Keys f)) m1) as [e|] eqn:Er; [|by subst].
  assert (quiet dom_lease (k_Record (fi_Keys f)) (r_Fencing current) (r_Progress current) t1 m1) as Hq.
  { rewrite live_record_alt in Er. destruct (mm_records m1 !! k_Record (fi_Keys f)) as [e0|] eqn:E0; [|done].
    destruct (t1 <? re_expiresAt e0); [injection Er as ->|done]. split.
    - intros e' E' _. rewrite E0 in E'. injection E' as <-. right. rewrite <- Ecur. by destruct (lease_of _ _ _).
    - intros l Hl Hv. destruct (Z.le_gt_cases (l_expiresAt l) t1) as [|Hgt]; [done|]. exfalso.
      assert (lease_of t1 (k_Lease (fi_Keys f)) m1 = Some l) as Hlo.
      { unfold lease_of. rewrite Hlk, Hl. by rewrite (proj2 (Z.ltb_lt _ _)). }
      rewrite Hlo in Ecur. unfold Alive in Hdead. rewrite Hterm, bool_decide_false in Hdead by done. cbn [negb andb] in Hdead.
      apply bool_decide_eq_false in Hdead. by rewrite <- Ecur in Hdead, Hv. }
  destruct (runs_state kind dom_lease minted_for between [look_at t2] m1 db1 t1
    (quiet dom_lease (k_Record (fi_Keys f)) (r_Fencing current) (r_Progress current) t1)) as (Ha2 & Hp3 & [Hq2 _] & _); try done.
  { by apply (lease_backed_later _ _ t0 t1). }
  { by eapply agrees_tail. }
  { rewrite Forall_forall in Hbet. intros c' m' Hin Hle' Hfo Hbb Hqq. apply (quiet_step dom_lease minted_for); try done. by apply Hbet. }
  set (m2 := memory_run between m1) in *. fold db2 in Ha2. destruct Hp3 as (Hw2 & _). cbn [look_at rc_at] in *.
  pose proof (agrees_now kind _ _ _ _ (k_Record (fi_Keys f)) Ha2) as R2. pose proof (agrees_now kind _ _ _ _ (k_Lease (fi_Keys f)) Ha2) as L2.
  apply (finalize_known kind t2 f current m2 db2 Hw2 Kr Kl R2 L2). intros e2 Er2 Et.
  rewrite (redis_Lookup_agrees kind t2 (fi_Keys f) m2 db2 Hw2 (or_introl Kr) Kl R2 L2), read_alt, Er2 in Hseen. cbn [snd] in Hseen.
  assert (re_fencing e2 = r_Fencing current) as Hfe.
  { destruct (lease_of t2 (k_Lease (fi_Keys f)) m2); injection Hseen as <-; by apply Hsame. }
  rewrite live_record_alt in Er2. destruct (mm_records m2 !! k_Record (fi_Keys f)) as [e3|] eqn:E3; [|done].
  destruct (t2 <? re_expiresAt e3); [injection Er2 as ->|done]. destruct (Hq2 e2 eq_refl Hfe) as [?|?]; congruence.
Qed.

(** ** Witnesses

    A sweep that made one batch and died; while it is finalized, its walker
    comes back in vain. *)
Definition dying_calls : list (rcall (gmap string rvalue)) :=
  [at_ms 1 (OPut "tok" "doc" (60 * Millisecond));
   at_ms 2 (OAccept (mkAcceptance demo_keys1 "cmd" "f1" (10 * Millisecond)));
   at_ms 3 (OBatch (demo_batch "f1"))].

Definition dying_finalize : FinalizeArg := mkFinalizeArg demo_keys1 demo_outcome.

Lemma dying_proper :
  proper_calls demo_kind demo_lease demo_minted
    (dying_calls ++ mkRcall (20 * Millisecond) (OLookup demo_keys1) id :: [at_ms 25 (OBatch (demo_batch "f1"))] ++
       [mkRcall (30 * Millisecond) (OLookup demo_keys1) id]).
Proof.
  repeat split; (first [reflexivity | by left | apply (bool_decide_eq_true_1 _); vm_compute; reflexivity | repeat constructor; vm_compute; done]).
Qed.

Lemma finalize_atomic_witness :
  exists current, (redis_Lookup (ms (20 * Millisecond)) (fi_Keys dying_finalize) (redis_run dying_calls demo_db)).2 = Ok current /\ pg_Reset (r_Progress current) = 1 /\
    finalize_found (ms (30 * Millisecond)) dying_finalize current
        (redis_run [at_ms 25 (OBatch (demo_batch "f1"))] (redis_run dying_calls demo_db)) =
      redis_Finalize (ms (30 * Millisecond)) dying_finalize (redis_run [at_ms 25 (OBatch (demo_batch "f1"))] (redis_run dying_calls demo_db)).
Proof.
  assert (exists current seen, (redis_Lookup (ms (20 * Millisecond)) (fi_Keys dying_finalize) (redis_run dying_calls demo_db)).2 = Ok current /\
    (redis_Lookup (ms (30 * Millisecond)) (fi_Keys dying_finalize) (redis_run [at_ms 25 (OBatch (demo_batch "f1"))] (redis_run dying_calls demo_db))).2 = Ok seen /\
    r_Found current = true /\ r_Terminal current = false /\ r_Fencing current = "f1" /\ Alive current = false /\ pg_Reset (r_Progress current) = 1 /\
    r_Fencing seen = "f1") as (current & seen & Hc & Hs & Hf & Ht & Hfe & Ha & Hr & Hse).
  { eexists _, _. split; [vm_compute; reflexivity|]. split; [vm_compute; reflexivity|]. repeat split. }
  exists current. split; [exact Hc|]. split; [exact Hr|].
  apply (finalize_atomic demo_kind demo_lease demo_minted dying_calls [at_ms 25 (OBatch (demo_batch "f1"))] demo_counters demo_db
    (20 * Millisecond) (30 * Millisecond) dying_finalize current seen).
  - reflexivity.
  - reflexivity.
  - exact dying_proper.
  - intros t k _ Hk. by apply demo_db_bare.
  - intros t k Hin Hk. apply demo_db_counters; [|exact Hk].
    repeat (apply elem_of_cons in Hin as [->|Hin]; [reflexivity|]). by apply not_elem_of_nil in Hin.
  - exact Hc.
  - exact Hf.
  - exact Ht.
  - rewrite Hfe. done.
  - exact Ha.
  - rewrite Hfe. repeat constructor.
  - exact Hs.
  - intros _. rewrite Hfe, Hse. reflexivity.
Defined.
