(* ===== verification/Simulation.v ===== *)
(** * service/internal/management/simulate.go: the request debugger

    One request judged by the decision path without charging it. The engine is
    the facade of Engine over any store of the counter contract; durations are
    nanoseconds, the numbers of the answer being their seconds; the decoder of
    the body is encoding/json's, an argument. Log lines are left out, and the
    texts of the errors. *)
From S2P Require Import Prelude GoStrings Algo Key StoreApi Memory Model Compile CompileFacts Match MatchFacts MatchKeys Identity IdentityFacts.
From S2P Require Import TokenCache Engine EngineFacts EngineClaims MgmtKeys RuleView MgmtErrors Selector.

(** ** Definitions *)

Definition maxSimulationToken : Z := 8192.
Definition maxRequestBody : Z := 1048576.

Definition identityMerge : string := "merge".
Definition identityToken : string := "token".
Definition identityKeys : string := "keys".

(** [sr_Keys] is [None] for a nil map; [sr_carried] the raw values of the
    optional fields the body named. *)
Record SimulationRequest := mkSimulation {
  sr_Domain : string;
  sr_Path : string;
  sr_Method : string;
  sr_IdentitySource : string;
  sr_Token : string;
  sr_Keys : option (list (string * list string));
  sr_Cost : Z;
  sr_carried : gmap string string }.

(** Unicode folding onto ASCII letters: the two letters outside ASCII that fold
    to one, and upper case. *)
Fixpoint fold_name (s : string) : string :=
  match s with
  | String "197" (String "191" r) => String "s" (fold_name r)
  | String "226" (String "132" (String "170" r)) => String "k" (fold_name r)
  | String c r => String (ascii_lower c) (fold_name r)
  | EmptyString => EmptyString
  end.

(** [strings.EqualFold] against a name of lower case letters. *)
Definition EqualFold (given name : string) : bool := bool_decide (fold_name given = name).

(** The presence loop of [UnmarshalJSON] over the members the body named, in
    some order of the map. *)
Definition carried_of (named : list (string * string)) : gmap string string :=
  foldl (fun m gr => foldl (fun m name => if EqualFold gr.1 name then <[name := gr.2]> m else m) m ["cost"; "token"; "keys"]) ∅ named.

Definition with_carried (named : list (string * string)) (s : SimulationRequest) : SimulationRequest :=
  mkSimulation (sr_Domain s) (sr_Path s) (sr_Method s) (sr_IdentitySource s) (sr_Token s) (sr_Keys s) (sr_Cost s) (carried_of named).

(** [UnmarshalJSON]: what the decoder reads of the fields and of the names. *)
Definition UnmarshalJSON (fields : option SimulationRequest) (named : option (list (string * string))) : option SimulationRequest :=
  match fields, named with
  | Some s, Some named => Some (with_carried named s)
  | _, _ => None
  end.

Definition carriedEmpty (s : SimulationRequest) (name : string) (zero : bool) : bool :=
  match sr_carried s !! name with
  | Some raw => zero || bool_decide (TrimSpace raw = "null")
  | None => false
  end.

Definition validate_simulation (s : SimulationRequest) : result apiError unit :=
  let keys := default [] (sr_Keys s) in
  if bool_decide (sr_Domain s = "") then Err (invalid ["domain"])
  else if bool_decide (sr_Path s = "") then Err (invalid ["path"])
  else if bool_decide (sr_Method s = "") then Err (invalid ["method"])
  else if (sr_Cost s <? 0) || carriedEmpty s "cost" (sr_Cost s =? 0) then Err (invalid ["cost"])
  else if carriedEmpty s "token" (bool_decide (sr_Token s = "")) then Err (invalid ["token"])
  else if carriedEmpty s "keys" (length keys =? 0)%nat then Err (invalid ["keys"])
  else if len (sr_Token s) >? maxSimulationToken then Err (invalid ["token"])
  else if existsb (fun kv => (length kv.2 =? 0)%nat) keys then Err (invalid ["keys"])
  else if bool_decide (sr_IdentitySource s = "") || bool_decide (sr_IdentitySource s = identityMerge) then Ok tt
  else if bool_decide (sr_IdentitySource s = identityToken) then
    if bool_decide (sr_Token s = "") then Err (invalid ["token"])
    else if negb (bool_decide (sr_Keys s = None)) then Err (invalid ["keys"])
    else Ok tt
  else if bool_decide (sr_IdentitySource s = identityKeys) then
    if (length keys =? 0)%nat then Err (invalid ["keys"])
    else if negb (bool_decide (sr_Token s = "")) then Err (invalid ["token"])
    else Ok tt
  else Err (invalid ["identitySource"]).

(** *** The answer *)

Record HeadersView := mkHeadersView {
  hv_Block : string;
  hv_Rule : string;
  hv_Algorithm : string;
  hv_PeriodSeconds : Z;
  hv_Limit : Z;
  hv_Remaining : Z;
  hv_RetryAfter : option Z;
  hv_ResetAfter : option Z;
  hv_EffectiveWindow : option Z }.

Record RuleOutcomeView := mkOutcomeView {
  ov_ID : string;
  ov_Mode : string;
  ov_Allowed : bool;
  ov_Algorithm : string;
  ov_PeriodSeconds : Z;
  ov_Limit : Z;
  ov_Remaining : Z;
  ov_Cost : Z;
  ov_RefusalReason : string;
  ov_RetryAfter : option Z }.

Record SimulationResponse := mkSimulated {
  si_Allowed : bool;
  si_EvaluatedAt : Z;
  si_RefusalReason : string;
  si_Headers : option HeadersView;
  si_Rules : list RuleOutcomeView;
  si_Skips : list Skip;
  si_ExtractedKeys : list string }.

Definition ReasonRateLimited : string := "rate_limited".
Definition ReasonCapacityExceeded : string := "capacity_exceeded".

Definition refusalReason (costExceeds : bool) : string := if costExceeds then ReasonCapacityExceeded else ReasonRateLimited.

Definition headersView (h : Headers) (allowed costExceeds : bool) : HeadersView :=
  mkHeadersView (hd_Block h) (hd_Rule h) (hd_Algorithm h) (hd_PeriodSeconds h) (hd_Limit h) (hd_Remaining h)
    (if negb allowed && negb costExceeds && (hd_RetryAfter h >? 0) then Some (hd_RetryAfter h) else None)
    (if hd_ResetAfter h >? 0 then Some (hd_ResetAfter h) else None)
    (if hd_EffectiveWindow h >=? 0 then Some (hd_EffectiveWindow h) else None).

Definition ruleOutcomeView (o : RuleOutcome) : RuleOutcomeView :=
  let mode := if ro_Shadow o then ruleview.ModeShadow else ruleview.ModeEnforce in
  let view := mkOutcomeView (ruleID (ro_Block o) (ro_Rule o)) mode (ro_Allowed o) (ro_Algorithm o) (ro_PeriodSeconds o)
                (ro_Limit o) (ro_Remaining o) (ro_Cost o) in
  if ro_Allowed o then view "" None
  else view (refusalReason (ro_CostExceedsCapacity o))
         (if negb (ro_CostExceedsCapacity o) && (ro_RetryAfter o >? 0) then Some (ro_RetryAfter o) else None).

Definition simulationResponse (d : Decision) (at_ : Z) : SimulationResponse :=
  mkSimulated (d_Allowed d) at_
    (if negb (d_Allowed d) then refusalReason (d_CostExceedsCapacity d) else "")
    ((fun h => headersView h (d_Allowed d) (d_CostExceedsCapacity d)) <$> d_Headers d)
    (ruleOutcomeView <$> d_Rules d) (d_Skips d) (d_ExtractedKeys d).

(** *** The endpoint *)

(** [decodeJSON]: [decode] reads a value of the body and says whether anything
    follows it. *)
Definition decodeJSON {A} (decode : string -> option (A * bool)) (contentType body : string) : result apiError A :=
  if negb (bool_decide (contentType = "")) && negb (bool_decide (TrimSpace (Cut ";" contentType).1.1 = "application/json"))
  then Err (invalid ["Content-Type"])
  else if len body >? maxRequestBody then Err (invalid [])
  else match decode body with
       | None => Err (invalid [])
       | Some (_, true) => Err (invalid [])
       | Some (v, false) => Ok v
       end.

Definition engine_request (s : SimulationRequest) : Request :=
  mkRequest (sr_Path s) (sr_Method s) (sr_Token s) (default [] (sr_Keys s)) (sr_Cost s).

Section endpoint.
Context `{Platform} {S : Type} {cap : Z} {kind : string -> Kind} {CS : CounterStore cap kind S}.

(** [simulate], over the engines of the enforced set: the snapshot and the
    state of each domain's. [None] is a panic; [at_] is the clock of the
    answer. *)
Definition simulate (engines : gmap string (Snapshot * engine_state S)) (now at_ : Z) (s : SimulationRequest)
    : gmap string (Snapshot * engine_state S) * option (result apiError SimulationResponse) :=
  match engines !! sr_Domain s with
  | None => (engines, Some (Err notFound))
  | Some (snapshot, es) =>
      match unnormalized snapshot (list_to_map (default [] (sr_Keys s))) ∅ (fun _ => "keys") with
      | Err e => (engines, Some (Err e))
      | Ok _ =>
          let '(es, r) := Peek_engine snapshot now (engine_request s) es in
          (<[sr_Domain s := (snapshot, es)]> engines,
           match r with
           | None => None
           | Some (Err (ErrTooManyBuckets _)) => Some (Err (errorf CodeInternal []))
           | Some (Err (ErrStore _)) => Some (Err storeDown)
           | Some (Ok decision) => Some (Ok (simulationResponse decision at_))
           end)
      end
  end.

Definition handleSimulation (decode : string -> option (SimulationRequest * bool)) (contentType body : string)
    (engines : gmap string (Snapshot * engine_state S)) (now at_ : Z)
    : gmap string (Snapshot * engine_state S) * option (result apiError SimulationResponse) :=
  match decodeJSON decode contentType body with
  | Err e => (engines, Some (Err e))
  | Ok s =>
      match validate_simulation s with
      | Err e => (engines, Some (Err e))
      | Ok _ => simulate engines now at_ s
      end
  end.

End endpoint.

(** * What the request debugger tells *)

(** ** Lemmas *)

(** A refused window has to be waited for. *)
Lemma wait_pos cap kind now b lvl :
  bucket_ok cap kind b -> 0 <= lvl -> judge_allowed b lvl = false -> judge_exceeds b = false -> 0 < wait now b lvl.
Proof.
  intros Hb Hl Hj Hx. pose proof (wait_exact cap kind now b lvl 0 Hb Hl ltac:(lia) Hj Hx) as Hw.
  destruct (Z.le_gt_cases (wait now b lvl) 0) as [Hle|]; [|lia]. exfalso.
  apply Hw in Hle. rewrite Z.add_0_r in Hle. unfold decay in Hle. rewrite Z.sub_diag, Z.sub_0_r, Z.eqb_refl in Hle.
  rewrite Z.max_l in Hle by lia. destruct (k_alg (kind (b_Key b))); congruence.
Qed.

(** The window a refused rule reports is a refused one of its own. *)
Lemma strictest_loop_refused bs vs skip ixs : forall best j,
  strictest_loop bs vs ixs false skip best = Some j -> best = Some j \/ (j ∈ ixs /\ v_Allowed (verdict_at vs j) = false).
Proof.
  induction ixs as [|i ixs IH]; intros best j; cbn [strictest_loop]; [by left|]. cbn [negb andb].
  assert (forall b, strictest_loop bs vs ixs false skip b = Some j -> b = Some j \/ j ∈ i :: ixs /\ v_Allowed (verdict_at vs j) = false) as IH'.
  { intros b Hb. destruct (IH b j Hb) as [|[? ?]]; [by left|right]. split; [by right|done]. }
  destruct (skip && _); [apply IH'|]. destruct (v_Allowed (verdict_at vs i)) eqn:Ei; [apply IH'|].
  intros Hr. destruct (IH' _ Hr) as [Hb|]; [|by right].
  destruct best as [b|]; [destruct (stricter _ _ _ _ _); [|by left]|]; injection Hb as <-; (right; split; [left|done]).
Qed.

Lemma strictest_loop_some bs vs ixs : forall best,
  (is_Some best \/ exists j, j ∈ ixs /\ v_Allowed (verdict_at vs j) = false) -> is_Some (strictest_loop bs vs ixs false false best).
Proof.
  induction ixs as [|i ixs IH]; intros best Hex; cbn [strictest_loop negb andb].
  { destruct Hex as [|(j & ?%elem_of_nil & _)]; done. }
  destruct (v_Allowed (verdict_at vs i)) eqn:Ei.
  - apply IH. destruct Hex as [|(j & [->|Hj]%elem_of_cons & Hf)]; [by left|congruence|right; by exists j].
  - apply IH. left. destruct best; [|done]. by destruct (stricter _ _ _ _ _).
Qed.

Lemma lookup_map {A B} (f : A -> B) l : forall i x, l !! i = Some x -> map f l !! i = Some (f x).
Proof. induction l as [|a l IH]; intros [|i] x; try done; [by intros [= ->]|apply IH]. Qed.

(** A rule the outcome refuses for a reason waiting cures says how long. *)
Lemma rule_outcome_retry cap kind commit now bs lv m from to :
  Forall (bucket_ok cap kind) bs -> (forall k, 0 <= lv k) -> (to <= length bs)%nat ->
  let o := rule_outcome bs (spec_verdicts commit now bs lv) m from to in
  ro_Allowed o = false -> ro_CostExceedsCapacity o = false -> 0 < ro_RetryAfter o.
Proof.
  intros Hok Hlv Hto o. subst o. set (vs := spec_verdicts commit now bs lv). unfold rule_outcome.
  set (range := seq from (to - from)). set (allowed := forallb _ range). set (exceeds := existsb _ range).
  intros Ha Hx. assert (allowed = false) as Ea by (by destruct (strictestIndex _ _ _ _ _ _)).
  assert (exceeds = false) as Ex by (by destruct (strictestIndex _ _ _ _ _ _)). rewrite Ea in *.
  assert (exists j, j ∈ range /\ v_Allowed (verdict_at vs j) = false) as Hj.
  { unfold allowed in Ea. clear - Ea. induction range as [|i l IH]; [done|]. cbn [forallb] in Ea.
    destruct (v_Allowed (verdict_at vs i)) eqn:E; [|exists i; split; [left|done]].
    destruct (IH Ea) as (j & ? & ?). exists j. split; [by right|done]. }
  unfold strictestIndex. fold range. destruct (strictest_loop_some bs vs range None (or_intror Hj)) as [best Hb]. rewrite Hb.
  apply strictest_loop_refused in Hb as [|[Hin Hv]]; [done|]. cbn [ro_RetryAfter].
  unfold range in Hin. apply elem_of_seq in Hin.
  destruct (lookup_lt_is_Some_2 bs best ltac:(lia)) as [b Eb].
  assert (verdict_at vs best = if commit && spec_admitted bs lv && judge_allowed b (lv (b_Key b))
    then charged_verdict now b (lv (b_Key b)) else current_verdict now b (lv (b_Key b))) as Ev.
  { unfold verdict_at, vs, spec_verdicts. by rewrite (lookup_map _ bs best b Eb). }
  assert (v_CostExceedsCapacity (verdict_at vs best) = false) as Hnx.
  { destruct (v_CostExceedsCapacity (verdict_at vs best)) eqn:E; [|done]. exfalso.
    assert (exceeds = true); [|congruence]. unfold exceeds. apply existsb_exists. exists best. rewrite Hv, E. split; [|done].
    apply list_elem_of_In, elem_of_seq. lia. }
  rewrite Ev in *. destruct (judge_allowed b (lv (b_Key b))) eqn:Ej.
  { rewrite andb_true_r in Hv. destruct (commit && spec_admitted bs lv); cbn in Hv; congruence. }
  rewrite andb_false_r in *. cbn [current_verdict v_RetryAfter v_CostExceedsCapacity] in *. rewrite Ej, Hnx. cbn [orb].
  rewrite Forall_forall in Hok. pose proof (wait_pos cap kind now b (lv (b_Key b)) (Hok b (list_elem_of_lookup_2 _ _ _ Eb)) (Hlv _) Ej Hnx).
  unfold Microsecond. lia.
Qed.

Lemma outcomes_loop_retry cap kind commit now bs lv matched : forall i,
  Forall (bucket_ok cap kind) bs -> (forall k, 0 <= lv k) -> (i + length (Buckets matched) <= length bs)%nat ->
  Forall (fun o => ro_Allowed o = false -> ro_CostExceedsCapacity o = false -> 0 < ro_RetryAfter o)
    (outcomes_loop bs (spec_verdicts commit now bs lv) matched i).
Proof.
  induction matched as [|m matched IH]; intros i Hok Hlv Hle; cbn [outcomes_loop]; [done|].
  rewrite Buckets_cons, length_app in Hle. constructor; [|apply IH; (done || lia)].
  apply (rule_outcome_retry cap kind); (done || lia).
Qed.

Lemma validate_cost s : validate_simulation s = Ok tt -> 0 <= sr_Cost s.
Proof.
  unfold validate_simulation. repeat (case_bool_decide; [done|]). destruct (Z.ltb_spec (sr_Cost s) 0); [done|]. lia.
Qed.

Lemma headersView_retry h exceeds : (exceeds = false -> 0 < hd_RetryAfter h) ->
  is_Some (hv_RetryAfter (headersView h false exceeds)) <-> refusalReason exceeds = ReasonRateLimited.
Proof.
  intros Hr. unfold headersView. cbn [hv_RetryAfter negb andb]. destruct exceeds; cbn [negb andb].
  - split; [by intros [? ?]|done].
  - rewrite Z.gtb_ltb, (proj2 (Z.ltb_lt 0 _)) by (by apply Hr). done.
Qed.

Lemma ruleOutcomeView_retry o : (ro_Allowed o = false -> ro_CostExceedsCapacity o = false -> 0 < ro_RetryAfter o) ->
  let v := ruleOutcomeView o in
  (ov_RefusalReason v = "" <-> ov_Allowed v = true) /\ (is_Some (ov_RetryAfter v) <-> ov_RefusalReason v = ReasonRateLimited).
Proof.
  intros Hr. unfold ruleOutcomeView. destruct (ro_Allowed o) eqn:Ea; cbn [ov_RefusalReason ov_Allowed ov_RetryAfter].
  - split; [done|]. split; [by intros [? ?]|done].
  - destruct (ro_CostExceedsCapacity o) eqn:Ex; cbn [negb andb refusalReason].
    + split; [done|]. split; [by intros [? ?]|done].
    + rewrite Z.gtb_ltb, (proj2 (Z.ltb_lt 0 _)) by (by apply Hr). by split.
Qed.

Lemma ruleOutcomeView_verdict o :
  bool_decide (ov_Mode (ruleOutcomeView o) = ruleview.ModeShadow) || ov_Allowed (ruleOutcomeView o) = ro_Shadow o || ro_Allowed o.
Proof. unfold ruleOutcomeView. by destruct (ro_Shadow o), (ro_Allowed o). Qed.

(** The view of a decision, by what the aggregation says of it. *)
Lemma simulationResponse_spec dec at_ :
  d_Allowed dec = forallb (fun r => ro_Shadow r || ro_Allowed r) (d_Rules dec) ->
  (d_Allowed dec = true -> d_CostExceedsCapacity dec = false) ->
  (d_Allowed dec = false -> exists h, d_Headers dec = Some h /\ (d_CostExceedsCapacity dec = false -> 0 < hd_RetryAfter h)) ->
  Forall (fun o => ro_Allowed o = false -> ro_CostExceedsCapacity o = false -> 0 < ro_RetryAfter o) (d_Rules dec) ->
  let r := simulationResponse dec at_ in
  si_Allowed r = forallb (fun o => bool_decide (ov_Mode o = ruleview.ModeShadow) || ov_Allowed o) (si_Rules r) /\
  (si_RefusalReason r = "" <-> si_Allowed r = true) /\
  (forall h, si_Headers r = Some h -> is_Some (hv_RetryAfter h) <-> si_RefusalReason r = ReasonRateLimited) /\
  Forall (fun o => (ov_RefusalReason o = "" <-> ov_Allowed o = true) /\
                   (is_Some (ov_RetryAfter o) <-> ov_RefusalReason o = ReasonRateLimited)) (si_Rules r).
Proof.
  intros Hall Hx Hh Hr. unfold simulationResponse. cbn [si_Allowed si_Rules si_RefusalReason si_Headers]. split_and!.
  - rewrite Hall. clear. induction (d_Rules dec) as [|o l IH]; [done|]. rewrite fmap_cons. cbn [forallb]. by rewrite ruleOutcomeView_verdict, IH.
  - destruct (d_Allowed dec), (d_CostExceedsCapacity dec); cbn; naive_solver.
  - intros h. destruct (d_Allowed dec) eqn:Ea; cbn [negb].
    + destruct (d_Headers dec) as [h0|]; [|done]. intros [= <-]. cbn. split; [by intros [? ?]|done].
    + destruct (Hh eq_refl) as (h0 & -> & Hp). intros [= <-]. by apply headersView_retry.
  - apply Forall_fmap. eapply Forall_impl; [exact Hr|]. intros o. apply ruleOutcomeView_retry.
Qed.

(** ** Claims *)

(** C24: The debugger tells what the gateway would be told, and why, and charges
    nothing. Over a compiled snapshot and any store of the contract, a valid
    request for an enforced domain is answered: with the verdict the enforcing
    path would give at that instant and, when that is a refusal, with its
    headers and its rules; the verdict is exactly that every rule not in shadow
    mode allows; the reason is there exactly on a refusal, and a retry hint
    exactly on a refusal that waiting cures, in the headers and in every rule,
    shadow rules included; and no counter moves. *)
Theorem simulation_faithful {PL : Platform} {S : Type} {cap : Z} {CS : CounterStore cap key_kind S}
    (ns d : string) (p : Policy) (snap : Snapshot) (ps : list Problem) (seen : gset string) (now at_ : Z)
    (engines : gmap string (Snapshot * engine_state S)) (es : engine_state S) (s : SimulationRequest) :
  policy_within cap p -> Compile ns d (Some p) = Some (snap, ps) -> hash_injective seen -> time_ok now ->
  engines !! sr_Domain s = Some (snap, es) -> store_inv now (es_store es) -> ec_ok (s_Extraction snap) seen (es_cache es) ->
  sr_Token s ∈ seen -> validate_simulation s = Ok tt -> sr_Cost s <= max_i64 ->
  unnormalized snap (list_to_map (default [] (sr_Keys s))) ∅ (fun _ => "keys") = Ok tt ->
  exists engines' es' r dec es1,
    simulate engines now at_ s = (engines', Some (Ok r)) /\ engines' = <[sr_Domain s := (snap, es')]> engines /\
    (forall k, store_level now (es_store es') k = store_level now (es_store es) k) /\
    Decide_engine snap now (engine_request s) es = (es1, Some (Ok dec)) /\
    si_Allowed r = d_Allowed dec /\
    (si_Allowed r = false -> si_Headers r = (fun h => headersView h false (d_CostExceedsCapacity dec)) <$> d_Headers dec /\
       si_Headers r <> None /\ si_Rules r = ruleOutcomeView <$> d_Rules dec) /\
    si_Allowed r = forallb (fun o => bool_decide (ov_Mode o = ruleview.ModeShadow) || ov_Allowed o) (si_Rules r) /\
    (si_RefusalReason r = "" <-> si_Allowed r = true) /\
    (forall h, si_Headers r = Some h -> is_Some (hv_RetryAfter h) <-> si_RefusalReason r = ReasonRateLimited) /\
    Forall (fun o => (ov_RefusalReason o = "" <-> ov_Allowed o = true) /\
                     (is_Some (ov_RetryAfter o) <-> ov_RefusalReason o = ReasonRateLimited)) (si_Rules r).
Proof.
  intros Hp Hc Hinj Ht He Hi Hec Hseen Hv Hcost Hu.
  assert (snapshot_ok cap ns snap) as Hok by (eapply compile_snapshot_ok; [|done]; by intros ? [= <-]).
  assert (0 <= rq_Cost (engine_request s) <= max_i64) as Hcost' by (split; [by apply validate_cost|done]).
  set (bs := request_buckets snap (engine_request s)). set (lv := store_level now (es_store es)).
  destruct (peek_pipeline ns snap seen now (engine_request s) es Hok Hinj Hcost' Ht Hi Hec Hseen)
    as (dec & dec' & es1 & es2 & H1 & H2 & H3 & _ & H5 & H6 & H7 & Hm & Hn). fold bs lv in H6, H7, Hm, Hn.
  destruct (request_buckets_ok ns snap Hok (engine_request s) Hcost') as (Hnd & _ & Hbok & _). fold bs in Hnd, Hbok.
  assert (forall k, 0 <= lv k) as Hlv by (intros; by apply level_nonneg).
  assert (d_Allowed dec' = false -> bs <> []) as Hne by (intros Hf E; by rewrite H7, E in Hf).
  assert (d_Allowed dec' = false -> exists h, d_Headers dec' = Some h /\ (d_CostExceedsCapacity dec' = false -> 0 < hd_RetryAfter h)) as Hhead.
  { intros Hf. destruct (Hm (Hne Hf)) as [Hagg _]. rewrite Hf in *.
    destruct (aggregate_refused now bs lv Hnd (eq_sym H7) (request_matched snap (engine_request s)) false) as (h & ex & Ha & _ & _ & Hw).
    rewrite Ha in Hagg. injection Hagg as <- <-. exists h. split; [done|]. intros Hx.
    destruct (Hw Hx) as (b & Hb & _ & Hj & Hbx & -> & _). rewrite Forall_forall in Hbok.
    pose proof (wait_pos cap key_kind now b (lv (b_Key b)) (Hbok b Hb) (Hlv _) Hj Hbx). unfold Microsecond. lia. }
  eexists _, es2, _, dec, es1. unfold simulate. rewrite He, Hu, H2. split; [done|]. split; [done|]. split; [done|]. split; [done|].
  split; [done|]. split.
  { cbn [simulationResponse si_Allowed si_Headers si_Rules]. intros Hf. rewrite Hf. rewrite H3 in Hf. destruct (H5 Hf) as (E1 & E2 & E3).
    rewrite <- H3 in Hf. destruct (Hhead Hf) as (h & Eh & _). rewrite E3, <- E1, Eh, E2. done. }
  apply simulationResponse_spec; [| |done|].
  - destruct (decide (bs = [])) as [E|E]; [destruct (Hn E) as (_ & _ & ->); by rewrite H7, E|].
    destruct (Hm E) as [_ ->]. rewrite H7. apply rules_agree.
  - intros Ha. destruct (decide (bs = [])) as [E|E]; [by destruct (Hn E) as (_ & -> & _)|].
    destruct (Hm E) as [Hagg _]. rewrite Ha in Hagg. unfold aggregate in Hagg. cbn [negb andb] in Hagg.
    by destruct (strictestIndex _ _ _ _ _ _); injection Hagg as _ <-.
  - destruct (decide (bs = [])) as [E|E]; [destruct (Hn E) as (_ & _ & ->); by constructor|].
    destruct (Hm E) as [_ ->]. apply (outcomes_loop_retry cap key_kind); try done.
Qed.

(** ** Witnesses *)

Definition demo_simulation (path : string) : SimulationRequest :=
  mkSimulation "gateway.public" path "GET" "" "" (Some [("sub", ["alice"])]) 0 ∅.

Definition demo_engines : gmap string (Snapshot * engine_state (gmap string entry)) := {["gateway.public" := (demo_snapshot, demo_es1)]}.

(** The client whose bucket is empty would be refused, for a time. *)
Lemma simulation_faithful_witness :
  exists engines' r dec es1, simulate (H := demo_platform) (CS := memory_store key_kind) demo_engines 0 0 (demo_simulation "/orders/42?limit=2") =
      (engines', Some (Ok r)) /\
    Decide_engine (H := demo_platform) (CS := memory_store key_kind) demo_snapshot 0 (engine_request (demo_simulation "/orders/42?limit=2")) demo_es1 =
      (es1, Some (Ok dec)) /\ si_Allowed r = d_Allowed dec /\ si_RefusalReason r = ReasonRateLimited.
Proof.
  destruct (simulation_faithful (PL := demo_platform) (CS := memory_store key_kind) "ns" "gateway.public" demo_policy demo_snapshot []
    demo_seen_tokens 0 0 demo_engines demo_es1 (demo_simulation "/orders/42?limit=2"))
    as (engines' & es' & r & dec & es1 & H1 & _ & _ & H4 & H5 & _).
  - exact demo_policy_i64.
  - exact demo_compiles.
  - exact demo_injective.
  - by_decide.
  - reflexivity.
  - exact (proj1 demo_es1_ok).
  - exact (proj2 demo_es1_ok).
  - simpl. set_solver.
  - vm_compute. reflexivity.
  - vm_compute. discriminate.
  - vm_compute. reflexivity.
  - exists engines', r, dec, es1. split; [exact H1|]. split; [exact H4|]. split; [exact H5|].
    assert (exists r0, (simulate (H := demo_platform) (CS := memory_store key_kind) demo_engines 0 0 (demo_simulation "/orders/42?limit=2")).2
      = Some (Ok r0) /\ si_RefusalReason r0 = ReasonRateLimited) as (r0 & E & Hr) by (eexists; split; vm_compute; reflexivity).
    rewrite H1 in E. injection E as <-. exact Hr.
Defined.
