(* ===== verification/Access.v ===== *)
(** * Who may call the management API

    service/internal/management/identity.go, the routes and middleware of
    api.go, http.go and server.go, the callers of settings.go, and the part of
    service/internal/m2m/verifier.go that names what is wrong with a token. The
    JWT library, the platform's token package and the router are classes; an
    error is the list of the library's sentinels in its chain. *)
From S2P Require Import Prelude GoStrings Algo Compile Identity MgmtErrors Selector AddrReset Sanitize Simulation.

(** ** Definitions *)

(** *** Tokens *)

Inductive sentinel :=
| ErrTokenMalformed
| ErrTokenExpired
| ErrTokenNotValidYet
| ErrTokenUsedBeforeIssued
| ErrTokenInvalidAudience
| ErrTokenInvalidIssuer
| ErrKeyNotFound
| ErrTokenSignatureInvalid
| ErrTokenUnverifiable.

#[export] Instance sentinel_eq_dec : EqDecision sentinel.
Proof. solve_decision. Defined.

(** [errors.Is] against a sentinel. *)
Definition Is (err : list sentinel) (s : sentinel) : bool := bool_decide (s ∈ err).

(** github.com/netcracker/qubership-core-lib-go security/token. *)
Class TokenLib := {
  Token : Type;
  GetSubject : Token -> option string;
  IsKubernetesToken : Token -> bool;
  GetKubernetesSubject : string -> string -> string;
  kid_of : Token -> option string }.

(** The sub claim of a ServiceAccount's token. *)
Class TokenLibLaws `{TokenLib} := {
  kubernetes_subject : forall ns name,
    GetKubernetesSubject ns name = "system:serviceaccount:" +:+ ns +:+ ":" +:+ name }.

(** The router of the platform's app: whether a registered verb serves a
    method, what a pattern binds [:domain] to on a path (the empty string for
    a pattern without one), and whether a path is under a group. *)
Class Router := {
  verb_serves : string -> string -> bool;
  pattern_binds : string -> string -> option string;
  path_under : string -> string -> bool }.

(** A verb serves itself, and GET serves HEAD. *)
Class RouterLaws `{Router} := {
  verb_serves_spec : forall verb method,
    verb_serves verb method = true <-> method = verb \/ (verb = "GET" /\ method = "HEAD") }.

(** *** m2m/verifier.go *)

Section keys.
Context `{TokenLib}.

(** [held] are the key ids of the cached key set, [None] when it cannot be
    read. *)
Definition unknown (held : option (list string)) (token : Token) (err : list sentinel) : list sentinel :=
  if bool_decide (err = []) || Is err ErrKeyNotFound then err
  else match kid_of token with
  | None => err
  | Some kid =>
      match held with
      | None => err
      | Some held => if bool_decide (kid ∈ held) then err else ErrKeyNotFound :: err
      end
  end.

(** The key function: the key the source finds, and its error named. *)
Definition KeyfuncCtx {K} (lookup : Token -> option K * list sentinel) (held : option (list string)) (token : Token)
    : option K * list sentinel :=
  let '(key, err) := lookup token in (key, unknown held token err).
End keys.

(** *** settings.go *)

(** The regular expressions of the two halves of a callers entry: at most
    [most] characters after the first. *)
Definition dns_name (inner : ascii -> bool) (most : nat) (s : string) : bool :=
  let alnum c := is_lower c || is_digit c in
  match s with
  | EmptyString => false
  | String c r =>
      alnum c && (String.length r <=? most)%nat && all_chars (fun c => alnum c || inner c) r
      && match last_char s with Some l => alnum l | None => false end
  end.

Definition namespaceName : string -> bool := dns_name (fun c => bool_decide (c = "-")%char) 62.
Definition serviceAccountName : string -> bool :=
  dns_name (fun c => bool_decide (c = "-")%char || bool_decide (c = ".")%char) 252.

Definition csv (value : string) : list string :=
  filter (fun item => item <> "") (TrimSpace <$> Split "," value).

(** One entry: its namespace and its name. *)
Definition caller_entry (namespace entry : string) : string * string :=
  let '(ns, name, qualified) := Cut "/" entry in
  if qualified then (ns, name) else (namespace, entry).

Definition entry_valid (e : string * string) : bool := namespaceName e.1 && serviceAccountName e.2.

(** The callers, and the entries reported through [warn]. *)
Definition ManagementCallers `{TokenLib} (namespace raw : string) : list string * list string :=
  let entries := csv raw in
  ((fun e => GetKubernetesSubject e.1 e.2) <$> filter (fun e => entry_valid e = true) (caller_entry namespace <$> entries),
   filter (fun entry => entry_valid (caller_entry namespace entry) = false) entries).

Definition ManagementGatewayDomains (raw : string) : list string := csv raw.

Definition DefaultManagementAudience : string := "netcracker".

(** [raw] is [None] for an unset property; the flag is the report through
    [warn]. *)
Definition ManagementAudience (raw : option string) : string * bool :=
  let audience := TrimSpace (default DefaultManagementAudience raw) in
  if bool_decide (audience = "") then (DefaultManagementAudience, true) else (audience, false).

(** [strconv.ParseBool] *)
Definition ParseBool (s : string) : option bool :=
  if bool_decide (s ∈ ["1"; "t"; "T"; "TRUE"; "true"; "True"]) then Some true
  else if bool_decide (s ∈ ["0"; "f"; "F"; "FALSE"; "false"; "False"]) then Some false
  else None.

Definition IETFHeaders (raw : string) : bool * bool :=
  if bool_decide (raw = "") then (true, false)
  else match ParseBool raw with Some enabled => (enabled, false) | None => (true, true) end.

Definition RequiredEvictionPolicy : string := "noeviction".

(** [values] is what CONFIG GET answers, [None] its error; the error of the
    check is the policy found, or none when it could not be read. *)
Definition CheckEviction (values : option (gmap string string)) : result (option string) unit :=
  match values with
  | None => Err None
  | Some values =>
      let policy := default "" (values !! "maxmemory-policy") in
      if negb (bool_decide (policy = RequiredEvictionPolicy)) then Err (Some policy) else Ok tt
  end.

(** *** m2m/verifier.go: the verifier's construction *)

Definition leeway : Z := 30 * Second.
Definition signingMethods : list string := ["RS256"; "RS384"; "RS512"; "PS256"; "PS384"; "PS512"; "ES256"; "ES384"; "ES512"].

(** encoding/json of the claims and the discovery document, the platform's
    discovery URL, and the two calls to the API server: a response is its
    status and body. A call carries the Authorization header it is sent
    with. *)
Class Cluster := {
  read_issuer : string -> option string;
  GetProviderUrl : string -> option string;
  decode_provider : string -> option string;
  http_get : string -> option string -> option (Z * string);
  fetch_keys : string -> option string -> option (list string) }.

Inductive build_error :=
| ErrOwnToken
| ErrNotJWT
| ErrPayload
| ErrClaims
| ErrNoIssuer
| ErrDiscoveryURL
| ErrDiscovery
| ErrDiscoveryStatus (status : Z)
| ErrDiscoveryBody
| ErrNoJwksUri
| ErrKeySet (uri : string).

(** The token is read where it is used; transport, time limits and the log are
    the library's. *)
Record Config := mkConfig { cf_Audience : string; cf_Anonymous : bool }.

(** What the parser of the verifier requires, and the key set it looks keys up
    in. *)
Record verifier_rules := mkVerifierRules {
  vr_Methods : list string;
  vr_ExpirationRequired : bool;
  vr_Leeway : Z;
  vr_Issuer : string;
  vr_Audience : string;
  vr_IssuedAtChecked : bool;
  vr_Keys : list string }.

Section construction.
Context `{Cluster}.

Definition issuerOf (own : string) : result build_error string :=
  match Split "." own with
  | [_; payload; _] =>
      match DecodeString false payload with
      | None => Err ErrPayload
      | Some claims =>
          match read_issuer claims with
          | None => Err ErrClaims
          | Some issuer => if bool_decide (issuer = "") then Err ErrNoIssuer else Ok issuer
          end
      end
  | _ => Err ErrNotJWT
  end.

(** [bearer.RoundTrip]: the header of a request; [own] is the token as read for
    it, [None] when it cannot be. *)
Definition RoundTrip (cfg : Config) (own : option string) : result build_error (option string) :=
  if negb (cf_Anonymous cfg) then
    match own with None => Err ErrOwnToken | Some own => Ok (Some ("Bearer " +:+ own)) end
  else Ok None.

Definition discover (cfg : Config) (own : option string) (issuer : string) : result build_error string :=
  match GetProviderUrl issuer with
  | None => Err ErrDiscoveryURL
  | Some url =>
      let? header := RoundTrip cfg own in
      match http_get url header with
      | None => Err ErrDiscovery
      | Some (status, body) =>
          if negb (status =? 200) then Err (ErrDiscoveryStatus status)
          else match decode_provider (take_str (Z.to_nat (2 ^ 20)) body) with
          | None => Err ErrDiscoveryBody
          | Some uri => if bool_decide (uri = "") then Err ErrNoJwksUri else Ok uri
          end
      end
  end.

(** [own i] is the pod's token at its [i]-th reading: the kubelet rotates
    it. *)
Definition NewVerifier (cfg : Config) (own : nat -> option string) : result build_error verifier_rules :=
  match own 0%nat with
  | None => Err ErrOwnToken
  | Some token =>
      let? issuer := issuerOf token in
      let? uri := discover cfg (own 1%nat) issuer in
      let? header := RoundTrip cfg (own 2%nat) in
      match fetch_keys uri header with
      | None => Err (ErrKeySet uri)
      | Some keys => Ok (mkVerifierRules signingMethods true leeway issuer (cf_Audience cfg) true keys)
      end
  end.
End construction.

(** *** identity.go *)

Definition RoleViewer : string := "viewer".
Definition RoleOperator : string := "operator".

Record Subject := mkSubject { su_Name : string; su_Roles : list string }.

Definition Can (s : Subject) (role : string) : bool :=
  existsb (fun held => bool_decide (held = role) || bool_decide (held = RoleOperator)) (su_Roles s).

Definition refusal (err : list sentinel) : string :=
  if Is err ErrTokenMalformed then "the bearer token is not a well-formed JWT"
  else if Is err ErrTokenExpired then "the bearer token has expired"
  else if Is err ErrTokenNotValidYet || Is err ErrTokenUsedBeforeIssued then "the bearer token is not valid yet"
  else if Is err ErrTokenInvalidAudience then "the bearer token is not issued for the audience of this API"
  else if Is err ErrTokenInvalidIssuer then "the bearer token was not issued by this cluster"
  else if Is err ErrKeyNotFound then "the bearer token is signed with a key this cluster does not hold"
  else if Is err ErrTokenSignatureInvalid || Is err ErrTokenUnverifiable
  then "the signature of the bearer token could not be verified"
  else "the bearer token was not accepted".

(** [strings.EqualFold] of the scheme and Bearer, which has no letter a
    character outside ASCII folds to. *)
Definition bearerToken (header : string) : option string :=
  if bool_decide (header = "") then None
  else
    let '(scheme, raw, found) := Cut " " header in
    if negb found || negb (EqualFold scheme "bearer") then None
    else let raw := TrimSpace raw in if bool_decide (raw = "") then None else Some raw.

(** *** The requests *)

Record http_request := mkHttpRequest {
  rq_Method : string;
  rq_Path : string;
  rq_Authorization : string;
  rq_RequestID : string;
  rq_Body : string }.

Inductive endpoint :=
| EDomains | ERules | ECounters | EReset | EBulkReset | ESimulation | EStatus | ESpecification.

#[export] Instance endpoint_eq_dec : EqDecision endpoint.
Proof. solve_decision. Defined.

(** What becomes of a request: a refusal with its detail, or the handler of an
    endpoint with the bound domain and the caller. *)
Inductive disposition :=
| Refused (e : apiError) (detail : string)
| Handled (e : endpoint) (domain : string) (caller : Subject).

Definition BasePath : string := "/ratelimit/v1".
Definition RequestIDHeader : string := "X-Request-Id".

Record route := mkEndpointRoute { ro_Verb : string; ro_Pattern : string; ro_Role : string; ro_Endpoint : endpoint }.

(** The routes of [Register], in its order. *)
Definition Register_routes : list route :=
  [ mkEndpointRoute "GET" "/domains" RoleViewer EDomains;
    mkEndpointRoute "GET" "/domains/:domain/rules" RoleViewer ERules;
    mkEndpointRoute "GET" "/domains/:domain/counters" RoleViewer ECounters;
    mkEndpointRoute "DELETE" "/domains/:domain/counters" RoleOperator EReset;
    mkEndpointRoute "POST" "/domains/:domain/counter-resets" RoleOperator EBulkReset;
    mkEndpointRoute "POST" "/simulations" RoleViewer ESimulation;
    mkEndpointRoute "GET" "/status" RoleViewer EStatus;
    mkEndpointRoute "GET" "/openapi.yaml" RoleViewer ESpecification ].

Section access.
Context `{TokenLib} `{Router}.

(** [Verifier.Verify] at the time of a request. *)
Abbreviation Verifier := (string -> result (list sentinel) Token).

(** [withRequestID] *)
Definition withRequestID (q : http_request) : result (apiError * string) unit :=
  if negb (bool_decide (rq_RequestID q = "")) && negb (requestIDPattern (rq_RequestID q))
  then Err (invalid [RequestIDHeader], "the X-Request-Id header does not match")
  else Ok tt.

(** [withIdentity] *)
Definition withIdentity (callers : list string) (verifier : option Verifier) (q : http_request)
    : result (apiError * string) Subject :=
  match verifier with
  | None => Err (verifierUnavailable, "the token verifier is not ready")
  | Some verify =>
      match bearerToken (rq_Authorization q) with
      | None =>
          Err (errorf CodeUnauthorized [], "no bearer token on the request; send a Kubernetes ServiceAccount token")
      | Some raw =>
          match verify raw with
          | Err err => Err (errorf CodeUnauthorized [], refusal err)
          | Ok verified =>
              let name := default "" (GetSubject verified) in
              if bool_decide (name = "") || negb (IsKubernetesToken verified)
              then Err (errorf CodeUnauthorized [], "the bearer token is not a Kubernetes ServiceAccount token")
              else Ok (mkSubject name (if bool_decide (name ∈ callers) then [RoleOperator] else []))
          end
      end
  end.

(** [requireRole] *)
Definition requireRole (role : string) (s : Subject) (q : http_request) : result (apiError * string) unit :=
  if Can s role then Ok tt
  else Err (errorf CodeForbidden [],
            "subject " +:+ logSafe (su_Name s) +:+ " lacks the " +:+ role +:+ " role for "
            +:+ rq_Method q +:+ " " +:+ logSafe (rq_Path q)).

(** The first route of the method and path, with its domain. *)
Fixpoint find_route (routes : list route) (q : http_request) : option (route * string) :=
  match routes with
  | [] => None
  | r :: routes =>
      if verb_serves (ro_Verb r) (rq_Method q) then
        match pattern_binds (BasePath +:+ ro_Pattern r) (rq_Path q) with
        | Some domain => Some (r, domain)
        | None => find_route routes q
        end
      else find_route routes q
  end.

Definition noEndpoint (q : http_request) : apiError * string :=
  (notFound, "no endpoint serves " +:+ rq_Method q +:+ " on this path").

(** The handlers of the group behind its middleware, and what is under it and
    not served. *)
Definition group_serve (callers : list string) (verifier : option Verifier) (q : http_request)
    : result (apiError * string) (endpoint * string * Subject) :=
  let? _ := withRequestID q in
  let? s := withIdentity callers verifier q in
  match find_route Register_routes q with
  | None => Err (noEndpoint q)
  | Some (r, domain) => let? _ := requireRole (ro_Role r) s q in Ok (ro_Endpoint r, domain, s)
  end.

(** The app of [NewApp]: an oversized body is cut before anything runs, and a
    path outside the API is answered behind the check of the id alone. *)
Definition NewApp_serve (callers : list string) (verifier : option Verifier) (q : http_request) : disposition :=
  if len (rq_Body q) >? maxRequestBody
  then Refused (invalid []) "the request body is larger than the 1048576 bytes this API accepts"
  else
    match (if path_under BasePath (rq_Path q) then group_serve callers verifier q
           else let? _ := withRequestID q in Err (noEndpoint q)) with
    | Ok (e, domain, s) => Handled e domain s
    | Err (e, detail) => Refused e detail
    end.

End access.

(** *** The verifier's construction *)

Definition verifierRetryFirst : Z := Second.
Definition verifierRetryMax : Z := 60 * Second.

(** The loop of [buildVerifier] from its [i]-th attempt: an attempt started at
    an instant takes some time and returns a verifier or an error; [done] is
    when the context ends. The answer is the instant and the verifier that is
    installed; [None] in it is the end of the context. *)
Fixpoint build_loop {V} (fuel : nat) (attempt : nat -> Z -> Z * option V) (done : option Z) (i : nat) (t delay : Z)
    : option (option (Z * V)) :=
  match fuel with
  | O => None
  | S fuel =>
      let '(took, r) := attempt i t in
      match r with
      | Some v => Some (Some (t + took, v))
      | None =>
          let next := t + took + delay in
          if match done with Some d => d <=? next | None => false end then Some None
          else build_loop fuel attempt done (S i) next (Z.min (2 * delay) verifierRetryMax)
      end
  end.

(** [buildVerifier], with the absent builder that never makes one. *)
Definition buildVerifier {V} (fuel : nat) (attempt : option (nat -> Z -> Z * option V)) (done : option Z) (t : Z)
    : option (option (Z * V)) :=
  match attempt with
  | None => Some None
  | Some attempt => build_loop fuel attempt done 0 t verifierRetryFirst
  end.

(** The pointer a request loads at an instant. *)
Definition verifier_at {V} (built : option (Z * V)) (t : Z) : option V :=
  match built with Some (since, v) => if since <=? t then Some v else None | None => None end.

(** ** Reference definitions *)

(** The ServiceAccount [n]/[m] is named in the callers of [namespace]. *)
Definition named (namespace raw n m : string) : Prop :=
  namespaceName n = true /\ serviceAccountName m = true /\
  exists piece, piece ∈ Split "," raw /\ (TrimSpace piece = n +:+ "/" +:+ m \/ (n = namespace /\ TrimSpace piece = m)).

(** ** Lemmas *)

Lemma all_chars_without f c s : f c = false -> all_chars f s = true -> contains_char c s = false.
Proof.
  intros Hc. induction s as [|d s IH]; cbn [all_chars contains_char]; [done|].
  intros [Hd Hs]%andb_true_iff. rewrite IH by done. rewrite orb_false_r.
  apply bool_decide_eq_false. intros ->. congruence.
Qed.

Lemma dns_name_without inner most c s :
  is_lower c || is_digit c || inner c = false -> dns_name inner most s = true -> contains_char c s = false.
Proof.
  intros Hc. destruct s as [|d r]; [done|]. cbn [dns_name]. intros H. apply andb_true_iff in H as [H _].
  apply andb_true_iff in H as [H Hr]. apply andb_true_iff in H as [Hd _].
  apply (all_chars_without (fun c => is_lower c || is_digit c || inner c)); [done|].
  cbn [all_chars]. by rewrite Hd, Hr.
Qed.

Lemma namespaceName_without c s : c = ":"%char \/ c = "/"%char -> namespaceName s = true -> contains_char c s = false.
Proof. intros [-> | ->]; by apply dns_name_without. Qed.

Lemma serviceAccountName_without s : serviceAccountName s = true -> contains_char "/"%char s = false /\ s <> "".
Proof. intros H. split; [by eapply dns_name_without; [|exact H]|]. by intros ->. Qed.

Lemma Cut_unqualified c s : contains_char c s = false -> Cut c s = (s, "", false).
Proof.
  induction s as [|d s IH]; cbn [contains_char Cut]; [done|]. intros [Hd Hs]%orb_false_iff.
  apply bool_decide_eq_false in Hd. rewrite IH by done. rewrite bool_decide_false by congruence. done.
Qed.

Lemma elem_of_csv item raw : item ∈ csv raw <-> item <> "" /\ exists piece, piece ∈ Split "," raw /\ TrimSpace piece = item.
Proof.
  unfold csv. rewrite list_elem_of_filter, list_elem_of_fmap. split; intros [? (p & ? & ?)]; (split; [done|]); exists p; done.
Qed.

Lemma caller_entry_spec namespace entry n m :
  namespaceName n = true -> serviceAccountName m = true ->
  caller_entry namespace entry = (n, m) <-> entry = n +:+ "/" +:+ m \/ (n = namespace /\ entry = m).
Proof.
  intros Hn Hm. unfold caller_entry. destruct (Cut "/" entry) as [[b a] f] eqn:E.
  destruct (Cut_spec _ _ _ _ _ E) as [Hb Hf]. destruct (serviceAccountName_without m Hm) as [Hm' _].
  pose proof (namespaceName_without "/"%char n ltac:(by right) Hn) as Hn'. destruct f; [subst entry|destruct Hf as [-> ->]].
  - split; [intros [= -> ->]; by left|]. intros [He|[_ He]].
    + by apply (app_sep_inj "/"%char b n a m) in He as [-> ->].
    + exfalso. rewrite <- He, contains_char_app in Hm'. cbn in Hm'. rewrite orb_true_r in Hm'. done.
  - split; [intros [= -> ->]; by right|]. intros [->|[-> ->]]; [|done].
    exfalso. rewrite contains_char_app in Hb. cbn in Hb. rewrite orb_true_r in Hb. done.
Qed.

(** The callers are the ServiceAccounts the property names. *)
Lemma callers_spec `{TokenLib} namespace raw x :
  x ∈ (ManagementCallers namespace raw).1 <-> exists n m, named namespace raw n m /\ x = GetKubernetesSubject n m.
Proof.
  unfold ManagementCallers. cbn [fst]. rewrite list_elem_of_fmap. setoid_rewrite list_elem_of_filter.
  setoid_rewrite list_elem_of_fmap. unfold entry_valid. split.
  - intros ([n m] & -> & [Hv (entry & He & Hin)]). cbn [fst snd] in *. apply andb_true_iff in Hv as [Hn Hm].
    exists n, m. split; [|done]. symmetry in He. apply (caller_entry_spec namespace entry n m Hn Hm) in He.
    apply elem_of_csv in Hin as (_ & piece & Hp & Ht). split_and!; [done..|]. exists piece. by rewrite Ht.
  - intros (n & m & (Hn & Hm & piece & Hp & Ht) & ->). exists (n, m). cbn [fst snd]. rewrite Hn, Hm.
    split_and!; [done..|]. exists (TrimSpace piece). split; [symmetry; by apply (caller_entry_spec _ _ n m Hn Hm)|].
    apply elem_of_csv. split; [|by exists piece]. destruct (serviceAccountName_without m Hm) as [_ Hne].
    intros Hnil. rewrite Hnil in Ht. destruct Ht as [Ht|[_ Ht]]; [|done]. by destruct n.
Qed.

(** A subject names one ServiceAccount. *)
Lemma subject_injective `{TokenLibLaws} n m n' m' :
  namespaceName n = true -> namespaceName n' = true ->
  GetKubernetesSubject n m = GetKubernetesSubject n' m' -> n = n' /\ m = m'.
Proof.
  intros Hn Hn'. rewrite !kubernetes_subject. intros He. apply (inj (String.app _)) in He.
  apply (app_sep_inj ":"%char n n' m m'); [by apply namespaceName_without; [left|]..|exact He].
Qed.

(** No token is accepted for an audience of spaces. *)
Lemma audience_trimmed raw : (ManagementAudience raw).1 <> "".
Proof. unfold ManagementAudience. case_bool_decide; [done|]. done. Qed.

(** Anonymous, the verifier does not depend on what the token reads as once
    its issuer is known: no request carries it. *)
Lemma anonymous_sends_no_token `{Cluster} cfg own own' :
  cf_Anonymous cfg = true -> own 0%nat = own' 0%nat -> NewVerifier cfg own = NewVerifier cfg own'.
Proof.
  intros Ha H0. unfold NewVerifier, discover, RoundTrip. rewrite H0, Ha. done.
Qed.

(** A verifier requires the pod's own issuer and the configured audience, and
    holds the keys of that issuer's discovery. *)
Lemma NewVerifier_ok `{Cluster} cfg own v :
  NewVerifier cfg own = Ok v ->
  exists token uri header, own 0%nat = Some token /\ issuerOf token = Ok (vr_Issuer v) /\ vr_Issuer v <> "" /\
    discover cfg (own 1%nat) (vr_Issuer v) = Ok uri /\ uri <> "" /\ fetch_keys uri header = Some (vr_Keys v) /\
    vr_Audience v = cf_Audience cfg /\ "none" ∉ vr_Methods v /\ "HS256" ∉ vr_Methods v.
Proof.
  unfold NewVerifier. destruct (own 0%nat) as [token|]; [|done].
  destruct (issuerOf token) as [issuer|] eqn:Ei; [|done]. destruct (discover cfg (own 1%nat) issuer) as [uri|] eqn:Ed; [|done].
  destruct (RoundTrip cfg (own 2%nat)) as [header|]; [|done]. destruct (fetch_keys uri header) as [keys|] eqn:Ek; [|done].
  intros [= <-]. exists token, uri, header. cbn. split_and!; try done.
  - intros ->. unfold issuerOf in Ei. repeat case_match; simplify_eq; done.
  - intros ->. unfold discover in Ed. repeat case_match; simplify_eq; done.
  - unfold signingMethods. set_solver.
  - unfold signingMethods. set_solver.
Qed.

(** Every turn of the loop that does not end it takes a second at least. *)
Definition turns_until (stop t : Z) : nat := Z.to_nat ((stop - t) / Second + 1).

Lemma turns_until_next stop t t' fuel :
  t < stop -> t + Second <= t' -> (turns_until stop t < S fuel)%nat -> (turns_until stop t' < fuel)%nat.
Proof.
  intros Hlt Ht Hf. unfold turns_until in *.
  assert (0 <= (stop - t) / Second) by (apply Z.div_pos; unfold Second; lia).
  assert ((stop - t') / Second <= (stop - t) / Second - 1); [|lia].
  replace ((stop - t) / Second - 1) with ((stop - t + (-1) * Second) / Second) by (rewrite Z_div_plus_full by done; lia).
  apply Z.div_le_mono; unfold Second in *; lia.
Qed.

(** The waits of the loop. *)
Lemma next_delay delay :
  verifierRetryFirst <= delay <= verifierRetryMax ->
  verifierRetryFirst <= Z.min (2 * delay) verifierRetryMax <= verifierRetryMax.
Proof. unfold verifierRetryFirst, verifierRetryMax, Second. lia. Qed.

Lemma build_recovers {V} (attempt : nat -> Z -> Z * option V) T D :
  (forall i s, 0 <= (attempt i s).1 <= D) -> (forall i s, T <= s -> is_Some (attempt i s).2) ->
  forall fuel i t delay, verifierRetryFirst <= delay <= verifierRetryMax -> (turns_until T t < fuel)%nat ->
  exists since v, build_loop fuel attempt None i t delay = Some (Some (since, v)) /\
    t <= since <= Z.max t (T + D + verifierRetryMax) + D.
Proof.
  intros HD HT. induction fuel as [|fuel IH]; intros i t delay Hd Hf; [lia|]. cbn [build_loop].
  pose proof (HD i t) as Htook. pose proof (HT i t) as Hok. destruct (attempt i t) as [took [v|]]; cbn [fst snd] in *.
  { exists (t + took), v. split; [done|lia]. }
  assert (t < T) as Hlt. { destruct (Z.le_gt_cases T t) as [Hle|]; [|lia]. by destruct (Hok Hle). }
  destruct (IH (S i) (t + took + delay) _ (next_delay delay Hd)) as (since & v & Hb & Hs).
  { apply (turns_until_next T t); [done| |done]. unfold verifierRetryFirst in Hd. lia. }
  exists since, v. split; [done|]. unfold verifierRetryFirst, Second in Hd. lia.
Qed.

Lemma build_ends {V} (attempt : nat -> Z -> Z * option V) D :
  (forall i s, 0 <= (attempt i s).1 <= D) ->
  forall fuel i t delay stop, verifierRetryFirst <= delay <= verifierRetryMax -> (turns_until stop t < fuel)%nat ->
  is_Some (build_loop fuel attempt (Some stop) i t delay).
Proof.
  intros HD. induction fuel as [|fuel IH]; intros i t delay stop Hd Hf; [lia|]. cbn [build_loop].
  pose proof (HD i t) as Htook. destruct (attempt i t) as [took [v|]]; cbn [fst snd] in *; [by eexists|].
  destruct (Z.leb_spec stop (t + took + delay)); [by eexists|]. apply IH; [by apply next_delay|].
  apply (turns_until_next stop t); [unfold verifierRetryFirst, Second in Hd; lia| |done]. unfold verifierRetryFirst in Hd. lia.
Qed.

(** A token signed with a key the cached set does not hold is refused in those
    words, whatever ended the lookup: the parser refuses it as unverifiable
    with the key function's error in its chain. *)
Lemma unknown_key_named `{TokenLib} {K} (lookup : Token -> option K * list sentinel) held kid token err :
  kid_of token = Some kid -> kid ∉ held -> (lookup token).2 <> [] ->
  Forall (fun s => s = ErrKeyNotFound \/ s = ErrTokenSignatureInvalid \/ s = ErrTokenUnverifiable) (lookup token).2 ->
  err = ErrTokenUnverifiable :: (KeyfuncCtx lookup (Some held) token).2 ->
  refusal err = "the bearer token is signed with a key this cluster does not hold".
Proof.
  intros Hk Hh Hne Hall ->. unfold KeyfuncCtx. destruct (lookup token) as [key e]. cbn [snd] in *.
  assert (Forall (fun s => s = ErrKeyNotFound \/ s = ErrTokenSignatureInvalid \/ s = ErrTokenUnverifiable) (unknown (Some held) token e)
          /\ ErrKeyNotFound ∈ unknown (Some held) token e) as [Hf Hin].
  { unfold unknown, Is. rewrite (bool_decide_false (e = [])) by done. cbn [orb].
    destruct (decide (ErrKeyNotFound ∈ e)); [by rewrite bool_decide_true|]. rewrite bool_decide_false by done.
    rewrite Hk, bool_decide_false by done. split; [by constructor; [left|]|by left]. }
  unfold refusal, Is. rewrite Forall_forall in Hf.
  rewrite !bool_decide_false by (intros [?|Hs]%elem_of_cons; [done|]; destruct (Hf _ Hs) as [|[|]]; done).
  rewrite bool_decide_true by (by right). done.
Qed.

Section served.
Context `{TokenLibLaws} `{RouterLaws}.

Lemma withRequestID_ok q : withRequestID q = Ok tt <-> rq_RequestID q = "" \/ requestIDPattern (rq_RequestID q) = true.
Proof.
  unfold withRequestID. destruct (decide (rq_RequestID q = "")) as [->|Hne]; [by split; [left|]|].
  rewrite bool_decide_false by done. cbn [negb andb].
  destruct (requestIDPattern (rq_RequestID q)); cbn [negb]; split; try done; [by right|by intros [|]].
Qed.

Lemma withIdentity_ok callers verifier q s :
  withIdentity callers verifier q = Ok s <->
  exists verify raw token,
    verifier = Some verify /\ bearerToken (rq_Authorization q) = Some raw /\ verify raw = Ok token /\
    GetSubject token = Some (su_Name s) /\ su_Name s <> "" /\ IsKubernetesToken token = true /\
    su_Roles s = (if bool_decide (su_Name s ∈ callers) then [RoleOperator] else []).
Proof.
  unfold withIdentity. split.
  - destruct verifier as [verify|]; [|done]. destruct (bearerToken _) as [raw|]; [|done].
    destruct (verify raw) as [token|] eqn:Ev; [|done].
    destruct (GetSubject token) as [name|] eqn:Es; cbn [default from_option id]; [|done].
    destruct (decide (name = "")); [by rewrite bool_decide_true|]. rewrite bool_decide_false by done.
    destruct (IsKubernetesToken token) eqn:Ek; [|done]. cbn [orb negb]. intros [= <-]. exists verify, raw, token. done.
  - intros (verify & raw & token & -> & -> & -> & -> & Hne & -> & Hr). cbn [default from_option id orb negb].
    rewrite bool_decide_false by done. cbn [orb]. rewrite <- Hr. by destruct s.
Qed.

Lemma listed_can role name : Can (mkSubject name [RoleOperator]) role = true.
Proof. unfold Can. cbn. rewrite (bool_decide_true (RoleOperator = RoleOperator)) by done. by rewrite orb_true_r. Qed.

Lemma unlisted_cannot role name : Can (mkSubject name []) role = false.
Proof. done. Qed.

(** A role decides alike for every endpoint: the listed callers hold all of
    them. *)
Lemma requireRole_ok (callers : list string) name role q :
  requireRole role (mkSubject name (if bool_decide (name ∈ callers) then [RoleOperator] else [])) q = Ok tt <-> name ∈ callers.
Proof.
  unfold requireRole. destruct (decide (name ∈ callers)).
  - rewrite bool_decide_true, listed_can by done. done.
  - rewrite bool_decide_false, unlisted_cannot by done. done.
Qed.

Lemma group_serve_ok callers verifier q e domain s :
  group_serve callers verifier q = Ok (e, domain, s) <->
  withRequestID q = Ok tt /\ withIdentity callers verifier q = Ok s /\ su_Name s ∈ callers /\
  exists r, find_route Register_routes q = Some (r, domain) /\ ro_Endpoint r = e.
Proof.
  unfold group_serve. destruct (withRequestID q) as [[]|]; [|by split; [|intros [? _]]].
  destruct (withIdentity callers verifier q) as [s'|] eqn:Ei; [|by split; [|intros (_ & ? & _)]].
  pose proof (proj1 (withIdentity_ok _ _ _ _) Ei) as (_ & _ & _ & _ & _ & _ & _ & _ & _ & Hroles).
  assert (s' = mkSubject (su_Name s') (if bool_decide (su_Name s' ∈ callers) then [RoleOperator] else [])) as Hs.
  { rewrite <- Hroles. by destruct s'. }
  destruct (find_route _ q) as [[r d]|]; [|split; [done|by intros (_ & _ & _ & ? & ? & _)]].
  pose proof (requireRole_ok callers (su_Name s') (ro_Role r) q) as Hr. rewrite <- Hs in Hr.
  destruct (requireRole (ro_Role r) s' q) as [[]|] eqn:Er.
  - split; [intros [= <- <- <-]|intros (_ & [= <-] & _ & r' & [= <- <-] & <-); done].
    split_and!; [done..|by apply Hr|]. by exists r.
  - split; [done|]. intros (_ & [= <-] & Hin & _). by apply Hr in Hin.
Qed.

Lemma find_route_in routes q r domain :
  find_route routes q = Some (r, domain) ->
  r ∈ routes /\ verb_serves (ro_Verb r) (rq_Method q) = true /\
  pattern_binds (BasePath +:+ ro_Pattern r) (rq_Path q) = Some domain.
Proof.
  induction routes as [|r' routes IH]; cbn [find_route]; [done|].
  destruct (verb_serves (ro_Verb r') _) eqn:Ev; [destruct (pattern_binds (BasePath +:+ ro_Pattern r') _) eqn:Ep|].
  1: { intros [= <- <-]. split_and!; [by left|done..]. }
  all: intros Hr; destruct (IH Hr) as (? & ? & ?); (split_and!; [by right|done..]).
Qed.

(** The verb an endpoint is served under. *)
Definition verb_of (e : endpoint) : string :=
  match e with EReset => "DELETE" | EBulkReset | ESimulation => "POST" | _ => "GET" end.

Lemma route_verb q r domain :
  find_route Register_routes q = Some (r, domain) ->
  rq_Method q = verb_of (ro_Endpoint r) \/ (verb_of (ro_Endpoint r) = "GET" /\ rq_Method q = "HEAD").
Proof.
  intros (Hin & Hv & _)%find_route_in. apply verb_serves_spec in Hv.
  assert (ro_Verb r = verb_of (ro_Endpoint r)) as <-; [|done].
  unfold Register_routes in Hin. repeat (apply elem_of_cons in Hin as [->|Hin]; [done|]). by apply elem_of_nil in Hin.
Qed.

Lemma ready_not_unavailable callers verify q e detail :
  NewApp_serve callers (Some verify) q = Refused e detail -> ae_Code e <> CodeVerifierUnavailable.
Proof.
  unfold NewApp_serve, group_serve, withRequestID, withIdentity, requireRole, noEndpoint.
  repeat case_match; intros; simplify_eq; done.
Qed.

(** ** Claims *)

(** C15: The management API runs a handler exactly for the ServiceAccounts
    the callers property names. A handler runs, with the caller's subject,
    exactly when the body is within the limit, the path is under the API, the
    request id is absent or safe, a verifier is installed and accepts the
    bearer token, the token is a Kubernetes one whose subject is that of a
    ServiceAccount named in the property, and a route serves the request; the
    resets run only for DELETE and POST. The subject names that ServiceAccount
    and no other. And a request whose caller is not established is answered
    alike whatever it asks for. *)
Theorem management_access_exact namespace raw verifier q :
  let callers := (ManagementCallers namespace raw).1 in
  (forall e domain caller,
     NewApp_serve callers verifier q = Handled e domain caller <->
     len (rq_Body q) <= maxRequestBody /\ path_under BasePath (rq_Path q) = true /\
     (rq_RequestID q = "" \/ requestIDPattern (rq_RequestID q) = true) /\
     (exists verify bearer token n m,
        verifier = Some verify /\ bearerToken (rq_Authorization q) = Some bearer /\ verify bearer = Ok token /\
        IsKubernetesToken token = true /\ GetSubject token = Some (GetKubernetesSubject n m) /\
        named namespace raw n m /\ caller = mkSubject (GetKubernetesSubject n m) [RoleOperator]) /\
     exists r, find_route Register_routes q = Some (r, domain) /\ ro_Endpoint r = e) /\
  (forall e domain caller, NewApp_serve callers verifier q = Handled e domain caller ->
     rq_Method q = verb_of e \/ (verb_of e = "GET" /\ rq_Method q = "HEAD")) /\
  (forall n m n' m', named namespace raw n m -> named namespace raw n' m' ->
     GetKubernetesSubject n m = GetKubernetesSubject n' m' -> n = n' /\ m = m') /\
  (forall err detail method path,
     withIdentity callers verifier q = Err (err, detail) -> path_under BasePath path = path_under BasePath (rq_Path q) ->
     path_under BasePath path = true ->
     NewApp_serve callers verifier (mkHttpRequest method path (rq_Authorization q) (rq_RequestID q) (rq_Body q)) =
     NewApp_serve callers verifier q).
Proof.
  intros callers.
  assert (forall e domain caller, NewApp_serve callers verifier q = Handled e domain caller <->
    len (rq_Body q) <= maxRequestBody /\ path_under BasePath (rq_Path q) = true /\
    group_serve callers verifier q = Ok (e, domain, caller)) as Hgroup.
  { intros e domain caller. unfold NewApp_serve. destruct (Z.gtb_spec (len (rq_Body q)) maxRequestBody); [by split; [|lia]|].
    destruct (path_under _ _).
    - destruct (group_serve _ _ _) as [[[??]?]|[??]]; naive_solver.
    - destruct (withRequestID q) as [|[? ?]]; (split; [done|by intros (_ & ? & _)]). }
  split_and!.
  - intros e domain caller. rewrite Hgroup, group_serve_ok, withRequestID_ok, withIdentity_ok. split.
    + intros (Hb & Hp & Hid & (verify & bearer & token & -> & Hb' & Hv & Hs & Hne & Hk & Hr) & Hin & Hroute).
      split_and!; [done..| |done]. rewrite bool_decide_true in Hr by done.
      apply callers_spec in Hin as (n & m & Hn & Hx). exists verify, bearer, token, n, m. rewrite <- Hx.
      split_and!; try done. rewrite <- Hr. by destruct caller.
    + intros (Hb & Hp & Hid & (verify & bearer & token & n & m & -> & Hb' & Hv & Hk & Hs & Hn & ->) & Hroute).
      cbn [su_Name su_Roles]. assert (GetKubernetesSubject n m ∈ callers) as Hin by (apply callers_spec; eauto).
      split_and!; try done. exists verify, bearer, token. rewrite bool_decide_true by done. split_and!; try done.
      by rewrite kubernetes_subject.
  - intros e domain caller (_ & _ & (_ & _ & _ & r & Hr & <-)%group_serve_ok)%Hgroup. by eapply route_verb.
  - intros n m n' m' (Hn & _) (Hn' & _). by apply subject_injective.
  - intros err detail method path Hid Hp Hu. unfold NewApp_serve. cbn [rq_Body rq_Path]. rewrite <- Hp, Hu.
    unfold group_serve, withRequestID. cbn [rq_RequestID]. destruct (_ && _); [done|].
    unfold withIdentity in *. cbn [rq_Authorization]. by rewrite Hid.
Qed.

(** The API recovers once the cluster's discovery answers. When every
    attempt to build the verifier takes at most [D], and those started from
    [T] on succeed, a verifier is installed no later than [D] and a minute
    after [T] and the attempt that follows, whatever failed before; the waits
    stay within a second and a minute. From then on no request is told the
    verifier is unavailable. And when the process ends first, the loop has
    returned. *)
Theorem verifier_recovers callers (attempt : nat -> Z -> Z * option (string -> result (list sentinel) Token)) (T D t : Z) :
  (forall i s, 0 <= (attempt i s).1 <= D) ->
  (forall i s, T <= s -> is_Some (attempt i s).2) ->
  (forall fuel, (turns_until T t < fuel)%nat ->
     exists since verify, buildVerifier fuel (Some attempt) None t = Some (Some (since, verify)) /\
       t <= since <= Z.max t (T + D + verifierRetryMax) + D /\
       forall at_ q e detail, since <= at_ ->
         NewApp_serve callers (verifier_at (Some (since, verify)) at_) q = Refused e detail ->
         ae_Code e <> CodeVerifierUnavailable) /\
  (forall fuel stop, (turns_until stop t < fuel)%nat -> is_Some (buildVerifier fuel (Some attempt) (Some stop) t)).
Proof.
  intros HD HT. split.
  - intros fuel Hf. destruct (build_recovers attempt T D HD HT fuel 0 t verifierRetryFirst) as (since & verify & Hb & Hs).
    { unfold verifierRetryFirst, verifierRetryMax, Second. lia. }
    { done. }
    exists since, verify. split_and!; [done|lia|lia|]. intros at_ q e detail Hat. unfold verifier_at.
    rewrite (proj2 (Z.leb_le since at_)) by done. apply ready_not_unavailable.
  - intros fuel stop Hf. apply (build_ends attempt D HD); [|done]. unfold verifierRetryFirst, verifierRetryMax, Second. lia.
Qed.

End served.

(** ** Witnesses *)

(** Tokens of a demo cluster: the subject, whether it is a Kubernetes token,
    and the key id. *)
#[local] Instance demo_tokens : TokenLib := {|
  Token := string * bool * option string;
  GetSubject := fun t => Some t.1.1;
  IsKubernetesToken := fun t => t.1.2;
  GetKubernetesSubject := fun ns name => "system:serviceaccount:" +:+ ns +:+ ":" +:+ name;
  kid_of := fun t => t.2 |}.

#[local] Instance demo_tokens_laws : TokenLibLaws.
Proof. constructor. done. Qed.

(** Segment by segment; one [:domain] at most. *)
Fixpoint bind_segments (pattern path : list string) (domain : string) : option string :=
  match pattern, path with
  | [], [] => Some domain
  | p :: pattern, s :: path =>
      if HasPrefix p ":" then if bool_decide (s = "") then None else bind_segments pattern path s
      else if bool_decide (p = s) then bind_segments pattern path domain else None
  | _, _ => None
  end.

#[local] Instance demo_router : Router := {|
  verb_serves := fun verb method => bool_decide (method = verb) || (bool_decide (verb = "GET") && bool_decide (method = "HEAD"));
  pattern_binds := fun pattern path => bind_segments (Split "/" pattern) (Split "/" path) "";
  path_under := fun base path => bool_decide (path = base) || HasPrefix path (base +:+ "/") |}.

#[local] Instance demo_router_laws : RouterLaws.
Proof.
  constructor. intros verb method. cbn. rewrite orb_true_iff, andb_true_iff, !bool_decide_eq_true. done.
Qed.

Definition demo_verify (raw : string) : result (list sentinel) Token :=
  if bool_decide (raw = "console-token") then Ok ("system:serviceaccount:ops:console", true, Some "k1")
  else Err [ErrTokenExpired].

Definition demo_delete (authorization : string) : http_request :=
  mkHttpRequest "DELETE" "/ratelimit/v1/domains/edge/counters" authorization "req-1" "".

Definition demo_raw : string := "viewer, ops/console ,Bad/Entry".
Abbreviation demo_callers := ((ManagementCallers "ratelimit" demo_raw).1).

Lemma management_access_exact_witness :
  demo_callers = ["system:serviceaccount:ratelimit:viewer"; "system:serviceaccount:ops:console"] /\
  NewApp_serve demo_callers (Some demo_verify) (demo_delete "Bearer console-token") =
    Handled EReset "edge" (mkSubject "system:serviceaccount:ops:console" [RoleOperator]) /\
  rq_Method (demo_delete "Bearer console-token") = verb_of EReset /\
  NewApp_serve demo_callers (Some demo_verify)
    (mkHttpRequest "GET" "/ratelimit/v1/nowhere" "Bearer old-token" "req-1" "") =
  NewApp_serve demo_callers (Some demo_verify) (demo_delete "Bearer old-token").
Proof.
  assert (NewApp_serve demo_callers (Some demo_verify) (demo_delete "Bearer console-token") =
    Handled EReset "edge" (mkSubject "system:serviceaccount:ops:console" [RoleOperator])) as Hh by (vm_compute; reflexivity).
  split_and!; [vm_compute; reflexivity|exact Hh| |].
  - destruct (management_access_exact "ratelimit" demo_raw (Some demo_verify) (demo_delete "Bearer console-token")) as (_ & Hv & _).
    destruct (Hv _ _ _ Hh) as [|[Hg _]]; [done|discriminate Hg].
  - destruct (management_access_exact "ratelimit" demo_raw (Some demo_verify) (demo_delete "Bearer old-token")) as (_ & _ & _ & Hs).
    apply (Hs (errorf CodeUnauthorized []) "the bearer token has expired" "GET" "/ratelimit/v1/nowhere");
      vm_compute; reflexivity.
Defined.

(** A discovery that does not answer before the 90th second. *)
Definition demo_attempt (i : nat) (s : Z) : Z * option (string -> result (list sentinel) Token) :=
  (10 * Second, if s <? 90 * Second then None else Some demo_verify).

Lemma verifier_recovers_witness :
  exists since verify,
    buildVerifier 92 (Some demo_attempt) None 0 = Some (Some (since, verify)) /\
    90 * Second < since <= 170 * Second.
Proof.
  destruct (verifier_recovers demo_callers demo_attempt (90 * Second) (10 * Second) 0) as [Hr _].
  - intros i s. unfold demo_attempt, Second. cbn [fst]. lia.
  - intros i s Hs. unfold demo_attempt. cbn [snd]. destruct (Z.ltb_spec s (90 * Second)); [lia|by eexists].
  - destruct (Hr 92%nat) as (since & verify & Hb & Hs & _); [vm_compute; lia|].
    exists since, verify. split; [exact Hb|]. split; [|unfold verifierRetryMax, Second in *; lia].
    vm_compute in Hb. injection Hb as <- _. done.
Defined.
