(* ===== verification/CounterConn.v ===== *)
(** * The connection to the counter store

    service/internal/redisconn/redisconn.go: the connection properties and the
    source that keeps the credentials current; service/internal/settings: the
    dialer that remembers the addresses of its host (dialer.go), and the
    settings read beside it (settings.go). The URL parser is a class; a double
    is its dyadic value. *)
From stdpp Require Import relations.
From S2P Require Import Prelude GoStrings Algo Compile MatchFacts MatchKeys MatchSpec Identity.

(** ** The connection properties *)

Module conn.

(** A value of the untyped map; [VFloat None] is an infinity or not a number,
    [VFloat (Some (m, e))] is [m * 2^e]. *)
Inductive value :=
| VNil
| VBool (b : bool)
| VString (s : string)
| VFloat (f : option (Z * Z))
| VInt (z : Z)
| VOther.

#[export] Instance value_eq_dec : EqDecision value.
Proof. solve_decision. Defined.

Inductive conn_error :=
| ErrTLSOnly
| ErrPort
| ErrNoAddress
| ErrURL
| ErrScheme (scheme : string)
| ErrURLAddress.

(** [url.Parse]: the scheme, the host name and the port of a URL. *)
Class URLs := { url_Parse : string -> option (string * string * string) }.

Record Connection := mkConnection { cn_Host : string; cn_Port : Z; cn_URL : string; cn_Username : string; cn_Password : string }.

(** [net.JoinHostPort] *)
Definition JoinHostPort (host port : string) : string :=
  if contains_char ":" host || contains_char "%" host then "[" +:+ host +:+ "]:" +:+ port else host +:+ ":" +:+ port.

Definition Addr (c : Connection) : string := JoinHostPort (cn_Host c) (pretty (cn_Port c)).

Definition text (v : option value) : string := match v with Some (VString s) => s | _ => "" end.

Definition checkPort (port : Z) : result conn_error Z :=
  if (port <=? 0) || (port >? 65535) then Err ErrPort else Ok port.

(** The integer a double is; a fraction is none. *)
Definition float_int (m e : Z) : option Z :=
  if 0 <=? e then Some (m * 2 ^ e) else if m mod 2 ^ (- e) =? 0 then Some (m / 2 ^ (- e)) else None.

Definition parsePort (raw : value) : result conn_error Z :=
  match raw with
  | VFloat (Some (m, e)) => match float_int m e with Some port => checkPort port | None => Err ErrPort end
  | VInt port => checkPort port
  | VString port => match ParseInt port with Some number => checkPort number | None => Err ErrPort end
  | _ => Err ErrPort
  end.

Section urls.
Context `{URLs}.

Definition fillFromURL (c : Connection) : result conn_error Connection :=
  if bool_decide (cn_URL c = "") then Err ErrNoAddress
  else match url_Parse (cn_URL c) with
  | None => Err ErrURL
  | Some (scheme, hostname, uport) =>
      if negb (bool_decide (scheme = "redis")) then Err (ErrScheme scheme)
      else
        let host := if bool_decide (cn_Host c = "") then hostname else cn_Host c in
        let? port :=
          if (cn_Port c =? 0) && negb (bool_decide (uport = ""))
          then match ParseInt uport with Some p => checkPort p | None => Err ErrPort end
          else Ok (cn_Port c) in
        if bool_decide (host = "") || (port =? 0) then Err ErrURLAddress
        else Ok (mkConnection host port (cn_URL c) (cn_Username c) (cn_Password c))
  end.

Definition Parse (properties : gmap string value) : result conn_error Connection :=
  if bool_decide (properties !! "tls" = Some (VBool true)) || bool_decide (text (properties !! "tls") = "true") then Err ErrTLSOnly
  else
    let? port :=
      match properties !! "port" with
      | None | Some VNil => Ok 0
      | Some raw => parsePort raw
      end in
    let c := mkConnection (text (properties !! "host")) port (text (properties !! "url"))
               (text (properties !! "username")) (text (properties !! "password")) in
    if bool_decide (cn_Host c = "") || (cn_Port c =? 0) then fillFromURL c else Ok c.

(** *** The source *)

(** One call of the resolver: past its deadline, failed, or the properties. *)
Inductive answer := TimedOut | Failed | Answered (properties : gmap string value).

(** [resolve]: [None] is an error. *)
Definition Source_resolve (a : answer) : option Connection :=
  match a with
  | Answered properties => match Parse properties with Ok c => Some c | Err _ => None end
  | _ => None
  end.

(** The connection a replica starts on. *)
Definition Open (a : answer) : option Connection := Source_resolve a.

Definition Credentials (c : Connection) : string * string := (cn_Username c, cn_Password c).

(** [reload]: the current connection, or the error that ends [Run]. *)
Definition reload (a : answer) (current : Connection) : result string Connection :=
  match Source_resolve a with
  | None => Ok current
  | Some next =>
      if negb (bool_decide (Addr next = Addr current)) then Err (Addr next)
      else if bool_decide (Credentials next = Credentials current) then Ok current else Ok next
  end.

(** [Run] over the ticks until the context ends: the connection it leaves, and
    the address the store moved to when that ended it. *)
Fixpoint Run (ticks : list answer) (current : Connection) : Connection * option string :=
  match ticks with
  | [] => (current, None)
  | a :: ticks =>
      match reload a current with
      | Err moved => (current, Some moved)
      | Ok current => Run ticks current
      end
  end.

(** ** Lemmas *)

Definition well_formed (c : Connection) : Prop := cn_Host c <> "" /\ 1 <= cn_Port c <= 65535.

Lemma checkPort_ok p p' : checkPort p = Ok p' -> p' = p /\ 1 <= p <= 65535.
Proof.
  unfold checkPort. destruct (Z.leb_spec p 0); [done|]. destruct (Z.gtb_spec p 65535); [done|]. cbn. intros [= <-]. lia.
Qed.

Lemma parsePort_ok raw p : parsePort raw = Ok p -> 1 <= p <= 65535.
Proof.
  unfold parsePort. destruct raw as [| |s|[[m e]|]|z|]; try done.
  - destruct (ParseInt s); [|done]. intros ?%checkPort_ok. lia.
  - destruct (float_int m e); [|done]. intros ?%checkPort_ok. lia.
  - intros ?%checkPort_ok. lia.
Qed.

Lemma fillFromURL_ok c c' : cn_Port c = 0 \/ 1 <= cn_Port c <= 65535 -> fillFromURL c = Ok c' -> well_formed c'.
Proof.
  intros Hport. unfold fillFromURL. destruct (bool_decide _); [done|]. destruct (url_Parse _) as [[[scheme hostname] uport]|]; [|done].
  destruct (negb _); [done|]. set (host := if bool_decide _ then _ else _). set (r := if _ && _ then _ else _).
  destruct r as [port|] eqn:Er; [|done]. destruct (decide (host = "")) as [->|Hh]; [by rewrite bool_decide_true|].
  rewrite bool_decide_false by done. destruct (Z.eqb_spec port 0); [done|]. cbn [orb]. intros [= <-]. split; [done|]. cbn.
  unfold r in Er. destruct (_ && _).
  - destruct (ParseInt uport); [|done]. apply checkPort_ok in Er. lia.
  - injection Er as <-. lia.
Qed.

Lemma Parse_well_formed properties c : Parse properties = Ok c -> well_formed c.
Proof.
  unfold Parse. destruct (_ || _); [done|]. set (r := match properties !! "port" with None => _ | Some _ => _ end).
  destruct r as [port|] eqn:Er; [|done].
  assert (port = 0 \/ 1 <= port <= 65535) as Hport.
  { unfold r in Er. destruct (properties !! "port") as [[]|]; simplify_eq; try (by left); right; by eapply parsePort_ok. }
  cbn [cn_Host cn_Port]. destruct (decide (text (properties !! "host") = "")) as [Hh|Hh].
  - rewrite bool_decide_true by done. cbn [orb]. by apply fillFromURL_ok.
  - rewrite bool_decide_false by done. cbn [orb]. destruct (Z.eqb_spec port 0); [by apply fillFromURL_ok|].
    intros [= <-]. split; [done|]. cbn. lia.
Qed.

Lemma Source_resolve_well_formed a c : Source_resolve a = Some c -> well_formed c.
Proof.
  destruct a as [| |properties]; cbn [Source_resolve]; [done..|]. destruct (Parse properties) eqn:E; [|done].
  intros [= <-]. by eapply Parse_well_formed.
Qed.

(** The text behind the last separator. *)
Lemma app_last_sep_inj c a b s t :
  contains_char c s = false -> contains_char c t = false -> a +:+ String c s = b +:+ String c t -> a = b /\ s = t.
Proof.
  intros Hs Ht. revert b. induction a as [|x a IH]; intros [|y b] He; simpl in He; simplify_eq.
  - done.
  - exfalso. rewrite contains_char_app in Hs. cbn in Hs. by rewrite bool_decide_true, orb_true_r in Hs.
  - exfalso. rewrite contains_char_app in Ht. cbn in Ht. by rewrite bool_decide_true, orb_true_r in Ht.
  - match goal with H : _ = _ |- _ => by destruct (IH b H) as [-> ->] end.
Qed.

Definition bracketed (h : string) : bool := contains_char ":" h || contains_char "%" h.

Lemma JoinHostPort_alt h p :
  JoinHostPort h p = (if bracketed h then "[" +:+ h +:+ "]" else h) +:+ String ":" p.
Proof. unfold JoinHostPort, bracketed. destruct (_ || _); [|done]. by rewrite !app_str_assoc. Qed.

Lemma bracketed_inside h : bracketed ("[" +:+ h +:+ "]") = bracketed h.
Proof.
  unfold bracketed. rewrite !contains_char_app. cbn. by rewrite !orb_false_r.
Qed.

(** An address determines its host and port. *)
Lemma Addr_inj c c' : 0 <= cn_Port c -> 0 <= cn_Port c' -> Addr c = Addr c' -> cn_Host c = cn_Host c' /\ cn_Port c = cn_Port c'.
Proof.
  intros H0 H0'. unfold Addr. rewrite !JoinHostPort_alt.
  assert (forall z, 0 <= z -> contains_char ":" (pretty z) = false) as Hd.
  { intros z Hz. by apply digits_no_char, pretty_digits. }
  intros [Hh Hp]%app_last_sep_inj; [|by apply Hd..]. apply (inj pretty) in Hp. split; [|done].
  destruct (bracketed (cn_Host c)) eqn:E, (bracketed (cn_Host c')) eqn:E'; [| | |done].
  - injection Hh as Hh. by apply app_str_inj_r in Hh.
  - rewrite <- Hh, bracketed_inside in E'. congruence.
  - rewrite Hh, bracketed_inside in E. congruence.
Qed.

(** ** Reference definitions *)

(** The answers up to the first that names another address. *)
Fixpoint before_move (ticks : list answer) (c : Connection) : list Connection * option Connection :=
  match ticks with
  | [] => ([], None)
  | a :: ticks =>
      match Source_resolve a with
      | None => before_move ticks c
      | Some next =>
          if bool_decide (cn_Host next = cn_Host c /\ cn_Port next = cn_Port c)
          then let '(good, moved) := before_move ticks c in (next :: good, moved)
          else ([], Some next)
      end
  end.

Lemma before_move_address ticks c c' :
  cn_Host c = cn_Host c' -> cn_Port c = cn_Port c' -> before_move ticks c = before_move ticks c'.
Proof.
  intros Hh Hp. induction ticks as [|a ticks IH]; cbn [before_move]; [done|].
  destruct (Source_resolve a); [|done]. by rewrite Hh, Hp, IH.
Qed.

Lemma reload_ok a c : well_formed c ->
  reload a c =
  match Source_resolve a with
  | None => Ok c
  | Some next =>
      if bool_decide (cn_Host next = cn_Host c /\ cn_Port next = cn_Port c)
      then Ok (if bool_decide (Credentials next = Credentials c) then c else next) else Err (Addr next)
  end.
Proof.
  intros [_ Hp]. unfold reload. destruct (Source_resolve a) as [next|] eqn:Ea; [|done].
  destruct (Source_resolve_well_formed a next Ea) as [_ Hp'].
  destruct (decide (cn_Host next = cn_Host c /\ cn_Port next = cn_Port c)) as [[Hh Hpp]|Hne].
  - rewrite (bool_decide_true (_ /\ _)) by done. rewrite bool_decide_true by (unfold Addr; congruence). cbn [negb].
    by destruct (bool_decide _).
  - rewrite (bool_decide_false (_ /\ _)) by done. rewrite bool_decide_false; [done|]. intros He. apply Hne.
    apply Addr_inj; [lia..|done].
Qed.

(** ** Claims *)

(** C22: A replica counts in one store for its lifetime, on a connection
    it can dial. A source that opened holds a host and a port within 1 to
    65535 whatever the later answers of the resolver, at the host and port it
    opened on; its credentials are those of the last answer that resolved, up
    to the first that names another host or port, which ends the run and is
    never connected to. *)
Theorem source_keeps_address (first : answer) (ticks : list answer) (c : Connection) :
  Open first = Some c ->
  let '(current, moved) := Run ticks c in
  let '(good, away) := before_move ticks c in
  well_formed current /\ cn_Host current = cn_Host c /\ cn_Port current = cn_Port c /\
  Credentials current = Credentials (default c (last good)) /\
  moved = Addr <$> away.
Proof.
  intros Hw%Source_resolve_well_formed. clear first. revert c Hw. induction ticks as [|a ticks IH]; intros c Hw; cbn [Run before_move].
  { split_and!; done. }
  rewrite reload_ok by done. destruct (Source_resolve a) as [next|] eqn:Ea; [|by apply IH].
  destruct (decide (cn_Host next = cn_Host c /\ cn_Port next = cn_Port c)) as [[Hh Hp]|Hne].
  2: { rewrite bool_decide_false by done. split_and!; done. }
  rewrite bool_decide_true by done. set (c' := if bool_decide _ then c else next).
  assert (cn_Host c' = cn_Host c /\ cn_Port c' = cn_Port c /\ Credentials c' = Credentials next /\ well_formed c') as (Hh' & Hp' & Hc' & Hw').
  { unfold c'. destruct (decide (Credentials next = Credentials c)) as [E|E]; [rewrite bool_decide_true by done|rewrite bool_decide_false by done].
    - done.
    - split_and!; try done; by eapply Source_resolve_well_formed. }
  specialize (IH c' Hw'). rewrite (before_move_address ticks c' c) in IH by done.
  destruct (Run ticks c') as [current moved]. destruct (before_move ticks c) as [good away].
  destruct IH as (Hw'' & Hh'' & Hp'' & Hc'' & Hm). split_and!; try done; [congruence..|].
  rewrite Hc'', last_cons. destruct (last good); cbn [default from_option id]; [done|congruence].
Qed.
End urls.

(** ** Witnesses *)

(** The URLs redis://host:port of a demo deployment. *)
#[local] Instance demo_urls : URLs := {|
  url_Parse := fun u =>
    match CutPrefix u "redis://" with
    | Some rest => let '(host, port, _) := Cut ":" rest in Some ("redis", host, port)
    | None => None
    end |}.

Definition demo_properties (host password : string) : answer :=
  Answered (<["host" := VString host]> (<["port" := VFloat (Some (6379, 0))]> (<["password" := VString password]> ∅))).

Definition demo_from_url : answer := Answered (<["url" := VString "redis://cache.db:6379"]> (<["password" := VString "one"]> ∅)).

Lemma source_keeps_address_witness :
  exists c, Open demo_from_url = Some c /\ Addr c = "cache.db:6379" /\
    Run [Failed; demo_properties "cache.db" "two"; TimedOut; demo_properties "other.db" "three"] c =
      (mkConnection "cache.db" 6379 "" "" "two", Some "other.db:6379") /\
    well_formed (mkConnection "cache.db" 6379 "" "" "two").
Proof.
  assert (Open demo_from_url = Some (mkConnection "cache.db" 6379 "redis://cache.db:6379" "" "one")) as Ho by (vm_compute; reflexivity).
  exists (mkConnection "cache.db" 6379 "redis://cache.db:6379" "" "one").
  assert (Run [Failed; demo_properties "cache.db" "two"; TimedOut; demo_properties "other.db" "three"]
    (mkConnection "cache.db" 6379 "redis://cache.db:6379" "" "one") =
      (mkConnection "cache.db" 6379 "" "" "two", Some "other.db:6379")) as Hr by (vm_compute; reflexivity).
  split_and!; [exact Ho|vm_compute; reflexivity|exact Hr|].
  pose proof (source_keeps_address demo_from_url [Failed; demo_properties "cache.db" "two"; TimedOut; demo_properties "other.db" "three"] _ Ho) as H.
  rewrite Hr in H. destruct (before_move _ _) as [good away]. apply H.
Defined.

End conn.

(** ** The dialer *)

Module dialer.

(** The results of a lookup and the errors of a dial. *)
Inductive dial_error := ELookup (reason : string) | ENoAddresses | EContext | EDials (errs : list string).

#[export] Instance dial_error_eq_dec : EqDecision dial_error.
Proof. solve_decision. Defined.

(** The dial of one address; the host and port are the split of the client's
    address. *)
Definition Dials (Conn : Type) : Type := string -> result string Conn.

(** The addresses in turn, with the errors of those that did not connect. *)
Fixpoint dial_loop {Conn} (dial : Dials Conn) (port : string) (ips : list string) (errs : list string) : result dial_error Conn :=
  match ips with
  | [] => Err (EDials errs)
  | ip :: ips =>
      match dial (conn.JoinHostPort ip port) with
      | Ok c => Ok c
      | Err e => dial_loop dial port ips (errs ++ [e])
      end
  end.

(** What [addresses] returns: no list is Go's nil slice, no error its nil. *)
Abbreviation found := (option (list string) * option dial_error)%type.

(** [DialContext] past the split: what [addresses] returned decides. *)
Definition DialContext {Conn} (dial : Dials Conn) (port : string) (r : found) : result dial_error Conn :=
  match r with
  | (_, Some e) => Err e
  | (ips, None) => dial_loop dial port (default [] ips) []
  end.

(** A call of [addresses]: waiting on the channel of a lookup, or returned. *)
Inductive call := Waiting (ch : nat) | Returned (r : found).

(** [d_flying] are the lookups that have not returned, [d_returned] those
    between their return and the close of their channel, [d_closed] the closed
    channels. *)
Record dialer := mkDialer {
  d_ips : option (list string);
  d_err : option dial_error;
  d_pending : option nat;
  d_next : nat;
  d_flying : gset nat;
  d_returned : gset nat;
  d_closed : gset nat;
  d_calls : gmap nat call }.

Definition empty_dialer : dialer := mkDialer None None None 0 ∅ ∅ ∅ ∅.

(** The first locked part of [addresses]: the lookup started when none is
    under way, and the answer or the wait. *)
Definition addresses (id : nat) (d : dialer) : dialer :=
  let ch := default (d_next d) (d_pending d) in
  let started := bool_decide (d_pending d = None) in
  mkDialer (d_ips d) (d_err d) (Some ch)
    (if started then S (d_next d) else d_next d)
    (if started then {[ch]} ∪ d_flying d else d_flying d)
    (d_returned d) (d_closed d)
    (<[id := match d_ips d with Some ips => Returned (Some ips, None) | None => Waiting ch end]> (d_calls d)).

(** The second: what stands once the channel is closed. *)
Definition reread (d : dialer) : found :=
  match d_ips d with None => (None, d_err d) | Some ips => (Some ips, None) end.

Definition with_call (id : nat) (c : call) (d : dialer) : dialer :=
  mkDialer (d_ips d) (d_err d) (d_pending d) (d_next d) (d_flying d) (d_returned d) (d_closed d) (<[id := c]> (d_calls d)).

(** [resolve] up to its unlock, with the answer of the lookup. *)
Definition dialer_resolve (ch : nat) (answer : result string (list string)) (d : dialer) : dialer :=
  let r : result dial_error (list string) :=
    match answer with Ok [] => Err ENoAddresses | Ok ips => Ok ips | Err e => Err (ELookup e) end in
  mkDialer (match r with Ok ips => Some ips | Err _ => d_ips d end)
    (match r with Ok _ => None | Err e => Some e end) None (d_next d)
    (d_flying d ∖ {[ch]}) ({[ch]} ∪ d_returned d) (d_closed d) (d_calls d).

(** [close(pending)] *)
Definition close (ch : nat) (d : dialer) : dialer :=
  mkDialer (d_ips d) (d_err d) (d_pending d) (d_next d) (d_flying d) (d_returned d ∖ {[ch]}) ({[ch]} ∪ d_closed d) (d_calls d).

(** The interleavings of the dials and the lookups. *)
Inductive step : dialer -> dialer -> Prop :=
| step_call id d : d_calls d !! id = None -> step d (addresses id d)
| step_wake id ch d : d_calls d !! id = Some (Waiting ch) -> ch ∈ d_closed d -> step d (with_call id (Returned (reread d)) d)
| step_cancel id ch d : d_calls d !! id = Some (Waiting ch) -> step d (with_call id (Returned (None, Some EContext)) d)
| step_resolve ch answer d : ch ∈ d_flying d -> step d (dialer_resolve ch answer d)
| step_close ch d : ch ∈ d_returned d -> step d (close ch d).

(** ** The invariant *)

Record dialer_ok (d : dialer) : Prop := {
  (** One lookup at a time, the pending one. *)
  ok_flying : d_flying d = match d_pending d with Some ch => {[ch]} | None => ∅ end;
  (** Channels are new ones. *)
  ok_next : forall ch, ch ∈ d_flying d ∪ d_returned d ∪ d_closed d -> (ch < d_next d)%nat;
  (** An answer has addresses. *)
  ok_ips : d_ips d <> Some [];
  (** Once a lookup returned there is an answer or an error. *)
  ok_settled : d_returned d ∪ d_closed d <> ∅ -> d_ips d <> None \/ d_err d <> None;
  (** A waiting call waits for a lookup that is still to close its channel, or
      for one that has. *)
  ok_waiting : forall id ch, d_calls d !! id = Some (Waiting ch) -> ch ∈ d_flying d ∪ d_returned d ∪ d_closed d;
  (** A call returned addresses or an error, never neither or both. *)
  ok_returned : forall id r, d_calls d !! id = Some (Returned r) ->
    (exists ips, r = (Some ips, None) /\ ips <> []) \/ (exists e, r = (None, Some e)) }.

Lemma dialer_ok_empty : dialer_ok empty_dialer.
Proof. constructor; cbn; try done; set_solver. Qed.

Lemma addresses_ok k d : d_calls d !! k = None -> dialer_ok d -> dialer_ok (addresses k d).
Proof.
  intros Hid [Hf Hn Hi Hs Hw Hr]. unfold addresses. destruct (d_pending d) as [ch|] eqn:Ep; cbn [default from_option id].
  - rewrite bool_decide_false by done. constructor; cbn; try done.
    + intros id' ch' [[<- Hc]|[? Hc]]%lookup_insert_Some; [|by eapply Hw]. destruct (d_ips d); [done|]. injection Hc as <-. set_solver.
    + intros id' r [[<- Hc]|[? Hc]]%lookup_insert_Some; [|by eapply Hr]. destruct (d_ips d) as [ips|]; [|done]. injection Hc as <-.
      left. exists ips. split; [done|]. by intros ->.
  - rewrite bool_decide_true by done. constructor; cbn; try done.
    + rewrite Hf. set_solver.
    + intros ch Hch. assert (ch = d_next d \/ ch ∈ d_flying d ∪ d_returned d ∪ d_closed d) as [->|Hin] by set_solver; [lia|].
      specialize (Hn ch Hin). lia.
    + intros id' ch' [[<- Hc]|[? Hc]]%lookup_insert_Some; [|specialize (Hw _ _ Hc); set_solver].
      destruct (d_ips d); [done|]. injection Hc as <-. set_solver.
    + intros id' r [[<- Hc]|[? Hc]]%lookup_insert_Some; [|by eapply Hr]. destruct (d_ips d) as [ips|]; [|done]. injection Hc as <-.
      left. exists ips. split; [done|]. by intros ->.
Qed.

Lemma with_call_ok id r d : dialer_ok d ->
  (exists ips, r = (Some ips, None) /\ ips <> []) \/ (exists e, r = (None, Some e)) -> dialer_ok (with_call id (Returned r) d).
Proof.
  intros [Hf Hn Hi Hs Hw Hr] Hgood. constructor; cbn; try done.
  - intros id' ch' [[<- Hc]|[? Hc]]%lookup_insert_Some; [done|by eapply Hw].
  - intros id' r' [[<- Hc]|[? Hc]]%lookup_insert_Some; [by injection Hc as <-|by eapply Hr].
Qed.

Lemma reread_good d : dialer_ok d -> d_closed d <> ∅ ->
  (exists ips, reread d = (Some ips, None) /\ ips <> []) \/ (exists e, reread d = (None, Some e)).
Proof.
  intros [_ _ Hi Hs _ _] Hc. unfold reread. destruct (d_ips d) as [ips|].
  - left. exists ips. split; [done|]. by intros ->.
  - right. destruct Hs as [?|He]; [set_solver|done|]. destruct (d_err d) as [e|]; [by exists e|done].
Qed.

Lemma dialer_resolve_ok ch answer d : ch ∈ d_flying d -> dialer_ok d -> dialer_ok (dialer_resolve ch answer d).
Proof.
  intros Hch [Hf Hn Hi Hs Hw Hr]. unfold dialer_resolve. set (r := match answer with Ok [] => _ | Ok _ => _ | Err _ => _ end).
  assert (match r with Ok ips => ips <> [] | Err _ => True end) as Hne.
  { unfold r. destruct answer as [[|ip ips]|e]; done. }
  destruct (d_pending d) as [p|]; [|rewrite Hf in Hch; set_solver]. constructor; cbn.
  - rewrite Hf in *. set_solver.
  - intros c Hc. apply Hn. set_solver.
  - destruct r; [congruence|done].
  - intros _. destruct r; [by left|by right].
  - intros id c Hc. specialize (Hw id c Hc). destruct (decide (c = ch)); set_solver.
  - done.
Qed.

Lemma close_ok ch d : ch ∈ d_returned d -> dialer_ok d -> dialer_ok (close ch d).
Proof.
  intros Hch [Hf Hn Hi Hs Hw Hr]. constructor; cbn; try done.
  - intros c Hc. apply Hn. set_solver.
  - intros _. apply Hs. set_solver.
  - intros id c Hc. specialize (Hw id c Hc). destruct (decide (c = ch)); set_solver.
Qed.

Lemma step_ok d d' : step d d' -> dialer_ok d -> dialer_ok d'.
Proof.
  intros Hst Hok. destruct Hst as [id d Hid|id ch d Hid Hch|id ch d Hid|ch answer d Hch|ch d Hch].
  - by apply addresses_ok.
  - apply with_call_ok; [done|]. apply reread_good; [done|set_solver].
  - apply with_call_ok; [done|]. right. by eexists.
  - by apply dialer_resolve_ok.
  - by apply close_ok.
Qed.

Lemma reach_ok d d' : rtc step d d' -> dialer_ok d -> dialer_ok d'.
Proof. induction 1 as [|d d1 d2 Hst _ IH]; [done|]. intros Hok. by apply IH, (step_ok d). Qed.

(** Addresses once found are kept. *)
Lemma step_keeps d d' : step d d' -> d_ips d <> None -> d_ips d' <> None.
Proof.
  intros Hst Hne. destruct Hst as [| | |ch answer d Hch|]; try done. cbn. by destruct answer as [[|??]|].
Qed.

Lemma reach_keeps d d' : rtc step d d' -> d_ips d <> None -> d_ips d' <> None.
Proof. induction 1 as [|d d1 d2 Hst _ IH]; [done|]. intros Hne. by apply IH, (step_keeps d). Qed.

(** The first address that connects. *)
Lemma dial_loop_ok {Conn} (dial : Dials Conn) port ips errs c :
  dial_loop dial port ips errs = Ok c <->
  exists i ip, ips !! i = Some ip /\ dial (conn.JoinHostPort ip port) = Ok c /\
    forall j ip', (j < i)%nat -> ips !! j = Some ip' -> is_ok (dial (conn.JoinHostPort ip' port)) = false.
Proof.
  revert errs. induction ips as [|ip ips IH]; intros errs; cbn [dial_loop].
  { split; [done|]. by intros (i & ip & ? & _). }
  destruct (dial (conn.JoinHostPort ip port)) as [c'|e] eqn:Ed.
  - split; [intros [= <-]; exists 0%nat, ip; split_and!; [done..|lia]|].
    intros ([|i] & ip' & Hi & Hc & Hlt); [injection Hi as <-; congruence|].
    specialize (Hlt 0%nat ip ltac:(lia) eq_refl). by rewrite Ed in Hlt.
  - rewrite IH. split.
    + intros (i & ip' & Hi & Hc & Hlt). exists (S i), ip'. split_and!; [done..|]. intros [|j] ip'' Hj Hip; [|apply (Hlt j); [lia|done]].
      injection Hip as <-. by rewrite Ed.
    + intros ([|i] & ip' & Hi & Hc & Hlt); [injection Hi as <-; congruence|]. exists i, ip'. split_and!; [done..|].
      intros j ip'' Hj Hip. apply (Hlt (S j)); [lia|done].
Qed.

(** A waiting call is woken by the steps of its lookup alone, with what that
    found. *)
Lemma waiting_wakes d id ch (answer : result string (list string)) : dialer_ok d -> d_calls d !! id = Some (Waiting ch) ->
  exists d' r, rtc step d d' /\ d_calls d' !! id = Some (Returned r) /\
    (ch ∈ d_flying d -> r = reread (dialer_resolve ch answer d)).
Proof.
  intros Hok Hc.
  assert (forall d0, d_calls d0 !! id = Some (Waiting ch) -> ch ∈ d_returned d0 ∪ d_closed d0 ->
    exists d', rtc step d0 d' /\ d_calls d' !! id = Some (Returned (reread d0))) as Hret.
  { intros d0 H0 [H1|H1]%elem_of_union.
    - exists (with_call id (Returned (reread d0)) (close ch d0)). split; [|cbn; by rewrite lookup_insert_eq].
      eapply rtc_l; [by apply step_close|]. apply rtc_once.
      refine (step_wake id ch (close ch d0) H0 _). cbn. set_solver.
    - exists (with_call id (Returned (reread d0)) d0). split; [|cbn; by rewrite lookup_insert_eq].
      apply rtc_once. by apply (step_wake id ch). }
  destruct (decide (ch ∈ d_flying d)) as [Hf|Hf].
  - destruct (Hret (dialer_resolve ch answer d)) as (d' & Hr & Hd'); [done|cbn; set_solver|].
    exists d', (reread (dialer_resolve ch answer d)). split_and!; [eapply rtc_l; [by apply step_resolve|done]|done..].
  - destruct (Hret d Hc) as (d' & Hr & Hd'); [pose proof (ok_waiting d Hok id ch Hc); set_solver|].
    exists d', (reread d). done.
Qed.

(** ** Claims *)

(** C21: Under every interleaving of dials and lookups the dialer runs one
    lookup at a time; a call for the addresses returns either addresses, at
    least one, or an error, never neither; a call that waits is woken by its
    lookup whatever that answers, and returns what it found; and once a lookup found addresses no later
    dial waits: each gets addresses at once, whatever the later lookups
    answer. A dial connects to the first of its addresses that accepts. *)
Theorem dialer_sound {Conn} (dial : Dials Conn) (port : string) d :
  rtc step empty_dialer d ->
  (size (d_flying d) <= 1)%nat /\
  (forall id r, d_calls d !! id = Some (Returned r) ->
     (exists ips, r = (Some ips, None) /\ ips <> [] /\
        forall c, DialContext dial port r = Ok c <->
          exists i ip, ips !! i = Some ip /\ dial (conn.JoinHostPort ip port) = Ok c /\
            forall j ip', (j < i)%nat -> ips !! j = Some ip' -> is_ok (dial (conn.JoinHostPort ip' port)) = false) \/
     (exists e, r = (None, Some e) /\ DialContext dial port r = Err e)) /\
  (forall id ch (answer : result string (list string)), d_calls d !! id = Some (Waiting ch) ->
     exists d' r, rtc step d d' /\ d_calls d' !! id = Some (Returned r) /\
       (ch ∈ d_flying d -> r = reread (dialer_resolve ch answer d))) /\
  (forall d' id, d_ips d <> None -> rtc step d d' -> d_calls d' !! id = None ->
     exists ips, d_calls (addresses id d') !! id = Some (Returned (Some ips, None)) /\ ips <> []).
Proof.
  intros Hreach. assert (dialer_ok d) as Hok by (eapply reach_ok; [done|apply dialer_ok_empty]). split_and!.
  - rewrite (ok_flying d Hok). destruct (d_pending d); [by rewrite size_singleton|]. rewrite size_empty. lia.
  - intros id r Hr. destruct (ok_returned d Hok id r Hr) as [(ips & -> & Hne)|(e & ->)]; [left|right; by exists e].
    exists ips. split_and!; [done..|]. intros c. apply dial_loop_ok.
  - intros id ch answer. by apply waiting_wakes.
  - intros d' id Hips Hr Hid. pose proof (reach_ok d d' Hr Hok) as Hok'. pose proof (reach_keeps d d' Hr Hips) as Hips'.
    pose proof (ok_ips d' Hok') as Hne. cbn. rewrite lookup_insert_eq. destruct (d_ips d') as [ips|]; [|done].
    exists ips. split; [done|]. by intros ->.
Qed.

(** Two dials share a lookup that fails; a third starts another, which
    finds the address; the fourth does not wait though the lookup it starts
    fails. *)
Definition demo_run : list (dialer -> dialer) :=
  [ addresses 0; addresses 1; dialer_resolve 0 (Err "timeout"); close 0; addresses 2; dialer_resolve 1 (Ok ["10.0.0.7"]); close 1;
    addresses 3; dialer_resolve 2 (Err "timeout") ].

Definition demo_dialer : dialer := foldl (fun d f => f d) empty_dialer demo_run.

Lemma demo_dialer_reached : rtc step empty_dialer demo_dialer.
Proof.
  unfold demo_dialer, demo_run. cbn [foldl].
  do 9 (eapply rtc_r; [|first [apply step_call; vm_compute; reflexivity
                              |apply step_resolve, (bool_decide_unpack _); vm_compute; exact I
                              |apply step_close, (bool_decide_unpack _); vm_compute; exact I]]).
  apply rtc_refl.
Qed.

Lemma dialer_sound_witness :
  d_calls demo_dialer !! 3%nat = Some (Returned (Some ["10.0.0.7"], None)) /\
  (exists d' r, rtc step demo_dialer d' /\ d_calls d' !! 0%nat = Some (Returned r)) /\
  exists ips, d_calls (addresses 4 demo_dialer) !! 4%nat = Some (Returned (Some ips, None)) /\ ips <> [].
Proof.
  destruct (dialer_sound (Conn := unit) (fun _ => Ok tt) "6379" demo_dialer demo_dialer_reached) as (_ & _ & Hw & Hl).
  split_and!; [vm_compute; reflexivity| |].
  - destruct (Hw 0%nat 0%nat (Ok [])) as (d' & r & Hr & Hc & _); [vm_compute; reflexivity|]. by exists d', r.
  - apply (Hl demo_dialer 4%nat); [vm_compute; discriminate|apply rtc_refl|vm_compute; reflexivity].
Defined.

End dialer.
