(* ===== verification/Wiring.v ===== *)
(** * How the service is put together

    service/internal/settings/settings.go: the clients of the counter store and
    the near-limit ratio; service/internal/app/app.go: the options, the choice
    of the counter store and [Build]. The DBaaS pool and the parser of floats
    are parameters; a double is a dyadic number, an infinity or not a number. *)
From S2P Require Import Prelude GoStrings Algo StoreApi Compile Identity Sanitize Sampler Rls Access CounterConn.
Import conn.

(** ** settings.go: the near-limit ratio *)

(** [FNum m e] is [m * 2^e]. *)
Inductive float64 := FNaN | FInf (negative : bool) | FNum (m e : Z).

(** [x <= 0] and [x >= 1] of Go, false on NaN. *)
Definition le_zero (x : float64) : bool :=
  match x with FNaN => false | FInf negative => negative | FNum m _ => m <=? 0 end.
Definition ge_one (x : float64) : bool :=
  match x with
  | FNaN => false
  | FInf negative => negb negative
  | FNum m e => if 0 <=? e then 1 <=? m * 2 ^ e else 2 ^ (- e) <=? m
  end.

(** The double nearest to 0.9. *)
Definition DefaultNearLimitRatio : float64 := FNum 8106479329266893 (-53).

(** [strconv.ParseFloat]: [None] is its error. *)
Class Floats := { ParseFloat : string -> option float64 }.

Definition isNaN (x : float64) : bool := match x with FNaN => true | _ => false end.

(** The flag is the report through [warn]. *)
Definition NearLimitRatio `{Floats} (raw : string) : float64 * bool :=
  if bool_decide (raw = "") then (DefaultNearLimitRatio, false)
  else match ParseFloat raw with
  | None => (DefaultNearLimitRatio, true)
  | Some ratio => if isNaN ratio || le_zero ratio || ge_one ratio then (DefaultNearLimitRatio, true) else (ratio, false)
  end.

(** [ratio > 0] and [ratio < 1], false on NaN. *)
Definition gt_zero (x : float64) : bool := negb (isNaN x) && negb (le_zero x).
Definition lt_one (x : float64) : bool := negb (isNaN x) && negb (ge_one x).

(** [rls.WithNearLimitRatio] on the ratio a server holds. *)
Definition WithNearLimitRatio (ratio current : float64) : float64 := if gt_zero ratio && lt_one ratio then ratio else current.

(** ** settings.go: the clients *)

Definition Millisecond : Z := 1000000.
Definition decisionTimeout : Z := 250 * Millisecond.
Definition decisionSpareConns : Z := 4.
Definition managementTimeout : Z := 3 * Second.

(** The options of a client; zero is the library's default. [uo_Dialer] is
    whether dials go through the resolving dialer. *)
Record UniversalOptions := mkUniversalOptions {
  uo_Addrs : list string;
  uo_Dialer : bool;
  uo_ContextTimeoutEnabled : bool;
  uo_DialTimeout : Z;
  uo_DialerRetries : Z;
  uo_PoolTimeout : Z;
  uo_ReadTimeout : Z;
  uo_WriteTimeout : Z;
  uo_MaxRetries : Z;
  uo_MinIdleConns : Z;
  uo_ConnMaxIdleTime : Z }.

Definition DecisionOptions (addr : string) : UniversalOptions :=
  mkUniversalOptions [addr] true true decisionTimeout 1 decisionTimeout decisionTimeout decisionTimeout (-1) decisionSpareConns (-1).

Definition ManagementOptions (addr : string) : UniversalOptions :=
  mkUniversalOptions [addr] false true managementTimeout 0 managementTimeout managementTimeout managementTimeout 0 0 0.

(** The parts of a backend by the client each goes through; [cb_Closer] is nil
    for [None]. *)
Record CounterBackend := mkCounterBackend {
  cb_Store : UniversalOptions;
  cb_Management : UniversalOptions;
  cb_Records : UniversalOptions;
  cb_Closer : option (list UniversalOptions);
  cb_Description : string;
  cb_CheckEviction : option UniversalOptions;
  cb_PoolStats : option UniversalOptions }.

Definition settings_CounterStore (source : Connection) : CounterBackend :=
  let addr := Addr source in
  let decisions := DecisionOptions addr in
  let management := ManagementOptions addr in
  mkCounterBackend decisions management management (Some [decisions; management]) ("redis at " +:+ addr)
    (Some management) (Some decisions).

(** [closers.Close]: how many clients were closed and the first error. *)
Fixpoint closers_Close (results : list (option string)) (closed : nat) (first : option string) : nat * option string :=
  match results with
  | [] => (closed, first)
  | err :: results =>
      closers_Close results (S closed) (if bool_decide (is_Some err) && bool_decide (first = None) then err else first)
  end.

(** ** app.go: the counter store *)

Definition resolver : Type := string -> gmap string string -> answer.

Definition redisconn_Type : string := "redis".
Definition Classifier (microservice namespace : string) : gmap string string :=
  <["microserviceName" := microservice]> (<["scope" := "service"]> (<["namespace" := namespace]> ∅)).

Record Options := mkOptions {
  op_ProbeAddr : string;
  op_MetricsAddr : string;
  op_RLSAddr : string;
  op_ManagementAddr : string;
  op_ConfigDir : string;
  op_RedisMicroservice : string;
  op_RedisAddr : string;
  op_RedisResolver : option resolver;
  op_counters : option CounterBackend;
  op_Resync : Z;
  op_DrainTimeout : Z }.

Inductive wiring_error := ErrBothStores | ErrNoCounterStore | ErrOpen | ErrNewApp (reason : string).

(** [enabled]: "0" and empty disable a listener. *)
Definition enabled (addr : string) : bool := negb (bool_decide (addr = "")) && negb (bool_decide (addr = "0")).

(** [addressResolver.GetConnection] *)
Definition addressResolver (addr : string) : resolver := fun _ _ => Answered {["url" := VString ("redis://" +:+ addr)]}.

Section wiring.
Context `{URLs} (NewDbaaSPool : resolver).

(** The resolver and the microservice [counterStore] asks for. *)
Definition store_source (options : Options) : result wiring_error (resolver * string) :=
  let micro := op_RedisMicroservice options in
  let addr := op_RedisAddr options in
  if negb (bool_decide (micro = "")) && negb (bool_decide (addr = "")) then Err ErrBothStores
  else if negb (bool_decide (addr = "")) then Ok (addressResolver addr, "local")
  else if negb (bool_decide (micro = "")) then Ok (default NewDbaaSPool (op_RedisResolver options), micro)
  else Err ErrNoCounterStore.

Definition counterStore (namespace : string) (options : Options) : result wiring_error (CounterBackend * option Connection) :=
  match op_counters options with
  | Some backend => Ok (backend, None)
  | None =>
      let? (resolve, microservice) := store_source options in
      match Open (resolve redisconn_Type (Classifier microservice namespace)) with
      | None => Err ErrOpen
      | Some connection => Ok (settings_CounterStore connection, Some connection)
      end
  end.

(** ** app.go: Build *)

Definition MountPath : string := "/etc/ratelimit/config".
Definition contract_AppliedPath : string := "/debug/applied".
Definition contract_SnapshotPath : string := "/debug/snapshot".

(** The properties [Build] reads. *)
Record Properties := mkProperties {
  pp_NearLimitRatio : string;
  pp_IETFHeaders : string;
  pp_GatewayDomains : string;
  pp_Callers : string;
  pp_Audience : option string }.

(** The listeners of a service: the management API with its callers and
    audience, and the paths of the metrics and the probe muxes. *)
Record Service := mkService {
  sr_ConfigDir : string;
  sr_Backend : CounterBackend;
  sr_Connection : option Connection;
  sr_Server : Server;
  sr_NearLimitRatio : float64;
  sr_PoolStats : bool;
  sr_Management : option (list string * string);
  sr_Metrics : option (list string);
  sr_Probes : option (list string) }.

(** [newApp] is the error of the platform's builder, if any. *)
Definition Build `{Floats} `{TokenLib} (namespace : string) (options : Options) (props : Properties) (newApp : option string)
    : result wiring_error Service :=
  let dir := if bool_decide (op_ConfigDir options = "") then MountPath else op_ConfigDir options in
  let? (backend, connection) := counterStore namespace options in
  let ratio := (NearLimitRatio (pp_NearLimitRatio props)).1 in
  let domains := ManagementGatewayDomains (pp_GatewayDomains props) in
  let serverOptions :=
    [WithIETFHeaders (IETFHeaders (pp_IETFHeaders props)).1] ++
    (if enabled (op_ManagementAddr options) && (0 <? length domains)%nat then [WithExemptPath BasePath domains] else []) in
  let? management :=
    if enabled (op_ManagementAddr options)
    then match newApp with
         | Some reason => Err (ErrNewApp reason)
         | None => Ok (Some ((ManagementCallers namespace (pp_Callers props)).1, (ManagementAudience (pp_Audience props)).1))
         end
    else Ok None in
  Ok (mkService dir backend connection (NewServer serverOptions) (WithNearLimitRatio ratio DefaultNearLimitRatio)
        (bool_decide (is_Some (cb_PoolStats backend))) management
        (if enabled (op_MetricsAddr options)
         then Some ["/metrics"; contract_AppliedPath; contract_SnapshotPath; contract_SnapshotPath +:+ "/"] else None)
        (if enabled (op_ProbeAddr options) then Some ["/healthz"; "/readyz"] else None)).

End wiring.

(** ** Lemmas *)

Definition ratio_ok (x : float64) : Prop := gt_zero x = true /\ lt_one x = true.

Lemma NearLimitRatio_ok `{Floats} raw : ratio_ok (NearLimitRatio raw).1.
Proof.
  assert (ratio_ok DefaultNearLimitRatio) as Hd by (split; by vm_compute).
  unfold NearLimitRatio. case_bool_decide; [done|]. destruct (ParseFloat raw) as [x|]; [|done].
  destruct (isNaN x || le_zero x || ge_one x) eqn:E; [done|]. apply orb_false_iff in E as [[E1 E2]%orb_false_iff E3].
  unfold ratio_ok, gt_zero, lt_one. cbn. by rewrite E1, E2, E3.
Qed.

(** The option takes the ratio the settings read, whatever it was. *)
Lemma WithNearLimitRatio_ok ratio current : ratio_ok ratio -> WithNearLimitRatio ratio current = ratio.
Proof. intros [H1 H2]. unfold WithNearLimitRatio. by rewrite H1, H2. Qed.

(** Every client is closed, and the first error is the one returned. *)
Lemma closers_Close_spec results closed first :
  closers_Close results closed first =
  ((closed + length results)%nat, match first with Some e => Some e | None => head (omap id results) end).
Proof.
  revert closed first. induction results as [|err results IH]; intros closed first; cbn [closers_Close].
  - f_equal; [cbn; lia|by destruct first].
  - rewrite IH. f_equal; [cbn; lia|]. by destruct err, first.
Qed.

Section facts.
Context `{URLs} (NewDbaaSPool : resolver).

Lemma store_source_cases options :
  store_source NewDbaaSPool options =
  match bool_decide (op_RedisMicroservice options = ""), bool_decide (op_RedisAddr options = "") with
  | false, false => Err ErrBothStores
  | true, true => Err ErrNoCounterStore
  | true, false => Ok (addressResolver (op_RedisAddr options), "local")
  | false, true => Ok (default NewDbaaSPool (op_RedisResolver options), op_RedisMicroservice options)
  end.
Proof. unfold store_source. by repeat case_bool_decide. Qed.

Lemma exempt_domains ietf addr domains :
  let s := NewServer ([WithIETFHeaders ietf] ++ (if enabled addr && (0 <? length domains)%nat then [WithExemptPath BasePath domains] else [])) in
  sv_exemptDomains s = (if enabled addr then list_to_set domains else ∅) /\ (sv_exemptDomains s <> ∅ -> sv_exemptPrefix s = BasePath).
Proof. destruct (enabled addr), domains; by split. Qed.

End facts.

(** ** Claims *)

(** A service that starts counts in one store and exempts only its own API.
    [Build] fails exactly when the flags name no counter store or two, when
    the store's connection does not resolve, or when the management app cannot
    be built. Otherwise every client of the service dials the one resolved
    address; the client of the decisions neither retries a command nor a dial
    and bounds each step; the near-limit margin lies strictly between 0 and 1;
    and a check is exempt only when the management listener is on, the domain
    is among the gateway domains, and the path is under the API's. *)
Theorem build_one_store `{URLs} (NewDbaaSPool : resolver) `{Floats} `{TokenLib} (namespace : string) (options : Options)
    (props : Properties) (newApp : option string) :
  op_counters options = None ->
  let micro := op_RedisMicroservice options in
  let addr := op_RedisAddr options in
  match Build NewDbaaSPool namespace options props newApp with
  | Err ErrBothStores => micro <> "" /\ addr <> ""
  | Err ErrNoCounterStore => micro = "" /\ addr = ""
  | Err ErrOpen => exists resolve microservice, store_source NewDbaaSPool options = Ok (resolve, microservice) /\
      Open (resolve redisconn_Type (Classifier microservice namespace)) = None
  | Err (ErrNewApp reason) => newApp = Some reason /\ enabled (op_ManagementAddr options) = true
  | Ok s =>
      (micro = "" <-> addr <> "") /\
      (exists c, sr_Connection s = Some c /\ well_formed c /\
         let clients := [cb_Store (sr_Backend s); cb_Management (sr_Backend s); cb_Records (sr_Backend s)] in
         Forall (fun o => uo_Addrs o = [Addr c] /\ uo_ContextTimeoutEnabled o = true) clients) /\
      (let o := cb_Store (sr_Backend s) in uo_MaxRetries o = -1 /\ uo_DialerRetries o = 1 /\
         Forall (fun t => 0 < t <= 250 * Millisecond) [uo_DialTimeout o; uo_PoolTimeout o; uo_ReadTimeout o; uo_WriteTimeout o]) /\
      ratio_ok (sr_NearLimitRatio s) /\
      (forall domain requests, withoutExempt (sr_Server s) domain requests <> requests ->
         enabled (op_ManagementAddr options) = true /\ domain ∈ ManagementGatewayDomains (pp_GatewayDomains props) /\
         exists c, c ∈ requests /\ underPrefix (Engine.rq_Path (ck_Request c)) BasePath = true) /\
      (is_Some (sr_Management s) <-> enabled (op_ManagementAddr options) = true)
  end.
Proof.
  intros Hn micro addr. unfold Build, counterStore. rewrite Hn. pose proof (store_source_cases NewDbaaSPool options) as Hcases.
  destruct (store_source NewDbaaSPool options) as [[resolve microservice]|e] eqn:Es.
  2:{ repeat case_bool_decide; simplify_eq; done. }
  destruct (Open _) as [c|] eqn:Eo; [|by exists resolve, microservice].
  assert (micro = "" <-> addr <> "") as Hone by (repeat case_bool_decide; done).
  destruct (if enabled (op_ManagementAddr options) then _ else _) as [management|e] eqn:Em.
  2:{ destruct (enabled _); [|done]. destruct newApp; simplify_eq. done. }
  split; [done|]. split; [|split; [|split; [|split]]].
  - exists c. split; [done|]. split; [by eapply Source_resolve_well_formed|]. by repeat constructor.
  - split; [done|]. split; [done|]. by repeat constructor.
  - cbn [sr_NearLimitRatio]. rewrite WithNearLimitRatio_ok by apply NearLimitRatio_ok. apply NearLimitRatio_ok.
  - intros domain requests. cbn [sr_Server].
    destruct (exempt_domains (IETFHeaders (pp_IETFHeaders props)).1 (op_ManagementAddr options)
      (ManagementGatewayDomains (pp_GatewayDomains props))) as [Hd Hp]. unfold withoutExempt. intros Hne.
    set (s := NewServer _) in *. case_bool_decide as Hin; [|done]. rewrite Hp in Hne by (intros E; rewrite E in Hin; set_solver).
    rewrite Hd in Hin. destruct (enabled _); [|set_solver]. split; [done|]. split; [by apply elem_of_list_to_set in Hin|].
    clear -Hne. induction requests as [|r rs IH]; [done|]. rewrite filter_cons in Hne.
    destruct (underPrefix (Engine.rq_Path (ck_Request r)) BasePath) eqn:E; [exists r; split; [by left|done]|].
    rewrite decide_True in Hne by done. destruct IH as (c & ? & ?); [congruence|]. exists c. split; [by right|done].
  - cbn [sr_Management]. destruct (enabled _); [destruct newApp; simplify_eq|simplify_eq]; split; try done; by intros [].
Qed.

(** ** Witnesses *)

#[local] Existing Instance demo_urls.
#[local] Existing Instance demo_tokens.
#[local] Instance demo_floats : Floats := {| ParseFloat := fun raw => if bool_decide (raw = "0.5") then Some (FNum 1 (-1)) else None |}.

Definition demo_options : Options := mkOptions ":8081" ":8080" ":9000" ":8082" "" "" "localhost:6379" None None 0 0.
Definition demo_props : Properties := mkProperties "0.5" "" "gw, edge" "viewer" None.

(** A service over a local Redis, with its API exempt at two gateways. *)
Lemma build_one_store_witness :
  exists s, Build (fun _ _ => Failed) "ns" demo_options demo_props None = Ok s /\
    sr_NearLimitRatio s = FNum 1 (-1) /\ uo_Addrs (cb_Store (sr_Backend s)) = ["localhost:6379"] /\
    ratio_ok (sr_NearLimitRatio s).
Proof.
  pose proof (build_one_store (fun _ _ => Failed) "ns" demo_options demo_props None eq_refl) as Hb.
  destruct (Build (fun _ _ => Failed) "ns" demo_options demo_props None) as [s|e] eqn:E; [|vm_compute in E; discriminate E].
  exists s. assert (sr_NearLimitRatio s = FNum 1 (-1) /\ uo_Addrs (cb_Store (sr_Backend s)) = ["localhost:6379"]) as [H1 H2].
  { vm_compute in E. injection E as <-. split; reflexivity. }
  split_and!; [reflexivity|exact H1|exact H2|]. exact (proj1 (proj2 (proj2 (proj2 Hb)))).
Defined.
