(* ===== verification/ServiceApp.v ===== *)
(** * service/internal/app/app.go and service/cmd/main.go: the running service

    [Run]: the runners as members of one group that ends together, and the
    store closed after them. The group is golang.org/x/sync/errgroup, a class;
    the members are proved against the interface [Members], which the runners
    of the service discharge. Around it [main] with the signals of
    internal/process/signal.go, and the readiness of the whole. *)
From stdpp Require Import relations.
From S2P Require Import Prelude GoStrings Algo StoreApi Compile Identity Convert OpPolicy Selector Sanitize Sampler Rls Manifest ConfigStore SvcConfig.
From S2P Require Import SvcConfigClaims WatchLoop Runners Access CounterConn Wiring.
Import conn.

(** ** The group *)

(** [errgroup.WithContext]: a goroutine of the group returns; the context of
    the group ends; what Wait returns. *)
Class ErrGroup := {
  group : Type;
  WithContext : group;
  goroutine_returned : option run_error -> group -> group;
  group_cancelled : group -> bool;
  group_Wait : group -> option run_error }.

(** Its documentation: the first non-nil error cancels the context of the
    group and is what Wait returns. *)
Class ErrGroupLaws `{ErrGroup} := {
  group_fresh : group_cancelled WithContext = false /\ group_Wait WithContext = None;
  returned_cancelled e g : group_cancelled (goroutine_returned e g) = group_cancelled g || bool_decide (is_Some e);
  returned_Wait e g : group_Wait (goroutine_returned e g) = match group_Wait g with Some f => Some f | None => e end }.

(** What [Run] relies on of a member: a step of it, under a context that has
    ended or not, and what its function returned. *)
Class Members (M : Type) := {
  m_started : M -> Prop;
  m_step : bool -> relation M;
  m_result : M -> option (option run_error) }.

(** A return is final, and from wherever a member is it can return once the
    context has ended. *)
Class MembersLaws (M : Type) `{Members M} := {
  m_final done m m' e : m_step done m m' -> m_result m = Some e -> m_result m' = Some e;
  m_ends m0 m : m_started m0 -> rtc (any m_step) m0 m -> ends (m_step true) m_result m }.

(** ** Run *)

(** The closer of the backend: none, or what its Close returns. *)
Definition closer : Type := option (option string).

(** A process: whether the parent's context has ended, the group, the members
    with whether their goroutine has returned, what Run returned, and the
    calls of Close with the error logged. [ps_order] is not the code's: what
    the goroutines returned, in their order. *)
Record process `{ErrGroup} (M : Type) := mkProcess {
  ps_parent : bool;
  ps_group : group;
  ps_members : list (M * bool);
  ps_return : option (option run_error);
  ps_closed : nat;
  ps_logged : list string;
  ps_order : list (option run_error) }.
#[global] Arguments mkProcess {_} {M}.
#[global] Arguments ps_parent {_ M}.
#[global] Arguments ps_group {_ M}.
#[global] Arguments ps_members {_ M}.
#[global] Arguments ps_return {_ M}.
#[global] Arguments ps_closed {_ M}.
#[global] Arguments ps_logged {_ M}.
#[global] Arguments ps_order {_ M}.

Section run.
Context `{ErrGroup} {M : Type} `{Members M}.

(** [Run] before any of its goroutines ran. *)
Definition Run_start (ms : list M) : process M := mkProcess false WithContext ((., false) <$> ms) None 0 [] [].

Definition ctx_done (p : process M) : bool := ps_parent p || group_cancelled (ps_group p).

Definition with_members (ms : list (M * bool)) (p : process M) : process M :=
  mkProcess (ps_parent p) (ps_group p) ms (ps_return p) (ps_closed p) (ps_logged p) (ps_order p).

(** The function of member [i] returned [e]: its goroutine tells the group. *)
Definition member_returned (i : nat) (m : M) (e : option run_error) (p : process M) : process M :=
  mkProcess (ps_parent p) (goroutine_returned e (ps_group p)) (<[i := (m, true)]> (ps_members p)) (ps_return p)
    (ps_closed p) (ps_logged p) (ps_order p ++ [e]).

(** [close]: the backend's closer, if there is one. *)
Definition Service_close (c : closer) (p : process M) : process M :=
  match c with
  | None => p
  | Some err => mkProcess (ps_parent p) (ps_group p) (ps_members p) (ps_return p) (S (ps_closed p))
                  (ps_logged p ++ match err with Some _ => ["failed to close the counter store"] | None => [] end) (ps_order p)
  end.

(** [group.Wait] and the deferred close. *)
Definition Run_return (c : closer) (p : process M) : process M :=
  let p := Service_close c p in
  mkProcess (ps_parent p) (ps_group p) (ps_members p) (Some (group_Wait (ps_group p))) (ps_closed p) (ps_logged p) (ps_order p).

Definition all_returned (p : process M) : bool := forallb snd (ps_members p).

Inductive process_step (c : closer) : process M -> process M -> Prop :=
| parent_ends p :
    process_step c p (mkProcess true (ps_group p) (ps_members p) (ps_return p) (ps_closed p) (ps_logged p) (ps_order p))
| member_steps p i m b m' : ps_members p !! i = Some (m, b) -> m_step (ctx_done p) m m' ->
    process_step c p (with_members (<[i := (m', b)]> (ps_members p)) p)
| member_returns p i m e : ps_members p !! i = Some (m, false) -> m_result m = Some e ->
    process_step c p (member_returned i m e p)
| run_returns p : all_returned p = true -> ps_return p = None -> process_step c p (Run_return c p).

End run.

(** ** Lemmas on the group *)

Section group_facts.
Context `{ErrGroupLaws} {M : Type} `{MembersLaws M} (ms : list M) (c : closer).

(** What the members whose goroutine returned have returned. *)
Definition told (mb : M * bool) : option (option run_error) := if mb.2 then m_result mb.1 else None.

Record process_ok (p : process M) : Prop := {
  po_wait : group_Wait (ps_group p) = head (omap id (ps_order p));
  po_cancelled : group_cancelled (ps_group p) = bool_decide (omap id (ps_order p) <> []);
  po_order : ps_order p ≡ₚ omap told (ps_members p);
  po_told mb : mb ∈ ps_members p -> mb.2 = true -> is_Some (m_result mb.1);
  po_members : Forall2 (fun m0 mb => rtc (any m_step) m0 mb.1) ms (ps_members p);
  po_return e : ps_return p = Some e -> all_returned p = true /\ e = group_Wait (ps_group p);
  po_closed : ps_closed p = match ps_return p, c with Some _, Some _ => 1%nat | _, _ => 0%nat end }.

Lemma omap_insert_same {A B} (f : A -> option B) (l : list A) i x y :
  l !! i = Some x -> f y = f x -> omap f (<[i := y]> l) = omap f l.
Proof.
  revert i. induction l as [|z l IH]; intros [|i] Hi Hf; csimpl in *; simplify_eq; [by rewrite Hf|]. by rewrite (IH i).
Qed.

Lemma omap_insert_new {A B} (f : A -> option B) (l : list A) i x y z :
  l !! i = Some x -> f x = None -> f y = Some z -> omap f (<[i := y]> l) ≡ₚ z :: omap f l.
Proof.
  revert i. induction l as [|w l IH]; intros [|i] Hi Hx Hy; csimpl in *; simplify_eq; [by rewrite Hx, Hy|].
  destruct (f w) as [b|]; [|by apply IH]. rewrite (IH i Hi Hx Hy). apply Permutation_swap.
Qed.

Lemma Forall2_insert_r {A B} (P : A -> B -> Prop) la lb i y z :
  Forall2 P la lb -> lb !! i = Some y -> (forall x, P x y -> P x z) -> Forall2 P la (<[i := z]> lb).
Proof.
  intros HF. revert i. induction HF as [|a b la lb Hab HF IH]; intros [|i] Hi Hz; csimpl in *; simplify_eq; constructor; eauto.
Qed.

Lemma start_ok : process_ok (Run_start ms).
Proof.
  destruct group_fresh as [Hg Hw]. constructor; cbn; try done.
  - assert (omap told ((., false) <$> ms) = []) as ->; [|done]. induction ms as [|m l IH]; [done|]. exact IH.
  - intros mb (m & -> & _)%list_elem_of_fmap. done.
  - induction ms as [|m l IH]; cbn; constructor; [apply rtc_refl|done].
Qed.

Lemma all_returned_spec (p : process M) : all_returned p = true <-> forall mb, mb ∈ ps_members p -> mb.2 = true.
Proof.
  unfold all_returned. rewrite forallb_forall. split; intros Hf mb Hin; apply Hf; by apply list_elem_of_In.
Qed.

Lemma insert_elem {A} (l : list A) i x y : x ∈ <[i := y]> l -> x = y \/ x ∈ l.
Proof.
  revert i. induction l as [|z l IH]; intros [|i] Hin; cbn in *; [set_solver..|].
  apply elem_of_cons in Hin as [->|Hin]; [right; left|]. destruct (IH i Hin); [by left|right; by right].
Qed.

Lemma process_step_ok p p' : process_ok p -> process_step c p p' -> process_ok p'.
Proof.
  intros Hok Hs. pose proof Hok as [Hw Hc Ho Ht Hm Hr Hcl]. destruct Hs as [p|p i m b m' Hi Hst|p i m e Hi Hres|p Hall Hnone].
  - by constructor.
  - assert (told (m', b) = told (m, b)) as Etold.
    { unfold told. cbn. destruct b; [|done]. destruct (Ht (m, true)) as [e He]; [by eapply list_elem_of_lookup_2|done|].
      cbn in He. rewrite He. by eapply m_final. }
    assert (all_returned (with_members (<[i := (m', b)]> (ps_members p)) p) = all_returned p) as Eall.
    { unfold all_returned. cbn [with_members ps_members]. clear -Hi. revert i Hi. induction (ps_members p) as [|z l IH]; intros [|i] Hi; csimpl in *; simplify_eq; [done|].
      by rewrite (IH i Hi). }
    constructor; rewrite ?Eall; cbn [with_members ps_parent ps_group ps_members ps_return ps_closed ps_logged ps_order]; try done.
    + by rewrite (omap_insert_same told _ _ _ _ Hi Etold).
    + intros mb [->|Hin]%insert_elem Hb; [|by apply Ht]. cbn in *. subst b. unfold told in Etold. cbn in Etold. rewrite Etold.
      by apply (Ht (m, true)); [eapply list_elem_of_lookup_2|].
    + eapply Forall2_insert_r; [done..|]. cbn. intros x Hx. eapply rtc_r; [done|]. by eexists.
  - constructor; cbn [member_returned ps_parent ps_group ps_members ps_return ps_closed ps_logged ps_order]; try done.
    + rewrite returned_Wait, Hw, omap_app. cbn. by destruct (omap id (ps_order p)), e.
    + rewrite returned_cancelled, Hc, omap_app. by destruct (omap id (ps_order p)), e.
    + rewrite (omap_insert_new told _ _ _ (m, true) e Hi); [|done..]. rewrite Ho. by rewrite Permutation_app_comm.
    + intros mb [->|Hin]%insert_elem Hb; [by eexists|by apply Ht].
    + eapply Forall2_insert_r; [done..|]. done.
    + intros e' He'. destruct (Hr e' He') as [Hall _]. rewrite all_returned_spec in Hall.
      assert (false = true) by (apply (Hall (m, false)); by eapply list_elem_of_lookup_2). done.
  - rewrite Hnone in Hcl. unfold Run_return, Service_close. destruct c as [err|] eqn:Ec; constructor; cbn; try done.
    2, 4: by rewrite Ec, Hcl.
    all: by intros e [= <-].
Qed.

Lemma process_reach_ok p : rtc (process_step c) (Run_start ms) p -> process_ok p.
Proof. intros Hr. pose proof start_ok as H0'. revert Hr H0'. apply rtc_keeps. intros x y Hs Hx. by eapply process_step_ok. Qed.

(** A run of one member under an ended context, inside the process. *)
Lemma member_runs p i m b m' :
  ctx_done p = true -> ps_members p !! i = Some (m, b) -> rtc (m_step true) m m' ->
  rtc (process_step c) p (with_members (<[i := (m', b)]> (ps_members p)) p).
Proof.
  intros Hd Hi Hr. revert p Hd Hi. induction Hr as [m|m m1 m2 Hs _ IH]; intros p Hd Hi.
  - rewrite list_insert_id by done. by destruct p.
  - eapply rtc_l; [eapply member_steps; [done|by rewrite Hd]|].
    set (p1 := with_members _ p). assert (ps_members p1 !! i = Some (m1, b)) as Hi1.
    { cbn. rewrite list_lookup_insert_eq; [done|]. by eapply lookup_lt_Some. }
    specialize (IH p1 Hd Hi1). cbn in IH. by rewrite list_insert_insert_eq in IH.
Qed.

(** The goroutines still running. *)
Definition running (p : process M) : nat := length (filter (fun mb : M * bool => mb.2 = false) (ps_members p)).

Lemma filter_flag_insert {A} (l : list (A * bool)) i m m' :
  l !! i = Some (m, false) ->
  length (filter (fun mb : A * bool => mb.2 = false) l) = S (length (filter (fun mb : A * bool => mb.2 = false) (<[i := (m', true)]> l))).
Proof.
  revert i. induction l as [|[x b] l IH]; intros [|i] Hi; csimpl in *; simplify_eq.
  - by rewrite !filter_cons.
  - rewrite !filter_cons. destruct b; [rewrite !decide_False by done; by apply IH|].
    rewrite !decide_True by done. cbn [length]. by rewrite (IH i Hi).
Qed.

Lemma run_can_end p : Forall m_started ms -> process_ok p -> ctx_done p = true -> ps_return p = None ->
  exists p', rtc (process_step c) p p' /\ is_Some (ps_return p').
Proof.
  intros Hst. remember (running p) as n eqn:En. revert p En. induction n as [|n IH]; intros p En Hok Hd Hnone.
  - eexists. split; [apply rtc_once, run_returns; [|done]|by eexists]. apply all_returned_spec. intros mb Hin.
    destruct mb as [m []]; [done|]. exfalso. symmetry in En. apply nil_length_inv in En.
    assert ((m, false) ∈ filter (fun mb : M * bool => mb.2 = false) (ps_members p)) as Hf by (by apply list_elem_of_filter).
    rewrite En in Hf. by apply not_elem_of_nil in Hf.
  - destruct (filter (fun mb : M * bool => mb.2 = false) (ps_members p)) as [|[m b] l] eqn:Ef; [unfold running in En; by rewrite Ef in En|].
    assert ((m, b) ∈ filter (fun mb : M * bool => mb.2 = false) (ps_members p)) as Hf by (rewrite Ef; by left).
    apply list_elem_of_filter in Hf as [Hb [i Hi]%list_elem_of_lookup_1]. cbn in Hb. subst b.
    destruct (Forall2_lookup_r _ _ _ _ _ (po_members _ Hok) Hi) as (m0 & Hi0 & Hreach). cbn in Hreach.
    destruct (m_ends m0 m) as (m' & Hrun & e & He); [by eapply Forall_lookup_1|done|].
    set (p1 := with_members (<[i := (m', false)]> (ps_members p)) p).
    assert (rtc (process_step c) p p1) as Hp1 by (by eapply member_runs).
    assert (ps_members p1 !! i = Some (m', false)) as Hi1.
    { cbn. rewrite list_lookup_insert_eq; [done|]. by eapply lookup_lt_Some. }
    assert (process_step c p1 (member_returned i m' e p1)) as Hp2 by (by apply member_returns).
    assert (rtc (process_step c) p (member_returned i m' e p1)) as Hp by (by eapply rtc_r).
    destruct (IH (member_returned i m' e p1)) as (p' & Hp' & Hr').
    + unfold running in *. cbn [member_returned ps_members p1 with_members]. rewrite list_insert_insert_eq.
      rewrite (filter_flag_insert _ _ _ m' Hi) in En. lia.
    + revert Hp Hok. apply rtc_keeps. intros x y Hs Hx. by eapply process_step_ok.
    + unfold ctx_done in *. cbn. rewrite returned_cancelled. apply orb_true_iff in Hd as [->| ->]; [done|]. by rewrite orb_true_r.
    + done.
    + exists p'. split; [by etrans|done].
Qed.

Lemma all_told (l : list (M * bool)) : (forall mb, mb ∈ l -> mb.2 = true) -> omap told l = omap (fun mb => m_result mb.1) l.
Proof.
  induction l as [|[m b] l IH]; intros Hall; [done|]. csimpl. rewrite IH; [|intros mb Hin; apply Hall; by right].
  assert (b = true) as -> by (apply (Hall (m, b)); by left). done.
Qed.

End group_facts.

(** ** The claim on Run *)

(** The service ends as one. In every state [Run] can be in, over any members
    that keep the interface: it returns only when every goroutine has
    returned, and then the first error in the order they returned, or nil when
    none failed; the counter store is closed once, and not before that. The
    context of the members ends when the parent's does or one of them fails,
    and once it has, [Run] can always return. *)
Theorem run_ends_together `{ErrGroupLaws} {M : Type} `{MembersLaws M} (ms : list M) (c : closer) (p : process M) :
  Forall m_started ms -> rtc (process_step c) (Run_start ms) p ->
  (forall e, ps_return p = Some e ->
     (forall mb, mb ∈ ps_members p -> is_Some (m_result mb.1)) /\
     ps_order p ≡ₚ omap (fun mb => m_result mb.1) (ps_members p) /\
     e = head (omap id (ps_order p))) /\
  ps_closed p = match ps_return p, c with Some _, Some _ => 1%nat | _, _ => 0%nat end /\
  (ctx_done p = true <-> ps_parent p = true \/ exists e, Some e ∈ ps_order p) /\
  (ctx_done p = true -> exists p', rtc (process_step c) p p' /\ is_Some (ps_return p')).
Proof.
  intros Hst Hr. pose proof (process_reach_ok _ _ _ Hr) as Hok. split_and!.
  - intros e He. destruct (po_return _ _ _ Hok e He) as [Hall ->]. rewrite all_returned_spec in Hall. split_and!.
    + intros mb Hin. by apply (po_told _ _ _ Hok); [|apply Hall].
    + rewrite (po_order _ _ _ Hok), (all_told _ Hall). done.
    + apply (po_wait _ _ _ Hok).
  - apply (po_closed _ _ _ Hok).
  - unfold ctx_done. rewrite orb_true_iff, (po_cancelled _ _ _ Hok), bool_decide_eq_true.
    assert (omap id (ps_order p) <> [] <-> exists e, Some e ∈ ps_order p) as Hiff; [|tauto].
    split.
    + destruct (omap id (ps_order p)) as [|e l] eqn:E; [done|]. intros _. exists e.
      assert (e ∈ omap id (ps_order p)) as Hin by (rewrite E; by left). apply list_elem_of_omap in Hin as (x & Hx & Hid). by rewrite <- Hid.
    + intros (e & He) E. assert (e ∈ omap id (ps_order p)) as Hin by (apply list_elem_of_omap; by exists (Some e)).
      rewrite E in Hin. by apply not_elem_of_nil in Hin.
  - intros Hd. destruct (ps_return p) as [e|] eqn:E; [exists p; by rewrite E|]. by eapply run_can_end.
Qed.

(** ** main.go and signal.go: the process around Run *)

(** process.go: the namespace the installation serves, from the property
    [cloud.namespace]; unset is an error. *)
Definition Namespace (property : string) : result string string :=
  if bool_decide (property = "") then Err "CLOUD_NAMESPACE must be set" else Ok property.

(** The version of the environment, or the one of the build. *)
Definition serviceVersion (environment version : string) : string :=
  if negb (bool_decide (environment = "")) then environment else version.

(** How the process ends: by [os.Exit] or a return of [main], or by the default
    action of a signal. *)
Inductive exit := Status (code : Z) | Killed.

(** Where the goroutine of [SignalContext] stands. *)
Inductive signal_pc :=
| AwaitFirst      (** in the select *)
| Cancelling      (** received a signal, about to cancel *)
| AwaitSecond     (** about to receive again *)
| SignalsDone.    (** returned, the context having ended *)

(** The channel of signals by its length, whether it is registered, whether
    [main] has called [stop], and the signals the process was sent so far. The
    context of [SignalContext] is the parent of the one in [Run]. *)
Record main_state `{ErrGroup} (M : Type) := mkMain {
  mn_process : process M;
  mn_signals : nat;
  mn_notify : bool;
  mn_watch : signal_pc;
  mn_stopped : bool;
  mn_exit : option exit;
  mn_sent : nat }.
#[global] Arguments mkMain {_} {M}.
#[global] Arguments mn_process {_ M}.
#[global] Arguments mn_signals {_ M}.
#[global] Arguments mn_notify {_ M}.
#[global] Arguments mn_watch {_ M}.
#[global] Arguments mn_stopped {_ M}.
#[global] Arguments mn_exit {_ M}.
#[global] Arguments mn_sent {_ M}.

Section main.
Context `{ErrGroup} {M : Type} `{Members M}.

Definition cancel (p : process M) : process M :=
  mkProcess true (ps_group p) (ps_members p) (ps_return p) (ps_closed p) (ps_logged p) (ps_order p).

(** The capacity of the channel; a signal that finds it full is dropped. *)
Definition signals_cap : nat := 2.

Definition SignalContext (p : process M) : main_state M := mkMain p 0 true AwaitFirst false None 0.

(** The function [SignalContext] returns. *)
Definition stop (s : main_state M) : main_state M :=
  mkMain (cancel (mn_process s)) (mn_signals s) false (mn_watch s) true (mn_exit s) (mn_sent s).

Definition exit_code (err : option run_error) : Z := match err with Some _ => 1 | None => 0 end.

(** [main] up to the call of [Run]. *)
Definition service_main (property : string) (build : string -> result wiring_error (list M)) : exit + main_state M :=
  match Namespace property with
  | Err _ => inl (Status 1)
  | Ok namespace =>
      match build namespace with
      | Err _ => inl (Status 1)
      | Ok ms => inr (SignalContext (Run_start ms))
      end
  end.

(** From the call of [SignalContext] on; a signal that comes earlier finds the
    runtime's own handling. *)
Inductive main_step (c : closer) : main_state M -> main_state M -> Prop :=
| signal_arrives p n w st k :
    main_step c (mkMain p n true w st None k) (mkMain p (S n `min` signals_cap) true w st None (S k))
| signal_unhandled p n w st k :
    main_step c (mkMain p n false w st None k) (mkMain p n false w st (Some Killed) (S k))
| signal_first p n nt st k :
    main_step c (mkMain p (S n) nt AwaitFirst st None k) (mkMain p n nt Cancelling st None k)
| signal_ctx_done p n nt st k : ps_parent p = true ->
    main_step c (mkMain p n nt AwaitFirst st None k) (mkMain p n nt SignalsDone st None k)
| signal_cancels p n nt st k :
    main_step c (mkMain p n nt Cancelling st None k) (mkMain (cancel p) n nt AwaitSecond st None k)
| signal_second p n nt st k :
    main_step c (mkMain p (S n) nt AwaitSecond st None k) (mkMain p n nt AwaitSecond st (Some (Status 1)) k)
| service_runs p p' n nt w st k : process_step c p p' -> ps_parent p' = ps_parent p ->
    main_step c (mkMain p n nt w st None k) (mkMain p' n nt w st None k)
| service_stops p e n nt w k : ps_return p = Some e ->
    main_step c (mkMain p n nt w false None k) (stop (mkMain p n nt w false None k))
| main_returns p e n nt w k : ps_return p = Some e ->
    main_step c (mkMain p n nt w true None k) (mkMain p n nt w true (Some (Status (exit_code e))) k).

End main.

Section main_facts.
Context `{ErrGroupLaws} {M : Type} `{MembersLaws M} (ms : list M) (c : closer).

(** The process without the end of its parent context, which only the signals
    bring about here. *)
Record main_ok (s : main_state M) : Prop := {
  mo_process : rtc (process_step c) (Run_start ms) (mn_process s);
  mo_notify : mn_notify s = negb (mn_stopped s);
  mo_stopped : mn_stopped s = true -> is_Some (ps_return (mn_process s)) /\ ps_parent (mn_process s) = true;
  mo_parent : ps_parent (mn_process s) = true -> (1 <= mn_sent s)%nat \/ mn_stopped s = true;
  mo_watch : match mn_watch s with
    | AwaitFirst => mn_signals s = (mn_sent s `min` signals_cap)%nat \/ mn_stopped s = true
    | Cancelling => (S (mn_signals s) <= mn_sent s)%nat
    | AwaitSecond => ps_parent (mn_process s) = true /\ (S (mn_signals s) <= mn_sent s)%nat
    | SignalsDone => ps_parent (mn_process s) = true
    end;
  mo_room : (mn_signals s <= mn_sent s)%nat;
  mo_exit : forall x, mn_exit s = Some x ->
    match x with
    | Status code => (2 <= mn_sent s)%nat /\ code = 1 \/
        exists e, mn_stopped s = true /\ ps_return (mn_process s) = Some e /\ code = exit_code e
    | Killed => mn_stopped s = true
    end }.

Lemma cancel_step p : process_step c p (cancel p).
Proof. apply parent_ends. Qed.

Lemma main_start_ok : main_ok (SignalContext (Run_start ms)).
Proof. split; cbn; try done; by left. Qed.

Lemma process_return_kept p p' e : process_step c p p' -> ps_return p = Some e -> ps_return p' = Some e.
Proof. destruct 1; cbn; congruence. Qed.

Lemma main_step_ok s s' : main_ok s -> main_step c s s' -> main_ok s'.
Proof.
  intros [Hp Hn Hst Hpa Hw Hr Hx] Hs. destruct Hs; cbn in *; split; cbn in *; try done; try lia; try naive_solver lia.
  all: try (by eapply rtc_r; [|apply cancel_step]).
  all: try (by eapply rtc_r).
  all: unfold signals_cap in *; rewrite ?H4; try done.
  all: try (destruct w; naive_solver lia).
  all: try (intros x [= <-]; cbn; naive_solver lia).
  3:{ intros E. destruct (Hst E) as [[e He] ?]. split; [exists e; by eapply process_return_kept|done]. }
  all: destruct st; [|done].
  - destruct w; naive_solver lia.
  - by intros x [= <-].
Qed.

Lemma main_reach_ok s : rtc (main_step c) (SignalContext (Run_start ms)) s -> main_ok s.
Proof. intros Hr. pose proof main_start_ok as Hs. revert Hr Hs. apply rtc_keeps. intros x y Hxy Hx. by eapply main_step_ok. Qed.

(** Steps of [Run] under an ended context are steps of the process. *)
Lemma service_rtc p p' n nt w st k : ps_parent p = true -> rtc (process_step c) p p' ->
  rtc (main_step c) (mkMain p n nt w st None k) (mkMain p' n nt w st None k) /\ ps_parent p' = true.
Proof.
  intros Hp Hr. induction Hr as [p|p p1 p2 Hs _ IH]; [done|].
  assert (ps_parent p1 = true) as H1' by (destruct Hs; cbn; try done; unfold Service_close; destruct c; done).
  destruct (IH H1') as [Hm ?]. split; [|done]. eapply rtc_l; [|exact Hm]. apply service_runs; [done|congruence].
Qed.

(** Once the context has ended, [main] can return with the status of [Run]. *)
Lemma main_can_return p n nt w st k : Forall m_started ms -> main_ok (mkMain p n nt w st None k) -> ps_parent p = true ->
  exists s' e, rtc (main_step c) (mkMain p n nt w st None k) s' /\ mn_sent s' = k /\
    ps_return (mn_process s') = Some e /\ mn_exit s' = Some (Status (exit_code e)).
Proof.
  intros Hms Hok Hp. assert (exists p' e, rtc (process_step c) p p' /\ ps_return p' = Some e) as (p' & e & Hr & He).
  { destruct (ps_return p) as [e|] eqn:E; [by exists p, e|].
    destruct (run_can_end ms c p) as (p' & Hr & e & He); [done|by apply process_reach_ok, Hok| |done|by exists p', e].
    unfold ctx_done. by rewrite Hp. }
  destruct (service_rtc p p' n nt w st k Hp Hr) as [Hm Hp'].
  assert (main_step c (mkMain p' n nt w true None k) (mkMain p' n nt w true (Some (Status (exit_code e))) k)) as Hlast by (by apply main_returns).
  destruct st.
  - exists (mkMain p' n nt w true (Some (Status (exit_code e))) k), e. split; [by eapply rtc_r|done].
  - exists (mkMain (cancel p') n false w true (Some (Status (exit_code e))) k), e. split; [|done].
    etrans; [exact Hm|]. eapply rtc_l; [by apply (service_stops c p' e)|]. apply rtc_once. by apply main_returns.
Qed.

(** A signal that was sent ends the context. *)
Lemma signal_ends_context s : main_ok s -> mn_exit s = None -> (1 <= mn_sent s)%nat ->
  exists s', rtc (main_step c) s s' /\ ps_parent (mn_process s') = true /\ mn_exit s' = None /\ mn_sent s' = mn_sent s.
Proof.
  intros [Hp Hn Hst Hpa Hw Hr Hx] He Hs. destruct s as [p n nt w st x k]. cbn in *. subst x.
  destruct (ps_parent p) eqn:Ep; [by eexists|].
  assert (main_step c (mkMain p n nt Cancelling st None k) (mkMain (cancel p) n nt AwaitSecond st None k)) as Hc by constructor.
  destruct w; [|eexists; split; [apply rtc_once, Hc|done]|by destruct Hw|done].
  destruct Hw as [->|E]; [|by destruct (Hst E)]. destruct k as [|k]; [lia|]. cbn.
  eexists. split; [eapply rtc_l; [apply signal_first|apply rtc_once, signal_cancels]|done].
Qed.

End main_facts.

(** C37: The process ends as its signals and [Run] say. In every state it can be in:
    the context ends only on a signal or when [Run] has returned; it exits
    before that only on a second signal, with status 1; it is killed by a
    signal only when [Run] has returned, so never with the counter store open;
    with fewer than two signals its status is 0 exactly when [Run] returned
    no error. And once a signal was sent, it can always drain and exit with
    the status of [Run], without another one. *)
Theorem main_exit_exact `{ErrGroupLaws} {M : Type} `{MembersLaws M} (property : string)
    (build : string -> result wiring_error (list M)) (c : closer) (s0 s : main_state M) :
  (forall ns ms, build ns = Ok ms -> Forall m_started ms) ->
  service_main property build = inr s0 -> rtc (main_step c) s0 s ->
  property <> "" /\
  (ps_parent (mn_process s) = true -> (1 <= mn_sent s)%nat \/ is_Some (ps_return (mn_process s))) /\
  (forall code, mn_exit s = Some (Status code) ->
     (2 <= mn_sent s)%nat /\ code = 1 \/ exists e, ps_return (mn_process s) = Some e /\ code = exit_code e) /\
  (mn_exit s = Some Killed -> is_Some (ps_return (mn_process s)) /\ ps_closed (mn_process s) = match c with Some _ => 1%nat | None => 0%nat end) /\
  ((1 <= mn_sent s)%nat -> mn_exit s = None ->
     exists s' e, rtc (main_step c) s s' /\ mn_sent s' = mn_sent s /\
       ps_return (mn_process s') = Some e /\ mn_exit s' = Some (Status (exit_code e))).
Proof.
  unfold service_main, Namespace. intros Hb Hm Hr. case_bool_decide; [done|].
  destruct (build property) as [ms|] eqn:Eb; simplify_eq. pose proof (main_reach_ok ms c s Hr) as Hok. split_and!; [done|..].
  - intros Hp. destruct (mo_parent _ _ _ Hok Hp) as [|E]; [by left|right]. apply (mo_stopped _ _ _ Hok E).
  - intros code E. destruct (mo_exit _ _ _ Hok _ E) as [|(e & _ & ? & ?)]; [by left|right; by exists e].
  - intros E. pose proof (mo_exit _ _ _ Hok _ E) as Hst. destruct (mo_stopped _ _ _ Hok Hst) as [[e He] _]. split; [by exists e|].
    pose proof (po_closed _ _ _ (process_reach_ok ms c _ (mo_process _ _ _ Hok))) as Hc. by rewrite He in Hc.
  - intros Hs He. destruct (signal_ends_context ms c s Hok He Hs) as ([p n nt w st x k] & Hs' & Hp & Hx & Hk). cbn in *. subst x.
    assert (main_ok ms c (mkMain p n nt w st None k)) as Hok'.
    { revert Hs' Hok. apply rtc_keeps. intros x y Hxy Hx. by eapply main_step_ok. }
    destruct (main_can_return ms c p n nt w st k) as (s' & e & Hr' & Hk' & Hret & Hex); [by eapply Hb|done..|].
    exists s', e. split; [by etrans|]. by rewrite Hk', Hk.
Qed.

(** ** The members of the service *)

(** [redisconn.Source.Run]: what a turn of its select receives. *)
Inductive source_event := SrcTick (a : answer) | SrcDone.

Record source_runner := mkSourceRunner { sc_Connection : Connection; sc_result : option (option run_error) }.

Definition source_Run `{URLs} (done : bool) (e : source_event) (s : source_runner) : option source_runner :=
  match sc_result s, e with
  | Some _, _ => None
  | None, SrcDone => if done then Some (mkSourceRunner (sc_Connection s) (Some None)) else None
  | None, SrcTick a =>
      match reload a (sc_Connection s) with
      | Ok c => Some (mkSourceRunner c None)
      | Err moved => Some (mkSourceRunner (sc_Connection s) (Some (Some (StoreMoved (Addr (sc_Connection s)) moved))))
      end
  end.

(** [warnOnEviction]: the warning logged, if any. [canceled] is whether the
    context of the call was canceled when the check answered; a call past its
    deadline was not. *)
Definition storeCheckTimeout : Z := 10 * Second.
Definition warnOnEviction (canceled : bool) (checked : result (option string) unit) : option (option string) :=
  match checked with
  | Err e => if canceled then None else Some e
  | Ok _ => None
  end.

Inductive check_runner := Checking | Checked (warning : option (option string)).

Section service.
Context {PL : Platform} {WI : Wire} `{UR : URLs}.
Context {GS FS HS : NetServer}.
Context (SnapshotVersion : Snapshot -> string) (reason_text : refusal_reason -> string) (ns : string).
Context (spec_of : string -> RateLimitPolicySpec).
Context (service_name : string) (IsTlsEnabled : bool) (options : Options).

(** The goroutines [Run] starts. *)
Inductive member :=
| MWatch (l : loop)
| MRls (r : rls_runner (H := GS))
| MSource (s : source_runner)
| MCheck (k : check_runner)
| MManagement (g : mgmt_runner (H := FS))
| MHttp (name addr : string) (h : http_runner (H := HS)).

Definition watch_step (e : event) : loop -> option loop :=
  loop_step SnapshotVersion reason_text ns (op_Resync options) 0 e.

(** A step of a goroutine, under a context that has ended or not. The
    directories the kubelet mounts carry the payloads their hashes name. *)
Inductive member_step (done : bool) : member -> member -> Prop :=
| watch_steps e l l' : (e = EvCancelled -> done = true) -> Forall (directory_hashed spec_of) (event_dirs [e]) ->
    watch_step e l = Some l' -> member_step done (MWatch l) (MWatch l')
| rls_steps r r' : rls_step (op_RLSAddr options) service_name (op_DrainTimeout options) done r r' ->
    member_step done (MRls r) (MRls r')
| source_steps e s s' : source_Run done e s = Some s' -> member_step done (MSource s) (MSource s')
| check_steps canceled values : (canceled = true -> done = true) ->
    member_step done (MCheck Checking) (MCheck (Checked (warnOnEviction canceled (CheckEviction values))))
| management_steps g g' : mgmt_step (op_ManagementAddr options) IsTlsEnabled true (op_DrainTimeout options) done g g' ->
    member_step done (MManagement g) (MManagement g')
| http_steps name addr h h' : http_step name addr done h h' -> member_step done (MHttp name addr h) (MHttp name addr h').

Definition member_result (m : member) : option (option run_error) :=
  match m with
  | MWatch l => match lp_pc l with Exited err => Some (CreateWatcher <$> err) | _ => None end
  | MRls r => rls_result r
  | MSource s => sc_result s
  | MCheck (Checked _) => Some None
  | MCheck Checking => None
  | MManagement g => mgmt_result g
  | MHttp _ _ h => http_result h
  end.

Definition member_started (m : member) : Prop :=
  match m with
  | MWatch l => exists now dir, directory_hashed spec_of dir /\ l = new_loop now dir
  | MRls r => exists now, r = rls_new now
  | MSource s => sc_result s = None
  | MCheck k => k = Checking
  | MManagement g => g = mgmt_new
  | MHttp _ _ h => h = http_new
  end.

#[export] Instance service_Members : Members member := {|
  m_started := member_started;
  m_step := member_step;
  m_result := member_result |}.

(** What [Run] starts of a service that was built. *)
Definition run_members (s : Service) (now : Z) (dir : directory) : list member :=
  [MWatch (new_loop now dir); MRls (rls_new now)] ++
  match sr_Connection s with Some c => [MSource (mkSourceRunner c None)] | None => [] end ++
  match cb_CheckEviction (sr_Backend s) with Some _ => [MCheck Checking] | None => [] end ++
  match sr_Management s with Some _ => [MManagement mgmt_new] | None => [] end ++
  match sr_Metrics s with Some _ => [MHttp "metrics" (op_MetricsAddr options) http_new] | None => [] end ++
  match sr_Probes s with Some _ => [MHttp "probes" (op_ProbeAddr options) http_new] | None => [] end.

(** [Ready], over the runner and the applier of the process. *)
Definition Service_Ready (r : rls_runner (H := GS)) (a : Applier) : result string unit :=
  match Healthz r with
  | Err e => Err e
  | Ok _ => if negb (Ready a) then Err "no configuration has been applied yet" else Ok tt
  end.

Definition readyz (r : rls_runner (H := GS)) (a : Applier) : Z :=
  match Service_Ready r a with Err _ => 503 | Ok _ => 200 end.

End service.

(** ** Lemmas on the members *)

(** A member of the process is one of the started ones, further on. *)
Lemma members_reach `{ErrGroup} {M : Type} `{Members M} (ms : list M) (c : closer) (p : process M) :
  rtc (process_step c) (Run_start ms) p -> Forall2 (fun m0 mb => rtc (any m_step) m0 mb.1) ms (ps_members p).
Proof.
  intros Hr. eapply (rtc_keeps (fun p => Forall2 (fun m0 mb => rtc (any m_step) m0 mb.1) ms (ps_members p))); [|exact Hr|].
  - intros x y Hs Hx. destruct Hs as [q|q i m b m' Hi Hst|q i m e Hi Hres|q Hall Hnone]; cbn; try done.
    + eapply Forall2_insert_r; [done..|]. cbn. intros z Hz. eapply rtc_r; [done|]. by eexists.
    + by eapply Forall2_insert_r.
    + by destruct c.
  - clear Hr. cbn. induction ms as [|m l IH]; cbn; constructor; [apply rtc_refl|]. by apply IH.
Qed.

Section members.
Context {PL : Platform} {WI : Wire} `{UR : URLs}.
Context {GS FS HS : NetServer} `{!NetServerLaws (H := GS)} `{!NetServerLaws (H := FS)} `{!NetServerLaws (H := HS)}.
Context `{!GracefulShutdown (H := GS)} `{!BoundedShutdown (H := FS)} `{!BoundedShutdown (H := HS)}.
Context (SnapshotVersion : Snapshot -> string) (reason_text : refusal_reason -> string) (ns : string).
Context (spec_of : string -> RateLimitPolicySpec) (Hempty : unmarshal_version "" = None).
Context (service_name : string) (IsTlsEnabled : bool) (options : Options).

Abbreviation mstep := (member_step (GS := GS) (FS := FS) (HS := HS) SnapshotVersion reason_text ns spec_of service_name IsTlsEnabled options).
Abbreviation mem := (member (GS := GS) (FS := FS) (HS := HS)).
Abbreviation mres := (member_result (GS := GS) (FS := FS) (HS := HS)).
Abbreviation lok := (loop_ok SnapshotVersion ns (op_Resync options) 0 spec_of).

(** The applier is ready only once a reading was applied. *)
Definition ready_applied (l : loop) : Prop := Ready (lp_applier l) = true -> is_Some (wt_applied (lp_watcher l)).

Lemma read_ready_applied dir at_ w a w' a' :
  (Ready a = true -> is_Some (wt_applied w)) -> read SnapshotVersion reason_text ns dir at_.1 at_.2 w a = Some (w', a') ->
  Ready a' = true -> is_Some (wt_applied w').
Proof.
  intros Hr. unfold read, present. destruct (Read dir) as [cfg|[| |refusal]].
  - destruct (_ && _); [intros [= <- <-]; destruct (wt_absent w); exact Hr|].
    destruct (Apply _ _ _ _ _ _) as [a1|]; [|done]. cbn. intros [= <- <-] _. by eexists.
  - destruct (wt_absent w); intros [= <- <-]; exact Hr.
  - intros [= <- <-]. destruct (wt_absent w); exact Hr.
  - destruct (bytes_Equal _ _); intros [= <- <-]; destruct (wt_absent w); exact Hr.
Qed.

Lemma loop_read_ready_applied at_ l l' :
  ready_applied l -> loop_read SnapshotVersion reason_text ns at_ l = Some l' -> ready_applied l'.
Proof.
  unfold ready_applied, loop_read. intros Hr. destruct (read _ _ _ _ _ _ _ _) as [[w a]|] eqn:E; [|done]. cbn. intros [= <-].
  by eapply read_ready_applied.
Qed.

Lemma watch_ready_applied e l l' :
  watch_step SnapshotVersion reason_text ns options e l = Some l' -> ready_applied l -> ready_applied l'.
Proof.
  unfold watch_step, loop_step, run_start, run_select, environment. intros Hs Hr.
  assert (forall pc w pe n, ready_applied (with_channels pc w pe n l)) as Hw by done.
  destruct e as [[] added at_| | | |at_|added at_|dir|d], (lp_pc l); try done; try (by injection Hs as <-).
  - destruct (loop_read _ _ _ _ _) as [l1|] eqn:E; [|done]. injection Hs as <-. by eapply loop_read_ready_applied in E.
  - destruct (bool_decide _); [|done]. by eapply loop_read_ready_applied; [|exact Hs].
  - destruct (_ =? _); [|done]. by eapply loop_read_ready_applied; [|exact Hs].
  - destruct (_ && _); [|done]. by injection Hs as <-.
  - destruct (_ && _); [|done]. by injection Hs as <-.
  - destruct (_ && _); [|done]. by injection Hs as <-.
Qed.

Definition member_ok (m : member (GS := GS) (FS := FS) (HS := HS)) : Prop :=
  match m with
  | MWatch l => lok l /\ ready_applied l
  | MRls r => rls_ok service_name r
  | MManagement g => mgmt_calls (op_ManagementAddr options) IsTlsEnabled true (op_DrainTimeout options) g
  | MHttp _ _ h => http_calls h
  | _ => True
  end.

Lemma member_started_ok m : member_started spec_of m -> member_ok m.
Proof.
  destruct m; cbn; try done.
  - intros (now & dir & Hd & ->). split; [by apply new_loop_ok|done].
  - intros (now & ->). apply rls_new_ok.
  - intros ->. apply mgmt_new_ok.
  - by intros ->.
Qed.

Lemma member_step_ok done m m' : mstep done m m' -> member_ok m -> member_ok m'.
Proof.
  intros Hs. destruct Hs as [e l l' Hd He Hl|r r' Hr| | |g g' Hg|name addr h h' Hh]; cbn; try done.
  - intros [Hok Hra]. split; [by eapply loop_step_ok|by eapply watch_ready_applied].
  - intros Hok. by eapply rls_step_ok.
  - intros Hok. by eapply mgmt_step_ok.
  - intros Hok. by eapply http_step_ok.
Qed.

Lemma member_reach_ok m0 m : member_started spec_of m0 -> rtc (any mstep) m0 m -> member_ok m.
Proof.
  intros H0 Hr. apply member_started_ok in H0. revert Hr H0. apply rtc_keeps. intros x y [dn Hs]. by eapply member_step_ok.
Qed.

Lemma member_final done m m' e : mstep done m m' -> mres m = Some e -> mres m' = Some e.
Proof.
  intros Hs. destruct Hs as [ev l l' Hd He Hl|r r' Hr|ev s s' Hsr| |g g' Hg|name addr h h' Hh]; cbn; try done.
  - unfold watch_step, loop_step, environment in Hl. destruct (lp_pc l) eqn:Epc; try done. destruct ev; try done.
    + by injection Hl as <-.
    + destruct (_ && _); [|done]. by injection Hl as <-.
  - destruct Hr as [t r r' Ht|r sv Hm|r d Hd]; [|done..]. unfold rls_result, rls_Start in *. by destruct (rr_pc r), t.
  - unfold source_Run in Hsr. by destruct (sc_result s).
  - destruct Hg as [t g g' Ht|g sv Hm]; [|done]. unfold mgmt_result, mgmt_Start in *. by destruct (mg_pc g), t.
  - destruct Hh as [t h h' Ht|h sv Hm]; [|done]. unfold http_result, serve in *. by destruct (hs_pc h), t.
Qed.

(** A runner that can end is a member that can. *)
Lemma lift_ends {A} (f : A -> mem) (step : relation A) out x :
  (forall a b, step a b -> mstep true (f a) (f b)) -> (forall a, mres (f a) = out a) ->
  ends step out x -> ends (mstep true) mres (f x).
Proof.
  intros Hs Ho (y & Hr & Hy). exists (f y). split; [|by rewrite Ho]. revert Hr. by apply rtc_congruence.
Qed.

Lemma watch_ends l : lok l -> ends (mstep true) mres (MWatch l).
Proof.
  assert (forall l, lp_pc l = Selecting -> ends (mstep true) mres (MWatch l)) as Hsel.
  { intros l1 Hpc. eexists. split; [apply rtc_once, (watch_steps _ _ _ _ _ _ _ _ EvCancelled); [done|constructor|]|].
    - unfold watch_step, loop_step. rewrite Hpc. reflexivity.
    - by eexists. }
  intros Hok. destruct (lp_pc l) as [| |err] eqn:Epc.
  - set (l0 := with_channels Starting true None (lp_next l) l).
    destruct (loop_read_ok SnapshotVersion reason_text ns spec_of Hempty (0, 0) l0) as (w & a & E & _); [apply Hok..|].
    eapply ends_rtc; [apply rtc_once, (watch_steps _ _ _ _ _ _ _ _ (EvCreate (Ok tt) (Ok tt) (0, 0))); [done|constructor|]|].
    + unfold watch_step, loop_step. rewrite Epc. unfold run_start, watch. fold l0. rewrite E. reflexivity.
    + by apply Hsel.
  - by apply Hsel.
  - exists (MWatch l). split; [done|]. cbn. rewrite Epc. by eexists.
Qed.

#[export] Instance service_laws : MembersLaws mem
  (H := service_Members SnapshotVersion reason_text ns spec_of service_name IsTlsEnabled options).
Proof.
  split; [exact member_final|]. intros m0 m H0 Hr. pose proof (member_reach_ok m0 m H0 Hr) as Hok. cbn.
  destruct m as [l|r|s|k|g|name addr h]; cbn in Hok.
  - apply watch_ends, Hok.
  - eapply (lift_ends MRls); [by constructor|done|]. by apply rls_ends.
  - destruct (sc_result s) as [e|] eqn:E; [exists (MSource s); split; [done|]; cbn; rewrite E; by eexists|].
    eexists. split; [apply rtc_once, (source_steps _ _ _ _ _ _ _ _ SrcDone); unfold source_Run; rewrite E; reflexivity|by eexists].
  - destruct k as [|warning]; [|exists (MCheck (Checked warning)); split; [done|by eexists]].
    eexists. split; [apply rtc_once, (check_steps _ _ _ _ _ _ _ _ false None); done|by eexists].
  - eapply (lift_ends MManagement); [by constructor|done|]. by apply mgmt_ends.
  - eapply (lift_ends (MHttp name addr)); [by constructor|done|]. by apply http_ends.
Qed.

End members.

(** ** Claims *)

(** C29: A replica is ready only while its gRPC runner runs and the rules are in
    place. In every state the process can be in, when the readiness probe
    answers 200 the runner has called Serve, has not begun the drain and has not
    returned, so neither a failed listen nor a Serve whose end it has handled
    leaves it ready; if Serve has ended and the runner has yet to take it up, it
    can at once, and readiness falls within its next two statements; the gRPC
    health service says serving; and the rule set was built from a manifest the
    replica read: every domain of that manifest whose spec compiles is enforced
    at the manifest's generation. So a replica that answers from an empty store
    never joins the endpoints. *)
Theorem ready_answers_from_rules {PL : Platform} {WI : Wire} `{URLs} {GS FS HS : NetServer}
    `{!NetServerLaws (H := GS)} `{!NetServerLaws (H := FS)} `{!NetServerLaws (H := HS)} `{ErrGroup}
    (SnapshotVersion : Snapshot -> string) (reason_text : refusal_reason -> string) (ns : string)
    (spec_of : string -> RateLimitPolicySpec) (service_name : string) (IsTlsEnabled : bool) (options : Options) (s : Service)
    (now : Z) (dir : directory) (c : closer) (p : process (member (GS := GS) (FS := FS) (HS := HS)))
    (l : loop) (r : rls_runner (H := GS)) (b1 b2 : bool) :
  unmarshal_version "" = None -> directory_hashed spec_of dir ->
  rtc (process_step (M := member)
         (H0 := service_Members SnapshotVersion reason_text ns spec_of service_name IsTlsEnabled options) c)
    (Run_start (run_members options s now dir)) p ->
  ps_members p !! 0%nat = Some (MWatch l, b1) -> ps_members p !! 1%nat = Some (MRls r, b2) ->
  readyz r (lp_applier l) = 200 ->
  (called CServe (rr_server r) = true /\ called CShutdown (rr_server r) = false /\ says service_name true r /\
   rls_result r = None /\
   (is_Some (served (rr_server r)) -> forall addr timeout done,
      exists t r', rls_Start addr service_name timeout done t r = Some r' /\
        (Serving r' = false \/ exists r'', rls_Start addr service_name timeout done TNext r' = Some r'' /\ Serving r'' = false))) /\
  exists raw cfg v, wt_applied (lp_watcher l) = Some raw /\ Decode raw = Ok (co_Manifest cfg, v) /\
    forall d e, mf_Domains (co_Manifest cfg) !! d = Some e -> compiles ns d (spec_at cfg d) = true ->
      serves ns (lp_applier l) d e (spec_at cfg d).
Proof.
  intros Hempty Hdir Hr Hl Hrls Hready. pose proof (members_reach _ _ _ Hr) as Hm.
  pose proof (Forall2_lookup_lr _ _ _ _ _ _ Hm (eq_refl : run_members options s now dir !! 0%nat = Some (MWatch (new_loop now dir))) Hl) as Hw.
  pose proof (Forall2_lookup_lr _ _ _ _ _ _ Hm (eq_refl : run_members options s now dir !! 1%nat = Some (MRls (rls_new now))) Hrls) as Hs.
  apply (member_reach_ok SnapshotVersion reason_text ns spec_of Hempty service_name IsTlsEnabled options) in Hw as [Hlok Hra]; [|by exists now, dir].
  apply (member_reach_ok SnapshotVersion reason_text ns spec_of Hempty service_name IsTlsEnabled options) in Hs; [|by exists now].
  cbn in Hs. unfold readyz, Service_Ready, Healthz in Hready. destruct (Serving r) eqn:Eserving; [|done]. cbn in Hready.
  destruct (Ready (lp_applier l)) eqn:Eready; [|done].
  split; [by apply rls_ready_serves|]. destruct (Hra Eready) as [raw Eraw].
  destruct (ok_watch _ _ _ _ _ _ Hlok) as (Hcoh & _ & _ & refs & Henf & Hrem). rewrite Eraw in Hrem.
  destruct Hrem as (cfg & v & refs0 & Hdec & _ & Hrefs & _). exists raw, cfg, v. split_and!; [done..|].
  intros d e He Hcomp. by apply (enforces_serves SnapshotVersion ns spec_of (lp_applier l) refs d e cfg refs0 Hcoh Henf (Hrefs d) He).
Qed.

(** ** Witnesses *)

(** A group as a flag and the first error. *)
#[local] Instance demo_group : ErrGroup := {|
  group := bool * option run_error;
  WithContext := (false, None);
  goroutine_returned := fun e g => (g.1 || bool_decide (is_Some e), match g.2 with Some f => Some f | None => e end);
  group_cancelled := fst;
  group_Wait := snd |}.

#[local] Instance demo_group_laws : ErrGroupLaws.
Proof. by split. Qed.

#[local] Existing Instance demo_urls.
Import Runners.demo_server.

(** A service in a test's process: no Redis to follow, no other listener. *)
Definition demo_backend : CounterBackend :=
  mkCounterBackend (DecisionOptions "") (ManagementOptions "") (ManagementOptions "") None "memory" None None.
Definition demo_service : Service :=
  mkService "" demo_backend None (NewServer []) DefaultNearLimitRatio false None None None.

Abbreviation demo_members :=
  (service_Members (PL := demo_mgmt_platform) (WI := gw_wire) (GS := demo_server) (FS := demo_server) (HS := demo_server)
     no_version no_reason "ns" gw_spec_of "ratelimit" false demo_options).
Abbreviation demo_process := (process (member (GS := demo_server) (FS := demo_server) (HS := demo_server))).

Definition demo_start : demo_process := Run_start (run_members demo_options demo_service 0 (mounted gw_cm)).

Lemma demo_started : Forall (m_started (Members := demo_members)) (run_members demo_options demo_service 0 (mounted gw_cm)).
Proof.
  apply Forall_cons. split; [exists 0, (mounted gw_cm); split; [exact gw_hashed|reflexivity]|].
  apply Forall_cons. split; [exists 0; reflexivity|constructor].
Qed.

(** The parent's context ends before anything ran, and the service returns. *)
Lemma run_ends_together_witness :
  exists p p' : demo_process, rtc (process_step (H0 := demo_members) None) demo_start p /\ ctx_done p = true /\
    rtc (process_step (H0 := demo_members) None) p p' /\ is_Some (ps_return p').
Proof.
  pose (p := mkProcess (M := member (GS := demo_server) (FS := demo_server) (HS := demo_server)) true (ps_group demo_start) (ps_members demo_start) (ps_return demo_start) (ps_closed demo_start)
    (ps_logged demo_start) (ps_order demo_start)).
  assert (rtc (process_step (H0 := demo_members) None) demo_start p) as Hr by (apply rtc_once; constructor).
  destruct (run_ends_together (H2 := service_laws (PL := demo_mgmt_platform) (WI := gw_wire) no_version no_reason "ns" gw_spec_of
    eq_refl "ratelimit" false demo_options) (run_members demo_options demo_service 0 (mounted gw_cm)) None p) as (_ & _ & _ & Hend).
  - exact demo_started.
  - exact Hr.
  - destruct (Hend eq_refl) as (p' & Hp' & Hret). exists p, p'. split; [exact Hr|]. split; [reflexivity|]. split; [exact Hp'|exact Hret].
Defined.

Abbreviation demo_watch := (watch_step (PL := demo_mgmt_platform) (WI := gw_wire) no_version no_reason "ns" demo_options).
Abbreviation demo_pstep := (process_step (H0 := demo_members) None).

(** The runner of the checks once it serves. *)
Definition demo_serving : rls_runner (H := demo_server) :=
  mkRlsRunner RSelect true (SetServingStatus (healthNames "ratelimit") true (fun _ => None)) (set CServe fresh_server) 0 0.

Lemma demo_serves (p : demo_process) i b :
  ctx_done p = false -> ps_members p !! i = Some (MRls (rls_new 0), b) ->
  rtc demo_pstep p (with_members (<[i := (MRls demo_serving, b)]> (ps_members p)) p).
Proof.
  intros Hd Hi. assert (exists r1 r2 : rls_runner (H := demo_server), rls_step ":9000" "ratelimit" 0 false (rls_new 0) r1 /\
    rls_step ":9000" "ratelimit" 0 false r1 r2 /\ rls_step ":9000" "ratelimit" 0 false r2 demo_serving) as (r1 & r2 & S1 & S2 & S3).
  { do 2 eexists. split_and!; [eapply (rls_turns _ _ _ _ (TListen (Ok ":9000"))); reflexivity|
      eapply (rls_turns _ _ _ _ TNext); reflexivity|eapply (rls_turns _ _ _ _ TNext); reflexivity]. }
  assert (forall m m' (q : demo_process), ctx_done q = false -> ps_members q !! i = Some (m, b) ->
    m_step (Members := demo_members) false m m' -> demo_pstep q (with_members (<[i := (m', b)]> (ps_members q)) q)) as Hgo.
  { intros m m' q Hq Hm Hs. eapply member_steps; [done|by rewrite Hq]. }
  assert (i < length (ps_members p))%nat as Hlen by (by eapply lookup_lt_Some).
  set (p1 := with_members (<[i := (MRls r1, b)]> (ps_members p)) p). set (p2 := with_members (<[i := (MRls r2, b)]> (ps_members p)) p).
  eapply (rtc_l _ p p1); [by eapply Hgo; [..|apply rls_steps]|].
  assert (p2 = with_members (<[i := (MRls r2, b)]> (ps_members p1)) p1) as E2.
  { unfold p1, p2, with_members. cbn. by rewrite list_insert_insert_eq. }
  eapply (rtc_l _ p1 p2); [rewrite E2; eapply Hgo; [done| |by apply rls_steps]; cbn; by rewrite list_lookup_insert_eq|].
  apply rtc_once.
  assert (with_members (<[i := (MRls demo_serving, b)]> (ps_members p)) p = with_members (<[i := (MRls demo_serving, b)]> (ps_members p2)) p2) as ->.
  { unfold p2, with_members. cbn. by rewrite list_insert_insert_eq. }
  eapply Hgo; [done| |by apply rls_steps]. cbn. by rewrite list_lookup_insert_eq.
Qed.

(** A replica that read its manifest and listens is ready, and serves what it
    read. *)
Lemma ready_answers_from_rules_witness :
  exists (p : demo_process) l, rtc demo_pstep demo_start p /\ ps_members p !! 0%nat = Some (MWatch l, false) /\
    readyz demo_serving (lp_applier l) = 200 /\ is_Some (wt_applied (lp_watcher l)).
Proof.
  destruct (demo_watch (EvCreate (Ok tt) (Ok tt) (1, 2)) (new_loop 0 (mounted gw_cm))) as [l|] eqn:E.
  2:{ exfalso. vm_compute in E. discriminate E. }
  assert (from_option (fun l => Ready (lp_applier l)) false (demo_watch (EvCreate (Ok tt) (Ok tt) (1, 2)) (new_loop 0 (mounted gw_cm))) = true)
    as Hready by (vm_compute; reflexivity).
  rewrite E in Hready. cbn in Hready.
  pose (p1 := with_members (<[0%nat := (MWatch l, false)]> (ps_members demo_start)) demo_start).
  assert (rtc demo_pstep demo_start p1) as H1.
  { apply rtc_once. eapply (member_steps (H0 := demo_members) None demo_start 0 _ false); [reflexivity|].
    eapply watch_steps; [| |exact E]; [discriminate|constructor]. }
  pose (p := with_members (<[1%nat := (MRls demo_serving, false)]> (ps_members p1)) p1).
  assert (rtc demo_pstep demo_start p) as Hp.
  { etrans; [exact H1|]. apply (demo_serves p1 1%nat false); reflexivity. }
  assert (readyz demo_serving (lp_applier l) = 200) as H200.
  { unfold readyz, Service_Ready. cbn. rewrite Hready. reflexivity. }
  exists p, l. split; [exact Hp|]. split; [reflexivity|]. split; [exact H200|].
  destruct (ready_answers_from_rules (PL := demo_mgmt_platform) (WI := gw_wire) (GS := demo_server) (FS := demo_server) (HS := demo_server)
    no_version no_reason "ns" gw_spec_of "ratelimit" false demo_options demo_service 0 (mounted gw_cm) None p l demo_serving false false)
    as (_ & raw & _ & _ & Hraw & _); [reflexivity|exact gw_hashed|exact Hp|reflexivity|reflexivity|exact H200|].
  exists raw. exact Hraw.
Defined.

(** A signal arrives while the service runs: the process can drain and exit. *)
Lemma main_exit_exact_witness :
  exists s0 s' : main_state (member (GS := demo_server) (FS := demo_server) (HS := demo_server)),
    service_main "ns" (fun ns => Ok (run_members demo_options demo_service 0 (mounted gw_cm))) = inr s0 /\
    rtc (main_step (H0 := demo_members) None) s0 s' /\ mn_sent s' = 1%nat /\ is_Some (mn_exit s').
Proof.
  pose (s0 := SignalContext (M := member (GS := demo_server) (FS := demo_server) (HS := demo_server)) demo_start).
  pose (s := mkMain (mn_process s0) 1 true AwaitFirst false None 1).
  assert (rtc (main_step (H0 := demo_members) None) s0 s) as Hr by (apply rtc_once; constructor).
  destruct (main_exit_exact (H2 := service_laws (PL := demo_mgmt_platform) (WI := gw_wire) no_version no_reason "ns" gw_spec_of
    eq_refl "ratelimit" false demo_options) "ns" (fun ns => Ok (run_members demo_options demo_service 0 (mounted gw_cm))) None s0 s)
    as (_ & _ & _ & _ & Hend).
  - intros ns ms [= <-]. exact demo_started.
  - reflexivity.
  - exact Hr.
  - destruct Hend as (s' & e & Hs' & Hk & _ & Hx); [constructor|reflexivity|]. exists s0, s'. split; [reflexivity|].
    split; [etrans; [exact Hr|exact Hs']|]. split; [exact Hk|]. rewrite Hx. by eexists.
Defined.
