(* ===== verification/Views.v ===== *)
(** * What a replica tells about what it enforces

    The domain index and the status of the management API
    (service/internal/management: api.go, status.go), the snapshot pages of
    service/internal/debug/snapshot.go, and the applied report of
    SvcConfig: four readings of one rule set, and that they agree. *)
From S2P Require Import Prelude GoStrings Algo Key StoreApi Model Compile CompileFacts Match Identity Convert OpPolicy RuleView MgmtErrors.
From S2P Require Import Selector Listing Applicability Manifest ConfigStore SvcConfig SvcConfigClaims AddrReset Simulation.

(** ** Definitions *)

(** *** management/api.go, status.go *)

Definition domain_item (set : RuleSet) (domain : string) : list ruleview.DomainSummary :=
  match Snapshot_of set domain with
  | None => []
  | Some snapshot => [ruleview.Summary snapshot (Version_of set domain)]
  end.

Definition handleDomains (set : RuleSet) : list ruleview.DomainSummary := concat (domain_item set <$> Domains_of set).

Record StatusView := mkStatusView {
  sv_Replica : string;
  sv_SnapshotSwappedAt : option Z;
  sv_RuleSetVersions : gmap string string;
  sv_Backend : string }.

(** The name given, POD_NAME, the host name, or none of them. *)
Definition replica (given podName : string) (hostname : option string) : string :=
  if negb (bool_decide (given = "")) then given
  else if negb (bool_decide (podName = "")) then podName
  else default "unknown" hostname.

(** The handler loads the set, and the swap time with a second load. *)
Definition handleStatus (set set' : RuleSet) (name backend : string) : StatusView :=
  mkStatusView name (rset_swappedAt set') (list_to_map ((fun d => (d, Version_of set d)) <$> Domains_of set)) backend.

Section counters.
Context {PL : Platform} {GT : GoText} {S : Type} {INSP : Inspector S}.
Context (peek : Z -> list Bucket -> S -> S * result StoreError (list Verdict)).

(** [handleCounters]; [None] is the panic on an empty namespace or domain. *)
Definition handleCounters (namespace : string) (rules : RuleSet) (domain : string) (q : Values) (now : Z) (world : nat -> Z * S)
    : option (result apiError CounterList) :=
  match (
    let? (snapshot, _) := api_snapshot rules domain in
    let? _ := checkQueryNames q (selectorParams ["pageSize"; "cursor"]) in
    let? sel := parseSelector q in
    let? _ := unnormalized snapshot (se_Axes sel) (capturedKeys snapshot (se_RuleIDs sel)) axisField in
    let? pageSize := parsePageSize (query_get q "pageSize") in
    let? start := (if bool_decide (query_get q "cursor" = "") then Ok "" else decodeCursor (query_get q "cursor") sel now) in
    Ok (snapshot, sel, pageSize, start)) with
  | Err e => Some (Err e)
  | Ok (snapshot, sel, pageSize, start) => listCounters peek namespace snapshot sel pageSize start now world 0
  end.
End counters.

(** *** debug/snapshot.go *)

Module debug.

Record DomainSummary := mkDebugSummary {
  dds_Domain : string;
  dds_Generation : Z;
  dds_UID : string;
  dds_AppliedAt : Z;
  dds_RuleSetVersion : string;
  dds_Blocks : Z;
  dds_Rules : Z;
  dds_DecisionBuckets : nat;
  dds_EffectiveKeys : list string;
  dds_ListValuedKeys : list string }.

Record Summary := mkSummary {
  sm_Replica : string;
  sm_SwappedAt : option Z;
  sm_Refusal : option RefusalReport;
  sm_Domains : list DomainSummary }.

Record KeyView := mkKeyView {
  kv_Key : string;
  kv_Claim : string;
  kv_Fallbacks : list string;
  kv_Type : string;
  kv_Normalization : string }.

Record DomainSnapshot := mkDomainSnapshot {
  dsn_Domain : string;
  dsn_Generation : Z;
  dsn_UID : string;
  dsn_AppliedAt : Z;
  dsn_RuleSetVersion : string;
  dsn_DecisionBuckets : nat;
  dsn_EffectiveKeys : list string;
  dsn_ListValuedKeys : list string;
  dsn_Keys : list KeyView;
  dsn_Blocks : list ruleview.BlockView }.

Definition summary_row (domain : string) (d : SvcDomain) : DomainSummary :=
  let counts := ruleview.Summary (sd_Snapshot d) (sd_Version d) in
  mkDebugSummary domain (sd_Generation d) (sd_UID d) (sd_AppliedAt d) (ruleview.ds_RuleSetVersion counts)
    (ruleview.ds_Blocks counts) (ruleview.ds_Rules counts) (s_DecisionBuckets (sd_Snapshot d))
    (ruleview.ds_EffectiveKeys counts) (ruleview.ds_ListValuedKeys counts).

(** A domain of [Domains] is in the set. *)
Definition Summarize (set : RuleSet) (replica : string) : Summary :=
  mkSummary replica (rset_swappedAt set) (rset_refusal set)
    (omap (fun domain => summary_row domain <$> Domain_of set domain) (Domains_of set)).

Definition keys (snapshot : Snapshot) : list KeyView :=
  (fun e => mkKeyView (ke_Key e) (Join "." (ke_Path e)) (Join "." <$> ke_Fallbacks e) (ke_Type e) (ke_Normalization e))
    <$> s_Extraction snapshot.

Definition Render (d : SvcDomain) : DomainSnapshot :=
  let view := ruleview.Render (sd_Snapshot d) in
  mkDomainSnapshot (s_Domain (sd_Snapshot d)) (sd_Generation d) (sd_UID d) (sd_AppliedAt d) (sd_Version d)
    (s_DecisionBuckets (sd_Snapshot d)) (ruleview.rs_EffectiveKeys view) (ruleview.rs_ListValuedKeys view)
    (keys (sd_Snapshot d)) (ruleview.rs_Blocks view).

(** [handler.domain]: the document, or 404. *)
Definition domain_page (set : RuleSet) (domain : string) : option DomainSnapshot := Render <$> Domain_of set domain.

(** [strings.Contains] *)
Fixpoint Contains (s sub : string) : bool :=
  HasPrefix s sub || match s with EmptyString => false | String _ s => Contains s sub end.

(** [strings.EqualFold] against yaml, which has no letter a character outside
    ASCII folds to. *)
Definition wantsYAML (format accept : string) : bool :=
  if negb (bool_decide (format = "")) then EqualFold format "yaml" else Contains accept "yaml".

End debug.

(** ** Lemmas *)

Lemma Domains_of_elem set d : d ∈ Domains_of set <-> is_Some (rset_domains set !! d).
Proof. unfold Domains_of. by rewrite sort_strings_Permutation, elem_of_elements, elem_of_dom. Qed.

Lemma Domains_of_nodup set : NoDup (Domains_of set).
Proof. unfold Domains_of. rewrite sort_strings_Permutation. apply NoDup_elements. Qed.

(** Every domain is served by a snapshot of its name. *)
Definition named_after (domains : gmap string SvcDomain) : Prop := map_Forall (fun d sd => s_Domain (sd_Snapshot sd) = d) domains.

Lemma Compile_domain ns d p snap ps : Compile ns d p = Some (snap, ps) -> s_Domain snap = d.
Proof.
  unfold Compile. destruct (bool_decide _); [by intros [= <- _]|]. destruct (_ || _); [by intros [= <- _]|].
  destruct (compileEnvironment d p) as [env problems]. destruct p as [pol|]; [|by intros [= <- _]].
  destruct (compileBlocks ns d pol env); [done|]. destruct (blocking _); by intros [= <- _].
Qed.

Section served.
Context {PL : Platform} {WI : Wire} (SnapshotVersion : Snapshot -> string) (reason_text : refusal_reason -> string) (ns : string).

Lemma apply_domain_named d e spec previous now engines sd h engines' :
  (forall sd' h', previous = Some (sd', h') -> s_Domain (sd_Snapshot sd') = d) ->
  apply_domain SnapshotVersion ns d e spec previous now engines = Some (sd, h, engines') -> s_Domain (sd_Snapshot sd) = d.
Proof.
  intros Hp. unfold apply_domain.
  assert (forall q, match Compile ns d q with Some (snap, _) => s_Domain snap = d | None => True end) as Hc.
  { intros q. destruct (Compile ns d q) as [[snap ps]|] eqn:E; [|done]. by eapply Compile_domain. }
  pose proof (Hc (Some (convert_Policy spec))) as H1. pose proof (Hc (Some (convert_Policy (bare_spec d)))) as H2.
  destruct previous as [[built hash]|].
  - specialize (Hp built hash eq_refl). destruct (bool_decide (hash = _)); [by intros [= <- _ _]|].
    destruct (Compile ns d (Some (convert_Policy spec))) as [[snap ps]|]; [|done]. cbn.
    destruct (negb (blocking ps)); [by intros [= <- _ _]|]. destruct (negb _); [by intros [= <- _ _]|].
    destruct (Compile ns d (Some (convert_Policy (bare_spec d)))) as [[bare ?]|]; [|done]. by intros [= <- _ _].
  - destruct (Compile ns d (Some (convert_Policy spec))) as [[snap ps]|]; [|done]. cbn.
    destruct (negb (blocking ps)); [by intros [= <- _ _]|].
    destruct (Compile ns d (Some (convert_Policy (bare_spec d)))) as [[bare ?]|]; [|done]. by intros [= <- _ _].
Qed.

Lemma apply_loop_named cfg a now names : forall domains hashes engines domains' hashes' engines',
  named_after (ap_domains a) -> named_after domains ->
  apply_loop SnapshotVersion ns cfg a now names domains hashes engines = Some (domains', hashes', engines') -> named_after domains'.
Proof.
  induction names as [|d names IH]; intros domains hashes engines domains' hashes' engines' Ha Hd; cbn [apply_loop]; [by intros [= <- _ _]|].
  destruct (apply_domain _ _ _ _ _ _ _ _) as [[[sd h] e1]|] eqn:E; [|done]. cbn [mbind option_bind].
  apply IH; [done|]. apply map_Forall_insert_2; [|done]. eapply apply_domain_named; [|done].
  intros sd' h'. unfold previous_of. destruct (ap_domains a !! d) eqn:El; [|done]. intros [= <- _]. by apply (Ha d).
Qed.

(** The set and the applier's own record of it. *)
Definition replica_ok (a : Applier) : Prop := coherent a /\ named_after (ap_domains a).

Lemma read_ok dir now swap w a w' a' : replica_ok a ->
  read SnapshotVersion reason_text ns dir now swap w a = Some (w', a') -> replica_ok a'.
Proof.
  intros [Hco Hn]. assert (forall b, replica_ok (SetAbsent b a)) as Hs by done.
  unfold read, present. destruct (Read dir) as [cfg|[| |refusal]].
  - set (a1 := if wt_absent w then _ else _). assert (replica_ok a1) as [Hco1 Hn1] by (unfold a1; by destruct (wt_absent w)).
    destruct (_ && _); [by intros [= <- <-]|]. unfold Apply.
    destruct (apply_loop _ _ _ _ _ _ _ _) as [[[ds hs] es]|] eqn:E; [|done]. cbn. intros [= <- <-]. split; [done|].
    eapply apply_loop_named; [exact Hn1|apply map_Forall_empty|exact E].
  - destruct (wt_absent w); intros [= <- <-]; [done|apply Hs].
  - intros [= <- <-]. destruct (wt_absent w); [apply Hs|done].
  - destruct (bytes_Equal _ _); intros [= <- <-]; destruct (wt_absent w); by split.
Qed.

Lemma run_reads_ok reads : forall w a w' a', replica_ok a ->
  run_reads SnapshotVersion reason_text ns reads w a = Some (w', a') -> replica_ok a'.
Proof.
  induction reads as [|[dir [now swap]] reads IH]; intros w a w' a' Ha; cbn [run_reads]; [by intros [= <- <-]|].
  destruct (read _ _ _ _ _ _ _ _) as [[w1 a1]|] eqn:E; [|done]. cbn. apply IH. by eapply read_ok.
Qed.

Lemma fresh_ok : replica_ok NewApplier.
Proof. split; [done|]. apply map_Forall_empty. Qed.
End served.

(** The rules of a domain, unfiltered. *)
Lemma rules_loop_plain blocks sc : sc_present sc = false ->
  rules_loop ((fun b => mkTarget b ∅ []) <$> blocks) "" sc = Ok (ruleview.view_block <$> blocks).
Proof.
  intros Hp. induction blocks as [|b blocks IH]; [done|]. rewrite !fmap_cons. cbn [rules_loop t_Block].
  by rewrite Hp, IH.
Qed.

Lemma unnormalized_none (PL : Platform) plan captured : unnormalized_loop plan ∅ captured = None.
Proof.
  induction plan as [|e plan IH]; cbn [unnormalized_loop]; [done|]. rewrite lookup_empty. cbn. by destruct (_ || _).
Qed.

Lemma handleRules_plain PL snapshot version :
  handleRules PL snapshot version ∅ =
  Ok (ruleview.mkRuleSetView (s_Domain snapshot) version (s_EffectiveKeys snapshot) (ruleview.ListValuedKeys snapshot)
        (ruleview.view_block <$> s_Blocks snapshot)).
Proof.
  unfold handleRules, query_get. rewrite !lookup_empty.
  rewrite (proj2 (checkQueryNames_spec ∅ _)) by (intros name [? Hn]; by rewrite lookup_empty in Hn).
  cbn [default from_option head id]. rewrite !bool_decide_true by done. cbn [negb andb].
  unfold parseScope. rewrite map_to_list_empty, lookup_empty. cbn [scope_axes scope_absent default from_option id].
  unfold unnormalized. cbn [sc_values]. rewrite unnormalized_none.
  unfold selectTargets. rewrite bool_decide_true by done. by rewrite rules_loop_plain.
Qed.

(** The rows of the pages, domain by domain. *)
Lemma omap_rows set (names : list string) :
  (forall d, d ∈ names -> is_Some (rset_domains set !! d)) ->
  omap (fun d => debug.summary_row d <$> Domain_of set d) names =
  (fun d => debug.summary_row d (default (mkSvcDomain 0 (mkSnapshot "" [] [] [] 0) "" 0 "" 0) (rset_domains set !! d))) <$> names.
Proof.
  induction names as [|d names IH]; intros Hin; [done|]. cbn. unfold Domain_of at 1.
  destruct (Hin d (list_elem_of_here _ _)) as [sd ->]. cbn. f_equal. apply IH. intros. apply Hin. by right.
Qed.

(** The index row of a domain of the set. *)
Definition index_row (r : debug.DomainSummary) : ruleview.DomainSummary :=
  ruleview.mkDomainSummary (debug.dds_Domain r) (debug.dds_RuleSetVersion r) (debug.dds_Blocks r) (debug.dds_Rules r)
    (debug.dds_EffectiveKeys r) (debug.dds_ListValuedKeys r).

Lemma index_rows set (names : list string) : named_after (rset_domains set) -> (forall d, d ∈ names -> is_Some (rset_domains set !! d)) ->
  concat (domain_item set <$> names) = index_row <$> omap (fun d => debug.summary_row d <$> Domain_of set d) names.
Proof.
  intros Hn. induction names as [|d names IH]; intros Hin; [done|]. rewrite fmap_cons. cbn [concat omap list_omap].
  unfold domain_item at 1, Snapshot_of, Version_of, Domain_of at 1.
  destruct (Hin d (list_elem_of_here _ _)) as [sd Hsd]. rewrite Hsd. cbn. f_equal.
  - unfold index_row, ruleview.Summary. cbn. f_equal. apply (Hn d sd Hsd).
  - apply IH. intros. apply Hin. by right.
Qed.

(** A page's continuation is taken up where the page ended: a call that
    presents it with the same selection within its lifetime lists from the
    store cursor the page stopped at, whatever page size it asks for. *)
Lemma listing_resumes {PL : Platform} {GT : GoText} {S} {INSP : Inspector S} peek namespace rules domain snapshot version sel
    q now resume step world :
  api_snapshot rules domain = Ok (snapshot, version) ->
  UnmarshalCursor (MarshalCursor (mkCursor step (fingerprint sel) (Unix (resume + cursorTTL)))) =
    Some (mkCursor step (fingerprint sel) (Unix (resume + cursorTTL))) ->
  checkQueryNames q (selectorParams ["pageSize"; "cursor"]) = Ok tt -> parseSelector q = Ok sel ->
  unnormalized snapshot (se_Axes sel) (capturedKeys snapshot (se_RuleIDs sel)) axisField = Ok tt ->
  query_get q "cursor" = encodeCursor step sel resume -> encodeCursor step sel resume <> "" ->
  Unix now <= Unix (resume + cursorTTL) ->
  handleCounters (S := S) peek namespace rules domain q now world =
  match parsePageSize (query_get q "pageSize") with
  | Err e => Some (Err e)
  | Ok pageSize => listCounters peek namespace snapshot sel pageSize step now world 0
  end.
Proof.
  intros Hs Hj Hq Hp Hu Hc Hne Ht. unfold handleCounters. rewrite Hs, Hq, Hp, Hu, Hc, bool_decide_false by done.
  rewrite (listing_cursor_roundtrip step sel sel resume now Hj) by done. rewrite decide_True by done.
  by destruct (parsePageSize _).
Qed.

(** ** Claims *)

(** Whatever a replica has read, the four places that tell what it
    enforces tell the same. For the rule set it serves: the domain index of
    the management API is the debug summary row by row; the status reports
    each domain's version and no other; the report the operator judges Ready
    by has each row's generation, object and time and the same refusal; and
    the rules endpoint, asked without a filter, answers with the blocks, keys
    and version of the domain's debug page. *)
Theorem replica_views_agree {PL : Platform} {WI : Wire} (SnapshotVersion : Snapshot -> string)
    (reason_text : refusal_reason -> string) (ns : string) (reads : list (directory * (Z * Z))) w a (name backend : string) :
  run_reads SnapshotVersion reason_text ns reads NewWatcher NewApplier = Some (w, a) ->
  let set := ap_Store a in
  let rows := debug.sm_Domains (debug.Summarize set name) in
  handleDomains set = index_row <$> rows /\ debug.dds_Domain <$> rows = Domains_of set /\
  (forall d v, sv_RuleSetVersions (handleStatus set set name backend) !! d = Some v <->
     exists r, r ∈ rows /\ debug.dds_Domain r = d /\ debug.dds_RuleSetVersion r = v) /\
  (forall d ad, re_Domains (report a) !! d = Some ad <->
     exists r, r ∈ rows /\ debug.dds_Domain r = d /\
       ad = mkAppliedDomain (debug.dds_Generation r) (debug.dds_UID r) (debug.dds_AppliedAt r)) /\
  debug.sm_Refusal (debug.Summarize set name) = re_Refusal (report a) /\
  (forall d page, debug.domain_page set d = Some page ->
     exists snapshot version, api_snapshot set d = Ok (snapshot, version) /\
       handleRules PL snapshot version ∅ =
         Ok (ruleview.mkRuleSetView d (debug.dsn_RuleSetVersion page) (debug.dsn_EffectiveKeys page)
               (debug.dsn_ListValuedKeys page) (debug.dsn_Blocks page))).
Proof.
  intros Hrun set rows. destruct (run_reads_ok SnapshotVersion reason_text ns reads _ _ _ _ fresh_ok Hrun) as [Hco Hn].
  assert (named_after (rset_domains set)) as Hnamed by (unfold set; by rewrite Hco).
  assert (forall d, d ∈ Domains_of set -> is_Some (rset_domains set !! d)) as Hin by (intros d; apply Domains_of_elem).
  assert (forall r, r ∈ rows <-> exists d sd, rset_domains set !! d = Some sd /\ r = debug.summary_row d sd) as Hrows.
  { intros r. unfold rows. cbn. rewrite list_elem_of_omap. split.
    - intros (d & _ & Hr). unfold Domain_of in Hr. destruct (rset_domains set !! d) as [sd|] eqn:E; [|done].
      injection Hr as <-. by exists d, sd.
    - intros (d & sd & Hd & ->). exists d. unfold Domain_of. rewrite Hd. split; [apply Domains_of_elem; by eexists|done]. }
  split_and!.
  - by apply index_rows.
  - unfold rows. cbn. rewrite omap_rows by done. rewrite <- list_fmap_compose. rewrite (list_fmap_ext _ id) by done. apply list_fmap_id.
  - intros d v. cbn. rewrite <- elem_of_list_to_map.
    2: { rewrite <- list_fmap_compose. rewrite list_fmap_id. apply Domains_of_nodup. }
    rewrite list_elem_of_fmap. split.
    + intros (d' & [= -> ->] & Hd). destruct (Hin d' Hd) as [sd Hsd]. exists (debug.summary_row d' sd).
      split_and!; [apply Hrows; by exists d', sd|done|]. unfold Version_of. by rewrite Hsd.
    + intros (r & (d' & sd & Hsd & ->)%Hrows & <- & <-). exists d'. cbn. unfold Version_of. rewrite Hsd. split; [done|].
      apply Domains_of_elem. by eexists.
  - intros d ad. cbn. rewrite lookup_fmap_Some. split.
    + intros (sd & <- & Hsd). exists (debug.summary_row d sd). split_and!; [apply Hrows; by exists d, sd|done..].
    + intros (r & (d' & sd & Hsd & ->)%Hrows & <- & ->). by exists sd.
  - done.
  - intros d page. unfold debug.domain_page, Domain_of. destruct (rset_domains set !! d) as [sd|] eqn:Hsd; [|done].
    intros [= <-]. exists (sd_Snapshot sd), (sd_Version sd). unfold api_snapshot, Snapshot_of, Version_of. rewrite Hsd. split; [done|].
    rewrite handleRules_plain. cbn. by rewrite (Hnamed d sd Hsd).
Qed.

(** ** Witnesses *)

(** A replica that read the ConfigMap of one domain. *)
Lemma replica_views_agree_witness :
  exists w a,
    run_reads (PL := demo_mgmt_platform) (WI := gw_wire) no_version no_reason "ns" [(mounted gw_cm, (1, 2))] NewWatcher NewApplier = Some (w, a) /\
    Domains_of (ap_Store a) = ["gw"] /\
    handleDomains (ap_Store a) = index_row <$> debug.sm_Domains (debug.Summarize (ap_Store a) "pod-a") /\
    exists ad, re_Domains (report a) !! "gw" = Some ad /\
      exists r, r ∈ debug.sm_Domains (debug.Summarize (ap_Store a) "pod-a") /\ debug.dds_Domain r = "gw" /\
        debug.dds_Generation r = ad_Generation ad.
Proof.
  assert (exists wa, run_reads (PL := demo_mgmt_platform) (WI := gw_wire) no_version no_reason "ns"
            [(mounted gw_cm, (1, 2))] NewWatcher NewApplier = Some wa /\ Domains_of (ap_Store wa.2) = ["gw"] /\
            is_Some (re_Domains (report wa.2) !! "gw")) as ([w a] & Hrun & Hd & [ad Had]).
  { eexists. split; [vm_compute; reflexivity|]. split; [vm_compute; reflexivity|]. eexists. vm_compute. reflexivity. }
  destruct (replica_views_agree (PL := demo_mgmt_platform) (WI := gw_wire) no_version no_reason "ns" [(mounted gw_cm, (1, 2))]
    w a "pod-a" "redis" Hrun) as (Hi & _ & _ & Hr & _ & _).
  exists w, a. split; [exact Hrun|]. split; [exact Hd|]. split; [exact Hi|].
  exists ad. split; [exact Had|]. destruct (proj1 (Hr "gw" ad) Had) as (r & Hin & Hn & Ha).
  exists r. split; [exact Hin|]. split; [exact Hn|]. by rewrite Ha.
Defined.
