(* ===== verification/Load.v ===== *)
(** * operator/internal/policy/load.go: the policies as they are read

    The listed objects are decoded leniently, and the fields of their specs
    this build's schema does not define are reported beside them. The
    converters of Kubernetes are a class; the theorem follows a skewed object
    through the compilation. The second part is the watches that wake the
    writer of operator/internal/config. *)
From S2P Require Import Prelude GoStrings Algo Model Compile CompileFacts Identity Convert OpPolicy OpPolicyClaims Selector Manifest ConfigStore.
From S2P Require Import SvcConfig SvcConfigClaims.

(** ** Definitions *)

(** The unstructured converter of Kubernetes and its strict JSON decoder;
    [None] is an error. The strict decoder returns the texts of its strict
    errors: the fields it does not know. *)
Class Converter := {
  Unstructured : Type;
  u_Key : Unstructured -> ObjectKey;
  FromUnstructured : Unstructured -> option RateLimitPolicy;
  SpecField : Type;
  NestedSpec : Unstructured -> option (option SpecField);
  MarshalSpec : SpecField -> option string;
  UnmarshalStrict : string -> option (list string) }.

(** The metadata of an object is decoded with it. *)
Class ConverterLaws `{Converter} := {
  from_key : forall u o, FromUnstructured u = Some o -> ObjectKeyFromObject o = u_Key u }.

Inductive load_error := ErrList | ErrDecode (key : ObjectKey) | ErrSpec (key : ObjectKey).

Section load.
Context `{Converter}.

Definition specSkew (object : Unstructured) : option (list RuleProblem) :=
  match NestedSpec object with
  | None => None
  | Some None => Some []
  | Some (Some spec) =>
      match MarshalSpec spec with
      | None => None
      | Some raw =>
          match UnmarshalStrict raw with
          | None => None
          | Some strict => Some (map (fun e => mkRuleProblem "" "" ProblemInvalidSpec (mkMsg e [])) strict)
          end
      end
  end.

Definition Decode_object (object : Unstructured) : result load_error (RateLimitPolicy * list RuleProblem) :=
  match FromUnstructured object with
  | None => Err (ErrDecode (u_Key object))
  | Some typed =>
      match specSkew object with
      | None => Err (ErrSpec (u_Key object))
      | Some skew => Ok (typed, skew)
      end
  end.

Fixpoint load_loop (items : list Unstructured) (policies : list RateLimitPolicy) (skews : gmap ObjectKey (list RuleProblem))
    : result load_error (list RateLimitPolicy * gmap ObjectKey (list RuleProblem)) :=
  match items with
  | [] => Ok (policies, skews)
  | item :: items =>
      let? (object, skew) := Decode_object item in
      load_loop items (policies ++ [object])
        (if (0 <? length skew)%nat then <[ObjectKeyFromObject object := skew]> skews else skews)
  end.

(** [items] is the list read, [None] when reading it failed. The state and the
    operator's version are the caller's. *)
Definition Load (items : option (list Unstructured)) (namespace : string) : result load_error Input :=
  match items with
  | None => Err ErrList
  | Some items =>
      let? (policies, skews) := load_loop items [] ∅ in
      Ok (mkInput namespace policies skews ∅ "")
  end.

End load.

(** The input with the state and version its callers fill in. *)
Definition with_state (state : gmap string Bundle) (version : string) (inp : Input) : Input :=
  mkInput (in_Namespace inp) (in_Policies inp) (in_Skew inp) state version.

(** The middle of a pass of the writer: what it read, compiled with the saved
    state and fitted into the limit. [None] when the reading failed. *)
Definition pass_result `{Converter} {CO : Codec} (ns version : string) (limit : Z) (state : gmap string Bundle)
    (items : option (list Unstructured)) : option Result :=
  match Load items ns with
  | Err _ => None
  | Ok inp =>
      let inp := with_state state version inp in
      r ← policy_Compile inp; Fit inp r limit
  end.

(** The saved state after the readings of a history, from none: a pass that
    fails to read leaves it. *)
Definition saved_after `{Converter} {CO : Codec} (ns version : string) (limit : Z)
    (history : list (option (list Unstructured))) : gmap string Bundle :=
  foldl (fun state items => match pass_result ns version limit state items with
                            | Some r => rs_State r
                            | None => state
                            end) ∅ history.

(** ** Lemmas *)

Section facts.
Context `{ConverterLaws}.

Lemma load_items_spec (items : list Unstructured) : forall (policies : list RateLimitPolicy) (skews : gmap ObjectKey (list RuleProblem)) policies' skews',
  load_loop items policies skews = Ok (policies', skews') ->
  NoDup (u_Key <$> items) -> (forall u : Unstructured, u ∈ items -> skews !! u_Key u = None) ->
  exists decoded, policies' = policies ++ decoded /\
    Forall2 (fun u o => exists skew, Decode_object u = Ok (o, skew) /\
      default [] (skews' !! u_Key u) = skew) items decoded /\
    forall k, (forall u : Unstructured, u ∈ items -> u_Key u <> k) -> skews' !! k = skews !! k.
Proof.
  induction items as [|u items IH]; intros policies skews policies' skews'; cbn [load_loop].
  { intros [= <- <-] _ _. exists []. rewrite app_nil_r. split_and!; [done|constructor|done]. }
  destruct (Decode_object u) as [[o skew]|e] eqn:Ed; [|done]. intros Hl Hnd Hfresh.
  rewrite fmap_cons in Hnd. apply NoDup_cons in Hnd as [Hni Hnd].
  assert (ObjectKeyFromObject o = u_Key u) as Hk.
  { unfold Decode_object in Ed. destruct (FromUnstructured u) as [o'|] eqn:Ef; [|done].
    destruct (specSkew u); [|done]. injection Ed as <- _. by apply from_key. }
  rewrite Hk in Hl. set (skews1 := if (0 <? length skew)%nat then <[u_Key u := skew]> skews else skews) in Hl.
  assert (skews1 !! u_Key u = if (0 <? length skew)%nat then Some skew else None) as Hu.
  { unfold skews1. destruct (0 <? length skew)%nat; [by rewrite lookup_insert_eq|]. apply Hfresh. by left. }
  assert (forall k, u_Key u <> k -> skews1 !! k = skews !! k) as Hother.
  { intros k Hne. unfold skews1. destruct (0 <? length skew)%nat; [by rewrite lookup_insert_ne|done]. }
  assert (forall u', u' ∈ items -> u_Key u <> u_Key u') as Hdist.
  { intros u' Hu' He. apply Hni. rewrite He. by apply list_elem_of_fmap_2. }
  destruct (IH _ _ _ _ Hl Hnd) as (decoded & -> & Hf & Hrest).
  { intros u' Hu'. rewrite Hother by (by apply Hdist). apply Hfresh. by right. }
  exists (o :: decoded). rewrite <- app_assoc. split_and!; [done| |].
  - constructor; [|done]. exists skew. split; [done|].
    rewrite Hrest by (intros u' Hu' He; by apply (Hdist u')). rewrite Hu. by destruct skew.
  - intros k Hne. rewrite Hrest by (intros u' Hu'; apply Hne; by right). apply Hother, Hne. by left.
Qed.

(** What a reading of the namespace says of each of its objects. *)
Lemma Load_items_spec (items : list Unstructured) ns inp :
  Load (Some items) ns = Ok inp -> NoDup (u_Key <$> items) ->
  in_Namespace inp = ns /\
  Forall2 (fun u o => Decode_object u = Ok (o, skew_of inp o)) items (in_Policies inp).
Proof.
  unfold Load. destruct (load_loop items [] ∅) as [[policies skews]|] eqn:El; [|done]. intros [= <-] Hnd. split; [done|].
  destruct (load_items_spec items [] ∅ policies skews El Hnd) as (decoded & -> & Hf & _); [intros; apply lookup_empty|].
  cbn [in_Policies app]. eapply Forall2_impl; [exact Hf|]. intros u o (skew & Hd & Hs). unfold skew_of. cbn [in_Skew].
  assert (ObjectKeyFromObject o = u_Key u) as ->; [|by rewrite Hs].
  unfold Decode_object in Hd. destruct (FromUnstructured u) as [o'|] eqn:Ef; [|done].
  destruct (specSkew u); [|done]. injection Hd as <- _. by apply from_key.
Qed.

(** *** A history of readings *)

(** A listing of one namespace names each object once, and the schema makes an
    object carry the name of its domain. *)
Definition reading_ok (items : list Unstructured) : Prop :=
  NoDup ((fun u => (u_Key u).2) <$> items) /\
  forall u o skew, u ∈ items -> Decode_object u = Ok (o, skew) -> o_Name o = domain_of o.

(** The API server never gives an object an earlier generation again, and the
    cache does not go back. *)
Definition generations_grow (history : list (option (list Unstructured))) : Prop :=
  forall i j us vs u v o o' skew skew', (i <= j)%nat ->
    history !! i = Some (Some us) -> history !! j = Some (Some vs) -> u ∈ us -> v ∈ vs ->
    Decode_object u = Ok (o, skew) -> Decode_object v = Ok (o', skew') -> o_UID o = o_UID o' ->
    o_Generation o <= o_Generation o'.

(** The saved generation of a domain is of an object that some reading knew in
    full, and compiles. *)
Definition read_in_full (ns : string) (history : list (option (list Unstructured))) (d : string) (b : Bundle) : Prop :=
  exists items u o, Some items ∈ history /\ u ∈ items /\ Decode_object u = Ok (o, []) /\ domain_of o = d /\
    b = mkBundle (o_UID o) (o_Generation o) (o_Spec o) /\ is_Some (compiled_snapshot ns d (o_Spec o)).

Lemma read_in_full_app ns h1 h2 d b : read_in_full ns h1 d b -> read_in_full ns (h1 ++ h2) d b.
Proof. intros (items & u & o & Hi & ?). exists items, u, o. split; [|done]. apply elem_of_app. by left. Qed.

Lemma decoded_key u o skew : Decode_object u = Ok (o, skew) -> key_of o = u_Key u.
Proof.
  unfold Decode_object. destruct (FromUnstructured u) as [o'|] eqn:Ef; [|done].
  destruct (specSkew u); [|done]. intros [= <- _]. by apply from_key.
Qed.

(** What a reading that is well formed and readable gives: its objects decoded,
    and a result of the pass. *)
Lemma pass_defined {CO : Codec} ns version limit state items inp :
  0 < limit -> reading_ok items -> Load (Some items) ns = Ok inp ->
  Forall2 (fun u o => Decode_object u = Ok (o, skew_of inp o)) items (in_Policies inp) /\
  exists r, pass_result ns version limit state (Some items) = Some r /\ state_known (with_state state version inp) r.
Proof.
  intros Hlim [Hnd Hname] Hl.
  assert (NoDup (u_Key <$> items)) as Hkeys.
  { apply (NoDup_fmap_1 snd). by rewrite <- list_fmap_compose. }
  destruct (Load_items_spec items ns inp Hl Hkeys) as [_ Hf]. split; [done|].
  assert ((o_Name <$> in_Policies inp) = (fun u => (u_Key u).2) <$> items) as Hnames.
  { clear -Hf H0. induction Hf as [|u o us os Hd _ IH]; [done|]. rewrite !fmap_cons. f_equal; [|done].
    by rewrite <- (decoded_key _ _ _ Hd). }
  destruct (compile_fit_known (with_state state version inp) limit) as (r & r' & Hr & Hfit & Hk & _).
  - cbn. by rewrite Hnames.
  - cbn. apply Forall_forall. intros o [i Ho]%list_elem_of_lookup.
    destruct (Forall2_lookup_r _ _ _ _ _ Hf Ho) as (u & Hu & Hd). by eapply Hname; [eapply list_elem_of_lookup_2|].
  - done.
  - exists r'. split; [|done]. unfold pass_result. rewrite Hl. cbn zeta. by rewrite Hr.
Qed.

(** What a pass keeps of a domain: its latest generation read in full, or what
    was saved for the same object, or nothing; a skewed generation is neither
    served nor kept. *)
Lemma pass_keeps inp o tl oc s b :
  compileDomainFitting (in_Namespace inp) o (state_of inp (domain_of o)) (skew_of inp o) tl = Some (oc, s, b) ->
  Compiled oc = bool_decide (is_Some (latest_good (in_Namespace inp) o (skew_of inp o))) /\
  (b = no_bundle \/
   (skew_of inp o = [] /\ b = mkBundle (o_UID o) (o_Generation o) (o_Spec o) /\
      is_Some (compiled_snapshot (in_Namespace inp) (domain_of o) (o_Spec o))) \/
   (b = state_of inp (domain_of o) /\ bu_UID b <> "" /\ bu_UID b = o_UID o /\
      (skew_of inp o <> [] -> bu_GoodGeneration b <> o_Generation o))).
Proof.
  intros Hc. destruct (compileDomainFitting_serves (in_Namespace inp) o (state_of inp (domain_of o)) (skew_of inp o) tl)
    as (oc' & s' & b' & Hc' & Hcomp & Hserve). rewrite Hc in Hc'. injection Hc' as <- <- <-. split; [done|].
  unfold serve in Hserve. destruct (if bool_decide (tl = None) then _ else _) as [s1|] eqn:El.
  - destruct Hserve as (_ & -> & _). right; left. destruct (bool_decide (tl = None)); [|done]. unfold latest_good in El.
    destruct (bool_decide (skew_of inp o = [])) eqn:Hsk; [|done]. apply bool_decide_eq_true in Hsk. split_and!; [done|done|]. by exists s1.
  - unfold saved_good in Hserve.
    destruct (good (state_of inp (domain_of o)) (o_UID o)) as [b1|] eqn:Eg; cbn [mbind option_bind] in Hserve; [|by left; apply Hserve].
    destruct (negb (bool_decide (skew_of inp o = [])) && _) eqn:Esk; [by left; apply Hserve|].
    destruct (compiled_snapshot _ _ _); cbn [mbind option_bind] in Hserve; [|by left; apply Hserve].
    destruct Hserve as (_ & -> & _). unfold good in Eg.
    destruct (bool_decide (bu_UID _ = "")) eqn:Eu; [done|]. destruct (bool_decide (bu_UID _ = o_UID o)) eqn:Eo; [|done].
    injection Eg as <-. apply bool_decide_eq_false in Eu. apply bool_decide_eq_true in Eo. right; right. split_and!; [done..|].
    intros Hsk. rewrite (bool_decide_false (skew_of inp o = [])) in Esk by done. cbn in Esk. by apply Z.eqb_neq in Esk.
Qed.

(** Every saved generation was read in full. *)
Definition saved_ok (ns : string) (history : list (option (list Unstructured))) (state : gmap string Bundle) : Prop :=
  forall d b, state !! d = Some b -> b = no_bundle \/ read_in_full ns history d b.

Lemma pass_saved {CO : Codec} ns version limit history state items inp r :
  0 < limit -> reading_ok items -> Load (Some items) ns = Ok inp -> saved_ok ns history state ->
  pass_result ns version limit state (Some items) = Some r -> saved_ok ns (history ++ [Some items]) (rs_State r).
Proof.
  intros Hlim Hok Hl Hsaved Hr. destruct (pass_defined ns version limit state items inp Hlim Hok Hl) as (Hf & r' & Hr' & Hk).
  rewrite Hr in Hr'. injection Hr' as <-. intros d b Hb. destruct Hk as [He Hd]. destruct (Hd d b Hb) as (o & Ho & <-).
  destruct (He o Ho) as (tl & oc & s & b' & Hc & _ & Hst & _). rewrite Hb in Hst. injection Hst as <-.
  assert (in_Namespace inp = ns) as Hns.
  { unfold Load in Hl. destruct (load_loop items [] ∅) as [[ps sk]|]; [|done]. by injection Hl as <-. }
  destruct (pass_keeps _ _ _ _ _ _ Hc) as [_ [->|[(Hsk & -> & Hcomp)|(Hb' & Hu & _)]]]; [by left| |].
  - right. apply list_elem_of_lookup in Ho as [i Ho]. destruct (Forall2_lookup_r _ _ _ _ _ Hf Ho) as (u & Hu & Hdec).
    exists items, u, o. cbn in Hcomp, Hsk. rewrite Hns in Hcomp. change (skew_of inp o = []) in Hsk. rewrite Hsk in Hdec.
    split_and!; [|by eapply list_elem_of_lookup_2|done..]. apply elem_of_app. right. by left.
  - unfold state_of in Hb'. cbn in Hb'. destruct (state !! domain_of o) as [b1|] eqn:Es; [|by rewrite Hb' in Hu].
    cbn in Hb'. subst b1. destruct (Hsaved _ _ Es) as [->|Hr1]; [by left|]. right. by apply read_in_full_app.
Qed.

Lemma saved_after_ok {CO : Codec} ns version limit history :
  0 < limit -> Forall (fun items => forall us, items = Some us -> reading_ok us) history ->
  saved_ok ns history (saved_after ns version limit history).
Proof.
  intros Hlim. induction history as [|items history IH] using rev_ind; intros Hok; [done|].
  apply Forall_app in Hok as [Hok Hlast]. apply Forall_cons in Hlast as [Hlast _]. unfold saved_after. rewrite foldl_app. cbn [foldl].
  specialize (IH Hok). fold (saved_after ns version limit history).
  destruct (pass_result ns version limit (saved_after ns version limit history) items) as [r|] eqn:Er.
  - destruct items as [us|]; [|done]. assert (exists inp, Load (Some us) ns = Ok inp) as [inp Hl].
    { unfold pass_result in Er. destruct (Load (Some us) ns); [by eexists|done]. }
    exact (pass_saved _ _ _ _ _ _ _ _ Hlim (Hlast us eq_refl) Hl IH Er).
  - intros d b Hb. destruct (IH d b Hb) as [|Hr]; [by left|right]. by apply read_in_full_app.
Qed.

(** ** Claims *)

(** C26: An object is enforced as its author wrote it or not at all. Over any
    history of readings of the namespace, some of which may fail, each compiled
    with what the passes before it saved and fitted into the ConfigMap: every
    generation the operator saves for a domain is one that a reading knew in
    full and that compiles. An object whose spec has a field this build does not
    know is reported, does not compile and is not enforced; what its domain
    keeps is an earlier generation of the same object, known in full when an
    earlier pass read it, or nothing. An object known in full compiles exactly
    when its spec does. A listing names an object once and under the name of its
    domain, which the schema demands, and generations do not go back. *)
Theorem loaded_in_full {CO : Codec} (ns version : string) (limit : Z) (history : list (option (list Unstructured)))
    (items : list Unstructured) inp :
  0 < limit -> Forall (fun h => forall us, h = Some us -> reading_ok us) (history ++ [Some items]) ->
  generations_grow (history ++ [Some items]) -> Load (Some items) ns = Ok inp ->
  exists r, pass_result ns version limit (saved_after ns version limit history) (Some items) = Some r /\
    (forall d b, rs_State r !! d = Some b -> b = no_bundle \/ read_in_full ns (history ++ [Some items]) d b) /\
    Forall2 (fun u o =>
      exists skew oc b, Decode_object u = Ok (o, skew) /\
        rs_Policies r !! u_Key u = Some oc /\ rs_State r !! domain_of o = Some b /\
        (skew <> [] ->
           Compiled oc = false /\ Enforced oc = false /\
           (b = no_bundle \/
            (read_in_full ns history (domain_of o) b /\ bu_UID b = o_UID o /\ bu_GoodGeneration b < o_Generation o))) /\
        (skew = [] ->
           Compiled oc = bool_decide (is_Some (compiled_snapshot ns (domain_of o) (o_Spec o)))))
      items (in_Policies inp).
Proof.
  intros Hlim Hok Hgrow Hl. pose proof (proj1 (Forall_app _ _ _) Hok) as [Hok1 Hok2]. apply Forall_cons in Hok2 as [Hok2 _].
  specialize (Hok2 items eq_refl). pose proof (saved_after_ok ns version limit history Hlim Hok1) as Hsaved.
  set (state := saved_after ns version limit history) in *.
  destruct (pass_defined ns version limit state items inp Hlim Hok2 Hl) as (Hf & r & Hr & Hk). exists r. split; [done|].
  split; [by eapply pass_saved|]. apply Forall2_same_length_lookup_2; [by eapply Forall2_length|].
  intros i u o Hu Ho. pose proof (Forall2_lookup_lr _ _ _ _ _ _ Hf Hu Ho) as Hd. cbn in Hd.
  destruct (proj1 Hk o (list_elem_of_lookup_2 _ _ _ Ho)) as (tl & oc & s & b & Hc & _ & Hst & Hp).
  exists (skew_of inp o), oc, b. rewrite (decoded_key _ _ _ Hd) in Hp. split_and!; [done..| |].
  all: destruct (pass_keeps _ _ _ _ _ _ Hc) as [Hcomp Hb]; unfold latest_good in Hcomp;
    change (skew_of (with_state state version inp) o) with (skew_of inp o) in *;
    assert (in_Namespace inp = ns) as Hns by (unfold Load in Hl; destruct (load_loop items [] ∅) as [[ps sk]|]; [by injection Hl as <-|done]).
  - intros Hsk. rewrite (bool_decide_false (skew_of inp o = [])) in Hcomp by done.
    assert (Compiled oc = false) as Hfalse by (rewrite Hcomp; by apply bool_decide_eq_false; intros []).
    split_and!; [done|unfold Enforced; by rewrite Hfalse|].
    destruct Hb as [->|[(? & _)|(Hb & Hne & Huid & Hgen)]]; [by left|done|right].
    unfold state_of in Hb. cbn in Hb. destruct (state !! domain_of o) as [b1|] eqn:Es; [|by rewrite Hb in Hne].
    cbn in Hb. subst b1. destruct (Hsaved _ _ Es) as [->|Hr1]; [by destruct Hne|]. split_and!; [done..|].
    destruct Hr1 as (us & u' & o' & Hi & Hu' & Hd' & _ & -> & _). cbn in *.
    apply list_elem_of_lookup in Hi as [j Hj]. pose proof (lookup_lt_Some _ _ _ Hj) as Hlt.
    specialize (Hgrow j (length history) us items u' u o' o [] (skew_of inp o)).
    rewrite lookup_app_l in Hgrow by done. rewrite lookup_app_r, Nat.sub_diag in Hgrow by lia.
    specialize (Hgrow ltac:(lia) Hj eq_refl Hu' (list_elem_of_lookup_2 _ _ _ Hu) Hd' Hd Huid). specialize (Hgen Hsk). lia.
  - intros Hsk. rewrite (bool_decide_true (skew_of inp o = [])) in Hcomp by done. cbn in Hcomp. by rewrite Hns in Hcomp.
Qed.

End facts.

(** ** Witnesses *)

(** Stored objects of a demo cluster: the object as typed, with the fields of
    its spec the schema does not define. *)
#[local] Instance demo_converter : Converter := {|
  Unstructured := RateLimitPolicy * list string;
  u_Key := fun u => ObjectKeyFromObject u.1;
  FromUnstructured := fun u => Some u.1;
  SpecField := list string;
  NestedSpec := fun u => Some (Some u.2);
  MarshalSpec := fun fields => Some (Join "," fields);
  UnmarshalStrict := fun raw => Some (filter (fun f => f <> "") (Split "," raw)) |}.

#[local] Instance demo_converter_laws : ConverterLaws.
Proof. constructor. intros u o [= <-]. done. Qed.

(** An object read in full, then with a field this build does not know; a
    reading between them fails. *)
Definition demo_first : list Unstructured := [(demo_object "ua" 1 (demo_rates 3), [])].
Definition demo_listed : list Unstructured := [(demo_object "ua" 2 (demo_rates 5), ["newField"]); (demo_other, [])].
Definition demo_history : list (option (list Unstructured)) := [Some demo_first; None].

Lemma demo_readings : Forall (fun h => forall us, h = Some us -> reading_ok us) (demo_history ++ [Some demo_listed]).
Proof.
  assert (forall us, us = demo_first \/ us = demo_listed -> reading_ok us) as Hus.
  { intros us [->| ->]; (split; [by_decide|]); intros u o skew Hu Hd;
      repeat (apply elem_of_cons in Hu as [->|Hu]; [vm_compute in Hd; by injection Hd as <- _|]); by apply elem_of_nil in Hu. }
  apply Forall_forall. intros h Hh us ->. apply Hus. unfold demo_history in Hh. set_solver.
Qed.

Lemma demo_grow : generations_grow (demo_history ++ [Some demo_listed]).
Proof.
  intros i j us vs u v o o' skew skew' Hij Hi Hj Hu Hv Hdu Hdv Huid.
  unfold Decode_object, specSkew in Hdu, Hdv. cbn in Hdu, Hdv. injection Hdu as <- _. injection Hdv as <- _.
  destruct i as [|[|[|]]]; try done; destruct j as [|[|[|]]]; try done; try lia; injection Hi as <-; injection Hj as <-;
    repeat (apply elem_of_cons in Hu as [->|Hu]); try (by apply elem_of_nil in Hu);
    repeat (apply elem_of_cons in Hv as [->|Hv]); try (by apply elem_of_nil in Hv); cbn in *; try lia; done.
Qed.

Lemma loaded_in_full_witness :
  exists inp r oc b, Load (Some demo_listed) "ns" = Ok inp /\
    pass_result "ns" "1.0" 1000 (saved_after "ns" "1.0" 1000 demo_history) (Some demo_listed) = Some r /\
    rs_Policies r !! ("ns", "gw") = Some oc /\ Compiled oc = false /\ Enforced oc = false /\
    rs_State r !! "gw" = Some b /\ b = mkBundle "ua" 1 (demo_rates 3).
Proof.
  assert (exists inp, Load (Some demo_listed) "ns" = Ok inp /\
    in_Policies inp = [demo_object "ua" 2 (demo_rates 5); demo_other]) as (inp & Hl & Hp).
  { eexists. split; [vm_compute; reflexivity|]. vm_compute; reflexivity. }
  destruct (loaded_in_full "ns" "1.0" 1000 demo_history demo_listed inp) as (r & Hr & _ & Hf);
    [done|exact demo_readings|exact demo_grow|exact Hl|].
  rewrite Hp in Hf. inversion Hf as [|u o us os (skew & oc & b & Hd & Hoc & Hb & Hsk & _) _]; subst.
  destruct Hsk as (H1 & H2 & _). { intros ->. vm_compute in Hd. discriminate Hd. }
  exists inp, r, oc, b. split; [exact Hl|]. split; [exact Hr|]. split; [exact Hoc|]. split; [exact H1|]. split; [exact H2|].
  split; [exact Hb|]. vm_compute in Hr. injection Hr as <-. vm_compute in Hb. by injection Hb as <-.
Defined.

(** * operator/internal/config/reconciler.go: what the writer is woken for

    The watches of [SetupWithManager], with the writer's passes between the
    events. The cache, the work queue and the predicate on generations are
    controller-runtime's: the cache holds the objects as they were last
    notified, the queue holds one request or none, and a pass that fails is
    queued again. *)

(** ** Definitions *)

(** api/contract *)
Definition ConfigMapName : string := "ratelimit-config".

(** The metadata of an object and [GenerationChangedPredicate]: an update that
    leaves metadata.generation as it was is skipped. *)
Class Watched `{Converter} := {
  u_UID : Unstructured -> string;
  u_Generation : Unstructured -> Z;
  generation_changed : Unstructured -> Unstructured -> bool;
  generation_changed_spec old new : generation_changed old new = true <-> u_Generation old <> u_Generation new }.

(** What the informers notify. An update is of the object of a name: a deletion
    and a creation that the watch missed are notified as one. *)
Inductive watch_event `{Converter} :=
| PolicyCreated (u : Unstructured)
| PolicyDeleted (u : Unstructured)
| PolicyUpdated (old new : Unstructured)
| ConfigMapChanged (key : ObjectKey)
| Kick.

Section watches.
Context {PL : Platform} {WI : Wire} `{Watched} (s : ConfigStore) (Limit : Z) (namespace : string).

(** The requests of an event: [toTheOne] behind the predicates. *)
Definition writer_requests (e : watch_event) : list ObjectKey :=
  let request := (namespace, ConfigMapName) in
  match e with
  | PolicyCreated _ | PolicyDeleted _ | Kick => [request]
  | PolicyUpdated old new => if generation_changed old new then [request] else []
  | ConfigMapChanged key => if bool_decide (key.1 = namespace) && bool_decide (key.2 = ConfigMapName) then [request] else []
  end.

(** The policies as cached, the ConfigMap as stored, whether the request is
    queued, and what the running pass has read. *)
Record cluster := mkCluster {
  cl_policies : list Unstructured;
  cl_object : option ConfigMap;
  cl_queued : bool;
  cl_pass : option (option Input) }.

Definition enqueue (e : watch_event) (queued : bool) : bool := queued || (0 <? length (writer_requests e))%nat.

(** What [policy.Load] reads of the cache. *)
Definition loaded (items : list Unstructured) : option Input :=
  match Load (Some items) namespace with Ok inp => Some inp | Err _ => None end.

Inductive cluster_step : option watch_event -> cluster -> cluster -> Prop :=
| notify_created items o q b u : u_Key u ∉ (u_Key <$> items) ->
    cluster_step (Some (PolicyCreated u)) (mkCluster items o q b) (mkCluster (items ++ [u]) o (enqueue (PolicyCreated u) q) b)
| notify_deleted before u after o q b :
    cluster_step (Some (PolicyDeleted u)) (mkCluster (before ++ u :: after) o q b)
      (mkCluster (before ++ after) o (enqueue (PolicyDeleted u) q) b)
| notify_updated before old new after o q b : u_Key new = u_Key old ->
    cluster_step (Some (PolicyUpdated old new)) (mkCluster (before ++ old :: after) o q b)
      (mkCluster (before ++ new :: after) o (enqueue (PolicyUpdated old new) q) b)
(** The change and its notification at once; the informer's delay is left out. *)
| notify_object items o o' q b :
    cluster_step (Some (ConfigMapChanged (namespace, ConfigMapName))) (mkCluster items o q b)
      (mkCluster items o' (enqueue (ConfigMapChanged (namespace, ConfigMapName)) q) b)
| pass_starts items o (list_fails : bool) :
    cluster_step None (mkCluster items o true None) (mkCluster items o false (Some (if list_fails then None else loaded items)))
| pass_ends items o q policies load_fails f o' r :
    Reconcile s Limit policies load_fails f o = Some (o', r) ->
    cluster_step None (mkCluster items o q (Some policies))
      (mkCluster items o' (q || match r with Err _ => true | Ok _ => false end) None).

(** The operator starts: the kick of [SetupWithManager]. *)
Definition operator_start (items : list Unstructured) (o : option ConfigMap) : cluster := mkCluster items o (enqueue Kick false) None.

(** The writer has nothing to do. *)
Definition idle (c : cluster) : Prop := cl_queued c = false /\ cl_pass c = None.

(** The API server: generations tell the revisions of one object apart, and
    what is decoded of it is its metadata and its spec. *)
Definition stored (e : watch_event) : Prop :=
  match e with
  | PolicyUpdated old new =>
      u_UID old = u_UID new -> u_Generation old = u_Generation new -> Decode_object old = Decode_object new
  | _ => True
  end.

(** The update is of one object, not of one and its successor. *)
Definition same_object (e : watch_event) : Prop :=
  match e with PolicyUpdated old new => u_UID old = u_UID new | _ => True end.

Definition notified (P : watch_event -> Prop) (c c' : cluster) : Prop :=
  exists e, (forall ev, e = Some ev -> stored ev /\ P ev) /\ cluster_step e c c'.

(** ** Lemmas *)

Lemma load_loop_same before old new after policies skews : Decode_object old = Decode_object new ->
  load_loop (before ++ old :: after) policies skews = load_loop (before ++ new :: after) policies skews.
Proof.
  intros Hd. revert policies skews. induction before as [|u before IH]; intros policies skews; cbn; [by rewrite Hd|].
  destruct (Decode_object u) as [[o skew]|]; [|done]. apply IH.
Qed.

(** The last pass that ended well was over the policies as they are, and left
    the ConfigMap as it is. *)
Definition up_to_date (c : cluster) : Prop :=
  exists inp load_fails f before lost, loaded (cl_policies c) = Some inp /\
    Reconcile s Limit (Some inp) load_fails f before = Some (cl_object c, Ok lost).

Record cluster_ok (c : cluster) : Prop := {
  ck_read : forall inp, cl_queued c = false -> cl_pass c = Some (Some inp) -> loaded (cl_policies c) = Some inp;
  ck_idle : idle c -> up_to_date c }.

(** A queued request will look at everything again. *)
Lemma queued_ok items o b : cluster_ok (mkCluster items o true b).
Proof. split; [done|]. by intros [? _]. Qed.

Lemma cluster_step_ok c c' : notified same_object c c' -> cluster_ok c -> cluster_ok c'.
Proof.
  intros (e & He & Hs) [Hr Hi]. unfold idle, up_to_date in *.
  destruct Hs as [items o q b u _|before u after o q b|before old new after o q b _|items o o' q b|items o fails|items o q policies lf f o' r E];
    unfold enqueue in *; cbn in *.
  1,2: rewrite orb_true_r; apply queued_ok.
  - destruct (He _ eq_refl) as [Hst Hu]. cbn in Hst, Hu. destruct (generation_changed old new) eqn:Eg; cbn.
    { rewrite orb_true_r. apply queued_ok. }
    assert (loaded (before ++ new :: after) = loaded (before ++ old :: after)) as El.
    { unfold loaded, Load. rewrite (load_loop_same before old new after); [done|]. apply Hst; [done|].
      destruct (decide (u_Generation old = u_Generation new)) as [|Hne]; [done|]. apply generation_changed_spec in Hne. congruence. }
    rewrite orb_false_r. split; cbn; unfold up_to_date; cbn; rewrite El; done.
  - rewrite !bool_decide_true by done. cbn. rewrite orb_true_r. apply queued_ok.
  - split; cbn; [|by intros [_ ?]]. intros inp _ [= E]. by destruct fails.
  - split; cbn; [done|]. intros [Hq _]. apply orb_false_iff in Hq as [-> Hok]. destruct r as [lost|]; [|done].
    destruct policies as [inp|]; [|done]. exists inp, lf, f, o, lost. split; [by apply Hr|done].
Qed.

End watches.

(** ** Claims *)

(** C38: The ConfigMap follows the policies. In every state the operator can be in,
    whatever fails and whatever changes while a pass runs, as long as updates
    are of one object: the writer is queued, or a pass is running, or the last
    pass ended well, read the policies exactly as they are now, and left the
    ConfigMap exactly as it is now. So nothing the writer reads changes without
    a pass after it, and no foreign edit of the ConfigMap stays. *)
Theorem writer_follows {PL : Platform} {WI : Wire} `{Watched} (s : ConfigStore) (Limit : Z) (namespace : string)
    (items : list Unstructured) (o : option ConfigMap) (c : cluster) :
  rtc (notified s Limit namespace same_object) (operator_start namespace items o) c ->
  cl_queued c = true \/ is_Some (cl_pass c) \/
  exists inp load_fails f before lost, Load (Some (cl_policies c)) namespace = Ok inp /\
    Reconcile s Limit (Some inp) load_fails f before = Some (cl_object c, Ok lost).
Proof.
  intros Hr. assert (cluster_ok s Limit namespace c) as [_ Hi].
  { assert (cluster_ok s Limit namespace (operator_start namespace items o)) as Hs by apply queued_ok.
    revert Hs. induction Hr as [|x y z Hxy _ IH]; [done|]. intros Hx. by eapply IH, cluster_step_ok. }
  destruct (cl_queued c) eqn:Eq; [by left|right]. destruct (cl_pass c) as [p|] eqn:Ep; [left; by exists p|right].
  destruct (Hi (conj Eq Ep)) as (inp & lf & f & before & lost & Hl & Hrec). exists inp, lf, f, before, lost. split; [|done].
  unfold loaded in Hl. by destruct (Load (Some (cl_policies c)) namespace) as [i|]; simplify_eq.
Qed.

(** ** Examples *)

(** The demo cluster's objects with their metadata. *)
#[local] Instance demo_watched : Watched.
Proof.
  refine {| u_UID := fun u => o_UID u.1; u_Generation := fun u => o_Generation u.1;
            generation_changed := fun old new => negb (o_Generation old.1 =? o_Generation new.1) |}.
  intros old new. cbn. destruct (Z.eqb_spec (o_Generation old.1) (o_Generation new.1)); cbn; split; done || congruence.
Defined.

Definition first_entries : gmap string ManifestDomain := {["gw" := mkManifestDomain 1 "u1" gw_hash]}.
Definition first_wire : Wire := demo_wire_text [("{gw}", gw_spec)] [("{manifest}", mkWireManifest 1 "1.0" (Some first_entries))].
Definition first_policy : Unstructured := (mkObject "ns" "gw" "u1" 1 gw_spec, []).

(** Its successor: deleted and created again under the same name, without the
    limits. *)
Definition second_policy : Unstructured := (mkObject "ns" "gw" "u2" 1 (mkSpec "gw" [] [] []), []).

Abbreviation demo_notified := (notified (PL := demo_mgmt_platform) (WI := first_wire) gw_store 1000 "ns").

(** The first pass of the operator writes the policy. *)
Lemma first_pass (P : watch_event -> Prop) :
  rtc (demo_notified P) (operator_start "ns" [first_policy] None) (mkCluster [first_policy] (Some gw_cm) false None).
Proof.
  eapply rtc_l; [exists None; split; [done|]; exact (pass_starts _ _ _ [first_policy] None false)|].
  apply rtc_once. exists None. split; [done|].
  eapply (pass_ends gw_store 1000 "ns" _ None false _ false no_faults (Some gw_cm) (Ok [])).
  vm_compute. reflexivity.
Qed.

(** A policy deleted and created again while its watch is broken is missed. The
    informer notifies the two as one update, both objects are at generation 1,
    and the predicate skips it: the writer is idle while the ConfigMap holds
    the limits of the deleted object. *)
Theorem recreated_policy_missed :
  exists (c : cluster) (raw : string) (m : Manifest) (v : Z),
    rtc (demo_notified (fun _ => True)) (operator_start "ns" [first_policy] None) c /\ idle c /\
    cl_policies c = [second_policy] /\ u_UID second_policy = "u2" /\
    (o ← cl_object c; cf_Data o !! ManifestKey) = Some raw /\ Decode (WI := first_wire) raw = Ok (m, v) /\
    md_UID <$> mf_Domains m !! "gw" = Some "u1".
Proof.
  exists (mkCluster [second_policy] (Some gw_cm) false None), "{manifest}", (mkManifest "1.0" first_entries), 1.
  split; [|by vm_compute]. eapply rtc_r; [apply first_pass|]. exists (Some (PolicyUpdated first_policy second_policy)). split.
  - intros ev [= <-]. split; [|done]. intros Hu. vm_compute in Hu. discriminate Hu.
  - exact (notify_updated (PL := demo_mgmt_platform) (WI := first_wire) (H0 := demo_watched) gw_store 1000 "ns" [] first_policy second_policy []
      (Some gw_cm) false None eq_refl).
Qed.

(** After its first pass the writer is idle and the ConfigMap is the policy's. *)
Lemma writer_follows_witness :
  exists c : cluster, rtc (demo_notified same_object) (operator_start "ns" [first_policy] None) c /\ idle c /\
    exists inp load_fails f before lost, Load (Some (cl_policies c)) "ns" = Ok inp /\
      Reconcile (PL := demo_mgmt_platform) (WI := first_wire) gw_store 1000 (Some inp) load_fails f before = Some (cl_object c, Ok lost).
Proof.
  exists (mkCluster [first_policy] (Some gw_cm) false None). split; [apply first_pass|]. split; [by split|].
  destruct (writer_follows (PL := demo_mgmt_platform) (WI := first_wire) (H0 := demo_watched) gw_store 1000 "ns" [first_policy] None
    (mkCluster [first_policy] (Some gw_cm) false None) (first_pass same_object)) as [Hq|[[p Hp]|Hw]];
    [discriminate Hq|discriminate Hp|exact Hw].
Defined.
