(* ===== verification/Fields.v ===== *)
(** * api/manifest/fields.go: the field paths of a type

    The paths the payload's golden is made of. A reflected type is a number in
    an environment of definitions, which is how a type can mention itself; the
    walk carries fuel, and the theorem says how much is enough and for which
    types. *)
From S2P Require Import Prelude GoStrings.

(** ** Definitions *)

Record StructField := mkStructField {
  sf_Name : string;
  sf_Exported : bool;
  sf_Anonymous : bool;
  sf_JSON : string;
  sf_Type : nat }.

Inductive shape :=
| Pointer (elem : nat)
| Interface
| Struct (fields : list StructField)
| Slice (elem : nat)
| Array_ (elem : nat)
| Map_ (elem : nat)
| Scalar.

(** [hasOwnJSON]: the type or a pointer to it marshals itself. *)
Record definition := mkDefinition { df_Shape : shape; hasOwnJSON : bool }.

Definition types : Type := nat -> definition.

(** [jsonName]: the key and whether the field is inlined. *)
Definition jsonName (f : StructField) : string * bool :=
  let '(name, _, _) := Cut "," (sf_JSON f) in
  if bool_decide (name = "") then if sf_Anonymous f then ("", true) else (sf_Name f, false) else (name, false).

Section walk.
Context (T : types).

(** [isLeaf]; the loop looks through pointers. *)
Fixpoint isLeaf (fuel : nat) (t : nat) : option bool :=
  match fuel with
  | O => None
  | S fuel =>
      match df_Shape (T t) with
      | Pointer e => isLeaf fuel e
      | s => Some (hasOwnJSON (T t) || match s with Scalar => true | _ => false end)
      end
  end.

(** One field of a struct: what it adds to the paths. *)
Definition walk_field (walk : nat -> string -> option (list string)) (fuel : nat) (prefix : string) (f : StructField)
    : option (list string) :=
  if negb (sf_Exported f) && negb (sf_Anonymous f) then Some []
  else
    let '(name, inline) := jsonName f in
    if bool_decide (name = "-") then Some []
    else if inline then walk (sf_Type f) prefix
    else
      let child := if bool_decide (prefix = "") then name else prefix +:+ "." +:+ name in
      match isLeaf fuel (sf_Type f) with
      | None => None
      | Some leaf => if leaf then Some [child] else walk (sf_Type f) child
      end.

Fixpoint walk_fields (walk : nat -> string -> option (list string)) (fuel : nat) (prefix : string) (fs : list StructField)
    : option (list string) :=
  match fs with
  | [] => Some []
  | f :: fs =>
      match walk_field walk fuel prefix f, walk_fields walk fuel prefix fs with
      | Some here, Some rest => Some (here ++ rest)
      | _, _ => None
      end
  end.

(** The element of a slice, array or map, under its suffix. *)
Definition walk_elem (walk : nat -> string -> option (list string)) (fuel : nat) (path : string) (e : nat) : option (list string) :=
  match isLeaf fuel e with
  | None => None
  | Some leaf => if leaf then Some [path] else walk e path
  end.

(** [walk]: the paths below a type, in order; [seen] are the structs on the
    way down. *)
Fixpoint walk (fuel : nat) (seen : gset nat) (t : nat) (prefix : string) : option (list string) :=
  match fuel with
  | O => None
  | S fuel =>
      match df_Shape (T t) with
      | Pointer e => walk fuel seen e prefix
      | Interface => Some [prefix +:+ "<any>"]
      | s =>
          if hasOwnJSON (T t) then Some [prefix]
          else match s with
          | Struct fs =>
              if bool_decide (t ∈ seen) then Some [prefix +:+ "..."]
              else walk_fields (walk fuel ({[t]} ∪ seen)) fuel prefix fs
          | Slice e | Array_ e => walk_elem (walk fuel seen) fuel (prefix +:+ "[]") e
          | Map_ e => walk_elem (walk fuel seen) fuel (prefix +:+ "{}") e
          | _ => Some [prefix]
          end
      end
  end.

Definition FieldPaths (fuel : nat) (t : nat) : option (list string) := sort_strings <$> walk fuel ∅ t "".

(** ** Reference definitions *)

(** The element a type is made of without a struct between. *)
Definition element (t : nat) : option nat :=
  match df_Shape (T t) with Pointer e | Slice e | Array_ e | Map_ e => Some e | _ => None end.

(** The structs the types mention are among [structs], and no type is made of
    itself by pointers, slices, arrays and maps alone: [rank] falls along
    them, within [most]. *)
Record grounded (structs : gset nat) (rank : nat -> nat) (most : nat) : Prop := {
  gr_struct : forall t fs, df_Shape (T t) = Struct fs -> t ∈ structs;
  gr_rank : forall t e, element t = Some e -> (rank e < rank t)%nat;
  gr_most : forall t, (rank t <= most)%nat }.

(** ** Lemmas *)

Context (structs : gset nat) (rank : nat -> nat) (most : nat) (Hg : grounded structs rank most).

Lemma isLeaf_ends fuel : forall t, (rank t < fuel)%nat -> is_Some (isLeaf fuel t).
Proof.
  induction fuel as [|fuel IH]; intros t Ht; [lia|]. cbn [isLeaf].
  destruct (df_Shape (T t)) as [e| | | | | |] eqn:Es; try by eexists.
  apply IH. pose proof (gr_rank _ _ _ Hg t e) as Hr. unfold element in Hr. rewrite Es in Hr. specialize (Hr eq_refl). lia.
Qed.

Lemma walk_fields_ends w fuel prefix fs : (most < fuel)%nat -> (forall t p, is_Some (w t p)) ->
  is_Some (walk_fields w fuel prefix fs).
Proof.
  intros Hf Hw. induction fs as [|f fs [rest IH]]; cbn [walk_fields]; [by eexists|].
  assert (is_Some (walk_field w fuel prefix f)) as [here ->]; [|cbn; rewrite IH; by eexists].
  unfold walk_field. destruct (_ && _); [by eexists|]. destruct (jsonName f) as [name inline].
  destruct (bool_decide _); [by eexists|]. destruct inline; [apply Hw|].
  destruct (isLeaf_ends fuel (sf_Type f)) as [leaf ->]; [pose proof (gr_most _ _ _ Hg (sf_Type f)); lia|].
  cbn. destruct leaf; [by eexists|apply Hw].
Qed.

(** The structs not yet met, and the rank within one of them. *)
Definition left_ (seen : gset nat) : nat := size (structs ∖ seen).

Lemma walk_ends fuel : forall seen t prefix,
  (left_ seen * S (S most) + rank t + most < fuel)%nat -> is_Some (walk fuel seen t prefix).
Proof.
  induction fuel as [|fuel IH]; intros seen t prefix Hf; [lia|]. cbn [walk].
  assert (forall e path, element t = Some e -> is_Some (walk fuel seen e path) /\ is_Some (isLeaf fuel e)) as He.
  { intros e path Hte. pose proof (gr_rank _ _ _ Hg t e Hte). split; [apply IH; lia|apply isLeaf_ends].
    pose proof (gr_most _ _ _ Hg e). lia. }
  assert (forall e path, element t = Some e -> is_Some (walk_elem (walk fuel seen) fuel path e)) as Hel.
  { intros e path Hte. destruct (He e path Hte) as [Hw [leaf Hleaf]]. unfold walk_elem. rewrite Hleaf. cbn. by destruct leaf; [eexists|]. }
  unfold element in He, Hel. destruct (df_Shape (T t)) as [e| |fs|e|e|e|] eqn:Es; try (by eexists).
  - by apply He.
  - destruct (hasOwnJSON (T t)); [by eexists|]. destruct (decide (t ∈ seen)) as [Hin|Hin]; [rewrite bool_decide_true by done; by eexists|].
    assert (S (left_ ({[t]} ∪ seen)) <= left_ seen)%nat as Hlt.
    { unfold left_. pose proof (gr_struct _ _ _ Hg t fs Es) as Hts.
      apply (subset_size (structs ∖ ({[t]} ∪ seen)) (structs ∖ seen)). split; [set_solver|].
      intros Hsub. specialize (Hsub t). set_solver. }
    rewrite bool_decide_false by done. apply walk_fields_ends; [nia|]. intros t' p. apply IH.
    pose proof (gr_most _ _ _ Hg t'). nia.
  - destruct (hasOwnJSON (T t)); [by eexists|]. by apply Hel.
  - destruct (hasOwnJSON (T t)); [by eexists|]. by apply Hel.
  - destruct (hasOwnJSON (T t)); [by eexists|]. by apply Hel.
  - destruct (hasOwnJSON (T t)); by eexists.
Qed.
End walk.

(** ** Claims *)

(** The walk over the fields of a type ends, recursive types included,
    whenever each of their loops goes through a struct: the structs times the
    longest way through pointers, slices, arrays and maps is enough. *)
Theorem field_paths_end (T : types) (structs : gset nat) (rank : nat -> nat) (most : nat) (t : nat) :
  grounded T structs rank most ->
  exists paths, FieldPaths T (S (size structs * S (S most) + most + most)) t = Some paths /\ Sorted String.le paths.
Proof.
  intros Hg. unfold FieldPaths.
  destruct (walk_ends T structs rank most Hg (S (size structs * S (S most) + most + most)) ∅ t "") as [paths ->].
  - unfold left_. replace (structs ∖ ∅) with structs by set_solver. pose proof (gr_most _ _ _ _ Hg t). lia.
  - exists (sort_strings paths). split; [done|]. apply sort_strings_Sorted.
Qed.

(** A named slice of itself, [type T []T], is not cut: the walk has no end,
    though its comment says a recursive type ends. *)
Theorem field_paths_slice_of_itself (fuel : nat) :
  FieldPaths (fun _ => mkDefinition (Slice 0) false) fuel 0 = None.
Proof.
  unfold FieldPaths. assert (forall seen prefix, walk (fun _ => mkDefinition (Slice 0) false) fuel seen 0 prefix = None) as ->; [|done].
  induction fuel as [|fuel IH]; intros seen prefix; [done|]. cbn [walk df_Shape hasOwnJSON]. unfold walk_elem.
  destruct (isLeaf _ fuel 0) as [leaf|] eqn:El; [|done]. destruct fuel as [|fuel]; [done|]. cbn in El. injection El as <-. apply IH.
Qed.

(** A node of a list: [type Node struct { Value string; Next *Node }]. *)
Definition demo_node : types := fun t =>
  match t with
  | 0%nat => mkDefinition (Struct [mkStructField "Value" true false "value" 2; mkStructField "Next" true false "next,omitempty" 1]) false
  | 1%nat => mkDefinition (Pointer 0) false
  | _ => mkDefinition Scalar false
  end.

Lemma field_paths_end_witness :
  exists paths, FieldPaths demo_node 6 0 = Some paths /\ Sorted String.le paths /\ paths = ["next..."; "value"].
Proof.
  destruct (field_paths_end demo_node {[0%nat]} (fun t => if bool_decide (t = 1%nat) then 1%nat else 0%nat) 1 0) as (paths & Hp & Hs).
  - constructor.
    + intros [|[|t]] fs; cbn; intros Ht; [set_solver|done|done].
    + intros [|[|t]] e; cbn; intros Ht; simplify_eq; vm_compute; lia.
    + intros t. case_bool_decide; lia.
  - exists paths. split; [exact Hp|]. split; [exact Hs|]. vm_compute in Hp. by injection Hp as <-.
Defined.
